(* ===== verification/_CoqProject ===== *)
-Q . S2P
Prelude.v
GoStrings.v
Storage.v
Hash.v
Zlib.v
Delta.v
Deck.v
Julian.v
Quote.v
Xfer.v
Blob.v
Content.v
Merge.v
Diff.v
Dag.v
Bisect.v
Db.v
Uv.v
Auth.v
Receive.v
Tag.v
Crosslink.v
Linked.v
Verify.v
Checkin.v
Shun.v
TableSync.v
CkinLock.v
Handler.v
HandlerSafety.v
Clone.v
Session.v
CloneComplete.v
SyncLinked.v
CheckinLinked.v
Annotate.v
Branch.v
Checkout.v
CheckoutSpec.v
SessionSafety.v
