(* ===== verification/Prelude.v ===== *)
(** * libfossil: a verification development

    libfossil is a Go implementation of the Fossil version control system: a
    repository is an SQLite database of content-addressed artifacts, related by
    manifests and exchanged by a sync protocol.  This library models its pure and
    its stateful core and proves what makes each part correct.

    ** The program's parts and their models

    - [Prelude] : bytes, Go integers, and the [outcome] monad ([Ret], [Fail],
      [Panic]; [NoFuel] for a loop that would exceed its fuel).
    - [GoStrings] : the functions of Go's [strings], [strconv], [fmt] and
      [sort] packages that the code calls, on bytes, with their round trips.
    - [Hash] : src/internal/hash/hash.go, with SHA-1 and MD5 as executable
      definitions; SHA3-256 stays a parameter.
    - [Zlib] : the contract of [compress/zlib] as a type class ([inflate] undoes
      [deflate]; a stream starts with a valid zlib header), an instance (stored
      blocks), and the 4-byte size prefix that blobs and messages share.
    - [Delta] : src/internal/delta/delta.go.  [Create], [Apply], [Checksum] and
      their helpers; [denotes] is the abstract meaning of a delta.
    - [Deck] : src/internal/deck.  The manifest artifact as a record, [Marshal]
      and [Parse] with every card, the Z card, the R card, escaping.
    - [Xfer] : src/internal/xfer.  The sync protocol's cards as an inductive type
      with one constructor per Go struct, every encoder and parser, the message
      formats.
    - [Blob] : src/internal/blob and src/internal/content/content.go over the
      tables of src/db/schema.go, a record of finite maps.  [Store], [StoreDelta],
      [StorePhantom], [Load], [Expand]; [expands] and [repo_ok] say what an
      artifact's content is and when a repository is consistent.
    - [Content] : the rest of src/internal/content.  The LRU cache as one
      definition per critical section of its mutex and a step relation that
      interleaves goroutines with storage; private artifacts; clusters.
    - [Merge] : src/internal/merge: line diff, three-way merge, strategies.
    - [Diff] : src/internal/diff/diff.go: Myers' algorithm, hunks, unified text.
    - [Dag] : the walks over the [plink] table: src/internal/path/path.go,
      merge/ancestor.go and merge/detect.go.
    - [Bisect] : src/internal/bisect/bisect.go: the session in the [vvar] table
      and the choice of the next check-in.
    - [Db] : src/db/schema.go and the rows of a new repository (src/internal/repo):
      the record of all tables, the classes for what the SQL engine and its driver
      do, the errors of the parts over the database.
    - [Uv] : src/internal/uv: unversioned files.
    - [Auth] : src/internal/auth (without invites) and src/internal/sync/auth.go:
      users, capabilities, login cards.
    - [Receive] : what client and server do with a received artifact
      ([storeReceivedFile] of src/internal/sync/client.go, clusters).
    - [Shun] : src/internal/shun: shunned artifacts and purging.
    - [TableSync] : src/internal/repo/tablesync.go and the helpers of
      src/internal/sync for tables whose rows are synchronised.
    - [CkinLock] : src/internal/sync/ckin_lock.go.
    - [Handler] : the sync server, src/internal/sync/handler.go, handler_uv.go and
      handler_tablesync.go: a record per request, one definition per handler, and
      the passes over the cards of the request; [HandlerSafety] has its theorems.
    - [Clone] : src/internal/sync/clone.go, the client that clones a repository,
      over any transport; [CloneComplete] runs it against [Handler].
    - [Session] : the two-way client, src/internal/sync/session.go, client.go and
      client_tablesync.go: a record per session, a definition per method, the
      rounds over any transport; [SessionSafety] has its theorems.
    - [Julian], [Quote] : Julian days (src/internal/fsltype, src/db/scan.go)
      and what fmt.Sprintf's %q writes.
    - [Tag] : src/internal/tag: tags on artifacts, the queue ordered by time and
      the propagation of tags along primary parents.
    - [Crosslink] : src/internal/manifest/crosslink.go and dephantomize.go: one
      definition per type of artifact, the references that are missing, and the
      sweep; [Linked] has its invariants and theorems.
    - [SyncLinked] : requests, clones and crosslinking composed.
    - [Checkin] : src/internal/manifest/manifest.go, files.go, log.go, finfo.go:
      creating check-ins, file lists, logs and histories; [CheckinLinked] relates
      the tables a check-in writes itself to those crosslinking would write.
    - [Verify] : src/internal/verify: the checks with their report, and the rebuild
      of the derived tables.
    - [Annotate] : src/internal/annotate: who changed which line.
    - [Branch] : src/internal/branch: creating, listing and closing branches.
    - [Storage] : the files of simio/storage.go as a class of operations on an
      abstract disk with its laws, storage in memory (simio/storage_mem.go) as an
      instance, and the functions of path/filepath on names.
    - [Checkout] : src/internal/checkout: a record for the tables [vfile],
      [vmerge] and [vvar], the disk, the queue and the repository; a definition
      per method, each of which leaves the checkout it reached also when it
      fails.  [CheckoutSpec] has the relation [operation] of all of them and
      their theorems.

    They build on each other as the code does: [Xfer], [Blob] use [Zlib]; [Blob]
    uses [Delta] and [Hash]; [Content] uses [Blob] and [Deck]; [Deck] uses [Hash];
    [Bisect] uses [Dag]; [Receive] uses [Content] and [Deck]; [Handler] uses every
    part it has a card for; [Clone] talks to it in cards of [Xfer].

    ** What the theorems show

    - Round trips: deltas, manifests, escaped arguments, cards, messages, stored
      artifacts, clusters.
    - Meaning: [Apply] accepts exactly the delta language, [Checksum] is its
      formula, [VerifyZ] accepts exactly the texts it should, [Expand] refines
      [expands], and a manifest's text is independent of the order of its cards.
    - Optimality: the merge's matching is a longest common subsequence, Myers'
      script is minimal, a shortest path is shortest, bisection tests the check-in
      nearest to the middle, and eviction removes no more than it must.
    - Invariants and refinements: storage keeps every artifact readable under its
      hash, the cache is coherent under every interleaving, a bisection's text log
      implements its abstract session, the catalog of unversioned files is current,
      tables keep their types and their keys.
    - The server: the repository stays consistent, what is sent is genuine, and
      without the private capability nothing private is announced or sent; if the
      client may push, this assumes that the rows it pushes name their columns by
      plain identifiers, since the code pastes these names into SQL.  Without the
      push capability no request, of any form, changes anything that is kept.
      Locks exclude each other; a login succeeds exactly with the right signature.
    - Receiving and cloning: an accepted artifact can be read back, purging loses
      nothing else, and an anonymous clone of a server that keeps nothing private
      and synchronises no tables ends with all its artifacts, up to 19800 of them
      (the code gives up after 100 rounds of 200).
    - The client: against a server whose answers name columns and tables by plain
      identifiers, a session leaves a consistent repository with all it had and
      sends nothing but genuine artifacts; whatever a server answers, it stays
      within its rounds and the limits of a request.  A request neither sends, nor
      announces, nor asks for a private artifact, unless private ones are asked
      for; the parent that a ci-lock pragma names is the exception.
    - Tags and crosslinking: a tag reaches exactly the descendants it should; the
      link tables describe exactly the check-ins that can be checked out, each with
      its event, files and parents, and the leaves; servers and clones keep this.
    - Check-ins: a new check-in, at a time of any precision, can be read back,
      whole or as a delta, and its tables are those that crosslinking it would
      give; the log ends.
    - Verification: a report is empty exactly if the repository is in order, as
      far as the code looks; a rebuild of a repository whose manifests have no
      empty targets leaves the rows of the manifests and their tags and nothing
      else, and if storage was in order it passes verification.
    - Annotations and branches: each line is blamed exactly as the longest
      matchings between the versions of its first parents say, with the indices
      the code uses (which are wrong from the second step on), and exactly the
      histories that end in a panic or an error do; branches are listed as their
      tags say.
    - Checkouts: no sequence of operations in an absolute directory touches a file
      outside of it, where the disk has no links, or lets a version have two rows
      for a name; an extraction leaves the files and rows of the check-in, or only
      the rows when it is dry; a scan flags exactly the files that differ; adding
      and removing, renaming and reverting are inverse, but for the flag of an
      edited file, which reverting clears.
    - Totality and panics: which inputs make [Apply], [Parse], the protocol's line
      parser and the hashing of keys panic, exactly; that all other loops end.

    The [Example]s at the end of a file record behaviour that differs from what
    the code or its comments promise.

    ** Bounds and fuel

    Integers are [Z] with Go's 64-bit (or 32-bit) wrap-around written where the
    code's value could leave its range; lengths and indices of slices in memory
    are [nat] or below [maxAlloc].  A loop without a structural measure takes
    fuel: the length of the remaining input plus one, for readers and scanners;
    the number of rows plus two, for walks over tables; [n + m] rounds for Myers.
    No theorem assumes that a run ends: those about such loops show [Ret], or that
    [NoFuel] does not occur.  The rounds of a clone are bounded by the code itself
    ([MaxRounds]).

    ** Parameters

    Code outside of src/ is a class: [Zlib] (compression), [Sha3], [Sqlite] and
    [Sql] (what a driver scans, and statements whose text depends on data),
    [Floats], [Json], [LockJson] (number formats and encoding/json), [Unicode]
    (tables of characters), [DateColumn] (what a driver delivers for a date),
    [ErrorText], [Storage] (files), and [Unordered] (the order of rows and of map
    ranges that nothing fixes).
    Their laws are separate classes with the documented behaviour; each has an
    instance, with which the witnesses run.

    ** What is not modelled

    Nil database handles and error texts; the SQL engine (a statement does what
    SQL says, or fails on a constraint of the schema) and I/O failures; the state
    after a failed operation, where the model does not carry it; fault injection
    ([simio.Buggify] is off), observers, cancellation and log lines; goroutines
    outside the cache; invites; symbolic links on the disk; the search for untracked
    files, which only an observer sees.  Stash, undo and search are not modelled, and neither
    is [Commit]'s theorem stated here, only its definition; the command line, the web interface, database
    drivers, telemetry, simulation and test code are glue around the parts above. *)
From Stdlib Require Export Strings.Byte.
From Stdlib Require Import Strings.String.
From Stdlib Require Export ZArith Lia.
From stdpp Require Export base tactics list gmap numbers strings countable.
From stdpp Require Import options.

(** ** Bytes *)

Abbreviation bytes := (list byte).

(** A [[]byte] that may be [nil]. *)
Abbreviation slice := (option bytes).

(** Go string literals as byte lists. *)
Definition str (s : string) : bytes := String.list_byte_of_string s.
Arguments str s%_string.

#[export] Instance byte_eq_dec : EqDecision byte := Byte.byte_eq_dec.
#[export] Program Instance byte_countable : Countable byte :=
  inj_countable Byte.to_N Byte.of_N _.
Next Obligation. intros b. apply Byte.of_to_N. Qed.

(** The value of a byte, and the byte of a value taken modulo 256. *)
Definition bval (b : byte) : Z := Z.of_N (Byte.to_N b).
Definition byte_of (z : Z) : byte := default x00 (Byte.of_N (Z.to_N (z mod 256))).

(** ** Machine integers

    Go's [int] and [int64] are 64-bit two's complement, [uint32] and [uint64]
    wrap around. *)
Definition u32 (z : Z) : Z := z mod 2 ^ 32.
Definition u64 (z : Z) : Z := z mod 2 ^ 64.
Definition max_int64 : Z := 2 ^ 63 - 1.
Definition min_int64 : Z := - 2 ^ 63.

(** Conversion of a 64-bit pattern to the signed [int]. *)
Definition i64 (z : Z) : Z := (z + 2 ^ 63) mod 2 ^ 64 - 2 ^ 63.

(** The largest capacity the runtime allocates on a 64-bit platform
    ([runtime.maxAlloc]); [make] panics above it. *)
Definition maxAlloc : Z := 2 ^ 48.

(** The length of a slice as a Go [int]. *)
Definition zlen {A} (l : list A) : Z := Z.of_nat (length l).

(** ** Outcomes

    A Go call returns a value, returns a non-nil error, or panics.  Loops that
    are not structurally recursive run on fuel; [NoFuel] is what a loop answers
    when its fuel is spent, and every such loop comes with a theorem that it
    never does. *)
Inductive outcome (E A : Type) : Type :=
  | Ret (a : A)
  | Fail (e : E)
  | Panic
  | NoFuel.
Arguments Ret {E A} a.
Arguments Fail {E A} e.
Arguments Panic {E A}.
Arguments NoFuel {E A}.

#[export] Instance outcome_ret E : MRet (outcome E) := λ A a, Ret a.
#[export] Instance outcome_bind E : MBind (outcome E) := λ A B f m,
  match m with
  | Ret a => f a
  | Fail e => Fail e
  | Panic => Panic
  | NoFuel => NoFuel
  end.
#[export] Instance outcome_fmap E : FMap (outcome E) := λ A B f m,
  match m with
  | Ret a => Ret (f a)
  | Fail e => Fail e
  | Panic => Panic
  | NoFuel => NoFuel
  end.

(** [fmt.Errorf("...: %w", err)]: the error is wrapped, values and panics pass. *)
Definition wrap_err {E F A} (f : E → F) (m : outcome E A) : outcome F A :=
  match m with
  | Ret a => Ret a
  | Fail e => Fail (f e)
  | Panic => Panic
  | NoFuel => NoFuel
  end.

(** A call that neither panics nor exhausts its fuel. *)
Definition safe {E A} (m : outcome E A) : Prop :=
  match m with Ret _ | Fail _ => True | Panic | NoFuel => False end.

(** Slice indexing panics out of range. *)
Definition index {E A} (l : list A) (i : nat) : outcome E A :=
  match l !! i with Some a => Ret a | None => Panic end.

(** The slice expression [l[i:j]]; bounds are checked against the length. *)
Definition subslice {E A} (l : list A) (i j : nat) : outcome E (list A) :=
  if (i <=? j) && (j <=? length l) then Ret (take (j - i) (drop i l)) else Panic.

Definition guard_panic {E} (b : bool) : outcome E unit :=
  if b then Ret tt else Panic.

(** ** Automation *)

Create HintDb fossil discriminated.

(** Inverts a bind that is known to have returned. *)
Lemma bind_ret_inv {E A B} (m : outcome E A) (f : A → outcome E B) b :
  m ≫= f = Ret b → ∃ a, m = Ret a ∧ f a = Ret b.
Proof. destruct m; cbn; [eauto|discriminate..]. Qed.

(** And a bind that is known to have failed. *)
Lemma bind_fail_inv {E A B} (m : outcome E A) (f : A → outcome E B) e :
  m ≫= f = Fail e → m = Fail e ∨ ∃ a, m = Ret a ∧ f a = Fail e.
Proof. destruct m; cbn; [eauto|intros [= ->]; auto|done..]. Qed.

Lemma wrap_err_fail {E F A} (f : E → F) (m : outcome E A) e :
  wrap_err f m = Fail e → ∃ e', m = Fail e' ∧ e = f e'.
Proof. destruct m; cbn; try done. intros [= <-]. eauto. Qed.

Lemma safe_bind {E A B} (m : outcome E A) (f : A → outcome E B) :
  safe m → (∀ a, m = Ret a → safe (f a)) → safe (m ≫= f).
Proof. destruct m; cbn; naive_solver. Qed.

Lemma safe_wrap {E F A} (f : E → F) (m : outcome E A) :
  safe m → safe (wrap_err f m).
Proof. by destruct m. Qed.

Lemma bind_assoc {E A B C} (m : outcome E A) (f : A → outcome E B) (g : B → outcome E C) :
  (m ≫= f) ≫= g = m ≫= (λ a, f a ≫= g).
Proof. by destruct m. Qed.

Lemma safe_index {E A} (l : list A) i : (i < length l)%nat → safe (E:=E) (index l i).
Proof. intros [x Hx]%lookup_lt_is_Some_2. unfold index. by rewrite Hx. Qed.

Lemma subslice_ret {E A} (l : list A) i j :
  i ≤ j → j ≤ length l → subslice (E:=E) l i j = Ret (take (j - i) (drop i l)).
Proof.
  intros Hi Hj. unfold subslice.
  by destruct (Nat.leb_spec i j), (Nat.leb_spec j (length l)); try lia.
Qed.

#[export] Hint Resolve safe_bind safe_wrap safe_index : fossil.

(** [inv_bind]: split every returned bind in the context. *)
Ltac inv_bind :=
  repeat match goal with
  | H : _ ≫= _ = Ret _ |- _ =>
      let a := fresh "a" in let Ha := fresh "Ha" in
      apply bind_ret_inv in H as (a & Ha & H)
  | H : Ret _ = Ret _ |- _ => injection H as H; try subst
  end.

(** [by_decide]: a decidable goal without variables, by evaluation. *)
Ltac by_decide := refine (bool_decide_unpack _ _); vm_compute; exact I.

(** ** Bytes and lists *)

Lemma bval_range b : (0 ≤ bval b < 256)%Z.
Proof.
  unfold bval. pose proof (Byte.to_N_bounded b). lia.
Qed.

Lemma bval_byte_of z : bval (byte_of z) = (z mod 256)%Z.
Proof.
  unfold bval, byte_of. pose proof (Z.mod_pos_bound z 256 ltac:(lia)).
  destruct (Byte.of_N (Z.to_N (z mod 256))) as [b|] eqn:E; cbn.
  - apply Byte.to_of_N in E. rewrite E. lia.
  - apply Byte.of_N_None_iff in E. lia.
Qed.

Lemma bval_inj b c : bval b = bval c → b = c.
Proof.
  unfold bval. intros H%N2Z.inj.
  assert (Some b = Some c) as [=] by (by rewrite <- !Byte.of_to_N, H). done.
Qed.

Lemma byte_of_bval b : byte_of (bval b) = b.
Proof. apply bval_inj. rewrite bval_byte_of. apply Z.mod_small, bval_range. Qed.

Lemma zlen_nonneg {A} (l : list A) : (0 ≤ zlen l)%Z.
Proof. unfold zlen. lia. Qed.

Lemma zlen_app {A} (l k : list A) : zlen (l ++ k) = (zlen l + zlen k)%Z.
Proof. unfold zlen. rewrite length_app. lia. Qed.

Lemma str_app_length s : length (str s) = String.length s.
Proof. unfold str. induction s; cbn in *; auto. Qed.

(** Splitting a list at the length of a known prefix. *)
Lemma take_app_exact {A} (l k : list A) n : n = length l → take n (l ++ k) = l.
Proof. intros ->. by rewrite take_app_length. Qed.
Lemma drop_app_exact {A} (l k : list A) n : n = length l → drop n (l ++ k) = k.
Proof. intros ->. by rewrite drop_app_length. Qed.
Lemma drop_take_split {A} (l : list A) i j :
  (i ≤ j)%nat → take (j - i) (drop i l) ++ drop j l = drop i l.
Proof.
  intros Hij. rewrite <- (take_drop (j - i) (drop i l)) at 2.
  by rewrite drop_drop, (Nat.add_comm i), Nat.sub_add.
Qed.

(** Or-ing bits below a shifted value adds them. *)
Lemma lor_low a b k : (0 ≤ k)%Z → (0 ≤ b < 2 ^ k)%Z → Z.lor (a * 2 ^ k) b = (a * 2 ^ k + b)%Z.
Proof.
  intros Hk Hb.
  assert (Z.land (a * 2 ^ k) b = 0)%Z as H0.
  { apply Z.bits_inj'. intros n Hn. rewrite Z.land_spec, Z.bits_0.
    destruct (Z.ltb_spec n k).
    - by rewrite Z.mul_pow2_bits_low.
    - rewrite <- (Z.mod_small b (2 ^ k)) by done.
      by rewrite Z.mod_pow2_bits_high, andb_false_r by lia. }
  rewrite <- Z.lxor_lor by done. symmetry. by apply Z.add_nocarry_lxor.
Qed.

(** A separator that is in neither prefix splits a list in one way. *)
Lemma split_sep {A} (c : A) (a b u v : list A) :
  c ∉ a → c ∉ b → a ++ c :: u = b ++ c :: v → a = b ∧ u = v.
Proof.
  revert b. induction a as [|x a IH]; intros [|y b] Ha Hb; cbn.
  - by intros [= ->].
  - intros [= <- _]. destruct Hb. by left.
  - intros [= -> _]. destruct Ha. by left.
  - intros [= -> Ht]. destruct (IH b) as [-> ->]; [..|done|done].
    + intros ?. apply Ha. by right.
    + intros ?. apply Hb. by right.
Qed.

Lemma Forall_elem {A} (P : A → Prop) (l : list A) x : Forall P l → x ∈ l → P x.
Proof. intros H Hx%list_elem_of_In. by eapply List.Forall_forall in H. Qed.

Lemma i64_id z : (min_int64 ≤ z ≤ max_int64)%Z → i64 z = z.
Proof.
  unfold i64, min_int64, max_int64. intros Hz. rewrite Z.mod_small; lia.
Qed.
