(* ===== verification/GoStrings.v ===== *)
(** * What the program uses of Go's [strings], [strconv], [fmt] and [sort]

    Executable models of the standard-library calls of the codecs, on byte
    strings, with the lemmas that relate splitting to joining and parsing to
    printing. *)
From S2P Require Import Prelude.
From Stdlib Require Import Sorting.Sorted.

(** ** Bytes and prefixes *)

Definition SP : byte := " "%byte.
Definition NL : byte := x0a.
Definition CR : byte := x0d.
Definition TAB : byte := x09.

Fixpoint HasPrefix (s prefix : bytes) : bool :=
  match prefix, s with
  | [], _ => true
  | p :: prefix, c :: s => bool_decide (c = p) && HasPrefix s prefix
  | _, [] => false
  end.

Definition TrimPrefix (s prefix : bytes) : bytes :=
  if HasPrefix s prefix then drop (length prefix) s else s.

Definition HasSuffix (s suffix : bytes) : bool := HasPrefix (rev s) (rev suffix).

(** [s < t] on Go strings: bytewise lexicographic. *)
Fixpoint str_ltb (s t : bytes) : bool :=
  match s, t with
  | _, [] => false
  | [], _ :: _ => true
  | a :: s, b :: t =>
      if (bval a <? bval b)%Z then true
      else if (bval b <? bval a)%Z then false else str_ltb s t
  end.

(** ** White space

    [unicode.IsSpace] on the UTF-8 encoding: the six ASCII characters, U+0085,
    U+00A0 and the wide spaces U+1680, U+2000-200A, U+2028, U+2029, U+202F,
    U+205F and U+3000.  A lead byte of one of these never continues another
    rune, so scanning bytes finds the same spaces as decoding runes. *)
Definition ascii_space (b : byte) : bool :=
  ((9 <=? bval b) && (bval b <=? 13) || (bval b =? 32))%Z.

Definition wide2_space (b0 b1 : byte) : bool :=
  ((bval b0 =? 194) && ((bval b1 =? 133) || (bval b1 =? 160)))%Z.

Definition wide3_space (b0 b1 b2 : byte) : bool :=
  ((bval b0 =? 225) && (bval b1 =? 154) && (bval b2 =? 128)
   || (bval b0 =? 226) && (bval b1 =? 128) &&
      ((128 <=? bval b2) && (bval b2 <=? 138) ||
       (bval b2 =? 168) || (bval b2 =? 169) || (bval b2 =? 175))
   || (bval b0 =? 226) && (bval b1 =? 129) && (bval b2 =? 159)
   || (bval b0 =? 227) && (bval b1 =? 128) && (bval b2 =? 128))%Z.

(** Length of the white-space rune the string starts with, 0 if there is none. *)
Definition space_prefix (s : bytes) : nat :=
  match s with
  | [] => 0
  | b0 :: s1 =>
    if ascii_space b0 then 1 else
    match s1 with
    | [] => 0
    | b1 :: s2 =>
      if wide2_space b0 b1 then 2 else
      match s2 with
      | [] => 0
      | b2 :: _ => if wide3_space b0 b1 b2 then 3 else 0
      end
    end
  end.

(** The same for the rune a string ends with, on the reversed string. *)
Definition space_suffix (s : bytes) : nat :=
  match s with
  | [] => 0
  | b0 :: s1 =>
    if ascii_space b0 then 1 else
    match s1 with
    | [] => 0
    | b1 :: s2 =>
      if wide2_space b1 b0 then 2 else
      match s2 with
      | [] => 0
      | b2 :: _ => if wide3_space b2 b1 b0 then 3 else 0
      end
    end
  end.

(** ** Splitting and joining *)

Definition flush (cur : bytes) : list bytes := if length cur =? 0 then [] else [cur].

Fixpoint fields_loop (s : bytes) (skip : nat) (cur : bytes) : list bytes :=
  match s with
  | [] => flush cur
  | c :: s' =>
    match skip with
    | S skip => fields_loop s' skip cur
    | O =>
      match space_prefix s with
      | O => fields_loop s' 0 (cur ++ [c])
      | S skip => flush cur ++ fields_loop s' skip []
      end
    end
  end.

(** [strings.Fields] *)
Definition Fields (s : bytes) : list bytes := fields_loop s 0 [].

Fixpoint trim_left (s : bytes) (skip : nat) : bytes :=
  match s with
  | [] => []
  | c :: s' =>
    match skip with
    | S skip => trim_left s' skip
    | O => match space_prefix s with O => s | S skip => trim_left s' skip end
    end
  end.

Fixpoint trim_right_rev (s : bytes) (skip : nat) : bytes :=
  match s with
  | [] => []
  | c :: s' =>
    match skip with
    | S skip => trim_right_rev s' skip
    | O => match space_suffix s with O => s | S skip => trim_right_rev s' skip end
    end
  end.

(** [strings.TrimSpace] *)
Definition TrimSpace (s : bytes) : bytes := rev (trim_right_rev (rev (trim_left s 0)) 0).

(** [strings.TrimRight(s, cutset)] for an ASCII cutset. *)
Fixpoint trim_cut_rev (s cutset : bytes) : bytes :=
  match s with
  | [] => []
  | c :: s' => if bool_decide (c ∈ cutset) then trim_cut_rev s' cutset else s
  end.
Definition TrimRight (s cutset : bytes) : bytes := rev (trim_cut_rev (rev s) cutset).

(** [strings.SplitN(s, sep, n)] for a one-byte [sep] and [n > 0]: at most [n]
    pieces, the last one unsplit. *)
Fixpoint splitN_loop (s : bytes) (sep : byte) (n : nat) (cur : bytes) : list bytes :=
  match s with
  | [] => [cur]
  | c :: s' =>
    match n with
    | S (S n') =>
      if bool_decide (c = sep) then cur :: splitN_loop s' sep (S n') []
      else splitN_loop s' sep n (cur ++ [c])
    | _ => [cur ++ s]
    end
  end.
Definition SplitN (s : bytes) (sep : byte) (n : nat) : list bytes := splitN_loop s sep n [].

(** [strings.Split(s, sep)] for a one-byte [sep]. *)
Fixpoint split_loop (s : bytes) (sep : byte) (cur : bytes) : list bytes :=
  match s with
  | [] => [cur]
  | c :: s' =>
    if bool_decide (c = sep) then cur :: split_loop s' sep []
    else split_loop s' sep (cur ++ [c])
  end.
Definition Split (s : bytes) (sep : byte) : list bytes := split_loop s sep [].

(** [strings.SplitAfter(s, sep)]: the pieces keep their separator. *)
Fixpoint splitAfter_loop (s : bytes) (sep : byte) (cur : bytes) : list bytes :=
  match s with
  | [] => [cur]
  | c :: s' =>
    if bool_decide (c = sep) then (cur ++ [c]) :: splitAfter_loop s' sep []
    else splitAfter_loop s' sep (cur ++ [c])
  end.
Definition SplitAfter (s : bytes) (sep : byte) : list bytes := splitAfter_loop s sep [].

(** [strings.Join] *)
Fixpoint Join (parts : list bytes) (sep : bytes) : bytes :=
  match parts with
  | [] => []
  | [p] => p
  | p :: parts => p ++ sep ++ Join parts sep
  end.

(** ** Decimal integers *)

(** [%d] of an [int64]: at most 19 digits, so 20 rounds are enough. *)
Fixpoint dec_loop (fuel : nat) (v : Z) (tmp : bytes) : bytes :=
  match fuel with
  | O => tmp
  | S fuel =>
    if (0 <? v)%Z then dec_loop fuel (v / 10) (byte_of (48 + v mod 10) :: tmp) else tmp
  end.
Definition fmt_int (v : Z) : bytes :=
  if (v =? 0)%Z then ["0"%byte]
  else if (v <? 0)%Z then "-"%byte :: dec_loop 20 (- v) []
  else dec_loop 20 v [].

Definition dec_digit (c : byte) : option Z :=
  if ((48 <=? bval c) && (bval c <=? 57))%Z then Some (bval c - 48)%Z else None.

Fixpoint dec_value (s : bytes) (v : Z) : option Z :=
  match s with
  | [] => Some v
  | c :: s => match dec_digit c with
              | Some d => dec_value s (v * 10 + d)%Z
              | None => None
              end
  end.

Definition dec_unsigned (s : bytes) : option Z :=
  match s with [] => None | _ => dec_value s 0 end.

(** [strconv.ParseInt(s, 10, 64)] and [strconv.Atoi]: [None] is a syntax or
    range error. *)
Definition ParseInt (s : bytes) : option Z :=
  let r := match s with
           | "-"%byte :: s => Z.opp <$> dec_unsigned s
           | "+"%byte :: s => dec_unsigned s
           | _ => dec_unsigned s
           end in
  match r with
  | Some v => if ((min_int64 <=? v) && (v <=? max_int64))%Z then Some v else None
  | None => None
  end.
Definition Atoi (s : bytes) : option Z := ParseInt s.

(** ** Sorting

    [sort.Slice] by insertion, which is what Go runs on short slices.  This one
    is stable; Go's may order elements with equal keys differently on longer
    slices, and nothing else.  Theorems about the order of sorted output assume
    distinct keys. *)
Section sorting.
Context {A : Type} (less : A → A → bool).

Fixpoint sort_insert (x : A) (l : list A) : list A :=
  match l with
  | [] => [x]
  | y :: l' => if less x y then x :: l else y :: sort_insert x l'
  end.

Definition sort_slice (l : list A) : list A := foldl (λ acc x, sort_insert x acc) [] l.
End sorting.

(** ** Words: non-empty strings without white space *)

Fixpoint no_space (s : bytes) : bool :=
  match s with
  | [] => true
  | _ :: s' => (space_prefix s =? 0) && no_space s'
  end.

Definition word (s : bytes) : Prop := s ≠ [] ∧ no_space s = true.

#[export] Instance word_dec s : Decision (word s).
Proof. unfold word. apply _. Defined.

(** What may follow a word without joining its last bytes into a space rune. *)
Definition ascii_head (s : bytes) : Prop :=
  match s with [] => True | c :: _ => (bval c < 128)%Z end.

Lemma Join_cons2 p q ps sep : Join (p :: q :: ps) sep = p ++ sep ++ Join (q :: ps) sep.
Proof. done. Qed.

Section fields.
Implicit Types s w rest cur : bytes.

Lemma wide2_ascii b0 b1 : (bval b1 < 128)%Z → wide2_space b0 b1 = false.
Proof. unfold wide2_space. intros. lia. Qed.
Lemma wide3_ascii1 b0 b1 b2 : (bval b1 < 128)%Z → wide3_space b0 b1 b2 = false.
Proof. unfold wide3_space. intros. lia. Qed.
Lemma wide3_ascii2 b0 b1 b2 : (bval b2 < 128)%Z → wide3_space b0 b1 b2 = false.
Proof. unfold wide3_space. intros. lia. Qed.

Lemma space_prefix_app s rest :
  s ≠ [] → ascii_head rest → space_prefix s = 0 → space_prefix (s ++ rest) = 0.
Proof.
  intros Hs Hr. destruct rest as [|r rest]; [by rewrite app_nil_r|]. cbn in Hr.
  destruct s as [|b0 [|b1 [|b2 s]]]; [done|..]; cbn;
    (destruct (ascii_space b0); [done|]).
  - intros _. rewrite wide2_ascii by done.
    destruct rest; [done|]. by rewrite wide3_ascii1.
  - destruct (wide2_space b0 b1); [done|]. intros _. by rewrite wide3_ascii2.
  - done.
Qed.

Lemma no_space_app s rest :
  ascii_head rest → no_space s = true → no_space rest = true → no_space (s ++ rest) = true.
Proof.
  intros Hr Hs Hn. induction s as [|c s IH]; [done|]. cbn [no_space app] in *.
  apply andb_true_iff in Hs as [H1%Nat.eqb_eq H2].
  rewrite IH by done. change (c :: s ++ rest) with ((c :: s) ++ rest).
  by rewrite space_prefix_app.
Qed.

Lemma fields_loop_word w rest cur :
  no_space w = true → ascii_head rest →
  fields_loop (w ++ rest) 0 cur = fields_loop rest 0 (cur ++ w).
Proof.
  revert cur. induction w as [|c w IH]; intros cur Hw Hr; cbn [app].
  { by rewrite app_nil_r. }
  cbn [no_space] in Hw. apply andb_true_iff in Hw as [H1%Nat.eqb_eq H2].
  cbn [fields_loop].
  change (c :: w ++ rest) with ((c :: w) ++ rest). rewrite space_prefix_app by done.
  rewrite IH by done. by rewrite <- app_assoc.
Qed.

Lemma flush_word w : word w → flush w = [w].
Proof. intros [Hw _]. by destruct w. Qed.

Lemma Fields_word w : word w → Fields w = [w].
Proof.
  intros Hw. unfold Fields. rewrite <- (app_nil_r w) at 1.
  rewrite fields_loop_word by (done || apply Hw). by apply flush_word.
Qed.

(** A word up to a blank is the first field. *)
Lemma Fields_cons w rest : word w → Fields (w ++ SP :: rest) = w :: Fields rest.
Proof.
  intros Hw. unfold Fields. rewrite fields_loop_word by (done || apply Hw).
  cbn [fields_loop]. change (space_prefix (SP :: rest)) with 1. cbn.
  by rewrite flush_word.
Qed.

Lemma Fields_Join ws : Forall word ws → Fields (Join ws [SP]) = ws.
Proof.
  induction 1 as [|w ws Hw _ IH]; [done|].
  destruct ws as [|w' ws]; [by apply Fields_word|].
  rewrite Join_cons2. cbn [app]. rewrite Fields_cons by done. by rewrite IH.
Qed.

Lemma space_free_bytes s c : no_space s = true → c ∈ s → ascii_space c = false.
Proof.
  induction s as [|x s IH]; [by intros _ ?%elem_of_nil|].
  cbn [no_space]. intros [H1%Nat.eqb_eq H2]%andb_true_iff [->|Hin]%elem_of_cons; [|auto].
  cbn in H1. by destruct (ascii_space x).
Qed.

Lemma word_no_NL w : no_space w = true → NL ∉ w.
Proof. intros Hw Hin. by pose proof (space_free_bytes w NL Hw Hin). Qed.
Lemma word_no_CR w : no_space w = true → CR ∉ w.
Proof. intros Hw Hin. by pose proof (space_free_bytes w CR Hw Hin). Qed.
Lemma word_no_SP w : no_space w = true → SP ∉ w.
Proof. intros Hw Hin. by pose proof (space_free_bytes w SP Hw Hin). Qed.
End fields.

(** Joined words never end in a line terminator and hold none. *)
Lemma Join_no_byte ws sep c :
  Forall (λ w, c ∉ w) ws → c ∉ sep → c ∉ Join ws sep.
Proof.
  intros Hws Hsep. induction Hws as [|w ws Hw _ IH]; [apply not_elem_of_nil|].
  destruct ws; [done|]. rewrite Join_cons2, !not_elem_of_app. done.
Qed.

(** A string whose bytes are plain printable ASCII is free of spaces. *)
Lemma no_space_graph s : Forall (λ c, 33 ≤ bval c < 127)%Z s → no_space s = true.
Proof.
  induction 1 as [|c s Hc Hs IH]; [done|]. cbn [no_space]. rewrite IH, andb_true_r.
  apply Nat.eqb_eq. cbn. unfold ascii_space.
  assert (((9 <=? bval c) && (bval c <=? 13) || (bval c =? 32))%Z = false) as -> by lia.
  destruct s as [|b1 s]; [done|]. unfold wide2_space.
  assert (((bval c =? 194) && _)%Z = false) as -> by (apply andb_false_iff; left; lia).
  destruct s; [done|]. unfold wide3_space. by replace (_ || _) with false by lia.
Qed.

(** ** Decimal round trip *)

Lemma dec_value_app s t v :
  dec_value (s ++ t) v = match dec_value s v with Some w => dec_value t w | None => None end.
Proof.
  revert v. induction s as [|c s IH]; intros v; [done|]. cbn.
  destruct (dec_digit c); [apply IH|done].
Qed.

Lemma dec_digit_of d : (0 ≤ d < 10)%Z → dec_digit (byte_of (48 + d)) = Some d.
Proof.
  intros Hd. unfold dec_digit. rewrite bval_byte_of, Z.mod_small by lia.
  replace (_ && _) with true by lia. f_equal. lia.
Qed.

Lemma dec_loop_spec fuel v tmp w :
  (0 ≤ v < 10 ^ Z.of_nat fuel)%Z →
  dec_value tmp v = Some w → (0 < v → dec_value (dec_loop fuel v tmp) 0 = Some w)%Z.
Proof.
  revert v tmp. induction fuel as [|fuel IH]; intros v tmp Hv Htmp Hpos.
  { cbn in Hv. lia. }
  cbn [dec_loop]. destruct (Z.ltb_spec 0 v); [|lia].
  pose proof (Z.mod_pos_bound v 10 ltac:(lia)) as Hm.
  pose proof (Z.div_mod v 10 ltac:(lia)) as Hdm.
  assert (dec_value (byte_of (48 + v mod 10) :: tmp) (v / 10) = Some w) as Hstep.
  { cbn [dec_value]. rewrite dec_digit_of by done. rewrite <- Htmp. f_equal. lia. }
  destruct (decide (v / 10 = 0)%Z) as [H0|Hne].
  - rewrite H0 in *. destruct fuel; [done|]. done.
  - assert (0 ≤ v / 10)%Z by (apply Z.div_pos; lia). apply IH; [|done|lia].
    rewrite Nat2Z.inj_succ, Z.pow_succ_r in Hv by lia.
    split; [done|]. apply Z.div_lt_upper_bound; lia.
Qed.

Lemma dec_loop_digits fuel v tmp :
  Forall (λ c, 48 ≤ bval c ≤ 57)%Z tmp →
  (0 ≤ v)%Z → Forall (λ c, 48 ≤ bval c ≤ 57)%Z (dec_loop fuel v tmp).
Proof.
  revert v tmp. induction fuel as [|fuel IH]; intros v tmp Ht Hv; [done|]. cbn [dec_loop].
  destruct (Z.ltb_spec 0 v); [|done]. apply IH; [|by apply Z.div_pos; lia].
  constructor; [|done]. pose proof (Z.mod_pos_bound v 10 ltac:(lia)).
  rewrite bval_byte_of, Z.mod_small; lia.
Qed.

Lemma dec_loop_nonempty fuel v tmp : (0 < v)%Z → dec_loop (S fuel) v tmp ≠ [].
Proof.
  assert (∀ fuel v tmp, tmp ≠ [] → dec_loop fuel v tmp ≠ []) as Haux.
  { clear. induction fuel as [|fuel IH]; intros v tmp Ht; [done|]. cbn.
    destruct (0 <? v)%Z; [by apply IH|done]. }
  intros Hv. cbn [dec_loop]. destruct (Z.ltb_spec 0 v); [|lia]. by apply Haux.
Qed.

Definition int64_range (v : Z) : Prop := (min_int64 ≤ v ≤ max_int64)%Z.

Lemma ParseInt_digits s :
  Forall (λ c, 48 ≤ bval c ≤ 57)%Z s →
  ParseInt s = match dec_unsigned s with
               | Some v => if ((min_int64 <=? v) && (v <=? max_int64))%Z then Some v else None
               | None => None
               end.
Proof.
  intros Hs. destruct s as [|c s]; [done|]. inversion Hs as [|?? Hc]; subst.
  destruct c; try done; exfalso; destruct Hc as [Hc _]; vm_compute in Hc; by destruct Hc.
Qed.

Lemma ParseInt_fmt_int v : int64_range v → ParseInt (fmt_int v) = Some v.
Proof.
  unfold int64_range, min_int64, max_int64. intros Hv. unfold fmt_int.
  destruct (Z.eqb_spec v 0) as [->|Hne]; [done|].
  assert (∀ u, 0 < u ≤ 2 ^ 63 → dec_unsigned (dec_loop 20 u []) = Some u)%Z as Hu.
  { intros u Hu. unfold dec_unsigned.
    pose proof (dec_loop_nonempty 19 u [] ltac:(lia)).
    destruct (dec_loop 20 u []) eqn:E; [done|]. rewrite <- E.
    apply dec_loop_spec; [lia|done|lia]. }
  destruct (Z.ltb_spec v 0).
  - cbn [ParseInt]. unfold ParseInt. rewrite Hu by lia. cbn.
    rewrite Z.opp_involutive. unfold min_int64, max_int64. by replace (_ && _) with true by lia.
  - rewrite ParseInt_digits by (apply dec_loop_digits; [constructor|lia]).
    rewrite Hu by lia. unfold min_int64, max_int64. by replace (_ && _) with true by lia.
Qed.

Lemma fmt_int_graph v : int64_range v → Forall (λ c, 33 ≤ bval c < 127)%Z (fmt_int v).
Proof.
  unfold int64_range, min_int64, max_int64, fmt_int. intros Hv.
  assert (∀ u, 0 ≤ u → Forall (λ c, 33 ≤ bval c < 127) (dec_loop 20 u []))%Z as Hg.
  { intros u Hu. eapply Forall_impl; [|by apply dec_loop_digits]. cbn. intros; lia. }
  destruct (Z.eqb_spec v 0); [by repeat constructor|].
  destruct (Z.ltb_spec v 0); [|apply Hg; lia]. constructor; [done|]. apply Hg. lia.
Qed.

Lemma fmt_int_word v : int64_range v → word (fmt_int v).
Proof.
  intros Hv. split; [|by apply no_space_graph, fmt_int_graph].
  unfold fmt_int. destruct (Z.eqb_spec v 0); [done|].
  destruct (Z.ltb_spec v 0); [done|]. apply dec_loop_nonempty. lia.
Qed.

Lemma zlen_int64 {A} (l : list A) : (zlen l ≤ maxAlloc)%Z → int64_range (zlen l).
Proof.
  unfold int64_range, min_int64, max_int64, maxAlloc. pose proof (zlen_nonneg l). lia.
Qed.

#[export] Hint Resolve fmt_int_word zlen_int64 word_no_NL word_no_CR word_no_SP : fossil.

(** ** Trimming *)

Section trim.
Implicit Types s : bytes.

Lemma trim_left_graph s :
  match s with [] => True | c :: _ => (33 ≤ bval c < 127)%Z end → trim_left s 0 = s.
Proof.
  destruct s as [|c s]; [done|]. intros Hc. cbn [trim_left].
  assert (space_prefix (c :: s) = 0) as ->; [|done]. cbn. unfold ascii_space.
  replace (_ || _) with false by lia. destruct s as [|b1 s]; [done|].
  unfold wide2_space. replace (_ && _) with false by lia.
  destruct s; [done|]. unfold wide3_space. by replace (_ || _) with false by lia.
Qed.

Lemma trim_right_rev_graph s :
  match s with [] => True | c :: _ => (33 ≤ bval c < 127)%Z end → trim_right_rev s 0 = s.
Proof.
  destruct s as [|c s]; [done|]. intros Hc. cbn [trim_right_rev].
  assert (space_suffix (c :: s) = 0) as ->; [|done]. cbn. unfold ascii_space.
  replace (_ || _) with false by lia. destruct s as [|b1 s]; [done|].
  unfold wide2_space. replace (_ && _) with false by lia.
  destruct s; [done|]. unfold wide3_space. by replace (_ || _) with false by lia.
Qed.

Lemma TrimSpace_graph s : Forall (λ c, 33 ≤ bval c < 127)%Z s → TrimSpace s = s.
Proof.
  intros Hs. unfold TrimSpace. rewrite trim_left_graph by (by destruct Hs).
  rewrite trim_right_rev_graph; [apply rev_involutive|].
  apply Forall_rev in Hs. by destruct Hs.
Qed.
End trim.

(** A decimal digit of a value. *)
Lemma dec_byte_range d : (0 ≤ d < 10)%Z → (48 ≤ bval (byte_of (48 + d)) ≤ 57)%Z.
Proof. intros. rewrite bval_byte_of, Z.mod_small; lia. Qed.

(** ** Sorting permutes, and orders under a total preorder *)

Section sort_facts.
Context {A : Type} (less : A → A → bool).
Implicit Types (x : A) (l acc : list A).

Lemma sort_insert_perm x l : sort_insert less x l ≡ₚ x :: l.
Proof.
  induction l as [|y l IH]; cbn; [done|].
  destruct (less x y); [done|]. rewrite IH. apply Permutation_swap.
Qed.

Lemma sort_slice_perm l : sort_slice less l ≡ₚ l.
Proof.
  unfold sort_slice. rewrite <- (app_nil_l l) at 2. generalize (@nil A) as acc.
  induction l as [|x l IH]; intros acc; cbn; [by rewrite app_nil_r|].
  rewrite IH, sort_insert_perm. cbn. by rewrite Permutation_middle.
Qed.

Lemma sort_slice_Forall (P : A → Prop) l : Forall P l → Forall P (sort_slice less l).
Proof. intros H. by rewrite sort_slice_perm. Qed.

(** No element is less than one before it. *)
Definition ordered l : Prop :=
  ∀ i j x y, i < j → l !! i = Some x → l !! j = Some y → less y x = false.

Hypothesis less_asym : ∀ x y, less x y = true → less y x = false.
Hypothesis less_negtrans : ∀ x y z, less x y = false → less y z = false → less x z = false.

Lemma ordered_cons x l :
  ordered (x :: l) ↔ (∀ y, y ∈ l → less y x = false) ∧ ordered l.
Proof.
  split.
  - intros H. split.
    + intros y [j Hj]%list_elem_of_lookup. by apply (H 0 (S j)); [lia|..].
    + intros i j a b Hij Ha Hb. by apply (H (S i) (S j)); [lia|..].
  - intros [H1 H2] [|i] [|j] a b Hij Ha Hb; try lia; cbn in *.
    + injection Ha as <-. apply H1, list_elem_of_lookup. eauto.
    + apply (H2 i j); [lia|done..].
Qed.

Lemma sort_insert_ordered x l : ordered l → ordered (sort_insert less x l).
Proof.
  induction l as [|y l IH]; intros Hl; cbn.
  { apply ordered_cons. split; [by intros y ?%elem_of_nil|done]. }
  apply ordered_cons in Hl as [H1 H2].
  destruct (less x y) eqn:E.
  - apply ordered_cons. split; [|by apply ordered_cons].
    intros z [->|Hz]%elem_of_cons; [by apply less_asym|].
    apply less_negtrans with y; [by apply H1|by apply less_asym].
  - apply ordered_cons. split; [|by apply IH].
    intros z. rewrite sort_insert_perm. by intros [->|Hz]%elem_of_cons; auto.
Qed.

Lemma sort_slice_ordered l : ordered (sort_slice less l).
Proof.
  unfold sort_slice. assert (ordered (@nil A)) as H by (intros ????? [=]).
  revert H. generalize (@nil A) as acc.
  induction l as [|x l IH]; intros acc Hacc; cbn; [done|]. by apply IH, sort_insert_ordered.
Qed.
End sort_facts.

(** The first element of a sorted list is least, if the order is transitive. *)
Lemma sort_slice_head {A} (less : A → A → bool) l x rest :
  (∀ x, less x x = false) → (∀ x y z, less x y = true → less y z = true → less x z = true) →
  sort_slice less l = x :: rest → x ∈ l ∧ ∀ y, y ∈ l → less y x = false.
Proof.
  intros Hirr Htr H.
  assert (sort_slice less l ≡ₚ l) as Hp by apply sort_slice_perm.
  split; [rewrite <- Hp, H; by left|]. intros y Hy. rewrite <- Hp in Hy. clear Hp.
  cut (match sort_slice less l with [] => True | x :: l => ∀ y, y ∈ x :: l → less y x = false end).
  { rewrite H. intros Hx. rewrite H in Hy. exact (Hx y Hy). }
  clear H Hy. unfold sort_slice.
  assert (match @nil A with [] => True | x :: l => ∀ y, y ∈ x :: l → less y x = false end) as Hacc by done.
  revert Hacc. generalize (@nil A) as acc.
  induction l as [|z l IH]; intros acc Hacc; [done|]. cbn [foldl]. apply IH. clear IH.
  destruct acc as [|w acc]; cbn [sort_insert].
  { intros v ->%list_elem_of_singleton. apply Hirr. }
  destruct (less z w) eqn:E; intros v [->|Hv]%elem_of_cons; try apply Hirr.
  - specialize (Hacc v Hv). apply not_true_iff_false. intros Hvz. apply not_true_iff_false in Hacc.
    destruct Hacc. by eapply Htr.
  - rewrite sort_insert_perm in Hv. apply elem_of_cons in Hv as [->|Hv]; [exact E|]. apply Hacc. by right.
Qed.

(** The order on strings. *)
Lemma str_ltb_irrefl s : str_ltb s s = false.
Proof. induction s as [|c s IH]; [done|]. cbn. by rewrite Z.ltb_irrefl. Qed.

Lemma str_ltb_asym s t : str_ltb s t = true → str_ltb t s = false.
Proof.
  revert t. induction s as [|a s IH]; intros [|b t]; cbn; try done.
  destruct (Z.ltb_spec (bval a) (bval b)), (Z.ltb_spec (bval b) (bval a)); try done; lia || auto.
Qed.

Lemma str_ltb_negtrans s t u :
  str_ltb s t = false → str_ltb t u = false → str_ltb s u = false.
Proof.
  revert t u. induction s as [|a s IH]; intros [|b t] [|c u]; cbn; try done.
  destruct (Z.ltb_spec (bval a) (bval b)), (Z.ltb_spec (bval b) (bval a)),
    (Z.ltb_spec (bval b) (bval c)), (Z.ltb_spec (bval c) (bval b)),
    (Z.ltb_spec (bval a) (bval c)), (Z.ltb_spec (bval c) (bval a)); try done; try lia. apply IH.
Qed.

Lemma str_ltb_total s t : str_ltb s t = false → str_ltb t s = false → s = t.
Proof.
  revert t. induction s as [|a s IH]; intros [|b t]; cbn; try done.
  destruct (Z.ltb_spec (bval a) (bval b)), (Z.ltb_spec (bval b) (bval a)); try done.
  intros. assert (a = b) as -> by (apply bval_inj; lia). f_equal. auto.
Qed.

(** Sorting a sorted list changes nothing. *)
Lemma sort_slice_id {A} (less : A → A → bool) l : ordered less l → sort_slice less l = l.
Proof.
  unfold sort_slice. intros Hl.
  assert (∀ acc, ordered less (acc ++ l) → foldl (λ acc x, sort_insert less x acc) acc l = acc ++ l)
    as Hgen; [|by apply (Hgen [])].
  clear Hl. induction l as [|x l IH]; intros acc Hacc; cbn; [by rewrite app_nil_r|].
  assert (sort_insert less x acc = acc ++ [x]) as ->.
  { clear IH. assert (∀ y, y ∈ acc → less x y = false) as Hle.
    { intros y [i Hi]%list_elem_of_lookup.
      apply (Hacc i (length acc) y x); [by apply lookup_lt_Some in Hi| |].
      - by apply lookup_app_l_Some.
      - by rewrite lookup_app_r, Nat.sub_diag by lia. }
    clear Hacc. induction acc as [|y acc IHa]; cbn; [done|].
    rewrite (Hle y) by (by left). f_equal. apply IHa. intros z Hz. apply Hle. by right. }
  rewrite IH; by rewrite <- app_assoc.
Qed.

(** With distinct keys the sorted list does not depend on the input order. *)
Lemma sort_slice_perm_eq {A} (key : A → bytes) l k :
  NoDup (map key l) → l ≡ₚ k →
  sort_slice (λ x y, str_ltb (key x) (key y)) l = sort_slice (λ x y, str_ltb (key x) (key y)) k.
Proof.
  set (less := λ x y, str_ltb (key x) (key y)). intros Hnd Hlk.
  assert (∀ l, ordered less (sort_slice less l)) as Hord.
  { intros l'. apply sort_slice_ordered; unfold less; eauto using str_ltb_asym, str_ltb_negtrans. }
  pose proof (Hord l) as H1. pose proof (Hord k) as H2.
  assert (sort_slice less l ≡ₚ sort_slice less k) as Hp by by rewrite !sort_slice_perm.
  assert (NoDup (map key (sort_slice less l))) as Hnd1.
  { eapply NoDup_Permutation_proper; [|exact Hnd]. apply Permutation_map, sort_slice_perm. }
  clear Hnd Hlk. revert H1 H2 Hp Hnd1.
  generalize (sort_slice less l) as a, (sort_slice less k) as b. clear l k Hord.
  induction a as [|x a IH]; intros b H1 H2 Hp Hnd.
  { symmetry. by apply Permutation_nil. }
  destruct b as [|y b]; [by apply Permutation_sym, Permutation_nil in Hp|].
  apply ordered_cons in H1 as [Hx H1], H2 as [Hy H2].
  cbn in Hnd. apply list.NoDup_cons in Hnd as [Hnx Hnd].
  assert (x = y) as ->.
  { assert (y ∈ x :: a) as Hya by (rewrite Hp; by left).
    assert (x ∈ y :: b) as Hxb by (rewrite <- Hp; by left).
    apply elem_of_cons in Hya as [->|Hya]; [done|].
    apply elem_of_cons in Hxb as [->|Hxb]; [done|].
    destruct Hnx. specialize (Hx y Hya). specialize (Hy x Hxb). unfold less in Hx, Hy.
    rewrite (str_ltb_total _ _ Hy Hx). by apply list_elem_of_fmap_2. }
  f_equal. apply IH; [done..| |done]. by apply Permutation_cons_inv in Hp.
Qed.

(** Rows sorted by their rids. *)
Definition by_rid {A} (a b : Z * A) : Prop := (a.1 < b.1)%Z.

Lemma sort_by_rid {A} (l : list (Z * A)) :
  NoDup (map fst l) → StronglySorted by_rid (sort_slice (λ a b, a.1 <? b.1)%Z l).
Proof.
  intros Hnd. assert (ordered (λ a b : Z * A, a.1 <? b.1)%Z (sort_slice (λ a b, a.1 <? b.1)%Z l)) as Ho.
  { apply sort_slice_ordered; intros; apply Z.ltb_ge; rewrite ?Z.ltb_lt, ?Z.ltb_ge in *; lia. }
  assert (NoDup (map fst (sort_slice (λ a b, a.1 <? b.1)%Z l))) as Hn.
  { eapply NoDup_Permutation_proper; [apply Permutation_map, sort_slice_perm|exact Hnd]. }
  clear Hnd. revert Ho Hn. generalize (sort_slice (λ a b, a.1 <? b.1)%Z l) as k. clear l.
  induction k as [|x k IH]; intros Ho Hn; [constructor|].
  apply ordered_cons in Ho as [Hx Ho]. cbn in Hn. apply list.NoDup_cons in Hn as [Hnx Hn].
  constructor; [by apply IH|]. apply Forall_forall. intros y Hy%list_elem_of_In. unfold by_rid.
  specialize (Hx y Hy). apply Z.ltb_ge in Hx.
  assert (x.1 ≠ y.1); [|lia]. intros He. apply Hnx. rewrite He. by apply list_elem_of_fmap_2.
Qed.
