(* ===== verification/Storage.v ===== *)
(** * Files (src/simio/storage.go, storage_mem.go)

    The names of files as [path/filepath] treats them on Unix, the interface
    [Storage] through which a working directory is read and written, and its
    implementation in memory. *)
From S2P Require Import Prelude GoStrings.
From stdpp Require Import list gmap sets.

(** ** Path names

    A path is a sequence of components between slashes; the functions of
    [path/filepath] that the code calls, by what they do to it. *)

Definition SLASH : byte := "/"%byte.
Definition DOT : bytes := str ".".
Definition DOTDOT : bytes := str "..".

Definition IsAbs (path : bytes) : bool := bool_decide (head path = Some SLASH).

(** One component is taken onto those before it, in reverse: an empty one and [.]
    are dropped, [..] takes the one before it away. *)
Definition clean_step (rooted : bool) (out : list bytes) (c : bytes) : list bytes :=
  if bool_decide (c = [] ∨ c = DOT) then out else
  if bool_decide (c = DOTDOT) then
    match out with
    | x :: rest => if bool_decide (x = DOTDOT) then c :: out else rest
    | [] => if rooted then [] else [c]
    end
  else c :: out.

Definition components (path : bytes) : list bytes :=
  rev (foldl (clean_step (IsAbs path)) [] (Split path SLASH)).

Definition path_of (rooted : bool) (cs : list bytes) : bytes :=
  if rooted then SLASH :: GoStrings.Join cs [SLASH] else
  match cs with [] => DOT | _ => GoStrings.Join cs [SLASH] end.

Definition Clean (path : bytes) : bytes := path_of (IsAbs path) (components path).

(** [filepath.Join] of two names *)
Definition Join (a b : bytes) : bytes :=
  if bool_decide (a = []) then (if bool_decide (b = []) then [] else Clean b)
  else Clean (a ++ SLASH :: b).

(** Up to the last slash *)
Fixpoint dir_part (path : bytes) : bytes :=
  match path with
  | [] => []
  | c :: path => if bool_decide (SLASH ∈ c :: path) then c :: dir_part path else []
  end.
Definition Dir (path : bytes) : bytes := Clean (dir_part path).

Fixpoint strip_common (base targ : list bytes) : list bytes * list bytes :=
  match base, targ with
  | b :: base', t :: targ' => if bool_decide (b = t) then strip_common base' targ' else (base, targ)
  | _, _ => (base, targ)
  end.

(** [filepath.Rel] of an absolute target; it fails if the base is not absolute. *)
Definition Rel (basepath targpath : bytes) : option bytes :=
  if negb (IsAbs basepath) then None else
  let '(base, targ) := strip_common (components basepath) (components targpath) in
  Some (path_of false (map (λ _, DOTDOT) base ++ targ)).

(** ** The interface *)

Inductive io_error := NotExist | IOFailure.

#[export] Instance io_error_eq_dec : EqDecision io_error.
Proof. solve_decision. Defined.

(** A call that writes leaves a disk also when it fails.  The mode of a file is
    passed on; a time is kept as the number the caller has. *)
Class Storage := {
  disk : Type;
  Stat : disk → bytes → outcome io_error unit;
  ReadFile : disk → bytes → outcome io_error bytes;
  WriteFile : disk → bytes → bytes → Z → outcome (disk * io_error) disk;
  Remove : disk → bytes → outcome (disk * io_error) disk;
  MkdirAll : disk → bytes → outcome (disk * io_error) disk;
  Chtimes : disk → bytes → Z → outcome (disk * io_error) disk
}.

(** The disk after a call, if there is one. *)
Definition left_disk {S : Storage} (m : outcome (disk * io_error) disk) : option disk :=
  match m with Ret D | Fail (D, _) => Some D | _ => None end.

(** [q] is [p] or a directory above it. *)
Definition above (q p : bytes) : bool := bool_decide (q = p) || HasPrefix p (q ++ [SLASH]) || bool_decide (q = [SLASH]).

(** Names as [Clean] leaves them, both absolute or both relative. *)
Definition clean_names (p q : bytes) : Prop := Clean p = p ∧ Clean q = q ∧ IsAbs p = IsAbs q.

(** What a file system without links promises for such names: a file that was
    written is read back, one that was removed is gone, and no call touches
    another file; making a directory touches no file. *)
Class StorageLaws `{S : Storage} : Prop := {
  read_written : ∀ D p b m D', WriteFile D p b m = Ret D' → ReadFile D' p = Ret b;
  write_other : ∀ D p b m D' q, clean_names p q → p ≠ q →
    left_disk (WriteFile D p b m) = Some D' → ReadFile D' q = ReadFile D q;
  read_removed : ∀ D p D', Remove D p = Ret D' → ReadFile D' p = Fail NotExist;
  remove_absent : ∀ D p D', Remove D p = Fail (D', NotExist) → ReadFile D' p = Fail NotExist;
  remove_other : ∀ D p D' q, clean_names p q → p ≠ q →
    left_disk (Remove D p) = Some D' → ReadFile D' q = ReadFile D q;
  mkdir_keeps : ∀ D p D' q b, left_disk (MkdirAll D p) = Some D' → ReadFile D q = Ret b → ReadFile D' q = Ret b;
  mkdir_other : ∀ D p D' q, clean_names p q → above q p = false →
    left_disk (MkdirAll D p) = Some D' → ReadFile D' q = ReadFile D q;
  chtimes_read : ∀ D p t D' q, left_disk (Chtimes D p t) = Some D' → ReadFile D' q = ReadFile D q
}.

(** ** In memory

    [MemStorage].  [WriteFile] also panics on a nil slice, which is not told from an
    empty one here. *)
Record MemStorage := MkMem {
  m_files : gmap bytes bytes;
  m_dirs : gset bytes;
  m_mtimes : gmap bytes Z
}.

Definition NewMemStorage : MemStorage := MkMem ∅ ∅ ∅.

Definition Mem_Stat (m : MemStorage) (path : bytes) : outcome io_error unit :=
  if bool_decide (path = []) then Panic else
  if bool_decide (is_Some (m_files m !! path)) || bool_decide (path ∈ m_dirs m) then Ret tt else Fail NotExist.

Definition Mem_ReadFile (m : MemStorage) (path : bytes) : outcome io_error bytes :=
  if bool_decide (path = []) then Panic else
  match m_files m !! path with Some data => Ret data | None => Fail NotExist end.

Definition Mem_WriteFile (m : MemStorage) (path data : bytes) (perm : Z) : outcome (MemStorage * io_error) MemStorage :=
  if bool_decide (path = []) then Panic else
  Ret (MkMem (<[path := data]> (m_files m)) (m_dirs m) (m_mtimes m)).

Definition Mem_Remove (m : MemStorage) (path : bytes) : outcome (MemStorage * io_error) MemStorage :=
  if bool_decide (path = []) then Panic else
  if bool_decide (is_Some (m_files m !! path)) then Ret (MkMem (delete path (m_files m)) (m_dirs m) (m_mtimes m)) else
  if bool_decide (path ∈ m_dirs m) then Ret (MkMem (m_files m) (m_dirs m ∖ {[ path ]}) (m_mtimes m)) else
  Fail (m, NotExist).

Fixpoint mkdir_loop (parts : list bytes) (current : bytes) (dirs : gset bytes) : gset bytes :=
  match parts with
  | [] => dirs
  | part :: parts =>
    if bool_decide (part = []) then mkdir_loop parts current dirs else
    let current := if bool_decide (current = []) then SLASH :: part else Join current part in
    mkdir_loop parts current ({[ current ]} ∪ dirs)
  end.

Definition Mem_MkdirAll (m : MemStorage) (path : bytes) : outcome (MemStorage * io_error) MemStorage :=
  Ret (MkMem (m_files m) (mkdir_loop (Split path SLASH) [] (m_dirs m)) (m_mtimes m)).

Definition Mem_Chtimes (m : MemStorage) (path : bytes) (mtime : Z) : outcome (MemStorage * io_error) MemStorage :=
  if bool_decide (path = []) then Panic else
  match m_files m !! path with
  | None => Fail (m, NotExist)
  | Some _ => Ret (MkMem (m_files m) (m_dirs m) (<[path := mtime]> (m_mtimes m)))
  end.

Definition mem_storage : Storage := {|
  disk := MemStorage; Stat := Mem_Stat; ReadFile := Mem_ReadFile; WriteFile := Mem_WriteFile;
  Remove := Mem_Remove; MkdirAll := Mem_MkdirAll; Chtimes := Mem_Chtimes |}.


(** ** Lemmas: path names *)

Lemma split_loop_app a b sep cur : split_loop (a ++ sep :: b) sep cur = split_loop a sep cur ++ Split b sep.
Proof.
  revert cur. induction a as [|c a IH]; intros cur; cbn [app split_loop].
  - by rewrite bool_decide_true.
  - case_bool_decide; [cbn; by rewrite IH|apply IH].
Qed.

Lemma Split_app a b sep : Split (a ++ sep :: b) sep = Split a sep ++ Split b sep.
Proof. apply split_loop_app. Qed.

Lemma split_loop_one a sep cur : sep ∉ a → split_loop a sep cur = [cur ++ a].
Proof.
  revert cur. induction a as [|c a IH]; intros cur Ha; cbn [split_loop]; [by rewrite app_nil_r|].
  rewrite bool_decide_false by set_solver. rewrite IH by set_solver. by rewrite <- app_assoc.
Qed.

Lemma Split_Join cs sep : cs ≠ [] → Forall (λ c, sep ∉ c) cs → Split (GoStrings.Join cs [sep]) sep = cs.
Proof.
  intros Hne H. induction H as [|c cs Hc Hcs IH]; [done|]. destruct cs as [|d cs].
  - cbn [GoStrings.Join]. unfold Split. by rewrite split_loop_one.
  - rewrite Join_cons2. change ([sep] ++ ?x) with (sep :: x). rewrite Split_app, IH by done.
    unfold Split. by rewrite split_loop_one.
Qed.

Lemma split_loop_parts a sep cur : sep ∉ cur → Forall (λ c, sep ∉ c) (split_loop a sep cur).
Proof.
  revert cur. induction a as [|c a IH]; intros cur Hc; cbn [split_loop].
  - by constructor.
  - case_bool_decide.
    + constructor; [done|]. apply IH. set_solver.
    + apply IH. set_solver.
Qed.

(** A component of a clean name. *)
Definition plain (c : bytes) : Prop := c ≠ [] ∧ c ≠ DOT ∧ c ≠ DOTDOT ∧ SLASH ∉ c.

(** [..] is only left in front, and not in an absolute name; the components are in
    reverse. *)
Definition tidy (rooted : bool) (out : list bytes) : Prop :=
  ∃ cs k, out = cs ++ replicate k DOTDOT ∧ Forall plain cs ∧ (rooted = true → k = 0).

Lemma clean_step_tidy rooted out c : SLASH ∉ c → tidy rooted out → tidy rooted (clean_step rooted out c).
Proof.
  intros Hc (cs & k & -> & Hcs & Hk). unfold clean_step. case_bool_decide as H1; [by exists cs, k|].
  case_bool_decide as H3.
  - subst c. destruct cs as [|x cs].
    + destruct k as [|k]; cbn.
      * destruct rooted; [by exists [], 0|]. exists [], 1. done.
      * exists [], (S (S k)). split; [done|]. split; [done|]. intros H. by specialize (Hk H).
    + apply Forall_cons in Hcs as [Hx Hcs]. cbn. rewrite bool_decide_false by apply Hx. by exists cs, k.
  - exists (c :: cs), k. split; [done|]. split; [|done]. constructor; [|done]. unfold plain. tauto.
Qed.

Lemma components_tidy path : tidy (IsAbs path) (rev (components path)).
Proof.
  unfold components. rewrite rev_involutive. pose proof (split_loop_parts path SLASH []) as H.
  specialize (H ltac:(set_solver)). fold (Split path SLASH) in H. revert H.
  assert (tidy (IsAbs path) []) as H0 by by exists [], 0. revert H0. generalize (@nil bytes) as out.
  induction (Split path SLASH) as [|c l IH]; intros out Ho Hl; [done|]. cbn [foldl].
  apply Forall_cons in Hl as [Hc Hl]. apply IH; [by apply clean_step_tidy|done].
Qed.

Lemma clean_step_plain rooted out c : plain c → clean_step rooted out c = c :: out.
Proof.
  intros (H1 & H2 & H3 & _). unfold clean_step. rewrite bool_decide_false by tauto. by rewrite bool_decide_false.
Qed.

Lemma foldl_plain rooted out cs : Forall plain cs → foldl (clean_step rooted) out cs = rev cs ++ out.
Proof.
  intros H. revert out. induction H as [|c cs Hc _ IH]; intros out; [done|]. cbn [foldl rev].
  by rewrite clean_step_plain, IH, <- app_assoc.
Qed.

Lemma foldl_dotdot k out : (∀ x, head out = Some x → x = DOTDOT) →
  foldl (clean_step false) out (replicate k DOTDOT) = replicate k DOTDOT ++ out.
Proof.
  revert out. induction k as [|k IH]; intros out H; [done|]. cbn [replicate foldl].
  assert (clean_step false out DOTDOT = DOTDOT :: out) as ->.
  { unfold clean_step. rewrite bool_decide_false by (by intros [?|?]). rewrite bool_decide_true by done.
    destruct out as [|x out]; [done|]. rewrite bool_decide_true; [done|]. by apply H. }
  rewrite IH by (intros x; by intros [= ->]). change (DOTDOT :: out) with ([DOTDOT] ++ out).
  rewrite app_assoc, <- replicate_cons_app. done.
Qed.

(** What a component of a clean name is. *)
Definition part (c : bytes) : Prop := c ≠ [] ∧ c ≠ DOT ∧ SLASH ∉ c.

Lemma tidy_parts rooted out : tidy rooted out → Forall part out.
Proof.
  intros (cs & k & -> & Hcs & _). apply Forall_app. split.
  - eapply Forall_impl; [exact Hcs|]. intros c (? & ? & ? & ?). by split.
  - apply Forall_replicate. split_and!; by_decide.
Qed.

Lemma parts_no_slash cs : Forall part cs → Forall (λ c, SLASH ∉ c) cs.
Proof. intros H. eapply Forall_impl; [exact H|]. by intros c (_ & _ & ?). Qed.

Lemma foldl_tidy rooted out : tidy rooted out → foldl (clean_step rooted) [] (rev out) = out.
Proof.
  intros (cs & k & -> & Hcs & Hk).
  assert (rev (replicate k DOTDOT) = replicate k DOTDOT) as Hr by (rewrite rev_alt; apply reverse_replicate).
  rewrite rev_app_distr, Hr, foldl_app.
  assert (foldl (clean_step rooted) [] (replicate k DOTDOT) = replicate k DOTDOT) as ->.
  { destruct rooted; [by rewrite Hk|]. rewrite foldl_dotdot by done. by rewrite app_nil_r. }
  rewrite foldl_plain, rev_involutive; [done|]. by apply Forall_rev.
Qed.

Lemma IsAbs_path_of rooted cs : Forall part cs → IsAbs (path_of rooted cs) = rooted.
Proof.
  intros H. unfold IsAbs, path_of. destruct rooted; [done|].
  destruct cs as [|[|x c] cs]; [done|by apply Forall_cons in H as [[] _]|].
  apply bool_decide_eq_false. apply Forall_cons in H as [(_ & _ & Hc) _].
  assert (head (GoStrings.Join ((x :: c) :: cs) [SLASH]) = Some x) as -> by by destruct cs.
  intros [= ->]. apply Hc. by left.
Qed.

(** What [Clean] leaves has the components it is made of. *)
Lemma components_path_of rooted cs : tidy rooted (rev cs) → components (path_of rooted cs) = cs.
Proof.
  intros Ht. pose proof (tidy_parts _ _ Ht) as Hp. apply Forall_rev in Hp. rewrite rev_involutive in Hp.
  unfold components. rewrite IsAbs_path_of by done.
  rewrite <- (rev_involutive cs) at 2. f_equal. rewrite <- (foldl_tidy rooted (rev cs) Ht) at 1.
  rewrite rev_involutive. unfold path_of. destruct rooted.
  - change (SLASH :: ?x) with ([] ++ SLASH :: x). rewrite Split_app.
    change (Split [] SLASH) with [@nil byte]. cbn [app foldl]. change (clean_step true [] []) with (@nil bytes).
    destruct cs as [|c cs]; [done|]. rewrite Split_Join; [done|done|by apply parts_no_slash].
  - destruct cs as [|c cs]; [done|]. rewrite Split_Join; [done|done|by apply parts_no_slash].
Qed.

Lemma Clean_idem path : Clean (Clean path) = Clean path.
Proof.
  pose proof (components_tidy path) as Ht. pose proof (tidy_parts _ _ Ht) as Hp.
  apply Forall_rev in Hp. rewrite rev_involutive in Hp.
  change (path_of (IsAbs (path_of (IsAbs path) (components path))) (components (path_of (IsAbs path) (components path))) =
    path_of (IsAbs path) (components path)).
  by rewrite IsAbs_path_of, components_path_of.
Qed.

Lemma IsAbs_Clean path : IsAbs (Clean path) = IsAbs path.
Proof.
  pose proof (tidy_parts _ _ (components_tidy path)) as Hp. apply Forall_rev in Hp. rewrite rev_involutive in Hp.
  unfold Clean. by rewrite IsAbs_path_of.
Qed.

Lemma components_Clean path : components (Clean path) = components path.
Proof. apply components_path_of, components_tidy. Qed.

Lemma plain_part c : plain c → part c.
Proof. intros (? & ? & ? & ?). by split. Qed.

Lemma plain_tidy rooted cs : Forall plain cs → tidy rooted (rev cs).
Proof. intros H. exists (rev cs), 0. split; [by rewrite app_nil_r|]. split; [by apply Forall_rev|done]. Qed.

(** A clean relative name without [..] is joined to a directory. *)
Lemma Join_plain a cs : a ≠ [] → Forall plain cs →
  Join a (path_of false cs) = path_of (IsAbs a) (components a ++ cs).
Proof.
  intros Ha Hcs. unfold Join. rewrite bool_decide_false by done. unfold Clean.
  assert (IsAbs (a ++ SLASH :: path_of false cs) = IsAbs a) as HA by by destruct a.
  rewrite HA. f_equal. unfold components at 1. rewrite HA, Split_app, foldl_app.
  assert (∀ A, foldl (clean_step (IsAbs a)) A (Split (path_of false cs) SLASH) = rev cs ++ A) as ->.
  { intros A. unfold path_of. destruct cs as [|c cs]; [done|]. rewrite Split_Join; [by apply foldl_plain|done|].
    apply parts_no_slash. eapply Forall_impl; [exact Hcs|]. apply plain_part. }
  by rewrite rev_app_distr, rev_involutive.
Qed.

Lemma Join_clean a cs : a ≠ [] → Forall plain cs → Clean (Join a (path_of false cs)) = Join a (path_of false cs).
Proof. intros. unfold Join. rewrite bool_decide_false by done. apply Clean_idem. Qed.

Lemma Join_inj a cs cs' : a ≠ [] → Forall plain cs → Forall plain cs' →
  Join a (path_of false cs) = Join a (path_of false cs') → cs = cs'.
Proof.
  intros Ha H H' Heq. rewrite !Join_plain in Heq by done.
  assert (∀ l, Forall plain l → components (path_of (IsAbs a) (components a ++ l)) = components a ++ l) as Hc.
  { intros l Hl. apply components_path_of. rewrite rev_app_distr.
    destruct (components_tidy a) as (x & k & Hx & Hxp & Hk). rewrite Hx. exists (rev l ++ x), k.
    split; [by rewrite app_assoc|]. split; [|done]. apply Forall_app. split; [by apply Forall_rev|done]. }
  apply (f_equal components) in Heq. rewrite !Hc in Heq by done. by apply app_inv_head in Heq.
Qed.

Lemma GoJoin_app cs ds : cs ≠ [] → ds ≠ [] →
  GoStrings.Join (cs ++ ds) [SLASH] = GoStrings.Join cs [SLASH] ++ SLASH :: GoStrings.Join ds [SLASH].
Proof.
  intros Hc Hd. induction cs as [|c cs IH]; [done|]. destruct cs as [|c' cs].
  - destruct ds as [|d ds]; [done|]. cbn [app]. by rewrite Join_cons2.
  - cbn [app]. rewrite !Join_cons2. cbn [app] in IH. rewrite IH by done. by rewrite <- !app_assoc.
Qed.

Lemma HasPrefix_same p s : HasPrefix (p ++ s) p = true.
Proof. induction p as [|x p IH]; [by destruct s|]. cbn. by rewrite bool_decide_true, IH. Qed.

(** What is joined to an absolute directory lies in it. *)
Lemma path_of_below A cs : A ≠ [] →
  path_of true (A ++ cs) = path_of true A ∨ HasPrefix (path_of true (A ++ cs)) (path_of true A ++ [SLASH]) = true.
Proof.
  intros HA. destruct cs as [|c cs]; [left; by rewrite app_nil_r|]. right.
  unfold path_of. rewrite GoJoin_app by done.
  replace (SLASH :: GoStrings.Join A [SLASH] ++ SLASH :: GoStrings.Join (c :: cs) [SLASH])
    with (((SLASH :: GoStrings.Join A [SLASH]) ++ [SLASH]) ++ GoStrings.Join (c :: cs) [SLASH]).
  - apply HasPrefix_same.
  - cbn [app]. by rewrite <- app_assoc.
Qed.

(** ** The laws hold in memory *)

Lemma Mem_ReadFile_eq m m' q : m_files m' !! q = m_files m !! q → Mem_ReadFile m' q = Mem_ReadFile m q.
Proof. unfold Mem_ReadFile. by intros ->. Qed.

Lemma mem_storage_laws : @StorageLaws mem_storage.
Proof.
  split; cbn [disk ReadFile WriteFile Remove MkdirAll Chtimes mem_storage].
  - intros D p b m D'. unfold Mem_WriteFile, Mem_ReadFile. case_bool_decide; [done|]. intros [= <-].
    cbn. by rewrite lookup_insert_eq.
  - intros D p b m D' q _ Hn. unfold Mem_WriteFile. case_bool_decide; [done|]. intros [= <-].
    apply Mem_ReadFile_eq. by apply lookup_insert_ne.
  - intros D p D'. unfold Mem_Remove, Mem_ReadFile. case_bool_decide; [done|].
    case_bool_decide as H1; [intros [= <-]; cbn; by rewrite lookup_delete_eq|].
    case_bool_decide; [|done]. intros [= <-]. cbn. by rewrite (eq_None_not_Some (m_files D !! p)) in H1 || (destruct (m_files D !! p); [by destruct H1|done]).
  - intros D p D'. unfold Mem_Remove, Mem_ReadFile. case_bool_decide; [done|].
    case_bool_decide as H1; [done|]. case_bool_decide; [done|]. intros [= <-].
    by destruct (m_files D !! p); [destruct H1|].
  - intros D p D' q _ Hn. unfold Mem_Remove. case_bool_decide; [done|].
    repeat case_bool_decide; intros [= <-]; apply Mem_ReadFile_eq; [by apply lookup_delete_ne|done..].
  - intros D p D' q b. unfold Mem_MkdirAll. by intros [= <-].
  - intros D p D' q _ _. unfold Mem_MkdirAll. by intros [= <-].
  - intros D p t D' q. unfold Mem_Chtimes. case_bool_decide; [done|]. destruct (m_files D !! p); by intros [= <-].
Qed.
