(* ===== verification/Hash.v ===== *)
(** * Content hashes ([internal/hash/hash.go])

    The digests of Go's [crypto/md5] and [crypto/sha1] as executable functions
    (RFC 1321, FIPS 180-4), lower-case hex, and the hash package on top of them.
    SHA3-256 comes from a third-party module and is a parameter. *)
From S2P Require Import Prelude GoStrings.

(** ** Words *)

Open Scope Z_scope.

Definition add32 (a b : Z) : Z := u32 (a + b).
Definition not32 (a : Z) : Z := Z.lxor a 4294967295.
Definition rotl32 (x : Z) (s : Z) : Z :=
  Z.lor (u32 (Z.shiftl x s)) (Z.shiftr x (32 - s)).

Definition word_le (b : bytes) : Z :=
  foldr (λ c acc, bval c + 256 * acc) 0 b.
Definition word_be (b : bytes) : Z :=
  foldl (λ acc c, 256 * acc + bval c) 0 b.

Fixpoint bytes_le (n : nat) (v : Z) : bytes :=
  match n with O => [] | S n => byte_of v :: bytes_le n (v / 256) end.
Definition bytes_be (n : nat) (v : Z) : bytes := rev (bytes_le n v).

Fixpoint chunks {A} (fuel : nat) (n : nat) (l : list A) : list (list A) :=
  match fuel, l with
  | O, _ | _, [] => []
  | S fuel, _ => take n l :: chunks fuel n (drop n l)
  end.

(** Padding to a multiple of 64 bytes: 0x80, zeros, the bit length. *)
Definition pad_zeros (len : nat) : nat := Z.to_nat ((55 - Z.of_nat len) mod 64).

(** ** MD5 *)

Definition md5_K : list Z :=
 [
   3614090360; 3905402710; 606105819; 3250441966; 4118548399; 1200080426;
   2821735955; 4249261313; 1770035416; 2336552879; 4294925233; 2304563134;
   1804603682; 4254626195; 2792965006; 1236535329; 4129170786; 3225465664;
   643717713; 3921069994; 3593408605; 38016083; 3634488961; 3889429448;
   568446438; 3275163606; 4107603335; 1163531501; 2850285829; 4243563512;
   1735328473; 2368359562; 4294588738; 2272392833; 1839030562; 4259657740;
   2763975236; 1272893353; 4139469664; 3200236656; 681279174; 3936430074;
   3572445317; 76029189; 3654602809; 3873151461; 530742520; 3299628645;
   4096336452; 1126891415; 2878612391; 4237533241; 1700485571; 2399980690;
   4293915773; 2240044497; 1873313359; 4264355552; 2734768916; 1309151649;
   4149444226; 3174756917; 718787259; 3951481745].

Definition md5_S : list Z :=
 [7; 12; 17; 22; 7; 12; 17; 22; 7; 12; 17; 22; 7; 12; 17; 22;
  5; 9; 14; 20; 5; 9; 14; 20; 5; 9; 14; 20; 5; 9; 14; 20;
  4; 11; 16; 23; 4; 11; 16; 23; 4; 11; 16; 23; 4; 11; 16; 23;
  6; 10; 15; 21; 6; 10; 15; 21; 6; 10; 15; 21; 6; 10; 15; 21].

Definition md5_state : Type := Z * Z * Z * Z.

Definition md5_round (M : list Z) (st : md5_state) (i : nat) : md5_state :=
  let '(a, b, c, d) := st in
  let '(f, g) :=
    (if i <? 16 then (Z.lor (Z.land b c) (Z.land (not32 b) d), i)
     else if i <? 32 then (Z.lor (Z.land d b) (Z.land (not32 d) c), (5 * i + 1) mod 16)
     else if i <? 48 then (Z.lxor b (Z.lxor c d), (3 * i + 5) mod 16)
     else (Z.lxor c (Z.lor b (not32 d)), (7 * i) mod 16))%nat in
  let x := add32 (add32 a f) (add32 (nth i md5_K 0) (nth g M 0)) in
  (d, add32 b (rotl32 x (nth i md5_S 0)), b, c).

Definition md5_block (st : md5_state) (blk : bytes) : md5_state :=
  let M := map word_le (chunks 16 4 blk) in
  let '(a, b, c, d) := st in
  let '(a', b', c', d') := foldl (md5_round M) st (seq 0 64) in
  (add32 a a', add32 b b', add32 c c', add32 d d').

(** [md5.Sum] *)
Definition md5 (data : bytes) : bytes :=
  let msg := data ++ [x80] ++ replicate (pad_zeros (length data)) x00 ++
             bytes_le 8 (8 * zlen data) in
  let '(a, b, c, d) :=
    foldl md5_block (1732584193, 4023233417, 2562383102, 271733878)
          (chunks (length msg) 64 msg) in
  bytes_le 4 a ++ bytes_le 4 b ++ bytes_le 4 c ++ bytes_le 4 d.

(** ** SHA-1 *)

(** The message schedule, newest word first. *)
Fixpoint sha1_extend (n : nat) (w : list Z) : list Z :=
  match n with
  | O => w
  | S n =>
    sha1_extend n
      (rotl32 (Z.lxor (Z.lxor (nth 2 w 0) (nth 7 w 0)) (Z.lxor (nth 13 w 0) (nth 15 w 0))) 1 :: w)
  end.

Definition sha1_state : Type := Z * Z * Z * Z * Z.

Definition sha1_round (st : sha1_state) (iw : nat * Z) : sha1_state :=
  let '(i, w) := iw in
  let '(a, b, c, d, e) := st in
  let '(f, k) :=
    if (i <? 20)%nat then (Z.lor (Z.land b c) (Z.land (not32 b) d), 1518500249)
    else if (i <? 40)%nat then (Z.lxor b (Z.lxor c d), 1859775393)
    else if (i <? 60)%nat then
      (Z.lor (Z.lor (Z.land b c) (Z.land b d)) (Z.land c d), 2400959708)
    else (Z.lxor b (Z.lxor c d), 3395469782) in
  (add32 (add32 (add32 (rotl32 a 5) f) (add32 e k)) w, a, rotl32 b 30, c, d).

Definition sha1_block (st : sha1_state) (blk : bytes) : sha1_state :=
  let w := rev (sha1_extend 64 (rev (map word_be (chunks 16 4 blk)))) in
  let '(a, b, c, d, e) := st in
  let '(a', b', c', d', e') := foldl sha1_round st (zip (seq 0 80) w) in
  (add32 a a', add32 b b', add32 c c', add32 d d', add32 e e').

(** [sha1.Sum] *)
Definition sha1 (data : bytes) : bytes :=
  let msg := data ++ [x80] ++ replicate (pad_zeros (length data)) x00 ++
             bytes_be 8 (8 * zlen data) in
  let '(a, b, c, d, e) :=
    foldl sha1_block (1732584193, 4023233417, 2562383102, 271733878, 3285377520)
          (chunks (length msg) 64 msg) in
  bytes_be 4 a ++ bytes_be 4 b ++ bytes_be 4 c ++ bytes_be 4 d ++ bytes_be 4 e.

(** ** Hex *)

Definition hexdigits : bytes := str "0123456789abcdef".
Definition hex_byte (b : byte) : bytes :=
  [nth (Z.to_nat (bval b / 16)) hexdigits x00; nth (Z.to_nat (bval b mod 16)) hexdigits x00].

(** [hex.EncodeToString] *)
Definition hex_encode (data : bytes) : bytes := concat (map hex_byte data).

Close Scope Z_scope.

(** ** The package *)

(** [hash.SHA1]: panics on a nil slice. *)
Definition sha1_hex (data : bytes) : bytes := hex_encode (sha1 data).
Definition SHA1 {E} (data : slice) : outcome E bytes :=
  match data with None => Panic | Some d => Ret (sha1_hex d) end.

Definition HashSize {E} (hashType : bytes) : outcome E nat :=
  if length hashType =? 0 then Panic
  else if bool_decide (hashType = str "sha1") then Ret 40
  else if bool_decide (hashType = str "sha3") then Ret 64
  else Ret 0.

(** The loop of [IsValidHash] ranges over runes; a rune outside ASCII fails the
    test as each of its bytes does. *)
Definition is_hex_lower (c : byte) : bool :=
  ((48 <=? bval c) && (bval c <=? 57) || (97 <=? bval c) && (bval c <=? 102))%Z.
Definition IsValidHash {E} (h : bytes) : outcome E bool :=
  if length h =? 0 then Panic
  else if negb (length h =? 40) && negb (length h =? 64) then Ret false
  else Ret (forallb is_hex_lower h).

(** [sha3.Sum256] of golang.org/x/crypto. *)
Class Sha3 := { sha3_256 : bytes → bytes }.

Section sha3.
Context {sha3 : Sha3}.

Definition sha3_hex (data : bytes) : bytes := hex_encode (sha3_256 data).
Definition SHA3 {E} (data : slice) : outcome E bytes :=
  match data with None => Panic | Some d => Ret (sha3_hex d) end.

Definition ContentHash {E} (content : slice) (referenceHash : bytes) : outcome E bytes :=
  match content with
  | None => Panic
  | Some c =>
    if length referenceHash =? 0 then Panic
    else if 40 <? length referenceHash then SHA3 (Some c) else SHA1 (Some c)
  end.
End sha3.

(** ** Test vectors *)

Example md5_empty : hex_encode (md5 []) = str "d41d8cd98f00b204e9800998ecf8427e".
Proof. vm_compute. reflexivity. Qed.
Example md5_fox :
  hex_encode (md5 (str "The quick brown fox jumps over the lazy dog")) =
  str "9e107d9d372bb6826bd81d3542a419d6".
Proof. vm_compute. reflexivity. Qed.
Example md5_long :
  hex_encode (md5 (str "12345678901234567890123456789012345678901234567890123456789012345678901234567890")) =
  str "57edf4a22be3c955ac49da2e2107b67a".
Proof. vm_compute. reflexivity. Qed.
Example sha1_empty : sha1_hex [] = str "da39a3ee5e6b4b0d3255bfef95601890afd80709".
Proof. vm_compute. reflexivity. Qed.
Example sha1_fox :
  sha1_hex (str "The quick brown fox jumps over the lazy dog") =
  str "2fd4e1c67a2d28fced849ee1bb76e7391b93eb12".
Proof. vm_compute. reflexivity. Qed.
Example sha1_448 :
  sha1_hex (str "abcdbcdecdefdefgefghfghighijhijkijkljklmklmnlmnomnopnopq") =
  str "84983e441c3bd26ebaae4aa1f95129e5e54670f1".
Proof. vm_compute. reflexivity. Qed.

(** ** Shape of the digests *)

Lemma length_bytes_le n v : length (bytes_le n v) = n.
Proof. revert v. induction n; intros; cbn; auto. Qed.
Lemma length_bytes_be n v : length (bytes_be n v) = n.
Proof. unfold bytes_be. by rewrite length_rev, length_bytes_le. Qed.

Lemma length_md5 data : length (md5 data) = 16.
Proof.
  unfold md5. cbv zeta. destruct (foldl md5_block _ _) as [[[a b] c] d].
  by rewrite !length_app, !length_bytes_le.
Qed.

Lemma length_sha1 data : length (sha1 data) = 20.
Proof.
  unfold sha1. cbv zeta. destruct (foldl sha1_block _ _) as [[[[a b] c] d] e].
  by rewrite !length_app, !length_bytes_be.
Qed.

Lemma length_hex_encode data : length (hex_encode data) = 2 * length data.
Proof. unfold hex_encode. induction data as [|b data IH]; [done|]. cbn. lia. Qed.

Lemma hexdigit_lower n : (n < 16)%nat → is_hex_lower (nth n hexdigits x00) = true.
Proof. intros Hn. do 16 (destruct n as [|n]; [done|]). lia. Qed.

Lemma hex_encode_lower data : Forall (λ c, is_hex_lower c = true) (hex_encode data).
Proof.
  unfold hex_encode. induction data as [|b data IH]; [constructor|]. cbn.
  pose proof (bval_range b).
  assert (0 ≤ bval b / 16 < 16)%Z.
  { split; [apply Z.div_pos; lia|apply Z.div_lt_upper_bound; lia]. }
  pose proof (Z.mod_pos_bound (bval b) 16 ltac:(lia)).
  repeat constructor; [apply hexdigit_lower; lia..|done].
Qed.

Lemma hex_lower_graph s : Forall (λ c, is_hex_lower c = true) s → Forall (λ c, 33 ≤ bval c < 127)%Z s.
Proof. intros Hs. eapply Forall_impl; [|exact Hs]. unfold is_hex_lower. cbn. intros; lia. Qed.

Lemma hex_lower_word s : s ≠ [] → Forall (λ c, is_hex_lower c = true) s → word s.
Proof. intros Hne Hs. split; [done|]. by apply no_space_graph, hex_lower_graph. Qed.

Lemma length_sha1_hex data : length (sha1_hex data) = 40.
Proof. unfold sha1_hex. by rewrite length_hex_encode, length_sha1. Qed.

Lemma sha1_hex_valid {E} data : IsValidHash (E:=E) (sha1_hex data) = Ret true.
Proof.
  unfold IsValidHash. rewrite length_sha1_hex. cbn. f_equal.
  apply forallb_forall. intros c Hc.
  pose proof (hex_encode_lower (sha1 data)) as Hl. rewrite List.Forall_forall in Hl. by apply Hl.
Qed.

(** A stand-in of the right length, for witnesses that need some function. *)
Definition test_sha3 : Sha3 := {| sha3_256 d := sha1 d ++ repeat x00 12 |}.
