(* ===== verification/Zlib.v ===== *)
(** * The zlib codec the program compresses with

    [compress/zlib] is the standard library's; the development states what the
    program relies on as a typeclass: writing a stream and closing it gives a
    stream that reads back as what was written, and a reader accepts only a
    stream that starts with a zlib header (RFC 1950: compression method 8, a
    window of at most 32 KiB, and a check that makes the two bytes divisible by
    31).  The components that compress are proved against the class; [stored]
    is an instance of it, for the witnesses. *)
From S2P Require Import Prelude.
From stdpp Require Import list.

Definition zlib_header (d : bytes) : bool :=
  match d with
  | b0 :: b1 :: _ =>
    ((bval b0 mod 16 =? 8) && (bval b0 / 16 <=? 7) && ((bval b0 * 256 + bval b1) mod 31 =? 0))%Z
  | _ => false
  end.

Class Zlib := {
  (** [zlib.NewWriter], [Write], [Close]. *)
  deflate : bytes → bytes;
  (** [zlib.NewReader], [io.ReadAll]: the data, or [None] for an error. *)
  inflate : bytes → option bytes
}.

Class ZlibLaws `{Zlib} : Prop := {
  inflate_deflate : ∀ d, inflate (deflate d) = Some d;
  (** The writer announces deflate with a 32 KiB window. *)
  deflate_head : ∀ d, head (deflate d) = Some x78;
  inflate_header : ∀ d x, inflate d = Some x → zlib_header d = true
}.

(** ** The size prefix

    Messages and blobs carry the length of the data, as 32 bits, in front of the
    stream ([binary.BigEndian] of [uint32(len(data))]). *)
Definition size_prefix (n : Z) : bytes :=
  let v := u32 n in
  [byte_of (Z.shiftr v 24); byte_of (Z.shiftr v 16); byte_of (Z.shiftr v 8); byte_of v].

Definition prefix_value (d : bytes) : option Z :=
  match d with
  | b0 :: b1 :: b2 :: b3 :: _ =>
    Some (Z.lor (Z.lor (Z.lor (Z.shiftl (bval b0) 24) (Z.shiftl (bval b1) 16))
                   (Z.shiftl (bval b2) 8)) (bval b3))
  | _ => None
  end.

Lemma lor_bytes b0 b1 b2 b3 :
  (0 ≤ b0 < 256 → 0 ≤ b1 < 256 → 0 ≤ b2 < 256 → 0 ≤ b3 < 256 →
   Z.lor (Z.lor (Z.lor (b0 * 2 ^ 24) (b1 * 2 ^ 16)) (b2 * 2 ^ 8)) b3
   = b3 + 256 * (b2 + 256 * (b1 + 256 * b0)))%Z.
Proof.
  intros H0 H1 H2 H3. rewrite (lor_low b0 _ 24) by lia.
  replace (b0 * 2 ^ 24 + b1 * 2 ^ 16)%Z with ((b0 * 256 + b1) * 2 ^ 16)%Z by lia.
  rewrite lor_low by lia.
  replace ((b0 * 256 + b1) * 2 ^ 16 + b2 * 2 ^ 8)%Z
    with ((b0 * 65536 + b1 * 256 + b2) * 2 ^ 8)%Z by lia.
  rewrite lor_low by lia. lia.
Qed.

Lemma base256 v :
  (0 ≤ v < 2 ^ 32 →
   v mod 256 + 256 * ((v / 2 ^ 8) mod 256 + 256 * ((v / 2 ^ 16) mod 256 + 256 * ((v / 2 ^ 24) mod 256)))
   = v)%Z.
Proof.
  intros Hv. change (2 ^ 24)%Z with (256 * 256 * 256)%Z. change (2 ^ 16)%Z with (256 * 256)%Z.
  change (2 ^ 8)%Z with 256%Z. rewrite <- !Z.div_div by lia.
  assert (0 ≤ v / 256 / 256 / 256 < 256)%Z as Hq.
  { split; [repeat (apply Z.div_pos; [|done]); lia|].
    repeat (apply Z.div_lt_upper_bound; [done|]). lia. }
  rewrite (Z.mod_small (v / 256 / 256 / 256)) by done. clear Hq.
  rewrite (Z.div_mod v 256) at 5 by done. rewrite (Z.div_mod (v / 256) 256) at 4 by done.
  rewrite (Z.div_mod (v / 256 / 256) 256) at 3 by done. ring.
Qed.

Lemma prefix_value_size n d : prefix_value (size_prefix n ++ d) = Some (u32 n).
Proof.
  cbn [size_prefix prefix_value app]. f_equal.
  rewrite !bval_byte_of, !Z.shiftr_div_pow2, !Z.shiftl_mul_pow2 by done.
  rewrite lor_bytes by (apply Z.mod_pos_bound; done).
  apply base256. unfold u32. by apply Z.mod_pos_bound.
Qed.

Lemma drop_size_prefix n d : drop 4 (size_prefix n ++ d) = d.
Proof. reflexivity. Qed.

(** A stream that keeps its data as it is, behind a header. *)
Definition stored : Zlib := {|
  deflate d := x78 :: x9c :: d;
  inflate d := if bool_decide (take 2 d = [x78; x9c]) then Some (drop 2 d) else None
|}.

Lemma stored_laws : @ZlibLaws stored.
Proof.
  split; [done|done|]. intros d x. cbn. case_bool_decide as Hd; [|done]. intros _.
  rewrite <- (take_drop 2 d), Hd. reflexivity.
Qed.
