(* ===== verification/Delta.v ===== *)
(** * The delta codec ([internal/delta/delta.go])

    The reader, [Apply], [Checksum] and the encoder [Create] with its hash table
    of 16-byte source blocks.  The format is specified by the relation
    [denotes]; [Apply] decides it and [Create] produces a member of it. *)
From S2P Require Import Prelude.

(** ** Definitions *)

(** Every error of the package: [ErrChecksum] and the formats that wrap
    [ErrInvalidDelta]. *)
Inductive delta_error : Type :=
  | EExpectedInteger (pos : nat)
  | EUnexpectedEnd (pos : nat)
  | EEmptyDelta
  | EExpectedNewline
  | EExpectedComma
  | ECopyOverflow
  | ECopyBounds (offset cnt srclen : Z)
  | EInsertOverflow
  | EInsertBounds
  | EOutputSize (got want : Z)
  | EUnknownCommand (cmd : byte) (pos : nat)
  | EMissingTerminator
  | ErrChecksum (expected got : Z).

Abbreviation out := (outcome delta_error).

Definition digits : list Z :=
 [-1; -1; -1; -1; -1; -1; -1; -1; -1; -1; -1; -1; -1; -1; -1; -1;
  -1; -1; -1; -1; -1; -1; -1; -1; -1; -1; -1; -1; -1; -1; -1; -1;
  -1; -1; -1; -1; -1; -1; -1; -1; -1; -1; -1; -1; -1; -1; -1; -1;
  0; 1; 2; 3; 4; 5; 6; 7; 8; 9; -1; -1; -1; -1; -1; -1;
  -1; 10; 11; 12; 13; 14; 15; 16; 17; 18; 19; 20; 21; 22; 23; 24;
  25; 26; 27; 28; 29; 30; 31; 32; 33; 34; 35; -1; -1; -1; -1; 36;
  -1; 37; 38; 39; 40; 41; 42; 43; 44; 45; 46; 47; 48; 49; 50; 51;
  52; 53; 54; 55; 56; 57; 58; 59; 60; 61; 62; -1; -1; -1; 63; -1]%Z.

(** [digits[c]] for [c < 128]; the table is never read above. *)
Definition digit (c : byte) : Z := default (-1)%Z (digits !! Z.to_nat (bval c)).

(** [c >= 128 || digits[c] < 0] *)
Definition not_digit (c : byte) : bool := (128 <=? bval c)%Z || (digit c <? 0)%Z.

Record reader : Type := Reader { r_data : bytes; r_pos : nat }.

(** The loop of [getInt] over the unread bytes: the value and how many were
    consumed. *)
Fixpoint getInt_loop (l : bytes) (v : Z) (n : nat) : Z * nat :=
  match l with
  | [] => (v, n)
  | c :: l' =>
      if not_digit c then (v, n) else getInt_loop l' (u64 (v * 64 + digit c)) (S n)
  end.

Definition getInt (r : reader) : out (Z * reader) :=
  match getInt_loop (drop (r_pos r) (r_data r)) 0 0 with
  | (_, O) => Fail (EExpectedInteger (r_pos r))
  | (v, n) => Ret (v, Reader (r_data r) (r_pos r + n))
  end.

Definition getChar (r : reader) : out (byte * reader) :=
  if length (r_data r) <=? r_pos r then Fail (EUnexpectedEnd (r_pos r))
  else c ← index (r_data r) (r_pos r);
       Ret (c, Reader (r_data r) (S (r_pos r))).

(** [uint32(b) << s] *)
Definition shl32 (b : byte) (s : Z) : Z := u32 (Z.shiftl (bval b) s).

Fixpoint checksum_loop (data : bytes) (sum : Z) : Z :=
  match data with
  | b0 :: b1 :: b2 :: b3 :: rest =>
      checksum_loop rest
        (u32 (sum + Z.lor (Z.lor (Z.lor (shl32 b0 24) (shl32 b1 16)) (shl32 b2 8))
                          (bval b3)))
  | [b0; b1; b2] =>
      u32 (u32 (u32 (sum + shl32 b2 8) + shl32 b1 16) + shl32 b0 24)
  | [b0; b1] => u32 (u32 (sum + shl32 b1 16) + shl32 b0 24)
  | [b0] => u32 (sum + shl32 b0 24)
  | [] => sum
  end.

Definition Checksum (data : slice) : out Z :=
  match data with
  | None => Panic
  | Some d => Ret (checksum_loop d 0)
  end.

(** The command loop of [Apply].  Every round consumes at least two bytes of
    the delta, so its length is enough fuel ([apply_loop_fuel]). *)
Fixpoint apply_loop (fuel : nat) (source : bytes) (targetLen : Z) (r : reader)
    (output : bytes) : out bytes :=
  match fuel with
  | O => NoFuel
  | S fuel =>
    if negb (r_pos r <? length (r_data r)) then Fail EMissingTerminator else
    '(cnt, r) ← getInt r;
    '(cmd, r) ← getChar r;
    match cmd with
    | "@"%byte =>
        '(offset, r) ← getInt r;
        '(term, r) ← getChar r;
        if negb (bool_decide (term = ","%byte)) then Fail EExpectedComma else
        if (zlen source <? offset)%Z || (zlen source <? cnt)%Z then Fail ECopyOverflow else
        if (zlen source <? i64 (u64 (offset + cnt)))%Z
        then Fail (ECopyBounds offset cnt (zlen source)) else
        apply_loop fuel source targetLen r
          (output ++ take (Z.to_nat cnt) (drop (Z.to_nat offset) source))
    | ":"%byte =>
        if (zlen (r_data r) <? cnt)%Z then Fail EInsertOverflow else
        if (zlen (r_data r) <? Z.of_nat (r_pos r) + cnt)%Z then Fail EInsertBounds else
        apply_loop fuel source targetLen
          (Reader (r_data r) (r_pos r + Z.to_nat cnt))
          (output ++ take (Z.to_nat cnt) (drop (r_pos r) (r_data r)))
    | ";"%byte =>
        if negb (zlen output =? targetLen)%Z then Fail (EOutputSize (zlen output) targetLen) else
        sum ← Checksum (Some output);
        if negb (cnt =? sum)%Z then Fail (ErrChecksum sum cnt) else
        Ret output
    | _ => Fail (EUnknownCommand cmd (pred (r_pos r)))
    end
  end.

(** [make([]byte, 0, targetLen)] *)
Definition make_cap (cap : Z) : out bytes :=
  if (cap <=? maxAlloc)%Z then Ret [] else Panic.

Definition Apply (source : slice) (delta : bytes) : out bytes :=
  match source with
  | None => Panic
  | Some source =>
    if length delta =? 0 then Fail EEmptyDelta else
    let r := Reader delta 0 in
    '(targetLen, r) ← getInt r;
    '(term, r) ← getChar r;
    if negb (bool_decide (term = x0a)) then Fail EExpectedNewline else
    output ← make_cap targetLen;
    apply_loop (S (length delta)) source targetLen r output
  end.

Definition zDigitsEnc : bytes :=
  str "0123456789ABCDEFGHIJKLMNOPQRSTUVWXYZ_abcdefghijklmnopqrstuvwxyz~".

(** The [for v > 0] loop of [appendInt]: the digits are written from the end of
    the 13-byte buffer towards its start. *)
Fixpoint appendInt_loop (fuel : nat) (v : Z) (tmp : bytes) : bytes :=
  match fuel with
  | O => tmp
  | S fuel =>
    if (0 <? v)%Z then
      appendInt_loop fuel (Z.shiftr v 6)
        (default x00 (zDigitsEnc !! Z.to_nat (Z.land v 63)) :: tmp)
    else tmp
  end.

Definition appendInt (buf : bytes) (v : Z) : bytes :=
  if (v =? 0)%Z then buf ++ ["0"%byte] else buf ++ appendInt_loop 13 v [].

Definition rollingHash (data : bytes) : out Z :=
  if length data =? 0 then Panic
  else Ret (foldl (λ h b, u32 (h * 37 + bval b)) 0%Z data).

Fixpoint matchLen (a b : bytes) : nat :=
  match a, b with
  | x :: a', y :: b' => if bool_decide (x = y) then S (matchLen a' b') else 0
  | _, _ => 0
  end.

Definition nHash : nat := 16.

Record hashEntry : Type := HashEntry { he_offset : nat; he_next : Z }.

(** [for tableSize&(tableSize-1) != 0 { tableSize &= tableSize - 1 }] *)
Fixpoint round_pow2 (fuel : nat) (t : Z) : out Z :=
  match fuel with
  | O => NoFuel
  | S fuel =>
    if (Z.land t (t - 1) =? 0)%Z then Ret t else round_pow2 fuel (Z.land t (t - 1))
  end.

Fixpoint hash_blocks (fuel i : nat) (source : bytes) (mask : Z)
    (heads : list Z) (entries : list hashEntry) : out (list Z * list hashEntry) :=
  match fuel with
  | O => NoFuel
  | S fuel =>
    if i + nHash <=? length source then
      h ← rollingHash (take nHash (drop i source));
      let idx := Z.to_nat (Z.land h mask) in
      hd ← index heads idx;
      let entries := entries ++ [HashEntry i (hd - 1)] in
      hash_blocks fuel (i + nHash) source mask (<[idx := zlen entries]> heads) entries
    else Ret (heads, entries)
  end.

Definition buildHashTable (source : bytes) : out (list Z * list hashEntry * Z) :=
  let tableSize := (zlen source / Z.of_nat nHash)%Z in
  let tableSize := if (tableSize <? 64)%Z then 64%Z else tableSize in
  tableSize ← round_pow2 (S (Z.to_nat tableSize)) tableSize;
  let tableSize := Z.shiftl tableSize 1 in
  let mask := (tableSize - 1)%Z in
  let heads := replicate (Z.to_nat tableSize) 0%Z in
  '(heads, entries) ← hash_blocks (S (length source)) 0 source mask heads [];
  Ret (heads, entries, mask).

(** The [for ei > 0] walk along one hash chain. *)
Fixpoint best_match (fuel : nat) (source target : bytes) (tPos : nat)
    (entries : list hashEntry) (ei : Z) (bestLen bestOff : nat) : out (nat * nat) :=
  match fuel with
  | O => NoFuel
  | S fuel =>
    if (0 <? ei)%Z then
      e ← index entries (Z.to_nat (ei - 1));
      let sOff := he_offset e in
      let '(bestLen, bestOff) :=
        if (sOff + nHash <=? length source) &&
           (nHash <=? matchLen (drop sOff source) (drop tPos target)) then
          let ml := matchLen (drop sOff source) (drop tPos target) in
          if bestLen <? ml then (ml, sOff) else (bestLen, bestOff)
        else (bestLen, bestOff) in
      best_match fuel source target tPos entries (he_next e + 1) bestLen bestOff
    else Ret (bestLen, bestOff)
  end.

Definition flushInsert (buf pendingInsert : bytes) : bytes :=
  if 0 <? length pendingInsert then
    (appendInt buf (zlen pendingInsert) ++ [":"%byte]) ++ pendingInsert
  else buf.

Fixpoint emit_loop (fuel : nat) (source target : bytes) (heads : list Z)
    (entries : list hashEntry) (mask : Z) (tPos : nat) (buf pendingInsert : bytes)
    : out (bytes * bytes) :=
  match fuel with
  | O => NoFuel
  | S fuel =>
    if tPos <? length target then
      '(bestLen, bestOff) ←
        (if tPos + nHash <=? length target then
           h ← rollingHash (take nHash (drop tPos target));
           ei ← index heads (Z.to_nat (Z.land h mask));
           best_match (S (Z.to_nat ei)) source target tPos entries ei 0 0
         else Ret (0, 0));
      if nHash <=? bestLen then
        let buf := flushInsert buf pendingInsert in
        let buf := appendInt buf (Z.of_nat bestLen) ++ ["@"%byte] in
        let buf := appendInt buf (Z.of_nat bestOff) ++ [","%byte] in
        emit_loop fuel source target heads entries mask (tPos + bestLen) buf []
      else
        c ← index target tPos;
        emit_loop fuel source target heads entries mask (S tPos) buf (pendingInsert ++ [c])
    else Ret (buf, pendingInsert)
  end.

Definition emitMatches (source target : bytes) (heads : list Z)
    (entries : list hashEntry) (mask : Z) : out bytes :=
  let buf := appendInt [] (zlen target) ++ [x0a] in
  '(buf, pendingInsert) ←
    emit_loop (S (length target)) source target heads entries mask 0 buf [];
  let buf := flushInsert buf pendingInsert in
  sum ← Checksum (Some target);
  Ret (appendInt buf sum ++ [";"%byte]).

Definition createInsertAll (target : bytes) : out bytes :=
  if length target =? 0 then Panic else
  let buf := appendInt [] (zlen target) ++ [x0a] in
  let buf := appendInt buf (zlen target) ++ [":"%byte] in
  let buf := buf ++ target in
  sum ← Checksum (Some target);
  Ret (appendInt buf sum ++ [";"%byte]).

Definition Create (source target : slice) : out bytes :=
  match source, target with
  | Some source, Some target =>
    result ←
      (if length target =? 0 then
         sum ← Checksum (Some target);
         Ret (appendInt (appendInt [] 0 ++ [x0a]) sum ++ [";"%byte])
       else if length source <? 16 then createInsertAll target
       else
         '(heads, entries, mask) ← buildHashTable source;
         emitMatches source target heads entries mask);
    _ ← guard_panic (negb (length result =? 0));
    Ret result
  | _, _ => Panic
  end.

(** ** The format

    [tok_val] is the value of a run of base-64 digits, [int_token tk v] says that
    [tk] spells [v].  [script source sum inp o]: the command bytes [inp] rebuild
    [o] from [source] and end in a checksum command carrying [sum] (what follows
    it is never read). *)
Definition tok_val (tk : bytes) (v : Z) : Z :=
  foldl (λ v c, u64 (v * 64 + digit c)) v tk.

Definition int_token (tk : bytes) (v : Z) : Prop :=
  tk ≠ [] ∧ Forall (λ c, not_digit c = false) tk ∧ tok_val tk 0 = v.

Inductive script (source : bytes) (sum : Z) : bytes → bytes → Prop :=
  | script_copy tk1 tk2 cnt off rest o :
      int_token tk1 (Z.of_nat cnt) → int_token tk2 (Z.of_nat off) →
      off + cnt ≤ length source →
      script source sum rest o →
      script source sum (tk1 ++ "@"%byte :: tk2 ++ ","%byte :: rest)
                        (take cnt (drop off source) ++ o)
  | script_insert tk l rest o :
      int_token tk (zlen l) →
      script source sum rest o →
      script source sum (tk ++ ":"%byte :: l ++ rest) (l ++ o)
  | script_end tk junk :
      int_token tk sum →
      script source sum (tk ++ ";"%byte :: junk) [].

Definition denotes (source delta target : bytes) : Prop :=
  ∃ tk inp, delta = tk ++ x0a :: inp ∧ int_token tk (zlen target) ∧
            script source (checksum_loop target 0) inp target.

(** The checksum as documented: the sum of 4-byte big-endian words, the bytes
    of an incomplete word in their big-endian position. *)
Fixpoint weighted_sum (i : nat) (data : bytes) : Z :=
  match data with
  | [] => 0
  | b :: data => bval b * 256 ^ (3 - Z.of_nat (i mod 4)) + weighted_sum (S i) data
  end%Z.

(** A slice the runtime can hold. *)
Definition fits (l : bytes) : Prop := (zlen l ≤ maxAlloc)%Z.

(** ** Reading integers *)

Section reading.
Implicit Types d l tk rest : bytes.

Lemma getInt_loop_app tk c rest v n :
  Forall (λ c, not_digit c = false) tk → not_digit c = true →
  getInt_loop (tk ++ c :: rest) v n = (tok_val tk v, n + length tk).
Proof.
  intros Htk Hc. revert v n. induction Htk as [|x tk Hx _ IH]; intros v n; cbn.
  - by rewrite Hc, Nat.add_0_r.
  - rewrite Hx, IH. cbn. f_equal. lia.
Qed.

Lemma getInt_loop_inv l v n :
  ∃ tk rest, l = tk ++ rest ∧ Forall (λ c, not_digit c = false) tk ∧
    getInt_loop l v n = (tok_val tk v, n + length tk).
Proof.
  revert v n. induction l as [|c l IH]; intros v n; cbn.
  { exists [], []. rewrite Nat.add_0_r. done. }
  destruct (not_digit c) eqn:Hc.
  { exists [], (c :: l). rewrite Nat.add_0_r. done. }
  destruct (IH (u64 (v * 64 + digit c)) (S n)) as (tk & rest & -> & Htk & ->).
  exists (c :: tk), rest. split_and!; [done|by constructor|].
  cbn. f_equal. lia.
Qed.

Lemma drop_app_shift d p l rest :
  drop p d = l ++ rest → drop (p + length l) d = rest.
Proof. intros H. by rewrite <- drop_drop, H, drop_app_length. Qed.

Lemma drop_cons_shift d p c rest : drop p d = c :: rest → drop (S p) d = rest.
Proof. intros H. rewrite <- Nat.add_1_r. by apply (drop_app_shift d p [c]). Qed.

Lemma getInt_complete d p tk v c rest :
  int_token tk v → not_digit c = true → drop p d = tk ++ c :: rest →
  getInt (Reader d p) = Ret (v, Reader d (p + length tk)).
Proof.
  intros (Hne & Htk & <-) Hc Hd. unfold getInt; cbn. rewrite Hd.
  rewrite getInt_loop_app by done. by destruct tk.
Qed.

Lemma getInt_sound d p v r' :
  getInt (Reader d p) = Ret (v, r') →
  ∃ tk rest, drop p d = tk ++ rest ∧ int_token tk v ∧
    r' = Reader d (p + length tk) ∧ drop (p + length tk) d = rest.
Proof.
  unfold getInt; cbn.
  destruct (getInt_loop_inv (drop p d) 0 0) as (tk & rest & Hd & Htk & ->). cbn.
  destruct tk as [|c tk]; [done|]. cbn. intros [= <- <-].
  exists (c :: tk), rest. split_and!; try done. by apply (drop_app_shift d p (c :: tk)).
Qed.

Lemma getChar_complete d p c rest :
  drop p d = c :: rest → getChar (Reader d p) = Ret (c, Reader d (S p)).
Proof.
  intros Hd. unfold getChar; cbn.
  assert (d !! p = Some c) as Hp.
  { rewrite <- (Nat.add_0_r p), <- lookup_drop, Hd. done. }
  pose proof (lookup_lt_Some _ _ _ Hp).
  destruct (Nat.leb_spec (length d) p); [lia|].
  unfold index. by rewrite Hp.
Qed.

Lemma getChar_sound d p c r' :
  getChar (Reader d p) = Ret (c, r') →
  r' = Reader d (S p) ∧ drop p d = c :: drop (S p) d.
Proof.
  unfold getChar, index; cbn. destruct (Nat.leb_spec (length d) p); [done|].
  destruct (d !! p) as [x|] eqn:Hx; [|done]. cbn. intros [= <- <-].
  split; [done|]. by apply drop_S.
Qed.

Lemma getInt_advances d p v r' :
  getInt (Reader d p) = Ret (v, r') →
  ∃ q, r' = Reader d q ∧ p < q ≤ length d.
Proof.
  intros (tk & rest & Hd & (Hne & _) & -> & Hr)%getInt_sound.
  eexists; split; [done|]. apply (f_equal length) in Hd.
  rewrite length_drop, length_app in Hd. destruct tk; [done|]; cbn in *. lia.
Qed.

Lemma getChar_advances d p c r' :
  getChar (Reader d p) = Ret (c, r') → r' = Reader d (S p) ∧ p < length d.
Proof.
  intros (-> & Hd)%getChar_sound. split; [done|].
  apply (f_equal length) in Hd. rewrite length_drop in Hd. cbn in Hd. lia.
Qed.

Lemma getInt_safe r : safe (getInt r).
Proof.
  unfold getInt. destruct (getInt_loop _ _ _) as [v []]; done.
Qed.

Lemma getChar_safe r : safe (getChar r).
Proof.
  unfold getChar. destruct (Nat.leb_spec (length (r_data r)) (r_pos r)); [done|].
  apply safe_bind; [by apply safe_index|done].
Qed.
End reading.

Lemma tok_val_u64 tk v : (0 ≤ v < 2 ^ 64)%Z → (0 ≤ tok_val tk v < 2 ^ 64)%Z.
Proof.
  revert v. induction tk as [|c tk IH]; intros v Hv; [done|].
  cbn. apply IH. unfold u64. apply Z.mod_pos_bound. lia.
Qed.

Lemma int_token_range tk v : int_token tk v → (0 ≤ v < 2 ^ 64)%Z.
Proof. intros (_ & _ & <-). apply tok_val_u64. lia. Qed.

#[export] Hint Resolve getInt_safe getChar_safe : fossil.

(** ** [Apply] decides [denotes] *)

Lemma i64_small z : (- 2 ^ 63 ≤ z < 2 ^ 63)%Z → i64 z = z.
Proof. intros. unfold i64. rewrite Z.mod_small; lia. Qed.
Lemma u64_small z : (0 ≤ z < 2 ^ 64)%Z → u64 z = z.
Proof. intros. unfold u64. by rewrite Z.mod_small. Qed.

Lemma copy_sum_exact source cnt off :
  fits source → (0 ≤ cnt ≤ zlen source)%Z → (0 ≤ off ≤ zlen source)%Z →
  i64 (u64 (off + cnt)) = (off + cnt)%Z.
Proof.
  unfold fits, maxAlloc. intros Hf ??.
  rewrite u64_small, i64_small; lia.
Qed.

Lemma int_token_pos_lt d p tk v c rest :
  int_token tk v → drop p d = tk ++ c :: rest → p < length d.
Proof.
  intros (Hne & _) Hd. apply (f_equal length) in Hd.
  rewrite length_drop, length_app in Hd. destruct tk; [done|]. cbn in *. lia.
Qed.

(** One round of the loop: the count and the command byte are read. *)
Lemma apply_loop_head fuel source targetLen d p output tk cnt c rest :
  int_token tk cnt → not_digit c = true → drop p d = tk ++ c :: rest →
  apply_loop (S fuel) source targetLen (Reader d p) output =
  match c with
  | "@"%byte =>
        '(offset, r) ← getInt (Reader d (S (p + length tk)));
        '(term, r) ← getChar r;
        if negb (bool_decide (term = ","%byte)) then Fail EExpectedComma else
        if (zlen source <? offset)%Z || (zlen source <? cnt)%Z then Fail ECopyOverflow else
        if (zlen source <? i64 (u64 (offset + cnt)))%Z
        then Fail (ECopyBounds offset cnt (zlen source)) else
        apply_loop fuel source targetLen r
          (output ++ take (Z.to_nat cnt) (drop (Z.to_nat offset) source))
  | ":"%byte =>
        if (zlen d <? cnt)%Z then Fail EInsertOverflow else
        if (zlen d <? Z.of_nat (S (p + length tk)) + cnt)%Z then Fail EInsertBounds else
        apply_loop fuel source targetLen
          (Reader d (S (p + length tk) + Z.to_nat cnt))
          (output ++ take (Z.to_nat cnt) (drop (S (p + length tk)) d))
  | ";"%byte =>
        if negb (zlen output =? targetLen)%Z then Fail (EOutputSize (zlen output) targetLen) else
        if negb (cnt =? checksum_loop output 0)%Z
        then Fail (ErrChecksum (checksum_loop output 0) cnt) else Ret output
  | _ => Fail (EUnknownCommand c (p + length tk))
  end.
Proof.
  intros Htk Hc Hd. cbn [apply_loop r_pos r_data].
  pose proof (int_token_pos_lt _ _ _ _ _ _ Htk Hd).
  destruct (Nat.ltb_spec p (length d)); [cbn [negb]|lia].
  erewrite getInt_complete by done. cbn [mbind outcome_bind].
  erewrite getChar_complete by (by eapply drop_app_shift). cbn [mbind outcome_bind r_pos r_data].
  destruct c; reflexivity.
Qed.

Lemma apply_loop_complete source sum inp o d p output fuel :
  fits source → script source sum inp o → drop p d = inp →
  sum = checksum_loop (output ++ o) 0 → length inp < fuel →
  apply_loop fuel source (zlen (output ++ o)) (Reader d p) output = Ret (output ++ o).
Proof.
  intros Hs Hscr. revert p output fuel.
  induction Hscr as [tk1 tk2 cnt off rest o H1 H2 Hb _ IH|tk l rest o H1 _ IH|tk junk H1];
    intros p output [|fuel] Hd Hsum Hfuel; try lia.
  - rewrite length_app in Hfuel; cbn in Hfuel. rewrite length_app in Hfuel; cbn in Hfuel.
    rewrite (apply_loop_head _ _ _ _ _ _ _ _ "@"%byte _ H1 eq_refl Hd).
    apply drop_app_shift in Hd. apply drop_cons_shift in Hd.
    rewrite (getInt_complete _ _ _ _ ","%byte _ H2 eq_refl Hd). cbn [mbind outcome_bind].
    apply drop_app_shift in Hd.
    rewrite (getChar_complete _ _ _ _ Hd). apply drop_cons_shift in Hd.
    cbn [mbind outcome_bind]. rewrite bool_decide_true by done. cbn [negb].
    unfold zlen in *.
    destruct (Z.ltb_spec (Z.of_nat (length source)) (Z.of_nat off)); [lia|].
    destruct (Z.ltb_spec (Z.of_nat (length source)) (Z.of_nat cnt)); [lia|]. cbn [orb].
    rewrite (copy_sum_exact source) by (unfold zlen; auto with lia).
    destruct (Z.ltb_spec (Z.of_nat (length source)) (Z.of_nat off + Z.of_nat cnt)); [lia|].
    rewrite !Nat2Z.id, app_assoc. apply IH; [done|by rewrite <- app_assoc|lia].
  - rewrite length_app in Hfuel; cbn in Hfuel. rewrite length_app in Hfuel.
    rewrite (apply_loop_head _ _ _ _ _ _ _ _ ":"%byte _ H1 eq_refl Hd).
    pose proof (f_equal length Hd) as Hl0.
    rewrite length_drop, length_app in Hl0; cbn in Hl0; rewrite length_app in Hl0.
    apply drop_app_shift in Hd. apply drop_cons_shift in Hd.
    pose proof (f_equal length Hd) as Hl. rewrite length_drop, length_app in Hl.
    unfold zlen in *.
    destruct (Z.ltb_spec (Z.of_nat (length d)) (Z.of_nat (length l))); [lia|].
    destruct (Z.ltb_spec (Z.of_nat (length d))
      (Z.of_nat (S (p + length tk)) + Z.of_nat (length l))); [lia|].
    rewrite Nat2Z.id, Hd, take_app_length, app_assoc.
    apply IH; [by apply drop_app_shift in Hd|by rewrite <- app_assoc|lia].
  - rewrite (apply_loop_head _ _ _ _ _ _ _ _ ";"%byte _ H1 eq_refl Hd), app_nil_r in *.
    rewrite Z.eqb_refl. cbn [negb]. rewrite Hsum, Z.eqb_refl. done.
Qed.

Lemma apply_complete source d t :
  fits source → fits t → denotes source d t → Apply (Some source) d = Ret t.
Proof.
  intros Hs Ht (tk & inp & Hd & Htk & Hscr). unfold Apply.
  destruct (Nat.eqb_spec (length d) 0) as [H0|_].
  { rewrite Hd, length_app in H0. cbn in H0. lia. }
  assert (drop 0 d = tk ++ x0a :: inp) as H1 by done.
  rewrite (getInt_complete _ _ _ _ x0a _ Htk eq_refl H1). cbn [mbind outcome_bind].
  apply drop_app_shift in H1. rewrite (getChar_complete _ _ _ _ H1).
  apply drop_cons_shift in H1. cbn [mbind outcome_bind].
  rewrite bool_decide_true by done. cbn [negb]. unfold make_cap.
  unfold fits in Ht. destruct (Z.leb_spec (zlen t) maxAlloc); [|lia].
  cbn [mbind outcome_bind].
  eapply (apply_loop_complete source _ _ t d _ [] _ Hs Hscr H1); [done|].
  rewrite Hd, length_app; cbn. lia.
Qed.

(** The other direction: what a successful run has read. *)
Lemma apply_loop_sound source d fuel p output targetLen t :
  fits source →
  apply_loop fuel source targetLen (Reader d p) output = Ret t →
  ∃ o, t = output ++ o ∧ zlen t = targetLen ∧
       script source (checksum_loop t 0) (drop p d) o.
Proof.
  intros Hs. revert p output. induction fuel as [|fuel IH]; intros p output; [done|].
  cbn [apply_loop r_pos r_data]. destruct (p <? length d); cbn [negb]; [|done].
  destruct (getInt _) as [[cnt r1]| | |] eqn:H1; cbn [mbind outcome_bind]; try done.
  destruct (getChar _) as [[c r2]| | |] eqn:H2; cbn [mbind outcome_bind]; try done.
  apply getInt_sound in H1 as (tk1 & rest1 & Hd & Htk & -> & Hr1).
  apply getChar_sound in H2 as (-> & Hr2). rewrite Hr1 in Hr2.
  pose proof (int_token_range _ _ Htk) as Hcnt.
  destruct c; try done; cbn [r_pos r_data].
  - destruct (zlen d <? cnt)%Z eqn:E1; [done|].
    destruct (zlen d <? Z.of_nat (S (p + length tk1)) + cnt)%Z eqn:E2; [done|].
    intros (o & -> & Hl & Hscr)%IH.
    apply Z.ltb_ge in E1, E2. unfold zlen in E1, E2.
    set (q := S (p + length tk1)) in *.
    exists (take (Z.to_nat cnt) (drop q d) ++ o).
    rewrite <- app_assoc in *. split_and!; [done|done|].
    replace (drop p d)
      with (tk1 ++ ":"%byte :: take (Z.to_nat cnt) (drop q d) ++ drop (q + Z.to_nat cnt) d)
      by (by rewrite Hd, Hr2, <- drop_drop, take_drop).
    apply script_insert; [|done].
    unfold zlen. rewrite length_take, length_drop. 
    by rewrite Nat.min_l, Z2Nat.id by lia.
  - destruct (zlen output =? targetLen)%Z eqn:E1; cbn [negb]; [|done].
    cbn [Checksum mbind outcome_bind].
    destruct (cnt =? _)%Z eqn:E2; cbn [negb]; [|done]. intros [= <-].
    apply Z.eqb_eq in E1, E2. subst. exists []. rewrite app_nil_r.
    split_and!; [done..|]. rewrite Hd, Hr2. by apply script_end.
  - destruct (getInt _) as [[off r3]| | |] eqn:H3; cbn [mbind outcome_bind]; try done.
    destruct (getChar _) as [[c r4]| | |] eqn:H4; cbn [mbind outcome_bind]; try done.
    apply getInt_sound in H3 as (tk2 & rest2 & Hd2 & Htk2 & -> & Hr3).
    apply getChar_sound in H4 as (-> & Hr4). rewrite Hr3 in Hr4.
    pose proof (int_token_range _ _ Htk2) as Hoff.
    case_bool_decide as Hc; cbn [negb]; [|done]. subst c.
    destruct (zlen source <? off)%Z eqn:E1; [done|]. cbn [orb].
    destruct (zlen source <? cnt)%Z eqn:E2; [done|].
    destruct (zlen source <? i64 (u64 (off + cnt)))%Z eqn:E3; [done|].
    intros (o & -> & Hl & Hscr)%IH.
    apply Z.ltb_ge in E1, E2, E3. rewrite (copy_sum_exact source) in E3 by (done || lia).
    unfold zlen in E1, E2, E3.
    exists (take (Z.to_nat cnt) (drop (Z.to_nat off) source) ++ o).
    rewrite <- app_assoc in *. split_and!; [done|done|].
    rewrite Hd, Hr2, Hd2, Hr4.
    apply script_copy; [by rewrite Z2Nat.id by lia..|lia|done].
Qed.

Lemma apply_sound source d t :
  fits source → Apply (Some source) d = Ret t → denotes source d t ∧ fits t.
Proof.
  intros Hs. unfold Apply. destruct (length d =? 0); [done|].
  destruct (getInt _) as [[n r1]| | |] eqn:H1; cbn [mbind outcome_bind]; try done.
  destruct (getChar _) as [[c r2]| | |] eqn:H2; cbn [mbind outcome_bind]; try done.
  apply getInt_sound in H1 as (tk1 & rest1 & Hd & Htk & -> & Hr1).
  apply getChar_sound in H2 as (-> & Hr2). rewrite Hr1 in Hr2.
  case_bool_decide as Hc; cbn [negb]; [|done]. subst c.
  unfold make_cap. destruct (n <=? maxAlloc)%Z eqn:E; cbn [mbind outcome_bind]; [|done].
  intros (o & Ho & Hl & Hscr)%apply_loop_sound; [|done..]. cbn in Ho. subst o.
  apply Z.leb_le in E. split; [|unfold fits; lia].
  exists tk1, (drop (S (0 + length tk1)) d). split_and!; [|by subst|done].
  rewrite <- Hr2, <- Hd. done.
Qed.

(** ** [Apply] terminates, and panics only on an oversized header *)

Lemma apply_loop_safe source targetLen d fuel p output :
  p ≤ length d → length d < p + fuel →
  safe (apply_loop fuel source targetLen (Reader d p) output).
Proof.
  revert p output.
  induction fuel as [|fuel IH]; intros p output Hp Hfuel; cbn [apply_loop r_pos r_data]; [lia|].
  destruct (p <? length d); cbn [negb]; [|done].
  apply safe_bind; [auto with fossil|]. intros [cnt r1] (q & -> & Hq)%getInt_advances.
  apply safe_bind; [auto with fossil|]. intros [c r2] (-> & Hq2)%getChar_advances.
  destruct c; try done; cbn [r_pos r_data].
  - destruct (zlen d <? cnt)%Z; [done|].
    destruct (zlen d <? Z.of_nat (S q) + cnt)%Z eqn:E2; [done|].
    apply Z.ltb_ge in E2. unfold zlen in E2. apply IH; lia.
  - destruct (zlen output =? targetLen)%Z; [|done]. cbn.
    by destruct (cnt =? _)%Z.
  - apply safe_bind; [auto with fossil|]. intros [off r3] (q3 & -> & Hq3)%getInt_advances.
    apply safe_bind; [auto with fossil|]. intros [c r4] (-> & Hq4)%getChar_advances.
    case_bool_decide; cbn [negb]; [|done].
    destruct (_ || _); [done|]. destruct (zlen source <? _)%Z; [done|].
    apply IH; lia.
Qed.

Lemma apply_safe_unless source d :
  safe (Apply (Some source) d) ∨
  (∃ tk rest v, d = tk ++ x0a :: rest ∧ int_token tk v ∧ (maxAlloc < v)%Z ∧
     Apply (Some source) d = Panic).
Proof.
  unfold Apply. destruct (length d =? 0); [by left|].
  destruct (getInt _) as [[n r1]| | |] eqn:H1; cbn [mbind outcome_bind];
    [|by left|by pose proof (getInt_safe (Reader d 0)) as Hs; rewrite H1 in Hs..].
  destruct (getChar _) as [[c r2]| | |] eqn:H2; cbn [mbind outcome_bind];
    [|by left|by pose proof (getChar_safe r1) as Hs; rewrite H2 in Hs..].
  pose proof H2 as H2'.
  pose proof H1 as (q & -> & Hq)%getInt_advances.
  apply getChar_advances in H2' as (-> & Hq2).
  case_bool_decide as Hc; cbn [negb]; [subst c|by left].
  unfold make_cap. destruct (Z.leb_spec n maxAlloc); cbn [mbind outcome_bind].
  - left. apply apply_loop_safe; lia.
  - right. apply getInt_sound in H1 as (tk & rest & Hd & Htk & Heq & Hr).
    apply getChar_sound in H2 as (_ & Hr2). injection Heq as ->. cbn in Hr. rewrite Hr in Hr2.
    exists tk, (drop (S (length tk)) d), n. split_and!; try done.
    by rewrite <- Hr2, <- Hd.
Qed.

(** ** Writing integers *)

Lemma zdigit_ok : forallb (λ n,
    negb (not_digit (default x00 (zDigitsEnc !! n))) &&
    (digit (default x00 (zDigitsEnc !! n)) =? Z.of_nat n)%Z) (seq 0 64) = true.
Proof. vm_compute. reflexivity. Qed.

Lemma zdigit_spec v :
  (0 ≤ v < 64)%Z →
  not_digit (default x00 (zDigitsEnc !! Z.to_nat v)) = false ∧
  digit (default x00 (zDigitsEnc !! Z.to_nat v)) = v.
Proof.
  intros Hv. pose proof zdigit_ok as H. rewrite forallb_forall in H.
  specialize (H (Z.to_nat v) ltac:(apply in_seq; lia)).
  apply andb_true_iff in H as [H1%negb_true_iff H2%Z.eqb_eq].
  split; [done|lia].
Qed.

Lemma tok_val_mod tk v w : u64 v = u64 w → u64 (tok_val tk v) = u64 (tok_val tk w).
Proof.
  revert v w. induction tk as [|c tk IH]; intros v w H; [done|]. cbn. apply IH.
  f_equal. unfold u64 in *.
  rewrite <- (Zplus_mod_idemp_l (v * 64)), <- (Zplus_mod_idemp_l (w * 64)).
  rewrite <- (Zmult_mod_idemp_l v), <- (Zmult_mod_idemp_l w). by rewrite H.
Qed.

(** The digits written for [v] in front of [tmp] denote, started from [a],
    what [tmp] denotes started from [a * 64^k + v]. *)
Lemma appendInt_loop_spec fuel v tmp :
  (0 ≤ v < 2 ^ (6 * Z.of_nat fuel))%Z →
  Forall (λ c, not_digit c = false) tmp →
  Forall (λ c, not_digit c = false) (appendInt_loop fuel v tmp) ∧
  (0 < v → appendInt_loop fuel v tmp ≠ [])%Z ∧
  tok_val (appendInt_loop fuel v tmp) 0 = tok_val tmp (u64 v).
Proof.
  revert v tmp. induction fuel as [|fuel IH]; intros v tmp Hv Htmp; cbn [appendInt_loop].
  { assert (v = 0)%Z as -> by lia. split_and!; [done|lia|done]. }
  destruct (Z.ltb_spec 0 v).
  2:{ assert (v = 0)%Z as -> by lia. split_and!; [done|lia|done]. }
  assert (Z.land v 63 = v mod 64)%Z as Hland by (apply (Z.land_ones v 6); lia).
  assert (Z.shiftr v 6 = v / 64)%Z as Hshr by (apply (Z.shiftr_div_pow2 v 6); lia).
  pose proof (Z.mod_pos_bound v 64 ltac:(lia)) as Hmod.
  destruct (zdigit_spec (Z.land v 63)) as [Hd1 Hd2]; [lia|].
  set (c := default x00 (zDigitsEnc !! Z.to_nat (Z.land v 63))) in *.
  rewrite Hshr.
  assert (0 ≤ v / 64 < 2 ^ (6 * Z.of_nat fuel))%Z as Hq.
  { replace (6 * Z.of_nat (S fuel))%Z with (6 + 6 * Z.of_nat fuel)%Z in Hv by lia.
    rewrite Z.pow_add_r in Hv by lia. split; [apply Z.div_pos; lia|].
    apply Z.div_lt_upper_bound; lia. }
  destruct (IH (v / 64)%Z (c :: tmp) Hq) as (H1 & H2 & H3); [by constructor|].
  split_and!; [done| |].
  - intros _. destruct (decide (v / 64 = 0)%Z) as [->|]; [|apply H2; lia].
    by destruct fuel.
  - rewrite H3. change (tok_val (c :: tmp)) with (λ w, tok_val tmp (u64 (w * 64 + digit c))).
    cbv beta. f_equal. rewrite Hd2, Hland.
    pose proof (Z.div_mod v 64 ltac:(lia)) as Hdm. unfold u64.
    rewrite <- Zplus_mod_idemp_l, Zmult_mod_idemp_l, Zplus_mod_idemp_l.
    f_equal. lia.
Qed.

Lemma appendInt_app buf v : appendInt buf v = buf ++ appendInt [] v.
Proof. unfold appendInt. by destruct (v =? 0)%Z. Qed.

Lemma appendInt_token v : (0 ≤ v < 2 ^ 64)%Z → int_token (appendInt [] v) v.
Proof.
  intros Hv. unfold appendInt. destruct (Z.eqb_spec v 0) as [->|Hne].
  { split_and!; [done|by constructor|done]. }
  rewrite app_nil_l.
  destruct (appendInt_loop_spec 13 v []) as (H1 & H2 & H3); [lia|done|].
  split_and!; [apply H2; lia|done|]. rewrite H3. cbn. by apply u64_small.
Qed.

Lemma checksum_loop_range d sum :
  (0 ≤ sum < 2 ^ 32)%Z → (0 ≤ checksum_loop d sum < 2 ^ 32)%Z.
Proof.
  assert (∀ z, 0 ≤ u32 z < 2 ^ 32)%Z as Hu by (intros; apply Z.mod_pos_bound; lia).
  revert sum. induction d as [d IH] using (induction_ltof1 _ length); unfold ltof in IH.
  intros sum Hsum.
  destruct d as [|b0 [|b1 [|b2 [|b3 d]]]]; cbn [checksum_loop]; try done.
  apply IH; [cbn; lia|done].
Qed.

Lemma checksum_token d : int_token (appendInt [] (checksum_loop d 0)) (checksum_loop d 0).
Proof. apply appendInt_token. pose proof (checksum_loop_range d 0). lia. Qed.

Lemma fits_token l : fits l → int_token (appendInt [] (zlen l)) (zlen l).
Proof.
  unfold fits, maxAlloc. intros. apply appendInt_token. pose proof (zlen_nonneg l). lia.
Qed.

(** ** [Create] produces a member of [denotes] *)

(** [enc] is a run of commands that rebuilds [o], whatever follows. *)
Definition emits (source enc o : bytes) : Prop :=
  ∀ sum rest o', script source sum rest o' → script source sum (enc ++ rest) (o ++ o').

Lemma emits_nil source : emits source [] [].
Proof. by intros ???. Qed.

Lemma emits_app source e1 e2 o1 o2 :
  emits source e1 o1 → emits source e2 o2 → emits source (e1 ++ e2) (o1 ++ o2).
Proof. intros H1 H2 sum rest o' H. rewrite <- !app_assoc. by apply H1, H2. Qed.

Lemma emits_insert source l :
  fits l → emits source (appendInt [] (zlen l) ++ [":"%byte] ++ l) l.
Proof.
  intros Hl sum rest o' H. rewrite <- !app_assoc. cbn.
  apply script_insert; [by apply fits_token|done].
Qed.

Lemma emits_copy source cnt off :
  fits source → off + cnt ≤ length source →
  emits source (appendInt [] (Z.of_nat cnt) ++ ["@"%byte] ++
                appendInt [] (Z.of_nat off) ++ [","%byte])
               (take cnt (drop off source)).
Proof.
  unfold fits, zlen, maxAlloc. intros Hs Hb sum rest o' H.
  rewrite <- !app_assoc. cbn.
  apply script_copy; [apply appendInt_token; lia..|done|done].
Qed.

Lemma emits_denotes source enc t :
  emits source enc t → fits t →
  denotes source (appendInt [] (zlen t) ++ [x0a] ++ enc ++
                  appendInt [] (checksum_loop t 0) ++ [";"%byte]) t.
Proof.
  intros He Ht. exists (appendInt [] (zlen t)). eexists.
  split_and!; [done|by apply fits_token|].
  rewrite <- (app_nil_r t) at 3.
  apply He. apply (script_end _ _ _ []). apply checksum_token.
Qed.

Lemma flushInsert_emits source buf enc o pending :
  fits pending → emits source enc o →
  ∃ enc', flushInsert (buf ++ enc) pending = buf ++ enc' ∧
          emits source enc' (o ++ pending).
Proof.
  intros Hp He. unfold flushInsert. destruct (Nat.ltb_spec 0 (length pending)).
  - exists (enc ++ appendInt [] (zlen pending) ++ [":"%byte] ++ pending).
    split; [by rewrite appendInt_app, <- !app_assoc|].
    apply emits_app; [done|by apply emits_insert].
  - assert (pending = []) as -> by (destruct pending; [done|cbn in *; lia]).
    exists enc. by rewrite app_nil_r.
Qed.

Lemma matchLen_spec a b :
  matchLen a b ≤ length a ∧ matchLen a b ≤ length b ∧
  take (matchLen a b) a = take (matchLen a b) b.
Proof.
  revert b. induction a as [|x a IH]; intros [|y b]; cbn; try (split_and!; [lia..|done]).
  case_bool_decide as Hxy; [subst y|split_and!; [lia..|done]].
  destruct (IH b) as (H1 & H2 & H3). cbn. rewrite H3. split_and!; [lia..|done].
Qed.

(** *** The hash table *)

(** Chains point backwards and every entry names a full block. *)
Definition entry_ok (source : bytes) (k : nat) (e : hashEntry) : Prop :=
  he_offset e + nHash ≤ length source ∧ (-1 ≤ he_next e < Z.of_nat k)%Z.

Definition table_ok (source : bytes) (heads : list Z) (entries : list hashEntry) : Prop :=
  (∀ i h, heads !! i = Some h → (0 ≤ h ≤ zlen entries)%Z) ∧
  (∀ k e, entries !! k = Some e → entry_ok source k e).

Lemma land_le_r a b : (0 ≤ b)%Z → (0 ≤ Z.land a b ≤ b)%Z.
Proof.
  intros Hb. split; [apply Z.land_nonneg; auto|].
  assert (Z.ldiff (Z.land a b) b = 0)%Z as H.
  { apply Z.bits_inj'. intros n Hn. rewrite Z.ldiff_spec, Z.land_spec, Z.bits_0.
    destruct (Z.testbit a n), (Z.testbit b n); done. }
  apply Z.sub_nocarry_ldiff in H.
  assert (0 ≤ Z.ldiff b (Z.land a b))%Z by (apply Z.ldiff_nonneg; auto). lia.
Qed.

Lemma round_pow2_spec fuel t :
  (0 < t < Z.of_nat fuel)%Z →
  ∃ p, round_pow2 fuel t = Ret p ∧ (0 < p ≤ t)%Z.
Proof.
  revert t. induction fuel as [|fuel IH]; intros t Ht; [lia|]. cbn [round_pow2].
  destruct (Z.eqb_spec (Z.land t (t - 1)) 0); [exists t; split; [done|lia]|].
  pose proof (land_le_r t (t - 1) ltac:(lia)).
  destruct (IH (Z.land t (t - 1))) as (p & -> & Hp); [lia|].
  exists p. split; [done|lia].
Qed.

Lemma rollingHash_spec l : l ≠ [] → ∃ h, rollingHash l = Ret h.
Proof. unfold rollingHash. destruct l; [done|]. eauto. Qed.

Lemma index_land {A} (heads : list A) h mask :
  (0 ≤ mask < zlen heads)%Z → ∃ x, heads !! Z.to_nat (Z.land h mask) = Some x.
Proof.
  intros Hm. apply lookup_lt_is_Some_2.
  pose proof (land_le_r h mask ltac:(lia)). unfold zlen in Hm. lia.
Qed.

Lemma block_nonempty (l : bytes) i : i + nHash ≤ length l → take nHash (drop i l) ≠ [].
Proof.
  intros H Ht. apply (f_equal length) in Ht.
  rewrite length_take, length_drop in Ht. unfold nHash in *.
  change (length []) with 0 in Ht. lia.
Qed.

Lemma table_ok_add source heads entries idx i hd :
  table_ok source heads entries → heads !! idx = Some hd → i + nHash ≤ length source →
  table_ok source (<[idx := zlen (entries ++ [HashEntry i (hd - 1)])]> heads)
                  (entries ++ [HashEntry i (hd - 1)]).
Proof.
  intros [Hh He] Hidx Hi. split.
  - intros j h Hj. rewrite zlen_app. change (zlen [_]) with 1%Z.
    pose proof (lookup_lt_Some _ _ _ Hj) as Hlt. rewrite length_insert in Hlt.
    destruct (decide (idx = j)) as [<-|Hne].
    + rewrite list_lookup_insert_eq in Hj by done. injection Hj as <-.
      rewrite zlen_app. change (zlen [_]) with 1%Z. pose proof (zlen_nonneg entries). lia.
    + rewrite list_lookup_insert_ne in Hj by done. apply Hh in Hj. lia.
  - intros k e [Hk|[Hk Hk']]%lookup_app_Some; [by apply He|].
    apply list_lookup_singleton_Some in Hk' as [Hk0 <-].
    apply Hh in Hidx. unfold zlen in Hidx. split; cbn; [done|lia].
Qed.

Lemma hash_blocks_spec fuel i source mask heads entries :
  (0 ≤ mask < zlen heads)%Z → 0 < fuel → length source < i + fuel →
  table_ok source heads entries →
  ∃ heads' entries', hash_blocks fuel i source mask heads entries = Ret (heads', entries') ∧
    zlen heads' = zlen heads ∧ table_ok source heads' entries'.
Proof.
  revert i heads entries.
  induction fuel as [|fuel IH]; intros i heads entries Hm H0 Hf Hok; [lia|].
  cbn [hash_blocks]. destruct (Nat.leb_spec (i + nHash) (length source)); [|eauto].
  destruct (rollingHash_spec (take nHash (drop i source))) as [h ->];
    [by apply block_nonempty|]. cbn [mbind outcome_bind].
  destruct (index_land heads h mask Hm) as [hd Hhd]. unfold index. rewrite Hhd.
  cbn [mbind outcome_bind].
  pose proof (table_ok_add source heads entries _ i hd Hok Hhd ltac:(done)) as Hok1.
  unfold nHash in *.
  edestruct (IH (i + 16)) as (h' & e' & Heq & Hl & Hok'); [|lia|lia|exact Hok1|].
  { unfold zlen in *. by rewrite length_insert. }
  exists h', e'. split_and!; [done| |done]. rewrite Hl. unfold zlen. by rewrite length_insert.
Qed.

Lemma buildHashTable_spec source :
  ∃ heads entries mask, buildHashTable source = Ret (heads, entries, mask) ∧
    (0 ≤ mask < zlen heads)%Z ∧ table_ok source heads entries.
Proof.
  unfold buildHashTable.
  set (t0 := (zlen source / Z.of_nat nHash)%Z).
  set (t1 := if (t0 <? 64)%Z then 64%Z else t0).
  assert (0 < t1)%Z by (unfold t1; destruct (Z.ltb_spec t0 64); lia).
  destruct (round_pow2_spec (S (Z.to_nat t1)) t1) as (t & -> & Ht); [lia|].
  cbn [mbind outcome_bind].
  assert (Z.shiftl t 1 = 2 * t)%Z as -> by (rewrite Z.shiftl_mul_pow2 by lia; lia).
  destruct (hash_blocks_spec (S (length source)) 0 source (2 * t - 1)
    (replicate (Z.to_nat (2 * t)) 0%Z) []) as (heads & entries & -> & Hl & Hok); [|lia|lia| |].
  - unfold zlen. rewrite length_replicate. lia.
  - split; [|by intros k e Hk].
    intros i h [-> _]%lookup_replicate. done.
  - cbn [mbind outcome_bind]. do 3 eexists. split_and!; [done|lia| |done].
    rewrite Hl. unfold zlen. rewrite length_replicate. lia.
Qed.

(** *** The match search *)

Definition match_ok (source target : bytes) (tPos bestLen bestOff : nat) : Prop :=
  bestOff + bestLen ≤ length source ∧ bestLen ≤ length (drop tPos target) ∧
  take bestLen (drop bestOff source) = take bestLen (drop tPos target).

Lemma match_ok_matchLen source target tPos sOff :
  sOff ≤ length source →
  match_ok source target tPos (matchLen (drop sOff source) (drop tPos target)) sOff.
Proof.
  intros H. destruct (matchLen_spec (drop sOff source) (drop tPos target)) as (H1 & H2 & H3).
  rewrite length_drop in H1. split_and!; [lia|done|done].
Qed.

Lemma best_match_spec fuel source target tPos heads entries ei bestLen bestOff :
  table_ok source heads entries →
  (0 ≤ ei ≤ zlen entries)%Z → (ei < Z.of_nat fuel)%Z →
  match_ok source target tPos bestLen bestOff →
  ∃ bl bo, best_match fuel source target tPos entries ei bestLen bestOff = Ret (bl, bo) ∧
    match_ok source target tPos bl bo.
Proof.
  intros [Hh He]. revert ei bestLen bestOff.
  induction fuel as [|fuel IH]; intros ei bl bo Hei Hf Hok; [lia|].
  cbn [best_match]. destruct (Z.ltb_spec 0 ei); [|eauto].
  destruct (lookup_lt_is_Some_2 entries (Z.to_nat (ei - 1))) as [e Hek];
    [unfold zlen in *; lia|].
  unfold index. rewrite Hek. cbn [mbind outcome_bind].
  destruct (He _ _ Hek) as [Hoff Hnext].
  set (ml := matchLen (drop (he_offset e) source) (drop tPos target)).
  assert (match_ok source target tPos ml (he_offset e)) as Hml
    by (apply match_ok_matchLen; lia).
  destruct ((he_offset e + nHash <=? length source) && (nHash <=? ml));
    [destruct (bl <? ml)|]; apply IH; lia || done.
Qed.

Lemma find_match_spec source target heads entries mask tPos :
  (0 ≤ mask < zlen heads)%Z → table_ok source heads entries →
  ∃ bl bo,
    (if tPos + nHash <=? length target then
       h ← rollingHash (take nHash (drop tPos target));
       ei ← index heads (Z.to_nat (Z.land h mask));
       best_match (S (Z.to_nat ei)) source target tPos entries ei 0 0
     else Ret (0, 0)) = Ret (bl, bo) ∧
    match_ok source target tPos bl bo.
Proof.
  intros Hm Hok. assert (match_ok source target tPos 0 0) as H0.
  { split_and!; [lia..|]. by rewrite !take_0. }
  destruct (Nat.leb_spec (tPos + nHash) (length target)); [|eauto].
  destruct (rollingHash_spec (take nHash (drop tPos target))) as [h ->];
    [by apply block_nonempty|]. cbn [mbind outcome_bind].
  destruct (index_land heads h mask Hm) as [ei Hei]. unfold index. rewrite Hei.
  cbn [mbind outcome_bind].
  pose proof (proj1 Hok _ _ Hei).
  eapply best_match_spec; [done|lia|lia|done].
Qed.

(** *** The emission loop *)

Lemma fits_sub {A} (l k : list A) : length l ≤ length k → (zlen k ≤ maxAlloc)%Z → (zlen l ≤ maxAlloc)%Z.
Proof. unfold zlen. lia. Qed.

Lemma emit_loop_spec fuel source target heads entries mask tPos hdr enc o pending :
  fits source → fits target →
  (0 ≤ mask < zlen heads)%Z → table_ok source heads entries →
  0 < fuel → length target < tPos + fuel →
  emits source enc o → o ++ pending = take tPos target → tPos ≤ length target →
  ∃ enc' o' pending',
    emit_loop fuel source target heads entries mask tPos (hdr ++ enc) pending
      = Ret (hdr ++ enc', pending') ∧
    emits source enc' o' ∧ o' ++ pending' = target.
Proof.
  intros Hs Ht Hm Hok. revert tPos enc o pending.
  induction fuel as [|fuel IH]; intros tPos enc o pending Hf0 Hf He Ho Hle; [lia|].
  cbn [emit_loop]. destruct (Nat.ltb_spec tPos (length target)).
  2:{ exists enc, o, pending. split_and!; [done..|]. rewrite Ho. by apply take_ge. }
  destruct (find_match_spec source target heads entries mask tPos Hm Hok)
    as (bl & bo & -> & Hb & Hlen & Heq).
  cbn [mbind outcome_bind]. rewrite length_drop in Hlen.
  assert (fits pending) as Hp.
  { unfold fits in *. eapply fits_sub; [|exact Ht].
    apply (f_equal length) in Ho. rewrite length_app, length_take in Ho. lia. }
  destruct (Nat.leb_spec nHash bl); unfold nHash in *.
  - destruct (flushInsert_emits source hdr enc o pending Hp He) as (enc1 & -> & He1).
    rewrite (appendInt_app (hdr ++ enc1)), (appendInt_app ((_ ++ _) ++ _)).
    rewrite <- !app_assoc. rewrite (app_assoc enc1).
    eapply (IH _ _ ((o ++ pending) ++ take bl (drop bo source))); [lia|lia| | |lia].
    + rewrite <- app_assoc. apply emits_app; [done|]. by apply emits_copy.
    + rewrite app_nil_r, Ho, Heq. apply take_take_drop.
  - destruct (lookup_lt_is_Some_2 target tPos) as [c Hc]; [done|].
    unfold index. rewrite Hc. cbn [mbind outcome_bind].
    eapply (IH _ _ o); [lia|lia|done| |lia].
    rewrite app_assoc, Ho. symmetry. by apply take_S_r.
Qed.

Lemma create_denotes source target :
  fits source → fits target →
  ∃ d, Create (Some source) (Some target) = Ret d ∧ denotes source d target.
Proof.
  intros Hs Ht. unfold Create.
  assert (∀ r, denotes source r target → 
    (_ ← guard_panic (negb (length r =? 0)); Ret r) = Ret (E:=delta_error) r) as Hguard.
  { intros r (tk & inp & -> & _). rewrite length_app. cbn.
    by rewrite Nat.add_succ_r. }
  destruct (Nat.eqb_spec (length target) 0) as [H0|H0].
  { destruct target; [|done]. cbn [mbind outcome_bind Checksum].
    rewrite Hguard.
    - eexists. split; [done|]. rewrite (appendInt_app (_ ++ _)), <- !app_assoc.
      apply (emits_denotes source [] []); [apply emits_nil|done].
    - rewrite (appendInt_app (_ ++ _)), <- !app_assoc.
      apply (emits_denotes source [] []); [apply emits_nil|done]. }
  assert (∃ enc, emits source enc target ∧
    (if length source <? 16 then createInsertAll target
     else '(heads, entries, mask) ← buildHashTable source;
          emitMatches source target heads entries mask) =
    Ret (appendInt [] (zlen target) ++ [x0a] ++ enc ++
         appendInt [] (checksum_loop target 0) ++ [";"%byte])) as (enc & He & ->).
  { destruct (length source <? 16).
    - exists (appendInt [] (zlen target) ++ [":"%byte] ++ target).
      split; [by apply emits_insert|]. unfold createInsertAll.
      destruct (Nat.eqb_spec (length target) 0); [done|]. cbn [mbind outcome_bind Checksum].
      f_equal. rewrite (appendInt_app (appendInt _ _ ++ [x0a])), (appendInt_app (_ ++ target)).
      by rewrite <- !app_assoc.
    - destruct (buildHashTable_spec source) as (heads & entries & mask & -> & Hm & Hok).
      cbn [mbind outcome_bind]. unfold emitMatches.
      destruct (emit_loop_spec (S (length target)) source target heads entries mask 0
        (appendInt [] (zlen target) ++ [x0a]) [] [] []) as (enc & o & pending & Heq & He & Ho);
        try done; try lia; [apply emits_nil|].
      rewrite app_nil_r in Heq. rewrite Heq. cbn [mbind outcome_bind Checksum].
      destruct (flushInsert_emits source (appendInt [] (zlen target) ++ [x0a]) enc o pending)
        as (enc' & -> & He'); [|done|].
      { unfold fits in *. eapply fits_sub; [|exact Ht]. rewrite <- Ho, length_app. lia. }
      rewrite Ho in He'. exists enc'. split; [done|].
      rewrite (appendInt_app (_ ++ enc')), <- !app_assoc. done. }
  cbn [mbind outcome_bind]. rewrite Hguard by by apply emits_denotes.
  eexists. split; [done|]. by apply emits_denotes.
Qed.

(** ** The checksum *)

Lemma weighted_sum_4 i data : weighted_sum (4 + i) data = weighted_sum i data.
Proof.
  revert i. induction data as [|b data IH]; intros i; [done|]. cbn [weighted_sum].
  change (S (4 + i)) with (4 + S i). rewrite IH. do 4 f_equal.
  replace (4 + i) with (i + 1 * 4) by lia. by rewrite Nat.Div0.mod_add.
Qed.

Lemma shl32_val b s : (0 ≤ s ≤ 24)%Z → shl32 b s = (bval b * 2 ^ s)%Z.
Proof.
  intros Hs. unfold shl32, u32. rewrite Z.shiftl_mul_pow2 by lia.
  pose proof (bval_range b). apply Z.mod_small. split; [apply Z.mul_nonneg_nonneg; lia|].
  change (2 ^ 32)%Z with (2 ^ 8 * 2 ^ 24)%Z.
  apply Z.le_lt_trans with (bval b * 2 ^ 24)%Z; [|lia].
  apply Z.mul_le_mono_nonneg_l; [lia|]. apply Z.pow_le_mono_r; lia.
Qed.

Lemma word_val b0 b1 b2 b3 :
  Z.lor (Z.lor (Z.lor (shl32 b0 24) (shl32 b1 16)) (shl32 b2 8)) (bval b3)
  = (bval b0 * 2 ^ 24 + bval b1 * 2 ^ 16 + bval b2 * 2 ^ 8 + bval b3)%Z.
Proof.
  rewrite !shl32_val by lia.
  pose proof (bval_range b0). pose proof (bval_range b1).
  pose proof (bval_range b2). pose proof (bval_range b3).
  rewrite (lor_low (bval b0) _ 24) by lia.
  replace (bval b0 * 2 ^ 24 + bval b1 * 2 ^ 16)%Z
    with ((bval b0 * 2 ^ 8 + bval b1) * 2 ^ 16)%Z by lia.
  rewrite (lor_low _ _ 16) by lia.
  replace ((bval b0 * 2 ^ 8 + bval b1) * 2 ^ 16 + bval b2 * 2 ^ 8)%Z
    with (((bval b0 * 2 ^ 8 + bval b1) * 2 ^ 8 + bval b2) * 2 ^ 8)%Z by lia.
  rewrite (lor_low _ _ 8) by lia. lia.
Qed.

Lemma u32_add_l a b : u32 (u32 a + b) = u32 (a + b).
Proof. unfold u32. by rewrite Zplus_mod_idemp_l. Qed.

Lemma checksum_loop_spec data sum :
  (0 ≤ sum < 2 ^ 32)%Z → checksum_loop data sum = u32 (sum + weighted_sum 0 data).
Proof.
  revert sum. induction data as [data IH] using (induction_ltof1 _ length); unfold ltof in IH.
  intros sum Hsum.
  destruct data as [|b0 [|b1 [|b2 [|b3 data]]]]; cbn [checksum_loop].
  1: { cbn. unfold u32. rewrite Z.mod_small; lia. }
  4: { rewrite IH, word_val, u32_add_l; [|cbn; lia|by apply Z.mod_pos_bound].
       cbn [weighted_sum]. change 4 with (4 + 0) at 5. rewrite weighted_sum_4.
       f_equal. change (0 mod 4) with 0. change (1 mod 4) with 1.
       change (2 mod 4) with 2. change (3 mod 4) with 3. lia. }
  all: rewrite !shl32_val by lia; repeat rewrite ?u32_add_l, <- ?Z.add_assoc; cbn [weighted_sum]; f_equal;
    change (0 mod 4) with 0; change (1 mod 4) with 1; change (2 mod 4) with 2; lia.
Qed.

(** ** Properties *)

(** C1. Encoding and then decoding a delta gives the target back: for any two
    non-nil contents, [Create] succeeds and [Apply] of its result to the source
    returns exactly the target. *)
Theorem delta_roundtrip source target :
  fits source → fits target →
  ∃ d, Create (Some source) (Some target) = Ret d ∧ Apply (Some source) d = Ret target.
Proof.
  intros Hs Ht. destruct (create_denotes source target Hs Ht) as (d & Hd & Hden).
  exists d. split; [done|]. by apply apply_complete.
Qed.

(** C2. [Apply] decides the delta format: it returns [t] exactly when the delta
    is a header with [t]'s length, a script of in-range copies and inserts that
    rebuilds [t], and a closing command carrying [t]'s checksum. *)
Theorem Apply_iff_denotes source d t :
  fits source → Apply (Some source) d = Ret t ↔ denotes source d t ∧ fits t.
Proof.
  intros Hs. split; [by apply apply_sound|]. intros [Hd Ht]. by apply apply_complete.
Qed.

(** C3. On any byte string [Apply] terminates, and it panics exactly when the
    header announces a target longer than the runtime can allocate: every other
    malformed delta is an error value. *)
Theorem Apply_panics_iff source d :
  Apply (Some source) d ≠ NoFuel ∧
  (Apply (Some source) d = Panic ↔
   ∃ tk rest v, d = tk ++ x0a :: rest ∧ int_token tk v ∧ (maxAlloc < v)%Z).
Proof.
  destruct (apply_safe_unless source d) as [Hs|(tk & rest & v & Hd & Htk & Hv & Hp)].
  2:{ rewrite Hp. split; [done|]. split; [eauto 10|done]. }
  split; [by intros He; rewrite He in Hs|].
  split; [by intros He; rewrite He in Hs|].
  intros (tk & rest & v & Hd & Htk & Hv).
  unfold Apply. destruct (Nat.eqb_spec (length d) 0) as [H0|_].
  { rewrite Hd, length_app in H0. cbn in H0. lia. }
  assert (drop 0 d = tk ++ x0a :: rest) as H1 by done.
  rewrite (getInt_complete _ _ _ _ x0a _ Htk eq_refl H1). cbn [mbind outcome_bind].
  apply drop_app_shift in H1. rewrite (getChar_complete _ _ _ _ H1).
  cbn [mbind outcome_bind]. rewrite bool_decide_true by done. cbn [negb]. unfold make_cap.
  by destruct (Z.leb_spec v maxAlloc); [lia|].
Qed.

(** [Checksum] is the documented sum of big-endian 4-byte words modulo 2^32, the
    bytes of an incomplete last word counted in their big-endian place. *)
Theorem Checksum_spec data :
  Checksum (Some data) = Ret (u32 (weighted_sum 0 data)).
Proof. unfold Checksum. rewrite checksum_loop_spec; [done|lia]. Qed.

(** ** Witnesses *)

Lemma delta_roundtrip_witness :
  ∃ d, Create (Some (str "0123456789abcdef0123")) (Some (str "x0123456789abcdefy")) = Ret d ∧
       Apply (Some (str "0123456789abcdef0123")) d = Ret (str "x0123456789abcdefy").
Proof. apply delta_roundtrip; vm_compute; discriminate. Defined.

Lemma Apply_iff_denotes_witness :
  Apply (Some (str "abcdef")) (str "3" ++ x0a :: str "3@1,1YOrG0;") = Ret (str "bcd") ↔
  denotes (str "abcdef") (str "3" ++ x0a :: str "3@1,1YOrG0;") (str "bcd") ∧ fits (str "bcd").
Proof. apply Apply_iff_denotes; vm_compute; discriminate. Defined.
