(* ===== verification/Deck.v ===== *)
(** * Manifests ([internal/deck])

    The card record, the escaping of card arguments, [Marshal], [Parse] with its
    per-card parsers and the Z-card checksum.  Times are the civil UTC fields of
    a [time.Time]; [time.Parse] and [Format] are modelled for the two layouts
    the package uses. *)
From S2P Require Import Prelude GoStrings Hash.

(** ** Escaping ([encode.go]) *)

Definition BSL : byte := x5c.

Fixpoint FossilEncode (s : bytes) : bytes :=
  match s with
  | [] => []
  | c :: s =>
    (if bool_decide (c = SP) then [BSL; "s"%byte]
     else if bool_decide (c = NL) then [BSL; "n"%byte]
     else if bool_decide (c = BSL) then [BSL; BSL]
     else [c]) ++ FossilEncode s
  end.

Fixpoint FossilDecode (s : bytes) : bytes :=
  match s with
  | [] => []
  | c :: s1 =>
    if bool_decide (c = BSL) then
      match s1 with
      | [] => [c]
      | c1 :: s2 =>
        if bool_decide (c1 = "s"%byte) then SP :: FossilDecode s2
        else if bool_decide (c1 = "n"%byte) then NL :: FossilDecode s2
        else if bool_decide (c1 = BSL) then BSL :: FossilDecode s2
        else c :: FossilDecode s1
      end
    else c :: FossilDecode s1
  end.

(** ** Time stamps

    The civil fields of a UTC time. *)
Record time : Type := Time {
  t_year : Z; t_month : Z; t_day : Z; t_hour : Z; t_min : Z; t_sec : Z; t_nsec : Z
}.
Definition time_zero : time := Time 1 1 1 0 0 0 0.

#[export] Instance time_eq_dec : EqDecision time.
Proof. solve_decision. Defined.

(** [t.IsZero()] *)
Definition IsZero (t : time) : bool := bool_decide (t = time_zero).

Definition is_leap (y : Z) : bool :=
  ((y mod 4 =? 0) && (negb (y mod 100 =? 0) || (y mod 400 =? 0)))%Z.
Definition days_in (m y : Z) : Z :=
  (if m =? 2 then if is_leap y then 29 else 28
   else if (m =? 4) || (m =? 6) || (m =? 9) || (m =? 11) then 30 else 31)%Z.

(** Zero-padded decimal, as [appendInt(b, x, width)] of package [time]. *)
Fixpoint pad_digits (width : nat) (v : Z) (tmp : bytes) : bytes :=
  match width with
  | O => tmp
  | S width => pad_digits width (v / 10) (byte_of (48 + v mod 10) :: tmp)
  end.

(** [Format] with the layouts "2006-01-02T15:04:05" and the same followed by
    ".000", for years of four digits. *)
Definition format_sec (t : time) : bytes :=
  pad_digits 4 (t_year t) [] ++ ["-"%byte] ++ pad_digits 2 (t_month t) [] ++ ["-"%byte] ++
  pad_digits 2 (t_day t) [] ++ ["T"%byte] ++ pad_digits 2 (t_hour t) [] ++ [":"%byte] ++
  pad_digits 2 (t_min t) [] ++ [":"%byte] ++ pad_digits 2 (t_sec t) [].
Definition format_milli (t : time) : bytes :=
  format_sec t ++ ["."%byte] ++ pad_digits 3 (t_nsec t / 1000000) [].

(** [getnum(value, fixed)] *)
Definition getnum (s : bytes) (fixed : bool) : option (Z * bytes) :=
  match s with
  | [] => None
  | c0 :: s1 =>
    match dec_digit c0 with
    | None => None
    | Some d0 =>
      match s1 with
      | [] => if fixed then None else Some (d0, s1)
      | c1 :: s2 =>
        match dec_digit c1 with
        | Some d1 => Some (d0 * 10 + d1, s2)%Z
        | None => if fixed then None else Some (d0, s1)
        end
      end
    end
  end.

Definition skip_lit (c : byte) (s : bytes) : option bytes :=
  match s with
  | c' :: s => if bool_decide (c' = c) then Some s else None
  | [] => None
  end.

(** [atoi] of package [time]: an optional sign and digits. *)
Definition time_atoi (s : bytes) : option Z :=
  match s with
  | "-"%byte :: s => Z.opp <$> dec_value s 0
  | "+"%byte :: s => dec_value s 0
  | _ => dec_value s 0
  end.

Definition commaOrPeriod (c : byte) : bool :=
  bool_decide (c = "."%byte) || bool_decide (c = ","%byte).

(** [parseNanoseconds(value, nbytes)] where [s] is [value[:nbytes]] *)
Definition parseNanoseconds (s : bytes) : option Z :=
  match s with
  | [] => None
  | c :: digits =>
    if negb (commaOrPeriod c) then None else
    let digits := take 9 digits in
    match time_atoi digits with
    | None => None
    | Some ns =>
      if (ns <? 0)%Z then None
      else Some (ns * 10 ^ (9 - zlen digits))%Z
    end
  end.

Fixpoint take_digits (s : bytes) : bytes :=
  match s with
  | c :: s => match dec_digit c with Some _ => c :: take_digits s | None => [] end
  | [] => []
  end.

Definition in_range (lo hi v : Z) : option unit :=
  if ((lo <=? v) && (v <=? hi))%Z then Some () else None.

(** The fraction that follows the seconds: the layout with ".000" wants exactly
    three digits; without it, a fraction is accepted when one is there. *)
Definition parse_frac (milli : bool) (s : bytes) : option (Z * bytes) :=
  if milli then
    if length s <? 4 then None
    else ns ← parseNanoseconds (take 4 s); Some (ns, drop 4 s)
  else
    match s with
    | c :: (c1 :: _) as r =>
      if commaOrPeriod c && bool_decide (is_Some (dec_digit c1)) then
        let ds := take_digits r in
        ns ← parseNanoseconds (c :: ds); Some (ns, drop (length ds) r)
      else Some (0%Z, s)
    | _ => Some (0%Z, s)
    end.

(** [time.Parse(layout, s)] *)
Definition time_parse (milli : bool) (s : bytes) : option time :=
  year ← (if length s <? 4 then None else dec_value (take 4 s) 0);
  s ← skip_lit "-"%byte (drop 4 s);
  '(month, s) ← getnum s true;
  _ ← in_range 1 12 month;
  s ← skip_lit "-"%byte s;
  '(day, s) ← getnum s true;
  s ← skip_lit "T"%byte s;
  '(hour, s) ← getnum s false;
  _ ← in_range 0 23 hour;
  s ← skip_lit ":"%byte s;
  '(min, s) ← getnum s true;
  _ ← in_range 0 59 min;
  s ← skip_lit ":"%byte s;
  '(sec, s) ← getnum s true;
  _ ← in_range 0 59 sec;
  '(nsec, s) ← parse_frac milli s;
  if negb (length s =? 0) then None else
  _ ← in_range 1 (days_in month year) day;
  Some (Time year month day hour min sec nsec).

(** [strings.Replace(s, "t", "T", 1)] *)
Fixpoint replace_t (s : bytes) : bytes :=
  match s with
  | [] => []
  | c :: s => if bool_decide (c = "t"%byte) then "T"%byte :: s else c :: replace_t s
  end.

Definition first_some {A} (x y : option A) : option A :=
  match x with Some a => Some a | None => y end.

Definition parseTimestamp (s : bytes) : option time :=
  let s := TrimSpace s in
  first_some (first_some (time_parse true s) (time_parse false s))
    (let s := replace_t s in first_some (time_parse true s) (time_parse false s)).

(** ** Cards ([deck.go]) *)

Inductive ArtifactType : Type :=
  | Checkin | Wiki | Ticket | Event | Cluster | ForumPost | Attachment | Control.

#[export] Instance artifact_type_eq_dec : EqDecision ArtifactType.
Proof. solve_decision. Defined.


Record FileCard : Type := MkFileCard {
  fc_Name : bytes; fc_UUID : bytes; fc_Perm : bytes; fc_OldName : bytes
}.
(** [TagType] is a byte: '+' singleton, '*' propagating, '-' cancel. *)
Record TagCard : Type := MkTagCard {
  tc_Type : byte; tc_Name : bytes; tc_UUID : bytes; tc_Value : bytes
}.
Record CherryPick : Type := MkCherryPick {
  cp_IsBackout : bool; cp_Target : bytes; cp_Baseline : bytes
}.
Record AttachmentCard : Type := MkAttachmentCard {
  ac_Filename : bytes; ac_Target : bytes; ac_Source : bytes
}.
Record EventCard : Type := MkEventCard { ec_Date : time; ec_UUID : bytes }.
Record TicketField : Type := MkTicketField { tf_Name : bytes; tf_Value : bytes }.

Record Deck : Type := MkDeck {
  d_Type : ArtifactType;
  d_A : option AttachmentCard;
  d_B : bytes;
  d_C : bytes;
  d_D : time;
  d_E : option EventCard;
  d_F : list FileCard;
  d_G : bytes;
  d_H : bytes;
  d_I : bytes;
  d_J : list TicketField;
  d_K : bytes;
  d_L : bytes;
  d_M : list bytes;
  d_N : bytes;
  d_P : list bytes;
  d_Q : list CherryPick;
  d_R : bytes;
  d_T : list TagCard;
  d_U : bytes;
  d_W : bytes;
  d_Z : bytes
}.

(** [&Deck{}] *)
Definition deck_zero : Deck :=
  MkDeck Checkin None [] [] time_zero None [] [] [] [] [] [] [] [] [] [] [] [] [] [] [] [].

Definition set_Type (v : ArtifactType) (d : Deck) : Deck :=
  MkDeck v (d_A d) (d_B d) (d_C d) (d_D d) (d_E d) (d_F d) (d_G d) (d_H d) (d_I d) (d_J d) (d_K d) (d_L d) (d_M d) (d_N d) (d_P d) (d_Q d) (d_R d) (d_T d) (d_U d) (d_W d) (d_Z d).
Definition set_A (v : option AttachmentCard) (d : Deck) : Deck :=
  MkDeck (d_Type d) v (d_B d) (d_C d) (d_D d) (d_E d) (d_F d) (d_G d) (d_H d) (d_I d) (d_J d) (d_K d) (d_L d) (d_M d) (d_N d) (d_P d) (d_Q d) (d_R d) (d_T d) (d_U d) (d_W d) (d_Z d).
Definition set_B (v : bytes) (d : Deck) : Deck :=
  MkDeck (d_Type d) (d_A d) v (d_C d) (d_D d) (d_E d) (d_F d) (d_G d) (d_H d) (d_I d) (d_J d) (d_K d) (d_L d) (d_M d) (d_N d) (d_P d) (d_Q d) (d_R d) (d_T d) (d_U d) (d_W d) (d_Z d).
Definition set_C (v : bytes) (d : Deck) : Deck :=
  MkDeck (d_Type d) (d_A d) (d_B d) v (d_D d) (d_E d) (d_F d) (d_G d) (d_H d) (d_I d) (d_J d) (d_K d) (d_L d) (d_M d) (d_N d) (d_P d) (d_Q d) (d_R d) (d_T d) (d_U d) (d_W d) (d_Z d).
Definition set_D (v : time) (d : Deck) : Deck :=
  MkDeck (d_Type d) (d_A d) (d_B d) (d_C d) v (d_E d) (d_F d) (d_G d) (d_H d) (d_I d) (d_J d) (d_K d) (d_L d) (d_M d) (d_N d) (d_P d) (d_Q d) (d_R d) (d_T d) (d_U d) (d_W d) (d_Z d).
Definition set_E (v : option EventCard) (d : Deck) : Deck :=
  MkDeck (d_Type d) (d_A d) (d_B d) (d_C d) (d_D d) v (d_F d) (d_G d) (d_H d) (d_I d) (d_J d) (d_K d) (d_L d) (d_M d) (d_N d) (d_P d) (d_Q d) (d_R d) (d_T d) (d_U d) (d_W d) (d_Z d).
Definition set_F (v : list FileCard) (d : Deck) : Deck :=
  MkDeck (d_Type d) (d_A d) (d_B d) (d_C d) (d_D d) (d_E d) v (d_G d) (d_H d) (d_I d) (d_J d) (d_K d) (d_L d) (d_M d) (d_N d) (d_P d) (d_Q d) (d_R d) (d_T d) (d_U d) (d_W d) (d_Z d).
Definition set_G (v : bytes) (d : Deck) : Deck :=
  MkDeck (d_Type d) (d_A d) (d_B d) (d_C d) (d_D d) (d_E d) (d_F d) v (d_H d) (d_I d) (d_J d) (d_K d) (d_L d) (d_M d) (d_N d) (d_P d) (d_Q d) (d_R d) (d_T d) (d_U d) (d_W d) (d_Z d).
Definition set_H (v : bytes) (d : Deck) : Deck :=
  MkDeck (d_Type d) (d_A d) (d_B d) (d_C d) (d_D d) (d_E d) (d_F d) (d_G d) v (d_I d) (d_J d) (d_K d) (d_L d) (d_M d) (d_N d) (d_P d) (d_Q d) (d_R d) (d_T d) (d_U d) (d_W d) (d_Z d).
Definition set_I (v : bytes) (d : Deck) : Deck :=
  MkDeck (d_Type d) (d_A d) (d_B d) (d_C d) (d_D d) (d_E d) (d_F d) (d_G d) (d_H d) v (d_J d) (d_K d) (d_L d) (d_M d) (d_N d) (d_P d) (d_Q d) (d_R d) (d_T d) (d_U d) (d_W d) (d_Z d).
Definition set_J (v : list TicketField) (d : Deck) : Deck :=
  MkDeck (d_Type d) (d_A d) (d_B d) (d_C d) (d_D d) (d_E d) (d_F d) (d_G d) (d_H d) (d_I d) v (d_K d) (d_L d) (d_M d) (d_N d) (d_P d) (d_Q d) (d_R d) (d_T d) (d_U d) (d_W d) (d_Z d).
Definition set_K (v : bytes) (d : Deck) : Deck :=
  MkDeck (d_Type d) (d_A d) (d_B d) (d_C d) (d_D d) (d_E d) (d_F d) (d_G d) (d_H d) (d_I d) (d_J d) v (d_L d) (d_M d) (d_N d) (d_P d) (d_Q d) (d_R d) (d_T d) (d_U d) (d_W d) (d_Z d).
Definition set_L (v : bytes) (d : Deck) : Deck :=
  MkDeck (d_Type d) (d_A d) (d_B d) (d_C d) (d_D d) (d_E d) (d_F d) (d_G d) (d_H d) (d_I d) (d_J d) (d_K d) v (d_M d) (d_N d) (d_P d) (d_Q d) (d_R d) (d_T d) (d_U d) (d_W d) (d_Z d).
Definition set_M (v : list bytes) (d : Deck) : Deck :=
  MkDeck (d_Type d) (d_A d) (d_B d) (d_C d) (d_D d) (d_E d) (d_F d) (d_G d) (d_H d) (d_I d) (d_J d) (d_K d) (d_L d) v (d_N d) (d_P d) (d_Q d) (d_R d) (d_T d) (d_U d) (d_W d) (d_Z d).
Definition set_N (v : bytes) (d : Deck) : Deck :=
  MkDeck (d_Type d) (d_A d) (d_B d) (d_C d) (d_D d) (d_E d) (d_F d) (d_G d) (d_H d) (d_I d) (d_J d) (d_K d) (d_L d) (d_M d) v (d_P d) (d_Q d) (d_R d) (d_T d) (d_U d) (d_W d) (d_Z d).
Definition set_P (v : list bytes) (d : Deck) : Deck :=
  MkDeck (d_Type d) (d_A d) (d_B d) (d_C d) (d_D d) (d_E d) (d_F d) (d_G d) (d_H d) (d_I d) (d_J d) (d_K d) (d_L d) (d_M d) (d_N d) v (d_Q d) (d_R d) (d_T d) (d_U d) (d_W d) (d_Z d).
Definition set_Q (v : list CherryPick) (d : Deck) : Deck :=
  MkDeck (d_Type d) (d_A d) (d_B d) (d_C d) (d_D d) (d_E d) (d_F d) (d_G d) (d_H d) (d_I d) (d_J d) (d_K d) (d_L d) (d_M d) (d_N d) (d_P d) v (d_R d) (d_T d) (d_U d) (d_W d) (d_Z d).
Definition set_R (v : bytes) (d : Deck) : Deck :=
  MkDeck (d_Type d) (d_A d) (d_B d) (d_C d) (d_D d) (d_E d) (d_F d) (d_G d) (d_H d) (d_I d) (d_J d) (d_K d) (d_L d) (d_M d) (d_N d) (d_P d) (d_Q d) v (d_T d) (d_U d) (d_W d) (d_Z d).
Definition set_T (v : list TagCard) (d : Deck) : Deck :=
  MkDeck (d_Type d) (d_A d) (d_B d) (d_C d) (d_D d) (d_E d) (d_F d) (d_G d) (d_H d) (d_I d) (d_J d) (d_K d) (d_L d) (d_M d) (d_N d) (d_P d) (d_Q d) (d_R d) v (d_U d) (d_W d) (d_Z d).
Definition set_U (v : bytes) (d : Deck) : Deck :=
  MkDeck (d_Type d) (d_A d) (d_B d) (d_C d) (d_D d) (d_E d) (d_F d) (d_G d) (d_H d) (d_I d) (d_J d) (d_K d) (d_L d) (d_M d) (d_N d) (d_P d) (d_Q d) (d_R d) (d_T d) v (d_W d) (d_Z d).
Definition set_W (v : bytes) (d : Deck) : Deck :=
  MkDeck (d_Type d) (d_A d) (d_B d) (d_C d) (d_D d) (d_E d) (d_F d) (d_G d) (d_H d) (d_I d) (d_J d) (d_K d) (d_L d) (d_M d) (d_N d) (d_P d) (d_Q d) (d_R d) (d_T d) (d_U d) v (d_Z d).
Definition set_Z (v : bytes) (d : Deck) : Deck :=
  MkDeck (d_Type d) (d_A d) (d_B d) (d_C d) (d_D d) (d_E d) (d_F d) (d_G d) (d_H d) (d_I d) (d_J d) (d_K d) (d_L d) (d_M d) (d_N d) (d_P d) (d_Q d) (d_R d) (d_T d) (d_U d) (d_W d) v.

(** ** Marshalling ([marshal.go], [zcard.go]) *)

Definition is_nil {A} (l : list A) : bool := match l with [] => true | _ => false end.

(** A card line: the letter, a blank, the arguments, a newline. *)
Definition line (c : byte) (args : bytes) : bytes := c :: SP :: args ++ [NL].

Definition opt_line (c : byte) (present : bool) (args : bytes) : bytes :=
  if present then line c args else [].

(** [string(b)] and [%c] of a byte: the UTF-8 encoding of the code point. *)
Definition rune_bytes (b : byte) : bytes :=
  if (bval b <? 128)%Z then [b]
  else [byte_of (192 + bval b / 64); byte_of (128 + bval b mod 64)].

Definition marshal_A (a : AttachmentCard) : bytes :=
  FossilEncode (ac_Filename a) ++ [SP] ++ ac_Target a ++
  (if is_nil (ac_Source a) then [] else SP :: ac_Source a).

Definition marshal_F (f : FileCard) : bytes :=
  FossilEncode (fc_Name f) ++
  (if is_nil (fc_UUID f) then []
   else (SP :: fc_UUID f) ++ (if is_nil (fc_Perm f) then [] else SP :: fc_Perm f)) ++
  (if is_nil (fc_OldName f) then [] else SP :: FossilEncode (fc_OldName f)).

Definition marshal_J (j : TicketField) : bytes :=
  FossilEncode (tf_Name j) ++ (if is_nil (tf_Value j) then [] else SP :: tf_Value j).

Definition marshal_Q (q : CherryPick) : bytes :=
  (if cp_IsBackout q then "-"%byte else "+"%byte) :: cp_Target q ++
  (if is_nil (cp_Baseline q) then [] else SP :: cp_Baseline q).

Definition marshal_T (t : TagCard) : bytes :=
  rune_bytes (tc_Type t) ++ tc_Name t ++ [SP] ++ tc_UUID t ++
  (if is_nil (tc_Value t) then [] else SP :: tc_Value t).

Definition file_less (f g : FileCard) : bool := str_ltb (fc_Name f) (fc_Name g).
Definition tag_key (t : TagCard) : bytes := rune_bytes (tc_Type t) ++ tc_Name t ++ tc_UUID t.
Definition tag_less (s t : TagCard) : bool := str_ltb (tag_key s) (tag_key t).

Definition marshal_W (w : bytes) : bytes :=
  if is_nil w then [] else line "W"%byte (fmt_int (zlen w)) ++ w ++ [NL].

Definition marshalCards (d : Deck) : bytes :=
  match d_A d with Some a => line "A"%byte (marshal_A a) | None => [] end ++
  opt_line "B"%byte (negb (is_nil (d_B d))) (d_B d) ++
  opt_line "C"%byte (negb (is_nil (d_C d))) (FossilEncode (d_C d)) ++
  opt_line "D"%byte (negb (IsZero (d_D d))) (format_milli (d_D d)) ++
  match d_E d with
  | Some e => line "E"%byte (format_sec (ec_Date e) ++ [SP] ++ ec_UUID e)
  | None => []
  end ++
  concat (map (λ f, line "F"%byte (marshal_F f)) (sort_slice file_less (d_F d))) ++
  opt_line "G"%byte (negb (is_nil (d_G d))) (d_G d) ++
  opt_line "H"%byte (negb (is_nil (d_H d))) (FossilEncode (d_H d)) ++
  opt_line "I"%byte (negb (is_nil (d_I d))) (d_I d) ++
  concat (map (λ j, line "J"%byte (marshal_J j)) (d_J d)) ++
  opt_line "K"%byte (negb (is_nil (d_K d))) (d_K d) ++
  opt_line "L"%byte (negb (is_nil (d_L d))) (FossilEncode (d_L d)) ++
  concat (map (λ m, line "M"%byte m) (sort_slice str_ltb (d_M d))) ++
  opt_line "N"%byte (negb (is_nil (d_N d))) (d_N d) ++
  opt_line "P"%byte (negb (is_nil (d_P d))) (Join (d_P d) [SP]) ++
  concat (map (λ q, line "Q"%byte (marshal_Q q)) (d_Q d)) ++
  opt_line "R"%byte (negb (is_nil (d_R d))) (d_R d) ++
  concat (map (λ t, line "T"%byte (marshal_T t)) (sort_slice tag_less (d_T d))) ++
  opt_line "U"%byte (negb (is_nil (d_U d))) (FossilEncode (d_U d)) ++
  marshal_W (d_W d).

Definition computeZ (data : bytes) : bytes := hex_encode (md5 data).

Definition Marshal (d : Deck) : bytes :=
  let body := marshalCards d in body ++ line "Z"%byte (computeZ body).

(** ** Parsing ([parse.go]) *)

Inductive deck_error : Type :=
  | EZTooShort (n : nat)
  | EZFormat
  | EZMismatch (stated computed : bytes)
  | EOutOfOrder (card last : Z)
  | EMalformed (line : bytes)
  | EBadWSize
  | EWRead
  | EWShort (got want : Z)
  | EUnknownCard (card : byte)
  | EACard | EDCard | EECardFields | EECardTime | EFCard | EQCard | ETCardShort | ETCardFields.

Abbreviation out := (outcome deck_error).

Definition VerifyZ (data : bytes) : out unit :=
  if length data <? 35 then Fail (EZTooShort (length data)) else
  let tail := drop (length data - 35) data in
  t0 ← index tail 0; t1 ← index tail 1; t34 ← index tail 34;
  if negb (bool_decide (t0 = "Z"%byte)) || negb (bool_decide (t1 = SP)) ||
     negb (bool_decide (t34 = NL)) then Fail EZFormat else
  let stated := take 32 (drop 2 tail) in
  let computed := computeZ (take (length data - 35) data) in
  if negb (bool_decide (computed = stated)) then Fail (EZMismatch stated computed)
  else Ret tt.

(** The line up to the next newline and what follows it; at the end of the input
    the rest is the line. *)
Fixpoint readLine (s : bytes) : bytes * bytes :=
  match s with
  | [] => ([], [])
  | c :: s =>
    if bool_decide (c = NL) then ([], s)
    else let '(l, r) := readLine s in (c :: l, r)
  end.

Definition parseACard (d : Deck) (args : bytes) : out Deck :=
  match SplitN args SP 3 with
  | [p0; p1] => Ret (set_A (Some (MkAttachmentCard (FossilDecode p0) p1 [])) d)
  | [p0; p1; p2] => Ret (set_A (Some (MkAttachmentCard (FossilDecode p0) p1 p2)) d)
  | _ => Fail EACard
  end.

Definition parseDCard (d : Deck) (args : bytes) : out Deck :=
  match parseTimestamp args with
  | Some t => Ret (set_D t d)
  | None => Fail EDCard
  end.

Definition parseECard (d : Deck) (args : bytes) : out Deck :=
  match SplitN args SP 2 with
  | [p0; p1] =>
    match parseTimestamp p0 with
    | Some t => Ret (set_E (Some (MkEventCard t p1)) d)
    | None => Fail EECardTime
    end
  | _ => Fail EECardFields
  end.

Definition parseFCard (d : Deck) (args : bytes) : out Deck :=
  let parts := Fields args in
  match parts with
  | [] => Fail EFCard
  | p0 :: rest =>
    let fc := MkFileCard (FossilDecode p0) (default [] (rest !! 0)) (default [] (rest !! 1))
                (match rest !! 2 with Some p3 => FossilDecode p3 | None => [] end) in
    Ret (set_F (d_F d ++ [fc]) d)
  end.

Definition parseJCard (d : Deck) (args : bytes) : out Deck :=
  match SplitN args SP 2 with
  | [p0] => Ret (set_J (d_J d ++ [MkTicketField (FossilDecode p0) []]) d)
  | [p0; p1] => Ret (set_J (d_J d ++ [MkTicketField (FossilDecode p0) p1]) d)
  | _ => Panic
  end.

Definition parseQCard (d : Deck) (args : bytes) : out Deck :=
  if length args <? 2 then Fail EQCard else
  c0 ← index args 0;
  let back := bool_decide (c0 = "-"%byte) in
  match SplitN (drop 1 args) SP 2 with
  | [p0] => Ret (set_Q (d_Q d ++ [MkCherryPick back p0 []]) d)
  | [p0; p1] => Ret (set_Q (d_Q d ++ [MkCherryPick back p0 p1]) d)
  | _ => Panic
  end.

Definition parseTCard (d : Deck) (args : bytes) : out Deck :=
  if length args <? 2 then Fail ETCardShort else
  c0 ← index args 0;
  match SplitN (drop 1 args) SP 3 with
  | [p0; p1] => Ret (set_T (d_T d ++ [MkTagCard c0 p0 p1 []]) d)
  | [p0; p1; p2] => Ret (set_T (d_T d ++ [MkTagCard c0 p0 p1 p2]) d)
  | _ => Fail ETCardFields
  end.

Definition parseCard (d : Deck) (card : byte) (args : bytes) : out Deck :=
  match card with
  | "A"%byte => parseACard d args
  | "D"%byte => parseDCard d args
  | "E"%byte => parseECard d args
  | "F"%byte => parseFCard d args
  | "J"%byte => parseJCard d args
  | "Q"%byte => parseQCard d args
  | "T"%byte => parseTCard d args
  | "B"%byte => Ret (set_B (TrimSpace args) d)
  | "C"%byte => Ret (set_C (FossilDecode args) d)
  | "G"%byte => Ret (set_G (TrimSpace args) d)
  | "H"%byte => Ret (set_H (FossilDecode args) d)
  | "I"%byte => Ret (set_I (TrimSpace args) d)
  | "K"%byte => Ret (set_K (TrimSpace args) d)
  | "L"%byte => Ret (set_L (FossilDecode args) d)
  | "M"%byte => Ret (set_M (d_M d ++ [TrimSpace args]) d)
  | "N"%byte => Ret (set_N (TrimSpace args) d)
  | "P"%byte => Ret (set_P (Fields args) d)
  | "R"%byte => Ret (set_R (TrimSpace args) d)
  | "U"%byte => Ret (set_U (FossilDecode args) d)
  | _ => Fail (EUnknownCard card)
  end.

Definition inferType (d : Deck) : ArtifactType :=
  if negb (is_nil (d_M d)) then Cluster
  else if negb (is_nil (d_G d)) || negb (is_nil (d_H d)) || negb (is_nil (d_I d)) then ForumPost
  else if bool_decide (is_Some (d_A d)) then Attachment
  else if negb (is_nil (d_K d)) then Ticket
  else if negb (is_nil (d_L d)) then Wiki
  else if bool_decide (is_Some (d_E d)) then Event
  else if negb (is_nil (d_F d)) || negb (is_nil (d_R d)) then Checkin
  else if negb (is_nil (d_T d)) then Control
  else Checkin.

(** The W card: [size] bytes of content after its line, then one byte.  Slicing
    [line[2:]] panics on a one-byte line, [make] on a negative or oversized
    length; [Read] at the end of the input fails unless nothing was wanted. *)
Definition parseW (d : Deck) (ln rest : bytes) : out (Deck * bytes) :=
  if length ln <? 2 then Panic else
  match Atoi (TrimSpace (drop 2 ln)) with
  | None => Fail EBadWSize
  | Some size =>
    if ((size <? 0) || (maxAlloc <? size))%Z then Panic else
    let content := take (Z.to_nat size) rest in
    if is_nil rest && negb (size =? 0)%Z then Fail EWRead
    else if negb (zlen content =? size)%Z then Fail (EWShort (zlen content) size)
    else Ret (set_W content d, drop 1 (drop (Z.to_nat size) rest))
  end.

(** The card loop: every round consumes at least one byte of the body. *)
Fixpoint parse_loop (fuel : nat) (body : bytes) (d : Deck) (lastCard : Z) : out Deck :=
  match fuel with
  | O => NoFuel
  | S fuel =>
    if length body =? 0 then Ret d else
    let '(ln, rest) := readLine body in
    match ln with
    | [] => parse_loop fuel rest d lastCard
    | card :: _ =>
      if bool_decide (card = "W"%byte) then
        if (bval card <? lastCard)%Z then Fail (EOutOfOrder (bval card) lastCard) else
        '(d, rest) ← parseW d ln rest;
        parse_loop fuel rest d (bval card)
      else
        if (bval card <? lastCard)%Z then Fail (EOutOfOrder (bval card) lastCard) else
        if (length ln <? 2) || negb (bool_decide (ln !! 1 = Some SP))
        then Fail (EMalformed ln) else
        d ← parseCard d card (drop 2 ln);
        parse_loop fuel rest d (bval card)
    end
  end.

Definition Parse (data : slice) : out Deck :=
  match data with
  | None => Panic
  | Some data =>
    _ ← VerifyZ data;
    let body := take (length data - 35) data in
    d ← parse_loop (S (length body)) body deck_zero 0;
    Ret (set_Type (inferType d) d)
  end.

(** ** The repository checksum ([rcard.go]) *)

Section rcard.
Context {E : Type} (getContent : bytes → outcome E bytes).

(** What is written to the digest, file by file in name order. *)
Fixpoint rcard_input (fs : list FileCard) : outcome E bytes :=
  match fs with
  | [] => Ret []
  | f :: fs =>
    if is_nil (fc_UUID f) then rcard_input fs else
    content ← getContent (fc_UUID f);
    rest ← rcard_input fs;
    Ret (fc_Name f ++ (SP :: fmt_int (zlen content) ++ [NL]) ++ content ++ rest)
  end.

Definition ComputeR (d : Deck) : outcome E bytes :=
  if is_nil (d_F d) then Ret (str "d41d8cd98f00b204e9800998ecf8427e") else
  input ← rcard_input (sort_slice file_less (d_F d));
  Ret (hex_encode (md5 input)).
End rcard.

(** ** Well-formed decks

    What a deck must satisfy for its text to be parsed back: separators do not
    occur inside fields, times are representable at the precision written, and a
    file card that renames also carries a permission. *)
Definition no_sep (s : bytes) : Prop := (SP ∉ s) ∧ (NL ∉ s).
Definition trimmed (s : bytes) : Prop := TrimSpace s = s ∧ NL ∉ s.

Record wf_time (t : time) : Prop := {
  wt_year : (0 ≤ t_year t < 10000)%Z;
  wt_month : (1 ≤ t_month t ≤ 12)%Z;
  wt_day : (1 ≤ t_day t ≤ days_in (t_month t) (t_year t))%Z;
  wt_hour : (0 ≤ t_hour t < 24)%Z;
  wt_min : (0 ≤ t_min t < 60)%Z;
  wt_sec : (0 ≤ t_sec t < 60)%Z
}.
(** Whole milliseconds, as the D card stores them. *)
Definition milli_time (t : time) : Prop :=
  wf_time t ∧ (0 ≤ t_nsec t < 1000000000)%Z ∧ (t_nsec t mod 1000000 = 0)%Z.

Definition wf_A (a : AttachmentCard) : Prop := no_sep (ac_Target a) ∧ NL ∉ ac_Source a.
Definition wf_E (e : EventCard) : Prop :=
  wf_time (ec_Date e) ∧ t_nsec (ec_Date e) = 0%Z ∧ NL ∉ ec_UUID e.
Record wf_F (f : FileCard) : Prop := {
  wff_name : word (FossilEncode (fc_Name f));
  wff_uuid : fc_UUID f = [] ∨ word (fc_UUID f);
  wff_perm : fc_Perm f = [] ∨ word (fc_Perm f);
  wff_old : fc_OldName f = [] ∨ word (FossilEncode (fc_OldName f));
  wff_deleted : fc_UUID f = [] → fc_Perm f = [] ∧ fc_OldName f = [];
  wff_rename : fc_Perm f = [] → fc_OldName f = []
}.
Definition wf_J (j : TicketField) : Prop := NL ∉ tf_Value j.
Definition wf_Q (q : CherryPick) : Prop :=
  no_sep (cp_Target q) ∧ (NL ∉ cp_Baseline q) ∧ (cp_Target q ≠ [] ∨ cp_Baseline q ≠ []).
Definition wf_T (t : TagCard) : Prop :=
  (bval (tc_Type t) < 128)%Z ∧ tc_Type t ≠ NL ∧
  no_sep (tc_Name t) ∧ no_sep (tc_UUID t) ∧ NL ∉ tc_Value t.

Record wf_deck (d : Deck) : Prop := {
  wf_dA : ∀ a, d_A d = Some a → wf_A a;
  wf_dB : trimmed (d_B d);
  wf_dD : d_D d = time_zero ∨ milli_time (d_D d);
  wf_dE : ∀ e, d_E d = Some e → wf_E e;
  wf_dF : Forall wf_F (d_F d);
  wf_dG : trimmed (d_G d);
  wf_dI : trimmed (d_I d);
  wf_dJ : Forall wf_J (d_J d);
  wf_dK : trimmed (d_K d);
  wf_dM : Forall trimmed (d_M d);
  wf_dN : trimmed (d_N d);
  wf_dP : Forall word (d_P d);
  wf_dQ : Forall wf_Q (d_Q d);
  wf_dR : trimmed (d_R d);
  wf_dT : Forall wf_T (d_T d);
  wf_dW : (zlen (d_W d) ≤ maxAlloc)%Z
}.

(** What parsing the text of [d] gives back: the sorted card groups, the type
    inferred from the cards, and no Z field (the parser does not fill it). *)
Definition canonical (d : Deck) : Deck :=
  set_Type (inferType d) (set_Z []
    (set_F (sort_slice file_less (d_F d))
      (set_M (sort_slice str_ltb (d_M d))
        (set_T (sort_slice tag_less (d_T d)) d)))).

(** ** Escaping is invertible and separator-free *)

Lemma FossilEncode_cons c s :
  FossilEncode (c :: s) =
    (if bool_decide (c = SP) then [BSL; "s"%byte]
     else if bool_decide (c = NL) then [BSL; "n"%byte]
     else if bool_decide (c = BSL) then [BSL; BSL]
     else [c]) ++ FossilEncode s.
Proof. done. Qed.

Lemma decode_encode s : FossilDecode (FossilEncode s) = s.
Proof.
  induction s as [|c s IH]; [done|]. rewrite FossilEncode_cons.
  case_bool_decide; [subst; cbn; by rewrite IH|].
  case_bool_decide; [subst; cbn; by rewrite IH|].
  case_bool_decide; [subst; cbn; by rewrite IH|].
  cbn. rewrite bool_decide_false by done. by rewrite IH.
Qed.

Lemma encode_no_sep s : no_sep (FossilEncode s).
Proof.
  induction s as [|c s [IH1 IH2]]; [split; apply not_elem_of_nil|].
  rewrite FossilEncode_cons. unfold no_sep. rewrite !not_elem_of_app.
  split; (split; [|done]); repeat case_bool_decide;
    repeat (rewrite not_elem_of_cons || (split; [done|])); try apply not_elem_of_nil;
    try (split; [congruence|apply not_elem_of_nil]).
Qed.

Lemma encode_nonempty s : s ≠ [] → FossilEncode s ≠ [].
Proof.
  destruct s as [|c s]; [done|]. intros _. rewrite FossilEncode_cons.
  repeat case_bool_decide; done.
Qed.

(** ** Splitting *)

Section splitn.
Implicit Types a b cur : bytes.

Lemma splitN_loop_sep a b sep n cur :
  sep ∉ a → splitN_loop (a ++ sep :: b) sep (S (S n)) cur =
            (cur ++ a) :: splitN_loop b sep (S n) [].
Proof.
  revert cur. induction a as [|c a IH]; intros cur Ha; cbn [app splitN_loop].
  { rewrite bool_decide_true by done. by rewrite app_nil_r. }
  apply not_elem_of_cons in Ha as [Hc Ha].
  rewrite bool_decide_false by done. rewrite IH by done. by rewrite <- app_assoc.
Qed.

Lemma splitN_loop_none a sep n cur :
  sep ∉ a ∨ n = 0 → splitN_loop a sep (S n) cur = [cur ++ a].
Proof.
  revert cur. induction a as [|c a IH]; intros cur Ha; cbn [splitN_loop].
  { by rewrite app_nil_r. }
  destruct n as [|n]; [done|]. destruct Ha as [Ha|]; [|done].
  apply not_elem_of_cons in Ha as [Hc Ha].
  rewrite bool_decide_false by done. rewrite IH by auto. by rewrite <- app_assoc.
Qed.

Lemma SplitN_sep a b sep n :
  sep ∉ a → SplitN (a ++ sep :: b) sep (S (S n)) = a :: SplitN b sep (S n).
Proof. intros. unfold SplitN. by rewrite splitN_loop_sep. Qed.
Lemma SplitN_none a sep n : sep ∉ a ∨ n = 0 → SplitN a sep (S n) = [a].
Proof. intros. unfold SplitN. by rewrite splitN_loop_none. Qed.
End splitn.

(** ** Time stamps are read back *)

Section times.
Local Open Scope Z_scope.

Lemma pad2_eq v : 0 ≤ v < 100 →
  ∃ a b, pad_digits 2 v [] = [byte_of (48 + a); byte_of (48 + b)] ∧
         0 ≤ a < 10 ∧ 0 ≤ b < 10 ∧ v = a * 10 + b.
Proof.
  intros Hv. exists (v / 10 mod 10), (v mod 10).
  split_and!; [done|try (apply Z.mod_pos_bound; lia)..|].
  Z.to_euclidean_division_equations. lia.
Qed.

Lemma pad3_eq v : 0 ≤ v < 1000 →
  ∃ a b c, pad_digits 3 v [] = [byte_of (48 + a); byte_of (48 + b); byte_of (48 + c)] ∧
         0 ≤ a < 10 ∧ 0 ≤ b < 10 ∧ 0 ≤ c < 10 ∧ v = a * 100 + b * 10 + c.
Proof.
  intros Hv. exists (v / 10 / 10 mod 10), (v / 10 mod 10), (v mod 10).
  split_and!; [done|try (apply Z.mod_pos_bound; lia)..|].
  Z.to_euclidean_division_equations. lia.
Qed.

Lemma pad4_eq v : 0 ≤ v < 10000 →
  ∃ a b c d, pad_digits 4 v [] =
      [byte_of (48 + a); byte_of (48 + b); byte_of (48 + c); byte_of (48 + d)] ∧
    0 ≤ a < 10 ∧ 0 ≤ b < 10 ∧ 0 ≤ c < 10 ∧ 0 ≤ d < 10 ∧
    v = a * 1000 + b * 100 + c * 10 + d.
Proof.
  intros Hv. exists (v / 10 / 10 / 10 mod 10), (v / 10 / 10 mod 10), (v / 10 mod 10), (v mod 10).
  split_and!; [done|try (apply Z.mod_pos_bound; lia)..|].
  Z.to_euclidean_division_equations. lia.
Qed.

Lemma getnum_two a b s fixed :
  0 ≤ a < 10 → 0 ≤ b < 10 →
  getnum (byte_of (48 + a) :: byte_of (48 + b) :: s) fixed = Some (a * 10 + b, s).
Proof. intros. cbn. by rewrite !dec_digit_of. Qed.

Lemma in_range_ok lo hi v : lo ≤ v ≤ hi → in_range lo hi v = Some ().
Proof. intros. unfold in_range. by replace (_ && _) with true by lia. Qed.

(** Parsing the formatted seconds leaves the fraction. *)
Lemma time_parse_format_sec milli t s :
  wf_time t →
  time_parse milli (format_sec t ++ s) =
    ('(nsec, s) ← parse_frac milli s;
     if negb (length s =? 0)%nat then None else
     Some (Time (t_year t) (t_month t) (t_day t) (t_hour t) (t_min t) (t_sec t) nsec)).
Proof.
  intros [Hy Hmo Hd Hh Hmi Hs].
  assert (1 ≤ t_day t < 32).
  { unfold days_in in Hd. repeat case_match; lia. }
  destruct (pad4_eq (t_year t) Hy) as (y1 & y2 & y3 & y4 & Ey & ? & ? & ? & ? & Vy).
  destruct (pad2_eq (t_month t)) as (m1 & m2 & Em & ? & ? & Vm); [lia|].
  destruct (pad2_eq (t_day t)) as (d1 & d2 & Ed & ? & ? & Vd); [lia|].
  destruct (pad2_eq (t_hour t)) as (h1 & h2 & Eh & ? & ? & Vh); [lia|].
  destruct (pad2_eq (t_min t)) as (i1 & i2 & Ei & ? & ? & Vi); [lia|].
  destruct (pad2_eq (t_sec t)) as (s1 & s2 & Es & ? & ? & Vs); [lia|].
  unfold format_sec. rewrite Ey, Em, Ed, Eh, Ei, Es. cbn [app].
  unfold time_parse. cbn [length Nat.ltb Nat.leb take drop dec_value].
  rewrite !dec_digit_of by done. cbn [mbind option_bind].
  unfold skip_lit. rewrite bool_decide_true by done. cbn [mbind option_bind].
  rewrite getnum_two by done. cbn [mbind option_bind].
  rewrite (in_range_ok 1 12) by lia. cbn [mbind option_bind].
  rewrite bool_decide_true by done. cbn [mbind option_bind].
  rewrite getnum_two by done. cbn [mbind option_bind].
  rewrite bool_decide_true by done. cbn [mbind option_bind].
  rewrite getnum_two by done. cbn [mbind option_bind].
  rewrite (in_range_ok 0 23) by lia. cbn [mbind option_bind].
  rewrite bool_decide_true by done. cbn [mbind option_bind].
  rewrite getnum_two by done. cbn [mbind option_bind].
  rewrite (in_range_ok 0 59) by lia. cbn [mbind option_bind].
  rewrite bool_decide_true by done. cbn [mbind option_bind].
  rewrite getnum_two by done. cbn [mbind option_bind].
  rewrite (in_range_ok 0 59) by lia. cbn [mbind option_bind].
  destruct (parse_frac milli s) as [[ns r]|]; [|done]. cbn [mbind option_bind].
  destruct (negb _); [done|].
  replace ((((0 * 10 + y1) * 10 + y2) * 10 + y3) * 10 + y4) with (t_year t) by lia.
  rewrite <- Vm, <- Vd, <- Vh, <- Vi, <- Vs. by rewrite in_range_ok.
Qed.

Lemma format_sec_graph t : wf_time t → Forall (λ c, 33 ≤ bval c < 127) (format_sec t).
Proof.
  intros [Hy Hmo Hd Hh Hmi Hs].
  assert (1 ≤ t_day t < 32).
  { unfold days_in in Hd. repeat case_match; lia. }
  destruct (pad4_eq (t_year t) Hy) as (y1 & y2 & y3 & y4 & Ey & ? & ? & ? & ? & Vy).
  destruct (pad2_eq (t_month t)) as (m1 & m2 & Em & ? & ? & Vm); [lia|].
  destruct (pad2_eq (t_day t)) as (d1 & d2 & Ed & ? & ? & Vd); [lia|].
  destruct (pad2_eq (t_hour t)) as (h1 & h2 & Eh & ? & ? & Vh); [lia|].
  destruct (pad2_eq (t_min t)) as (i1 & i2 & Ei & ? & ? & Vi); [lia|].
  destruct (pad2_eq (t_sec t)) as (s1 & s2 & Es & ? & ? & Vs); [lia|].
  unfold format_sec. rewrite Ey, Em, Ed, Eh, Ei, Es. cbn [app].
  repeat constructor; try done;
    match goal with |- context [byte_of (48 + ?d)] =>
      pose proof (dec_byte_range d ltac:(done)); lia end.
Qed.

Lemma parse_frac_milli n :
  0 ≤ n < 1000 →
  parse_frac true ("."%byte :: pad_digits 3 n []) = Some (n * 1000000, []).
Proof.
  intros Hn. destruct (pad3_eq n Hn) as (a & b & c & -> & Ha & Hb & Hc & Hv).
  assert (∀ d, 0 ≤ d < 10 → time_atoi (byte_of (48 + d) :: [byte_of (48 + b); byte_of (48 + c)]) =
    dec_value (byte_of (48 + d) :: [byte_of (48 + b); byte_of (48 + c)]) 0) as Hat.
  { intros d Hd. pose proof (dec_byte_range d Hd) as Hr.
    destruct (byte_of (48 + d)); try done; vm_compute in Hr; by destruct Hr as [[] _]. }
  unfold parse_frac. cbn [length Nat.ltb Nat.leb take drop]. unfold parseNanoseconds.
  cbn [commaOrPeriod bool_decide negb take]. 
  change (negb (commaOrPeriod "."%byte)) with false. cbv iota.
  rewrite Hat by done. cbn [dec_value]. rewrite !dec_digit_of by done.
  destruct (Z.ltb_spec (((0 * 10 + a) * 10 + b) * 10 + c) 0); [lia|].
  cbn [mbind option_bind]. do 2 f_equal.
  change (zlen [byte_of (48 + a); byte_of (48 + b); byte_of (48 + c)]) with 3.
  change (10 ^ (9 - 3)) with 1000000. lia.
Qed.

Lemma parseTimestamp_milli t : milli_time t → parseTimestamp (format_milli t) = Some t.
Proof.
  intros (Hwf & Hns & Hmod). unfold parseTimestamp, format_milli.
  assert (0 ≤ t_nsec t / 1000000 < 1000).
  { split; [apply Z.div_pos; lia|apply Z.div_lt_upper_bound; lia]. }
  rewrite TrimSpace_graph.
  - cbn [app]. rewrite time_parse_format_sec by done. rewrite parse_frac_milli by done.
    cbn. replace (t_nsec t / 1000000 * 1000000) with (t_nsec t)
      by (Z.to_euclidean_division_equations; lia).
    by destruct t.
  - apply Forall_app. split; [by apply format_sec_graph|].
    destruct (pad3_eq (t_nsec t / 1000000)) as (a & b & c & -> & Ha & Hb & Hc & _); [done|].
    repeat constructor; try done;
    match goal with |- context [byte_of (48 + ?d)] =>
      pose proof (dec_byte_range d ltac:(done)); lia end.
Qed.

Lemma parseTimestamp_sec t :
  wf_time t → t_nsec t = 0 → parseTimestamp (format_sec t) = Some t.
Proof.
  intros Hwf Hns. unfold parseTimestamp. rewrite TrimSpace_graph by by apply format_sec_graph.
  rewrite <- (app_nil_r (format_sec t)).
  rewrite !time_parse_format_sec by done. cbn. rewrite <- Hns. by destruct t.
Qed.
End times.

(** ** One card at a time *)

(** [consumes chunk d0 d1 lo hi]: reading [chunk] with the last card at most [lo]
    turns [d0] into [d1] and leaves the last card at most [hi], whatever follows. *)
Definition consumes (chunk : bytes) (d0 d1 : Deck) (lo hi : Z) : Prop :=
  ∀ rest fuel last, (last ≤ lo)%Z → length (chunk ++ rest) < fuel →
    ∃ fuel' last', (last' ≤ hi)%Z ∧ length rest < fuel' ∧
      parse_loop fuel (chunk ++ rest) d0 last = parse_loop fuel' rest d1 last'.

Lemma consumes_nil d lo hi : (lo ≤ hi)%Z → consumes [] d d lo hi.
Proof. intros H rest fuel last Hl Hf. exists fuel, last. split_and!; [lia|done|done]. Qed.

Lemma consumes_same d0 d1 lo hi : d0 = d1 → (lo ≤ hi)%Z → consumes [] d0 d1 lo hi.
Proof. intros ->. apply consumes_nil. Qed.

Lemma consumes_app c1 c2 d0 d1 d2 lo mid hi :
  consumes c1 d0 d1 lo mid → consumes c2 d1 d2 mid hi → consumes (c1 ++ c2) d0 d2 lo hi.
Proof.
  intros H1 H2 rest fuel last Hl Hf. rewrite <- app_assoc in *.
  destruct (H1 (c2 ++ rest) fuel last Hl Hf) as (f1 & l1 & Hl1 & Hf1 & ->).
  apply (H2 rest f1 l1 Hl1 Hf1).
Qed.

Lemma readLine_app l rest : NL ∉ l → readLine (l ++ NL :: rest) = (l, rest).
Proof.
  induction l as [|c l IH]; intros Hl; cbn [app readLine].
  - by rewrite bool_decide_true.
  - apply not_elem_of_cons in Hl as [Hc Hl].
    rewrite bool_decide_false by done. by rewrite IH.
Qed.

Lemma consumes_line c args d0 d1 lo hi :
  c ≠ NL → c ≠ "W"%byte → (lo ≤ bval c ≤ hi)%Z → NL ∉ args →
  parseCard d0 c args = Ret d1 → consumes (line c args) d0 d1 lo hi.
Proof.
  intros Hc HW Hb Hargs Hp rest fuel last Hl Hf.
  destruct fuel as [|fuel]; [lia|].
  exists fuel, (bval c). split; [lia|].
  assert (line c args ++ rest = (c :: SP :: args) ++ NL :: rest) as E.
  { unfold line. cbn. by rewrite <- app_assoc. }
  rewrite E in *. rewrite length_app in Hf. split; [cbn in Hf; lia|].
  cbn [parse_loop].
  destruct (Nat.eqb_spec (length ((c :: SP :: args) ++ NL :: rest)) 0) as [H0|_];
    [by rewrite length_app in H0; cbn in H0|].
  rewrite readLine_app by (rewrite !not_elem_of_cons; done).
  rewrite bool_decide_false by done.
  destruct (Z.ltb_spec (bval c) last); [lia|].
  cbn [length Nat.ltb Nat.leb orb lookup list_lookup].
  rewrite bool_decide_true by done. cbn [negb].
  change (drop 2 (c :: SP :: args)) with args. by rewrite Hp.
Qed.

(** A group of repeated cards, each appended to a list of the deck. *)
Lemma consumes_list {A} (c : byte) (enc : A → bytes) (upd : list A → Deck → Deck)
    (get : Deck → list A) (P : A → Prop) l d lo :
  c ≠ NL → c ≠ "W"%byte → (lo ≤ bval c)%Z →
  (∀ x, P x → NL ∉ enc x) →
  (∀ x d, P x → parseCard d c (enc x) = Ret (upd (get d ++ [x]) d)) →
  (∀ l d, get (upd l d) = l) → (∀ l l' d, upd l (upd l' d) = upd l d) →
  (∀ d, upd (get d) d = d) →
  Forall P l →
  consumes (concat (map (λ x, line c (enc x)) l)) d (upd (get d ++ l) d) lo (bval c).
Proof.
  intros Hc HW Hlo Hnl Hparse Hgu Huu Hug Hl.
  assert (∀ lo d, (lo ≤ bval c)%Z →
    consumes (concat (map (λ x, line c (enc x)) l)) d (upd (get d ++ l) d) lo (bval c)) as Hgen;
    [|by apply Hgen].
  clear lo Hlo d. induction Hl as [|x l Hx Hl IH]; intros lo d Hlo; cbn [map concat].
  - rewrite app_nil_r, Hug. by apply consumes_nil.
  - eapply consumes_app; [apply (consumes_line c (enc x) d _ lo (bval c)); auto; lia|].
    specialize (IH (bval c) (upd (get d ++ [x]) d) ltac:(lia)).
    rewrite Hgu, Huu, <- app_assoc in IH. done.
Qed.

Lemma consumes_opt c args d0 d1 lo present :
  c ≠ NL → c ≠ "W"%byte → (lo ≤ bval c)%Z → NL ∉ args →
  (present = true → parseCard d0 c args = Ret d1) → (present = false → d1 = d0) →
  consumes (opt_line c present args) d0 d1 lo (bval c).
Proof.
  intros Hc HW Hlo Hargs Hp Hn. unfold opt_line. destruct present.
  - apply consumes_line; auto. lia.
  - rewrite Hn by done. by apply consumes_nil.
Qed.

(** The cards whose whole argument is trimmed, and those that are escaped. *)
Lemma is_nil_false {A} (l : list A) : negb (is_nil l) = false → l = [].
Proof. by destruct l. Qed.

Lemma consumes_field c (enc : bytes → bytes) (upd : bytes → Deck → Deck)
    (get : Deck → bytes) s d lo :
  c ≠ NL → c ≠ "W"%byte → (lo ≤ bval c)%Z → NL ∉ enc s →
  parseCard d c (enc s) = Ret (upd s d) → get d = [] → (∀ d, get d = [] → upd [] d = d) →
  consumes (opt_line c (negb (is_nil s)) (enc s)) d (upd s d) lo (bval c).
Proof.
  intros Hc HW Hlo Hnl Hp Hd H0. apply consumes_opt; auto.
  intros ->%is_nil_false. auto.
Qed.

Section cards.
Implicit Types d : Deck.

Lemma not_elem_opt (c : byte) (s : bytes) :
  c ≠ SP → c ∉ s → c ∉ (if is_nil s then [] else SP :: s).
Proof. intros Hc Hs. destruct s; [apply not_elem_of_nil|]. by apply not_elem_of_cons. Qed.

Lemma marshal_A_ok a d :
  wf_A a → (NL ∉ marshal_A a) ∧ parseCard d "A"%byte (marshal_A a) = Ret (set_A (Some a) d).
Proof.
  intros [[Hsp Hnl] Hs]. destruct (encode_no_sep (ac_Filename a)) as [E1 E2]. split.
  - unfold marshal_A. rewrite !not_elem_of_app. split_and!; [done| |done|].
    + by apply not_elem_of_cons; split; [done|apply not_elem_of_nil].
    + by apply not_elem_opt.
  - cbn [parseCard]. unfold parseACard, marshal_A. cbn [app]. rewrite SplitN_sep by done.
    destruct a as [f t [|c s]]; cbn [ac_Filename ac_Target ac_Source is_nil] in *.
    + rewrite app_nil_r, SplitN_none by auto. by rewrite decode_encode.
    + rewrite SplitN_sep by done. rewrite SplitN_none by auto. by rewrite decode_encode.
Qed.

Lemma format_sec_no_byte c t :
  wf_time t → (bval c < 33)%Z → c ∉ format_sec t.
Proof.
  intros Hwf Hc Hin. pose proof (format_sec_graph t Hwf) as Hg.
  pose proof (Forall_elem _ _ _ Hg Hin). cbn in *. lia.
Qed.

Lemma marshal_D_ok t d :
  milli_time t → (NL ∉ format_milli t) ∧
  parseCard d "D"%byte (format_milli t) = Ret (set_D t d).
Proof.
  intros Ht. pose proof Ht as (Hwf & Hns & _). split.
  - unfold format_milli. rewrite !not_elem_of_app. split_and!.
    + by apply format_sec_no_byte.
    + by apply not_elem_of_cons; split; [done|apply not_elem_of_nil].
    + assert (0 ≤ t_nsec t / 1000000 < 1000)%Z as H
        by (Z.to_euclidean_division_equations; lia).
      destruct (pad3_eq _ H) as (a & b & c & -> & Ha & Hb & Hcc & _).
      assert (∀ x, 0 ≤ x < 10 → NL ≠ byte_of (48 + x))%Z as Hdig.
      { intros x Hx E. pose proof (dec_byte_range x Hx) as Hr. rewrite <- E in Hr.
        change (bval NL) with 10%Z in Hr. lia. }
      rewrite !not_elem_of_cons. split_and!; auto. apply not_elem_of_nil.
  - cbn [parseCard]. unfold parseDCard. by rewrite parseTimestamp_milli.
Qed.

Lemma marshal_E_ok e d :
  wf_E e → (NL ∉ format_sec (ec_Date e) ++ [SP] ++ ec_UUID e) ∧
  parseCard d "E"%byte (format_sec (ec_Date e) ++ [SP] ++ ec_UUID e)
    = Ret (set_E (Some e) d).
Proof.
  intros (Hwf & Hns & Hu). split.
  - rewrite !not_elem_of_app. split_and!; [by apply format_sec_no_byte| |done].
    by apply not_elem_of_cons; split; [done|apply not_elem_of_nil].
  - cbn [parseCard]. unfold parseECard. cbn [app].
    rewrite SplitN_sep by by apply format_sec_no_byte.
    rewrite SplitN_none by auto. rewrite parseTimestamp_sec by done. by destruct e.
Qed.

(** The words of a file card. *)
Definition file_words (f : FileCard) : list bytes :=
  [FossilEncode (fc_Name f)] ++
  (if is_nil (fc_UUID f) then [] else [fc_UUID f]) ++
  (if is_nil (fc_Perm f) then [] else [fc_Perm f]) ++
  (if is_nil (fc_OldName f) then [] else [FossilEncode (fc_OldName f)]).

Lemma marshal_F_ok f d :
  wf_F f → (NL ∉ marshal_F f) ∧
  parseCard d "F"%byte (marshal_F f) = Ret (set_F (d_F d ++ [f]) d).
Proof.
  intros [Hn Hu Hp Ho Hdel Hren].
  assert (Forall word (file_words f)) as Hw.
  { assert (∀ s t : bytes, s = [] ∨ word t → Forall word (if is_nil s then [] else [t])) as Hopt.
    { intros s t [->|Ht]; [constructor|]. destruct s; [constructor|by apply List.Forall_cons]. }
    unfold file_words. rewrite !Forall_app. split_and!; auto. }
  assert (marshal_F f = Join (file_words f) [SP]) as HJ.
  { unfold marshal_F, file_words. destruct f as [n u p o]; cbn in *.
    destruct u as [|u0 u]; [destruct (Hdel eq_refl) as [-> ->]; by rewrite app_nil_r|].
    destruct p as [|p0 p]; [rewrite (Hren eq_refl)|]; cbn; [by rewrite !app_nil_r|].
    destruct o as [|o0 o]; cbn [is_nil app Join]; by rewrite ?app_nil_r, <- ?app_assoc. }
  rewrite HJ. split.
  - apply Join_no_byte; [|by intros ?%list_elem_of_singleton].
    eapply Forall_impl; [|exact Hw]. intros w Hww. by apply word_no_NL, Hww.
  - cbn [parseCard]. unfold parseFCard. rewrite Fields_Join by done.
    unfold file_words. destruct f as [n u p o]; cbn [fc_Name fc_UUID fc_Perm fc_OldName] in *.
    destruct u as [|u0 u]; [destruct (Hdel eq_refl) as [-> ->]; cbn; by rewrite decode_encode|].
    destruct p as [|p0 p]; [rewrite (Hren eq_refl); cbn; by rewrite decode_encode|].
    destruct o as [|o0 o]; cbn [is_nil app lookup list_lookup default from_option];
      by rewrite ?decode_encode.
Qed.

Lemma marshal_J_ok j d :
  wf_J j → (NL ∉ marshal_J j) ∧
  parseCard d "J"%byte (marshal_J j) = Ret (set_J (d_J d ++ [j]) d).
Proof.
  intros Hv. destruct (encode_no_sep (tf_Name j)) as [E1 E2]. split.
  - unfold marshal_J. rewrite not_elem_of_app. split; [done|]. by apply not_elem_opt.
  - cbn [parseCard]. unfold parseJCard, marshal_J.
    destruct j as [n [|v0 v]]; cbn [tf_Name tf_Value is_nil] in *.
    + rewrite app_nil_r, SplitN_none by auto. by rewrite decode_encode.
    + rewrite SplitN_sep, SplitN_none by auto. by rewrite decode_encode.
Qed.

Lemma marshal_Q_ok q d :
  wf_Q q → (NL ∉ marshal_Q q) ∧
  parseCard d "Q"%byte (marshal_Q q) = Ret (set_Q (d_Q d ++ [q]) d).
Proof.
  intros ([Hsp Hnl] & Hb & Hne). split.
  - unfold marshal_Q. apply not_elem_of_cons. split; [by destruct (cp_IsBackout q)|].
    rewrite not_elem_of_app. split; [done|]. by apply not_elem_opt.
  - cbn [parseCard]. unfold parseQCard, marshal_Q.
    assert (bool_decide ((if cp_IsBackout q then "-"%byte else "+"%byte) = "-"%byte)
            = cp_IsBackout q) as Hbk by by destruct (cp_IsBackout q).
    match goal with |- context [length ?l <? 2] => destruct (Nat.ltb_spec (length l) 2) as [Hl|_] end.
    { destruct q as [b [|t0 t] [|b0 bs]]; cbn in *; try lia. by destruct Hne. }
    cbn [index lookup list_lookup mbind outcome_bind]. unfold index; cbn [lookup list_lookup mbind outcome_bind].
    rewrite Hbk.
    match goal with |- context [drop 1 (?x :: ?l)] => change (drop 1 (x :: l)) with l end.
    destruct q as [b t [|b0 bs]]; cbn [cp_IsBackout cp_Target cp_Baseline is_nil] in *.
    + by rewrite app_nil_r, SplitN_none by auto.
    + by rewrite SplitN_sep, SplitN_none by auto.
Qed.

Lemma marshal_T_ok t d :
  wf_T t → (NL ∉ marshal_T t) ∧
  parseCard d "T"%byte (marshal_T t) = Ret (set_T (d_T d ++ [t]) d).
Proof.
  intros (Ht & Hty & [Hn1 Hn2] & [Hu1 Hu2] & Hv).
  assert (rune_bytes (tc_Type t) = [tc_Type t]) as Hr.
  { unfold rune_bytes. by destruct (Z.ltb_spec (bval (tc_Type t)) 128); [|lia]. }
  unfold marshal_T. rewrite Hr. split.
  - rewrite !not_elem_of_app. split_and!; [| done | |done|by apply not_elem_opt].
    + apply not_elem_of_cons; split; [congruence|apply not_elem_of_nil].
    + by apply not_elem_of_cons; split; [done|apply not_elem_of_nil].
  - cbn [parseCard]. unfold parseTCard.
    match goal with |- context [length ?l <? 2] => destruct (Nat.ltb_spec (length l) 2) as [Hl|_] end.
    { cbn in Hl. rewrite length_app in Hl. cbn in Hl. lia. }
    unfold index; cbn [app lookup list_lookup mbind outcome_bind].
    match goal with |- context [drop 1 (?x :: ?l)] => change (drop 1 (x :: l)) with l end.
    rewrite SplitN_sep by done.
    destruct t as [ty n u [|v0 v]]; cbn [tc_Type tc_Name tc_UUID tc_Value is_nil] in *.
    + by rewrite app_nil_r, SplitN_none by auto.
    + by rewrite SplitN_sep, SplitN_none by auto.
Qed.
End cards.

(** ** The whole body *)

Lemma consumes_W w d lo hi :
  (zlen w ≤ maxAlloc)%Z → (lo ≤ 87 ≤ hi)%Z → d_W d = [] →
  consumes (marshal_W w) d (set_W w d) lo hi.
Proof.
  intros Hw Hlo Hd. unfold marshal_W. destruct w as [|w0 w'] eqn:Ew; cbn [is_nil].
  { replace (set_W [] d) with d by (destruct d; cbn in *; by subst). apply consumes_nil. lia. }
  rewrite <- Ew in *. assert (w ≠ []) as Hne by by rewrite Ew. clear Ew w0 w'.
  intros rest fuel last Hl Hf. destruct fuel as [|fuel]; [lia|]. exists fuel, 87%Z.
  split; [lia|].
  pose proof (fmt_int_word _ (zlen_int64 w Hw)) as [_ Hword].
  assert ((line "W"%byte (fmt_int (zlen w)) ++ w ++ [NL]) ++ rest =
    ("W"%byte :: SP :: fmt_int (zlen w)) ++ NL :: w ++ NL :: rest) as E.
  { unfold line. cbn. by rewrite <- !app_assoc. }
  rewrite E in *. clear E. split.
  { rewrite length_app in Hf. cbn in Hf. rewrite length_app in Hf. cbn in Hf. lia. }
  cbn [parse_loop].
  destruct (Nat.eqb_spec (length (("W"%byte :: SP :: fmt_int (zlen w)) ++ NL :: w ++ NL :: rest)) 0)
    as [H0|_]; [by rewrite length_app in H0; cbn in H0|].
  rewrite readLine_app.
  2:{ rewrite !not_elem_of_cons. split_and!; [done..|]. by apply word_no_NL. }
  rewrite bool_decide_true by done. change (bval "W"%byte) with 87%Z.
  destruct (Z.ltb_spec 87 last); [lia|].
  unfold parseW. cbn [length Nat.ltb Nat.leb].
  change (drop 2 ("W"%byte :: SP :: fmt_int (zlen w))) with (fmt_int (zlen w)).
  assert (TrimSpace (fmt_int (zlen w)) = fmt_int (zlen w)) as ->.
  { apply TrimSpace_graph. by apply fmt_int_graph, zlen_int64. }
  unfold Atoi. rewrite ParseInt_fmt_int by by apply zlen_int64.
  pose proof (zlen_nonneg w). unfold maxAlloc in *.
  replace ((zlen w <? 0) || (2 ^ 48 <? zlen w))%Z with false by lia.
  assert (is_nil (w ++ NL :: rest) = false) as -> by by destruct w.
  unfold zlen. rewrite Nat2Z.id, take_app_length, drop_app_length, Z.eqb_refl. done.
Qed.

Lemma consumes_A a d lo :
  (lo ≤ 65)%Z → (∀ x, a = Some x → wf_A x) → d_A d = None →
  consumes match a with Some a => line "A"%byte (marshal_A a) | None => [] end
           d (set_A a d) lo 65.
Proof.
  intros Hlo Ha Hd. destruct a as [a|].
  - destruct (marshal_A_ok a d (Ha a eq_refl)). by apply consumes_line.
  - apply consumes_same; [by destruct d; cbn in *; subst|lia].
Qed.

Lemma consumes_D t d lo :
  (lo ≤ 68)%Z → t = time_zero ∨ milli_time t → d_D d = time_zero →
  consumes (opt_line "D"%byte (negb (IsZero t)) (format_milli t)) d (set_D t d) lo 68.
Proof.
  intros Hlo Ht Hd. unfold IsZero. case_bool_decide as Hz.
  - apply consumes_same; [by destruct d; cbn in *; subst|lia].
  - destruct Ht as [|Ht]; [done|]. by apply consumes_line; try apply marshal_D_ok.
Qed.

Lemma consumes_E e d lo :
  (lo ≤ 69)%Z → (∀ x, e = Some x → wf_E x) → d_E d = None →
  consumes match e with
           | Some e => line "E"%byte (format_sec (ec_Date e) ++ [SP] ++ ec_UUID e)
           | None => []
           end d (set_E e d) lo 69.
Proof.
  intros Hlo He Hd. destruct e as [e|].
  - by apply consumes_line; try apply marshal_E_ok, He.
  - apply consumes_same; [by destruct d; cbn in *; subst|lia].
Qed.

Lemma consumes_P ps d lo :
  (lo ≤ 80)%Z → Forall word ps → d_P d = [] →
  consumes (opt_line "P"%byte (negb (is_nil ps)) (Join ps [SP])) d (set_P ps d) lo 80.
Proof.
  intros Hlo Hp Hd. apply consumes_opt; try done.
  - apply Join_no_byte; [|by intros ?%list_elem_of_singleton].
    eapply Forall_impl; [|exact Hp]. intros w Hw. by apply word_no_NL, Hw.
  - intros _. cbn [parseCard]. by rewrite Fields_Join.
  - intros ->%is_nil_false. by destruct d; cbn in *; subst.
Qed.

(** The deck rebuilt card by card, in the order of the text. *)
Definition rebuilt (d : Deck) : Deck :=
  set_W (d_W d) (set_U (d_U d) (set_T (sort_slice tag_less (d_T d)) (set_R (d_R d)
  (set_Q (d_Q d) (set_P (d_P d) (set_N (d_N d) (set_M (sort_slice str_ltb (d_M d))
  (set_L (d_L d) (set_K (d_K d) (set_J (d_J d) (set_I (d_I d) (set_H (d_H d)
  (set_G (d_G d) (set_F (sort_slice file_less (d_F d)) (set_E (d_E d) (set_D (d_D d)
  (set_C (d_C d) (set_B (d_B d) (set_A (d_A d) deck_zero))))))))))))))))))).

Ltac card_field :=
  match goal with
  | |- NL ∉ FossilEncode _ => apply encode_no_sep
  | |- NL ∉ _ => assumption
  | |- parseCard _ _ (FossilEncode ?s) = _ => cbn [parseCard]; by rewrite decode_encode
  | H : TrimSpace ?s = ?s |- parseCard _ _ ?s = _ => cbn [parseCard]; by rewrite H
  | |- ∀ d : Deck, _ => by intros [] ?; cbn in *; subst
  | |- _ = [] => reflexivity
  | |- _ => done
  end.

Lemma consumes_F l d lo :
  (lo ≤ 70)%Z → Forall wf_F l → d_F d = [] →
  consumes (concat (map (λ f, line "F"%byte (marshal_F f)) l)) d (set_F l d) lo 70.
Proof.
  intros Hlo Hl Hd. replace (set_F l d) with (set_F (d_F d ++ l) d) by by rewrite Hd.
  apply (consumes_list "F"%byte marshal_F set_F d_F wf_F); try done.
  - intros f Hf. by apply (marshal_F_ok f deck_zero).
  - intros f d' Hf. by apply marshal_F_ok.
  - by intros [].
Qed.

Lemma consumes_J l d lo :
  (lo ≤ 74)%Z → Forall wf_J l → d_J d = [] →
  consumes (concat (map (λ f, line "J"%byte (marshal_J f)) l)) d (set_J l d) lo 74.
Proof.
  intros Hlo Hl Hd. replace (set_J l d) with (set_J (d_J d ++ l) d) by by rewrite Hd.
  apply (consumes_list "J"%byte marshal_J set_J d_J wf_J); try done.
  - intros f Hf. by apply (marshal_J_ok f deck_zero).
  - intros f d' Hf. by apply marshal_J_ok.
  - by intros [].
Qed.

Lemma consumes_Q l d lo :
  (lo ≤ 81)%Z → Forall wf_Q l → d_Q d = [] →
  consumes (concat (map (λ f, line "Q"%byte (marshal_Q f)) l)) d (set_Q l d) lo 81.
Proof.
  intros Hlo Hl Hd. replace (set_Q l d) with (set_Q (d_Q d ++ l) d) by by rewrite Hd.
  apply (consumes_list "Q"%byte marshal_Q set_Q d_Q wf_Q); try done.
  - intros f Hf. by apply (marshal_Q_ok f deck_zero).
  - intros f d' Hf. by apply marshal_Q_ok.
  - by intros [].
Qed.

Lemma consumes_T l d lo :
  (lo ≤ 84)%Z → Forall wf_T l → d_T d = [] →
  consumes (concat (map (λ f, line "T"%byte (marshal_T f)) l)) d (set_T l d) lo 84.
Proof.
  intros Hlo Hl Hd. replace (set_T l d) with (set_T (d_T d ++ l) d) by by rewrite Hd.
  apply (consumes_list "T"%byte marshal_T set_T d_T wf_T); try done.
  - intros f Hf. by apply (marshal_T_ok f deck_zero).
  - intros f d' Hf. by apply marshal_T_ok.
  - by intros [].
Qed.

Lemma consumes_M l d lo :
  (lo ≤ 77)%Z → Forall trimmed l → d_M d = [] →
  consumes (concat (map (λ m, line "M"%byte m) l)) d (set_M l d) lo 77.
Proof.
  intros Hlo Hl Hd. replace (set_M l d) with (set_M (d_M d ++ l) d) by by rewrite Hd.
  apply (consumes_list "M"%byte (λ m, m) set_M d_M trimmed); try done.
  - intros m Hm. apply Hm.
  - intros m d' [Hm _]. cbn [parseCard]. by rewrite Hm.
  - by intros [].
Qed.

Lemma consumes_body d :
  wf_deck d → consumes (marshalCards d) deck_zero (rebuilt d) 0 87.
Proof.
  intros [HA [HB1 HB2] HD HE HF [HG1 HG2] [HI1 HI2] HJ [HK1 HK2] HM [HN1 HN2] HP HQ
          [HR1 HR2] HT HW].
  unfold marshalCards, rebuilt.
  eapply consumes_app; [by apply consumes_A|].
  eapply consumes_app; [apply (consumes_field _ (λ s, s) set_B d_B); card_field|].
  eapply consumes_app; [apply (consumes_field _ FossilEncode set_C d_C); card_field|].
  eapply consumes_app; [by apply consumes_D|].
  eapply consumes_app; [by apply consumes_E|].
  eapply consumes_app; [apply consumes_F; [done|by apply sort_slice_Forall|done]|].
  eapply consumes_app; [apply (consumes_field _ (λ s, s) set_G d_G); card_field|].
  eapply consumes_app; [apply (consumes_field _ FossilEncode set_H d_H); card_field|].
  eapply consumes_app; [apply (consumes_field _ (λ s, s) set_I d_I); card_field|].
  eapply consumes_app; [apply consumes_J; [done|done|done]|].
  eapply consumes_app; [apply (consumes_field _ (λ s, s) set_K d_K); card_field|].
  eapply consumes_app; [apply (consumes_field _ FossilEncode set_L d_L); card_field|].
  eapply consumes_app; [apply consumes_M; [done|by apply sort_slice_Forall|done]|].
  eapply consumes_app; [apply (consumes_field _ (λ s, s) set_N d_N); card_field|].
  eapply consumes_app; [by apply consumes_P|].
  eapply consumes_app; [apply consumes_Q; [done|done|done]|].
  eapply consumes_app; [apply (consumes_field _ (λ s, s) set_R d_R); card_field|].
  eapply consumes_app; [apply consumes_T; [done|by apply sort_slice_Forall|done]|].
  eapply consumes_app; [apply (consumes_field _ FossilEncode set_U d_U); card_field|].
  by apply consumes_W.
Qed.

Lemma is_nil_perm {A} (l k : list A) : l ≡ₚ k → is_nil l = is_nil k.
Proof. intros H%Permutation_length. by destruct l, k. Qed.

Lemma rebuilt_canonical d : set_Type (inferType (rebuilt d)) (rebuilt d) = canonical d.
Proof.
  assert (inferType (rebuilt d) = inferType d) as ->; [|by destruct d].
  unfold inferType, rebuilt. cbn.
  rewrite (is_nil_perm _ _ (sort_slice_perm str_ltb (d_M d))),
    (is_nil_perm _ _ (sort_slice_perm file_less (d_F d))),
    (is_nil_perm _ _ (sort_slice_perm tag_less (d_T d))). done.
Qed.

(** ** The Z card *)

Lemma computeZ_length data : length (computeZ data) = 32.
Proof. unfold computeZ. by rewrite length_hex_encode, length_md5. Qed.

Lemma Zline_length data : length (line "Z"%byte (computeZ data)) = 35.
Proof. unfold line. cbn. by rewrite length_app, computeZ_length. Qed.

Lemma VerifyZ_complete body : VerifyZ (body ++ line "Z"%byte (computeZ body)) = Ret tt.
Proof.
  unfold VerifyZ. rewrite length_app, Zline_length.
  destruct (Nat.ltb_spec (length body + 35) 35); [lia|]. rewrite Nat.add_sub.
  rewrite take_app_length, drop_app_length.
  assert (line "Z"%byte (computeZ body) !! 34 = Some NL) as H34.
  { change (line "Z"%byte (computeZ body) !! 34) with ((computeZ body ++ [NL]) !! 32).
    rewrite lookup_app_r; by rewrite computeZ_length. }
  unfold index. rewrite H34.
  change (line "Z"%byte (computeZ body) !! 0) with (Some "Z"%byte).
  change (line "Z"%byte (computeZ body) !! 1) with (Some SP).
  change (drop 2 (line "Z"%byte (computeZ body))) with (computeZ body ++ [NL]).
  rewrite take_app_exact by by rewrite computeZ_length.
  cbn [mbind outcome_bind]. by rewrite !bool_decide_true.
Qed.

Lemma VerifyZ_sound data :
  VerifyZ data = Ret tt → ∃ body, data = body ++ line "Z"%byte (computeZ body).
Proof.
  unfold VerifyZ. destruct (Nat.ltb_spec (length data) 35) as [|Hlen]; [done|].
  set (n := length data - 35). set (tail := drop n data).
  assert (length tail = 35) as Hl by (unfold tail, n; rewrite length_drop; lia).
  destruct tail as [|t0 [|t1 tl]] eqn:Et; try done. cbn in Hl.
  unfold index. cbn [lookup list_lookup mbind outcome_bind].
  destruct (tl !! 32) as [t34|] eqn:E34; [|done]. cbn [mbind outcome_bind].
  repeat (case_bool_decide; cbn [negb orb]; [|done]). subst. intros _.
  exists (take n data). rewrite <- (take_drop n data) at 1. f_equal.
  fold tail. rewrite Et. unfold line. do 2 f_equal.
  change (drop 2 ("Z"%byte :: SP :: tl)) with tl in *.
  match goal with H : computeZ _ = take 32 tl |- _ => rewrite H end.
  rewrite <- (take_drop 32 tl) at 1. f_equal.
  assert (length (drop 32 tl) = 1) as Hd by (rewrite length_drop; lia).
  assert (drop 32 tl !! 0 = Some NL) as Hd0 by by rewrite lookup_drop.
  destruct (drop 32 tl) as [|x [|]]; cbn in *; by simplify_eq.
Qed.

(** ** Parsing never hangs and panics only on W lines *)

Lemma splitN_loop_length s sep n cur :
  1 ≤ length (splitN_loop s sep (S n) cur) ≤ S n.
Proof.
  revert n cur. induction s as [|c s IH]; intros n cur; cbn [splitN_loop]; [cbn; lia|].
  destruct n as [|n]; [cbn; lia|].
  case_bool_decide; [|apply IH]. cbn. specialize (IH n []). lia.
Qed.

Lemma SplitN_2 s sep : (∃ a, SplitN s sep 2 = [a]) ∨ (∃ a b, SplitN s sep 2 = [a; b]).
Proof.
  pose proof (splitN_loop_length s sep 1 []) as H. unfold SplitN.
  destruct (splitN_loop s sep 2 []) as [|a [|b [|]]]; cbn in H; try lia; eauto.
Qed.

Lemma parseCard_safe d c args : safe (parseCard d c args).
Proof.
  destruct c; try done; cbn [parseCard].
  - unfold parseACard. by repeat case_match.
  - unfold parseDCard. by case_match.
  - unfold parseECard. by repeat case_match.
  - unfold parseFCard. by case_match.
  - unfold parseJCard. by destruct (SplitN_2 args SP) as [(?&->)|(?&?&->)].
  - unfold parseQCard. destruct (Nat.ltb_spec (length args) 2); [done|].
    apply safe_bind; [apply safe_index; lia|]. intros c _.
    by destruct (SplitN_2 (drop 1 args) SP) as [(?&->)|(?&?&->)].
  - unfold parseTCard. destruct (Nat.ltb_spec (length args) 2); [done|].
    apply safe_bind; [apply safe_index; lia|]. intros c _. by repeat case_match.
Qed.

Lemma readLine_spec s l r :
  readLine s = (l, r) → (NL ∉ l) ∧ ((s = l ∧ r = []) ∨ s = l ++ NL :: r).
Proof.
  revert l r. induction s as [|c s IH]; intros l r; cbn.
  { intros [= <- <-]. split; [apply not_elem_of_nil|auto]. }
  case_bool_decide as Hc.
  { intros [= <- <-]. subst. split; [apply not_elem_of_nil|auto]. }
  destruct (readLine s) as [l' r']. intros [= <- <-].
  destruct (IH l' r' eq_refl) as [Hl [[-> ->]| ->]];
    (split; [by rewrite not_elem_of_cons|auto]).
Qed.

(** A W line without a size argument, or whose size is negative or beyond the
    allocation limit. *)
Definition bad_W (ln : bytes) : Prop :=
  ln !! 0 = Some "W"%byte ∧
  (length ln < 2 ∨
   ∃ size, Atoi (TrimSpace (drop 2 ln)) = Some size ∧ (size < 0 ∨ maxAlloc < size)%Z).

(** What is left of the body, the cards so far, and the last one. *)
Definition parser : Type := bytes * Deck * Z.

(** A line and what belongs to it is accepted. *)
Inductive card_step : parser → parser → Prop :=
  | step_blank body rest d last : body ≠ [] → readLine body = ([], rest) → card_step (body, d, last) (rest, d, last)
  | step_W body ln rest rest' d d' last : readLine body = ("W"%byte :: ln, rest) → (last ≤ bval "W"%byte)%Z →
      parseW d ("W"%byte :: ln) rest = Ret (d', rest') → card_step (body, d, last) (rest', d', bval "W"%byte)
  | step_card body card ln rest d d' last : readLine body = (card :: ln, rest) → card ≠ "W"%byte → (last ≤ bval card)%Z →
      ln !! 0 = Some SP → parseCard d card (drop 1 ln) = Ret d' → card_step (body, d, last) (rest, d', bval card).

(** The next line is such a W line, and not out of order. *)
Definition at_bad_W (s : parser) : Prop := bad_W (readLine s.1.1).1 ∧ (s.2 ≤ bval "W"%byte)%Z.

Lemma parseW_spec d ln rest :
  ln !! 0 = Some "W"%byte →
  parseW d ln rest ≠ NoFuel ∧ (parseW d ln rest = Panic ↔ bad_W ln) ∧
  ∀ d' rest', parseW d ln rest = Ret (d', rest') → ∃ l, rest = l ++ rest'.
Proof.
  intros H0. unfold parseW, bad_W. destruct (Nat.ltb_spec (length ln) 2).
  { split_and!; [done|split; auto|done]. }
  destruct (Atoi _) as [size|] eqn:Ea.
  2:{ split_and!; [done| |done]. split; [done|]. intros (_ & [?|(? & ? & _)]); [lia|done]. }
  destruct ((size <? 0) || (maxAlloc <? size))%Z eqn:Eb.
  { split_and!; [done| |done]. split; [|done]. intros _. split; [done|]. right. exists size. split; [done|]. lia. }
  assert (¬ (size < 0 ∨ maxAlloc < size)%Z) as Hn by lia.
  destruct (_ && _); [|destruct (zlen _ =? size)%Z; cbn [negb]]; (split_and!; [done| |]);
    try (split; [done|]; intros (_ & [?|(v & [= <-] & Hv)]); [lia|by destruct Hn]); try done.
  intros d' rest' [= _ <-]. exists (take (Z.to_nat size) rest ++ take 1 (drop (Z.to_nat size) rest)).
  by rewrite <- app_assoc, !take_drop.
Qed.

Lemma readLine_shorter body ln rest : readLine body = (ln, rest) → body ≠ [] → length rest < length body.
Proof.
  intros [_ [[-> ->]| ->]]%readLine_spec Hne; [by destruct ln; cbn; [|lia]|]. rewrite length_app. cbn. lia.
Qed.

(** A step of the loop. *)
Lemma card_step_loop body d last body' d' last' : card_step (body, d, last) (body', d', last') →
  length body' < length body ∧ ∀ fuel, parse_loop (S fuel) body d last = parse_loop fuel body' d' last'.
Proof.
  assert (∀ c ln rest, readLine body = (c :: ln, rest) → body ≠ []) as Hne by by (intros c ln rest H ->).
  assert (body ≠ [] → (length body =? 0) = false) as Hlen by (by destruct body).
  inversion 1 as [? rest ? ? Hb Hr|? ln rest ? ? ? ? Hr Ho Hw|? card ln rest ? ? ? Hr Hc Ho Hs Hp]; subst.
  - split; [by eapply readLine_shorter|]. intros fuel. cbn [parse_loop]. by rewrite Hlen, Hr.
  - pose proof (readLine_shorter _ _ _ Hr (Hne _ _ _ Hr)).
    destruct (parseW_spec d ("W"%byte :: ln) rest eq_refl) as (_ & _ & Hsplit). destruct (Hsplit _ _ Hw) as [l ->].
    rewrite length_app in *. split; [lia|]. intros fuel. cbn [parse_loop].
    rewrite Hlen, Hr, bool_decide_true by eauto. replace (_ <? last)%Z with false by lia. by rewrite Hw.
  - split; [by eapply readLine_shorter; eauto|]. intros fuel. cbn [parse_loop].
    rewrite Hlen, Hr, bool_decide_false by eauto. replace (_ <? last)%Z with false by lia.
    destruct ln as [|x ln]; [done|]. injection Hs as ->. cbn [length Nat.ltb Nat.leb lookup list_lookup orb].
    rewrite bool_decide_true by done. cbn [negb]. change (drop 2 (card :: SP :: ln)) with (drop 1 (SP :: ln)). by rewrite Hp.
Qed.

(** The loop panics at such a line. *)
Lemma bad_W_panics fuel body d last : at_bad_W (body, d, last) → parse_loop (S fuel) body d last = Panic.
Proof.
  unfold at_bad_W. cbn [fst snd parse_loop]. destruct (readLine body) as [ln rest] eqn:Er. cbn [fst]. intros [Hb Ho].
  destruct body as [|c body]; [injection Er as <- <-; by destruct Hb|]. cbn [length Nat.eqb].
  pose proof Hb as [H0 _]. destruct ln as [|card ln]; [done|]. injection H0 as ->. rewrite bool_decide_true by done.
  replace (_ <? last)%Z with false by lia. by rewrite (proj2 (proj1 (proj2 (parseW_spec d ("W"%byte :: ln) rest eq_refl))) Hb).
Qed.

(** Otherwise it takes a step, or returns. *)
Lemma parse_loop_cases fuel body d last :
  (∃ s, card_step (body, d, last) s) ∨ at_bad_W (body, d, last) ∨ safe (parse_loop (S fuel) body d last).
Proof.
  cbn [parse_loop]. unfold at_bad_W. cbn [fst snd]. destruct (Nat.eqb_spec (length body) 0) as [H0|H0]; [by right; right|].
  assert (body ≠ []) as Hb by by intros ->.
  destruct (readLine body) as [ln rest] eqn:Er. cbn [fst].
  destruct ln as [|card ln]; [left; eexists; by apply step_blank|]. case_bool_decide as Hc; [subst card|].
  - destruct (Z.ltb_spec (bval "W"%byte) last) as [Ho|Ho]; [by right; right|].
    destruct (parseW_spec d ("W"%byte :: ln) rest eq_refl) as (Hnf & Hp & _).
    destruct (parseW d ("W"%byte :: ln) rest) as [[d' rest']| | |] eqn:Ew; cbn [mbind outcome_bind]; [|by right; right|right; left; tauto|done].
    left. eexists. by eapply step_W.
  - destruct (Z.ltb_spec (bval card) last) as [Ho|Ho]; [by right; right|].
    destruct ((length (card :: ln) <? 2) || _) eqn:El; [by right; right|].
    pose proof (parseCard_safe d card (drop 2 (card :: ln))) as Hs.
    destruct (parseCard d card (drop 2 (card :: ln))) as [d'| | |] eqn:Ep; cbn [mbind outcome_bind]; [|by right; right|done..].
    left. eexists. eapply step_card; [exact Er|done|done| |exact Ep].
    destruct ln as [|x ln]; [done|]. cbn in El |- *. by case_bool_decide as Hx; [injection Hx as ->|].
Qed.

Lemma parse_loop_spec fuel body d last : length body < fuel →
  parse_loop fuel body d last ≠ NoFuel ∧
  (parse_loop fuel body d last = Panic ↔ ∃ s, rtc card_step (body, d, last) s ∧ at_bad_W s).
Proof.
  revert body d last. induction fuel as [|fuel IH]; intros body d last Hf; [lia|].
  assert ((∃ s, rtc card_step (body, d, last) s ∧ at_bad_W s) → parse_loop (S fuel) body d last = Panic) as Hpanic.
  { intros (s & Hr & Hbad). inversion Hr as [|? [[body1 d1] last1] ? Hs1 Hr1]; subst; [by apply bad_W_panics|].
    destruct (card_step_loop _ _ _ _ _ _ Hs1) as [Hlt ->]. apply (IH body1 d1 last1 ltac:(lia)). by exists s. }
  destruct (parse_loop_cases fuel body d last) as [[[[body1 d1] last1] Hs1]|[Hbad|Hsafe]].
  - destruct (card_step_loop _ _ _ _ _ _ Hs1) as [Hlt Hl]. rewrite Hl in *. destruct (IH body1 d1 last1 ltac:(lia)) as [H1 H2].
    split; [done|]. split; [|done]. intros (s & Hr & Hbad)%H2. exists s. split; [by eapply rtc_l|done].
  - rewrite (bad_W_panics _ _ _ _ Hbad). split; [done|]. split; [|done]. intros _. exists (body, d, last). by split; [apply rtc_refl|].
  - destruct (parse_loop (S fuel) body d last); try done; (split; [done|]; split; [done|exact Hpanic]).
Qed.

(** ** Determinism of the text *)

Lemma marshal_canonical d : Marshal (canonical d) = Marshal d.
Proof.
  unfold Marshal. assert (marshalCards (canonical d) = marshalCards d) as ->; [|done].
  unfold marshalCards, canonical. cbn -[sort_slice].
  rewrite (sort_slice_id file_less (sort_slice file_less _)),
    (sort_slice_id str_ltb (sort_slice str_ltb _)),
    (sort_slice_id tag_less (sort_slice tag_less _)); [done|apply sort_slice_ordered..];
    unfold file_less, tag_less; eauto using str_ltb_asym, str_ltb_negtrans.
Qed.

Lemma Parse_Marshal d : wf_deck d → Parse (Some (Marshal d)) = Ret (canonical d).
Proof.
  intros Hwf. unfold Parse, Marshal. rewrite VerifyZ_complete. cbn [mbind outcome_bind].
  rewrite length_app, Zline_length, Nat.add_sub, take_app_length.
  destruct (consumes_body d Hwf [] (S (length (marshalCards d))) 0%Z) as (fuel & last & _ & Hf & Heq);
    [lia|rewrite app_nil_r; lia|].
  rewrite app_nil_r in Heq. rewrite Heq. destruct fuel as [|fuel]; [cbn in Hf; lia|].
  cbn [parse_loop length Nat.eqb mbind outcome_bind]. by rewrite rebuilt_canonical.
Qed.

(** ** Properties *)

(** C4. Manifests round-trip: parsing the text of a well-formed deck succeeds
    and returns the deck in canonical form, and that form has the same text, so
    text and canonical decks determine each other. *)
Theorem Parse_Marshal_roundtrip d :
  wf_deck d → Parse (Some (Marshal d)) = Ret (canonical d) ∧ Marshal (canonical d) = Marshal d.
Proof. intros H. split; [by apply Parse_Marshal|apply marshal_canonical]. Qed.

(** [VerifyZ] accepts exactly the texts that end in a Z card carrying the MD5 of
    everything before it. *)
Theorem VerifyZ_iff data :
  VerifyZ data = Ret tt ↔ ∃ body, data = body ++ line "Z"%byte (computeZ body).
Proof.
  split; [apply VerifyZ_sound|]. intros [body ->]. apply VerifyZ_complete.
Qed.

Lemma VerifyZ_safe data : safe (VerifyZ data).
Proof.
  unfold VerifyZ. destruct (Nat.ltb_spec (length data) 35); [done|].
  assert (length (drop (length data - 35) data) = 35) as Hl by (rewrite length_drop; lia).
  do 3 (match goal with |- context [index ?l ?i] =>
    destruct (lookup_lt_is_Some_2 l i) as [? Hx]; [lia|]; unfold index at 1; rewrite Hx;
    cbn [mbind outcome_bind]; clear Hx end).
  by repeat case_match.
Qed.

(** C5. [Parse] terminates on every input, and panics exactly in one case: the
    checksum of the Z card is right, and after cards that it accepts the parser
    comes to a W card, not out of order, that has no size argument or a negative
    or unallocatable size. *)
Theorem Parse_total data :
  let body := take (length data - 35) data in
  Parse (Some data) ≠ NoFuel ∧
  (Parse (Some data) = Panic ↔
   VerifyZ data = Ret tt ∧ ∃ s, rtc card_step (body, deck_zero, 0%Z) s ∧ at_bad_W s).
Proof.
  cbv zeta. unfold Parse. pose proof (VerifyZ_safe data) as Hz.
  destruct (parse_loop_spec (S (length (take (length data - 35) data))) (take (length data - 35) data) deck_zero 0%Z
    ltac:(lia)) as [H1 H2].
  destruct (VerifyZ data) as [[]|e| |]; cbn [mbind outcome_bind]; try done; [|by split; [|split; [|intros [? _]]]].
  destruct (parse_loop _ _ _ _) as [d| | |]; cbn [mbind outcome_bind]; try done; (split; [done|]; split); try done.
  - by intros [_ H%H2].
  - by intros [_ H%H2].
  - intros _. split; [done|by apply H2].
Qed.

(** The escaping of card arguments loses nothing and removes every separator:
    decoding an encoded string returns it, and the encoded string contains
    neither a blank nor a newline. *)
Theorem FossilEncode_roundtrip s :
  FossilDecode (FossilEncode s) = s ∧ (SP ∉ FossilEncode s) ∧ (NL ∉ FossilEncode s).
Proof. split; [apply decode_encode|apply encode_no_sep]. Qed.

(** The text of a manifest does not depend on the order in which its files,
    cluster members and tags are listed, when file names and tag keys are
    distinct. *)
Theorem Marshal_perm d fs ms ts :
  NoDup (map fc_Name (d_F d)) → NoDup (map tag_key (d_T d)) → NoDup (d_M d) →
  fs ≡ₚ d_F d → ms ≡ₚ d_M d → ts ≡ₚ d_T d →
  Marshal (set_F fs (set_M ms (set_T ts d))) = Marshal d.
Proof.
  intros HF HT HM Hfs Hms Hts. unfold Marshal.
  assert (marshalCards (set_F fs (set_M ms (set_T ts d))) = marshalCards d) as ->; [|done].
  unfold marshalCards. cbn -[sort_slice].
  assert (sort_slice file_less fs = sort_slice file_less (d_F d)) as ->
    by (symmetry; by apply (sort_slice_perm_eq fc_Name)).
  assert (sort_slice str_ltb ms = sort_slice str_ltb (d_M d)) as ->
    by (symmetry; apply (sort_slice_perm_eq (λ m, m)); by rewrite ?map_id).
  assert (sort_slice tag_less ts = sort_slice tag_less (d_T d)) as ->
    by (symmetry; by apply (sort_slice_perm_eq tag_key)).
  done.
Qed.

(** ** Witnesses *)

Definition sample_deck : Deck :=
  set_C (str "two words") (set_D (Time 2024 6 15 14 30 45 123000000)
  (set_F [MkFileCard (str "src/main.go") (str "da39a3ee") [] [];
          MkFileCard (str "README md") (str "aaf4c61d") (str "x") (str "old")]
  (set_P [str "1234"] (set_T [MkTagCard "*"%byte (str "branch") (str "*") (str "trunk")]
  (set_U (str "dev") deck_zero))))).

Lemma sample_wf : wf_deck sample_deck.
Proof.
  split; cbn; try (by intros ? [=]); try (by constructor);
    try (split; [reflexivity|apply not_elem_of_nil]).
  - apply list.Forall_cons_2; [|apply list.Forall_singleton]; split; cbn;
      first [by_decide|by left|right; by_decide|by intros [=]|by intros _].
  - apply list.Forall_singleton. by_decide.
  - done.
Qed.

Lemma Parse_Marshal_roundtrip_witness :
  Parse (Some (Marshal sample_deck)) = Ret (canonical sample_deck) ∧
  Marshal (canonical sample_deck) = Marshal sample_deck.
Proof. apply Parse_Marshal_roundtrip. exact sample_wf. Defined.

Lemma Marshal_perm_witness :
  Marshal (set_F (rev (d_F sample_deck)) (set_M [] (set_T (d_T sample_deck) sample_deck)))
  = Marshal sample_deck.
Proof.
  apply (Marshal_perm sample_deck).
  - by_decide.
  - by_decide.
  - constructor.
  - cbn. apply Permutation_swap.
  - reflexivity.
  - reflexivity.
Defined.

(** ** Findings *)

(** A manifest with a valid checksum whose W card has a negative size makes
    [Parse] panic. *)
Example Parse_negative_W_panics :
  let body := str "W -1" ++ [NL] in
  Parse (Some (body ++ line "Z"%byte (computeZ body))) = Panic.
Proof. vm_compute. reflexivity. Qed.

(** A renamed file without a permission is written as three fields and read back
    with the old name as its permission. *)
Example rename_without_perm_lost :
  parseCard deck_zero "F"%byte
    (marshal_F (MkFileCard (str "new") (str "da39a3ee") [] (str "old")))
  = Ret (set_F [MkFileCard (str "new") (str "da39a3ee") (str "old") []] deck_zero).
Proof. vm_compute. reflexivity. Qed.
