(* ===== verification/Julian.v ===== *)
(** * Julian days (src/internal/fsltype/fsltype.go, src/db/scan.go)

    Times in the database are [float64] numbers of days.  Floats are the Standard
    Library's specification of IEEE binary64, so that rounding is computed and not
    assumed. *)
From Stdlib Require Import Floats.SpecFloat.
From S2P Require Import Prelude GoStrings Deck.

(** [float64] *)
Definition julian : Type := spec_float.

#[export] Instance julian_eq_dec : EqDecision julian.
Proof. solve_decision. Defined.

Definition f64 (z : Z) : julian := binary_normalize 53 1024 z 0 false.
Definition f_add : julian → julian → julian := SFadd 53 1024.
Definition f_sub : julian → julian → julian := SFsub 53 1024.
Definition f_mul : julian → julian → julian := SFmul 53 1024.
Definition f_div : julian → julian → julian := SFdiv 53 1024.
Definition f_ltb : julian → julian → bool := SFltb.
Definition f_leb : julian → julian → bool := SFleb.

(** [int64(f)] of a number that is in range. *)
Definition f_int (f : julian) : Z :=
  match f with
  | S754_finite s m e =>
    let v := (if 0 <=? e then Z.shiftl (Zpos m) e else Z.shiftr (Zpos m) (- e))%Z in
    if s then (- v)%Z else v
  | _ => 0%Z
  end.

(** The days before a month. *)
Definition days_before_month (m y : Z) : Z :=
  (nth (Z.to_nat (m - 1)) [0; 31; 59; 90; 120; 151; 181; 212; 243; 273; 304; 334] 0
   + (if (2 <? m) && is_leap y then 1 else 0))%Z.

(** Nanoseconds since 1970 of a UTC time. *)
Definition instant (t : time) : Z :=
  let y := (t_year t - 1)%Z in
  let days := (365 * y + y / 4 - y / 100 + y / 400 + days_before_month (t_month t) (t_year t)
               + (t_day t - 1) - 719162)%Z in
  (((days * 24 + t_hour t) * 60 + t_min t) * 60 + t_sec t)%Z * 10 ^ 9 + t_nsec t.

(** [t.UTC().UnixMilli()] *)
Definition UnixMilli (t : time) : Z := (instant t / 10 ^ 6)%Z.

(** 2440587.5 *)
Definition julianEpoch : julian := f_div (f64 4881175) (f64 2).

Definition julian_of_milli (ms : Z) : julian := f_add julianEpoch (f_div (f64 ms) (f64 86400000)).

Definition TimeToJulian (t : time) : julian := julian_of_milli (UnixMilli t).

(** The milliseconds since 1970 of the time that [JulianToTime] returns. *)
Definition JulianToTime (j : julian) : Z :=
  f_int (f_mul (f_mul (f_sub j julianEpoch) (f64 86400)) (f64 1000)).

Lemma f_ltb_irrefl j : f_ltb j j = false.
Proof.
  unfold f_ltb, SFltb, SFcompare. destruct j as [s|s| |s m e]; [by destruct s..|done|].
  destruct s; rewrite Z.compare_refl, Pos.compare_cont_refl; done.
Qed.

(** [SFcompare], where it is defined, orders keys: the class, then the sign and
    size. *)
Definition f_key (f : julian) : Z * (Z * Z) :=
  match f with
  | S754_nan => (0, (0, 0))
  | S754_infinity s => (if s then -2 else 2, (0, 0))
  | S754_zero _ => (0, (0, 0))
  | S754_finite s m e => if s then (-1, (- e, - Zpos m)) else (1, (e, Zpos m))
  end%Z.
Definition key_lt (x y : Z * (Z * Z)) : Prop :=
  (x.1 < y.1 ∨ x.1 = y.1 ∧ (x.2.1 < y.2.1 ∨ x.2.1 = y.2.1 ∧ x.2.2 < y.2.2))%Z.

Lemma f_ltb_key x y : f_ltb x y = true ↔ x ≠ S754_nan ∧ y ≠ S754_nan ∧ key_lt (f_key x) (f_key y).
Proof.
  unfold f_ltb, SFltb, SFcompare, key_lt.
  destruct x as [[]|[]| |[] m e], y as [[]|[]| |[] m' e']; cbn -[Z.lt Z.opp];
    try (split; [discriminate|]; intros (H1 & H2 & H); first [by destruct H1|by destruct H2|lia]);
    try (split; [|done]; intros _; repeat split; try discriminate; lia).
  - change (Pos.compare_cont Eq m m') with (Pos.compare m m').
    destruct (Z.compare_spec e e') as [->|H|H];
      [destruct (Pos.compare_spec m m') as [->|H|H]|..]; cbn;
      (split; [try discriminate; intros _; repeat split; try discriminate; lia|]);
      intros (_ & _ & H'); try done; exfalso; lia.
  - change (Pos.compare_cont Eq m m') with (Pos.compare m m').
    destruct (Z.compare_spec e e') as [->|H|H];
      [destruct (Pos.compare_spec m m') as [->|H|H]|..]; cbn;
      (split; [try discriminate; intros _; repeat split; try discriminate; lia|]);
      intros (_ & _ & H'); try done; exfalso; lia.
Qed.

Lemma f_ltb_trans x y z : f_ltb x y = true → f_ltb y z = true → f_ltb x z = true.
Proof. rewrite !f_ltb_key. unfold key_lt. intros (H1 & _ & H2) (_ & H3 & H4). split_and!; [done..|]. lia. Qed.

Lemma f_ltb_asym x y : f_ltb x y = true → f_ltb y x = false.
Proof. intros H. apply not_true_iff_false. revert H. rewrite !f_ltb_key. unfold key_lt. intros (_ & _ & ?) (_ & _ & ?). lia. Qed.

(** ** Findings *)

(** Converting back truncates where it should round: many times come back a
    millisecond early, and so in the second before. *)
Example julian_loses_a_millisecond :
  JulianToTime (TimeToJulian (Time 1970 1 1 0 0 1 0)) = 999%Z ∧
  JulianToTime (TimeToJulian (Time 2023 11 14 22 13 20 0)) = 1699999999999%Z ∧
  UnixMilli (Time 2023 11 14 22 13 20 0) = 1700000000000%Z.
Proof. vm_compute. auto. Qed.
