(* ===== verification/Quote.v ===== *)
(** * Quoted strings: [strconv.Quote], the [%q] of [fmt]

    Runes are decoded from UTF-8 the way Go does it. Which runes above U+00FF are
    printable is a table of the Unicode standard, the class [Unicode]. *)
From S2P Require Import Prelude GoStrings Hash.

Class Unicode := { is_print : Z → bool }.

(** ** [utf8.DecodeRune] *)

Definition RuneError : Z := 65533.

Definition between (lo hi b : Z) : bool := (lo <=? b)%Z && (b <=? hi)%Z.
Definition continues (b : Z) : bool := between 128 191 b.

(** The range of the second byte after the lead byte [b0]. *)
Definition second_ok (b0 b1 : Z) : bool :=
  if (b0 =? 224)%Z then between 160 191 b1 else
  if (b0 =? 237)%Z then between 128 159 b1 else
  if (b0 =? 240)%Z then between 144 191 b1 else
  if (b0 =? 244)%Z then between 128 143 b1 else continues b1.

(** A rune and its width; an invalid byte is [RuneError] with width 1. *)
Definition DecodeRune (s : bytes) : Z * nat :=
  match map bval s with
  | [] => (RuneError, 0)
  | b0 :: s =>
    if (b0 <? 128)%Z then (b0, 1) else
    match s with
    | [] => (RuneError, 1)
    | b1 :: s =>
      if between 194 223 b0 then
        if continues b1 then (((b0 mod 32) * 64 + b1 mod 64)%Z, 2) else (RuneError, 1)
      else
      match s with
      | [] => (RuneError, 1)
      | b2 :: s =>
        if between 224 239 b0 then
          if second_ok b0 b1 && continues b2
          then ((((b0 mod 16) * 64 + b1 mod 64) * 64 + b2 mod 64)%Z, 3) else (RuneError, 1)
        else
        match s with
        | [] => (RuneError, 1)
        | b3 :: _ =>
          if between 240 244 b0 && second_ok b0 b1 && continues b2 && continues b3
          then (((((b0 mod 8) * 64 + b1 mod 64) * 64 + b2 mod 64) * 64 + b3 mod 64)%Z, 4)
          else (RuneError, 1)
        end
      end
    end
  end.

Section quote.
Context {unicode : Unicode}.

Definition IsPrint (r : Z) : bool :=
  if (r <=? 255)%Z then between 32 126 r || (between 161 255 r && negb (r =? 173)%Z) else is_print r.

(** [n] hexadecimal digits of [v]. *)
Fixpoint hex_digits (n : nat) (v : Z) : bytes :=
  match n with
  | O => []
  | S n => hex_digits n (v / 16) ++ [nth (Z.to_nat (v mod 16)) hexdigits x00]
  end.

(** [appendEscapedRune]; [enc] is the encoding of [r]. *)
Definition escape_rune (r : Z) (enc : bytes) : bytes :=
  if (r =? 34)%Z || (r =? 92)%Z then "\"%byte :: enc else
  if IsPrint r then enc else
  if (r =? 7)%Z then str "\a" else if (r =? 8)%Z then str "\b" else
  if (r =? 12)%Z then str "\f" else if (r =? 10)%Z then str "\n" else
  if (r =? 13)%Z then str "\r" else if (r =? 9)%Z then str "\t" else
  if (r =? 11)%Z then str "\v" else
  if (r <? 32)%Z || (r =? 127)%Z then str "\x" ++ hex_digits 2 r else
  if (r <? 65536)%Z then str "\u" ++ hex_digits 4 r else str "\U" ++ hex_digits 8 r.

(** Every round takes at least a byte. *)
Fixpoint quote_loop (fuel : nat) (s : bytes) : bytes :=
  match fuel with
  | O => []
  | S fuel =>
    match s with
    | [] => []
    | b :: _ =>
      let '(r, width) := DecodeRune s in
      if (width =? 1) && (r =? RuneError)%Z then str "\x" ++ hex_byte b ++ quote_loop fuel (drop 1 s)
      else escape_rune r (take width s) ++ quote_loop fuel (drop width s)
    end
  end.

Definition quote_byte : byte := x22.
Definition Quote (s : bytes) : bytes := quote_byte :: quote_loop (length s) s ++ [quote_byte].
End quote.

Lemma DecodeRune_width s : s ≠ [] → 1 ≤ (DecodeRune s).2 ≤ 4.
Proof.
  intros Hs. unfold DecodeRune. destruct s as [|b0 [|b1 [|b2 [|b3 s]]]]; [done|..]; cbn [map];
    repeat case_match; cbn; lia.
Qed.

(** Longer runs change nothing: a round for each byte is enough. *)
Lemma quote_fuel {unicode : Unicode} fuel fuel' s :
  length s ≤ fuel → length s ≤ fuel' → quote_loop fuel s = quote_loop fuel' s.
Proof.
  revert fuel' s. induction fuel as [|fuel IH]; intros fuel' s H1 H2.
  { destruct s; [by destruct fuel'|cbn in H1; lia]. }
  destruct s as [|b s]; [by destruct fuel'|]. destruct fuel' as [|fuel']; [cbn in H2; lia|].
  cbn [quote_loop]. pose proof (DecodeRune_width (b :: s) ltac:(done)) as Hw.
  destruct (DecodeRune (b :: s)) as [r w]. cbn [fst snd] in Hw.
  assert (∀ k, 1 ≤ k → quote_loop fuel (drop k (b :: s)) = quote_loop fuel' (drop k (b :: s))) as H.
  { intros k Hk. cbn [length] in *. apply IH; rewrite length_drop; cbn [length]; lia. }
  destruct (_ && _); f_equal; [f_equal|]; apply H; lia.
Qed.

(** Only ASCII runes are printed, for the examples. *)
Definition test_unicode : Unicode := {| is_print _ := false |}.

Example quote_text : @Quote test_unicode (str "a\b" ++ [x22; x0a; x00; xff; xc3; xa9; xe2; x82; xac]) =
  x22 :: str "a\\b\" ++ x22 :: str "\n\x00\xff" ++ [xc3; xa9] ++ str "\u20ac" ++ [x22].
Proof. vm_compute. reflexivity. Qed.
