(* ===== verification/Xfer.v ===== *)
(** * The sync protocol's card codec (src/internal/xfer)

    Cards (card.go, card_tablesync.go), their wire format (encode.go), the
    reader (decode.go) and messages (message.go).  A [bufio.Reader] over a
    buffer is the bytes it has not delivered yet; a reading function returns the
    reader after it.  A [bytes.Buffer] being written is its contents. *)
From S2P Require Import Prelude GoStrings Zlib Deck.

(** ** Cards *)

Record FileCard := MkFile { f_UUID : bytes; f_DeltaSrc : bytes; f_Content : slice }.
Record CFileCard := MkCFile {
  cf_UUID : bytes; cf_DeltaSrc : bytes; cf_USize : Z; cf_Content : slice }.
Record IGotCard := MkIGot { ig_UUID : bytes; ig_IsPrivate : bool }.
Record LoginCard := MkLogin { lg_User : bytes; lg_Nonce : bytes; lg_Signature : bytes }.
Record PushCard := MkPush { pu_ServerCode : bytes; pu_ProjectCode : bytes }.
Record PullCard := MkPull { pl_ServerCode : bytes; pl_ProjectCode : bytes }.
Record CloneCard := MkClone { cl_Version : Z; cl_SeqNo : Z }.
Record ConfigCard := MkConfig { co_Name : bytes; co_Content : slice }.
Record UVFileCard := MkUVFile {
  uf_Name : bytes; uf_MTime : Z; uf_Hash : bytes; uf_Size : Z; uf_Flags : Z;
  uf_Content : slice }.
Record UVIGotCard := MkUVIGot {
  ui_Name : bytes; ui_MTime : Z; ui_Hash : bytes; ui_Size : Z }.
Record PragmaCard := MkPragma { pr_Name : bytes; pr_Values : list bytes }.
Record UnknownCard := MkUnknown { un_Command : bytes; un_Args : list bytes }.
Record SchemaCard := MkSchema {
  sc_Table : bytes; sc_Version : Z; sc_Hash : bytes; sc_MTime : Z; sc_Content : slice }.
Record XIGotCard := MkXIGot { xi_Table : bytes; xi_PKHash : bytes; xi_MTime : Z }.
Record XGimmeCard := MkXGimme { xg_Table : bytes; xg_PKHash : bytes }.
Record XRowCard := MkXRow {
  xr_Table : bytes; xr_PKHash : bytes; xr_MTime : Z; xr_Content : slice }.
Record XDeleteCard := MkXDelete {
  xd_Table : bytes; xd_PKHash : bytes; xd_MTime : Z; xd_PKData : slice }.

(** The implementations of the [Card] interface. *)
Inductive Card :=
  | CardFile (c : FileCard)
  | CardCFile (c : CFileCard)
  | CardIGot (c : IGotCard)
  | CardGimme (UUID : bytes)
  | CardLogin (c : LoginCard)
  | CardPush (c : PushCard)
  | CardPull (c : PullCard)
  | CardCookie (Value : bytes)
  | CardClone (c : CloneCard)
  | CardCloneSeqNo (SeqNo : Z)
  | CardConfig (c : ConfigCard)
  | CardReqConfig (Name : bytes)
  | CardPrivate
  | CardUVFile (c : UVFileCard)
  | CardUVGimme (Name : bytes)
  | CardUVIGot (c : UVIGotCard)
  | CardPragma (c : PragmaCard)
  | CardError (Message : bytes)
  | CardMessage (Message : bytes)
  | CardUnknown (c : UnknownCard)
  | CardSchema (c : SchemaCard)
  | CardXIGot (c : XIGotCard)
  | CardXGimme (c : XGimmeCard)
  | CardXRow (c : XRowCard)
  | CardXDelete (c : XDeleteCard).

(** The errors of the codec; [EEOF] is [io.EOF]. *)
Inductive xfer_error :=
  | EEOF
  | EEmptyLine
  | EArgs
  | EInteger
  | EPayload
  | EBounds
  | EInflate
  | EUSize
  | ECard (i : nat) (e : xfer_error).

Abbreviation out := (outcome xfer_error).

Definition UVFlagDeletion : Z := 1.
Definition UVFlagContentOmitted : Z := 4.

Definition uvFileOmitsContent (flags : Z) : bool :=
  (negb (Z.land flags 1 =? 0) || negb (Z.land flags 4 =? 0))%Z.

(** The contents of a slice. *)
Definition content (s : slice) : bytes := default [] s.

(** ** Encoding *)

Section zlib.
Context {codec : Zlib}.

Definition encodeIGot (w : bytes) (c : IGotCard) : out bytes :=
  Ret (w ++ str "igot " ++ ig_UUID c ++ (if ig_IsPrivate c then str " 1" else []) ++ [NL]).

Definition encodeGimme (w UUID : bytes) : out bytes := Ret (w ++ str "gimme " ++ UUID ++ [NL]).

Definition encodePush (w : bytes) (c : PushCard) : out bytes :=
  if bool_decide (pu_ProjectCode c = []) then Panic else
  Ret (w ++ str "push " ++ pu_ProjectCode c
    ++ (if bool_decide (pu_ServerCode c = []) then [] else SP :: pu_ServerCode c) ++ [NL]).

Definition encodePull (w : bytes) (c : PullCard) : out bytes :=
  if bool_decide (pl_ProjectCode c = []) then Panic else
  if bool_decide (pl_ServerCode c = []) then Panic else
  Ret (w ++ str "pull " ++ pl_ProjectCode c ++ [SP] ++ pl_ServerCode c ++ [NL]).

Definition encodeCookie (w Value : bytes) : out bytes := Ret (w ++ str "cookie " ++ Value ++ [NL]).

Definition encodeReqConfig (w Name : bytes) : out bytes :=
  Ret (w ++ str "reqconfig " ++ Name ++ [NL]).

Definition encodePrivate (w : bytes) : out bytes := Ret (w ++ str "private" ++ [NL]).

Definition encodeClone (w : bytes) (c : CloneCard) : out bytes :=
  if ((cl_Version c =? 0) && (cl_SeqNo c =? 0))%Z then Ret (w ++ str "clone" ++ [NL])
  else Ret (w ++ str "clone " ++ fmt_int (cl_Version c) ++ [SP] ++ fmt_int (cl_SeqNo c) ++ [NL]).

Definition encodeCloneSeqNo (w : bytes) (SeqNo : Z) : out bytes :=
  Ret (w ++ str "clone_seqno " ++ fmt_int SeqNo ++ [NL]).

Definition encodeUVGimme (w Name : bytes) : out bytes := Ret (w ++ str "uvgimme " ++ Name ++ [NL]).

(** The loops [w.WriteByte(' '); w.WriteString(v)] over a slice. *)
Definition write_args (args : list bytes) : bytes := concat (map (λ v, SP :: v) args).

Definition encodePragma (w : bytes) (c : PragmaCard) : out bytes :=
  Ret (w ++ str "pragma " ++ pr_Name c ++ write_args (pr_Values c) ++ [NL]).

Definition encodeLogin (w : bytes) (c : LoginCard) : out bytes :=
  Ret (w ++ str "login " ++ FossilEncode (lg_User c) ++ [SP] ++ lg_Nonce c ++ [SP]
    ++ lg_Signature c ++ [NL]).

Definition encodeError (w Message : bytes) : out bytes :=
  Ret (w ++ str "error " ++ FossilEncode Message ++ [NL]).

Definition encodeMessage (w Message : bytes) : out bytes :=
  Ret (w ++ str "message " ++ FossilEncode Message ++ [NL]).

Definition encodeUVIGot (w : bytes) (c : UVIGotCard) : out bytes :=
  Ret (w ++ str "uvigot " ++ ui_Name c ++ [SP] ++ fmt_int (ui_MTime c) ++ [SP] ++ ui_Hash c
    ++ [SP] ++ fmt_int (ui_Size c) ++ [NL]).

Definition encodeUnknown (w : bytes) (c : UnknownCard) : out bytes :=
  Ret (w ++ un_Command c ++ write_args (un_Args c) ++ [NL]).

Definition encodeFile (w : bytes) (c : FileCard) : out bytes :=
  Ret (w ++ str "file " ++ f_UUID c
    ++ (if bool_decide (f_DeltaSrc c = []) then [] else SP :: f_DeltaSrc c)
    ++ [SP] ++ fmt_int (zlen (content (f_Content c))) ++ [NL] ++ content (f_Content c)).

Definition encodeCFile (w : bytes) (c : CFileCard) : out bytes :=
  let zbuf := deflate (content (cf_Content c)) in
  Ret (w ++ str "cfile " ++ cf_UUID c
    ++ (if bool_decide (cf_DeltaSrc c = []) then [] else SP :: cf_DeltaSrc c)
    ++ [SP] ++ fmt_int (zlen (content (cf_Content c))) ++ [SP] ++ fmt_int (zlen zbuf) ++ [NL]
    ++ zbuf).

Definition encodeConfig (w : bytes) (c : ConfigCard) : out bytes :=
  Ret (w ++ str "config " ++ co_Name c ++ [SP] ++ fmt_int (zlen (content (co_Content c))) ++ [NL]
    ++ content (co_Content c) ++ [NL]).

Definition encodeUVFile (w : bytes) (c : UVFileCard) : out bytes :=
  Ret (w ++ str "uvfile " ++ uf_Name c ++ [SP] ++ fmt_int (uf_MTime c) ++ [SP] ++ uf_Hash c
    ++ [SP] ++ fmt_int (uf_Size c) ++ [SP] ++ fmt_int (uf_Flags c) ++ [NL]
    ++ (if negb (uvFileOmitsContent (uf_Flags c)) then content (uf_Content c) else [])).

Definition encodeSchema (w : bytes) (c : SchemaCard) : out bytes :=
  Ret (w ++ str "schema " ++ sc_Table c ++ [SP] ++ fmt_int (sc_Version c) ++ [SP] ++ sc_Hash c
    ++ [SP] ++ fmt_int (sc_MTime c) ++ [SP] ++ fmt_int (zlen (content (sc_Content c))) ++ [NL]
    ++ content (sc_Content c) ++ [NL]).

Definition encodeXIGot (w : bytes) (c : XIGotCard) : out bytes :=
  if bool_decide (xi_Table c = []) then Panic else
  if bool_decide (xi_PKHash c = []) then Panic else
  Ret (w ++ str "xigot " ++ xi_Table c ++ [SP] ++ xi_PKHash c ++ [SP] ++ fmt_int (xi_MTime c)
    ++ [NL]).

Definition encodeXGimme (w : bytes) (c : XGimmeCard) : out bytes :=
  if bool_decide (xg_Table c = []) then Panic else
  if bool_decide (xg_PKHash c = []) then Panic else
  Ret (w ++ str "xgimme " ++ xg_Table c ++ [SP] ++ xg_PKHash c ++ [NL]).

Definition encodeXRow (w : bytes) (c : XRowCard) : out bytes :=
  if bool_decide (xr_Table c = []) then Panic else
  if bool_decide (xr_PKHash c = []) then Panic else
  Ret (w ++ str "xrow " ++ xr_Table c ++ [SP] ++ xr_PKHash c ++ [SP] ++ fmt_int (xr_MTime c)
    ++ [SP] ++ fmt_int (zlen (content (xr_Content c))) ++ [NL] ++ content (xr_Content c) ++ [NL]).

Definition encodeXDelete (w : bytes) (c : XDeleteCard) : out bytes :=
  if bool_decide (xd_Table c = []) then Panic else
  if bool_decide (xd_PKHash c = []) then Panic else
  Ret (w ++ str "xdelete " ++ xd_Table c ++ [SP] ++ xd_PKHash c ++ [SP] ++ fmt_int (xd_MTime c)
    ++ [SP] ++ fmt_int (zlen (content (xd_PKData c))) ++ [NL] ++ content (xd_PKData c) ++ [NL]).

Definition EncodeCard (w : bytes) (c : Card) : out bytes :=
  match c with
  | CardIGot v => encodeIGot w v
  | CardGimme v => encodeGimme w v
  | CardPush v => encodePush w v
  | CardPull v => encodePull w v
  | CardCookie v => encodeCookie w v
  | CardReqConfig v => encodeReqConfig w v
  | CardPrivate => encodePrivate w
  | CardClone v => encodeClone w v
  | CardCloneSeqNo v => encodeCloneSeqNo w v
  | CardUVGimme v => encodeUVGimme w v
  | CardPragma v => encodePragma w v
  | CardLogin v => encodeLogin w v
  | CardError v => encodeError w v
  | CardMessage v => encodeMessage w v
  | CardUVIGot v => encodeUVIGot w v
  | CardFile v => encodeFile w v
  | CardCFile v => encodeCFile w v
  | CardConfig v => encodeConfig w v
  | CardUVFile v => encodeUVFile w v
  | CardSchema v => encodeSchema w v
  | CardXIGot v => encodeXIGot w v
  | CardXGimme v => encodeXGimme w v
  | CardXRow v => encodeXRow w v
  | CardXDelete v => encodeXDelete w v
  | CardUnknown v => encodeUnknown w v
  end.

(** ** Decoding *)

(** [r.ReadString(delim)]: the bytes through the delimiter, the reader after
    them, and whether the input ended first. *)
Fixpoint ReadString (delim : byte) (r : bytes) : bytes * bytes * bool :=
  match r with
  | [] => ([], [], true)
  | c :: r' =>
    if bool_decide (c = delim) then ([c], r', false) else
    let '(l, rest, eof) := ReadString delim r' in (c :: l, rest, eof)
  end.

(** [readPayload]; [make] panics above [maxAlloc], [io.ReadFull] fails when the
    input is shorter than the buffer. *)
Definition readPayload (r : bytes) (size : Z) : out (bytes * bytes) :=
  if (size <? 0)%Z then Panic else
  if (size =? 0)%Z then Ret ([], r) else
  if (maxAlloc <? size)%Z then Panic else
  if (zlen r <? size)%Z then Fail EPayload else
  Ret (take (Z.to_nat size) r, drop (Z.to_nat size) r).

(** [ReadByte] and, if it is no newline, [UnreadByte]. *)
Definition readPayloadWithTrailingNewline (r : bytes) (size : Z) : out (bytes * bytes) :=
  '(buf, r) ← readPayload r size;
  match r with
  | [] => Ret (buf, r)
  | b :: r' => if negb (bool_decide (b = NL)) then Ret (buf, r) else Ret (buf, r')
  end.

(** [strconv.Atoi] and [strconv.ParseInt(s, 10, 64)] with their error wrapped. *)
Definition atoi (s : bytes) : out Z :=
  match Atoi s with Some v => Ret v | None => Fail EInteger end.
Definition parse_int (s : bytes) : out Z :=
  match ParseInt s with Some v => Ret v | None => Fail EInteger end.

Definition parseIGot (args : list bytes) : out Card :=
  match args with
  | [a] => Ret (CardIGot (MkIGot a false))
  | [a; b] => Ret (CardIGot (MkIGot a (bool_decide (b = str "1"))))
  | _ => Fail EArgs
  end.

Definition parseGimme (args : list bytes) : out Card :=
  match args with [a] => Ret (CardGimme a) | _ => Fail EArgs end.

Definition parsePush (args : list bytes) : out Card :=
  match args with
  | [a] => Ret (CardPush (MkPush [] a))
  | [a; b] => Ret (CardPush (MkPush b a))
  | _ => Fail EArgs
  end.

Definition parsePull (args : list bytes) : out Card :=
  match args with [a; b] => Ret (CardPull (MkPull b a)) | _ => Fail EArgs end.

Definition parseCookie (args : list bytes) : out Card :=
  match args with [a] => Ret (CardCookie a) | _ => Fail EArgs end.

Definition parseReqConfig (args : list bytes) : out Card :=
  match args with [a] => Ret (CardReqConfig a) | _ => Fail EArgs end.

Definition parsePrivate (args : list bytes) : out Card :=
  match args with [] => Ret CardPrivate | _ => Fail EArgs end.

Definition parseClone (args : list bytes) : out Card :=
  match args with
  | [] => Ret (CardClone (MkClone 0 0))
  | [a; b] => v ← atoi a; s ← atoi b; Ret (CardClone (MkClone v s))
  | _ => Fail EArgs
  end.

Definition parseCloneSeqNo (args : list bytes) : out Card :=
  match args with [a] => s ← atoi a; Ret (CardCloneSeqNo s) | _ => Fail EArgs end.

Definition parseUVGimme (args : list bytes) : out Card :=
  match args with [a] => Ret (CardUVGimme a) | _ => Fail EArgs end.

Definition parsePragma (args : list bytes) : out Card :=
  match args with a :: vs => Ret (CardPragma (MkPragma a vs)) | [] => Fail EArgs end.

Definition parseLogin (args : list bytes) : out Card :=
  match args with
  | [u; n; s] => Ret (CardLogin (MkLogin (FossilDecode u) n s))
  | _ => Fail EArgs
  end.

Definition parseError (args : list bytes) : out Card :=
  match args with [a] => Ret (CardError (FossilDecode a)) | _ => Fail EArgs end.

Definition parseMessage (args : list bytes) : out Card :=
  match args with [a] => Ret (CardMessage (FossilDecode a)) | _ => Fail EArgs end.

Definition parseUVIGot (args : list bytes) : out Card :=
  match args with
  | [n; m; h; s] =>
    mtime ← parse_int m; size ← atoi s; Ret (CardUVIGot (MkUVIGot n mtime h size))
  | _ => Fail EArgs
  end.

Definition parseXIGot (args : list bytes) : out Card :=
  match args with
  | [t; p; m] => mtime ← parse_int m; Ret (CardXIGot (MkXIGot t p mtime))
  | _ => Fail EArgs
  end.

Definition parseXGimme (args : list bytes) : out Card :=
  match args with [t; p] => Ret (CardXGimme (MkXGimme t p)) | _ => Fail EArgs end.

Definition parseFile (r : bytes) (args : list bytes) : out (Card * bytes) :=
  '(deltaSrc, uuid, sizeStr) ←
    match args with
    | [u; s] => Ret ([], u, s)
    | [u; d; s] => Ret (d, u, s)
    | _ => Fail EArgs
    end;
  size ← atoi sizeStr;
  '(content, r) ← readPayload r size;
  Ret (CardFile (MkFile uuid deltaSrc (Some content)), r).

(** Plain zlib first, then zlib after a four-byte size. *)
Definition decompressCFile (data : bytes) : out bytes :=
  match inflate data with
  | Some out => Ret out
  | None =>
    if 4 <? length data then
      match inflate (drop 4 data) with Some out => Ret out | None => Fail EInflate end
    else Fail EInflate
  end.

Definition parseCFile (r : bytes) (args : list bytes) : out (Card * bytes) :=
  '(deltaSrc, uuid, usizeStr, csizeStr) ←
    match args with
    | [u; us; cs] => Ret ([], u, us, cs)
    | [u; d; us; cs] => Ret (d, u, us, cs)
    | _ => Fail EArgs
    end;
  usize ← atoi usizeStr;
  csize ← atoi csizeStr;
  '(compressed, r) ← readPayload r csize;
  decompressed ← decompressCFile compressed;
  if bool_decide (deltaSrc = []) && negb (zlen decompressed =? usize)%Z then Fail EUSize else
  Ret (CardCFile (MkCFile uuid deltaSrc usize (Some decompressed)), r).

Definition parseConfig (r : bytes) (args : list bytes) : out (Card * bytes) :=
  match args with
  | [name; s] =>
    size ← atoi s;
    '(content, r) ← readPayloadWithTrailingNewline r size;
    Ret (CardConfig (MkConfig name (Some content)), r)
  | _ => Fail EArgs
  end.

Definition parseUVFile (r : bytes) (args : list bytes) : out (Card * bytes) :=
  match args with
  | [name; m; hash; s; f] =>
    mtime ← parse_int m;
    size ← atoi s;
    flags ← atoi f;
    if negb (uvFileOmitsContent flags) then
      '(content, r) ← readPayload r size;
      Ret (CardUVFile (MkUVFile name mtime hash size flags (Some content)), r)
    else Ret (CardUVFile (MkUVFile name mtime hash size flags None), r)
  | _ => Fail EArgs
  end.

(** [maxSchemaSize], [maxXDeleteSize] and [maxXRowSize], all 64 MiB. *)
Definition maxSchemaSize : Z := 64 * 2 ^ 20.
Definition maxXDeleteSize : Z := 64 * 2 ^ 20.
Definition maxXRowSize : Z := 64 * 2 ^ 20.

Definition parseSchema (r : bytes) (args : list bytes) : out (Card * bytes) :=
  match args with
  | [table; v; hash; m; s] =>
    version ← atoi v;
    mtime ← parse_int m;
    size ← atoi s;
    if ((size <? 0) || (maxSchemaSize <? size))%Z then Fail EBounds else
    '(content, r) ← readPayloadWithTrailingNewline r size;
    Ret (CardSchema (MkSchema table version hash mtime (Some content)), r)
  | _ => Fail EArgs
  end.

Definition parseXDelete (r : bytes) (args : list bytes) : out (Card * bytes) :=
  match args with
  | [table; pk; m; s] =>
    mtime ← parse_int m;
    size ← atoi s;
    if ((size <? 0) || (maxXDeleteSize <? size))%Z then Fail EBounds else
    '(pkData, r) ← readPayloadWithTrailingNewline r size;
    Ret (CardXDelete (MkXDelete table pk mtime (Some pkData)), r)
  | _ => Fail EArgs
  end.

Definition parseXRow (r : bytes) (args : list bytes) : out (Card * bytes) :=
  match args with
  | [table; pk; m; s] =>
    mtime ← parse_int m;
    size ← atoi s;
    if ((size <? 0) || (maxXRowSize <? size))%Z then Fail EBounds else
    '(content, r) ← readPayloadWithTrailingNewline r size;
    Ret (CardXRow (MkXRow table pk mtime (Some content)), r)
  | _ => Fail EArgs
  end.

(** The switch of [parseLine] on the command word.  A card without a payload
    leaves the reader where it is. *)
Definition parse_fields (r cmd : bytes) (args : list bytes) : out (Card * bytes) :=
  let plain (m : out Card) : out (Card * bytes) := c ← m; Ret (c, r) in
  if bool_decide (cmd = str "igot") then plain (parseIGot args) else
  if bool_decide (cmd = str "gimme") then plain (parseGimme args) else
  if bool_decide (cmd = str "push") then plain (parsePush args) else
  if bool_decide (cmd = str "pull") then plain (parsePull args) else
  if bool_decide (cmd = str "cookie") then plain (parseCookie args) else
  if bool_decide (cmd = str "reqconfig") then plain (parseReqConfig args) else
  if bool_decide (cmd = str "private") then plain (parsePrivate args) else
  if bool_decide (cmd = str "clone") then plain (parseClone args) else
  if bool_decide (cmd = str "clone_seqno") then plain (parseCloneSeqNo args) else
  if bool_decide (cmd = str "uvgimme") then plain (parseUVGimme args) else
  if bool_decide (cmd = str "pragma") then plain (parsePragma args) else
  if bool_decide (cmd = str "login") then plain (parseLogin args) else
  if bool_decide (cmd = str "error") then plain (parseError args) else
  if bool_decide (cmd = str "message") then plain (parseMessage args) else
  if bool_decide (cmd = str "uvigot") then plain (parseUVIGot args) else
  if bool_decide (cmd = str "file") then parseFile r args else
  if bool_decide (cmd = str "cfile") then parseCFile r args else
  if bool_decide (cmd = str "config") then parseConfig r args else
  if bool_decide (cmd = str "uvfile") then parseUVFile r args else
  if bool_decide (cmd = str "schema") then parseSchema r args else
  if bool_decide (cmd = str "xigot") then plain (parseXIGot args) else
  if bool_decide (cmd = str "xgimme") then plain (parseXGimme args) else
  if bool_decide (cmd = str "xrow") then parseXRow r args else
  if bool_decide (cmd = str "xdelete") then parseXDelete r args else
  Ret (CardUnknown (MkUnknown cmd args), r).

Definition parseLine (r line : bytes) : out (Card * bytes) :=
  match Fields line with
  | [] => Fail EEmptyLine
  | cmd :: args => parse_fields r cmd args
  end.

(** The loop of [DecodeCard]; a turn that goes round again has read a line. *)
Fixpoint decode_loop (fuel : nat) (r : bytes) : out (Card * bytes) :=
  match fuel with
  | O => NoFuel
  | S fuel =>
    let '(line, r, eof) := ReadString NL r in
    let line := TrimRight line [NL; CR] in
    if eof && bool_decide (line = []) then Fail EEOF else
    if bool_decide (line = []) || HasPrefix line (str "#") then
      if eof then Fail EEOF else decode_loop fuel r
    else parseLine r line
  end.

Definition DecodeCard (r : bytes) : out (Card * bytes) := decode_loop (S (length r)) r.

(** ** Messages *)

Definition Message := list Card.

Definition maxDecompressedBytes : Z := 50 * 1024 * 1024.

Fixpoint encode_cards (i : nat) (cs : list Card) (buf : bytes) : out bytes :=
  match cs with
  | [] => Ret buf
  | c :: cs => buf ← wrap_err (ECard i) (EncodeCard buf c); encode_cards (S i) cs buf
  end.

Definition EncodeUncompressed (m : Message) : out bytes := encode_cards 0 m [].

Definition Encode (m : Message) : out bytes :=
  raw ← EncodeUncompressed m;
  Ret (size_prefix (zlen raw) ++ deflate raw).

(** [decompressBounded]: the limit reader delivers one byte more than the cap at
    most, so a longer stream ends in the length check. *)
Definition decompressBounded (data : bytes) : option bytes :=
  match inflate data with
  | Some raw => if (maxDecompressedBytes <? zlen raw)%Z then None else Some raw
  | None => None
  end.

Fixpoint decode_cards (fuel : nat) (r : bytes) (cards : list Card) : out Message :=
  match fuel with
  | O => NoFuel
  | S fuel =>
    match DecodeCard r with
    | Ret (card, r) => decode_cards fuel r (cards ++ [card])
    | Fail EEOF => Ret cards
    | Fail e => Fail (ECard (length cards) e)
    | Panic => Panic
    | NoFuel => NoFuel
    end
  end.

Definition DecodeUncompressed (data : bytes) : out Message :=
  decode_cards (S (length data)) data [].

Definition Decode (data : bytes) : out Message :=
  if length data =? 0 then Ret [] else
  match decompressBounded data with
  | Some raw => DecodeUncompressed raw
  | None =>
    match (if 4 <=? length data then decompressBounded (drop 4 data) else None) with
    | Some raw => DecodeUncompressed raw
    | None => DecodeUncompressed data
    end
  end.

(** ** The wire grammar

    A card is a line of words, then its payload.  [card_words] gives the words
    after the command and [card_payload] what follows the line. *)

Definition opt_word (s : bytes) : list bytes := if bool_decide (s = []) then [] else [s].

Definition card_cmd (c : Card) : bytes :=
  match c with
  | CardFile _ => str "file"
  | CardCFile _ => str "cfile"
  | CardIGot _ => str "igot"
  | CardGimme _ => str "gimme"
  | CardLogin _ => str "login"
  | CardPush _ => str "push"
  | CardPull _ => str "pull"
  | CardCookie _ => str "cookie"
  | CardClone _ => str "clone"
  | CardCloneSeqNo _ => str "clone_seqno"
  | CardConfig _ => str "config"
  | CardReqConfig _ => str "reqconfig"
  | CardPrivate => str "private"
  | CardUVFile _ => str "uvfile"
  | CardUVGimme _ => str "uvgimme"
  | CardUVIGot _ => str "uvigot"
  | CardPragma _ => str "pragma"
  | CardError _ => str "error"
  | CardMessage _ => str "message"
  | CardUnknown c => un_Command c
  | CardSchema _ => str "schema"
  | CardXIGot _ => str "xigot"
  | CardXGimme _ => str "xgimme"
  | CardXRow _ => str "xrow"
  | CardXDelete _ => str "xdelete"
  end.

Definition size_word (s : slice) : bytes := fmt_int (zlen (content s)).

Definition card_words (c : Card) : list bytes :=
  match c with
  | CardFile c => f_UUID c :: opt_word (f_DeltaSrc c) ++ [size_word (f_Content c)]
  | CardCFile c =>
    cf_UUID c :: opt_word (cf_DeltaSrc c)
      ++ [size_word (cf_Content c); fmt_int (zlen (deflate (content (cf_Content c))))]
  | CardIGot c => ig_UUID c :: (if ig_IsPrivate c then [str "1"] else [])
  | CardLogin c => [FossilEncode (lg_User c); lg_Nonce c; lg_Signature c]
  | CardPush c => pu_ProjectCode c :: opt_word (pu_ServerCode c)
  | CardPull c => [pl_ProjectCode c; pl_ServerCode c]
  | CardClone c =>
    if ((cl_Version c =? 0) && (cl_SeqNo c =? 0))%Z then []
    else [fmt_int (cl_Version c); fmt_int (cl_SeqNo c)]
  | CardCloneSeqNo n => [fmt_int n]
  | CardConfig c => [co_Name c; size_word (co_Content c)]
  | CardGimme s | CardCookie s | CardReqConfig s | CardUVGimme s => [s]
  | CardPrivate => []
  | CardUVFile c =>
    [uf_Name c; fmt_int (uf_MTime c); uf_Hash c; fmt_int (uf_Size c); fmt_int (uf_Flags c)]
  | CardUVIGot c => [ui_Name c; fmt_int (ui_MTime c); ui_Hash c; fmt_int (ui_Size c)]
  | CardPragma c => pr_Name c :: pr_Values c
  | CardError s | CardMessage s => [FossilEncode s]
  | CardUnknown c => un_Args c
  | CardSchema c =>
    [sc_Table c; fmt_int (sc_Version c); sc_Hash c; fmt_int (sc_MTime c); size_word (sc_Content c)]
  | CardXIGot c => [xi_Table c; xi_PKHash c; fmt_int (xi_MTime c)]
  | CardXGimme c => [xg_Table c; xg_PKHash c]
  | CardXRow c => [xr_Table c; xr_PKHash c; fmt_int (xr_MTime c); size_word (xr_Content c)]
  | CardXDelete c => [xd_Table c; xd_PKHash c; fmt_int (xd_MTime c); size_word (xd_PKData c)]
  end.

Definition card_payload (c : Card) : bytes :=
  match c with
  | CardFile c => content (f_Content c)
  | CardCFile c => deflate (content (cf_Content c))
  | CardConfig c => content (co_Content c) ++ [NL]
  | CardUVFile c => if negb (uvFileOmitsContent (uf_Flags c)) then content (uf_Content c) else []
  | CardSchema c => content (sc_Content c) ++ [NL]
  | CardXRow c => content (xr_Content c) ++ [NL]
  | CardXDelete c => content (xd_PKData c) ++ [NL]
  | _ => []
  end.

(** The text of a line of words followed by a payload. *)
Definition line_text (cmd : bytes) (args : list bytes) (payload : bytes) : bytes :=
  cmd ++ foldr (λ a t, SP :: a ++ t) (NL :: payload) args.

Definition card_text (c : Card) : bytes := line_text (card_cmd c) (card_words c) (card_payload c).

Definition commands : list bytes :=
  [str "igot"; str "gimme"; str "push"; str "pull"; str "cookie"; str "reqconfig";
   str "private"; str "clone"; str "clone_seqno"; str "uvgimme"; str "pragma"; str "login";
   str "error"; str "message"; str "uvigot"; str "file"; str "cfile"; str "config";
   str "uvfile"; str "schema"; str "xigot"; str "xgimme"; str "xrow"; str "xdelete"].

(** A payload of at most [n] bytes. *)
Definition sized (n : Z) (s : slice) : Prop :=
  match s with Some x => (zlen x ≤ n)%Z | None => False end.

(** Field values that the reader can take apart again: the strings are single
    words (or absent, where the format allows it), integers fit the code's
    types, payloads are present exactly when the format carries one. *)
Definition wf_card (c : Card) : Prop :=
  match c with
  | CardFile c =>
    word (f_UUID c) ∧ Forall word (opt_word (f_DeltaSrc c)) ∧ sized maxAlloc (f_Content c)
  | CardCFile c =>
    word (cf_UUID c) ∧ Forall word (opt_word (cf_DeltaSrc c)) ∧ sized maxAlloc (cf_Content c) ∧
    (zlen (deflate (content (cf_Content c))) ≤ maxAlloc)%Z ∧
    cf_USize c = zlen (content (cf_Content c))
  | CardIGot c => word (ig_UUID c)
  | CardLogin c => word (FossilEncode (lg_User c)) ∧ word (lg_Nonce c) ∧ word (lg_Signature c)
  | CardPush c => word (pu_ProjectCode c) ∧ Forall word (opt_word (pu_ServerCode c))
  | CardPull c => word (pl_ProjectCode c) ∧ word (pl_ServerCode c)
  | CardClone c => int64_range (cl_Version c) ∧ int64_range (cl_SeqNo c)
  | CardCloneSeqNo n => int64_range n
  | CardConfig c => word (co_Name c) ∧ sized maxAlloc (co_Content c)
  | CardGimme s | CardCookie s | CardReqConfig s | CardUVGimme s => word s
  | CardPrivate => True
  | CardUVFile c =>
    word (uf_Name c) ∧ int64_range (uf_MTime c) ∧ word (uf_Hash c) ∧ int64_range (uf_Size c) ∧
    int64_range (uf_Flags c) ∧
    if uvFileOmitsContent (uf_Flags c) then uf_Content c = None
    else sized maxAlloc (uf_Content c) ∧ uf_Size c = zlen (content (uf_Content c))
  | CardUVIGot c =>
    word (ui_Name c) ∧ int64_range (ui_MTime c) ∧ word (ui_Hash c) ∧ int64_range (ui_Size c)
  | CardPragma c => word (pr_Name c) ∧ Forall word (pr_Values c)
  | CardError s | CardMessage s => word (FossilEncode s)
  | CardUnknown c =>
    word (un_Command c) ∧ (un_Command c ∉ commands) ∧
    HasPrefix (un_Command c) (str "#") = false ∧ Forall word (un_Args c)
  | CardSchema c =>
    word (sc_Table c) ∧ int64_range (sc_Version c) ∧ word (sc_Hash c) ∧
    int64_range (sc_MTime c) ∧ sized maxSchemaSize (sc_Content c)
  | CardXIGot c => word (xi_Table c) ∧ word (xi_PKHash c) ∧ int64_range (xi_MTime c)
  | CardXGimme c => word (xg_Table c) ∧ word (xg_PKHash c)
  | CardXRow c =>
    word (xr_Table c) ∧ word (xr_PKHash c) ∧ int64_range (xr_MTime c) ∧
    sized maxXRowSize (xr_Content c)
  | CardXDelete c =>
    word (xd_Table c) ∧ word (xd_PKHash c) ∧ int64_range (xd_MTime c) ∧
    sized maxXDeleteSize (xd_PKData c)
  end.

(** The size a payload line asks for without a check of its own. *)
Definition unchecked_size (fields : list bytes) : option Z :=
  match fields with
  | [] => None
  | cmd :: args =>
    if bool_decide (cmd = str "file") then
      match args with [_; s] | [_; _; s] => Atoi s | _ => None end
    else if bool_decide (cmd = str "cfile") then
      match args with
      | [_; us; cs] | [_; _; us; cs] => match Atoi us with Some _ => Atoi cs | None => None end
      | _ => None
      end
    else if bool_decide (cmd = str "config") then
      match args with [_; s] => Atoi s | _ => None end
    else if bool_decide (cmd = str "uvfile") then
      match args with
      | [_; m; _; s; f] =>
        match ParseInt m, Atoi s, Atoi f with
        | Some _, Some size, Some flags => if uvFileOmitsContent flags then None else Some size
        | _, _, _ => None
        end
      | _ => None
      end
    else None
  end.

(** ** Lines of words *)

Lemma line_text_Join cmd args p : line_text cmd args p = Join (cmd :: args) [SP] ++ NL :: p.
Proof.
  unfold line_text. revert cmd. induction args as [|a args IH]; intros cmd; [done|].
  rewrite Join_cons2. cbn [foldr]. rewrite (IH a). by rewrite <- !app_assoc.
Qed.

Lemma line_text_app cmd args p rest : line_text cmd args p ++ rest = line_text cmd args (p ++ rest).
Proof. rewrite !line_text_Join. by rewrite <- app_assoc. Qed.

Lemma ReadString_line l rest :
  NL ∉ l → ReadString NL (l ++ NL :: rest) = (l ++ [NL], rest, false).
Proof.
  induction l as [|c l IH]; intros Hl; cbn [app ReadString].
  - by rewrite bool_decide_true.
  - apply not_elem_of_cons in Hl as [Hc Hl]. rewrite bool_decide_false by done.
    by rewrite IH.
Qed.

Lemma TrimRight_line l : NL ∉ l → CR ∉ l → TrimRight (l ++ [NL]) [NL; CR] = l.
Proof.
  intros H1 H2. unfold TrimRight. rewrite rev_unit. cbn [trim_cut_rev].
  rewrite bool_decide_true by (by left).
  rewrite <- (rev_involutive l) at 2. f_equal.
  assert (∀ c, c ∈ rev l → (c ∉ [NL; CR])) as Hc.
  { intros c Hc. apply list_elem_of_In, in_rev, list_elem_of_In in Hc.
    intros [->|[->|[]%elem_of_nil]%elem_of_cons]%elem_of_cons; done. }
  destruct (rev l) as [|c l']; [done|]. cbn [trim_cut_rev].
  rewrite bool_decide_false; [done|]. apply Hc. by left.
Qed.

(** Reading a line of words is the switch on its first word. *)
Lemma DecodeCard_line cmd args rest :
  word cmd → HasPrefix cmd (str "#") = false → Forall word args →
  DecodeCard (line_text cmd args rest) = parse_fields rest cmd args.
Proof.
  intros Hcmd Hh Hargs. unfold DecodeCard. rewrite line_text_Join.
  assert (Forall word (cmd :: args)) as Hws by by constructor.
  assert (NL ∉ Join (cmd :: args) [SP]) as HNL.
  { apply Join_no_byte; [|by apply not_elem_of_cons; split; [|apply not_elem_of_nil]].
    eapply Forall_impl; [|exact Hws]. intros w [_ ?]. by apply word_no_NL. }
  assert (CR ∉ Join (cmd :: args) [SP]) as HCR.
  { apply Join_no_byte; [|by apply not_elem_of_cons; split; [|apply not_elem_of_nil]].
    eapply Forall_impl; [|exact Hws]. intros w [_ ?]. by apply word_no_CR. }
  cbn [decode_loop]. rewrite ReadString_line, TrimRight_line by done. cbn [andb].
  destruct Hcmd as [Hne Hsp]. destruct cmd as [|b cmd]; [done|].
  assert (∃ t, Join ((b :: cmd) :: args) [SP] = b :: t) as [t Ht].
  { destruct args; [by eexists|]. rewrite Join_cons2. by eexists. }
  rewrite bool_decide_false by (by rewrite Ht).
  assert (HasPrefix (Join ((b :: cmd) :: args) [SP]) (str "#") = false) as ->.
  { rewrite Ht. revert Hh. cbn. destruct (bool_decide _), t, cmd; done. }
  cbn [orb]. unfold parseLine. by rewrite Fields_Join.
Qed.

(** ** Encoding is the wire grammar *)

Lemma write_args_text args p : write_args args ++ NL :: p = foldr (λ a t, SP :: a ++ t) (NL :: p) args.
Proof.
  unfold write_args. induction args as [|a args IH]; [done|]. cbn.
  rewrite <- IH. by rewrite <- app_assoc.
Qed.

Lemma word_nonempty w : word w → bool_decide (w = []) = false.
Proof. intros [? _]. by apply bool_decide_false. Qed.

Lemma EncodeCard_text w c : wf_card c → EncodeCard w c = Ret (w ++ card_text c).
Proof.
  destruct c as [c|c|c|s|c|c|c|s|c|n|c|s| |c|s|c|c|s|s|c|c|c|c|c|c];
    intros Hwf; try reflexivity; cbn in Hwf.
  - cbn. unfold encodeFile, card_text, line_text. cbn. unfold opt_word.
    case_bool_decide; reflexivity.
  - cbn. unfold encodeCFile, card_text, line_text. cbn. unfold opt_word.
    case_bool_decide; reflexivity.
  - cbn. unfold encodeIGot, card_text, line_text. cbn. destruct (ig_IsPrivate c); reflexivity.
  - cbn. unfold encodePush, card_text, line_text. cbn. unfold opt_word.
    rewrite word_nonempty by apply Hwf. case_bool_decide; reflexivity.
  - cbn. unfold encodePull. rewrite !word_nonempty by apply Hwf. reflexivity.
  - cbn. unfold encodeClone, card_text, line_text. cbn. destruct (_ && _); reflexivity.
  - cbn. unfold encodePragma, card_text, line_text. cbn. by rewrite <- write_args_text.
  - cbn. unfold encodeUnknown, card_text, line_text. cbn. by rewrite <- write_args_text.
  - cbn. unfold encodeXIGot. rewrite !word_nonempty by apply Hwf. reflexivity.
  - cbn. unfold encodeXGimme. rewrite !word_nonempty by apply Hwf. reflexivity.
  - cbn. unfold encodeXRow. rewrite !word_nonempty by apply Hwf. reflexivity.
  - cbn. unfold encodeXDelete. rewrite !word_nonempty by apply Hwf. reflexivity.
Qed.

(** ** Reading back *)

Lemma readPayload_app x rest :
  (zlen x ≤ maxAlloc)%Z → readPayload (x ++ rest) (zlen x) = Ret (x, rest).
Proof.
  intros Hx. unfold readPayload. pose proof (zlen_nonneg x).
  destruct (Z.ltb_spec (zlen x) 0); [lia|].
  destruct (Z.eqb_spec (zlen x) 0) as [Hz|_].
  { destruct x; [done|]. unfold zlen in Hz. cbn in Hz. lia. }
  destruct (Z.ltb_spec maxAlloc (zlen x)); [lia|].
  destruct (Z.ltb_spec (zlen (x ++ rest)) (zlen x)) as [Hlt|_].
  { rewrite zlen_app in Hlt. pose proof (zlen_nonneg rest). lia. }
  unfold zlen. rewrite Nat2Z.id. by rewrite take_app_length, drop_app_length.
Qed.

Lemma readPayloadNL_app x rest :
  (zlen x ≤ maxAlloc)%Z →
  readPayloadWithTrailingNewline ((x ++ [NL]) ++ rest) (zlen x) = Ret (x, rest).
Proof.
  intros Hx. unfold readPayloadWithTrailingNewline. rewrite <- app_assoc.
  rewrite readPayload_app by done. reflexivity.
Qed.

Lemma atoi_fmt_int v : int64_range v → atoi (fmt_int v) = Ret v.
Proof. intros Hv. unfold atoi, Atoi. by rewrite ParseInt_fmt_int. Qed.

Lemma parse_int_fmt_int v : int64_range v → parse_int (fmt_int v) = Ret v.
Proof. intros Hv. unfold parse_int. by rewrite ParseInt_fmt_int. Qed.

Lemma sized_inv n s : sized n s → ∃ x, s = Some x ∧ (zlen x ≤ n)%Z.
Proof. destruct s; [|done]. eauto. Qed.

Lemma small_alloc n : (n ≤ 64 * 2 ^ 20 → n ≤ maxAlloc)%Z.
Proof. unfold maxAlloc. lia. Qed.

Lemma unknown_fields r cmd args :
  cmd ∉ commands → parse_fields r cmd args = Ret (CardUnknown (MkUnknown cmd args), r).
Proof.
  intros Hc. unfold parse_fields.
  repeat (rewrite bool_decide_false; [|intros ->; apply Hc; refine (bool_decide_unpack _ _); vm_compute; exact I]).
  done.
Qed.

(** The switch of [parse_fields] on the command of a known card. *)
Lemma parse_known c r args :
  parse_fields r (card_cmd c) args =
  let plain (m : out Card) : out (Card * bytes) := c ← m; Ret (c, r) in
  match c with
  | CardIGot _ => plain (parseIGot args)
  | CardGimme _ => plain (parseGimme args)
  | CardPush _ => plain (parsePush args)
  | CardPull _ => plain (parsePull args)
  | CardCookie _ => plain (parseCookie args)
  | CardReqConfig _ => plain (parseReqConfig args)
  | CardPrivate => plain (parsePrivate args)
  | CardClone _ => plain (parseClone args)
  | CardCloneSeqNo _ => plain (parseCloneSeqNo args)
  | CardUVGimme _ => plain (parseUVGimme args)
  | CardPragma _ => plain (parsePragma args)
  | CardLogin _ => plain (parseLogin args)
  | CardError _ => plain (parseError args)
  | CardMessage _ => plain (parseMessage args)
  | CardUVIGot _ => plain (parseUVIGot args)
  | CardFile _ => parseFile r args
  | CardCFile _ => parseCFile r args
  | CardConfig _ => parseConfig r args
  | CardUVFile _ => parseUVFile r args
  | CardSchema _ => parseSchema r args
  | CardXIGot _ => plain (parseXIGot args)
  | CardXGimme _ => plain (parseXGimme args)
  | CardXRow _ => parseXRow r args
  | CardXDelete _ => parseXDelete r args
  | CardUnknown c => parse_fields r (un_Command c) args
  end.
Proof. destruct c; reflexivity. Qed.

Context {laws : ZlibLaws}.

Lemma decompress_deflate x : decompressCFile (deflate x) = Ret x.
Proof. unfold decompressCFile. by rewrite inflate_deflate. Qed.

Lemma bound_sized n x s : sized n s → s = Some x → (n ≤ maxAlloc)%Z → (zlen x ≤ maxAlloc)%Z.
Proof. intros Hs -> Hn. cbn in Hs. lia. Qed.

Lemma small_int64 {A} (x : list A) : (zlen x ≤ 64 * 2 ^ 20)%Z → int64_range (zlen x).
Proof. intros Hx. by apply zlen_int64, small_alloc. Qed.

Lemma in_bounds {A} (x : list A) n : (zlen x ≤ n)%Z → ((zlen x <? 0) || (n <? zlen x))%Z = false.
Proof. pose proof (zlen_nonneg x). intros Hx. lia. Qed.

(** Takes a well-formedness hypothesis apart; reads the integers of a line. *)
Ltac read_back :=
  repeat match goal with
  | H : _ ∧ _ |- _ => destruct H
  | H : sized _ ?s |- _ => apply sized_inv in H as (? & ? & ?); simplify_eq/=
  end.
Ltac read_ints :=
  repeat (first [rewrite atoi_fmt_int|rewrite parse_int_fmt_int];
    [cbn [mbind outcome_bind]|first [done|by apply zlen_int64|by apply small_int64]]).

Lemma parse_back c rest :
  wf_card c → parse_fields (card_payload c ++ rest) (card_cmd c) (card_words c) = Ret (c, rest).
Proof.
  intros Hwf. rewrite parse_known. cbn zeta. revert Hwf.
  destruct c as [c|c|c|s|c|c|c|s|c|n|c|s| |c|s|c|c|s|s|c|c|c|c|c|c]; intros Hwf;
    try reflexivity; try destruct c; try reflexivity; cbn in Hwf; read_back;
    cbn [card_payload card_words card_cmd]; cbn -[Z.mul Z.pow orb]; unfold size_word.
  - unfold parseFile, opt_word. case_bool_decide; subst; cbn; read_ints;
      by rewrite readPayload_app.
  - unfold parseCFile, opt_word. case_bool_decide; subst; cbn; read_ints;
      rewrite readPayload_app by done; cbn; rewrite decompress_deflate; cbn.
    + by rewrite Z.eqb_refl.
    + by rewrite bool_decide_false.
  - by destruct ig_IsPrivate0.
  - by rewrite decode_encode.
  - unfold opt_word. by case_bool_decide; subst.
  - destruct (Z.eqb_spec cl_Version0 0), (Z.eqb_spec cl_SeqNo0 0); subst; cbn; read_ints; done.
  - by read_ints.
  - read_ints. by rewrite readPayloadNL_app.
  - read_ints. destruct (uvFileOmitsContent uf_Flags0); cbn; subst; [done|].
    read_back. by rewrite readPayload_app.
  - by read_ints.
  - by rewrite decode_encode.
  - by rewrite decode_encode.
  - by rewrite unknown_fields.
  - cbn [content default]. read_ints. rewrite in_bounds by done. rewrite readPayloadNL_app by (by apply small_alloc). done.
  - by read_ints.
  - cbn [content default]. read_ints. rewrite in_bounds by done. rewrite readPayloadNL_app by (by apply small_alloc). done.
  - cbn [content default]. read_ints. rewrite in_bounds by done. rewrite readPayloadNL_app by (by apply small_alloc). done.
Qed.

Lemma fmt_word v : int64_range v → word (fmt_int v).
Proof. apply fmt_int_word. Qed.

Lemma card_words_ok c : wf_card c → word (card_cmd c) ∧ Forall word (card_words c).
Proof.
  assert (∀ s : string, bool_decide (word (str s)) = true → word (str s)) as Hs
    by (intros s; apply bool_decide_eq_true).
  destruct c as [c|c|c|s|c|c|c|s|c|n|c|s| |c|s|c|c|s|s|c|c|c|c|c|c]; intros Hwf;
    try (split; [apply Hs; reflexivity|]); try destruct c; cbn in Hwf; read_back;
    unfold size_word; cbn [card_words card_cmd];
    repeat first
      [ done | apply list.Forall_nil_2 | apply list.Forall_cons_2 | apply Forall_app_2
      | by apply fmt_word | apply fmt_word, zlen_int64; done | apply fmt_word, small_int64; done ].
  - destruct ig_IsPrivate0; [|done]. apply list.Forall_singleton. by apply Hs.
  - cbn [cl_Version cl_SeqNo]. destruct (_ && _); [done|].
    by repeat first [apply list.Forall_nil_2|apply list.Forall_cons_2|apply fmt_word].
Qed.

Lemma card_cmd_head c : wf_card c → HasPrefix (card_cmd c) (str "#") = false.
Proof. destruct c; try reflexivity. cbn. tauto. Qed.

Lemma DecodeCard_text c rest : wf_card c → DecodeCard (card_text c ++ rest) = Ret (c, rest).
Proof.
  intros Hwf. unfold card_text. rewrite line_text_app.
  destruct (card_words_ok c Hwf). rewrite DecodeCard_line by (done || by apply card_cmd_head).
  by apply parse_back.
Qed.

(** ** Messages *)

Definition message_text (m : Message) : bytes := concat (map card_text m).

Lemma encode_cards_text i m buf :
  Forall wf_card m → encode_cards i m buf = Ret (buf ++ message_text m).
Proof.
  intros Hm. revert i buf. induction Hm as [|c m Hc _ IH]; intros i buf; cbn.
  { by rewrite app_nil_r. }
  rewrite EncodeCard_text by done. cbn. rewrite IH. by rewrite <- app_assoc.
Qed.

Lemma card_text_nonempty c : card_text c ≠ [].
Proof.
  unfold card_text, line_text. intros [_ Hf]%app_eq_nil. by destruct (card_words c).
Qed.

Lemma decode_cards_text fuel m cards :
  Forall wf_card m → length (message_text m) < fuel →
  decode_cards fuel (message_text m) cards = Ret (cards ++ m).
Proof.
  intros Hm. revert fuel cards. induction Hm as [|c m Hc _ IH]; intros fuel cards Hf.
  { destruct fuel as [|fuel]; [cbn in Hf; lia|]. cbn. by rewrite app_nil_r. }
  destruct fuel as [|fuel]; [lia|]. cbn [decode_cards].
  change (message_text (c :: m)) with (card_text c ++ message_text m) in *.
  rewrite DecodeCard_text by done. rewrite length_app in Hf.
  pose proof (card_text_nonempty c). destruct (card_text c); [done|].
  cbn in Hf. rewrite IH by lia. by rewrite <- app_assoc.
Qed.

Lemma DecodeUncompressed_text m :
  Forall wf_card m → DecodeUncompressed (message_text m) = Ret m.
Proof. intros Hm. unfold DecodeUncompressed. by rewrite decode_cards_text by (done || lia). Qed.

Lemma inflate_no_header d : zlib_header d = false → inflate d = None.
Proof.
  intros Hd. destruct (inflate d) eqn:E; [|done]. apply inflate_header in E. congruence.
Qed.

Lemma no_header_low b d : (bval b mod 16 ≠ 8)%Z → zlib_header (b :: d) = false.
Proof.
  intros Hb. unfold zlib_header. destruct d; [done|].
  destruct (Z.eqb_spec (bval b mod 16) 8); [done|]. done.
Qed.

Lemma decompressBounded_no_header d : zlib_header d = false → decompressBounded d = None.
Proof. intros Hd. unfold decompressBounded. by rewrite inflate_no_header. Qed.

(** The size of a message the decoder takes does not look like a zlib header. *)
Lemma size_prefix_no_header n d :
  (0 ≤ n ≤ maxDecompressedBytes)%Z → zlib_header (size_prefix n ++ d) = false.
Proof.
  unfold maxDecompressedBytes. intros Hn. apply no_header_low.
  rewrite bval_byte_of. unfold u32. rewrite Z.shiftr_div_pow2 by lia.
  Z.to_euclidean_division_equations; lia.
Qed.

(** No text of a known card looks like a zlib stream, nor does it after four
    bytes. *)
Lemma known_no_header c rest :
  (∀ u, c ≠ CardUnknown u) →
  zlib_header (card_text c ++ rest) = false ∧ zlib_header (drop 4 (card_text c ++ rest)) = false.
Proof.
  intros Hc. unfold card_text. rewrite line_text_app. unfold line_text.
  assert (∃ b t', foldr (λ a t, SP :: a ++ t) (NL :: card_payload c ++ rest) (card_words c)
    = b :: t' ∧ (b = SP ∨ b = NL)) as (b & t' & -> & Hb).
  { destruct (card_words c); cbn; eauto. }
  destruct c; try (by destruct (Hc c)); cbn [card_cmd]; cbn; split;
    try first [reflexivity|by apply no_header_low].
  all: destruct Hb as [-> | ->]; by apply no_header_low.
Qed.

(** ** Progress of the reader *)

(** The call leaves a reader no longer than [n] and does not run out of fuel. *)
Definition reads (n : nat) {A} (m : out (A * bytes)) : Prop :=
  match m with Ret (_, r') => length r' ≤ n | NoFuel => False | Fail _ | Panic => True end.

Lemma reads_bind {A B} n (m : out A) (f : A → out (B * bytes)) :
  m ≠ NoFuel → (∀ a, m = Ret a → reads n (f a)) → reads n (m ≫= f).
Proof. destruct m; cbn; naive_solver. Qed.

Lemma reads_payload r size : reads (length r) (readPayload r size).
Proof.
  unfold readPayload. repeat case_match; cbn; try done. rewrite length_drop. lia.
Qed.

Lemma reads_payloadNL r size : reads (length r) (readPayloadWithTrailingNewline r size).
Proof.
  unfold readPayloadWithTrailingNewline. pose proof (reads_payload r size) as Hr.
  destruct (readPayload r size) as [[buf r']|e| |]; cbn in *; try done.
  destruct r'; cbn in *; [lia|]. case_match; cbn; lia.
Qed.

Lemma atoi_fuel s : atoi s ≠ NoFuel.
Proof. unfold atoi. by destruct (Atoi s). Qed.
Lemma parse_int_fuel s : parse_int s ≠ NoFuel.
Proof. unfold parse_int. by destruct (ParseInt s). Qed.
Lemma decompressCFile_fuel d : decompressCFile d ≠ NoFuel.
Proof. unfold decompressCFile. by repeat case_match. Qed.
Lemma decompressCFile_panic d : decompressCFile d ≠ Panic.
Proof. unfold decompressCFile. by repeat case_match. Qed.

(** A card without payload, put back with the reader it left alone. *)
Lemma reads_plain r (m : out Card) : m ≠ NoFuel → reads (length r) (c ← m; Ret (c, r)).
Proof. by destruct m; cbn. Qed.

Lemma reads_then n {A} (m : out (A * bytes)) (f : A → Card) :
  reads n m → reads n ('(x, r) ← m; Ret (f x, r)).
Proof. by destruct m as [[]| | |]. Qed.

Ltac reads_ints :=
  repeat (apply reads_bind; [first [apply atoi_fuel|apply parse_int_fuel]|intros ? _]).

(** One card of each known kind. *)
Definition blank_cards : list Card :=
  [CardIGot (MkIGot [] false); CardGimme []; CardPush (MkPush [] []); CardPull (MkPull [] []);
   CardCookie []; CardReqConfig []; CardPrivate; CardClone (MkClone 0 0); CardCloneSeqNo 0;
   CardUVGimme []; CardPragma (MkPragma [] []); CardLogin (MkLogin [] [] []); CardError [];
   CardMessage []; CardUVIGot (MkUVIGot [] 0 [] 0); CardFile (MkFile [] [] None);
   CardCFile (MkCFile [] [] 0 None); CardConfig (MkConfig [] None);
   CardUVFile (MkUVFile [] 0 [] 0 0 None); CardSchema (MkSchema [] 0 [] 0 None);
   CardXIGot (MkXIGot [] [] 0); CardXGimme (MkXGimme [] []); CardXRow (MkXRow [] [] 0 None);
   CardXDelete (MkXDelete [] [] 0 None)].

(** Every command word is that of a known card. *)
Lemma commands_card cmd :
  cmd ∈ commands → ∃ c, cmd = card_cmd c ∧ ∀ u, c ≠ CardUnknown u.
Proof.
  change commands with (card_cmd <$> blank_cards). intros Hin.
  apply list_elem_of_fmap in Hin as (c & -> & Hc).
  exists c. split; [done|]. intros u ->.
  repeat (apply elem_of_cons in Hc as [[=]|Hc]). by apply elem_of_nil in Hc.
Qed.

(** The parsers of cards without a payload neither panic nor loop. *)
Ltac plain_parser :=
  repeat match goal with
  | |- context [match ?l with [] => _ | _ :: _ => _ end] => destruct l
  end;
  unfold atoi, parse_int; cbn; repeat (case_match; cbn); done.

Lemma plain_parsers args :
  Forall safe [parseIGot args; parseGimme args; parsePush args; parsePull args;
    parseCookie args; parseReqConfig args; parsePrivate args; parseClone args;
    parseCloneSeqNo args; parseUVGimme args; parsePragma args; parseLogin args;
    parseError args; parseMessage args; parseUVIGot args; parseXIGot args; parseXGimme args].
Proof.
  unfold parseIGot, parseGimme, parsePush, parsePull, parseCookie, parseReqConfig, parsePrivate,
    parseClone, parseCloneSeqNo, parseUVGimme, parsePragma, parseLogin, parseError, parseMessage,
    parseUVIGot, parseXIGot, parseXGimme.
  repeat (apply list.Forall_cons_2; [plain_parser|]). apply list.Forall_nil_2.
Qed.

Lemma plain_safe m args :
  m ∈ [parseIGot args; parseGimme args; parsePush args; parsePull args;
    parseCookie args; parseReqConfig args; parsePrivate args; parseClone args;
    parseCloneSeqNo args; parseUVGimme args; parsePragma args; parseLogin args;
    parseError args; parseMessage args; parseUVIGot args; parseXIGot args; parseXGimme args] →
  m ≠ NoFuel ∧ m ≠ Panic.
Proof.
  intros Hm. pose proof (plain_parsers args) as Hs. rewrite list.Forall_forall in Hs.
  specialize (Hs m Hm). by destruct m.
Qed.

Ltac plain_safe :=
  refine (proj1 (plain_safe _ _ _)) || refine (proj2 (plain_safe _ _ _));
  repeat first [left; reflexivity|right].

Lemma reads_fields r cmd args : reads (length r) (parse_fields r cmd args).
Proof.
  destruct (decide (cmd ∈ commands)) as [Hin|Hout]; [|rewrite unknown_fields by done; cbn; lia].
  apply commands_card in Hin as (c & -> & Hc). rewrite parse_known.
  cbn zeta. destruct c; try (by destruct (Hc c)); try (by apply reads_plain; plain_safe).
  - unfold parseFile. apply reads_bind; [by repeat case_match|]. intros [[d u] s] _.
    reads_ints. apply (reads_then _ _ (λ x, CardFile (MkFile u d (Some x)))), reads_payload.
  - unfold parseCFile. apply reads_bind; [by repeat case_match|]. intros [[[d u] us] cs] _.
    reads_ints. pose proof (reads_payload r a0) as Hr.
    destruct (readPayload r a0) as [[x r']|e| |]; cbn in *; try done.
    apply reads_bind; [apply decompressCFile_fuel|]. intros y _. by case_match.
  - unfold parseConfig. repeat case_match; try done. reads_ints.
    apply (reads_then _ _ (λ x, CardConfig (MkConfig _ (Some x)))), reads_payloadNL.
  - unfold parseUVFile. repeat case_match; try done. reads_ints.
    case_match; [|cbn; lia].
    apply (reads_then _ _ (λ x, CardUVFile (MkUVFile _ _ _ _ _ (Some x)))), reads_payload.
  - unfold parseSchema. repeat case_match; try done. reads_ints. case_match; [done|].
    apply (reads_then _ _ (λ x, CardSchema (MkSchema _ _ _ _ (Some x)))), reads_payloadNL.
  - unfold parseXRow. repeat case_match; try done. reads_ints. case_match; [done|].
    apply (reads_then _ _ (λ x, CardXRow (MkXRow _ _ _ (Some x)))), reads_payloadNL.
  - unfold parseXDelete. repeat case_match; try done. reads_ints. case_match; [done|].
    apply (reads_then _ _ (λ x, CardXDelete (MkXDelete _ _ _ (Some x)))), reads_payloadNL.
Qed.

Lemma ReadString_length r l rest eof :
  ReadString NL r = (l, rest, eof) →
  length rest ≤ length r ∧ (r ≠ [] → length rest < length r) ∧ (r = [] → l = [] ∧ eof = true).
Proof.
  revert l rest eof. induction r as [|c r IH]; intros l rest eof; cbn [ReadString].
  { intros [= <- <- <-]. done. }
  case_bool_decide; [intros [= <- <- <-]; cbn; split_and!; [lia|lia|done]|].
  destruct (ReadString NL r) as [[l' rest'] eof']. intros [= <- <- <-].
  destruct (IH _ _ _ eq_refl) as (H1 & H2 & H3). cbn. split_and!; [lia|lia|done].
Qed.

(** [DecodeCard] consumes at least a byte for every card it returns. *)
Lemma decode_loop_reads fuel r :
  length r < fuel →
  match decode_loop fuel r with
  | Ret (_, r') => length r' < length r
  | NoFuel => False
  | Fail _ | Panic => True
  end.
Proof.
  revert r. induction fuel as [|fuel IH]; intros r Hf; [lia|]. cbn [decode_loop].
  destruct (ReadString NL r) as [[l rest] eof] eqn:E.
  apply ReadString_length in E as (H1 & H2 & H3).
  destruct (decide (r = [])) as [->|Hr].
  { destruct H3 as [-> ->]; [done|]. done. }
  specialize (H2 Hr). destruct (eof && _); [done|].
  destruct (_ || _).
  - destruct eof; [done|]. specialize (IH rest ltac:(lia)).
    destruct (decode_loop fuel rest) as [[]| | |]; try done. lia.
  - unfold parseLine. destruct (Fields _) as [|cmd args]; [done|].
    pose proof (reads_fields rest cmd args) as Hp. unfold reads in Hp.
    destruct (parse_fields rest cmd args) as [[]| | |]; try done. lia.
Qed.

Lemma decode_cards_fuel fuel r cards : length r < fuel → decode_cards fuel r cards ≠ NoFuel.
Proof.
  revert r cards. induction fuel as [|fuel IH]; intros r cards Hf; [lia|]. cbn [decode_cards].
  pose proof (decode_loop_reads (S (length r)) r ltac:(lia)) as Hd. fold (DecodeCard r) in Hd.
  destruct (DecodeCard r) as [[c r']|e| |]; [|by destruct e|done|done]. apply IH. lia.
Qed.

Lemma DecodeUncompressed_fuel data : DecodeUncompressed data ≠ NoFuel.
Proof. apply decode_cards_fuel. lia. Qed.

(** ** Panics *)

Lemma readPayload_panic r n : readPayload r n = Panic ↔ (n < 0 ∨ maxAlloc < n)%Z.
Proof.
  unfold readPayload.
  destruct (Z.ltb_spec n 0); [split; [lia|done]|].
  destruct (Z.eqb_spec n 0); [split; [done|unfold maxAlloc; lia]|].
  destruct (Z.ltb_spec maxAlloc n); [split; [lia|done]|].
  case_match; (split; [done|lia]).
Qed.

Lemma readPayloadNL_panic r n :
  readPayloadWithTrailingNewline r n = Panic ↔ (n < 0 ∨ maxAlloc < n)%Z.
Proof.
  rewrite <- (readPayload_panic r n). unfold readPayloadWithTrailingNewline.
  destruct (readPayload r n) as [[buf r']| | |]; cbn; [|done..].
  destruct r'; [done|]. by case_match.
Qed.

Lemma bounded_payload_panic r n m (f : bytes → Card) :
  m = (64 * 2 ^ 20)%Z →
  (if ((n <? 0) || (m <? n))%Z then Fail EBounds else
    '(x, r) ← readPayloadWithTrailingNewline r n; Ret (f x, r)) ≠ Panic.
Proof.
  intros -> . destruct ((n <? 0) || _)%Z eqn:E; [done|].
  pose proof (readPayloadNL_panic r n) as Hp.
  destruct (readPayloadWithTrailingNewline r n) as [[]| | |]; cbn; try done.
  assert (n < 0 ∨ maxAlloc < n)%Z by (by apply Hp). unfold maxAlloc in *. lia.
Qed.

(** The size a line asks for is bad: negative, or more than can be allocated. *)
Definition bad_size (size : option Z) : Prop :=
  match size with Some n => (n < 0 ∨ maxAlloc < n)%Z | None => False end.

Lemma payload_then_panic r n (f : bytes → Card) :
  ('(x, r) ← readPayload r n; Ret (f x, r)) = Panic ↔ bad_size (Some n).
Proof. cbn [bad_size]. rewrite <- (readPayload_panic r n). by destruct (readPayload r n) as [[]| | |]. Qed.

Lemma payloadNL_then_panic r n (f : bytes → Card) :
  ('(x, r) ← readPayloadWithTrailingNewline r n; Ret (f x, r)) = Panic ↔ bad_size (Some n).
Proof.
  cbn [bad_size]. rewrite <- (readPayloadNL_panic r n).
  by destruct (readPayloadWithTrailingNewline r n) as [[]| | |].
Qed.

Lemma plain_then_panic (m : out Card) (r : bytes) : m ≠ Panic → (c ← m; Ret (c, r)) = Panic ↔ False.
Proof. by destruct m. Qed.

(** Splits the integers of a line: those that do not parse end the call. *)
Ltac split_ints :=
  unfold atoi, parse_int, Atoi in *;
  repeat match goal with
  | |- context [ParseInt ?s] => destruct (ParseInt s); cbn; try (by split)
  end.

Lemma unchecked_known c args :
  (∀ u, c ≠ CardUnknown u) →
  unchecked_size (card_cmd c :: args) =
  match c with
  | CardFile _ => match args with [_; s] | [_; _; s] => Atoi s | _ => None end
  | CardCFile _ =>
    match args with
    | [_; us; cs] | [_; _; us; cs] => match Atoi us with Some _ => Atoi cs | None => None end
    | _ => None
    end
  | CardConfig _ => match args with [_; s] => Atoi s | _ => None end
  | CardUVFile _ =>
    match args with
    | [_; m; _; s; f] =>
      match ParseInt m, Atoi s, Atoi f with
      | Some _, Some size, Some flags => if uvFileOmitsContent flags then None else Some size
      | _, _, _ => None
      end
    | _ => None
    end
  | _ => None
  end.
Proof. intros Hc. destruct c; try reflexivity. by destruct (Hc c). Qed.

Lemma fields_panic r cmd args :
  parse_fields r cmd args = Panic ↔ bad_size (unchecked_size (cmd :: args)).
Proof.
  destruct (decide (cmd ∈ commands)) as [Hin|Hout].
  2: { rewrite unknown_fields by done. unfold unchecked_size.
    repeat (rewrite bool_decide_false; [|intros ->; apply Hout; refine (bool_decide_unpack _ _); vm_compute; exact I]).
    done. }
  apply commands_card in Hin as (c & -> & Hc). rewrite parse_known, unchecked_known by done.
  cbn zeta.
  destruct c; try (by destruct (Hc c)); try (by rewrite plain_then_panic by plain_safe).
  - unfold parseFile. destruct args as [|u [|d [|s []]]]; cbn -[bad_size]; try done; split_ints;
      apply (payload_then_panic _ _ (λ x, CardFile (MkFile _ _ (Some x)))).
  - unfold parseCFile. destruct args as [|u [|d [|us [|cs []]]]]; cbn -[bad_size]; try done; split_ints.
    all: cbn [bad_size]; rewrite <- (readPayload_panic r z);
      destruct (readPayload r _) as [[x r']| | |]; cbn; try done;
      pose proof (decompressCFile_panic x); destruct (decompressCFile x); cbn; try done;
      by case_match.
  - unfold parseConfig. destruct args as [|u [|d []]]; cbn -[bad_size]; try done; split_ints.
    apply (payloadNL_then_panic _ _ (λ x, CardConfig (MkConfig _ (Some x)))).
  - unfold parseUVFile. destruct args as [|u [|d [|us [|cs [|f []]]]]]; cbn -[bad_size]; try done.
    split_ints. destruct (uvFileOmitsContent _); cbn -[bad_size]; [done|].
    apply (payload_then_panic _ _ (λ x, CardUVFile (MkUVFile _ _ _ _ _ (Some x)))).
  - unfold parseSchema. repeat case_match; try done. split_ints.
    split; [|done]. by intros ?%(bounded_payload_panic _ _ _ (λ x, CardSchema (MkSchema _ _ _ _ (Some x)))).
  - unfold parseXRow. repeat case_match; try done. split_ints.
    split; [|done]. by intros ?%(bounded_payload_panic _ _ _ (λ x, CardXRow (MkXRow _ _ _ (Some x)))).
  - unfold parseXDelete. repeat case_match; try done. split_ints.
    split; [|done]. by intros ?%(bounded_payload_panic _ _ _ (λ x, CardXDelete (MkXDelete _ _ _ (Some x)))).
Qed.

(** ** Properties *)

(** C8. Cards round-trip through the wire format: a card with well-formed fields
    is encoded without error or panic, and reading its text gives the card back
    and leaves the reader exactly behind it, whatever follows. *)
Theorem DecodeCard_EncodeCard w c rest :
  wf_card c →
  ∃ t, EncodeCard w c = Ret (w ++ t) ∧ DecodeCard (t ++ rest) = Ret (c, rest).
Proof.
  intros Hwf. exists (card_text c).
  split; [by apply EncodeCard_text|by apply DecodeCard_text].
Qed.

(** C9. Messages round-trip in both compressed formats of the protocol: a
    message that [Encode] compresses behind a size prefix and a raw zlib stream
    of its cards are decoded to the message, up to the decompression limit. *)
Theorem Decode_Encode m raw :
  Forall wf_card m → EncodeUncompressed m = Ret raw → (zlen raw ≤ maxDecompressedBytes)%Z →
  Decode (deflate raw) = Ret m ∧ ∃ d, Encode m = Ret d ∧ Decode d = Ret m.
Proof.
  intros Hm Hraw Hlen. unfold EncodeUncompressed in Hraw.
  rewrite encode_cards_text in Hraw by done. injection Hraw as <-.
  change ([] ++ message_text m) with (message_text m) in *.
  assert (decompressBounded (deflate (message_text m)) = Some (message_text m)) as Hd.
  { unfold decompressBounded. rewrite inflate_deflate.
    by destruct (Z.ltb_spec maxDecompressedBytes (zlen (message_text m))); [lia|]. }
  assert (deflate (message_text m) ≠ []) as Hne.
  { intros He. pose proof (inflate_header _ _ (inflate_deflate (message_text m))) as Hh.
    rewrite He in Hh. done. }
  split.
  - unfold Decode. destruct (Nat.eqb_spec (length (deflate (message_text m))) 0) as [Hz|_].
    { by apply length_zero_iff_nil in Hz. }
    rewrite Hd. by apply DecodeUncompressed_text.
  - exists (size_prefix (zlen (message_text m)) ++ deflate (message_text m)). split.
    { unfold Encode, EncodeUncompressed. by rewrite encode_cards_text. }
    unfold Decode. pose proof (zlen_nonneg (message_text m)).
    rewrite decompressBounded_no_header by (by apply size_prefix_no_header).
    rewrite drop_size_prefix. cbn [size_prefix app length Nat.eqb Nat.leb]. rewrite Hd.
    by apply DecodeUncompressed_text.
Qed.

(** Uncompressed messages are recognised too: the text of a message that starts
    with a known card is never mistaken for a compressed one. *)
Theorem Decode_uncompressed c m raw :
  Forall wf_card (c :: m) → (∀ u, c ≠ CardUnknown u) →
  EncodeUncompressed (c :: m) = Ret raw → Decode raw = Ret (c :: m).
Proof.
  intros Hm Hc Hraw. unfold EncodeUncompressed in Hraw.
  rewrite encode_cards_text in Hraw by done. injection Hraw as <-.
  cbn [app]. change (message_text (c :: m)) with (card_text c ++ message_text m).
  destruct (known_no_header c (message_text m) Hc) as [H1 H2]. unfold Decode.
  destruct (Nat.eqb_spec (length (card_text c ++ message_text m)) 0) as [Hz|_].
  { apply length_zero_iff_nil, app_eq_nil in Hz as [Hz _]. by apply card_text_nonempty in Hz. }
  rewrite (decompressBounded_no_header _ H1), (decompressBounded_no_header _ H2).
  destruct (4 <=? _); by apply (DecodeUncompressed_text (c :: m)).
Qed.

(** Decoding terminates on every input, compressed or not. *)
Theorem Decode_terminates data : Decode data ≠ NoFuel.
Proof. unfold Decode. repeat case_match; try done; apply DecodeUncompressed_fuel. Qed.

(** A line makes the reader panic exactly when it is a file, cfile, config or
    uvfile line whose payload size parses and is negative or unallocatable; the
    table sync cards bound theirs and never do. *)
Theorem parseLine_panics_iff r line :
  parseLine r line = Panic ↔ bad_size (unchecked_size (Fields line)).
Proof.
  unfold parseLine. destruct (Fields line) as [|cmd args]; [by split|]. apply fields_panic.
Qed.
End zlib.

(** ** Witnesses *)

Definition sample_cards : list Card :=
  [CardPull (MkPull (str "abc") (str "def"));
   CardLogin (MkLogin (str "two words") (str "nonce") (str "sig"));
   CardFile (MkFile (str "da39a3") [] (Some (str "hello" ++ [NL])));
   CardIGot (MkIGot (str "aaf4c6") true);
   CardXRow (MkXRow (str "devices") (str "00ff") 1700000000 (Some (str "{}")))].

#[local] Existing Instance stored.
#[local] Existing Instance stored_laws.

Lemma sample_cards_wf : Forall wf_card sample_cards.
Proof.
  repeat (apply list.Forall_cons_2; [cbn; split_and?; by_decide|]). apply list.Forall_nil_2.
Qed.

Lemma DecodeCard_EncodeCard_witness :
  ∃ t, EncodeCard [] (CardCFile (MkCFile (str "aaf4c6") (str "da39a3") 2 (Some (str "hi"))))
    = Ret ([] ++ t) ∧
  DecodeCard (t ++ str "rest")
    = Ret (CardCFile (MkCFile (str "aaf4c6") (str "da39a3") 2 (Some (str "hi"))), str "rest").
Proof. apply DecodeCard_EncodeCard. cbn. split_and!; by_decide. Defined.

Lemma Decode_Encode_witness :
  ∃ raw, Decode (deflate raw) = Ret sample_cards ∧
    ∃ d, Encode sample_cards = Ret d ∧ Decode d = Ret sample_cards.
Proof.
  eexists. eapply Decode_Encode; [exact sample_cards_wf|vm_compute; reflexivity|by_decide].
Defined.

Lemma Decode_uncompressed_witness :
  ∃ raw, Decode raw = Ret sample_cards.
Proof.
  eexists. eapply Decode_uncompressed; [exact sample_cards_wf|by intros|vm_compute; reflexivity].
Defined.

(** ** Findings *)

(** One short line takes the process down. *)
Example negative_size_panics : Decode (str "file abc -1" ++ [NL]) = Panic.
Proof. vm_compute. reflexivity. Qed.

(** The size written for a compressed delta is the length of the delta, not the
    [USize] of the card, so the two differ after a round trip. *)
Example cfile_usize_lost :
  let c u := CardCFile (MkCFile (str "aaf4c6") (str "da39a3") u (Some (str "hi"))) in
  (t ← EncodeCard [] (c 100%Z); DecodeCard t) = Ret (c 2%Z, []).
Proof. vm_compute. reflexivity. Qed.
