(* ===== verification/Blob.v ===== *)
(** * Blob storage (src/internal/blob, src/internal/content/content.go)

    The repository tables that storage uses, as finite maps, with the statements
    of the code as operations on them: blobs, deltas and phantoms, the
    compressed format, and the expansion of delta chains.  A statement changes
    the tables as SQL says; the schema's constraints on [blob] are checked, and
    the storage engine itself does not fail.  The new rid is the one SQLite gives
    a row of an [INTEGER PRIMARY KEY] table, one more than the largest in use.
    Fault injection ([simio.Buggify]) is off, as it is outside simulations. *)
From S2P Require Import Prelude GoStrings Hash Zlib Delta Julian.
From stdpp Require Import list gmap sets.

(** ** Tables *)

Record blobRow := MkBlob { b_uuid : bytes; b_size : Z; b_content : slice; b_rcvid : Z }.

(** [sh_scom] may be NULL. *)
Record shunRow := MkShunRow { sh_mtime : Z; sh_scom : option bytes }.

(** A row of [tagxref] without its key; [tx_value] may be NULL. *)
Record tagRow := MkTagRow {
  tx_tagtype : Z; tx_srcid : Z; tx_origid : Z; tx_value : option bytes; tx_mtime : julian }.

Record repo := MkRepo {
  t_blob : gmap Z blobRow;
  t_delta : gmap Z Z;
  t_phantom : gset Z;
  t_unclustered : gset Z;
  t_private : gset Z;
  t_shun : gmap bytes shunRow;
  t_tagxref : gmap (Z * Z) tagRow   (* keyed by tagid and rid *)
}.

Definition with_blob (f : gmap Z blobRow → gmap Z blobRow) (q : repo) : repo :=
  MkRepo (f (t_blob q)) (t_delta q) (t_phantom q) (t_unclustered q) (t_private q) (t_shun q)
    (t_tagxref q).
Definition with_delta (f : gmap Z Z → gmap Z Z) (q : repo) : repo :=
  MkRepo (t_blob q) (f (t_delta q)) (t_phantom q) (t_unclustered q) (t_private q) (t_shun q)
    (t_tagxref q).
Definition with_phantom (f : gset Z → gset Z) (q : repo) : repo :=
  MkRepo (t_blob q) (t_delta q) (f (t_phantom q)) (t_unclustered q) (t_private q) (t_shun q)
    (t_tagxref q).
Definition with_unclustered (f : gset Z → gset Z) (q : repo) : repo :=
  MkRepo (t_blob q) (t_delta q) (t_phantom q) (f (t_unclustered q)) (t_private q) (t_shun q)
    (t_tagxref q).
Definition with_private (f : gset Z → gset Z) (q : repo) : repo :=
  MkRepo (t_blob q) (t_delta q) (t_phantom q) (t_unclustered q) (f (t_private q)) (t_shun q)
    (t_tagxref q).
Definition with_shun (f : gmap bytes shunRow → gmap bytes shunRow) (q : repo) : repo :=
  MkRepo (t_blob q) (t_delta q) (t_phantom q) (t_unclustered q) (t_private q) (f (t_shun q))
    (t_tagxref q).
Definition with_tagxref (f : gmap (Z * Z) tagRow → gmap (Z * Z) tagRow) (q : repo) : repo :=
  MkRepo (t_blob q) (t_delta q) (t_phantom q) (t_unclustered q) (t_private q) (t_shun q)
    (f (t_tagxref q)).

(** The tag of a cluster artifact. *)
Definition cluster_tag (rid : Z) : tagRow := MkTagRow 1 rid rid None (f64 0).

Inductive blob_error :=
  | ENoRow
  | EConstraint
  | EPhantom (rid : Z)
  | EEmpty (rid : Z)
  | EShort
  | EInflate
  | EHashMismatch
  | ECycle (rid : Z)
  | EDelta (e : delta_error)
  | EMarshal.

Abbreviation out := (outcome blob_error).

(** [SELECT rid FROM blob WHERE uuid=?] *)
Definition rid_of_uuid (q : repo) (uuid : bytes) : option Z :=
  fst <$> head (filter (λ p, b_uuid p.2 = uuid) (map_to_list (t_blob q))).

Definition Exists (q : repo) (uuid : bytes) : out (option Z) :=
  if bool_decide (uuid = []) then Panic else Ret (rid_of_uuid q uuid).

(** The rid SQLite assigns to a new row. *)
Definition next_rid (q : repo) : Z := foldr Z.max 0%Z (map fst (map_to_list (t_blob q))) + 1.

(** [INSERT INTO blob(uuid, size, content, rcvid)], with the table's CHECK and
    UNIQUE constraints. *)
Definition insert_blob (q : repo) (row : blobRow) : out (repo * Z) :=
  if (length (b_uuid row) <? 40) then Fail EConstraint else
  match rid_of_uuid q (b_uuid row) with
  | Some _ => Fail EConstraint
  | None => let rid := next_rid q in Ret (with_blob <[rid := row]> q, rid)
  end.

(** ** Compression *)

Section zlib.
Context {codec : Zlib}.

Definition Compress (data : slice) : out bytes :=
  match data with
  | None => Panic
  | Some data => Ret (size_prefix (zlen data) ++ deflate data)
  end.

Definition Decompress (data : slice) : out bytes :=
  match data with
  | None => Panic
  | Some data =>
    if length data <? 5 then Fail EShort else
    match inflate (drop 4 data) with Some out => Ret out | None => Fail EInflate end
  end.

(** ** Loading and storing *)

(** Whether stored bytes start with the size of the blob and a zlib header. *)
Definition looks_compressed (content : bytes) (size : Z) : bool :=
  (6 <=? length content) &&
  bool_decide (prefix_value content = Some size) && bool_decide (content !! 4 = Some x78).

Definition Load (q : repo) (rid : Z) : out bytes :=
  if (rid <=? 0)%Z then Panic else
  match t_blob q !! rid with
  | None => Fail ENoRow
  | Some row =>
    if (b_size row =? -1)%Z then Fail (EPhantom rid) else
    match b_content row with
    | None | Some [] => Fail (EEmpty rid)
    | Some content =>
      if looks_compressed content (b_size row) then Decompress (Some content) else
      if (zlen content =? b_size row)%Z then Ret content else
      Decompress (Some content)
    end
  end.

Definition Store (q : repo) (content : bytes) : out (repo * Z * bytes) :=
  if length content =? 0 then Panic else
  let uuid := sha1_hex content in
  ex ← Exists q uuid;
  match ex with
  | Some rid => Ret (q, rid, uuid)
  | None =>
    compressed ← Compress (Some content);
    '(q, rid) ← insert_blob q (MkBlob uuid (zlen content) (Some compressed) 1);
    readBack ← Load q rid;
    if negb (bool_decide (sha1_hex readBack = uuid)) then Fail EHashMismatch else
    Ret (with_unclustered (λ s, {[ rid ]} ∪ s) q, rid, uuid)
  end.

Definition StoreDelta (q : repo) (content : bytes) (srcRid : Z) : out (repo * Z * bytes) :=
  if length content =? 0 then Panic else
  if (srcRid <=? 0)%Z then Panic else
  let uuid := sha1_hex content in
  ex ← Exists q uuid;
  match ex with
  | Some rid => Ret (q, rid, uuid)
  | None =>
    srcContent ← Load q srcRid;
    deltaBytes ← wrap_err EDelta (Create (Some srcContent) (Some content));
    compressed ← Compress (Some deltaBytes);
    '(q, rid) ← insert_blob q (MkBlob uuid (zlen content) (Some compressed) 1);
    let q := with_delta <[rid := srcRid]> q in
    storedDelta ← Load q rid;
    rebuilt ← wrap_err EDelta (Apply (Some srcContent) storedDelta);
    if negb (bool_decide (sha1_hex rebuilt = uuid)) then Fail EHashMismatch else
    Ret (with_unclustered (λ s, {[ rid ]} ∪ s) q, rid, uuid)
  end.

Definition StorePhantom (q : repo) (uuid : bytes) : out (repo * Z) :=
  if bool_decide (uuid = []) then Panic else
  ex ← Exists q uuid;
  match ex with
  | Some rid => Ret (q, rid)
  | None =>
    '(q, rid) ← insert_blob q (MkBlob uuid (-1) None 0);
    Ret (with_phantom (λ s, {[ rid ]} ∪ s) q, rid)
  end.

(** ** Expanding delta chains *)

(** The loop of [walkDeltaChain], before the chain is reversed. *)
Fixpoint walk_loop (fuel : nat) (q : repo) (current : Z) (seen : gset Z) (chain : list Z) :
    out (list Z) :=
  match fuel with
  | O => NoFuel
  | S fuel =>
    if bool_decide (current ∈ seen) then Fail (ECycle current) else
    let seen := {[ current ]} ∪ seen in
    let chain := chain ++ [current] in
    match t_delta q !! current with
    | None => Ret chain
    | Some sourceID => walk_loop fuel q sourceID seen chain
    end
  end.

Definition walkDeltaChain (q : repo) (rid : Z) : out (list Z) :=
  if (rid <=? 0)%Z then Panic else
  chain ← walk_loop (S (S (size (t_delta q)))) q rid ∅ [];
  Ret (rev chain).

Fixpoint apply_chain (q : repo) (content : bytes) (chain : list Z) : out bytes :=
  match chain with
  | [] => Ret content
  | rid :: chain =>
    deltaBytes ← Load q rid;
    content ← wrap_err EDelta (Apply (Some content) deltaBytes);
    apply_chain q content chain
  end.

Definition Expand (q : repo) (rid : Z) : out bytes :=
  if (rid <=? 0)%Z then Panic else
  chain ← walkDeltaChain q rid;
  match chain with
  | [] => Panic
  | root :: deltas => content ← Load q root; apply_chain q content deltas
  end.

Section verify.
Context {sha3 : Sha3}.

Definition Verify (q : repo) (rid : Z) : out unit :=
  if (rid <=? 0)%Z then Panic else
  match t_blob q !! rid with
  | None => Fail ENoRow
  | Some row =>
    content ← Expand q rid;
    let computed := if length (b_uuid row) =? 64 then hex_encode (sha3_256 content)
                    else sha1_hex content in
    if negb (bool_decide (computed = b_uuid row)) then Fail EHashMismatch else Ret tt
  end.
End verify.

Definition IsPhantom (q : repo) (rid : Z) : out bool :=
  if (rid <=? 0)%Z then Panic else Ret (bool_decide (rid ∈ t_phantom q)).
End zlib.

(** ** Specification: what an artifact's content is *)

Section spec.
Context {codec : Zlib} {sha3 : Sha3}.

(** A blob without a delta row is its own content; one with a delta row is the
    delta applied to the content of its source. *)
Inductive expands (q : repo) : Z → bytes → Prop :=
  | expands_plain rid c :
      t_delta q !! rid = None → Load q rid = Ret c → expands q rid c
  | expands_delta rid src c0 d c :
      t_delta q !! rid = Some src → expands q src c0 → Load q rid = Ret d →
      Apply (Some c0) d = Ret c → expands q rid c.

(** The delta chain from [rid] to its root. *)
Fixpoint chain_from (q : repo) (rid : Z) (l : list Z) : Prop :=
  match l with
  | [] => t_delta q !! rid = None
  | src :: l => t_delta q !! rid = Some src ∧ chain_from q src l
  end.

(** The uuid of an artifact is its SHA3-256 hash if it is longer than 40
    characters, and its SHA-1 hash otherwise. *)
Definition hash_of (uuid content : bytes) : bytes :=
  if 40 <? length uuid then sha3_hex content else sha1_hex content.

(** The tables are consistent, and every artifact that is present expands to
    content with the artifact's hash. *)
Record repo_ok (q : repo) : Prop := {
  ok_row : ∀ rid row, t_blob q !! rid = Some row → (0 < rid)%Z ∧ 40 ≤ length (b_uuid row);
  ok_uuid : ∀ r1 r2 row1 row2, t_blob q !! r1 = Some row1 → t_blob q !! r2 = Some row2 →
    b_uuid row1 = b_uuid row2 → r1 = r2;
  ok_delta : ∀ rid src, t_delta q !! rid = Some src →
    ∃ row, t_blob q !! rid = Some row ∧ b_size row ≠ (-1)%Z;
  ok_content : ∀ rid row, t_blob q !! rid = Some row → b_size row ≠ (-1)%Z →
    ∃ c, expands q rid c ∧ hash_of (b_uuid row) c = b_uuid row
}.

(** One storage operation that succeeded; a delta's source is a full blob. *)
Inductive storage_step (q : repo) : repo → Prop :=
  | step_store content q' rid uuid :
      Store q content = Ret (q', rid, uuid) → storage_step q q'
  | step_delta content src q' rid uuid :
      t_delta q !! src = None → StoreDelta q content src = Ret (q', rid, uuid) → storage_step q q'
  | step_phantom uuid q' rid :
      StorePhantom q uuid = Ret (q', rid) → storage_step q q'.

Definition empty_repo : repo := MkRepo ∅ ∅ ∅ ∅ ∅ ∅ ∅.

(** ** The chain walk *)

Lemma chain_det q rid l1 l2 : chain_from q rid l1 → chain_from q rid l2 → l1 = l2.
Proof.
  revert rid l2. induction l1 as [|s l1 IH]; intros rid [|s' l2]; cbn; try done.
  - intros H1 [H2 _]. congruence.
  - intros [H1 _] H2. congruence.
  - intros [H1 Hl1] [H2 Hl2]. assert (s' = s) as -> by congruence. f_equal. by eapply IH.
Qed.

Lemma chain_suffix q rid l x : chain_from q rid l → x ∈ l → ∃ l1 l2, l = l1 ++ x :: l2 ∧ chain_from q x l2.
Proof.
  revert rid. induction l as [|s l IH]; intros rid; [by intros _ ?%elem_of_nil|].
  intros [_ Hl] [->|Hin]%elem_of_cons; [by exists [], l|].
  destruct (IH s Hl Hin) as (l1 & l2 & -> & H). by exists (s :: l1), l2.
Qed.

Lemma chain_fresh q rid l : chain_from q rid l → rid ∉ l.
Proof.
  intros Hl Hin. destruct (chain_suffix _ _ _ _ Hl Hin) as (l1 & l2 & Heq & Hl2).
  pose proof (chain_det _ _ _ _ Hl Hl2) as Hd. rewrite Hd in Heq.
  apply (f_equal length) in Heq. rewrite length_app in Heq. cbn in Heq. lia.
Qed.

Lemma chain_nodup q rid l : chain_from q rid l → base.NoDup (rid :: l).
Proof.
  revert rid. induction l as [|s l IH]; intros rid Hl.
  - apply list.NoDup_singleton.
  - apply list.NoDup_cons. split; [by eapply chain_fresh|]. apply IH, Hl.
Qed.

Lemma chain_dom q rid l : chain_from q rid l → removelast (rid :: l) ⊆ elements (dom (t_delta q)).
Proof.
  revert rid. induction l as [|s l IH]; intros rid; [by intros _ x ?%elem_of_nil|].
  intros [H Hl]. change (removelast (rid :: s :: l)) with (rid :: removelast (s :: l)).
  intros x [->|Hx]%elem_of_cons.
  - apply elem_of_elements, elem_of_dom. by eexists.
  - by apply (IH s).
Qed.

Lemma chain_length q rid l : chain_from q rid l → length l ≤ size (t_delta q).
Proof.
  intros Hl. pose proof (chain_dom _ _ _ Hl) as Hd.
  assert (base.NoDup (removelast (rid :: l))) as Hnd.
  { pose proof (chain_nodup _ _ _ Hl) as Hn.
    rewrite (app_removelast_last rid) in Hn by done. by apply list.NoDup_app in Hn as [? _]. }
  pose proof (submseteq_length _ _ (NoDup_submseteq _ _ Hnd Hd)) as Hlen.
  rewrite <- size_dom. unfold size at 1, set_size. cbn.
  assert (length (rid :: l) = S (length (removelast (rid :: l)))) as Hr.
  { rewrite (app_removelast_last rid) at 1 by done. rewrite length_app. cbn. lia. }
  cbn in Hr. injection Hr as Hr. cbn in Hlen. rewrite Hr. exact Hlen.
Qed.

(** The walk follows the chain when there is one. *)
Lemma walk_complete fuel q rid l seen chain :
  chain_from q rid l → length l < fuel → (∀ x, x ∈ rid :: l → x ∉ seen) →
  walk_loop fuel q rid seen chain = Ret (chain ++ rid :: l).
Proof.
  revert rid l seen chain. induction fuel as [|fuel IH]; intros rid l seen chain Hl Hf Hs; [lia|].
  cbn [walk_loop]. rewrite bool_decide_false by (apply Hs; by left).
  destruct l as [|s l]; cbn in Hl.
  - by rewrite Hl.
  - destruct Hl as [H Hl]. rewrite H.
    rewrite (IH s l); [by rewrite <- app_assoc|done|cbn in Hf; lia|].
    intros x Hx. apply not_elem_of_union. split; [|apply Hs; by right].
    apply not_elem_of_singleton. intros ->. eapply (chain_fresh q rid (s :: l)); [by split|done].
Qed.

Lemma walk_sound fuel q rid seen chain res :
  walk_loop fuel q rid seen chain = Ret res → ∃ l, res = chain ++ rid :: l ∧ chain_from q rid l.
Proof.
  revert rid seen chain. induction fuel as [|fuel IH]; intros rid seen chain; [done|].
  cbn [walk_loop]. case_bool_decide; [done|]. destruct (t_delta q !! rid) as [s|] eqn:Hd.
  - intros (l & -> & Hl)%IH. exists (s :: l). rewrite <- app_assoc. done.
  - intros [= <-]. by exists [].
Qed.

Lemma walk_error fuel q rid seen chain e :
  walk_loop fuel q rid seen chain = Fail e → ∃ r, e = ECycle r.
Proof.
  revert rid seen chain. induction fuel as [|fuel IH]; intros rid seen chain; [done|].
  cbn [walk_loop]. case_bool_decide; [intros [= <-]; by eexists|].
  destruct (t_delta q !! rid); [apply IH|done].
Qed.

(** It always ends: every turn but the last marks another rid of the delta
    table. *)
Lemma walk_fuel fuel q rid seen chain :
  seen ⊆ dom (t_delta q) → size (t_delta q) + 1 < fuel + size seen →
  walk_loop fuel q rid seen chain ≠ NoFuel ∧ walk_loop fuel q rid seen chain ≠ Panic.
Proof.
  revert rid seen chain. induction fuel as [|fuel IH]; intros rid seen chain Hs Hf.
  { exfalso. apply subseteq_size in Hs. rewrite size_dom in Hs. lia. }
  cbn [walk_loop]. case_bool_decide as Hin; [done|].
  destruct (t_delta q !! rid) as [s|] eqn:Hd; [|done]. apply IH.
  - apply union_subseteq. split; [|done]. apply singleton_subseteq_l, elem_of_dom. by eexists.
  - rewrite size_union by (clear -Hin; set_solver). rewrite size_singleton. lia.
Qed.

(** ** Expansion *)

Lemma apply_chain_app q content l1 l2 :
  apply_chain q content (l1 ++ l2) = c ← apply_chain q content l1; apply_chain q c l2.
Proof.
  revert content. induction l1 as [|r l1 IH]; intros content; [done|]. cbn [app apply_chain].
  rewrite bind_assoc. destruct (Load q r); try done. cbn [mbind outcome_bind].
  rewrite bind_assoc. destruct (wrap_err _ _); try done. cbn. apply IH.
Qed.

(** Loading the root of a chain and applying the deltas down to [rid]. *)
Definition expand_chain (q : repo) (chain : list Z) : out bytes :=
  match chain with
  | [] => Panic
  | root :: deltas => content ← Load q root; apply_chain q content deltas
  end.

Lemma expand_chain_snoc q chain rid :
  chain ≠ [] →
  expand_chain q (chain ++ [rid]) =
    c0 ← expand_chain q chain; d ← Load q rid; wrap_err EDelta (Apply (Some c0) d).
Proof.
  intros Hne. destruct chain as [|root deltas]; [done|]. clear Hne. cbn [app expand_chain].
  rewrite bind_assoc. destruct (Load q root); try done. cbn [mbind outcome_bind].
  rewrite apply_chain_app. destruct (apply_chain q _ deltas); try done.
  cbn [mbind outcome_bind apply_chain]. destruct (Load q rid); try done.
  cbn [mbind outcome_bind]. by destruct (wrap_err _ _).
Qed.

Lemma wrap_err_ret {E F A} (f : E → F) (m : outcome E A) a : wrap_err f m = Ret a ↔ m = Ret a.
Proof. destruct m; cbn; split; congruence. Qed.

Lemma expand_chain_iff q rid l c :
  chain_from q rid l → expand_chain q (rev (rid :: l)) = Ret c ↔ expands q rid c.
Proof.
  revert rid c. induction l as [|s l IH]; intros rid c Hl.
  - cbn in Hl |- *. split.
    + intros H. inv_bind. by apply expands_plain.
    + intros He. inversion He as [? ? ? HL|]; [|congruence]. by rewrite HL.
  - destruct Hl as [H Hl]. change (rev (rid :: s :: l)) with (rev (s :: l) ++ [rid]).
    rewrite expand_chain_snoc.
    2: { cbn. intros Hn. by apply app_eq_nil in Hn as [_ ?]. }
    split.
    + intros He. inv_bind. apply wrap_err_ret in He.
      eapply expands_delta; [done|by apply IH|done|done].
    + intros He. inversion He as [|? s' c0 d ? Hs Hc0 HL HA]; subst; [congruence|].
      assert (s' = s) as -> by congruence. apply IH in Hc0; [|done]. rewrite Hc0.
      cbn [mbind outcome_bind]. rewrite HL. cbn [mbind outcome_bind]. by rewrite HA.
Qed.

Lemma expands_chain q rid c : expands q rid c → ∃ l, chain_from q rid l.
Proof.
  induction 1 as [rid c H|rid s c0 d c H _ [l Hl]]; [by exists []|by exists (s :: l)].
Qed.

Lemma walk_chain q rid l :
  (0 < rid)%Z → chain_from q rid l → walkDeltaChain q rid = Ret (rev (rid :: l)).
Proof.
  intros Hr Hl. unfold walkDeltaChain. destruct (Z.leb_spec rid 0); [lia|].
  rewrite (walk_complete _ _ _ l); [done|done| |set_solver].
  apply chain_length in Hl. lia.
Qed.

Lemma Expand_expands q rid c : (0 < rid)%Z → Expand q rid = Ret c ↔ expands q rid c.
Proof.
  intros Hr. unfold Expand. destruct (Z.leb_spec rid 0); [lia|]. split.
  - intros He. apply bind_ret_inv in He as (chain & Hw & He). unfold walkDeltaChain in Hw.
    destruct (Z.leb_spec rid 0); [lia|]. inv_bind.
    apply walk_sound in Ha as (l & -> & Hl). by apply (expand_chain_iff q rid l).
  - intros He. destruct (expands_chain _ _ _ He) as [l Hl]. rewrite (walk_chain _ _ l) by done.
    cbn [mbind outcome_bind]. by apply (expand_chain_iff q rid l).
Qed.

Lemma expands_pos q rid c : expands q rid c → (0 < rid)%Z.
Proof.
  intros [r c' _ HL|r s c0 d c' _ _ HL _]; revert HL; unfold Load; destruct (Z.leb_spec r 0); done || lia.
Qed.

Lemma expands_fun q rid c1 c2 : expands q rid c1 → expands q rid c2 → c1 = c2.
Proof.
  intros H1 H2. pose proof (expands_pos _ _ _ H1). apply Expand_expands in H1, H2; [|done..]. congruence.
Qed.

(** What an artifact expands to has its hash. *)
Lemma expands_genuine q rid row c :
  repo_ok q → t_blob q !! rid = Some row → expands q rid c → hash_of (b_uuid row) c = b_uuid row.
Proof.
  intros Hok Hrow He.
  assert (b_size row ≠ (-1)%Z) as Hn.
  { assert (∀ d, Load q rid = Ret d → b_size row ≠ (-1)%Z) as HL.
    { intros d. unfold Load. destruct (rid <=? 0)%Z; [done|]. rewrite Hrow.
      by destruct (Z.eqb_spec (b_size row) (-1)). }
    destruct He as [r c' _ H|r s c0 d c' _ _ H _]; by eapply HL. }
  destruct (ok_content q Hok rid row Hrow Hn) as (c' & He' & Hh).
  by rewrite (expands_fun q rid c c' He He').
Qed.
End spec.

(** ** Looking up by uuid, and new rids *)

Lemma rid_of_uuid_Some q uuid rid :
  rid_of_uuid q uuid = Some rid → ∃ row, t_blob q !! rid = Some row ∧ b_uuid row = uuid.
Proof.
  unfold rid_of_uuid. intros H. apply fmap_Some in H as ([r row] & Hh & ->).
  assert ((r, row) ∈ filter (λ p, b_uuid p.2 = uuid) (map_to_list (t_blob q))) as Hin.
  { destruct (filter _ _); [done|]. cbn in Hh. injection Hh as ->. by left. }
  apply list_elem_of_filter in Hin as [Hu Hin]. apply elem_of_map_to_list in Hin. by exists row.
Qed.

Lemma rid_of_uuid_None q uuid :
  rid_of_uuid q uuid = None → ∀ rid row, t_blob q !! rid = Some row → b_uuid row ≠ uuid.
Proof.
  unfold rid_of_uuid. intros H rid row Hrow Hu. apply fmap_None in H.
  assert ((rid, row) ∈ filter (λ p, b_uuid p.2 = uuid) (map_to_list (t_blob q))) as Hin.
  { apply list_elem_of_filter. split; [done|]. by apply elem_of_map_to_list. }
  destruct (filter _ _); [by apply elem_of_nil in Hin|done].
Qed.

Lemma foldr_max_ge l x : x ∈ l → (x ≤ foldr Z.max 0 l)%Z.
Proof.
  induction l as [|y l IH]; [by intros ?%elem_of_nil|]. intros [->|H]%elem_of_cons; cbn; [lia|].
  specialize (IH H). lia.
Qed.

Lemma next_rid_fresh q : t_blob q !! next_rid q = None ∧ (0 < next_rid q)%Z.
Proof.
  unfold next_rid. split.
  - destruct (t_blob q !! _) as [row|] eqn:H; [|done]. apply elem_of_map_to_list in H.
    apply (list_elem_of_fmap_2 fst) in H. apply foldr_max_ge in H. cbn in H.
    change (fst <$> ?l) with (map fst l) in H. lia.
  - assert (∀ l, 0 ≤ foldr Z.max 0 l)%Z as Hl.
    { intros l. induction l; cbn; lia. }
    specialize (Hl (map fst (map_to_list (t_blob q)))). lia.
Qed.

Lemma insert_blob_ret q row q' rid :
  insert_blob q row = Ret (q', rid) →
  q' = with_blob <[rid := row]> q ∧ t_blob q !! rid = None ∧ (0 < rid)%Z ∧
  40 ≤ length (b_uuid row) ∧ (∀ r row', t_blob q !! r = Some row' → b_uuid row' ≠ b_uuid row).
Proof.
  unfold insert_blob. destruct (Nat.ltb_spec (length (b_uuid row)) 40); [done|].
  destruct (rid_of_uuid q (b_uuid row)) eqn:Hu; [done|]. intros [= <- <-].
  destruct (next_rid_fresh q). split_and!; try done. by apply rid_of_uuid_None.
Qed.

Section preserve.
Context {codec : Zlib} {sha3 : Sha3}.

(** [q'] has the rows of [q], and new delta rows only for new blobs. *)
Definition extends (q q' : repo) : Prop :=
  t_blob q ⊆ t_blob q' ∧ t_delta q ⊆ t_delta q' ∧
  ∀ rid src, t_delta q' !! rid = Some src → t_delta q !! rid = None → t_blob q !! rid = None.

Lemma Load_row q rid c : Load q rid = Ret c → is_Some (t_blob q !! rid).
Proof. unfold Load. destruct (rid <=? 0)%Z; [done|]. destruct (t_blob q !! rid); [by eexists|done]. Qed.

Lemma Load_extends q q' rid c : extends q q' → Load q rid = Ret c → Load q' rid = Ret c.
Proof.
  intros (Hb & _ & _) HL. destruct (Load_row _ _ _ HL) as [row Hrow].
  rewrite <- HL. unfold Load. rewrite Hrow. by rewrite (lookup_weaken _ _ _ _ Hrow Hb).
Qed.

Lemma expands_extends q q' rid c : extends q q' → expands q rid c → expands q' rid c.
Proof.
  intros Hext. induction 1 as [rid c Hd HL|rid s c0 d c Hd _ IH HL HA].
  - apply expands_plain; [|by eapply Load_extends].
    destruct (t_delta q' !! rid) eqn:Hd'; [|done]. exfalso.
    destruct (Load_row _ _ _ HL) as [row Hrow]. destruct Hext as (_ & _ & Hn).
    by rewrite (Hn _ _ Hd' Hd) in Hrow.
  - eapply expands_delta; [|exact IH|by eapply Load_extends|exact HA].
    destruct Hext as (_ & Hs & _). by eapply lookup_weaken.
Qed.

Lemma extends_insert q rid row :
  t_blob q !! rid = None → extends q (with_blob <[rid := row]> q).
Proof.
  intros Hn. split_and!; cbn; [by apply insert_subseteq|done|congruence].
Qed.

Lemma extends_insert_delta q rid row src :
  t_blob q !! rid = None → t_delta q !! rid = None →
  extends q (with_delta <[rid := src]> (with_blob <[rid := row]> q)).
Proof.
  intros Hn Hd. split_and!; cbn; [by apply insert_subseteq..|].
  intros r s Hr Hr'. destruct (decide (r = rid)) as [->|Hne]; [done|].
  rewrite lookup_insert_ne in Hr by done. congruence.
Qed.

(** Storage looks at blob and delta rows only. *)
Lemma Load_ext q q' rid : t_blob q' = t_blob q → Load q' rid = Load q rid.
Proof. unfold Load. by intros ->. Qed.

Lemma expands_ext q q' rid c :
  t_blob q' = t_blob q → t_delta q' = t_delta q → expands q rid c → expands q' rid c.
Proof.
  intros Hb Hd He. apply (expands_extends q q'); [|done].
  split_and!; [by rewrite Hb|by rewrite Hd|]. rewrite Hd. congruence.
Qed.

Lemma repo_ok_ext q q' :
  t_blob q' = t_blob q → t_delta q' = t_delta q → repo_ok q → repo_ok q'.
Proof.
  intros Hb Hd [H1 H2 H3 H4]. split; rewrite ?Hb, ?Hd; try done.
  intros rid row Hrow Hs. destruct (H4 rid row Hrow Hs) as (c & He & Hh). exists c.
  split; [by eapply expands_ext|done].
Qed.

Lemma hash_of_sha1 c content : sha1_hex c = sha1_hex content →
  hash_of (sha1_hex content) c = sha1_hex content.
Proof. intros Hc. unfold hash_of. by rewrite length_sha1_hex. Qed.

(** Adding one row: what has to hold of it. *)
Lemma repo_ok_add q q' rid row :
  repo_ok q → extends q q' → t_blob q' = <[rid := row]> (t_blob q) → t_blob q !! rid = None →
  (∀ r s, t_delta q' !! r = Some s → (r = rid ∧ b_size row ≠ (-1)%Z) ∨ t_delta q !! r = Some s) →
  (0 < rid)%Z → 40 ≤ length (b_uuid row) →
  (∀ r row', t_blob q !! r = Some row' → b_uuid row' ≠ b_uuid row) →
  (b_size row ≠ (-1)%Z → ∃ c, expands q' rid c ∧ hash_of (b_uuid row) c = b_uuid row) →
  repo_ok q'.
Proof.
  intros [H1 H2 H3 H4] Hext Hb Hn Hd Hr Hu Hnew Hc. split.
  - intros r row'. rewrite Hb. intros [[<- <-]|[_ H]]%lookup_insert_Some; [done|by eapply H1].
  - intros r1 r2 row1 row2. rewrite Hb.
    intros [[<- <-]|[Hn1 L1]]%lookup_insert_Some [[<- <-]|[Hn2 L2]]%lookup_insert_Some; try done.
    + intros Heq. by destruct (Hnew r2 row2).
    + intros Heq. by destruct (Hnew r1 row1).
    + intros Heq. by apply (H2 r1 r2 row1 row2).
  - intros r s Hrs. rewrite Hb. destruct (Hd r s Hrs) as [[-> Hsz]|Hrs'].
    + exists row. by rewrite lookup_insert_eq.
    + destruct (H3 r s Hrs') as (row' & Hrow' & Hsz). exists row'.
      by rewrite lookup_insert_ne by congruence.
  - intros r row'. rewrite Hb. intros [[<- <-]|[_ Hrow]]%lookup_insert_Some Hs; [by apply Hc|].
    destruct (H4 r row' Hrow Hs) as (c & He & Hh). exists c. split; [by eapply expands_extends|done].
Qed.

Lemma fresh_no_delta q rid : repo_ok q → t_blob q !! rid = None → t_delta q !! rid = None.
Proof.
  intros Hok Hn. destruct (t_delta q !! rid) as [s|] eqn:H; [|done].
  destruct (ok_delta q Hok _ _ H) as (row & Hrow & _). congruence.
Qed.

Lemma Exists_ret q uuid ex : Exists q uuid = Ret ex → ex = rid_of_uuid q uuid.
Proof. unfold Exists. case_bool_decide; [done|]. by intros [= <-]. Qed.

Lemma Store_ok q content q' rid uuid :
  repo_ok q → Store q content = Ret (q', rid, uuid) → repo_ok q'.
Proof.
  intros Hok. unfold Store. destruct (length content =? 0); [done|].
  intros H. apply bind_ret_inv in H as (ex & Hex & H). destruct ex as [r|].
  { by injection H as <- <- <-. }
  cbn [Compress mbind outcome_bind] in H.
  apply bind_ret_inv in H as ([q1 rid1] & Hins & H).
  apply insert_blob_ret in Hins as (-> & Hn & Hr & Hu & Hnew).
  apply bind_ret_inv in H as (rb & HL & H). case_bool_decide as Hh; [|done].
  injection H as <- <- <-. pose proof (fresh_no_delta q rid1 Hok Hn) as Hd.
  eapply (repo_ok_ext (with_blob <[rid1 := _]> q)); [done|done|].
  eapply repo_ok_add; [exact Hok|by apply extends_insert|done|done|by right|done|done|done|].
  intros _. exists rb. split; [by apply expands_plain|by apply hash_of_sha1].
Qed.

Lemma StoreDelta_ok q content src q' rid uuid :
  repo_ok q → t_delta q !! src = None → StoreDelta q content src = Ret (q', rid, uuid) → repo_ok q'.
Proof.
  intros Hok Hsrc. unfold StoreDelta. destruct (length content =? 0); [done|].
  destruct (src <=? 0)%Z; [done|].
  intros H. apply bind_ret_inv in H as (ex & Hex & H). destruct ex as [r|].
  { by injection H as <- <- <-. }
  apply bind_ret_inv in H as (sc & HL & H). apply bind_ret_inv in H as (db & Hdb & H).
  cbn [Compress mbind outcome_bind] in H.
  apply bind_ret_inv in H as ([q1 rid1] & Hins & H).
  apply insert_blob_ret in Hins as (-> & Hn & Hr & Hu & Hnew). cbn zeta in H.
  apply bind_ret_inv in H as (sd & HL' & H). apply bind_ret_inv in H as (rebuilt & HA & H).
  apply wrap_err_ret in HA. case_bool_decide as Hh; [|done]. injection H as <- <- <-.
  pose proof (fresh_no_delta q rid1 Hok Hn) as Hd.
  set (row := MkBlob _ _ _ _) in *.
  pose proof (extends_insert_delta q rid1 row src Hn Hd) as Hext.
  eapply (repo_ok_ext (with_delta <[rid1 := src]> (with_blob <[rid1 := row]> q))); [done|done|].
  eapply repo_ok_add; [exact Hok|done|done|done| |done|done|done|].
  { cbn. intros r s [[<- <-]|[_ H]]%lookup_insert_Some; [left|by right].
    split; [done|]. pose proof (zlen_nonneg content). lia. }
  intros _. exists rebuilt. split; [|by apply hash_of_sha1].
  eapply expands_delta; [apply lookup_insert_eq| |exact HL'|exact HA].
  apply (expands_extends q); [done|]. by apply expands_plain.
Qed.

Lemma StoreDelta_extends q content src q' rid uuid :
  repo_ok q → StoreDelta q content src = Ret (q', rid, uuid) → extends q q'.
Proof.
  intros Hok. unfold StoreDelta. destruct (length content =? 0); [done|].
  destruct (src <=? 0)%Z; [done|].
  intros H. apply bind_ret_inv in H as (ex & Hex & H). destruct ex as [r|].
  { injection H as <- <- <-. split_and!; [done|done|congruence]. }
  apply bind_ret_inv in H as (sc & HL & H). apply bind_ret_inv in H as (db & Hdb & H).
  cbn [Compress mbind outcome_bind] in H.
  apply bind_ret_inv in H as ([q1 rid1] & Hins & H).
  apply insert_blob_ret in Hins as (-> & Hn & Hr & Hu & Hnew). cbn zeta in H.
  apply bind_ret_inv in H as (sd & HL' & H). apply bind_ret_inv in H as (rebuilt & HA & H).
  case_bool_decide as Hh; [|done]. injection H as <- <- <-.
  pose proof (fresh_no_delta q rid1 Hok Hn) as Hd.
  exact (extends_insert_delta q rid1 _ src Hn Hd).
Qed.

Lemma StorePhantom_ok q uuid q' rid :
  repo_ok q → StorePhantom q uuid = Ret (q', rid) → repo_ok q'.
Proof.
  intros Hok. unfold StorePhantom. case_bool_decide; [done|].
  intros Hs. apply bind_ret_inv in Hs as (ex & Hex & Hs). destruct ex as [r|].
  { by injection Hs as <- <-. }
  apply bind_ret_inv in Hs as ([q1 rid1] & Hins & Hs).
  apply insert_blob_ret in Hins as (-> & Hn & Hr & Hu & Hnew). injection Hs as <- <-.
  eapply (repo_ok_ext (with_blob <[rid1 := _]> q)); [done|done|].
  eapply repo_ok_add; [exact Hok|by apply extends_insert|done|done|by right|done|done|done|done].
Qed.

Lemma extends_refl q : extends q q.
Proof. split_and!; [done|done|congruence]. Qed.

Lemma Store_extends q content q' rid uuid : Store q content = Ret (q', rid, uuid) → extends q q'.
Proof.
  unfold Store. destruct (length content =? 0); [done|].
  intros H. apply bind_ret_inv in H as (ex & Hex & H). destruct ex as [r|].
  { injection H as <- <- <-. apply extends_refl. }
  cbn [Compress mbind outcome_bind] in H.
  apply bind_ret_inv in H as ([q1 rid1] & Hins & H).
  apply insert_blob_ret in Hins as (-> & Hn & _).
  apply bind_ret_inv in H as (rb & HL & H). case_bool_decide; [|done].
  injection H as <- <- <-. exact (extends_insert q rid1 _ Hn).
Qed.

Lemma StorePhantom_extends q uuid q' rid : StorePhantom q uuid = Ret (q', rid) → extends q q'.
Proof.
  unfold StorePhantom. case_bool_decide; [done|].
  intros Hs. apply bind_ret_inv in Hs as (ex & Hex & Hs). destruct ex as [r|].
  { injection Hs as <- <-. apply extends_refl. }
  apply bind_ret_inv in Hs as ([q1 rid1] & Hins & Hs).
  apply insert_blob_ret in Hins as (-> & Hn & _). injection Hs as <- <-.
  exact (extends_insert q rid1 _ Hn).
Qed.

Lemma storage_step_ok q q' : repo_ok q → storage_step q q' → repo_ok q' ∧ extends q q'.
Proof.
  intros Hok [content ? rid uuid H|content src ? rid uuid Hs H|uuid ? rid H].
  - split; [by eapply Store_ok|by eapply Store_extends].
  - split; [by eapply StoreDelta_ok|by eapply StoreDelta_extends].
  - split; [by eapply StorePhantom_ok|by eapply StorePhantom_extends].
Qed.

Lemma empty_ok : repo_ok empty_repo.
Proof. split; cbn; intros *; rewrite ?lookup_empty; done. Qed.
End preserve.

(** ** Storing succeeds *)

Section laws.
Context {codec : Zlib} {laws : ZlibLaws}.

Lemma deflate_shape d : ∃ b t, deflate d = x78 :: b :: t.
Proof.
  pose proof (deflate_head d) as Hh. pose proof (inflate_header _ _ (inflate_deflate d)) as Hz.
  destruct (deflate d) as [|c [|b t]]; [done|done|]. cbn in Hh. injection Hh as ->. by exists b, t.
Qed.

Lemma Decompress_Compress d c : Compress (Some d) = Ret c → Decompress (Some c) = Ret d.
Proof.
  intros Hc. assert (c = size_prefix (zlen d) ++ deflate d) as -> by (unfold Compress in Hc; congruence).
  unfold Decompress. rewrite drop_size_prefix, inflate_deflate.
  destruct (deflate_shape d) as (b & t & ->). done.
Qed.

(** The bytes [Compress] stores read back, unless they are as long as the size in
    the row and are not the compression of that many bytes. *)
Lemma Load_stored q rid row d stored :
  t_blob q !! rid = Some row → (0 < rid)%Z → Compress (Some d) = Ret stored →
  b_content row = Some stored → b_size row ≠ (-1)%Z →
  (b_size row = zlen d ∧ (zlen d < 2 ^ 32)%Z) ∨ zlen stored ≠ b_size row →
  Load q rid = Ret d.
Proof.
  intros Hrow Hr Hst Hc Hs Hcase. pose proof (Decompress_Compress _ _ Hst) as Hd.
  assert (size_prefix (zlen d) ++ deflate d = stored) as Heq by (unfold Compress in Hst; congruence).
  unfold Load. destruct (Z.leb_spec rid 0); [lia|]. rewrite Hrow, Hc.
  destruct (Z.eqb_spec (b_size row) (-1)); [done|].
  destruct stored as [|c0 st]; [by rewrite <- Heq in Hst|].
  destruct (looks_compressed (c0 :: st) (b_size row)) eqn:Hl; [exact Hd|].
  destruct (Z.eqb_spec (zlen (c0 :: st)) (b_size row)) as [He|]; [exfalso|exact Hd].
  destruct Hcase as [[Hsz Hlt]|]; [|done]. revert Hl. rewrite <- Heq.
  destruct (deflate_shape d) as (b & t & Hdf). unfold looks_compressed.
  rewrite prefix_value_size. unfold u32. rewrite Z.mod_small by (pose proof (zlen_nonneg d); lia).
  rewrite Hsz, bool_decide_true by done. rewrite Hdf. cbn [size_prefix app length Nat.leb lookup list_lookup].
  by rewrite bool_decide_true.
Qed.

Lemma insert_blob_new q row :
  40 ≤ length (b_uuid row) → rid_of_uuid q (b_uuid row) = None →
  insert_blob q row = Ret (with_blob <[next_rid q := row]> q, next_rid q).
Proof.
  intros Hl Hn. unfold insert_blob. destruct (Nat.ltb_spec (length (b_uuid row)) 40); [lia|].
  by rewrite Hn.
Qed.

Lemma sha1_hex_exists q content : Exists q (sha1_hex content) = Ret (rid_of_uuid q (sha1_hex content)).
Proof.
  unfold Exists. rewrite bool_decide_false; [done|]. intros He.
  pose proof (length_sha1_hex content) as Hl. by rewrite He in Hl.
Qed.

(** The tables after a new blob is stored. *)
Definition stored_repo (q : repo) (content stored : bytes) : repo :=
  with_unclustered (λ s, {[ next_rid q ]} ∪ s)
    (with_blob <[next_rid q := MkBlob (sha1_hex content) (zlen content) (Some stored) 1]> q).

Lemma Store_new q content :
  content ≠ [] → (zlen content < 2 ^ 32)%Z → rid_of_uuid q (sha1_hex content) = None →
  ∃ stored, Compress (Some content) = Ret stored ∧
    Store q content = Ret (stored_repo q content stored, next_rid q, sha1_hex content) ∧
    Load (stored_repo q content stored) (next_rid q) = Ret content.
Proof.
  intros Hne Hlt Hn. eexists. split; [reflexivity|].
  destruct (next_rid_fresh q) as [Hfresh Hpos].
  set (stored := size_prefix (zlen content) ++ deflate content).
  set (q1 := with_blob <[next_rid q := MkBlob (sha1_hex content) (zlen content) (Some stored) 1]> q).
  assert (Load q1 (next_rid q) = Ret content) as HL.
  { eapply Load_stored; [apply lookup_insert_eq|done|reflexivity|done| |left; by split].
    cbn. pose proof (zlen_nonneg content). lia. }
  split; [|by rewrite <- HL; apply Load_ext].
  unfold Store. destruct (Nat.eqb_spec (length content) 0) as [Hz|_].
  { by apply length_zero_iff_nil in Hz. }
  rewrite sha1_hex_exists, Hn. cbn [mbind outcome_bind Compress]. fold stored.
  rewrite insert_blob_new by (cbn; rewrite ?length_sha1_hex; done || lia). cbn [mbind outcome_bind].
  fold q1. rewrite HL. cbn [mbind outcome_bind]. by rewrite bool_decide_true.
Qed.

Lemma StoreDelta_new q content src srcContent :
  content ≠ [] → (zlen content < 2 ^ 32)%Z → (zlen srcContent < 2 ^ 32)%Z →
  rid_of_uuid q (sha1_hex content) = None → Load q src = Ret srcContent →
  (∀ d, Create (Some srcContent) (Some content) = Ret d →
    zlen (size_prefix (zlen d) ++ deflate d) ≠ zlen content) →
  ∃ d q', Create (Some srcContent) (Some content) = Ret d ∧
    StoreDelta q content src = Ret (q', next_rid q, sha1_hex content) ∧
    t_delta q' = <[next_rid q := src]> (t_delta q) ∧
    Load q' (next_rid q) = Ret d ∧ Apply (Some srcContent) d = Ret content.
Proof.
  intros Hne Hlt Hslt Hn HL Hlen.
  assert (fits srcContent ∧ fits content) as [Hf1 Hf2] by (unfold fits, maxAlloc; lia).
  destruct (create_denotes srcContent content Hf1 Hf2) as (d & Hd & Hden).
  pose proof (apply_complete srcContent d content Hf1 Hf2 Hden) as HA.
  destruct (next_rid_fresh q) as [Hfresh Hpos]. specialize (Hlen d Hd).
  set (stored := size_prefix (zlen d) ++ deflate d) in *.
  set (q1 := with_delta <[next_rid q := src]>
    (with_blob <[next_rid q := MkBlob (sha1_hex content) (zlen content) (Some stored) 1]> q)).
  assert (Load q1 (next_rid q) = Ret d) as HL1.
  { eapply Load_stored; [apply lookup_insert_eq|done|reflexivity|done| |by right].
    cbn. pose proof (zlen_nonneg content). lia. }
  exists d, (with_unclustered (λ s, {[ next_rid q ]} ∪ s) q1). split; [done|]. split_and!; [|done| |done].
  - unfold StoreDelta. destruct (Nat.eqb_spec (length content) 0) as [Hz|_].
    { by apply length_zero_iff_nil in Hz. }
    destruct (Z.leb_spec src 0) as [Hs|Hs].
    { unfold Load in HL. destruct (Z.leb_spec src 0); [done|lia]. }
    rewrite sha1_hex_exists, Hn. cbn [mbind outcome_bind]. rewrite HL. cbn [mbind outcome_bind].
    rewrite Hd. cbn [wrap_err mbind outcome_bind Compress]. fold stored.
    rewrite insert_blob_new by (cbn; rewrite ?length_sha1_hex; done || lia).
    cbn [mbind outcome_bind]. cbn zeta. fold q1. rewrite HL1. cbn [mbind outcome_bind].
    rewrite HA. cbn [wrap_err mbind outcome_bind]. by rewrite bool_decide_true.
  - rewrite <- HL1. by apply Load_ext.
Qed.
End laws.

(** ** Properties *)

(** C6. Expansion implements its specification: [Expand] returns [c] exactly
    when [c] is the artifact's content, its own blob or its delta applied to the
    content of the delta's source. *)
Theorem Expand_refines {codec : Zlib} q rid c :
  (0 < rid)%Z → Expand q rid = Ret c ↔ expands q rid c.
Proof. apply Expand_expands. Qed.

(** The walk over a delta chain terminates on every table, cyclic ones included:
    it returns the chain from the root to the artifact when there is one, and
    reports the cycle otherwise. *)
Theorem walkDeltaChain_total q rid :
  (0 < rid)%Z →
  match walkDeltaChain q rid with
  | Ret chain => ∃ l, chain = rev (rid :: l) ∧ chain_from q rid l
  | Fail (ECycle _) => ∀ l, ¬ chain_from q rid l
  | _ => False
  end.
Proof.
  intros Hr. destruct (walkDeltaChain q rid) as [chain|e| |] eqn:Hw.
  - unfold walkDeltaChain in Hw. destruct (Z.leb_spec rid 0); [lia|]. inv_bind.
    apply walk_sound in Ha as (l & -> & Hl). by exists l.
  - assert (∀ l, ¬ chain_from q rid l) as Hno.
    { intros l Hl. by rewrite (walk_chain q rid l) in Hw. }
    assert (∃ r, e = ECycle r) as [r ->]; [|done].
    unfold walkDeltaChain in Hw. destruct (rid <=? 0)%Z; [done|].
    destruct (walk_loop _ _ _ _ _) as [|e'| |] eqn:Hl; try done. cbn in Hw. injection Hw as ->.
    by eapply walk_error.
  - unfold walkDeltaChain in Hw. destruct (Z.leb_spec rid 0); [lia|].
    destruct (walk_fuel (S (S (size (t_delta q)))) q rid ∅ []) as [_ Hp]; [set_solver|rewrite size_empty; lia|].
    by destruct (walk_loop _ _ _ _ _).
  - unfold walkDeltaChain in Hw. destruct (Z.leb_spec rid 0); [lia|].
    destruct (walk_fuel (S (S (size (t_delta q)))) q rid ∅ []) as [Hp _]; [set_solver|rewrite size_empty; lia|].
    by destruct (walk_loop _ _ _ _ _).
Qed.

(** C7. Every repository that storage builds is consistent: after any sequence
    of successful stores, delta stores against full blobs and phantoms, rids are
    positive, uuids unique, delta rows belong to blobs, and every artifact that
    is present expands to content with the artifact's hash. *)
Theorem storage_invariant {codec : Zlib} {sha3 : Sha3} q : rtc storage_step empty_repo q → repo_ok q.
Proof.
  assert (∀ q1 q2, rtc storage_step q1 q2 → repo_ok q1 → repo_ok q2) as H.
  { induction 1 as [|q1 q2 q3 Hs _ IH]; [done|]. intros Hok. apply IH.
    by eapply storage_step_ok. }
  intros Hq. by apply (H _ _ Hq), empty_ok.
Qed.

(** Storing new content succeeds, and expanding the new artifact gives the
    content back; artifacts stored before keep their content. *)
Theorem Store_Expand {codec : Zlib} {laws : ZlibLaws} {sha3 : Sha3} q content :
  repo_ok q → content ≠ [] → (zlen content < 2 ^ 32)%Z → rid_of_uuid q (sha1_hex content) = None →
  ∃ q' rid, Store q content = Ret (q', rid, sha1_hex content) ∧ Expand q' rid = Ret content ∧
    rid ∈ t_unclustered q' ∧ ∀ r c, expands q r c → expands q' r c.
Proof.
  intros Hok Hne Hlt Hn. destruct (Store_new q content Hne Hlt Hn) as (stored & _ & HS & HL).
  destruct (next_rid_fresh q) as [Hfresh Hpos].
  exists (stored_repo q content stored), (next_rid q). split_and!; [done| |set_solver|].
  - apply Expand_expands; [done|]. apply expands_plain; [|done]. by apply (fresh_no_delta q).
  - intros r c He. eapply (expands_ext (with_blob _ q)); [reflexivity|reflexivity|].
    by eapply expands_extends; [apply extends_insert|].
Qed.

(** Storing new content as a delta against a full blob succeeds and expands to
    the content, provided the compressed delta is not exactly as long as the
    content. *)
Theorem StoreDelta_Expand {codec : Zlib} {laws : ZlibLaws} {sha3 : Sha3} q content src srcContent :
  repo_ok q → content ≠ [] → (zlen content < 2 ^ 32)%Z → (zlen srcContent < 2 ^ 32)%Z →
  rid_of_uuid q (sha1_hex content) = None →
  t_delta q !! src = None → Load q src = Ret srcContent →
  (∀ d, Create (Some srcContent) (Some content) = Ret d →
    zlen (size_prefix (zlen d) ++ deflate d) ≠ zlen content) →
  ∃ q' rid, StoreDelta q content src = Ret (q', rid, sha1_hex content) ∧
    Expand q' rid = Ret content.
Proof.
  intros Hok Hne Hlt Hslt Hn Hsrc HL Hlen.
  destruct (StoreDelta_new q content src srcContent) as (d & q' & _ & HS & Hd & HLd & HA); try done.
  exists q', (next_rid q). split; [done|].
  destruct (next_rid_fresh q) as [Hfresh Hpos].
  assert (src ≠ next_rid q) as Hne'.
  { intros ->. destruct (Load_row _ _ _ HL) as [row Hrow]. congruence. }
  assert (Load q' src = Ret srcContent) as HL'.
  { apply (Load_extends q); [|done]. eapply StoreDelta_extends; done. }
  apply Expand_expands; [done|]. eapply expands_delta; [|apply expands_plain|exact HLd|exact HA].
  - rewrite Hd. apply lookup_insert_eq.
  - by rewrite Hd, lookup_insert_ne.
  - done.
Qed.

(** ** Witnesses *)

#[local] Existing Instance stored.
#[local] Existing Instance stored_laws.
#[local] Existing Instance test_sha3.

Definition after (m : out (repo * Z * bytes)) : repo :=
  match m with Ret (q, _, _) => q | _ => empty_repo end.

Definition text_a : bytes := str "the quick brown fox jumps over the lazy dog".
Definition text_b : bytes :=
  text_a ++ str ", then rests beside the river until the evening sun goes down".
Definition text_c : bytes := text_b ++ str " again".

Definition repo_a : repo := after (Store empty_repo text_a).
Definition repo_b : repo := after (StoreDelta repo_a text_b 1).

Lemma repo_a_ok : repo_ok repo_a.
Proof. apply (Store_ok empty_repo text_a _ 1 (sha1_hex text_a) empty_ok). vm_compute. reflexivity. Qed.

Lemma Expand_refines_witness : (0 < 2)%Z ∧ expands repo_b 2 text_b.
Proof. split; [done|]. apply (Expand_refines repo_b 2 text_b); [done|]. vm_compute. reflexivity. Defined.

Lemma walkDeltaChain_total_witness :
  walkDeltaChain repo_b 2 = Ret [1; 2]%Z ∧ ∃ l, [1; 2]%Z = rev (2%Z :: l) ∧ chain_from repo_b 2 l.
Proof.
  assert (walkDeltaChain repo_b 2 = Ret [1; 2]%Z) as Hw by (vm_compute; reflexivity).
  split; [exact Hw|]. pose proof (walkDeltaChain_total repo_b 2 ltac:(done)) as H.
  rewrite Hw in H. exact H.
Defined.

Lemma storage_invariant_witness : repo_ok repo_b.
Proof.
  apply storage_invariant. eapply rtc_l.
  - eapply (step_store empty_repo text_a repo_a 1 (sha1_hex text_a)). vm_compute. reflexivity.
  - apply rtc_once. eapply (step_delta repo_a text_b 1 repo_b 2 (sha1_hex text_b)).
    + vm_compute. reflexivity.
    + vm_compute. reflexivity.
Defined.

Lemma Store_Expand_witness :
  ∃ q' rid, Store repo_a text_b = Ret (q', rid, sha1_hex text_b) ∧ Expand q' rid = Ret text_b.
Proof.
  destruct (Store_Expand repo_a text_b) as (q' & rid & H1 & H2 & _);
    [exact repo_a_ok|done|by_decide|vm_compute; reflexivity|].
  exists q', rid. exact (conj H1 H2).
Defined.

Lemma StoreDelta_Expand_witness :
  ∃ q' rid, StoreDelta repo_a text_b 1 = Ret (q', rid, sha1_hex text_b) ∧ Expand q' rid = Ret text_b.
Proof.
  apply (StoreDelta_Expand repo_a text_b 1 text_a);
    [exact repo_a_ok|done|by_decide|by_decide|vm_compute; reflexivity|vm_compute; reflexivity
    |vm_compute; reflexivity|].
  intros d Hd. vm_compute in Hd. injection Hd as <-. vm_compute. discriminate.
Defined.

(** ** Findings *)

(** A delta against an artifact that is itself stored as a delta is computed and
    verified against that delta's bytes: storing succeeds, expanding does not. *)
Example delta_of_delta_unreadable :
  match StoreDelta repo_b text_c 2 with
  | Ret (q, rid, _) => match Expand q rid with Fail _ => True | _ => False end
  | _ => False
  end.
Proof. vm_compute. exact I. Qed.

(** Storing the content of a phantom leaves the phantom as it is: the call
    succeeds and the content is not there. *)
Example store_keeps_phantom :
  match StorePhantom empty_repo (sha1_hex text_a) with
  | Ret (q, rid) =>
    Store q text_a = Ret (q, rid, sha1_hex text_a) ∧ Load q rid = Fail (EPhantom rid)
  | _ => False
  end.
Proof. vm_compute. split; reflexivity. Qed.

(** A delta whose compressed form is as long as the content is taken for
    uncompressed content, and the store fails. *)
Definition text_p : bytes := str "0123456789abcdefghijklmnopqrstuvwxyz".
Example delta_length_coincidence :
  ∃ n, match StoreDelta (after (Store empty_repo text_p)) (take n text_p) 1 with
       | Fail (EDelta _) => True
       | _ => False
       end.
Proof. exists 19. vm_compute. exact I. Qed.
