(* ===== verification/Content.v ===== *)
(** * Cached expansion, private artifacts, clusters (src/internal/content)

    The LRU cache (cache.go) as atomic steps, one per critical section of its
    mutex, and the system in which goroutines interleave them with storage;
    the private table (private.go); the cluster artifacts (cluster.go). *)
From S2P Require Import Prelude GoStrings Hash Zlib Delta Deck Blob.
From stdpp Require Import list gmap sets relations.

Abbreviation out := (outcome blob_error).

(** ** The cache *)

Record cacheEntry := MkEntry { ce_rid : Z; ce_data : bytes }.

(** [order] is the linked list, front first; an element of the list is the entry
    it carries, and [items] points to elements. *)
Record Cache := MkCache {
  items : gmap Z cacheEntry;
  order : list cacheEntry;
  curSize : Z;
  maxSize : Z;
  hits : Z;
  misses : Z
}.

Record CacheStats := MkStats {
  cs_Hits : Z; cs_Misses : Z; cs_Size : Z; cs_MaxSize : Z; cs_Entries : nat }.

Definition NewCache (maxBytes : Z) : out Cache :=
  if (maxBytes <=? 0)%Z then Panic else Ret (MkCache ∅ [] 0 maxBytes 0 0).

(** [order.Remove(elem)]; elements are told apart by their rid. *)
Definition list_remove (rid : Z) (l : list cacheEntry) : list cacheEntry :=
  filter (λ e, ce_rid e ≠ rid) l.

(** [order.MoveToFront(elem)] *)
Definition move_to_front (e : cacheEntry) (l : list cacheEntry) : list cacheEntry :=
  e :: list_remove (ce_rid e) l.

(** The first critical section of [Cache.Expand]: a hit moves the entry to the
    front and copies its data. *)
Definition cache_lookup (c : Cache) (rid : Z) : Cache * option bytes :=
  match items c !! rid with
  | Some e =>
    (MkCache (items c) (move_to_front e (order c)) (curSize c) (maxSize c)
       (i64 (hits c + 1)) (misses c), Some (ce_data e))
  | None =>
    (MkCache (items c) (order c) (curSize c) (maxSize c) (hits c) (i64 (misses c + 1)), None)
  end.

Definition evictOldest (c : Cache) : Cache :=
  match last (order c) with
  | None => c
  | Some e =>
    MkCache (delete (ce_rid e) (items c)) (list_remove (ce_rid e) (order c))
      (i64 (curSize c - zlen (ce_data e))) (maxSize c) (hits c) (misses c)
  end.

Fixpoint evict_loop (fuel : nat) (c : Cache) : out Cache :=
  match fuel with
  | O => NoFuel
  | S fuel =>
    if (maxSize c <? curSize c)%Z && (0 <? length (order c)) then evict_loop fuel (evictOldest c)
    else Ret c
  end.

(** The second critical section: the data is cached unless another goroutine was
    faster, and old entries are evicted. *)
Definition cache_fill (c : Cache) (rid : Z) (data : bytes) : out Cache :=
  match items c !! rid with
  | Some e =>
    Ret (MkCache (items c) (move_to_front e (order c)) (curSize c) (maxSize c) (hits c) (misses c))
  | None =>
    let e := MkEntry rid data in
    let c := MkCache (<[rid := e]> (items c)) (e :: order c) (i64 (curSize c + zlen data))
               (maxSize c) (hits c) (misses c) in
    evict_loop (S (length (order c))) c
  end.

Definition Invalidate (c : Cache) (rid : Z) : Cache :=
  match items c !! rid with
  | Some e =>
    MkCache (delete rid (items c)) (list_remove (ce_rid e) (order c))
      (i64 (curSize c - zlen (ce_data e))) (maxSize c) (hits c) (misses c)
  | None => c
  end.

Definition Clear (c : Cache) : Cache := MkCache ∅ [] 0 (maxSize c) (hits c) (misses c).

Definition Stats (c : option Cache) : CacheStats :=
  match c with
  | None => MkStats 0 0 0 0 0
  | Some c => MkStats (hits c) (misses c) (curSize c) (maxSize c) (length (order c))
  end.

Section zlib.
Context {codec : Zlib}.

(** [Cache.Expand], run without interference; a nil cache passes through. *)
Definition Cache_Expand (c : option Cache) (q : repo) (rid : Z) : out (option Cache * bytes) :=
  match c with
  | None => data ← Expand q rid; Ret (None, data)
  | Some c =>
    match cache_lookup c rid with
    | (c, Some data) => Ret (Some c, data)
    | (c, None) => data ← Expand q rid; c ← cache_fill c rid data; Ret (Some c, data)
    end
  end.

(** ** Private artifacts *)

Definition IsPrivate (q : repo) (rid : Z) : out bool :=
  if (rid <=? 0)%Z then Panic else Ret (bool_decide (rid ∈ t_private q)).
Definition MakePrivate (q : repo) (rid : Z) : out repo :=
  if (rid <=? 0)%Z then Panic else Ret (with_private (λ s, {[ rid ]} ∪ s) q).
Definition MakePublic (q : repo) (rid : Z) : out repo :=
  if (rid <=? 0)%Z then Panic else Ret (with_private (λ s, s ∖ {[ rid ]}) q).

(** ** Clusters *)

Definition ClusterThreshold : nat := 100.
Definition ClusterMaxSize : nat := 800.

(** The uuid of the blob [rid] if the artifact may be announced in a cluster. *)
Definition clusterable (q : repo) (rid : Z) : option bytes :=
  match t_blob q !! rid with
  | Some row =>
    if bool_decide (rid ∈ t_phantom q) || bool_decide (b_uuid row ∈ dom (t_shun q))
       || bool_decide (rid ∈ t_private q) then None else Some (b_uuid row)
  | None => None
  end.

Definition clusterableUUIDs (q : repo) : list bytes :=
  sort_slice str_ltb (omap (clusterable q) (elements (t_unclustered q))).

(** The number of uuids the next cluster takes of [n]. *)
Definition batch_size (n : nat) : nat :=
  let batchSize := if n <? ClusterMaxSize then n else ClusterMaxSize in
  let remaining := n - batchSize in
  if (0 <? remaining) && (remaining <? ClusterThreshold) then n else batchSize.

Definition cluster_deck (batch : list bytes) : Deck := set_Type Cluster (set_M batch deck_zero).

Fixpoint build_loop (fuel : nat) (q : repo) (uuids : list bytes) (clusterRIDs : list Z) :
    out (repo * list Z) :=
  match fuel with
  | O => NoFuel
  | S fuel =>
    match uuids with
    | [] => Ret (q, clusterRIDs)
    | _ :: _ =>
      let n := batch_size (length uuids) in
      let batch := take n uuids in
      '(q, rid, _) ← Store q (Marshal (cluster_deck batch));
      let q := with_tagxref <[(7%Z, rid) := cluster_tag rid]> q in
      build_loop fuel q (drop n uuids) (clusterRIDs ++ [rid])
    end
  end.

Definition buildClusters (q : repo) (uuids : list bytes) : out (repo * list Z) :=
  build_loop (S (length uuids)) q uuids [].

Definition shunned (q : repo) (rid : Z) : bool :=
  match t_blob q !! rid with Some row => bool_decide (b_uuid row ∈ dom (t_shun q)) | None => false end.

(** The rows of [unclustered] that the DELETE statement keeps. *)
Definition stays_unclustered (q : repo) (clusterRIDs : list Z) (rid : Z) : bool :=
  bool_decide (rid ∈ clusterRIDs) || bool_decide (rid ∈ t_phantom q) || shunned q rid
    || bool_decide (rid ∈ t_private q).

Definition cleanupUnclustered (q : repo) (clusterRIDs : list Z) : repo :=
  if length clusterRIDs =? 0 then q else
  with_unclustered (filter (λ rid, stays_unclustered q clusterRIDs rid = true)) q.

Definition GenerateClusters (q : repo) : out (repo * nat) :=
  let uuids := clusterableUUIDs q in
  if length uuids <? ClusterThreshold then Ret (q, 0) else
  '(q, clusterRIDs) ← buildClusters q uuids;
  Ret (cleanupUnclustered q clusterRIDs, length clusterRIDs).
End zlib.

(** ** Cache invariant *)

Definition total (l : list cacheEntry) : Z := foldr (λ e s, (zlen (ce_data e) + s)%Z) 0%Z l.

(** Map and list agree, entries have distinct rids, and the size is accounted. *)
Record cache_wf (c : Cache) : Prop := {
  cw_nodup : base.NoDup (ce_rid <$> order c);
  cw_items : ∀ rid e, items c !! rid = Some e ↔ e ∈ order c ∧ ce_rid e = rid;
  cw_size : curSize c = total (order c);
  cw_max : (0 < maxSize c ≤ 2 ^ 62)%Z
}.

(** Between operations the cache also respects its bound. *)
Definition cache_ok (c : Cache) : Prop := cache_wf c ∧ (curSize c ≤ maxSize c)%Z.

Lemma total_cons e l : total (e :: l) = (zlen (ce_data e) + total l)%Z.
Proof. done. Qed.

Lemma total_nonneg l : (0 ≤ total l)%Z.
Proof.
  induction l as [|e l IH]; [done|]. rewrite total_cons. pose proof (zlen_nonneg (ce_data e)). lia.
Qed.

Lemma remove_cons rid e l :
  list_remove rid (e :: l) = if decide (ce_rid e = rid) then list_remove rid l else e :: list_remove rid l.
Proof. unfold list_remove. rewrite filter_cons. repeat case_decide; naive_solver. Qed.

Lemma remove_absent rid l : rid ∉ ce_rid <$> l → list_remove rid l = l.
Proof.
  intros Hr. induction l as [|e l IH]; [done|]. rewrite fmap_cons in Hr.
  apply not_elem_of_cons in Hr as [Hne Hr]. rewrite remove_cons, decide_False by done. by rewrite IH.
Qed.

Lemma elem_remove e rid l : e ∈ list_remove rid l ↔ e ∈ l ∧ ce_rid e ≠ rid.
Proof. unfold list_remove. rewrite list_elem_of_filter. tauto. Qed.

Lemma nodup_remove rid l : base.NoDup (ce_rid <$> l) → base.NoDup (ce_rid <$> list_remove rid l).
Proof.
  induction l as [|e l IH]; [done|]. rewrite fmap_cons. intros [H1 H2]%list.NoDup_cons.
  rewrite remove_cons. case_decide; [by apply IH|].
  rewrite fmap_cons. apply list.NoDup_cons. split; [|by apply IH].
  intros (e' & He & Hin)%list_elem_of_fmap. apply elem_remove in Hin as [Hin _].
  apply H1. apply list_elem_of_fmap. by exists e'.
Qed.

Lemma total_remove e l :
  base.NoDup (ce_rid <$> l) → e ∈ l → total (list_remove (ce_rid e) l) = (total l - zlen (ce_data e))%Z.
Proof.
  induction l as [|e' l IH]; [by intros _ ?%elem_of_nil|].
  rewrite fmap_cons, remove_cons, total_cons.
  intros [H1 H2]%list.NoDup_cons [->|Hin]%elem_of_cons.
  - rewrite decide_True by done. rewrite remove_absent by done. lia.
  - rewrite decide_False.
    + rewrite total_cons, IH by done. lia.
    + intros Heq. apply H1. rewrite Heq. by apply list_elem_of_fmap_2.
Qed.

Lemma total_le e l : e ∈ l → (zlen (ce_data e) ≤ total l)%Z.
Proof.
  induction l as [|e' l IH]; [by intros ?%elem_of_nil|].
  rewrite total_cons. pose proof (zlen_nonneg (ce_data e')). pose proof (total_nonneg l).
  intros [->|Hin]%elem_of_cons; [lia|]. specialize (IH Hin). lia.
Qed.

Lemma move_to_front_wf c e h m :
  cache_wf c → items c !! ce_rid e = Some e →
  cache_wf (MkCache (items c) (move_to_front e (order c)) (curSize c) (maxSize c) h m).
Proof.
  intros [H1 H2 H3 H4] He. pose proof He as He'. apply H2 in He' as [Hin _].
  unfold move_to_front. split; cbn; [| | |done].
  - apply list.NoDup_cons. split; [|by apply nodup_remove].
    intros (e' & Heq & Hin')%list_elem_of_fmap. by apply elem_remove in Hin' as [_ ?].
  - intros rid x. rewrite H2, elem_of_cons, elem_remove. split.
    + intros [Hx <-]. split; [|done]. destruct (decide (ce_rid x = ce_rid e)) as [Heq|]; [left|by right].
      assert (items c !! ce_rid e = Some x) as Hx' by (apply H2; done). congruence.
    + intros [[->|[Hx _]] Hr]; done.
  - rewrite total_remove by done. lia.
Qed.

(** Taking an entry out of map and list. *)
Lemma remove_wf c e h m :
  cache_wf c → (curSize c < 2 ^ 63)%Z → items c !! ce_rid e = Some e →
  cache_wf (MkCache (delete (ce_rid e) (items c)) (list_remove (ce_rid e) (order c))
    (i64 (curSize c - zlen (ce_data e))) (maxSize c) h m).
Proof.
  intros [H1 H2 H3 H4] Hb He. pose proof He as He'. apply H2 in He' as [Hin _].
  pose proof (total_le _ _ Hin). pose proof (zlen_nonneg (ce_data e)).
  split; cbn; [by apply nodup_remove| | |done].
  - intros rid x. rewrite elem_remove, lookup_delete_Some, H2. split.
    + by intros (Hne & Hx & <-).
    + by intros ((Hx & Hne) & <-).
  - rewrite i64_id by (unfold min_int64, max_int64; lia). rewrite total_remove by done. lia.
Qed.

Lemma evictOldest_order c e l' :
  cache_wf c → order c = l' ++ [e] → order (evictOldest c) = l'.
Proof.
  intros Hwf Hl. unfold evictOldest. rewrite Hl, last_snoc. cbn [order].
  pose proof (cw_nodup c Hwf) as Hnd. rewrite Hl, fmap_app in Hnd.
  apply list.NoDup_app in Hnd as (_ & Hd & _).
  unfold list_remove. rewrite filter_app. change (filter _ [e]) with (list_remove (ce_rid e) [e]).
  rewrite remove_cons, decide_True by done. cbn [list_remove filter list_filter]. rewrite app_nil_r.
  apply (remove_absent (ce_rid e) l'). intros Hx. apply (Hd _ Hx). by left.
Qed.

Lemma evictOldest_wf c :
  cache_wf c → (curSize c < 2 ^ 63)%Z → order c ≠ [] →
  cache_wf (evictOldest c) ∧ (curSize (evictOldest c) ≤ curSize c)%Z ∧
  maxSize (evictOldest c) = maxSize c ∧ ∃ e, order c = order (evictOldest c) ++ [e].
Proof.
  intros Hwf Hb Hne. destruct (exists_last Hne) as (l' & e & Hl).
  pose proof (evictOldest_order c e l' Hwf Hl) as Ho.
  assert (e ∈ order c) as Hin by (rewrite Hl; apply elem_of_app; right; by left).
  assert (items c !! ce_rid e = Some e) as He by (by apply (cw_items c Hwf)).
  assert (last (order c) = Some e) as Hlast by (by rewrite Hl, last_snoc).
  rewrite Ho. unfold evictOldest in *. rewrite Hlast in *. cbn [order curSize maxSize] in *.
  split; [by apply remove_wf|]. pose proof (total_le _ _ Hin). pose proof (zlen_nonneg (ce_data e)).
  pose proof (total_nonneg (order c)). pose proof (cw_size c Hwf).
  rewrite i64_id by (unfold min_int64, max_int64; lia). split_and!; [lia|done|by exists e].
Qed.

(** Eviction ends, and keeps the longest front part that fits. *)
Lemma evict_loop_ok fuel c :
  cache_wf c → (curSize c < 2 ^ 63)%Z → length (order c) < fuel →
  ∃ c' gone, evict_loop fuel c = Ret c' ∧ cache_ok c' ∧ maxSize c' = maxSize c ∧
    order c = order c' ++ gone ∧ ∀ e, head gone = Some e → (maxSize c < total (order c' ++ [e]))%Z.
Proof.
  revert c. induction fuel as [|fuel IH]; intros c Hwf Hb Hf; [lia|]. cbn [evict_loop].
  destruct (Z.ltb_spec (maxSize c) (curSize c)) as [Hover|Hfit]; cbn [andb].
  2: { exists c, []. split; [done|]. split; [by split|]. by rewrite app_nil_r. }
  destruct (Nat.ltb_spec 0 (length (order c))) as [Hpos|Hz].
  - destruct (evictOldest_wf c Hwf Hb) as (H1 & H2 & H3 & e & Ho).
    { intros Hn. rewrite Hn in Hpos. cbn in Hpos. lia. }
    assert (length (order (evictOldest c)) < length (order c)) as Hlen.
    { rewrite Ho, length_app. cbn. lia. }
    destruct (IH (evictOldest c)) as (c' & gone & -> & Hok & Hm & Hg & Hmax); [done|lia|lia|].
    exists c', (gone ++ [e]). split; [done|]. split; [done|]. split; [congruence|].
    rewrite Ho at 1. rewrite Hg, <- app_assoc. split; [done|].
    destruct gone as [|e0 gone]; cbn.
    + intros x [= <-]. rewrite app_nil_r in Hg. rewrite <- Hg, <- Ho, <- (cw_size c Hwf). lia.
    + intros x [= <-]. rewrite <- H3. by apply Hmax.
  - exfalso. assert (order c = []) as Hn by (apply length_zero_iff_nil; lia).
    pose proof (cw_size c Hwf) as Hs. rewrite Hn in Hs. cbn in Hs.
    destruct (cw_max c Hwf). lia.
Qed.

Lemma cache_lookup_ok c rid :
  cache_ok c →
  let '(c', data) := cache_lookup c rid in
  cache_ok c' ∧ maxSize c' = maxSize c ∧ (∀ e, e ∈ order c' → e ∈ order c) ∧
  ∀ d, data = Some d → MkEntry rid d ∈ order c.
Proof.
  intros [Hwf Hb]. unfold cache_lookup. destruct (items c !! rid) as [e|] eqn:He.
  - pose proof He as He'. apply (cw_items c Hwf) in He' as [Hin Hr]. rewrite <- Hr in He.
    split_and!; [split; [by apply move_to_front_wf|done]|done| |].
    + cbn. intros x [->|Hx]%elem_of_cons; [done|]. by apply elem_remove in Hx as [? _].
    + intros d [= <-]. destruct e; cbn in *. by subst.
  - split_and!; [|done..]. split; [by destruct Hwf|done].
Qed.

(** Filling: the entry goes to the front, and the longest front part of the list
    that fits stays. *)
Lemma cache_fill_new c rid data :
  cache_ok c → (zlen data ≤ maxAlloc)%Z → items c !! rid = None →
  ∃ c' gone, cache_fill c rid data = Ret c' ∧ cache_ok c' ∧ maxSize c' = maxSize c ∧
    MkEntry rid data :: order c = order c' ++ gone ∧
    ∀ e, head gone = Some e → (maxSize c < total (order c' ++ [e]))%Z.
Proof.
  intros [Hwf Hb] Hd He. unfold cache_fill. rewrite He.
  pose proof (zlen_nonneg data). pose proof (total_nonneg (order c)). destruct (cw_max c Hwf).
  rewrite i64_id.
  2: { pose proof (cw_size c Hwf). unfold min_int64, max_int64, maxAlloc in *. lia. }
  cbn zeta. set (cn := MkCache _ _ _ _ _ _).
  destruct (evict_loop_ok (S (length (order cn))) cn) as (c' & gone & Hc & H');
    [|cbn; unfold maxAlloc in *; lia|lia|by exists c', gone].
  destruct Hwf as [W1 W2 W3 W4]. split; unfold cn;
    [cbn|cbn|cbn [curSize order]; rewrite total_cons; cbn [ce_data]; lia|done].
  - apply list.NoDup_cons. split; [|done].
    intros (e & Heq & Hin)%list_elem_of_fmap. assert (items c !! rid = Some e) by (by apply W2).
    congruence.
  - intros r x. rewrite lookup_insert_Some, elem_of_cons, W2. split.
    { intros [[<- <-]|[Hne [Hx Hr]]]; split; try done; [by left|by right]. }
    { intros [[->|Hx] Hr]; [by left|]. destruct (decide (rid = r)) as [->|Hne]; [|by right].
      exfalso. assert (items c !! r = Some x) by (by apply W2). congruence. }
Qed.

Lemma cache_fill_ok c rid data :
  cache_ok c → (zlen data ≤ maxAlloc)%Z →
  ∃ c', cache_fill c rid data = Ret c' ∧ cache_ok c' ∧ maxSize c' = maxSize c ∧
    ∀ e, e ∈ order c' → e ∈ order c ∨ e = MkEntry rid data.
Proof.
  intros Hok Hd. destruct (items c !! rid) as [e|] eqn:He.
  - unfold cache_fill. rewrite He. destruct Hok as [Hwf Hb].
    pose proof He as He'. apply (cw_items c Hwf) in He' as [Hin Hr]. rewrite <- Hr in He.
    eexists. split; [done|]. split_and!; [split; [by apply move_to_front_wf|done]|done|].
    cbn. intros x [->|Hx]%elem_of_cons; [by left|]. apply elem_remove in Hx as [? _]. by left.
  - destruct (cache_fill_new c rid data Hok Hd He) as (c' & gone & Hc & Hok' & Hm & Ho & _).
    exists c'. split_and!; [done..|]. intros e Hin.
    assert (e ∈ MkEntry rid data :: order c) as Hin' by (rewrite Ho; apply elem_of_app; by left).
    apply elem_of_cons in Hin' as [->|]; [by right|by left].
Qed.

Lemma Invalidate_ok c rid :
  cache_ok c → cache_ok (Invalidate c rid) ∧ maxSize (Invalidate c rid) = maxSize c ∧
    (∀ e, e ∈ order (Invalidate c rid) → e ∈ order c ∧ ce_rid e ≠ rid).
Proof.
  intros [Hwf Hb]. unfold Invalidate. destruct (items c !! rid) as [e|] eqn:He.
  - pose proof He as He'. apply (cw_items c Hwf) in He' as [Hin Hr]. subst rid.
    destruct (cw_max c Hwf).
    pose proof (remove_wf c e (hits c) (misses c) Hwf ltac:(lia) He) as Hwf'.
    split_and!; [split; [done|]|done|].
    + cbn. pose proof (total_le _ _ Hin). pose proof (zlen_nonneg (ce_data e)).
      rewrite (cw_size c Hwf) in *. rewrite i64_id by (unfold min_int64, max_int64; lia). lia.
    + intros x Hx. by apply elem_remove in Hx.
  - split_and!; [done..|]. intros e Hin. split; [done|]. intros <-.
    assert (items c !! ce_rid e = Some e) by (by apply (cw_items c Hwf)). congruence.
Qed.

Lemma Clear_ok c : cache_ok c → cache_ok (Clear c) ∧ order (Clear c) = [].
Proof.
  intros [[H1 H2 H3 H4] Hb]. split; [|done]. split; [|cbn; lia]. split; cbn; [apply base.NoDup_nil_2| |done|done].
  intros rid e. rewrite lookup_empty. split; [done|]. by intros [?%elem_of_nil _].
Qed.

Lemma NewCache_ok maxBytes c :
  (maxBytes ≤ 2 ^ 62)%Z → NewCache maxBytes = Ret c → cache_ok c ∧ order c = [].
Proof.
  unfold NewCache. destruct (Z.leb_spec maxBytes 0); [done|]. intros Hm [= <-].
  split; [|done]. split; [|cbn; lia]. split; cbn; [apply base.NoDup_nil_2| |done|lia].
  intros rid e. rewrite lookup_empty. split; [done|]. by intros [?%elem_of_nil _].
Qed.

(** ** Goroutines around one cache *)

Section system.
Context {codec : Zlib} {sha3 : Sha3}.

(** A goroutine inside [Cache.Expand]: between its first critical section, which
    missed, and its expansion; or before its second one, with the content. *)
Inductive caller := Missed (rid : Z) | Expanded (rid : Z) (data : bytes).

Record system := MkSystem { s_repo : repo; s_cache : Cache; s_callers : list caller }.

(** One atomic step of some goroutine: storage, a critical section of the cache,
    or an expansion, which reads the tables at one moment.  Callers come in any
    number and are served in any order. *)
Inductive system_step : system → system → Prop :=
  | sys_storage q q' c cs : storage_step q q' → system_step (MkSystem q c cs) (MkSystem q' c cs)
  | sys_hit q c c' cs rid data :
      cache_lookup c rid = (c', Some data) → system_step (MkSystem q c cs) (MkSystem q c' cs)
  | sys_miss q c c' cs rid :
      cache_lookup c rid = (c', None) →
      system_step (MkSystem q c cs) (MkSystem q c' (Missed rid :: cs))
  | sys_expand q c cs1 cs2 rid data :
      Expand q rid = Ret data → (zlen data ≤ maxAlloc)%Z →
      system_step (MkSystem q c (cs1 ++ Missed rid :: cs2))
                  (MkSystem q c (cs1 ++ Expanded rid data :: cs2))
  | sys_error q c cs1 cs2 rid e :
      Expand q rid = Fail e →
      system_step (MkSystem q c (cs1 ++ Missed rid :: cs2)) (MkSystem q c (cs1 ++ cs2))
  | sys_fill q c c' cs1 cs2 rid data :
      cache_fill c rid data = Ret c' →
      system_step (MkSystem q c (cs1 ++ Expanded rid data :: cs2)) (MkSystem q c' (cs1 ++ cs2))
  | sys_invalidate q c cs rid : system_step (MkSystem q c cs) (MkSystem q (Invalidate c rid) cs)
  | sys_clear q c cs : system_step (MkSystem q c cs) (MkSystem q (Clear c) cs).

(** Whatever is cached, or about to be, is the content of the artifact now. *)
Record system_ok (maxBytes : Z) (s : system) : Prop := {
  so_repo : repo_ok (s_repo s);
  so_cache : cache_ok (s_cache s);
  so_max : maxSize (s_cache s) = maxBytes;
  so_entries : ∀ e, e ∈ order (s_cache s) → (0 < ce_rid e)%Z ∧ expands (s_repo s) (ce_rid e) (ce_data e);
  so_callers : ∀ rid data, Expanded rid data ∈ s_callers s →
    (0 < rid)%Z ∧ expands (s_repo s) rid data ∧ (zlen data ≤ maxAlloc)%Z
}.

Lemma Expand_positive q rid data : Expand q rid = Ret data → (0 < rid)%Z.
Proof. unfold Expand. destruct (Z.leb_spec rid 0); [done|lia]. Qed.

Lemma system_step_ok m s s' : system_step s s' → system_ok m s → system_ok m s'.
Proof.
  intros Hs [H1 H2 H3 H4 H5]. destruct Hs; cbn in *.
  - destruct (storage_step_ok q q') as [Hok Hext]; [done..|]. split; cbn; try done.
    + intros e He. destruct (H4 e He). split; [done|]. by eapply expands_extends.
    + intros rid data Hin. destruct (H5 rid data Hin) as (? & ? & ?).
      split_and!; [done|by eapply expands_extends|done].
  - pose proof (cache_lookup_ok c rid H2) as Hl. rewrite H in Hl. destruct Hl as (? & Hm & Hin & _).
    split; cbn; try done; [congruence|]. intros e He. by apply H4, Hin.
  - pose proof (cache_lookup_ok c rid H2) as Hl. rewrite H in Hl. destruct Hl as (? & Hm & Hin & _).
    split; cbn; try done; [congruence| |].
    + intros e He. by apply H4, Hin.
    + intros r d [?|?]%elem_of_cons; [done|]. by apply H5.
  - split; cbn; try done. intros r d [Hin|[[= -> ->]|Hin]%elem_of_cons]%elem_of_app.
    + apply H5, elem_of_app. by left.
    + pose proof (Expand_positive _ _ _ H). split_and!; [done|by apply Expand_expands|done].
    + apply H5, elem_of_app. right. by right.
  - split; cbn; try done. intros r d [Hin|Hin]%elem_of_app; apply H5, elem_of_app; [by left|].
    right. by right.
  - destruct (H5 rid data) as (Hr & He & Hd); [apply elem_of_app; right; by left|].
    destruct (cache_fill_ok c rid data H2 Hd) as (c1 & Hc1 & Hok & Hm & Hin).
    assert (c1 = c') as -> by congruence. split; cbn; try done; [congruence| |].
    + intros e [He'| ->]%Hin; [by apply H4|done].
    + intros r d [Hi|Hi]%elem_of_app; apply H5, elem_of_app; [by left|]. right. by right.
  - destruct (Invalidate_ok c rid H2) as (? & Hm & Hin). split; cbn; try done; [congruence|].
    intros e [He _]%Hin. by apply H4.
  - destruct (Clear_ok c H2) as [? Ho]. split; cbn; try done. by intros e ?%elem_of_nil.
Qed.

Lemma system_reachable_ok maxBytes c0 s :
  (maxBytes ≤ 2 ^ 62)%Z → NewCache maxBytes = Ret c0 →
  rtc system_step (MkSystem empty_repo c0 []) s → system_ok maxBytes s.
Proof.
  intros Hm Hn Hs.
  assert (system_ok maxBytes (MkSystem empty_repo c0 [])) as H0.
  { destruct (NewCache_ok maxBytes c0 Hm Hn) as [Hok Ho].
    split; cbn; [apply empty_ok|done| | |by intros ? ? ?%elem_of_nil].
    - unfold NewCache in Hn. destruct (maxBytes <=? 0)%Z; [done|]. by injection Hn as <-.
    - rewrite Ho. by intros e ?%elem_of_nil. }
  revert H0. induction Hs as [|s1 s2 s3 Hs _ IH]; [done|]. intros H. apply IH. by eapply system_step_ok.
Qed.
End system.

(** ** Cluster batches *)

(** The batches [build_loop] cuts the list into. *)
Fixpoint batches (fuel : nat) (uuids : list bytes) : list (list bytes) :=
  match fuel, uuids with
  | S fuel, _ :: _ =>
    let n := batch_size (length uuids) in take n uuids :: batches fuel (drop n uuids)
  | _, _ => []
  end.

Lemma batch_size_pos n : 0 < n → 0 < batch_size n ≤ n.
Proof.
  unfold batch_size, ClusterMaxSize, ClusterThreshold. intros Hn.
  destruct (Nat.ltb_spec n 800); destruct (Nat.ltb_spec 0 (n - n)); try lia;
    destruct (Nat.ltb_spec 0 (n - 800)); destruct (Nat.ltb_spec (n - 800) 100); cbn [andb]; lia.
Qed.

(** A batch and what it leaves are both large enough for a cluster. *)
Lemma batch_size_bounds n :
  100 ≤ n → 100 ≤ batch_size n < 900 ∧ (n - batch_size n = 0 ∨ 100 ≤ n - batch_size n).
Proof.
  unfold batch_size, ClusterMaxSize, ClusterThreshold. intros Hn.
  destruct (Nat.ltb_spec n 800).
  - rewrite Nat.sub_diag. cbn [Nat.ltb andb]. cbn. lia.
  - destruct (Nat.ltb_spec 0 (n - 800)); destruct (Nat.ltb_spec (n - 800) 100); cbn [andb]; lia.
Qed.

Lemma batches_concat fuel uuids : length uuids < fuel → mjoin (batches fuel uuids) = uuids.
Proof.
  revert uuids. induction fuel as [|fuel IH]; intros uuids Hf; [lia|].
  destruct uuids as [|u uuids]; [done|]. cbn [batches]. cbn zeta.
  pose proof (batch_size_pos (length (u :: uuids)) ltac:(cbn; lia)).
  set (n := batch_size _) in *. cbn [mjoin list_join].
  rewrite IH; [apply take_drop|]. rewrite length_drop. lia.
Qed.

Lemma batches_bounds fuel uuids :
  length uuids = 0 ∨ 100 ≤ length uuids →
  Forall (λ b, 100 ≤ length b < 900) (batches fuel uuids).
Proof.
  revert uuids. induction fuel as [|fuel IH]; intros uuids Hl; [constructor|].
  destruct uuids as [|u uuids]; [constructor|]. cbn [batches]. cbn zeta.
  destruct Hl as [|Hl]; [done|]. pose proof (batch_size_bounds _ Hl) as [Hb Hrest].
  pose proof (batch_size_pos (length (u :: uuids)) ltac:(cbn; lia)).
  set (n := batch_size _) in *. apply list.Forall_cons_2.
  - rewrite length_take. lia.
  - apply IH. rewrite length_drop. lia.
Qed.

(** ** What building clusters does to the tables *)

Section clusters.
Context {codec : Zlib} {sha3 : Sha3}.

(** In [q'] the blob [rid] is named as the cluster of batch [b], carries the
    cluster tag, and is stored: it expands to a text of that name's hash.  The
    exception are phantoms that [q], from which [q'] was made, had of that name:
    [Store] returns their rid and stores nothing. *)
Definition is_cluster (q q' : repo) (b : list bytes) (rid : Z) : Prop :=
  (∃ row, t_blob q' !! rid = Some row ∧ b_uuid row = sha1_hex (Marshal (cluster_deck b)) ∧
    ((∃ text, expands q' rid text ∧ sha1_hex text = b_uuid row) ∨
     (t_blob q !! rid = Some row ∧ b_size row = (-1)%Z))) ∧
  t_tagxref q' !! (7%Z, rid) = Some (cluster_tag rid).

(** [q'] has what [q] has, and the artifacts [rids] were added. *)
Record grows (rids : list Z) (q q' : repo) : Prop := {
  gr_ok : repo_ok q';
  gr_extends : extends q q';
  gr_phantom : t_phantom q' = t_phantom q;
  gr_private : t_private q' = t_private q;
  gr_shun : t_shun q' = t_shun q;
  gr_unclustered : t_unclustered q ⊆ t_unclustered q';
  gr_new : ∀ rid, rid ∈ t_unclustered q' → rid ∈ t_unclustered q ∨ rid ∈ rids;
  gr_absent : ∀ rid row, t_blob q' !! rid = Some row → b_size row = (-1)%Z → t_blob q !! rid = Some row;
  gr_cluster : ∀ q0 b rid, is_cluster q0 q b rid → is_cluster q0 q' b rid
}.

Lemma extends_trans q1 q2 q3 : extends q1 q2 → extends q2 q3 → extends q1 q3.
Proof.
  intros (A1 & A2 & A3) (B1 & B2 & B3). split_and!; [by etrans|by etrans|].
  intros rid src H3 H1. destruct (t_delta q2 !! rid) as [s|] eqn:H2; [by eapply A3|].
  pose proof (B3 rid src H3 H2) as Hn. destruct (t_blob q1 !! rid) as [row|] eqn:Hb; [|done].
  by rewrite (lookup_weaken _ _ _ _ Hb A1) in Hn.
Qed.

Lemma grows_trans l1 l2 q1 q2 q3 : grows l1 q1 q2 → grows l2 q2 q3 → grows (l1 ++ l2) q1 q3.
Proof.
  intros [A1 A2 A3 A4 A5 A6 A7 A8 A9] [B1 B2 B3 B4 B5 B6 B7 B8 B9].
  split; [done|by eapply extends_trans|congruence|congruence|congruence|by etrans| |auto|auto].
  intros rid [[?|?]%A7|?]%B7; [by left|right|right]; apply elem_of_app; [by left|by right].
Qed.

Lemma Store_sets q content q' rid uuid :
  Store q content = Ret (q', rid, uuid) →
  t_phantom q' = t_phantom q ∧ t_private q' = t_private q ∧ t_shun q' = t_shun q ∧
  t_tagxref q' = t_tagxref q ∧ t_unclustered q ⊆ t_unclustered q' ∧
  t_unclustered q' ⊆ {[ rid ]} ∪ t_unclustered q ∧
  uuid = sha1_hex content ∧ ∃ row, t_blob q' !! rid = Some row ∧ b_uuid row = sha1_hex content.
Proof.
  unfold Store. destruct (length content =? 0); [done|].
  intros H. apply bind_ret_inv in H as (ex & Hex & H). apply Exists_ret in Hex as ->.
  destruct (rid_of_uuid q (sha1_hex content)) as [r|] eqn:Hu.
  { injection H as <- <- <-. split_and!; [done..| |done|by apply rid_of_uuid_Some]. set_solver. }
  cbn [Compress mbind outcome_bind] in H.
  apply bind_ret_inv in H as ([q1 rid1] & Hins & H).
  apply insert_blob_ret in Hins as (-> & Hn & _).
  apply bind_ret_inv in H as (rb & HL & H). case_bool_decide; [|done].
  injection H as <- <- <-. split_and!; cbn; [done..|set_solver|done|done|].
  eexists. split; [apply lookup_insert_eq|done].
Qed.

Lemma Store_rows q content q' rid uuid : Store q content = Ret (q', rid, uuid) →
  ∀ r row, t_blob q' !! r = Some row → t_blob q !! r = Some row ∨ b_uuid row = sha1_hex content.
Proof.
  unfold Store. destruct (length content =? 0); [done|].
  intros H. apply bind_ret_inv in H as (ex & Hex & H). apply Exists_ret in Hex as ->.
  destruct (rid_of_uuid q (sha1_hex content)) as [r|]; [by injection H as <- <- <-; left|].
  cbn [Compress mbind outcome_bind] in H.
  apply bind_ret_inv in H as ([q1 rid1] & Hins & H).
  apply insert_blob_ret in Hins as (-> & _).
  apply bind_ret_inv in H as (rb & _ & H). case_bool_decide; [|done].
  injection H as <- <- <-. intros r row. cbn.
  destruct (decide (r = rid1)) as [->|Hr]; [rewrite lookup_insert_eq; intros [= <-]; by right|].
  rewrite lookup_insert_ne by done. by left.
Qed.

Lemma Store_absent q content q' rid uuid : Store q content = Ret (q', rid, uuid) →
  ∀ r row, t_blob q' !! r = Some row → b_size row = (-1)%Z → t_blob q !! r = Some row.
Proof.
  unfold Store. destruct (length content =? 0); [done|].
  intros H. apply bind_ret_inv in H as (ex & Hex & H). apply Exists_ret in Hex as ->.
  destruct (rid_of_uuid q (sha1_hex content)) as [r|]; [by injection H as <- <- <-|].
  cbn [Compress mbind outcome_bind] in H.
  apply bind_ret_inv in H as ([q1 rid1] & Hins & H).
  apply insert_blob_ret in Hins as (-> & _).
  apply bind_ret_inv in H as (rb & _ & H). case_bool_decide; [|done].
  injection H as <- <- <-. intros r row. cbn.
  destruct (decide (r = rid1)) as [->|Hr]; [rewrite lookup_insert_eq; intros [= <-]; unfold zlen; cbn; lia|].
  by rewrite lookup_insert_ne.
Qed.

(** What is present under a SHA-1 name expands to a text with that hash. *)
Lemma present_expands q rid row content : repo_ok q → t_blob q !! rid = Some row → b_uuid row = sha1_hex content →
  b_size row ≠ (-1)%Z → ∃ text, expands q rid text ∧ sha1_hex text = b_uuid row.
Proof.
  intros Hok Hrow Hu Hs. destruct (ok_content _ Hok _ _ Hrow Hs) as (c & He & Hh). exists c. split; [done|].
  unfold hash_of in Hh. by rewrite Hu, length_sha1_hex in *.
Qed.

Lemma is_cluster_extends q0 q q' b rid : extends q q' →
  t_tagxref q' !! (7%Z, rid) = Some (cluster_tag rid) → is_cluster q0 q b rid → is_cluster q0 q' b rid.
Proof.
  intros Hext Ht [(row & Hr & Hu & Hc) _]. split; [|done]. exists row. split_and!; [|done|].
  - destruct Hext as (Hb & _). by eapply lookup_weaken.
  - destruct Hc as [(text & He & Hh)|?]; [|by right]. left. exists text. split; [by eapply expands_extends|done].
Qed.

(** One turn of the loop. *)
Lemma cluster_grows q b q1 rid uuid :
  repo_ok q → Store q (Marshal (cluster_deck b)) = Ret (q1, rid, uuid) →
  let q' := with_tagxref <[(7%Z, rid) := cluster_tag rid]> q1 in
  grows [rid] q q' ∧ is_cluster q q' b rid.
Proof.
  intros Hok HS. pose proof (Store_extends _ _ _ _ _ HS) as Hext.
  pose proof (Store_ok _ _ _ _ _ Hok HS) as Hok1.
  destruct (Store_sets _ _ _ _ _ HS) as (S1 & S2 & S3 & S4 & S5 & S6 & _ & Hrow). cbn zeta.
  assert (extends q (with_tagxref <[(7%Z, rid) := cluster_tag rid]> q1)) as Hext' by done.
  split.
  - split; cbn; [by apply (repo_ok_ext q1)|done|done..| | |].
    + intros r Hr%S6. apply elem_of_union in Hr as [->%elem_of_singleton|?]; [right; by left|by left].
    + by apply (Store_absent _ _ _ _ _ HS).
    + intros q0 b' r Hc. apply (is_cluster_extends q0 q); [done| |done]. cbn. destruct Hc as [_ Ht].
      rewrite S4. destruct (decide (r = rid)) as [->|Hne]; [by rewrite lookup_insert_eq|].
      by rewrite lookup_insert_ne by congruence.
  - destruct Hrow as (row & Hrow & Hu). split; [|cbn; apply lookup_insert_eq]. exists row. split_and!; [done..|].
    destruct (decide (b_size row = (-1)%Z)) as [Hs|Hs]; [right; split; [by apply (Store_absent _ _ _ _ _ HS)|done]|left].
    apply (present_expands _ rid row (Marshal (cluster_deck b))); [by apply (repo_ok_ext q1)|done..].
Qed.

Lemma is_cluster_before rids q0 q q' b rid : grows rids q0 q → is_cluster q q' b rid → is_cluster q0 q' b rid.
Proof.
  intros Hg [(row & Hr & Hu & Hc) Ht]. split; [|done]. exists row. split_and!; [done..|].
  destruct Hc as [?|[Hq Hs]]; [by left|right]. split; [by apply (gr_absent _ _ _ Hg)|done].
Qed.

Lemma build_loop_grows fuel q uuids acc q' rids :
  repo_ok q → build_loop fuel q uuids acc = Ret (q', rids) →
  ∃ new, rids = acc ++ new ∧ grows new q q' ∧ Forall2 (is_cluster q q') (batches fuel uuids) new.
Proof.
  revert q uuids acc. induction fuel as [|fuel IH]; intros q uuids acc Hok; [done|].
  destruct uuids as [|u uuids]; cbn [build_loop batches].
  { intros [= <- <-]. exists []. rewrite app_nil_r. split_and!; [done| |constructor].
    split; try done; [apply extends_refl|by left]. }
  cbn zeta. set (n := batch_size _). set (b := take n _). intros H.
  apply bind_ret_inv in H as ([[q1 rid] uuid] & HS & H).
  destruct (cluster_grows q b q1 rid uuid Hok HS) as [Hg Hc]. cbn zeta in Hg, Hc.
  apply IH in H as (new & -> & Hg' & Hall); [|by destruct Hg].
  exists (rid :: new). rewrite <- app_assoc. split_and!; [done|by apply (grows_trans [rid] new _ _ _ Hg)|].
  constructor; [by apply (gr_cluster _ _ _ Hg')|].
  eapply Forall2_impl; [exact Hall|]. intros b' r. by apply (is_cluster_before _ _ _ _ _ _ Hg).
Qed.

End clusters.

(** ** Building clusters succeeds *)

Section cluster_total.
Context {codec : Zlib} {laws : ZlibLaws} {sha3 : Sha3}.

Lemma Store_total q content :
  content ≠ [] → (zlen content < 2 ^ 32)%Z → ∃ q' rid uuid, Store q content = Ret (q', rid, uuid).
Proof.
  intros Hne Hlt. destruct (rid_of_uuid q (sha1_hex content)) as [r|] eqn:Hu.
  - exists q, r, (sha1_hex content). unfold Store.
    destruct (Nat.eqb_spec (length content) 0) as [Hz|_]; [by apply length_zero_iff_nil in Hz|].
    by rewrite sha1_hex_exists, Hu.
  - destruct (Store_new q content Hne Hlt Hu) as (st & _ & HS & _). by do 3 eexists.
Qed.

Lemma marshal_cluster b :
  marshalCards (cluster_deck b) = concat (map (λ m, line "M"%byte m) (sort_slice str_ltb b)).
Proof. unfold marshalCards, cluster_deck. cbn -[sort_slice]. by rewrite app_nil_r. Qed.

Lemma length_M_lines l k :
  Forall (λ m : bytes, length m ≤ k) l →
  length (concat (map (λ m, line "M"%byte m) l)) ≤ length l * (k + 3).
Proof.
  induction 1 as [|m l Hm _ IH]; [done|]. cbn [map concat length]. rewrite length_app.
  unfold line at 1. cbn [length]. rewrite length_app. cbn [length]. lia.
Qed.

Lemma marshal_cluster_size b :
  length b ≤ 900 → Forall (λ m : bytes, length m ≤ 1000) b →
  Marshal (cluster_deck b) ≠ [] ∧ (zlen (Marshal (cluster_deck b)) < 2 ^ 32)%Z.
Proof.
  intros Hb Hl. unfold Marshal. rewrite marshal_cluster. split.
  - intros Hn. apply (f_equal length) in Hn. rewrite length_app, Zline_length in Hn. cbn [length] in Hn. lia.
  - unfold zlen. rewrite length_app, Zline_length.
    pose proof (length_M_lines (sort_slice str_ltb b) 1000 (sort_slice_Forall _ _ _ Hl)) as H.
    rewrite (Permutation_length (sort_slice_perm str_ltb b)) in H. lia.
Qed.

Lemma build_loop_total fuel q uuids acc :
  length uuids < fuel → Forall (λ m : bytes, length m ≤ 1000) uuids →
  ∃ q' rids, build_loop fuel q uuids acc = Ret (q', rids).
Proof.
  revert q uuids acc. induction fuel as [|fuel IH]; intros q uuids acc Hf Hl; [lia|].
  destruct uuids as [|u uuids]; cbn [build_loop]; [by do 2 eexists|]. cbn zeta.
  pose proof (batch_size_pos (length (u :: uuids)) ltac:(cbn; lia)) as Hn.
  assert (batch_size (length (u :: uuids)) ≤ 900) as Hmax.
  { unfold batch_size, ClusterMaxSize, ClusterThreshold.
    destruct (Nat.ltb_spec (length (u :: uuids)) 800);
      repeat match goal with |- context [?a <? ?b] => destruct (Nat.ltb_spec a b) end; cbn [andb]; lia. }
  set (n := batch_size _) in *.
  destruct (marshal_cluster_size (take n (u :: uuids))) as [Hne Hlt].
  { rewrite length_take. lia. }
  { by apply Forall_take. }
  destruct (Store_total q _ Hne Hlt) as (q1 & rid & uuid & ->). cbn [mbind outcome_bind].
  apply IH; [rewrite length_drop; lia|by apply Forall_drop].
Qed.
End cluster_total.

(** Rows that [clusterableUUIDs] selects. *)
Lemma elem_clusterableUUIDs q u :
  u ∈ clusterableUUIDs q ↔ ∃ rid, rid ∈ t_unclustered q ∧ clusterable q rid = Some u.
Proof.
  unfold clusterableUUIDs. rewrite (sort_slice_perm str_ltb). rewrite list_elem_of_omap.
  split; intros (rid & H1 & H2); exists rid; (split; [|done]); by apply elem_of_elements.
Qed.

Lemma clusterable_uuid q rid u :
  clusterable q rid = Some u → ∃ row, t_blob q !! rid = Some row ∧ b_uuid row = u.
Proof.
  unfold clusterable. destruct (t_blob q !! rid) as [row|]; [|done].
  destruct (_ || _); [done|]. intros [= <-]. by exists row.
Qed.

(** The rows that the DELETE removes are the clusterable ones outside the new
    clusters, and rows without a blob. *)
Lemma stays_iff q rids rid :
  stays_unclustered q rids rid = false ↔
    (rid ∉ rids) ∧ (rid ∉ t_phantom q) ∧ (rid ∉ t_private q) ∧
    ∀ row, t_blob q !! rid = Some row → b_uuid row ∉ dom (t_shun q).
Proof.
  unfold stays_unclustered, shunned. rewrite !orb_false_iff, !bool_decide_eq_false.
  destruct (t_blob q !! rid) as [row|] eqn:Hr.
  - rewrite bool_decide_eq_false. split.
    + intros [[[H1 H2] H3] H4]. split_and!; [done..|]. by intros ? [= <-].
    + intros (H1 & H2 & H3 & H4). split_and!; [done..|by apply H4|done].
  - split; [by intros [[[H1 H2] H3] H4]|by intros (H1 & H2 & H3 & _)].
Qed.

Lemma clusterable_iff q rid u :
  clusterable q rid = Some u ↔ ∃ row, t_blob q !! rid = Some row ∧ b_uuid row = u ∧
    (rid ∉ t_phantom q) ∧ (rid ∉ t_private q) ∧ u ∉ dom (t_shun q).
Proof.
  unfold clusterable. destruct (t_blob q !! rid) as [row|] eqn:Hr.
  2: { split; [done|]. by intros (? & ? & _). }
  split.
  - repeat (case_bool_decide; cbn [orb]; [done|]). intros [= <-]. by exists row.
  - intros (row' & [= <-] & <- & H1 & H2 & H3). by rewrite !bool_decide_false.
Qed.

Lemma cluster_deck_parse b :
  b ≠ [] → Forall trimmed b →
  ∃ d, Parse (Some (Marshal (cluster_deck b))) = Ret d ∧ d_Type d = Cluster ∧ d_M d ≡ₚ b.
Proof.
  intros Hne Ht. exists (canonical (cluster_deck b)). split_and!.
  - apply Parse_Marshal.
    assert (trimmed []) as Hnil by (split; [done|apply not_elem_of_nil]).
    split; cbn; try done. by left.
  - unfold canonical, cluster_deck, inferType. cbn -[sort_slice]. by destruct b.
  - apply (sort_slice_perm str_ltb b).
Qed.

Lemma batches_nonempty fuel uuids b : b ∈ batches fuel uuids → b ≠ [].
Proof.
  revert uuids. induction fuel as [|fuel IH]; intros uuids; [by intros ?%elem_of_nil|].
  destruct uuids as [|u uuids]; cbn [batches]; [by intros ?%elem_of_nil|]. cbn zeta.
  pose proof (batch_size_pos (length (u :: uuids)) ltac:(cbn; lia)).
  set (n := batch_size _) in *. intros [->|Hb]%elem_of_cons; [|by eapply IH].
  destruct n; [lia|done].
Qed.

Lemma cleanup_new q rids rid :
  length rids ≠ 0 →
  rid ∈ t_unclustered (cleanupUnclustered q rids) ↔
    rid ∈ t_unclustered q ∧ stays_unclustered q rids rid = true.
Proof.
  intros Hl. unfold cleanupUnclustered. destruct (Nat.eqb_spec (length rids) 0); [done|]. cbn.
  rewrite elem_of_filter. tauto.
Qed.

(** ** Properties *)

(** C30. The cache is coherent and bounded however goroutines interleave: in
    every state reachable from a new cache and an empty repository by storing,
    lookups, expansions, fills, invalidations and clears, a hit returns exactly
    what expanding the artifact now would, the cached bytes are accounted and
    within the limit, and every pending fill succeeds. *)
Theorem cache_coherent {codec : Zlib} {sha3 : Sha3} maxBytes c0 s :
  (maxBytes ≤ 2 ^ 62)%Z → NewCache maxBytes = Ret c0 →
  rtc system_step (MkSystem empty_repo c0 []) s →
  (∀ rid c' data, cache_lookup (s_cache s) rid = (c', Some data) → Expand (s_repo s) rid = Ret data) ∧
  curSize (s_cache s) = total (order (s_cache s)) ∧ (curSize (s_cache s) ≤ maxBytes)%Z ∧
  ∀ rid data, Expanded rid data ∈ s_callers s → ∃ c', cache_fill (s_cache s) rid data = Ret c'.
Proof.
  intros Hm Hn Hs. destruct (system_reachable_ok _ _ _ Hm Hn Hs) as [H1 H2 H3 H4 H5].
  split_and!.
  - intros rid c' data Hl. pose proof (cache_lookup_ok (s_cache s) rid H2) as Hok.
    rewrite Hl in Hok. destruct Hok as (_ & _ & _ & Hin).
    destruct (H4 _ (Hin data eq_refl)) as [Hr He]. by apply Expand_expands.
  - apply H2.
  - rewrite <- H3. apply H2.
  - intros rid data Hin. destruct (H5 rid data Hin) as (_ & _ & Hd).
    destruct (cache_fill_ok (s_cache s) rid data H2 Hd) as (c' & Hc & _). by exists c'.
Qed.

(** Eviction is least-recently-used and no more than needed: caching new content
    puts it in front and keeps the longest front part of the recency list that
    fits the limit. *)
Theorem cache_fill_recent c rid data :
  cache_ok c → (zlen data ≤ maxAlloc)%Z → items c !! rid = None →
  ∃ c' gone, cache_fill c rid data = Ret c' ∧ MkEntry rid data :: order c = order c' ++ gone ∧
    (total (order c') ≤ maxSize c)%Z ∧
    (∀ e, head gone = Some e → (maxSize c < total (order c' ++ [e]))%Z) ∧
    ∀ r e, items c' !! r = Some e ↔ e ∈ order c' ∧ ce_rid e = r.
Proof.
  intros Hok Hd Hn. destruct (cache_fill_new c rid data Hok Hd Hn) as (c' & gone & Hc & [Hwf Hb] & Hm & Ho & Hg).
  exists c', gone. split_and!; [done|done| |done|apply Hwf].
  rewrite <- (cw_size c' Hwf), <- Hm. done.
Qed.

(** C31. Cluster generation announces every artifact once and loses none: below
    100 candidates nothing changes; otherwise the candidates are cut into
    batches of 100 to 899 uuids, each stored as a tagged cluster artifact, only
    the new clusters remain as candidates, and an artifact leaves the
    unclustered table only if it was a candidate, that is, listed in a batch.
    Stored means that the artifact expands to a text of the cluster's hash; only
    if the repository had a phantom of that hash before, the phantom stays (the
    findings name this behaviour of [Store]). The repository is consistent. *)
Theorem GenerateClusters_spec {codec : Zlib} {sha3 : Sha3} q q' n :
  repo_ok q → GenerateClusters q = Ret (q', n) →
  if length (clusterableUUIDs q) <? 100 then q' = q ∧ n = 0 else
  ∃ bs rids, mjoin bs = clusterableUUIDs q ∧ Forall (λ b, 100 ≤ length b < 900) bs ∧
    length rids = n ∧ Forall2 (is_cluster q q') bs rids ∧ repo_ok q' ∧ extends q q' ∧
    (∀ rid u, rid ∈ t_unclustered q' → clusterable q' rid = Some u → rid ∈ rids) ∧
    (∀ rid row, rid ∈ t_unclustered q → t_blob q !! rid = Some row →
      rid ∈ t_unclustered q' ∨ b_uuid row ∈ clusterableUUIDs q).
Proof.
  intros Hok. unfold GenerateClusters, ClusterThreshold.
  destruct (Nat.ltb_spec (length (clusterableUUIDs q)) 100) as [Hlt|Hge]; [by intros [= -> ->]|].
  intros H. apply bind_ret_inv in H as ([q1 rids] & Hb & H). injection H as <- <-.
  unfold buildClusters in Hb.
  destruct (build_loop_grows _ _ _ _ _ _ Hok Hb) as (new & -> & Hg & Hall). cbn [app] in *.
  set (bs := batches _ _) in *.
  assert (mjoin bs = clusterableUUIDs q) as Hj by (apply batches_concat; lia).
  assert (length new ≠ 0) as Hnew.
  { intros Hz. apply length_zero_iff_nil in Hz. subst new. apply Forall2_nil_inv_r in Hall.
    rewrite Hall in Hj. rewrite <- Hj in Hge. cbn [mjoin list_join length] in Hge. lia. }
  exists bs, new. pose proof (cleanup_new q1 new) as Hclean.
  assert (∃ f, cleanupUnclustered q1 new = with_unclustered f q1) as [f Hf].
  { unfold cleanupUnclustered. destruct (Nat.eqb_spec (length new) 0); [done|]. by eexists. }
  split_and!; [done|apply batches_bounds; lia|done| | | | |].
  - eapply Forall2_impl; [exact Hall|]. intros b r Hc. rewrite Hf. apply (is_cluster_extends q q1); [exact (extends_refl q1)|by destruct Hc|done].
  - rewrite Hf. by eapply (repo_ok_ext q1), Hg.
  - rewrite Hf. apply Hg.
  - intros rid u [_ Hst]%Hclean Hcl; [|done]. rewrite Hf in Hcl.
    apply clusterable_iff in Hcl as (row & Hrow & <- & Hp & Hv & Hsh). cbn in *.
    destruct (decide (rid ∈ new)); [done|]. exfalso.
    rewrite (proj2 (stays_iff q1 new rid)) in Hst; [done|]. split_and!; [done..|].
    intros row' Hrow'. by assert (row' = row) as -> by congruence.
  - intros rid row Hin Hrow. destruct (stays_unclustered q1 new rid) eqn:Hst.
    { left. apply Hclean; [done|]. split; [|done]. by apply (gr_unclustered _ _ _ Hg). }
    right. apply stays_iff in Hst as (_ & Hp & Hv & Hsh). destruct Hg as [_ (Hext & _) G1 G2 G3 _ _ _].
    rewrite G1 in Hp. rewrite G2 in Hv. rewrite G3 in Hsh.
    apply elem_clusterableUUIDs. exists rid. split; [done|]. apply clusterable_iff.
    exists row. split_and!; [done..|]. apply Hsh. by eapply lookup_weaken.
Qed.

(** Cluster generation succeeds on every repository whose uuids are of a sane
    length and free of blanks, and the text of each cluster it stores parses
    back to a cluster listing the uuids of its batch. *)
Theorem GenerateClusters_total {codec : Zlib} {laws : ZlibLaws} q :
  (∀ rid row, t_blob q !! rid = Some row → length (b_uuid row) ≤ 1000 ∧ trimmed (b_uuid row)) →
  (∃ q' n, GenerateClusters q = Ret (q', n)) ∧
  ∀ b, b ∈ batches (S (length (clusterableUUIDs q))) (clusterableUUIDs q) →
    ∃ d, Parse (Some (Marshal (cluster_deck b))) = Ret d ∧ d_Type d = Cluster ∧ d_M d ≡ₚ b.
Proof.
  intros Hu.
  assert (∀ u, u ∈ clusterableUUIDs q → length u ≤ 1000 ∧ trimmed u) as Hall.
  { intros u (rid & _ & Hc)%elem_clusterableUUIDs.
    apply clusterable_uuid in Hc as (row & Hrow & <-). by apply (Hu rid). }
  split.
  - unfold GenerateClusters. destruct (_ <? _); [by do 2 eexists|].
    destruct (build_loop_total (S (length (clusterableUUIDs q))) q (clusterableUUIDs q) [])
      as (q' & rids & Hb); [lia|apply Forall_forall; intros u Hin; by apply Hall|].
    unfold buildClusters. rewrite Hb. by do 2 eexists.
  - intros b Hb. apply cluster_deck_parse; [by eapply batches_nonempty|].
    apply Forall_forall. intros u Hin. apply Hall.
    rewrite <- (batches_concat (S (length (clusterableUUIDs q))) (clusterableUUIDs q)) by lia.
    apply list_elem_of_join. by exists b.
Qed.

(** ** Witnesses *)

#[local] Existing Instance stored.
#[local] Existing Instance stored_laws.
#[local] Existing Instance test_sha3.

(** Storing a list of contents one after the other. *)
Definition store_list (q : repo) (l : list bytes) : repo :=
  foldl (λ q content, match Store q content with Ret (q, _, _) => q | _ => q end) q l.

Lemma store_list_ok q l : repo_ok q → repo_ok (store_list q l).
Proof.
  revert q. induction l as [|content l IH]; intros q Hok; [done|]. cbn. apply IH.
  destruct (Store q content) as [[[q' rid] uuid]| | |] eqn:HS; try done. by eapply Store_ok.
Qed.

(** Storing adds no uuids but the hash of the content. *)
Lemma store_list_uuids (P : bytes → Prop) q l :
  (∀ content, P (sha1_hex content)) → (∀ rid row, t_blob q !! rid = Some row → P (b_uuid row)) →
  ∀ rid row, t_blob (store_list q l) !! rid = Some row → P (b_uuid row).
Proof.
  intros HP. revert q. induction l as [|content l IH]; intros q Hq; [done|]. cbn. apply IH.
  destruct (Store q content) as [[[q' r] uuid]| | |] eqn:HS; try done.
  intros rid row Hrow. destruct (Store_rows q content q' r uuid HS rid row Hrow) as [H|Hu]; [by eapply Hq|]. by rewrite Hu.
Qed.

Lemma hash_trimmed content : trimmed (sha1_hex content).
Proof.
  pose proof (hex_lower_graph _ (hex_encode_lower (sha1 content))) as Hg.
  split; [by apply TrimSpace_graph|]. by apply word_no_NL, no_space_graph.
Qed.

Definition repo_100 : repo :=
  store_list empty_repo (map (λ n, str "artifact " ++ fmt_int (Z.of_nat n)) (seq 0 100)).

Definition cache0 : Cache := MkCache ∅ [] 0 64 0 0.
Definition cache1 : Cache := (cache_lookup cache0 1).1.
Definition filled (m : out Cache) : Cache := match m with Ret c => c | _ => cache0 end.
Definition cache2 : Cache := filled (cache_fill cache1 1 text_a).
Definition after_fill : system := MkSystem repo_a cache2 [].

(** Store an artifact, miss it, expand it, cache it, hit it. *)
Lemma cache_coherent_witness :
  rtc system_step (MkSystem empty_repo cache0 []) after_fill ∧
  Expand (s_repo after_fill) 1 = Ret text_a.
Proof.
  assert (rtc system_step (MkSystem empty_repo cache0 []) after_fill) as Hs.
  { eapply rtc_l; [apply (sys_storage empty_repo repo_a)|].
    { eapply (step_store empty_repo text_a repo_a 1 (sha1_hex text_a)). vm_compute. reflexivity. }
    eapply rtc_l; [apply (sys_miss repo_a cache0 cache1 [] 1); vm_compute; reflexivity|].
    eapply rtc_l; [apply (sys_expand repo_a cache1 [] [] 1 text_a); [vm_compute; reflexivity|by_decide]|].
    apply rtc_once, (sys_fill repo_a cache1 cache2 [] [] 1 text_a). vm_compute. reflexivity. }
  split; [exact Hs|].
  destruct (cache_coherent 64 cache0 after_fill) as [H _]; [done|reflexivity|exact Hs|].
  exact (H 1%Z (cache_lookup (s_cache after_fill) 1).1 text_a ltac:(vm_compute; reflexivity)).
Defined.

Lemma cache0_ok : cache_ok cache0.
Proof. apply (NewCache_ok 64 cache0); [done|reflexivity]. Qed.

Lemma cache_fill_recent_witness :
  ∃ c' gone, cache_fill cache0 1 text_a = Ret c' ∧ MkEntry 1 text_a :: [] = order c' ++ gone.
Proof.
  destruct (cache_fill_recent cache0 1 text_a cache0_ok) as (c' & gone & H1 & H2 & _);
    [by_decide|reflexivity|].
  exists c', gone. exact (conj H1 H2).
Defined.

Lemma repo_100_ok : repo_ok repo_100.
Proof. apply store_list_ok, empty_ok. Qed.

Lemma repo_100_uuids : ∀ rid row, t_blob repo_100 !! rid = Some row →
  length (b_uuid row) ≤ 1000 ∧ trimmed (b_uuid row).
Proof.
  apply (store_list_uuids (λ u, length u ≤ 1000 ∧ trimmed u)); [|by intros rid row]. intros content. split; [rewrite length_sha1_hex; lia|].
  apply hash_trimmed.
Qed.

(** A hundred artifacts are put into clusters. *)
Lemma GenerateClusters_spec_witness :
  ∃ q n bs rids, GenerateClusters repo_100 = Ret (q, n) ∧ mjoin bs = clusterableUUIDs repo_100 ∧
    length rids = n ∧ Forall2 (is_cluster repo_100 q) bs rids.
Proof.
  destruct (GenerateClusters_total repo_100 repo_100_uuids) as [(q & n & Hg) _].
  pose proof (GenerateClusters_spec repo_100 q n repo_100_ok Hg) as H.
  assert ((length (clusterableUUIDs repo_100) <? 100) = false) as Hn by (vm_compute; reflexivity).
  rewrite Hn in H. destruct H as (bs & rids & H1 & _ & H2 & H3 & _).
  exists q, n, bs, rids. exact (conj Hg (conj H1 (conj H2 H3))).
Defined.

Lemma GenerateClusters_total_witness : ∃ q' n, GenerateClusters repo_a = Ret (q', n).
Proof.
  apply (GenerateClusters_total repo_a). intros rid row Hrow.
  assert (rid = 1%Z ∧ b_uuid row = sha1_hex text_a) as [_ ->].
  { assert (t_blob repo_a = {[ 1%Z := MkBlob (sha1_hex text_a) 43
      (Some (size_prefix 43 ++ deflate text_a)) 1 ]}) as Hb by (vm_compute; reflexivity).
    rewrite Hb in Hrow. apply lookup_singleton_Some in Hrow as [<- <-].
    cbn [b_uuid]. exact (conj eq_refl eq_refl). }
  split; [by_decide|]. split; [vm_compute; reflexivity|by_decide].
Defined.

(** ** Findings *)

(** [ClusterMaxSize], documented as the maximum number of M cards of a cluster, is
    exceeded when fewer than [ClusterThreshold] uuids would remain. *)
Example cluster_exceeds_max : ClusterMaxSize = 800 ∧ batch_size 899 = 899.
Proof. split; reflexivity. Qed.
