(* ===== verification/Merge.v ===== *)
(** * Three-way merge (src/internal/merge)

    The strategies (strategy.go, threeway.go, binary.go, lastwriter.go, fork.go)
    and their registry.  Line indices are naturals: the code's are never negative.
    A cursor into a slice of hunks is the hunks from it on. *)
From S2P Require Import Prelude GoStrings.
From stdpp Require Import list sorting.

Record Conflict := MkConflict {
  cf_StartLine : nat; cf_EndLine : nat; cf_Local : bytes; cf_Remote : bytes; cf_Base : bytes }.

Record Result := MkResult {
  rs_Content : bytes; rs_Conflicts : list Conflict; rs_Clean : bool }.

(** Replace [base[baseStart:baseEnd]] with [lines]. *)
Record hunk := MkHunk { baseStart : nat; baseEnd : nat; h_lines : list bytes }.

Record lcsMatch := MkMatch { baseIdx : nat; modIdx : nat }.

(** No call here returns an error. *)
Abbreviation out := (outcome Empty_set).

(** ** Lines *)

Definition splitLines (data : bytes) : list bytes :=
  if length data =? 0 then [] else
  let lines := SplitAfter data NL in
  if bool_decide (last lines = Some []) then take (length lines - 1) lines else lines.

(** ** Longest common subsequence *)

(** One row of the table, from the row below it: [right] is [dp[i][j+1]], [down]
    is [dp[i+1][j]], [diag] is [dp[i+1][j+1]]. *)
Fixpoint dp_row (x : bytes) (b : list bytes) (below : list nat) : list nat :=
  match b, below with
  | y :: b', down :: below' =>
    let row := dp_row x b' below' in
    let right := hd 0 row in
    let diag := hd 0 below' in
    (if bool_decide (x = y) then diag + 1 else if right <=? down then down else right) :: row
  | _, _ => [0]
  end.

Fixpoint dp_table (a b : list bytes) : list (list nat) :=
  match a with
  | [] => [replicate (S (length b)) 0]
  | x :: a' => let rows := dp_table a' b in dp_row x b (hd [] rows) :: rows
  end.

Definition dp_get (dp : list (list nat)) (i j : nat) : out nat :=
  row ← index dp i; index row j.

Fixpoint lcs_backtrack (fuel : nat) (dp : list (list nat)) (a b : list bytes) (i j : nat)
    (matches : list lcsMatch) : out (list lcsMatch) :=
  match fuel with
  | O => NoFuel
  | S fuel =>
    if (i <? length a) && (j <? length b) then
      x ← index a i;
      y ← index b j;
      if bool_decide (x = y) then
        lcs_backtrack fuel dp a b (S i) (S j) (matches ++ [MkMatch i j])
      else
        down ← dp_get dp (S i) j;
        right ← dp_get dp i (S j);
        if right <=? down then lcs_backtrack fuel dp a b (S i) j matches
        else lcs_backtrack fuel dp a b i (S j) matches
    else Ret matches
  end.

Definition longestCommonSubseq (a b : list bytes) : out (list lcsMatch) :=
  lcs_backtrack (S (length a + length b)) (dp_table a b) a b 0 0 [].

(** ** Hunks *)

Fixpoint diff_loop (modified : list bytes) (lcs : list lcsMatch) (bi mi : nat)
    (hunks : list hunk) : out (nat * nat * list hunk) :=
  match lcs with
  | [] => Ret (bi, mi, hunks)
  | m :: lcs =>
    hunks ← (if (bi <? baseIdx m) || (mi <? modIdx m) then
               lines ← subslice modified mi (modIdx m);
               Ret (hunks ++ [MkHunk bi (baseIdx m) lines])
             else Ret hunks);
    diff_loop modified lcs (S (baseIdx m)) (S (modIdx m)) hunks
  end.

Definition diffLines (base modified : list bytes) : out (list hunk) :=
  lcs ← longestCommonSubseq base modified;
  '(bi, mi, hunks) ← diff_loop modified lcs 0 0 [];
  if (bi <? length base) || (mi <? length modified) then
    lines ← subslice modified mi (length modified);
    Ret (hunks ++ [MkHunk bi (length base) lines])
  else Ret hunks.

Definition sameHunkContent (a b : hunk) : bool := bool_decide (h_lines a = h_lines b).

Definition hunksOverlap (a b : hunk) : bool :=
  (baseStart a <? baseEnd b) && (baseStart b <? baseEnd a).

(** The newline a side needs before the next marker. *)
Definition missing_newline (lines : list bytes) : list bytes :=
  match last lines with
  | Some l => if negb (HasSuffix l [NL]) then [[NL]] else []
  | None => []
  end.

Definition handleOverlappingHunks (base : list bytes) (lh rh : hunk) (bi : nat) :
    out (list bytes * option Conflict) :=
  if sameHunkContent lh rh then Ret (h_lines lh, None) else
  let start := Nat.min (baseStart lh) (baseStart rh) in
  let end_ := Nat.max (baseEnd lh) (baseEnd rh) in
  region ← (if start <? end_ then subslice base start end_ else Ret []);
  let c := MkConflict (bi + 1) (bi + end_ - bi) (concat (h_lines lh)) (concat (h_lines rh))
             (concat region) in
  Ret (([str "<<<<<<< LOCAL" ++ [NL]] ++ h_lines lh ++ missing_newline (h_lines lh)
        ++ [str "=======" ++ [NL]] ++ h_lines rh ++ missing_newline (h_lines rh)
        ++ [str ">>>>>>> REMOTE" ++ [NL]]), Some c).

Definition min_start (h : option hunk) (n : nat) : nat :=
  match h with Some h => if baseStart h <? n then baseStart h else n | None => n end.

Fixpoint merge_loop (fuel : nat) (base : list bytes) (lhs rhs : list hunk) (bi : nat)
    (result : list bytes) (conflicts : list Conflict) : out (list bytes * list Conflict) :=
  match fuel with
  | O => NoFuel
  | S fuel =>
    if bi <=? length base then
      match head lhs, head rhs with
      | None, None =>
        rest ← (if bi <? length base then subslice base bi (length base) else Ret []);
        Ret (result ++ rest, conflicts)
      | lh, rh =>
        let nextStart := min_start rh (min_start lh (length base)) in
        before ← (if bi <? nextStart then subslice base bi nextStart else Ret []);
        let result := result ++ before in
        let bi := if bi <? nextStart then nextStart else bi in
        match lh, rh with
        | Some l, Some r =>
          if hunksOverlap l r then
            '(lines, c) ← handleOverlappingHunks base l r bi;
            merge_loop fuel base (tail lhs) (tail rhs) (Nat.max (baseEnd l) (baseEnd r))
              (result ++ lines) (conflicts ++ option_list c)
          else if baseStart l <=? baseStart r then
            merge_loop fuel base (tail lhs) rhs (baseEnd l) (result ++ h_lines l) conflicts
          else
            merge_loop fuel base lhs (tail rhs) (baseEnd r) (result ++ h_lines r) conflicts
        | Some l, None =>
          merge_loop fuel base (tail lhs) rhs (baseEnd l) (result ++ h_lines l) conflicts
        | None, Some r =>
          merge_loop fuel base lhs (tail rhs) (baseEnd r) (result ++ h_lines r) conflicts
        | None, None => Panic
        end
      end
    else Ret (result, conflicts)
  end.

Definition merge3 (base : list bytes) (localHunks remoteHunks : list hunk) :
    out (list bytes * list Conflict) :=
  merge_loop (S (length localHunks + length remoteHunks)) base localHunks remoteHunks 0 [] [].

(** ** Strategies *)

Definition ThreeWayText_Merge (base local remote : slice) : out Result :=
  match base, local, remote with
  | Some base, Some local, Some remote =>
    if bool_decide (local = remote) then Ret (MkResult local [] true) else
    if bool_decide (base = local) then Ret (MkResult remote [] true) else
    if bool_decide (base = remote) then Ret (MkResult local [] true) else
    let baseLines := splitLines base in
    localDiff ← diffLines baseLines (splitLines local);
    remoteDiff ← diffLines baseLines (splitLines remote);
    '(merged, conflicts) ← merge3 baseLines localDiff remoteDiff;
    Ret (MkResult (concat merged) conflicts (length conflicts =? 0))
  | _, _, _ => Panic
  end.

Definition nil_empty (s : slice) : bytes := default [] s.

Definition Binary_Merge (base local remote : slice) : out Result :=
  Ret (MkResult (nil_empty local)
         [MkConflict 0 0 (nil_empty local) (nil_empty remote) (nil_empty base)] false).

Definition LastWriterWins_Merge (base local remote : slice) : out Result :=
  Ret (MkResult (nil_empty remote) [] true).

Definition ConflictFork_Merge (base local remote : slice) : out Result :=
  Ret (MkResult (nil_empty local)
         [MkConflict 0 0 (nil_empty local) (nil_empty remote) (nil_empty base)] false).

(** The implementations of the [Strategy] interface, and its methods. *)
Inductive Strategy := ThreeWayText | Binary | LastWriterWins | ConflictFork.

Definition Name (s : Strategy) : bytes :=
  match s with
  | ThreeWayText => str "three-way"
  | Binary => str "binary"
  | LastWriterWins => str "last-writer-wins"
  | ConflictFork => str "conflict-fork"
  end.

Definition Merge (s : Strategy) (base local remote : slice) : out Result :=
  match s with
  | ThreeWayText => ThreeWayText_Merge base local remote
  | Binary => Binary_Merge base local remote
  | LastWriterWins => LastWriterWins_Merge base local remote
  | ConflictFork => ConflictFork_Merge base local remote
  end.

Definition Register (s : Strategy) (strategies : gmap bytes Strategy) : gmap bytes Strategy :=
  <[Name s := s]> strategies.

(** The registry after the package's [init] functions. *)
Definition strategies : gmap bytes Strategy :=
  Register ThreeWayText (Register LastWriterWins (Register ConflictFork (Register Binary ∅))).

Definition StrategyByName (name : bytes) : option Strategy := strategies !! name.

(** ** Specifications *)

(** The length of a longest common subsequence. *)
Fixpoint lcs_len (a : list bytes) : list bytes → nat :=
  match a with
  | [] => λ _, 0
  | x :: a' =>
    fix go b :=
      match b with
      | [] => 0
      | y :: b' =>
        if bool_decide (x = y) then lcs_len a' b' + 1 else Nat.max (lcs_len a' b) (go b')
      end
  end.

(** Matches from [(i, j)] on: the indices increase and the lines they name agree. *)
Fixpoint matches_from (a b : list bytes) (i j : nat) (ms : list lcsMatch) : Prop :=
  match ms with
  | [] => True
  | m :: ms =>
    i ≤ baseIdx m ∧ j ≤ modIdx m ∧
    (∃ x, a !! baseIdx m = Some x ∧ b !! modIdx m = Some x) ∧
    matches_from a b (S (baseIdx m)) (S (modIdx m)) ms
  end.

(** The text a list of hunks turns [base] into, from line [bi] on. *)
Fixpoint apply_hunks (base : list bytes) (bi : nat) (hs : list hunk) : list bytes :=
  match hs with
  | [] => drop bi base
  | h :: hs =>
    take (baseStart h - bi) (drop bi base) ++ h_lines h ++ apply_hunks base (baseEnd h) hs
  end.

(** Hunks in order, within a base of [n] lines, from line [bi] on. *)
Fixpoint hunks_from (n bi : nat) (hs : list hunk) : Prop :=
  match hs with
  | [] => True
  | h :: hs => bi ≤ baseStart h ∧ baseStart h ≤ baseEnd h ∧ baseEnd h ≤ n ∧
               hunks_from n (baseEnd h) hs
  end.

(** The two hunks share no line of the base, are not insertions at one point, and
    the one that [merge3] takes first, the local one when both start at one line,
    ends before the other starts.  So a remote insertion right before lines that
    the local side replaces is not separated from that change. *)
Definition separated (l r : hunk) : Prop :=
  (baseEnd l ≤ baseStart r ∧ baseStart l < baseEnd r) ∨ (baseEnd r ≤ baseStart l ∧ baseStart r < baseStart l).

Definition starts_before (l r : hunk) : Prop := baseStart l ≤ baseStart r.
#[export] Instance starts_before_dec : RelDecision starts_before.
Proof. intros l r. unfold starts_before. apply _. Defined.

Definition all_separated (lhs rhs : list hunk) : Prop :=
  ∀ l r, l ∈ lhs → r ∈ rhs → separated l r.

(** ** Lines *)

Lemma splitAfter_loop_concat s cur : concat (splitAfter_loop s NL cur) = cur ++ s.
Proof.
  revert cur. induction s as [|c s IH]; intros cur; cbn.
  { by rewrite !app_nil_r. }
  case_bool_decide; cbn; rewrite IH; [by rewrite <- app_assoc|by rewrite <- app_assoc].
Qed.

Lemma splitLines_concat data : concat (splitLines data) = data.
Proof.
  unfold splitLines. destruct (Nat.eqb_spec (length data) 0) as [Hz|_].
  { by apply length_zero_iff_nil in Hz as ->. }
  pose proof (splitAfter_loop_concat data []) as Hc. unfold SplitAfter.
  case_bool_decide as Hl; [|done].
  apply last_Some in Hl as [l' Hl]. rewrite Hl in *.
  rewrite length_app. cbn. rewrite Nat.add_sub, take_app_length.
  rewrite concat_app in Hc. cbn in Hc. by rewrite app_nil_r in Hc.
Qed.

(** ** The table holds the lengths *)

Lemma lcs_len_nil_r a : lcs_len a [] = 0.
Proof. by destruct a. Qed.

Lemma lcs_len_cons x a y b :
  lcs_len (x :: a) (y :: b) =
    if bool_decide (x = y) then lcs_len a b + 1
    else Nat.max (lcs_len a (y :: b)) (lcs_len (x :: a) b).
Proof. done. Qed.

(** The suffixes of a list, the list itself first. *)
Fixpoint suffixes (b : list bytes) : list (list bytes) :=
  b :: match b with [] => [] | _ :: b' => suffixes b' end.

Definition lcs_row (a b : list bytes) : list nat := map (lcs_len a) (suffixes b).

Lemma suffixes_head b : ∃ t, suffixes b = b :: t.
Proof. destruct b; by eexists. Qed.

Lemma dp_row_spec x a b : dp_row x b (lcs_row a b) = lcs_row (x :: a) b.
Proof.
  unfold lcs_row. induction b as [|y b IH]; [done|].
  cbn [suffixes map dp_row]. rewrite IH.
  destruct (suffixes_head b) as [t Ht]. rewrite Ht. cbn [map hd]. f_equal.
  rewrite lcs_len_cons. case_bool_decide; [done|].
  by destruct (Nat.leb_spec (lcs_len (x :: a) b) (lcs_len a (y :: b))); lia.
Qed.

Lemma lcs_row_nil b : lcs_row [] b = replicate (S (length b)) 0.
Proof. unfold lcs_row. induction b as [|y b IH]; [done|]. cbn in *. by rewrite IH. Qed.

Lemma dp_table_spec a b : dp_table a b = map (λ a', lcs_row a' b) (suffixes a).
Proof.
  induction a as [|x a IH]; cbn [dp_table suffixes map].
  { by rewrite lcs_row_nil. }
  rewrite IH. destruct (suffixes_head a) as [t Ht]. rewrite Ht. cbn [map hd].
  by rewrite dp_row_spec.
Qed.

Lemma suffixes_lookup l i : i ≤ length l → suffixes l !! i = Some (drop i l).
Proof.
  revert i. induction l as [|x l IH]; intros [|i] Hi; cbn in *; try done; try lia.
  apply IH. lia.
Qed.

Lemma dp_get_spec a b i j :
  i ≤ length a → j ≤ length b →
  dp_get (dp_table a b) i j = Ret (lcs_len (drop i a) (drop j b)).
Proof.
  intros Hi Hj. unfold dp_get, index. rewrite dp_table_spec.
  change @map with (λ A B f l, @fmap list list_fmap A B f l). cbn beta.
  rewrite list_lookup_fmap, suffixes_lookup by done. cbn.
  unfold lcs_row. change @map with (λ A B f l, @fmap list list_fmap A B f l). cbn beta.
  by rewrite list_lookup_fmap, suffixes_lookup by done.
Qed.

Lemma index_lookup {E A} (l : list A) i x : l !! i = Some x → index (E:=E) l i = Ret x.
Proof. unfold index. by intros ->. Qed.

(** The walk over the table collects as many matches as the table promises. *)
Lemma lcs_backtrack_spec fuel a b i j ms :
  i ≤ length a → j ≤ length b → (length a - i) + (length b - j) < fuel →
  ∃ ms', lcs_backtrack fuel (dp_table a b) a b i j ms = Ret (ms ++ ms') ∧
    matches_from a b i j ms' ∧ length ms' = lcs_len (drop i a) (drop j b).
Proof.
  revert i j ms. induction fuel as [|fuel IH]; intros i j ms Hi Hj Hf; [lia|].
  cbn [lcs_backtrack].
  destruct (Nat.ltb_spec i (length a)) as [Hia|Hia]; cbn [andb].
  2: { exists []. rewrite app_nil_r, drop_ge by lia. done. }
  destruct (Nat.ltb_spec j (length b)) as [Hjb|Hjb]; cbn [andb].
  2: { exists []. rewrite app_nil_r, (drop_ge b), lcs_len_nil_r by lia. done. }
  apply lookup_lt_is_Some_2 in Hia as [x Hx]. apply lookup_lt_is_Some_2 in Hjb as [y Hy].
  rewrite (index_lookup _ _ _ Hx), (index_lookup _ _ _ Hy). cbn [mbind outcome_bind].
  pose proof (lookup_lt_Some _ _ _ Hx). pose proof (lookup_lt_Some _ _ _ Hy).
  rewrite (drop_S _ _ _ Hx), (drop_S _ _ _ Hy), lcs_len_cons.
  case_bool_decide as Hxy; [subst y|].
  { destruct (IH (S i) (S j) (ms ++ [MkMatch i j])) as (ms' & -> & Hm & Hlen); [lia..|].
    exists (MkMatch i j :: ms'). rewrite <- app_assoc. cbn. split_and!; try done; [eauto|lia]. }
  rewrite !dp_get_spec by lia. cbn [mbind outcome_bind].
  rewrite <- (drop_S _ _ _ Hx), <- (drop_S _ _ _ Hy).
  destruct (Nat.leb_spec (lcs_len (drop i a) (drop (S j) b)) (lcs_len (drop (S i) a) (drop j b))).
  - destruct (IH (S i) j ms) as (ms' & -> & Hm & Hlen); [lia..|].
    exists ms'. split_and!; [done| |lia]. clear -Hm. destruct ms' as [|m ms']; [done|].
    cbn in *. destruct Hm as (? & ? & ?). split_and!; [lia|done|apply H1..].
  - destruct (IH i (S j) ms) as (ms' & -> & Hm & Hlen); [lia..|].
    exists ms'. split_and!; [done| |lia]. clear -Hm. destruct ms' as [|m ms']; [done|].
    cbn in *. destruct Hm as (? & ? & ?). split_and!; [done|lia|apply H1..].
Qed.

Lemma sublist_tail (z : bytes) s l : (z :: s) `sublist_of` l → s `sublist_of` l.
Proof. intros Hl. etrans; [|exact Hl]. by apply sublist_cons. Qed.

(** No common subsequence is longer. *)
Lemma lcs_len_max a b s : s `sublist_of` a → s `sublist_of` b → length s ≤ lcs_len a b.
Proof.
  revert b s. induction a as [|x a IHa]; intros b s Ha.
  { apply sublist_nil_r in Ha as ->. cbn. lia. }
  revert s Ha. induction b as [|y b IHb]; intros s Ha Hb.
  { apply sublist_nil_r in Hb as ->. cbn. lia. }
  rewrite lcs_len_cons. destruct s as [|z s]; [cbn; lia|].
  case_bool_decide as Hxy; [subst y|].
  - assert (s `sublist_of` a) by (apply sublist_cons_r in Ha as [Ha|(? & [= -> ->] & Ha)];
      [by eapply sublist_tail|done]).
    assert (s `sublist_of` b) by (apply sublist_cons_r in Hb as [Hb|(? & [= -> ->] & Hb)];
      [by eapply sublist_tail|done]).
    specialize (IHa b s ltac:(done) ltac:(done)). cbn. lia.
  - apply sublist_cons_r in Ha as [Ha|(? & [= <- <-] & Ha)].
    { specialize (IHa _ _ Ha Hb). lia. }
    apply sublist_cons_r in Hb as [Hb|(? & [= <- <-] & Hb)]; [|done].
    specialize (IHb (z :: s) (sublist_skip _ _ _ Ha) Hb). lia.
Qed.

(** ** Hunks transform the base into the modified text *)

Lemma apply_hunks_step base i x hs :
  base !! i = Some x → hunks_from (length base) (S i) hs →
  apply_hunks base i hs = x :: apply_hunks base (S i) hs.
Proof.
  intros Hx Hhs. destruct hs as [|h hs]; cbn [apply_hunks].
  { by apply drop_S. }
  destruct Hhs as (Hs & _). rewrite (drop_S _ _ _ Hx).
  replace (baseStart h - i) with (S (baseStart h - S i)) by lia. done.
Qed.

Lemma hunks_from_weaken n i j hs : i ≤ j → hunks_from n j hs → hunks_from n i hs.
Proof. destruct hs as [|h hs]; [done|]. cbn. intros ? (?&?&?&?). split_and!; try done; lia. Qed.

Lemma take_drop_to {A} (l : list A) i j :
  i ≤ j → take (j - i) (drop i l) ++ drop j l = drop i l.
Proof.
  intros Hij. rewrite <- (take_drop (j - i) (drop i l)) at 2. rewrite drop_drop.
  by replace (i + (j - i)) with j by lia.
Qed.

(** What the loop of [diffLines] adds for the matches it has left, with the
    trailing hunk. *)
Lemma diff_loop_spec base modified ms bi mi hunks :
  bi ≤ length base → mi ≤ length modified → matches_from base modified bi mi ms →
  ∃ bi' mi' hs, diff_loop modified ms bi mi hunks = Ret (bi', mi', hunks ++ hs) ∧
    bi ≤ bi' ≤ length base ∧ mi' ≤ length modified ∧
    ∀ tl, hunks_from (length base) bi' tl →
      apply_hunks base bi' tl = drop mi' modified →
      hunks_from (length base) bi (hs ++ tl) ∧
      apply_hunks base bi (hs ++ tl) = drop mi modified.
Proof.
  revert bi mi hunks. induction ms as [|m ms IH]; intros bi mi hunks Hbi Hmi Hms.
  { exists bi, mi, []. rewrite app_nil_r. done. }
  destruct Hms as (H1 & H2 & (x & Hx & Hy) & Hms). cbn [diff_loop].
  pose proof (lookup_lt_Some _ _ _ Hx). pose proof (lookup_lt_Some _ _ _ Hy).
  set (hs1 := if (bi <? baseIdx m) || (mi <? modIdx m)
              then [MkHunk bi (baseIdx m) (take (modIdx m - mi) (drop mi modified))] else []).
  assert ((if (bi <? baseIdx m) || (mi <? modIdx m)
           then lines ← subslice modified mi (modIdx m);
                Ret (hunks ++ [MkHunk bi (baseIdx m) lines])
           else Ret hunks) = Ret (E:=Empty_set) (hunks ++ hs1)) as ->.
  { subst hs1. destruct (_ || _); [by rewrite subslice_ret by lia|by rewrite app_nil_r]. }
  cbn [mbind outcome_bind].
  destruct (IH (S (baseIdx m)) (S (modIdx m)) (hunks ++ hs1)) as (bi' & mi' & hs & -> & Hb & Hm & Htl);
    [lia..|done|].
  exists bi', mi', (hs1 ++ hs). rewrite <- app_assoc. split_and!; [done|lia..|].
  intros tl Hok Happ. destruct (Htl tl Hok Happ) as [Hok' Happ'].
  rewrite <- app_assoc.
  assert (apply_hunks base (baseIdx m) (hs ++ tl) = drop (modIdx m) modified) as Hstep.
  { rewrite (apply_hunks_step _ _ _ _ Hx Hok'), Happ'. by rewrite (drop_S _ _ _ Hy). }
  subst hs1. destruct (Nat.ltb_spec bi (baseIdx m)), (Nat.ltb_spec mi (modIdx m));
    cbn [orb app hunks_from apply_hunks baseStart baseEnd h_lines].
  1-3: split; [split_and!; try lia; eapply hunks_from_weaken; [|exact Hok']; lia|];
    rewrite Hstep, Nat.sub_diag, take_0; by apply take_drop_to.
  assert (bi = baseIdx m) as -> by lia. assert (mi = modIdx m) as -> by lia.
  split; [|done]. eapply hunks_from_weaken; [|exact Hok']. lia.
Qed.

Lemma longestCommonSubseq_ret a b :
  ∃ ms, longestCommonSubseq a b = Ret ms ∧ matches_from a b 0 0 ms ∧ length ms = lcs_len a b.
Proof.
  destruct (lcs_backtrack_spec (S (length a + length b)) a b 0 0 []) as (ms & H & Hm & Hl);
    [lia..|]. by exists ms.
Qed.

Lemma diffLines_ret base modified :
  ∃ hs, diffLines base modified = Ret hs ∧ hunks_from (length base) 0 hs ∧
    apply_hunks base 0 hs = modified.
Proof.
  unfold diffLines. destruct (longestCommonSubseq_ret base modified) as (ms & -> & Hm & _).
  cbn [mbind outcome_bind].
  destruct (diff_loop_spec base modified ms 0 0 []) as (bi & mi & hs & -> & Hb & Hmi & Htl);
    [lia..|done|]. cbn [mbind outcome_bind app].
  destruct (Nat.ltb_spec bi (length base)), (Nat.ltb_spec mi (length modified)); cbn [orb].
  1-3: rewrite subslice_ret by lia; cbn [mbind outcome_bind]; eexists; split; [done|];
    apply Htl; cbn; [split_and!; lia || done|];
    rewrite Nat.sub_diag, take_0; cbn [app];
    rewrite (drop_ge base) by done; rewrite app_nil_r, take_ge by (rewrite length_drop; lia); done.
  exists hs. split; [done|]. rewrite <- (app_nil_r hs). apply (Htl []); cbn; [done|].
  by rewrite !drop_ge by lia.
Qed.

(** Nothing is reported between a text and itself. *)
Lemma diff_self_backtrack fuel a i ms :
  length a - i < fuel → i ≤ length a →
  lcs_backtrack fuel (dp_table a a) a a i i ms
    = Ret (ms ++ map (λ k, MkMatch k k) (seq i (length a - i))).
Proof.
  revert i ms. induction fuel as [|fuel IH]; intros i ms Hf Hi; [lia|]. cbn [lcs_backtrack].
  destruct (Nat.ltb_spec i (length a)) as [Hlt|Hge]; cbn [andb].
  - apply lookup_lt_is_Some_2 in Hlt as [x Hx]. pose proof (lookup_lt_Some _ _ _ Hx).
    rewrite (index_lookup _ _ _ Hx). cbn [mbind outcome_bind]. rewrite bool_decide_true by done.
    rewrite IH by lia. replace (length a - i) with (S (length a - S i)) by lia.
    cbn [seq map]. by rewrite <- app_assoc.
  - replace (length a - i) with 0 by lia. by rewrite app_nil_r.
Qed.

Lemma diff_loop_self modified n i hunks :
  diff_loop modified (map (λ k, MkMatch k k) (seq i n)) i i hunks = Ret (i + n, i + n, hunks).
Proof.
  revert i. induction n as [|n IH]; intros i; cbn [seq map diff_loop baseIdx modIdx].
  { by rewrite Nat.add_0_r. }
  rewrite !Nat.ltb_irrefl. cbn [orb mbind outcome_bind]. rewrite IH. do 3 f_equal; lia.
Qed.

Lemma diffLines_self a : diffLines a a = Ret [].
Proof.
  unfold diffLines, longestCommonSubseq. rewrite diff_self_backtrack by lia.
  cbn [mbind outcome_bind app]. rewrite Nat.sub_0_r, diff_loop_self.
  cbn [mbind outcome_bind]. by rewrite !Nat.ltb_irrefl.
Qed.

(** ** The merge loop *)

Definition hunk_in (n : nat) (h : hunk) : Prop := baseStart h ≤ baseEnd h ≤ n.

Lemma hunks_from_in n bi hs : hunks_from n bi hs → Forall (hunk_in n) hs.
Proof.
  revert bi. induction hs as [|h hs IH]; intros bi; cbn; [by constructor|].
  intros (? & ? & ? & ?). constructor; [by split|by eapply IH].
Qed.

Lemma min_start_le h n : min_start h n ≤ n.
Proof. destruct h; cbn; [case_match; [|lia]|lia]. apply Nat.ltb_lt in H. lia. Qed.

(** Copying up to the next hunk never fails. *)
Lemma copy_ret (base : list bytes) bi next :
  next ≤ length base →
  (if bi <? next then subslice base bi next else Ret []) =
    Ret (E:=Empty_set) (take (next - bi) (drop bi base)).
Proof.
  intros Hn. destruct (Nat.ltb_spec bi next).
  - by rewrite subslice_ret by lia.
  - by replace (next - bi) with 0 by lia.
Qed.

Lemma handle_ret base lh rh bi :
  hunk_in (length base) lh → hunk_in (length base) rh →
  ∃ lines c, handleOverlappingHunks base lh rh bi = Ret (lines, c) ∧
    (c = None ↔ h_lines lh = h_lines rh).
Proof.
  intros Hl Hr. unfold handleOverlappingHunks, sameHunkContent.
  case_bool_decide as Hs; [by eexists _, None|].
  rewrite copy_ret by (unfold hunk_in in *; lia). cbn. by eexists _, (Some _).
Qed.

Lemma merge_loop_ret fuel base lhs rhs bi result conflicts :
  length lhs + length rhs < fuel →
  Forall (hunk_in (length base)) lhs → Forall (hunk_in (length base)) rhs → bi ≤ length base →
  ∃ r c, merge_loop fuel base lhs rhs bi result conflicts = Ret (r, c).
Proof.
  revert lhs rhs bi result conflicts. induction fuel as [|fuel IH];
    intros lhs rhs bi result conflicts Hf Hl Hr Hbi; [lia|]. cbn [merge_loop].
  destruct (Nat.leb_spec bi (length base)); [|lia].
  destruct lhs as [|l lhs], rhs as [|r rhs]; cbn [head tail length] in *.
  - rewrite copy_ret by lia. cbn. eauto.
  - apply Forall_cons_1 in Hr as [[??] Hr]. rewrite copy_ret by apply min_start_le.
    cbn [mbind outcome_bind]. apply IH; try done; cbn; lia.
  - apply Forall_cons_1 in Hl as [[??] Hl].
    rewrite copy_ret by (etrans; [apply min_start_le|apply min_start_le]).
    cbn [mbind outcome_bind]. apply IH; try done; cbn; lia.
  - pose proof Hl as Hl0. pose proof Hr as Hr0.
    apply Forall_cons_1 in Hl as [Hlh Hl]. apply Forall_cons_1 in Hr as [Hrh Hr].
    rewrite copy_ret by (etrans; [apply min_start_le|apply min_start_le]).
    cbn [mbind outcome_bind].
    edestruct (handle_ret base l r) as (lines & c & Hh & _); [done..|].
    destruct (hunksOverlap l r).
    + rewrite Hh. cbn [mbind outcome_bind]. unfold hunk_in in *. apply IH; try done; lia.
    + unfold hunk_in in *. destruct (_ <=? _); apply IH; try done; cbn; lia.
Qed.

Lemma merge3_ret base lhs rhs :
  Forall (hunk_in (length base)) lhs → Forall (hunk_in (length base)) rhs →
  ∃ r c, merge3 base lhs rhs = Ret (r, c).
Proof. intros Hl Hr. unfold merge3. apply merge_loop_ret; (done || lia). Qed.

(** ** Separated edits *)

Lemma separated_overlap l r : separated l r → hunksOverlap l r = false.
Proof.
  unfold separated, hunksOverlap. intros H.
  destruct (Nat.ltb_spec (baseStart l) (baseEnd r)), (Nat.ltb_spec (baseStart r) (baseEnd l));
    cbn; try done; lia.
Qed.

Lemma all_separated_tail_l l lhs rhs : all_separated (l :: lhs) rhs → all_separated lhs rhs.
Proof. intros Hs l' r' Hl Hr. apply Hs; [by right|done]. Qed.
Lemma all_separated_tail_r r lhs rhs : all_separated lhs (r :: rhs) → all_separated lhs rhs.
Proof. intros Hs l' r' Hl Hr. apply Hs; [done|by right]. Qed.

(** A side without common lines with itself is without changes. *)
Lemma all_separated_self hs : all_separated hs hs → hs = [].
Proof.
  destruct hs as [|h hs]; [done|]. intros Hs. specialize (Hs h h ltac:(by left) ltac:(by left)).
  unfold separated in Hs. lia.
Qed.

(** One turn that takes hunk [h]: [rest] are the hunks after it. *)
Lemma apply_hunks_take base bi (result : list bytes) h rest :
  (result ++ take (baseStart h - bi) (drop bi base)) ++ h_lines h ++ apply_hunks base (baseEnd h) rest
  = result ++ apply_hunks base bi (h :: rest).
Proof. cbn [apply_hunks]. by rewrite <- app_assoc. Qed.

Lemma min_start_some h n : baseStart h ≤ n → min_start (Some h) n = baseStart h.
Proof. intros Hn. unfold min_start. destruct (Nat.ltb_spec (baseStart h) n); lia. Qed.

Lemma min_start_skip h n : n ≤ baseStart h → min_start (Some h) n = n.
Proof. intros Hn. unfold min_start. destruct (Nat.ltb_spec (baseStart h) n); lia. Qed.

Lemma merge_loop_separated fuel base lhs rhs bi result conflicts :
  length lhs + length rhs < fuel →
  bi ≤ length base → hunks_from (length base) bi lhs → hunks_from (length base) bi rhs →
  all_separated lhs rhs →
  merge_loop fuel base lhs rhs bi result conflicts
    = Ret (result ++ apply_hunks base bi (list_merge starts_before lhs rhs), conflicts).
Proof.
  revert lhs rhs bi result. induction fuel as [|fuel IH];
    intros lhs rhs bi result Hf Hbi Hl Hr Hsep; [lia|]. cbn [merge_loop].
  destruct (Nat.leb_spec bi (length base)); [|lia].
  destruct lhs as [|l lhs], rhs as [|r rhs]; cbn [head tail length] in *.
  - rewrite copy_ret by lia. cbn [mbind outcome_bind].
    rewrite take_ge by (rewrite length_drop; lia). done.
  - destruct Hr as (?&?&?&Hr). rewrite copy_ret by apply min_start_le.
    cbn [mbind outcome_bind]. change (min_start None (length base)) with (length base).
    rewrite min_start_some by lia.
    rewrite IH; [|cbn; lia|lia|done|done|by eapply all_separated_tail_r].
    rewrite !list_merge_nil_l. by rewrite <- (apply_hunks_take base bi result r rhs), <- app_assoc.
  - destruct Hl as (?&?&?&Hl). rewrite copy_ret by (etrans; [apply min_start_le|apply min_start_le]).
    cbn [mbind outcome_bind]. change (min_start None ?n) with n.
    rewrite min_start_some by lia.
    rewrite IH; [|cbn; lia|lia|done|done|by eapply all_separated_tail_l].
    rewrite !list_merge_nil_r. by rewrite <- (apply_hunks_take base bi result l lhs), <- app_assoc.
  - pose proof (Hsep l r ltac:(by left) ltac:(by left)) as Hlr.
    destruct Hl as (?&?&?&Hl), Hr as (?&?&?&Hr).
    rewrite copy_ret by (etrans; [apply min_start_le|apply min_start_le]).
    cbn [mbind outcome_bind]. rewrite (separated_overlap _ _ Hlr), (min_start_some l) by lia.
    rewrite list_merge_cons.
    destruct (Nat.leb_spec (baseStart l) (baseStart r)) as [Hle|Hgt].
    + rewrite min_start_skip by done. rewrite decide_True by done.
      rewrite IH; [|cbn; lia|lia|done| |by eapply all_separated_tail_l].
      * by rewrite <- (apply_hunks_take base bi result l), <- app_assoc.
      * cbn. split_and!; try done. unfold separated in Hlr. lia.
    + rewrite min_start_some by lia. rewrite decide_False by (unfold starts_before; lia).
      rewrite IH; [|cbn; lia|lia| |done|by eapply all_separated_tail_r].
      * by rewrite <- (apply_hunks_take base bi result r), <- app_assoc.
      * cbn. split_and!; try done. unfold separated in Hlr. lia.
Qed.

(** ** Properties *)

(** The merge's line matching is a longest common subsequence: the matches name
    equal lines in increasing order in both texts, and no common subsequence of
    the texts has more lines. *)
Theorem longestCommonSubseq_longest a b :
  ∃ ms, longestCommonSubseq a b = Ret ms ∧ matches_from a b 0 0 ms ∧
    ∀ s, s `sublist_of` a → s `sublist_of` b → length s ≤ length ms.
Proof.
  destruct (longestCommonSubseq_ret a b) as (ms & H & Hm & Hl). exists ms.
  split_and!; [done..|]. intros s Ha Hb. rewrite Hl. by apply lcs_len_max.
Qed.

(** The line diff is correct: it always succeeds, its hunks are in order and
    within the base, and replacing them in the base gives the modified text. *)
Theorem diffLines_correct base modified :
  ∃ hs, diffLines base modified = Ret hs ∧ hunks_from (length base) 0 hs ∧
    apply_hunks base 0 hs = modified.
Proof. apply diffLines_ret. Qed.

(** The text merge of three non-nil versions always succeeds, and its result is
    marked clean exactly when it lists no conflict. *)
Theorem Merge_total base local remote :
  ∃ r, Merge ThreeWayText (Some base) (Some local) (Some remote) = Ret r ∧
    (rs_Clean r = true ↔ rs_Conflicts r = []).
Proof.
  unfold Merge, ThreeWayText_Merge. do 3 (case_bool_decide; [by eexists|]).
  destruct (diffLines_ret (splitLines base) (splitLines local)) as (lhs & -> & Hl & _).
  destruct (diffLines_ret (splitLines base) (splitLines remote)) as (rhs & -> & Hr & _).
  cbn [mbind outcome_bind].
  destruct (merge3_ret (splitLines base) lhs rhs) as (r & c & ->);
    [by eapply hunks_from_in..|].
  eexists. split; [done|]. cbn. rewrite Nat.eqb_eq. apply length_zero_iff_nil.
Qed.

(** C38. Edits that touch separate lines merge cleanly: when every local hunk is
    separated from every remote hunk, the merge is the base with all hunks of
    both sides applied in order, and no conflict is reported. Separated hunks
    share no line of the base, are not both insertions at one point, and none of
    the remote side is an insertion right before lines that the local side
    replaces (the findings show what the merge does then). *)
Theorem Merge_separated base local remote lhs rhs :
  diffLines (splitLines base) (splitLines local) = Ret lhs →
  diffLines (splitLines base) (splitLines remote) = Ret rhs →
  all_separated lhs rhs →
  Merge ThreeWayText (Some base) (Some local) (Some remote) =
    Ret (MkResult (concat (apply_hunks (splitLines base) 0 (list_merge starts_before lhs rhs)))
           [] true).
Proof.
  intros Hl Hr Hsep. unfold Merge, ThreeWayText_Merge.
  destruct (diffLines_ret (splitLines base) (splitLines local)) as (lhs' & Hl' & Hlok & Hlapp).
  destruct (diffLines_ret (splitLines base) (splitLines remote)) as (rhs' & Hr' & Hrok & Hrapp).
  rewrite Hl in Hl'. injection Hl' as <-. rewrite Hr in Hr'. injection Hr' as <-.
  case_bool_decide as Hne.
  { subst remote. rewrite Hl in Hr. injection Hr as <-. apply all_separated_self in Hsep as ->.
    by rewrite list_merge_nil_l, Hlapp, splitLines_concat. }
  case_bool_decide as Hbl.
  { subst local. rewrite diffLines_self in Hl. injection Hl as <-.
    by rewrite list_merge_nil_l, Hrapp, splitLines_concat. }
  case_bool_decide as Hbr.
  { subst remote. rewrite diffLines_self in Hr. injection Hr as <-.
    by rewrite list_merge_nil_r, Hlapp, splitLines_concat. }
  rewrite Hl, Hr. cbn [mbind outcome_bind]. unfold merge3.
  rewrite merge_loop_separated by (done || lia). done.
Qed.

(** Edits that overlap conflict: when each side makes one change, the two share
    a base line and their texts differ, the result keeps the base around the
    changes, shows both texts between markers, and reports the one conflict with
    the base lines that either side replaced. *)
Theorem Merge_conflict base l r :
  hunk_in (length base) l → hunk_in (length base) r → hunksOverlap l r = true →
  h_lines l ≠ h_lines r →
  merge3 base [l] [r] = Ret
    (take (Nat.min (baseStart l) (baseStart r)) base
       ++ ([str "<<<<<<< LOCAL" ++ [NL]] ++ h_lines l ++ missing_newline (h_lines l)
           ++ [str "=======" ++ [NL]] ++ h_lines r ++ missing_newline (h_lines r)
           ++ [str ">>>>>>> REMOTE" ++ [NL]])
       ++ drop (Nat.max (baseEnd l) (baseEnd r)) base,
     [MkConflict (Nat.min (baseStart l) (baseStart r) + 1) (Nat.max (baseEnd l) (baseEnd r))
        (concat (h_lines l)) (concat (h_lines r))
        (concat (take (Nat.max (baseEnd l) (baseEnd r) - Nat.min (baseStart l) (baseStart r))
                   (drop (Nat.min (baseStart l) (baseStart r)) base)))]).
Proof.
  intros [Hl1 Hl2] [Hr1 Hr2] Hov Hne. unfold merge3. cbn [length Nat.add merge_loop Nat.leb head].
  rewrite (min_start_some l) by lia.
  assert (min_start (Some r) (baseStart l) = Nat.min (baseStart l) (baseStart r)) as ->.
  { unfold min_start. destruct (Nat.ltb_spec (baseStart r) (baseStart l)); lia. }
  rewrite copy_ret by lia. cbn [mbind outcome_bind]. rewrite Hov.
  set (lo := Nat.min _ _). set (hi := Nat.max _ _).
  assert ((if 0 <? lo then lo else 0) = lo) as -> by (destruct lo; done).
  unfold handleOverlappingHunks, sameHunkContent. rewrite bool_decide_false by done.
  fold lo hi. rewrite copy_ret by lia. cbn [mbind outcome_bind tail head].
  destruct (Nat.leb_spec hi (length base)); [|lia]. rewrite copy_ret by lia.
  cbn [mbind outcome_bind option_list app]. rewrite drop_0, Nat.sub_0_r.
  rewrite (take_ge (drop hi base)) by (rewrite length_drop; lia).
  replace (lo + hi - lo) with hi by lia.
  repeat (rewrite <- !app_assoc; cbn [app]). reflexivity.
Qed.

(** The registry resolves exactly the names of the four strategies. *)
Theorem StrategyByName_iff name s : StrategyByName name = Some s ↔ Name s = name.
Proof.
  unfold StrategyByName. split.
  - unfold strategies, Register. intros H.
    repeat (apply lookup_insert_Some in H as [[<- <-]|[_ H]]; [reflexivity|]).
    by apply lookup_empty_Some in H.
  - intros <-. by destruct s.
Qed.

(** ** Witnesses *)

Definition lines (ls : list bytes) : bytes := concat (map (λ l, l ++ [NL]) ls).

Lemma Merge_separated_witness :
  let base := lines [str "a"; str "b"; str "c"; str "d"] in
  let local := lines [str "a"; str "B"; str "c"; str "d"] in
  let remote := lines [str "a"; str "b"; str "c"; str "D"; str "e"] in
  Merge ThreeWayText (Some base) (Some local) (Some remote) =
    Ret (MkResult (lines [str "a"; str "B"; str "c"; str "D"; str "e"]) [] true).
Proof.
  intros base local remote.
  erewrite (Merge_separated base local remote);
    [|vm_compute; reflexivity|vm_compute; reflexivity|].
  - vm_compute. reflexivity.
  - intros l r Hl Hr. apply list_elem_of_singleton in Hl as ->, Hr as ->. left. cbn. lia.
Defined.

Lemma Merge_conflict_witness :
  ∃ m c, merge3 [str "a"; str "b"; str "c"] [MkHunk 1 2 [str "x"]] [MkHunk 0 2 [str "y"]]
    = Ret (m, [c]) ∧ cf_Base c = str "ab".
Proof.
  eexists _, _. split; [|].
  - apply Merge_conflict; [split; cbn; lia|split; cbn; lia|reflexivity|done].
  - reflexivity.
Defined.

(** ** Findings *)

(** One side deletes a line, the other inserts before it: the loop goes back in
    the base, the deletion is lost and the merge is reported clean. *)
Example delete_lost :
  Merge ThreeWayText (Some (lines [str "a"; str "b"; str "c"]))
    (Some (lines [str "a"; str "c"])) (Some (lines [str "a"; str "X"; str "b"; str "c"]))
  = Ret (MkResult (lines [str "a"; str "X"; str "b"; str "c"]) [] true).
Proof. vm_compute. reflexivity. Qed.

(** Both sides insert the same line at the same place and differ elsewhere: the
    line is inserted twice. *)
Example insertion_doubled :
  Merge ThreeWayText (Some (lines [str "a"; str "b"; str "c"]))
    (Some (lines [str "a"; str "X"; str "b"; str "c"]))
    (Some (lines [str "a"; str "X"; str "b"; str "C"]))
  = Ret (MkResult (lines [str "a"; str "X"; str "X"; str "b"; str "C"]) [] true).
Proof. vm_compute. reflexivity. Qed.
