(* ===== verification/Diff.v ===== *)
(** * Line differences (src/internal/diff/diff.go)

    Myers' algorithm with its trace and backtracking, the grouping of edits into
    hunks with context, the unified format and the statistics. *)
From S2P Require Import Prelude GoStrings.
From stdpp Require Import list.

(** No call here returns an error. *)
Abbreviation out := (outcome Empty_set).

Record Options := MkOptions { ContextLines : Z; SrcName : bytes; DstName : bytes }.
Record DiffStat := MkDiffStat { Insertions : nat; Deletions : nat; Binary : bool }.

(** ** Lines *)

(** [strings.ReplaceAll(s, "\r\n", "\n")] *)
Fixpoint replace_crlf (s : bytes) : bytes :=
  match s with
  | [] => []
  | c :: s' =>
    match s' with
    | d :: s'' =>
      if bool_decide (c = CR) && bool_decide (d = NL) then NL :: replace_crlf s''
      else c :: replace_crlf s'
    | [] => [c]
    end
  end.

(** [strings.ReplaceAll(s, "\r", "\n")] *)
Definition replace_cr (s : bytes) : bytes := map (λ c, if bool_decide (c = CR) then NL else c) s.

Definition splitLines (data : bytes) : list bytes * bool :=
  if length data =? 0 then ([], true) else
  let s := replace_cr (replace_crlf data) in
  let endsWithNewline := HasSuffix s [NL] in
  let lines := Split s NL in
  let lines := if bool_decide (last lines = Some []) then take (length lines - 1) lines else lines in
  if length lines =? 0 then ([], true) else (lines, endsWithNewline).

Definition isBinary (data : bytes) : bool := bool_decide (x00 ∈ data).

(** ** Edit scripts *)

Inductive opKind := opEqual | opInsert | opDelete.
#[export] Instance opKind_eq_dec : EqDecision opKind.
Proof. solve_decision. Defined.

Record editOp := MkOp { kind : opKind; text : bytes }.

(** Array reads and writes at an [int] index; both panic out of range. *)
Definition aget {A} (l : list A) (i : Z) : out A := if (i <? 0)%Z then Panic else index l (Z.to_nat i).
Definition aset {A} (l : list A) (i : Z) (x : A) : out (list A) :=
  if ((i <? 0) || (zlen l <=? i))%Z then Panic else Ret (<[Z.to_nat i := x]> l).

(** The condition by which both passes choose between the neighbours of a
    diagonal: [true] is a move down from [k+1]. *)
Definition moves_down (v : list Z) (max d k : Z) : out bool :=
  if (k =? - d)%Z then Ret true else
  if (k =? d)%Z then Ret false else
  a ← aget v (k - 1 + max);
  b ← aget v (k + 1 + max);
  Ret (a <? b)%Z.

Fixpoint snake (fuel : nat) (src dst : list bytes) (x y : Z) : out (Z * Z) :=
  match fuel with
  | O => NoFuel
  | S fuel =>
    if ((x <? zlen src) && (y <? zlen dst))%Z then
      a ← aget src x;
      b ← aget dst y;
      if bool_decide (a = b) then snake fuel src dst (x + 1) (y + 1) else Ret (x, y)
    else Ret (x, y)
  end.

(** One round over the diagonals [k], [k+2], ..., [d]; [true] when the end of
    both texts is reached. *)
Fixpoint k_loop (fuel : nat) (src dst : list bytes) (max d k : Z) (v : list Z) : out (bool * list Z) :=
  match fuel with
  | O => NoFuel
  | S fuel =>
    if (k <=? d)%Z then
      down ← moves_down v max d k;
      x ← (if down : bool then aget v (k + 1 + max) else a ← aget v (k - 1 + max); Ret (a + 1)%Z);
      '(x, y) ← snake (S (length src)) src dst x (x - k);
      v ← aset v (k + max) x;
      if ((zlen src <=? x) && (zlen dst <=? y))%Z then Ret (true, v)
      else k_loop fuel src dst max d (k + 2) v
    else Ret (false, v)
  end.

(** The walk back along a diagonal. *)
Fixpoint back_diag (fuel : nat) (src : list bytes) (x y prevX prevY : Z) (ops : list editOp) :
    out (Z * Z * list editOp) :=
  match fuel with
  | O => NoFuel
  | S fuel =>
    if ((prevX <? x) && (prevY <? y))%Z then
      l ← aget src (x - 1);
      back_diag fuel src (x - 1) (y - 1) prevX prevY (ops ++ [MkOp opEqual l])
    else Ret (x, y, ops)
  end.

Definition back_step (trace : list (list Z)) (src dst : list bytes) (d : nat) (x y : Z)
    (ops : list editOp) : out (Z * Z * list editOp) :=
  let max := (zlen src + zlen dst)%Z in
  v ← index trace d;
  let k := (x - y)%Z in
  down ← moves_down v max (Z.of_nat d) k;
  let prevK := if down : bool then (k + 1)%Z else (k - 1)%Z in
  prevX ← aget v (prevK + max);
  let prevY := (prevX - prevK)%Z in
  '(x, y, ops) ← back_diag (S (length src)) src x y prevX prevY ops;
  if 0 <? d then
    if (x =? prevX)%Z then
      l ← aget dst (y - 1); Ret (x, (y - 1)%Z, ops ++ [MkOp opInsert l])
    else
      l ← aget src (x - 1); Ret ((x - 1)%Z, y, ops ++ [MkOp opDelete l])
  else Ret (x, y, ops).

(** [for d := len(trace) - 1; d >= 0; d--], from [n - 1] on. *)
Fixpoint back_loop (n : nat) (trace : list (list Z)) (src dst : list bytes) (x y : Z)
    (ops : list editOp) : out (list editOp) :=
  match n with
  | O => Ret ops
  | S d =>
    '(x, y, ops) ← back_step trace src dst d x y ops;
    back_loop d trace src dst x y ops
  end.

(** The postcondition [backtrack] checks; [ri] is the number of lines produced. *)
Fixpoint check_script (ops : list editOp) (dst : list bytes) (ri : nat) : out nat :=
  match ops with
  | [] => Ret ri
  | op :: ops =>
    if bool_decide (kind op = opEqual) || bool_decide (kind op = opInsert) then
      if bool_decide (dst !! ri = Some (text op)) then check_script ops dst (S ri) else Panic
    else check_script ops dst ri
  end.

Definition backtrack (trace : list (list Z)) (src dst : list bytes) : out (list editOp) :=
  ops ← back_loop (length trace) trace src dst (zlen src) (zlen dst) [];
  let ops := rev ops in
  ri ← check_script ops dst 0;
  if ri =? length dst then Ret ops else Panic.

Fixpoint d_loop (fuel : nat) (src dst : list bytes) (max d : Z) (v : list Z) (trace : list (list Z)) :
    out (list editOp) :=
  match fuel with
  | O => NoFuel
  | S fuel =>
    if (d <=? max)%Z then
      let trace := trace ++ [v] in
      '(found, v) ← k_loop (S (S (Z.to_nat d))) src dst max d (- d) v;
      if found : bool then backtrack trace src dst
      else d_loop fuel src dst max (d + 1) v trace
    else Panic
  end.

Definition myers (src dst : list bytes) : out (list editOp) :=
  if (length src =? 0) && (length dst =? 0) then Ret [] else
  if length src =? 0 then Ret (map (MkOp opInsert) dst) else
  if length dst =? 0 then Ret (map (MkOp opDelete) src) else
  let max := (zlen src + zlen dst)%Z in
  let v := replicate (Z.to_nat (2 * max + 1)) 0%Z in
  v ← aset v (1 + max) 0%Z;
  d_loop (length src + length dst + 2) src dst max 0 v [].

(** ** Hunks *)

Record hunk := MkHunk {
  srcStart : nat; srcCount : nat; dstStart : nat; dstCount : nat; h_ops : list editOp }.

Record changeRange := MkRange { c_start : nat; c_end : nat }.

Definition is_equal (op : editOp) : bool := bool_decide (kind op = opEqual).

Fixpoint changes_loop (ops : list editOp) (i : nat) (changes : list changeRange) : list changeRange :=
  match ops with
  | [] => changes
  | op :: ops =>
    let changes :=
      if negb (is_equal op) then
        match last changes with
        | Some c =>
          if c_end c <? i then changes ++ [MkRange i (S i)]
          else take (length changes - 1) changes ++ [MkRange (c_start c) (S i)]
        | None => [MkRange i (S i)]
        end
      else changes in
    changes_loop ops (S i) changes
  end.

Definition findChanges (ops : list editOp) : list changeRange := changes_loop ops 0 [].

(** [prev] is the last range of [merged]. *)
Fixpoint merge_changes (changes : list changeRange) (contextLines : Z) (prev : changeRange) :
    list changeRange :=
  match changes with
  | [] => [prev]
  | c :: changes =>
    if (Z.of_nat (c_start c) - Z.of_nat (c_end prev) <=? i64 (2 * contextLines))%Z
    then merge_changes changes contextLines (MkRange (c_start prev) (c_end c))
    else prev :: merge_changes changes contextLines c
  end.

Definition mergeAdjacentChanges (changes : list changeRange) (contextLines : Z) : list changeRange :=
  match changes with
  | [] => []
  | c :: changes => merge_changes changes contextLines c
  end.

Definition src_len (op : editOp) : nat := match kind op with opInsert => 0 | _ => 1 end.
Definition dst_len (op : editOp) : nat := match kind op with opDelete => 0 | _ => 1 end.

(** The loop that fills [srcPos] and [dstPos]. *)
Fixpoint positions (ops : list editOp) (si di : nat) : list (nat * nat) :=
  match ops with
  | [] => []
  | op :: ops => (si, di) :: positions ops (si + src_len op) (di + dst_len op)
  end.

Definition count_src (ops : list editOp) : nat := sum_list_with src_len ops.
Definition count_dst (ops : list editOp) : nat := sum_list_with dst_len ops.

(** One hunk of [buildHunks]. *)
Definition build_hunk (ops : list editOp) (pos : list (nat * nat)) (contextLines : Z)
    (cr : changeRange) : out hunk :=
  let start := Z.max 0 (Z.of_nat (c_start cr) - contextLines) in
  let end0 := i64 (Z.of_nat (c_end cr) + contextLines) in
  let end_ := if (zlen ops <? end0)%Z then zlen ops else end0 in
  '(si, di) ← aget pos start;
  if (end_ <? start)%Z then Panic else
  hops ← subslice ops (Z.to_nat start) (Z.to_nat end_);
  Ret (MkHunk (si + 1) (count_src hops) (di + 1) (count_dst hops) hops).

Fixpoint build_all (ops : list editOp) (pos : list (nat * nat)) (contextLines : Z)
    (ranges : list changeRange) : out (list hunk) :=
  match ranges with
  | [] => Ret []
  | cr :: ranges =>
    h ← build_hunk ops pos contextLines cr;
    hs ← build_all ops pos contextLines ranges;
    Ret (h :: hs)
  end.

Definition buildHunks (ops : list editOp) (contextLines : Z) : out (list hunk) :=
  build_all ops (positions ops 0 0) contextLines
    (mergeAdjacentChanges (findChanges ops) contextLines).

(** ** Output *)

Definition noNewlineMarker : bytes := str "\ No newline at end of file" ++ [NL].

(** The index of the last op of a hunk that satisfies [p], -1 if none. *)
Definition last_index (p : editOp → bool) (ops : list editOp) : Z :=
  (zlen ops - 1 -
   Z.of_nat (default (length ops) (fst <$> list_find (λ op, p op = true) (rev ops))))%Z.

Definition not_insert (op : editOp) : bool := negb (bool_decide (kind op = opInsert)).
Definition not_delete (op : editOp) : bool := negb (bool_decide (kind op = opDelete)).

Fixpoint format_ops (ops : list editOp) (j lastSrc lastDst : Z) : bytes :=
  match ops with
  | [] => []
  | op :: ops =>
    let src_marker := if (j =? lastSrc)%Z then noNewlineMarker else [] in
    let dst_marker := if (j =? lastDst)%Z then noNewlineMarker else [] in
    match kind op with
    | opEqual => str " " ++ text op ++ [NL] ++ src_marker ++ dst_marker
    | opDelete => str "-" ++ text op ++ [NL] ++ src_marker
    | opInsert => str "+" ++ text op ++ [NL] ++ dst_marker
    end ++ format_ops ops (j + 1) lastSrc lastDst
  end.

Definition fmt_nat (n : nat) : bytes := fmt_int (Z.of_nat n).

Definition format_hunk (h : hunk) (isLast srcNoNL dstNoNL : bool) (srcTotal dstTotal : nat) : bytes :=
  let lastSrc :=
    if isLast && srcNoNL && (srcStart h + srcCount h - 1 =? srcTotal)
    then last_index not_insert (h_ops h) else (-1)%Z in
  let lastDst :=
    if isLast && dstNoNL && (dstStart h + dstCount h - 1 =? dstTotal)
    then last_index not_delete (h_ops h) else (-1)%Z in
  str "@@ -" ++ fmt_nat (srcStart h) ++ str "," ++ fmt_nat (srcCount h)
    ++ str " +" ++ fmt_nat (dstStart h) ++ str "," ++ fmt_nat (dstCount h) ++ str " @@" ++ [NL]
    ++ format_ops (h_ops h) 0 lastSrc lastDst.

Fixpoint format_hunks (hunks : list hunk) (srcNoNL dstNoNL : bool) (srcTotal dstTotal : nat) : bytes :=
  match hunks with
  | [] => []
  | h :: hunks =>
    format_hunk h (length hunks =? 0) srcNoNL dstNoNL srcTotal dstTotal
      ++ format_hunks hunks srcNoNL dstNoNL srcTotal dstTotal
  end.

Definition or_default (name dflt : bytes) : bytes := if bool_decide (name = []) then dflt else name.

Definition header (srcName dstName : bytes) : bytes :=
  str "--- " ++ or_default srcName (str "a") ++ [NL]
    ++ str "+++ " ++ or_default dstName (str "b") ++ [NL].

Definition formatUnified (hunks : list hunk) (srcName dstName : bytes) (srcNoNL dstNoNL : bool)
    (srcTotal dstTotal : nat) : bytes :=
  if length hunks =? 0 then [] else
  header srcName dstName ++ format_hunks hunks srcNoNL dstNoNL srcTotal dstTotal.

Definition Unified (a b : bytes) (opts : Options) : out bytes :=
  if (ContextLines opts <? 0)%Z then Panic else
  if isBinary a || isBinary b then
    Ret (header (SrcName opts) (DstName opts)
         ++ str "cannot compute difference between binary files" ++ [NL])
  else
  let '(srcLines, srcHasNL) := splitLines a in
  let '(dstLines, dstHasNL) := splitLines b in
  ops ← myers srcLines dstLines;
  if forallb is_equal ops then Ret [] else
  hunks ← buildHunks ops (ContextLines opts);
  Ret (formatUnified hunks (SrcName opts) (DstName opts) (negb srcHasNL) (negb dstHasNL)
         (length srcLines) (length dstLines)).

Definition count_kind (k : opKind) (ops : list editOp) : nat :=
  length (filter (λ op, kind op = k) ops).

Definition Stat (a b : bytes) : out DiffStat :=
  if isBinary a || isBinary b then Ret (MkDiffStat 0 0 true) else
  ops ← myers (splitLines a).1 (splitLines b).1;
  Ret (MkDiffStat (count_kind opInsert ops) (count_kind opDelete ops) false).

(** ** Specification: edit scripts and their cost *)

Definition src_of (ops : list editOp) : list bytes := map text (filter (λ op, kind op ≠ opInsert) ops).
Definition dst_of (ops : list editOp) : list bytes := map text (filter (λ op, kind op ≠ opDelete) ops).
Definition cost (ops : list editOp) : nat := length (filter (λ op, kind op ≠ opEqual) ops).

(** [ops] turns [src] into [dst]. *)
Definition edits (src dst : list bytes) (ops : list editOp) : Prop :=
  src_of ops = src ∧ dst_of ops = dst.

Lemma src_of_app s t : src_of (s ++ t) = src_of s ++ src_of t.
Proof. unfold src_of. by rewrite filter_app, map_app. Qed.
Lemma dst_of_app s t : dst_of (s ++ t) = dst_of s ++ dst_of t.
Proof. unfold dst_of. by rewrite filter_app, map_app. Qed.
Lemma cost_app s t : cost (s ++ t) = cost s + cost t.
Proof. unfold cost. by rewrite filter_app, length_app. Qed.

Lemma src_of_cons k l ops :
  src_of (MkOp k l :: ops) = match k with opInsert => src_of ops | _ => l :: src_of ops end.
Proof. unfold src_of. rewrite filter_cons. cbn. by destruct k. Qed.
Lemma dst_of_cons k l ops :
  dst_of (MkOp k l :: ops) = match k with opDelete => dst_of ops | _ => l :: dst_of ops end.
Proof. unfold dst_of. rewrite filter_cons. cbn. by destruct k. Qed.
Lemma cost_cons k l ops :
  cost (MkOp k l :: ops) = match k with opEqual => cost ops | _ => S (cost ops) end.
Proof. unfold cost. rewrite filter_cons. cbn. by destruct k. Qed.

Lemma equals_edits ls :
  src_of (map (MkOp opEqual) ls) = ls ∧ dst_of (map (MkOp opEqual) ls) = ls ∧
  cost (map (MkOp opEqual) ls) = 0.
Proof.
  induction ls as [|l ls (H1 & H2 & H3)]; [done|]. cbn [map].
  rewrite src_of_cons, dst_of_cons, cost_cons. cbn. rewrite H1, H2, H3. done.
Qed.

Lemma inserts_edits ls :
  src_of (map (MkOp opInsert) ls) = [] ∧ dst_of (map (MkOp opInsert) ls) = ls ∧
  cost (map (MkOp opInsert) ls) = length ls.
Proof.
  induction ls as [|l ls (H1 & H2 & H3)]; [done|]. cbn [map].
  rewrite src_of_cons, dst_of_cons, cost_cons. cbn. rewrite H1, H2, H3. done.
Qed.

Lemma deletes_edits ls :
  src_of (map (MkOp opDelete) ls) = ls ∧ dst_of (map (MkOp opDelete) ls) = [] ∧
  cost (map (MkOp opDelete) ls) = length ls.
Proof.
  induction ls as [|l ls (H1 & H2 & H3)]; [done|]. cbn [map].
  rewrite src_of_cons, dst_of_cons, cost_cons. cbn. rewrite H1, H2, H3. done.
Qed.

Lemma cost_lengths ops :
  length (dst_of ops) ≤ length (src_of ops) + cost ops ∧
  length (src_of ops) ≤ length (dst_of ops) + cost ops.
Proof.
  induction ops as [|[k l] ops IH]; [done|]. rewrite src_of_cons, dst_of_cons, cost_cons.
  destruct k; cbn; lia.
Qed.

(** ** The edit graph *)

Section graph.
Context (src dst : list bytes).

(** The point [(x, y)] can be reached with [d] insertions and deletions; beyond
    the ends of the texts there are only insertions and deletions. *)
Inductive reach : nat → nat → nat → Prop :=
  | reach_start : reach 0 0 0
  | reach_equal d x y l :
      reach d x y → src !! x = Some l → dst !! y = Some l → reach d (S x) (S y)
  | reach_delete d x y : reach d x y → reach (S d) (S x) y
  | reach_insert d x y : reach d x y → reach (S d) x (S y).

(** [t] equal lines from [(x, y)] on. *)
Definition run (x y t : nat) : Prop :=
  ∀ i, i < t → ∃ l, src !! (x + i) = Some l ∧ dst !! (y + i) = Some l.

(** No equal lines at [(x, y)]. *)
Definition stuck (x y : nat) : Prop := ∀ l, src !! x = Some l → dst !! y = Some l → False.

Definition same_parity (k : Z) (d : nat) : Prop := (k mod 2 = Z.of_nat d mod 2)%Z.

Lemma reach_diagonal d x y :
  reach d x y → same_parity (Z.of_nat x - Z.of_nat y) d ∧
    (- Z.of_nat d ≤ Z.of_nat x - Z.of_nat y ≤ Z.of_nat d)%Z.
Proof.
  unfold same_parity.
  induction 1 as [|d x y l _ [IH ?] _ _|d x y _ [IH ?]|d x y _ [IH ?]]; [done|..].
  all: split; [|lia]; Z.to_euclidean_division_equations; lia.
Qed.

Lemma reach_run d x y t : reach d x y → run x y t → reach d (x + t) (y + t).
Proof.
  intros Hr. induction t as [|t IH]; intros Ht; [by rewrite !Nat.add_0_r|].
  destruct (Ht t) as (l & Hs & Hd); [lia|].
  rewrite !Nat.add_succ_r. eapply reach_equal; [apply IH|exact Hs|exact Hd].
  intros i Hi. apply Ht. lia.
Qed.

(** The last insertion or deletion of a path, and the equal lines after it. *)
Lemma reach_last d x y :
  reach d x y →
  ∃ x0 y0 t, x = x0 + t ∧ y = y0 + t ∧ run x0 y0 t ∧
    ((d = 0 ∧ x0 = 0 ∧ y0 = 0) ∨
     (∃ d' x', d = S d' ∧ x0 = S x' ∧ reach d' x' y0) ∨
     (∃ d' y', d = S d' ∧ y0 = S y' ∧ reach d' x0 y')).
Proof.
  induction 1 as [|d x y l _ (x0 & y0 & t & -> & -> & Ht & Hd) Hs Hl|d x y Hr _|d x y Hr _].
  - exists 0, 0, 0. split_and!; [done|done|intros i; lia|by left].
  - exists x0, y0, (S t). split_and!; [lia|lia| |done].
    intros i Hi. destruct (decide (i = t)) as [->|]; [by exists l|apply Ht; lia].
  - exists (S x), y, 0. split_and!; [lia|lia|intros i; lia|]. right. left. eauto.
  - exists x, (S y), 0. split_and!; [lia|lia|intros i; lia|]. right. right. eauto.
Qed.

(** A point outside the texts costs what the nearest point inside costs, and
    its distance on top. *)
Lemma reach_clamp d x y :
  reach d x y →
  ∃ d', reach d' (Nat.min x (length src)) (Nat.min y (length dst)) ∧
    d' + (x - length src) + (y - length dst) ≤ d.
Proof.
  induction 1 as [|d x y l Hr (d' & IH & Hle) Hs Hd|d x y Hr (d' & IH & Hle)|d x y Hr (d' & IH & Hle)].
  - exists 0. split; [apply reach_start|lia].
  - apply lookup_lt_Some in Hs as Hx. apply lookup_lt_Some in Hd as Hy.
    exists d'. rewrite !Nat.min_l in IH by lia. rewrite !Nat.min_l by lia.
    split; [by eapply reach_equal|lia].
  - destruct (decide (x < length src)).
    + exists (S d'). rewrite (Nat.min_l x) in IH by lia. rewrite (Nat.min_l (S x)) by lia.
      split; [by apply reach_delete|lia].
    + exists d'. rewrite (Nat.min_r x) in IH by lia. rewrite (Nat.min_r (S x)) by lia.
      split; [done|lia].
  - destruct (decide (y < length dst)).
    + exists (S d'). rewrite (Nat.min_l y) in IH by lia. rewrite (Nat.min_l (S y)) by lia.
      split; [by apply reach_insert|lia].
    + exists d'. rewrite (Nat.min_r y) in IH by lia. rewrite (Nat.min_r (S y)) by lia.
      split; [done|lia].
Qed.

(** An edit script is a path. *)
Lemma script_reach ops d x y :
  reach d x y → x ≤ length src → y ≤ length dst →
  src_of ops = drop x src → dst_of ops = drop y dst →
  reach (d + cost ops) (length src) (length dst).
Proof.
  revert d x y. induction ops as [|[k l] ops IH]; intros d x y Hr Hx Hy Hs Hd.
  { apply (f_equal length) in Hs, Hd. rewrite length_drop in Hs, Hd. cbn in *.
    rewrite Nat.add_0_r. replace (length src) with x by lia. by replace (length dst) with y by lia. }
  rewrite src_of_cons in Hs. rewrite dst_of_cons in Hd. rewrite cost_cons.
  assert (∀ (p : list bytes) i q, l :: q = drop i p → p !! i = Some l ∧ q = drop (S i) p) as Hdrop.
  { intros p i q Hq. assert (p !! i = Some l) as Hp.
    { rewrite <- (Nat.add_0_r i), <- lookup_drop, <- Hq. done. }
    split; [done|]. rewrite (drop_S _ _ _ Hp) in Hq. by injection Hq. }
  destruct k; cbn in Hs, Hd |- *.
  - apply Hdrop in Hs as [Hsl Hs], Hd as [Hdl Hd].
    apply lookup_lt_Some in Hsl as ?, Hdl as ?.
    eapply (IH d (S x) (S y)); try done; try lia. by eapply reach_equal.
  - apply Hdrop in Hd as [Hdl Hd]. apply lookup_lt_Some in Hdl as ?.
    rewrite <- Nat.add_succ_comm. eapply (IH (S d) x (S y)); try done; try lia. by apply reach_insert.
  - apply Hdrop in Hs as [Hsl Hs]. apply lookup_lt_Some in Hsl as ?.
    rewrite <- Nat.add_succ_comm. eapply (IH (S d) (S x) y); try done; try lia. by apply reach_delete.
Qed.

(** ** Furthest points *)

Definition n : Z := zlen src.
Definition m : Z := zlen dst.
Definition max : Z := (n + m)%Z.

(** The value of an array at diagonal [k]. *)
Definition V (v : list Z) (k : Z) : Z := default 0%Z (v !! Z.to_nat (k + max)).
Definition wfv (v : list Z) : Prop := zlen v = (2 * max + 1)%Z.

Definition down_of (v : list Z) (d k : Z) : bool :=
  if (k =? - d)%Z then true else if (k =? d)%Z then false else (V v (k - 1) <? V v (k + 1))%Z.

(** Where round [d] enters diagonal [k]. *)
Definition start (v : list Z) (d k : Z) : Z :=
  if down_of v d k then V v (k + 1) else (V v (k - 1) + 1)%Z.

(** What round [d] computes for diagonal [k]: the end of the equal lines from its
    start. *)
Definition level (v : list Z) (d : nat) (k X : Z) : Prop :=
  ∃ s y t : nat, start v (Z.of_nat d) k = Z.of_nat s ∧ (Z.of_nat s - k = Z.of_nat y)%Z ∧
    run s y t ∧ stuck (s + t) (y + t) ∧ X = Z.of_nat (s + t).

(** [X] is the furthest point on diagonal [k] with [d] edits. *)
Definition furthest (d : nat) (k X : Z) : Prop :=
  ∃ x y : nat, X = Z.of_nat x ∧ (Z.of_nat x - Z.of_nat y = k)%Z ∧ reach d x y ∧
    ∀ x' y', reach d x' y' → (Z.of_nat x' - Z.of_nat y' = k)%Z → x' ≤ x.

Definition on_round (d : nat) (k : Z) : Prop :=
  (- Z.of_nat d ≤ k ≤ Z.of_nat d)%Z ∧ same_parity k d.

(** The array before round [d] holds the furthest points of round [d - 1]. *)
Definition prior (v : list Z) (d : nat) : Prop :=
  match d with
  | O => V v 1 = 0%Z
  | S d' => ∀ k, on_round d' k → furthest d' k (V v k)
  end.

Definition finished (k X : Z) : Prop := (n ≤ X)%Z ∧ (m ≤ X - k)%Z.

Lemma nm_nonneg : (0 ≤ n)%Z ∧ (0 ≤ m)%Z.
Proof. unfold n, m, zlen. lia. Qed.

Lemma on_round_down d k : on_round (S d) k → k ≠ Z.of_nat (S d) → on_round d (k + 1).
Proof.
  unfold on_round, same_parity. intros [? Hp] Hk. split; [|Z.to_euclidean_division_equations; lia].
  assert (k ≠ Z.of_nat d) by (intros ->; Z.to_euclidean_division_equations; lia). lia.
Qed.

Lemma on_round_right d k : on_round (S d) k → k ≠ (- Z.of_nat (S d))%Z → on_round d (k - 1).
Proof.
  unfold on_round, same_parity. intros [? Hp] Hk. split; [|Z.to_euclidean_division_equations; lia].
  assert (k ≠ (- Z.of_nat d)%Z) by (intros ->; Z.to_euclidean_division_equations; lia). lia.
Qed.

Lemma down_of_bounds v d k :
  on_round d k → if down_of v (Z.of_nat d) k then k = (- Z.of_nat d)%Z ∨ (k < Z.of_nat d)%Z
                 else k ≠ (- Z.of_nat d)%Z.
Proof.
  intros [? _]. unfold down_of.
  destruct (Z.eqb_spec k (- Z.of_nat d)); [by left|].
  destruct (Z.eqb_spec k (Z.of_nat d)); [done|]. case_match; [lia|done].
Qed.

(** The start of a diagonal is a point of the graph. *)
Lemma start_point v d k :
  prior v d → on_round d k →
  ∃ s y : nat, start v (Z.of_nat d) k = Z.of_nat s ∧ (Z.of_nat s - k = Z.of_nat y)%Z ∧
    reach d s y.
Proof.
  intros Hp Hk. pose proof (down_of_bounds v d k Hk) as Hb. unfold start.
  destruct d as [|d].
  - assert (k = 0)%Z as -> by (destruct Hk; lia). exists 0, 0. cbn in Hp.
    assert (down_of v (Z.of_nat 0) 0 = true) as -> by done.
    change (0 + 1)%Z with 1%Z. rewrite Hp. split_and!; [done|done|apply reach_start].
  - destruct (down_of v (Z.of_nat (S d)) k).
    + destruct (Hp (k + 1)%Z) as (x & y & -> & Hxy & Hr & _).
      { apply on_round_down; [done|]. lia. }
      exists x, (S y). split_and!; [done|lia|by apply reach_insert].
    + destruct (Hp (k - 1)%Z) as (x & y & -> & Hxy & Hr & _).
      { by apply on_round_right. }
      exists (S x), y. split_and!; [lia|lia|by apply reach_delete].
Qed.

(** No path enters the diagonal further on. *)
Lemma start_furthest v d k x0 y0 x :
  prior v d → on_round d k → start v (Z.of_nat d) k = Z.of_nat x →
  (Z.of_nat x0 - Z.of_nat y0 = k)%Z →
  ((d = 0 ∧ x0 = 0 ∧ y0 = 0) ∨
   (∃ d' x', d = S d' ∧ x0 = S x' ∧ reach d' x' y0) ∨
   (∃ d' y', d = S d' ∧ y0 = S y' ∧ reach d' x0 y')) →
  x0 ≤ x.
Proof.
  intros Hp Hk Hs Hk0 Hlast.
  destruct Hlast as [(-> & -> & ->)|[(d' & x' & -> & -> & Hr)|(d' & y' & -> & -> & Hr)]]; [lia|..];
    unfold start, down_of in Hs; pose proof (reach_diagonal _ _ _ Hr) as [Hpar Hbd];
    cbn [prior] in Hp.
  - assert (on_round d' (k - 1)) as Hk1.
    { split; [lia|]. by replace (k - 1)%Z with (Z.of_nat x' - Z.of_nat y0)%Z by lia. }
    destruct (Hp _ Hk1) as (x1 & y1 & HV & Hxy1 & _ & Hmax).
    specialize (Hmax x' y0 Hr ltac:(lia)).
    destruct (Z.eqb_spec k (- Z.of_nat (S d'))); [lia|].
    destruct (Z.eqb_spec k (Z.of_nat (S d'))); [lia|].
    destruct (Z.ltb_spec (V v (k - 1)) (V v (k + 1))); lia.
  - assert (on_round d' (k + 1)) as Hk1.
    { split; [lia|]. by replace (k + 1)%Z with (Z.of_nat x0 - Z.of_nat y')%Z by lia. }
    destruct (Hp _ Hk1) as (x1 & y1 & HV & Hxy1 & _ & Hmax).
    specialize (Hmax x0 y' Hr ltac:(lia)).
    destruct (Z.eqb_spec k (- Z.of_nat (S d'))); [lia|].
    destruct (Z.eqb_spec k (Z.of_nat (S d'))); [lia|].
    destruct (Z.ltb_spec (V v (k - 1)) (V v (k + 1))); lia.
Qed.

Lemma level_furthest v d k X : prior v d → on_round d k → level v d k X → furthest d k X.
Proof.
  intros Hp Hk (s & y & t & Hs & Hy & Hrun & Hstuck & ->).
  destruct (start_point v d k Hp Hk) as (s' & y' & Hs' & Hy' & Hr).
  assert (s' = s) as -> by lia. assert (y' = y) as -> by lia.
  exists (s + t), (y + t). split_and!; [done|lia|by apply reach_run|].
  intros x1 y1 Hr1 Hk1.
  destruct (reach_last _ _ _ Hr1) as (x0 & y0 & t' & -> & -> & Hrun' & Hlast).
  assert (x0 ≤ s) as Hx0 by (eapply (start_furthest v d k x0 y0 s); try done; lia).
  destruct (decide (x0 + t' ≤ s + t)) as [|Hgt]; [done|exfalso].
  destruct (Hrun' (s + t - x0)) as (l & Hl1 & Hl2); [lia|].
  eapply (Hstuck l).
  - by replace (s + t) with (x0 + (s + t - x0)) by lia.
  - by replace (y + t) with (y0 + (s + t - x0)) by lia.
Qed.

(** ** Array accesses *)

Lemma aget_V v k : wfv v → (- max ≤ k ≤ max)%Z → aget v (k + max) = Ret (V v k).
Proof.
  unfold wfv, aget, V. intros Hv Hk. destruct (Z.ltb_spec (k + max) 0); [lia|].
  destruct (lookup_lt_is_Some_2 v (Z.to_nat (k + max))) as [x Hx]; [unfold zlen in Hv; lia|].
  unfold index. by rewrite Hx.
Qed.

Lemma aset_V v k x :
  wfv v → (- max ≤ k ≤ max)%Z →
  ∃ v', aset v (k + max) x = Ret v' ∧ wfv v' ∧ V v' k = x ∧
    ∀ k', (- max ≤ k')%Z → k' ≠ k → V v' k' = V v k'.
Proof.
  unfold aset, wfv. intros Hv Hk. rewrite Hv.
  destruct (Z.ltb_spec (k + max) 0); [lia|]. destruct (Z.leb_spec (2 * max + 1) (k + max)); [lia|].
  cbn [orb]. eexists. split; [done|]. unfold V, zlen in *. rewrite length_insert. split_and!; [done|..].
  - rewrite list_lookup_insert_eq; [done|lia].
  - intros k' Hk' Hne. rewrite list_lookup_insert_ne; [done|lia].
Qed.

Lemma moves_down_spec v d k :
  wfv v → (Z.of_nat d ≤ max)%Z → on_round d k →
  moves_down v max (Z.of_nat d) k = Ret (down_of v (Z.of_nat d) k).
Proof.
  intros Hv Hd [Hk _]. unfold moves_down, down_of.
  destruct (Z.eqb_spec k (- Z.of_nat d)); [done|]. destruct (Z.eqb_spec k (Z.of_nat d)); [done|].
  rewrite !aget_V by (done || lia). done.
Qed.

Lemma start_spec v d k :
  wfv v → (Z.of_nat d ≤ max)%Z → (1 ≤ max)%Z → on_round d k →
  (if down_of v (Z.of_nat d) k then aget v (k + 1 + max)
   else a ← aget v (k - 1 + max); Ret (a + 1)%Z) = Ret (start v (Z.of_nat d) k).
Proof.
  intros Hv Hd Hmax Hk. pose proof (down_of_bounds v d k Hk) as Hb. unfold start.
  destruct Hk as [Hk _]. destruct (down_of _ _ _); rewrite aget_V by (done || lia); done.
Qed.

Lemma aget_nat {A} (l : list A) i x : l !! i = Some x → aget l (Z.of_nat i) = Ret x.
Proof.
  intros Hx. unfold aget. destruct (Z.ltb_spec (Z.of_nat i) 0); [lia|]. rewrite Nat2Z.id.
  unfold index. by rewrite Hx.
Qed.

Lemma snake_spec fuel x y :
  length src - x < fuel →
  ∃ t, snake fuel src dst (Z.of_nat x) (Z.of_nat y) = Ret (Z.of_nat (x + t), Z.of_nat (y + t)) ∧
    run x y t ∧ stuck (x + t) (y + t).
Proof.
  revert x y. induction fuel as [|fuel IH]; intros x y Hf; [lia|]. cbn [snake].
  assert ((∀ l, src !! x = Some l → dst !! y = Some l → False) →
    ∃ t, Ret (E:=Empty_set) (Z.of_nat x, Z.of_nat y) = Ret (Z.of_nat (x + t), Z.of_nat (y + t)) ∧
      run x y t ∧ stuck (x + t) (y + t)) as Hstop.
  { intros Hno. exists 0. rewrite !Nat.add_0_r. split_and!; [done|intros i; lia|done]. }
  unfold zlen. destruct (Z.ltb_spec (Z.of_nat x) (Z.of_nat (length src))) as [Hx|Hx]; cbn [andb].
  2: { apply Hstop. intros l Hl%lookup_lt_Some _. lia. }
  destruct (Z.ltb_spec (Z.of_nat y) (Z.of_nat (length dst))) as [Hy|Hy]; cbn [andb].
  2: { apply Hstop. intros l _ Hl%lookup_lt_Some. lia. }
  destruct (lookup_lt_is_Some_2 src x) as [a Ha]; [lia|].
  destruct (lookup_lt_is_Some_2 dst y) as [b Hb]; [lia|].
  rewrite (aget_nat _ _ _ Ha), (aget_nat _ _ _ Hb). cbn [mbind outcome_bind].
  case_bool_decide as Hab; [subst b|].
  - destruct (IH (S x) (S y) ltac:(lia)) as (t & Ht & Hrun & Hstuck).
    exists (S t). replace (Z.of_nat x + 1)%Z with (Z.of_nat (S x)) by lia.
    replace (Z.of_nat y + 1)%Z with (Z.of_nat (S y)) by lia. rewrite Ht.
    rewrite !Nat.add_succ_r. split_and!; [done| |done].
    intros [|i] Hi; [rewrite !Nat.add_0_r; eauto|].
    rewrite !Nat.add_succ_r. apply (Hrun i). lia.
  - apply Hstop. intros l Hl Hl'. congruence.
Qed.

(** ** The forward pass *)

(** What a round has done when it stands at diagonal [k]: diagonals before [k]
    hold their level, the ones the round reads are untouched. *)
Definition round_at (v0 v : list Z) (d : nat) (k : Z) : Prop :=
  wfv v ∧
  (∀ k', (- max ≤ k')%Z → ¬ same_parity k' d → V v k' = V v0 k') ∧
  (∀ k', on_round d k' → (k' < k)%Z → level v0 d k' (V v k') ∧ ¬ finished k' (V v k')).

Lemma start_ext v0 v d k :
  (Z.of_nat d ≤ max)%Z → (1 ≤ max)%Z → on_round d k →
  (∀ k', (- max ≤ k')%Z → ¬ same_parity k' d → V v k' = V v0 k') →
  start v (Z.of_nat d) k = start v0 (Z.of_nat d) k.
Proof.
  intros Hd Hmax [Hk Hpar] Hext. unfold start, down_of.
  assert (¬ same_parity (k + 1) d ∧ ¬ same_parity (k - 1) d) as [H1 H2].
  { unfold same_parity in *. split; Z.to_euclidean_division_equations; lia. }
  destruct (Z.eqb_spec k (- Z.of_nat d)); [apply Hext; [lia|done]|].
  destruct (Z.eqb_spec k (Z.of_nat d)); [by rewrite Hext by (done || lia)|].
  rewrite !Hext by (done || lia). done.
Qed.

Lemma k_loop_spec fuel v0 v d k :
  (Z.of_nat d ≤ max)%Z → (1 ≤ max)%Z → prior v0 d → round_at v0 v d k →
  (- Z.of_nat d ≤ k ≤ Z.of_nat d + 2)%Z → same_parity k d →
  (Z.of_nat d - k + 2 < 2 * Z.of_nat fuel)%Z →
  ∃ found v', k_loop fuel src dst max (Z.of_nat d) k v = Ret (found, v') ∧
    if found : bool then ∃ k X, on_round d k ∧ level v0 d k X ∧ finished k X
    else wfv v' ∧ ∀ k', on_round d k' → level v0 d k' (V v' k') ∧ ¬ finished k' (V v' k').
Proof.
  intros Hd Hmax Hprior. revert v k. induction fuel as [|fuel IH]; intros v k Hat Hlo Hpar Hf; [lia|].
  destruct Hat as (Hwf & Hext & Hdone). cbn [k_loop].
  destruct (Z.leb_spec k (Z.of_nat d)) as [Hle|Hgt].
  2: { exists false, v. split; [done|]. split; [done|]. intros k' Hk'. apply Hdone; [done|].
    destruct Hk'. lia. }
  assert (on_round d k) as Hk by (split; [lia|done]).
  rewrite moves_down_spec by done. cbn [mbind outcome_bind].
  rewrite start_spec by done. cbn [mbind outcome_bind].
  rewrite (start_ext v0 v) by done.
  destruct (start_point v0 d k Hprior Hk) as (s & y & Hs & Hy & _). rewrite Hs, Hy.
  destruct (snake_spec (S (length src)) s y) as (t & -> & Hrun & Hstuck); [lia|].
  cbn [mbind outcome_bind].
  destruct (aset_V v k (Z.of_nat (s + t))) as (v' & -> & Hwf' & Hset & Hkeep); [done|lia|].
  cbn [mbind outcome_bind].
  assert (level v0 d k (Z.of_nat (s + t))) as Hlev by (exists s, y, t; done).
  destruct ((zlen src <=? Z.of_nat (s + t)) && (zlen dst <=? Z.of_nat (y + t)))%Z eqn:E.
  { exists true, v'. split; [done|]. exists k, (Z.of_nat (s + t)). split_and!; [done..|].
    apply andb_true_iff in E as [?%Z.leb_le ?%Z.leb_le]. unfold finished, n, m. lia. }
  apply IH; [|lia|unfold same_parity in *; Z.to_euclidean_division_equations; lia|lia].
  split_and!; [done|..].
  - intros k' Hk' Hp'. rewrite Hkeep; [by apply Hext|done|]. intros ->. done.
  - intros k' Hk' Hlt. destruct (decide (k' = k)) as [->|Hne].
    + rewrite Hset. split; [done|]. unfold finished, n, m. intros [? ?].
      apply andb_false_iff in E as [?%Z.leb_gt|?%Z.leb_gt]; lia.
    + destruct Hk' as [Hk' Hp']. rewrite Hkeep; [|lia|done]. apply Hdone; [done|].
      assert (k' ≠ k + 1)%Z; [|lia]. intros ->.
      unfold same_parity in *. Z.to_euclidean_division_equations; lia.
Qed.

(** The snapshots: each holds what the round before it computed from the one
    before it. *)
Definition trace_ok (T : list (list Z)) : Prop :=
  ∀ i u, T !! i = Some u → wfv u ∧ prior u i ∧
    ∀ u', T !! S i = Some u' → ∀ k, on_round i k → level u i k (V u' k).

Definition not_yet (d : nat) : Prop := ∀ d', d' < d → ¬ reach d' (length src) (length dst).

Lemma round_not_reached u d v' :
  prior u d → (∀ k, on_round d k → level u d k (V v' k) ∧ ¬ finished k (V v' k)) →
  ¬ reach d (length src) (length dst).
Proof.
  intros Hp Hv Hr. pose proof (reach_diagonal _ _ _ Hr) as [Hpar Hb].
  destruct (Hv (Z.of_nat (length src) - Z.of_nat (length dst))%Z) as [Hlev Hnot]; [done|].
  apply level_furthest in Hlev as (x & y & HX & Hxy & _ & Hmax); [|done|done].
  specialize (Hmax _ _ Hr eq_refl). apply Hnot. unfold finished, n, m, zlen. lia.
Qed.

(** The first round that passes the ends is exactly at the ends. *)
Lemma finished_at_end d k X :
  not_yet d → furthest d k X → finished k X → X = n ∧ (k = n - m)%Z ∧ reach d (length src) (length dst).
Proof.
  intros Hnot (x & y & -> & Hxy & Hr & _) [H1 H2]. unfold n, m, zlen in *.
  destruct (reach_clamp _ _ _ Hr) as (d' & Hr' & Hle). rewrite !Nat.min_r in Hr' by lia.
  assert (¬ d' < d) by (intros Hlt; by apply (Hnot d' Hlt)).
  assert (d' = d) as -> by lia. split_and!; [lia|lia|done].
Qed.

(** ** The backward pass *)

Lemma back_diag_spec fuel s y t prevX prevY ops :
  t < fuel → run s y t →
  (prevX ≤ Z.of_nat s)%Z → (prevY ≤ Z.of_nat y)%Z → prevX = Z.of_nat s ∨ prevY = Z.of_nat y →
  back_diag fuel src (Z.of_nat (s + t)) (Z.of_nat (y + t)) prevX prevY ops =
    Ret (Z.of_nat s, Z.of_nat y, ops ++ rev (map (MkOp opEqual) (take t (drop s src)))).
Proof.
  intros Hf Hrun Hx Hy Hxy. revert fuel ops Hf. induction t as [|t IH]; intros fuel ops Hf;
    (destruct fuel as [|fuel]; [lia|]); cbn [back_diag].
  - rewrite !Nat.add_0_r. destruct (Z.ltb_spec prevX (Z.of_nat s)), (Z.ltb_spec prevY (Z.of_nat y));
      cbn [andb]; try lia; by rewrite take_0, app_nil_r.
  - destruct (Z.ltb_spec prevX (Z.of_nat (s + S t))); [|lia].
    destruct (Z.ltb_spec prevY (Z.of_nat (y + S t))); [|lia]. cbn [andb].
    destruct (Hrun t) as (l & Hl & _); [lia|].
    replace (Z.of_nat (s + S t) - 1)%Z with (Z.of_nat (s + t)) by lia.
    replace (Z.of_nat (y + S t) - 1)%Z with (Z.of_nat (y + t)) by lia.
    rewrite (aget_nat _ _ _ Hl). cbn [mbind outcome_bind].
    rewrite IH; [|intros i Hi; apply Hrun; lia|lia].
    assert (take (S t) (drop s src) = take t (drop s src) ++ [l]) as ->.
    { rewrite (take_S_r _ _ l); [done|]. by rewrite lookup_drop. }
    rewrite map_app, rev_app_distr. cbn. by rewrite <- app_assoc.
Qed.

(** The edits of one round, newest last. *)
Definition round_ops (d : nat) (down : bool) (s y t : nat) : list editOp :=
  (if 0 <? d then
     if down then [MkOp opInsert (default [] (dst !! (y - 1)))]
     else [MkOp opDelete (default [] (src !! (s - 1)))]
   else []) ++ map (MkOp opEqual) (take t (drop s src)).

Lemma back_step_spec T d u s y t ops :
  T !! d = Some u → wfv u → (Z.of_nat d ≤ max)%Z → (1 ≤ max)%Z → prior u d →
  on_round d (Z.of_nat s - Z.of_nat y) →
  start u (Z.of_nat d) (Z.of_nat s - Z.of_nat y) = Z.of_nat s → run s y t →
  s + t ≤ length src → y + t ≤ length dst →
  let k := (Z.of_nat s - Z.of_nat y)%Z in
  let down := down_of u (Z.of_nat d) k in
  back_step T src dst d (Z.of_nat (s + t)) (Z.of_nat (y + t)) ops =
    Ret ((Z.of_nat s - if (0 <? d)%nat && negb down then 1 else 0)%Z,
         (Z.of_nat y - if (0 <? d)%nat && down then 1 else 0)%Z,
         ops ++ rev (round_ops d down s y t)).
Proof.
  intros HT Hwf Hd Hmax Hp Hk Hs Hrun Hsn Hym k down. subst k.
  set (k := (Z.of_nat s - Z.of_nat y)%Z) in *. unfold back_step, index. rewrite HT.
  cbn [mbind outcome_bind]. replace (Z.of_nat (s + t) - Z.of_nat (y + t))%Z with k by lia.
  change (zlen src + zlen dst)%Z with max. rewrite moves_down_spec by done.
  cbn [mbind outcome_bind]. fold down.
  pose proof (down_of_bounds u d k Hk) as Hb. unfold start in Hs. fold down in Hs, Hb.
  destruct Hk as [Hk1 Hk2].
  assert (aget u ((if down then k + 1 else k - 1) + max) =
    Ret (Z.of_nat s - if down then 0 else 1)%Z) as ->.
  { destruct down; rewrite aget_V by (done || lia); f_equal; lia. }
  cbn [mbind outcome_bind].
  assert (d = 0 → down = true) as Hd0.
  { intros ->. subst down. unfold down_of. assert (k = 0)%Z as -> by lia. done. }
  rewrite back_diag_spec; [|lia|done|destruct down; lia|destruct down; lia|destruct down; [left|right]; lia].
  cbn [mbind outcome_bind]. unfold round_ops.
  destruct d as [|d]; cbn [Nat.ltb Nat.leb andb app].
  { by rewrite !Z.sub_0_r. }
  destruct (start_point u (S d) k) as (s' & y' & Hs' & Hy' & Hreach); [done|by split|].
  cbn [prior] in Hp. destruct down eqn:Hdown; cbn [negb].
  - rewrite Z.sub_0_r, Z.eqb_refl.
    destruct (Hp (k + 1)%Z) as (x1 & y1 & HV & Hxy & _).
    { apply on_round_down; [by split|lia]. }
    destruct (lookup_lt_is_Some_2 dst (y - 1)) as [l Hl]; [lia|].
    replace (Z.of_nat y - 1)%Z with (Z.of_nat (y - 1)) by lia.
    rewrite (aget_nat _ _ _ Hl), Hl. cbn. by rewrite <- app_assoc.
  - destruct (Z.eqb_spec (Z.of_nat s) (Z.of_nat s - 1)); [lia|]. rewrite Z.sub_0_r.
    destruct (Hp (k - 1)%Z) as (x1 & y1 & HV & Hxy & _).
    { apply on_round_right; [by split|done]. }
    destruct (lookup_lt_is_Some_2 src (s - 1)) as [l Hl]; [lia|].
    replace (Z.of_nat s - 1)%Z with (Z.of_nat (s - 1)) by lia.
    rewrite (aget_nat _ _ _ Hl), Hl. cbn. by rewrite <- app_assoc.
Qed.

Lemma run_take s y t :
  run s y t → take t (drop s src) = take t (drop y dst).
Proof.
  intros Hrun. apply list_eq. intros i. destruct (decide (i < t)).
  - destruct (Hrun i) as (? & Hs & Hd); [done|].
    by rewrite !lookup_take_lt, !lookup_drop, Hs, Hd by done.
  - by rewrite !lookup_take_ge by lia.
Qed.

Lemma take_add (l : list bytes) s t : take s l ++ take t (drop s l) = take (s + t) l.
Proof. by rewrite take_take_drop. Qed.

Lemma take_last (l : list bytes) y x : 0 < y → l !! (y - 1) = Some x → take (y - 1) l ++ [x] = take y l.
Proof. intros Hy Hx. rewrite <- (take_S_r _ _ _ Hx). f_equal. lia. Qed.

(** The edits of a round extend a script up to its start to its end. *)
Lemma round_ops_edits d (down : bool) s y t ops :
  0 < d → (if down then 0 < y else 0 < s) → run s y t → s + t ≤ length src → y + t ≤ length dst →
  edits (take (if down then s else s - 1) src) (take (if down then y - 1 else y) dst) ops →
  edits (take (s + t) src) (take (y + t) dst) (ops ++ round_ops d down s y t) ∧
  cost (ops ++ round_ops d down s y t) = S (cost ops).
Proof.
  intros Hd Hpos Hrun Hs Hy [Ho1 Ho2]. unfold edits, round_ops.
  destruct d as [|d]; [lia|]. cbn [Nat.ltb Nat.leb].
  rewrite !src_of_app, !dst_of_app, !cost_app, Ho1, Ho2.
  destruct (equals_edits (take t (drop s src))) as (-> & -> & ->).
  destruct down.
  - destruct (lookup_lt_is_Some_2 dst (y - 1)) as [l Hl]; [lia|]. rewrite Hl. change (default [] (Some l)) with l.
    change [MkOp opInsert l] with (map (MkOp opInsert) [l]).
    destruct (inserts_edits [l]) as (-> & -> & ->). rewrite (run_take _ _ _ Hrun), app_nil_l.
    split; [split|cbn; lia].
    + rewrite <- (run_take _ _ _ Hrun). apply take_add.
    + rewrite app_assoc, take_last by done. apply take_add.
  - destruct (lookup_lt_is_Some_2 src (s - 1)) as [l Hl]; [lia|]. rewrite Hl. change (default [] (Some l)) with l.
    change [MkOp opDelete l] with (map (MkOp opDelete) [l]).
    destruct (deletes_edits [l]) as (-> & -> & ->).
    split; [split|cbn; lia].
    + rewrite app_assoc, take_last by done. apply take_add.
    + rewrite app_nil_l, (run_take _ _ _ Hrun). apply take_add.
Qed.

Lemma back_loop_spec T d u x y ops :
  trace_ok T → T !! d = Some u → (Z.of_nat d ≤ max)%Z → (1 ≤ max)%Z →
  x ≤ length src → y ≤ length dst → on_round d (Z.of_nat x - Z.of_nat y) →
  level u d (Z.of_nat x - Z.of_nat y) (Z.of_nat x) →
  ∃ s, back_loop (S d) T src dst (Z.of_nat x) (Z.of_nat y) ops = Ret (ops ++ rev s) ∧
    edits (take x src) (take y dst) s ∧ cost s = d.
Proof.
  intros HT. revert u x y ops. induction d as [|d IH];
    intros u x y ops Hu Hd Hmax Hx Hy Hk (s0 & y0 & t & Hs & Hy0 & Hrun & _ & Hxt).
  all: assert (x = s0 + t) as -> by lia; assert (y = y0 + t) as -> by lia.
  all: replace (Z.of_nat (s0 + t) - Z.of_nat (y0 + t))%Z with (Z.of_nat s0 - Z.of_nat y0)%Z in * by lia.
  all: destruct (HT _ _ Hu) as (Hwf & Hp & _).
  all: cbn [back_loop]; rewrite (back_step_spec T _ u s0 y0 t) by done; cbn [mbind outcome_bind].
  - cbn [Nat.ltb Nat.leb andb back_loop].
    destruct (start_point u 0 _ Hp Hk) as (s' & y' & Hs' & Hy' & Hr). rewrite Hs in Hs'.
    assert (s' = s0) as -> by lia. assert (y' = y0) as -> by lia.
    assert (s0 = 0 ∧ y0 = 0) as [-> ->].
    { unfold start in Hs. destruct Hk as [Hk _]. cbn [prior] in Hp.
      assert (Z.of_nat s0 - Z.of_nat y0 = 0)%Z as H0 by lia. rewrite H0 in Hs.
      change (V u 1 = Z.of_nat s0) in Hs. lia. }
    eexists. split; [done|]. unfold round_ops. cbn [Nat.ltb Nat.leb app].
    destruct (equals_edits (take t (drop 0 src))) as (H1 & H2 & H3).
    unfold edits. rewrite H1, H2, H3. split; [split|done]; [done|]. by rewrite (run_take _ _ _ Hrun).
  - set (k := (Z.of_nat s0 - Z.of_nat y0)%Z) in *.
    pose proof (down_of_bounds u (S d) k Hk) as Hb. unfold start in Hs.
    set (down := down_of u (Z.of_nat (S d)) k) in *.
    destruct (lookup_lt_is_Some_2 T d) as [u' Hu']; [by apply lookup_lt_Some in Hu; lia|].
    destruct (HT _ _ Hu') as (_ & _ & Hlev). specialize (Hlev _ Hu). cbn [prior] in Hp.
    set (x' := if down then s0 else s0 - 1). set (y' := if down then y0 - 1 else y0).
    assert (on_round d (Z.of_nat x' - Z.of_nat y') ∧ V u (Z.of_nat x' - Z.of_nat y') = Z.of_nat x' ∧
      (if down then 0 < y0 else 0 < s0) ∧ x' ≤ s0 ∧ y' ≤ y0 ∧
      Z.of_nat x' = (Z.of_nat s0 - if negb down then 1 else 0)%Z ∧
      Z.of_nat y' = (Z.of_nat y0 - if down then 1 else 0)%Z) as (Hk' & HV & Hpos & Hx' & Hy' & Ex & Ey).
    { subst x' y'. destruct down; cbn [negb].
      - assert (on_round d (k + 1)) as Hk' by (apply on_round_down; [done|lia]).
        destruct (Hp _ Hk') as (x1 & y1 & HV & Hxy & _).
        replace (Z.of_nat s0 - Z.of_nat (y0 - 1))%Z with (k + 1)%Z by lia. split_and!; (done || lia).
      - assert (on_round d (k - 1)) as Hk' by (by apply on_round_right).
        destruct (Hp _ Hk') as (x1 & y1 & HV & Hxy & _).
        replace (Z.of_nat (s0 - 1) - Z.of_nat y0)%Z with (k - 1)%Z by lia. split_and!; (done || lia). }
    cbn [Nat.ltb Nat.leb andb]. rewrite <- Ex, <- Ey.
    destruct (IH u' x' y' (ops ++ rev (round_ops (S d) down s0 y0 t)))
      as (s & Hs1 & Hs2 & Hs3); [done|lia|done|lia|lia|done|rewrite <- HV at 2; by apply Hlev|].
    exists (s ++ round_ops (S d) down s0 y0 t). cbn [back_loop] in Hs1.
    rewrite Hs1, rev_app_distr, <- app_assoc. split; [done|].
    rewrite <- Hs3. apply round_ops_edits; [lia|done..].
Qed.

Lemma check_script_ok ops ri :
  ri ≤ length dst → dst_of ops = drop ri dst → check_script ops dst ri = Ret (length dst).
Proof.
  revert ri. induction ops as [|[k l] ops IH]; intros ri Hri Hd; cbn [check_script kind text].
  - apply (f_equal length) in Hd. rewrite length_drop in Hd. cbn in Hd. f_equal. lia.
  - rewrite dst_of_cons in Hd.
    assert (l :: dst_of ops = drop ri dst → dst !! ri = Some l ∧ dst_of ops = drop (S ri) dst) as Hdrop.
    { intros Hq. assert (dst !! ri = Some l) as Hp.
      { rewrite <- (Nat.add_0_r ri), <- lookup_drop, <- Hq. done. }
      split; [done|]. rewrite (drop_S _ _ _ Hp) in Hq. by injection Hq. }
    destruct k.
    3: by apply (IH ri).
    all: destruct (Hdrop Hd) as [Hl Hd']; rewrite (bool_decide_true (dst !! ri = Some l)) by done;
      apply (IH (S ri)); [by apply lookup_lt_Some in Hl|done].
Qed.

Lemma backtrack_spec T d u :
  trace_ok T → length T = S d → T !! d = Some u → (Z.of_nat d ≤ max)%Z → (1 ≤ max)%Z →
  on_round d (n - m) → level u d (n - m) n →
  ∃ ops, backtrack T src dst = Ret ops ∧ edits src dst ops ∧ cost ops = d.
Proof.
  intros HT Hlen Hu Hd Hmax Hk Hlev. unfold backtrack. rewrite Hlen.
  destruct (back_loop_spec T d u (length src) (length dst) []) as (s & Hs & Hed & Hc); try done.
  rewrite !firstn_all in Hed. change (zlen src) with n. change (zlen dst) with m.
  unfold n, m, zlen. rewrite Hs. cbn [mbind outcome_bind app]. rewrite rev_involutive.
  rewrite check_script_ok; [|lia|by apply Hed]. cbn [mbind outcome_bind].
  rewrite Nat.eqb_refl. by exists s.
Qed.

Lemma d_loop_spec fuel d v T :
  length T = d → trace_ok (T ++ [v]) → not_yet d → (1 ≤ max)%Z →
  (Z.of_nat d ≤ max + 1)%Z → (max + 1 - Z.of_nat d < Z.of_nat fuel)%Z →
  ∃ ops, d_loop fuel src dst max (Z.of_nat d) v T = Ret ops ∧ edits src dst ops ∧ not_yet (cost ops).
Proof.
  revert d v T. induction fuel as [|fuel IH]; intros d v T Hlen HT Hnot Hmax Hd Hf; [lia|].
  cbn [d_loop]. destruct (Z.leb_spec (Z.of_nat d) max) as [Hle|Hgt].
  2: { exfalso. apply (Hnot (length src + length dst)); [unfold max, n, m, zlen in *; lia|].
    assert (∀ i j, reach (i + j) i j) as Hall.
    { intros i j. induction i as [|i IHi]; cbn; [|by apply reach_delete].
      induction j as [|j IHj]; [apply reach_start|by apply reach_insert]. }
    apply Hall. }
  assert ((T ++ [v]) !! d = Some v) as Hv by (by rewrite <- Hlen, list_lookup_middle).
  destruct (HT _ _ Hv) as (Hwf & Hp & _).
  destruct (k_loop_spec (S (S (Z.to_nat (Z.of_nat d)))) v v d (- Z.of_nat d)) as (found & v' & -> & Hres);
    [done|done|done| |lia| |lia|].
  { split_and!; [done|done|]. intros k' [Hk' _]. lia. }
  { unfold same_parity. Z.to_euclidean_division_equations; lia. }
  cbn [mbind outcome_bind]. destruct found.
  - destruct Hres as (k & X & Hk & Hlev & Hfin).
    destruct (finished_at_end d k X) as (-> & -> & _); [done|by eapply level_furthest|done|].
    destruct (backtrack_spec (T ++ [v]) d v) as (ops & -> & He & Hc); try done.
    { rewrite length_app. cbn. lia. }
    exists ops. by rewrite Hc.
  - destruct Hres as [Hwf' Hres].
    replace (Z.of_nat d + 1)%Z with (Z.of_nat (S d)) by lia.
    apply IH; [rewrite length_app; cbn; lia| |  |done|lia|lia].
    + intros i u Hu. apply lookup_app_Some in Hu as [Hu|[Hge Hu]].
      * destruct (HT _ _ Hu) as (H1 & H2 & H3). split_and!; [done|done|].
        intros u' Hu'. apply lookup_app_Some in Hu' as [Hu'|[Hge Hu']]; [by apply H3|].
        rewrite length_app, Hlen in Hge. cbn in Hge.
        assert (i = d) as -> by (apply lookup_lt_Some in Hu; rewrite length_app in Hu; cbn in Hu; lia).
        rewrite Hv in Hu. injection Hu as <-.
        rewrite length_app, Hlen in Hu'. cbn in Hu'.
        replace (S d - (d + 1)) with 0 in Hu' by lia. injection Hu' as <-.
        intros k Hk. by apply Hres.
      * rewrite length_app, Hlen in Hge, Hu. cbn in Hge, Hu.
        destruct (i - (d + 1)) as [|?] eqn:Hi; [|done]. injection Hu as <-.
        assert (i = S d) as -> by lia. split_and!; [done| |].
        { intros k Hk. eapply level_furthest; [done|done|by apply Hres]. }
        intros u' Hu'. apply lookup_lt_Some in Hu'. rewrite !length_app in Hu'. cbn in Hu'. lia.
    + intros d' Hd'. destruct (decide (d' = d)) as [->|]; [|apply Hnot; lia].
      by eapply round_not_reached.
Qed.

(** A script costs at least the length of a shortest path. *)
Lemma not_yet_cost d ops : not_yet d → edits src dst ops → d ≤ cost ops.
Proof.
  intros Hnot [Hs Hd]. destruct (decide (cost ops < d)) as [Hlt|]; [exfalso|lia].
  apply (Hnot (cost ops) Hlt). change (cost ops) with (0 + cost ops).
  apply (script_reach ops 0 0 0); [apply reach_start|lia|lia|done|done].
Qed.

Lemma myers_ret :
  ∃ ops, myers src dst = Ret ops ∧ edits src dst ops ∧
    ∀ ops', edits src dst ops' → cost ops ≤ cost ops'.
Proof.
  unfold myers. destruct src as [|a src'] eqn:Es.
  { cbn [length Nat.eqb andb]. destruct dst as [|b dst'] eqn:Ed.
    { exists []. split_and!; [done|done|]. intros ops' _. cbn. lia. }
    cbn [length Nat.eqb andb]. eexists. split; [done|].
    destruct (inserts_edits (b :: dst')) as (H1 & H2 & H3). split; [done|].
    intros ops' [Hs Hd]. rewrite H3. pose proof (cost_lengths ops') as Hc. rewrite Hs, Hd in Hc. cbn in *. lia. }
  destruct dst as [|b dst'] eqn:Ed.
  { cbn [length Nat.eqb andb]. eexists. split; [done|].
    destruct (deletes_edits (a :: src')) as (H1 & H2 & H3). split; [done|].
    intros ops' [Hs Hd]. rewrite H3. pose proof (cost_lengths ops') as Hc. rewrite Hs, Hd in Hc. cbn in *. lia. }
  rewrite <- Es, <- Ed.
  assert (1 ≤ max)%Z as Hmax.
  { unfold max, n, m, zlen. rewrite Es. cbn [length]. lia. }
  destruct (Nat.eqb_spec (length src) 0) as [Hz|_]; [by rewrite Es in Hz|].
  destruct (Nat.eqb_spec (length dst) 0) as [Hz|_]; [by rewrite Ed in Hz|]. cbn [andb].
  change (zlen src + zlen dst)%Z with max.
  set (v0 := replicate (Z.to_nat (2 * max + 1)) 0%Z).
  assert (wfv v0) as Hwf0.
  { unfold wfv, zlen. subst v0. rewrite length_replicate. lia. }
  destruct (aset_V v0 1 0) as (v & -> & Hwf & HV & _); [done|lia|]. cbn [mbind outcome_bind].
  destruct (d_loop_spec (length src + length dst + 2) 0 v []) as (ops & Heq & He & Hn);
    [done| |intros d'; lia|done|lia|unfold max, n, m, zlen; lia|].
  { intros i u Hu. destruct i as [|i]; [|done]. cbn in Hu. injection Hu as <-. done. }
  change (Z.of_nat 0) with 0%Z in Heq. rewrite Heq.
  exists ops. split_and!; [done..|]. intros ops' He'. by apply not_yet_cost.
Qed.
End graph.

(** ** Ranges of changes *)

(** Ranges in order from [lo] on, each at least [g] ops after the one before. *)
Fixpoint spaced (g lo : nat) (rs : list changeRange) : Prop :=
  match rs with
  | [] => True
  | r :: rs => lo ≤ c_start r ∧ c_start r < c_end r ∧ spaced g (c_end r + g) rs
  end.

Definition ends_by (hi : nat) (rs : list changeRange) : Prop := Forall (λ r, c_end r ≤ hi) rs.

Definition in_range (i : nat) (r : changeRange) : Prop := c_start r ≤ i < c_end r.

(** Every op before [hi] that is no equal line lies in one of the ranges. *)
Definition covers (ops : list editOp) (hi : nat) (rs : list changeRange) : Prop :=
  ∀ i op, i < hi → ops !! i = Some op → is_equal op = false → Exists (in_range i) rs.

Lemma spaced_weaken g lo lo' rs : lo' ≤ lo → spaced g lo rs → spaced g lo' rs.
Proof. destruct rs as [|r rs]; [done|]. cbn. intros ? (?&?&?). split_and!; (done || lia). Qed.

Lemma spaced_snoc lo rs r :
  spaced 0 lo (rs ++ [r]) ↔
    spaced 0 lo rs ∧ ends_by (c_start r) rs ∧ lo ≤ c_start r ∧ c_start r < c_end r.
Proof.
  unfold ends_by. revert lo. induction rs as [|q rs IH]; intros lo; cbn [app spaced].
  { split; [intros (?&?&_)|intros (_&_&?&?)]; split_and?; (done || by constructor). }
  rewrite IH, Forall_cons. split.
  - intros (?&?&?&?&?&?). split_and!; (done || lia).
  - intros ((?&?&?)&(?&?)&?&?). split_and!; (done || lia).
Qed.

Lemma ends_by_weaken h h' rs : h ≤ h' → ends_by h rs → ends_by h' rs.
Proof. intros Hh Hr. eapply Forall_impl; [exact Hr|cbn; lia]. Qed.

Lemma changes_loop_spec ops rest i changes :
  ops = take i ops ++ rest → i ≤ length ops →
  spaced 0 0 changes → ends_by i changes → covers ops i changes →
  let rs := changes_loop rest i changes in
  spaced 0 0 rs ∧ ends_by (length ops) rs ∧ covers ops (length ops) rs.
Proof.
  revert i changes. induction rest as [|op rest IH]; intros i changes Hops Hi Hs He Hc.
  { rewrite app_nil_r in Hops. apply (f_equal length) in Hops. rewrite length_take in Hops.
    cbn. assert (i = length ops) as -> by lia. by split_and!. }
  assert (ops !! i = Some op) as Hop.
  { rewrite Hops, lookup_app_r by (rewrite length_take; lia).
    rewrite length_take. by replace (i - _) with 0 by lia. }
  pose proof (lookup_lt_Some _ _ _ Hop).
  cbn [changes_loop]. cbn zeta. apply IH.
  - rewrite (take_S_r _ _ _ Hop), <- app_assoc. done.
  - lia.
  - destruct (is_equal op); cbn [negb]; [done|].
    destruct (last changes) as [c|] eqn:Hl; [|cbn; split_and!; (done || lia)].
    apply last_Some in Hl as [l' ->]. apply spaced_snoc in Hs as (H1 & H2 & H3 & H4).
    apply Forall_app in He as [He1 He2]. apply Forall_cons_1 in He2 as [He2 _]. cbn in He2.
    destruct (Nat.ltb_spec (c_end c) i).
    + rewrite spaced_snoc, spaced_snoc. split_and!; try done; [|cbn; lia|cbn; lia].
      apply Forall_app. split; [|by apply Forall_singleton; cbn; lia].
      by eapply (ends_by_weaken i).
    + rewrite length_app. cbn [length]. rewrite Nat.add_sub, take_app_length.
      rewrite spaced_snoc. cbn. split_and!; (done || lia).
  - destruct (is_equal op); cbn [negb]; [eapply (ends_by_weaken i); [lia|done]|].
    destruct (last changes) as [c|] eqn:Hl; [|by apply Forall_singleton; cbn].
    apply last_Some in Hl as [l' ->]. apply Forall_app in He as [He1 He2].
    destruct (Nat.ltb_spec (c_end c) i); apply Forall_app; split;
      try (by apply Forall_singleton; cbn).
    + apply Forall_app. split; (eapply (ends_by_weaken i); [lia|done]).
    + rewrite length_app. cbn [length]. rewrite Nat.add_sub, take_app_length.
      eapply (ends_by_weaken i); [lia|done].
  - intros j o Hj Ho Hne. destruct (decide (j = i)) as [->|Hji].
    + rewrite Hop in Ho. injection Ho as <-. rewrite Hne. cbn [negb].
      destruct (last changes) as [c|] eqn:Hl; [|by constructor; unfold in_range; cbn].
      apply last_Some in Hl as [l' ->]. apply Forall_app in He as [He1 He2].
      apply Forall_cons_1 in He2 as [He2 _]. cbn in He2. apply spaced_snoc in Hs as (_ & _ & _ & ?).
      destruct (Nat.ltb_spec (c_end c) i); apply Exists_app; right; constructor;
        unfold in_range; cbn; lia.
    + specialize (Hc j o ltac:(lia) Ho Hne).
      destruct (is_equal op); cbn [negb]; [done|].
      destruct (last changes) as [c|] eqn:Hl.
      2: { apply last_None in Hl as ->. by apply Exists_nil in Hc. }
      apply last_Some in Hl as [l' ->]. apply Exists_app in Hc as [Hc|Hc].
      * destruct (_ <? _); apply Exists_app; left; [apply Exists_app; by left|].
        rewrite length_app. cbn [length]. by rewrite Nat.add_sub, take_app_length.
      * destruct (_ <? _); apply Exists_app; [left; apply Exists_app; by right|right].
        apply Exists_cons in Hc as [Hc|Hc]; [|by apply Exists_nil in Hc].
        constructor. unfold in_range in *. cbn. lia.
Qed.

Lemma findChanges_spec ops :
  let rs := findChanges ops in
  spaced 0 0 rs ∧ ends_by (length ops) rs ∧ covers ops (length ops) rs.
Proof.
  apply (changes_loop_spec ops ops 0 []); try done; [lia|by constructor|intros i op; lia].
Qed.

(** Context sizes for which the code's sums do not wrap. *)
Definition small (z : Z) : Prop := (0 ≤ z < 2 ^ 61)%Z.

Lemma merge_changes_spec ctx cs prev lo hi :
  small ctx → lo ≤ c_start prev → c_start prev < c_end prev → spaced 0 (c_end prev) cs →
  ends_by hi (prev :: cs) →
  let rs := merge_changes cs ctx prev in
  spaced (2 * Z.to_nat ctx + 1) lo rs ∧ ends_by hi rs ∧
  ∀ i, Exists (in_range i) (prev :: cs) → Exists (in_range i) rs.
Proof.
  intros Hctx. revert lo prev. induction cs as [|c cs IH]; intros lo prev Hlo Hlt Hs He;
    cbn [merge_changes].
  { cbn. split_and!; done. }
  destruct Hs as (H1 & H2 & H3). rewrite Nat.add_0_r in H3.
  apply Forall_cons in He as [He1 He2]. pose proof He2 as He2'. apply Forall_cons in He2' as [He2' He3].
  rewrite i64_id by (unfold small, min_int64, max_int64 in *; lia). unfold small in *.
  destruct (Z.leb_spec (Z.of_nat (c_start c) - Z.of_nat (c_end prev)) (2 * ctx)).
  - destruct (IH lo (MkRange (c_start prev) (c_end c))) as (G1 & G2 & G3); cbn; try done; try lia.
    { apply Forall_cons. by split. }
    split_and!; [done|done|]. intros i Hi. apply G3.
    apply Exists_cons in Hi as [Hi|Hi]; [apply Exists_cons_hd; unfold in_range in *; cbn; lia|].
    apply Exists_cons in Hi as [Hi|Hi]; [apply Exists_cons_hd; unfold in_range in *; cbn; lia|].
    by apply Exists_cons_tl.
  - destruct (IH (c_end prev + (2 * Z.to_nat ctx + 1)) c) as (G1 & G2 & G3); [lia|done|done|done|].
    cbn [spaced]. split_and!; [done|done|done|by apply Forall_cons|].
    intros i Hi. apply Exists_cons in Hi as [Hi|Hi]; [by apply Exists_cons_hd|].
    apply Exists_cons_tl, G3, Hi.
Qed.

Lemma merged_spec ops ctx :
  small ctx →
  let rs := mergeAdjacentChanges (findChanges ops) ctx in
  spaced (2 * Z.to_nat ctx + 1) 0 rs ∧ ends_by (length ops) rs ∧ covers ops (length ops) rs.
Proof.
  intros Hctx. destruct (findChanges_spec ops) as (Hs & He & Hc).
  unfold mergeAdjacentChanges. destruct (findChanges ops) as [|c cs]; [by split_and!|].
  destruct Hs as (H1 & H2 & H3). rewrite Nat.add_0_r in H3.
  destruct (merge_changes_spec ctx cs c 0 (length ops)) as (G1 & G2 & G3); try done.
  split_and!; [done|done|]. intros i op Hi Hop Hne. by eapply G3, Hc.
Qed.

(** ** Hunks are a patch *)

(** What applying the hunks to the source gives, from source line [pos] on; a
    hunk replaces [srcCount] lines from line [srcStart] on, counted from 1. *)
Fixpoint patch (src : list bytes) (pos : nat) (hs : list hunk) : list bytes :=
  match hs with
  | [] => drop pos src
  | h :: hs =>
    take (srcStart h - 1 - pos) (drop pos src) ++ dst_of (h_ops h)
      ++ patch src (srcStart h - 1 + srcCount h) hs
  end.

(** The header of a hunk is true: its lines are the named lines of both texts. *)
Definition hunk_ok (src dst : list bytes) (h : hunk) : Prop :=
  src_of (h_ops h) = take (srcCount h) (drop (srcStart h - 1) src) ∧
  dst_of (h_ops h) = take (dstCount h) (drop (dstStart h - 1) dst) ∧
  length (src_of (h_ops h)) = srcCount h ∧ length (dst_of (h_ops h)) = dstCount h.

Lemma count_src_of ops : count_src ops = length (src_of ops).
Proof.
  induction ops as [|[k l] ops IH]; [done|]. rewrite src_of_cons.
  unfold count_src in *. cbn. rewrite IH. by destruct k.
Qed.
Lemma count_dst_of ops : count_dst ops = length (dst_of ops).
Proof.
  induction ops as [|[k l] ops IH]; [done|]. rewrite dst_of_cons.
  unfold count_dst in *. cbn. rewrite IH. by destruct k.
Qed.

Lemma positions_lookup ops i si di :
  i < length ops →
  positions ops si di !! i =
    Some (si + length (src_of (take i ops)), di + length (dst_of (take i ops))).
Proof.
  revert i si di. induction ops as [|[k l] ops IH]; intros i si di Hi; [cbn in Hi; lia|].
  destruct i as [|i]; cbn [positions take firstn lookup list_lookup].
  { by rewrite !Nat.add_0_r. }
  change (list_lookup i ?l) with (l !! i). cbn in Hi.
  rewrite IH, src_of_cons, dst_of_cons by lia. destruct k; cbn; do 2 f_equal; lia.
Qed.

Lemma equal_sides ops : Forall (λ op, is_equal op = true) ops → src_of ops = dst_of ops.
Proof.
  induction 1 as [|[k l] ops Hk _ IH]; [done|]. rewrite src_of_cons, dst_of_cons, IH.
  by destruct k.
Qed.

Section hunks.
Context (ops : list editOp) (ctx : Z).
Context (Hctx : small ctx) (Hlen : small (zlen ops)).

(** The source and destination line at which op [p] stands. *)
Definition sp (p : nat) : nat := length (src_of (take p ops)).
Definition dp (p : nat) : nat := length (dst_of (take p ops)).

Lemma sides_drop p : src_of (drop p ops) = drop (sp p) (src_of ops) ∧
  dst_of (drop p ops) = drop (dp p) (dst_of ops).
Proof.
  unfold sp, dp. rewrite <- (take_drop p ops) at 3 6.
  rewrite src_of_app, dst_of_app, !drop_app_length. done.
Qed.

Lemma sides_between p q : p ≤ q →
  src_of (take (q - p) (drop p ops)) = take (sp q - sp p) (drop (sp p) (src_of ops)) ∧
  dst_of (take (q - p) (drop p ops)) = take (dp q - dp p) (drop (dp p) (dst_of ops)) ∧
  sp q = sp p + length (src_of (take (q - p) (drop p ops))) ∧
  dp q = dp p + length (dst_of (take (q - p) (drop p ops))).
Proof.
  intros Hpq. destruct (sides_drop p) as [<- <-].
  assert (take q ops = take p ops ++ take (q - p) (drop p ops)) as Hq.
  { rewrite take_take_drop. f_equal. lia. }
  unfold sp, dp. rewrite Hq, src_of_app, dst_of_app, !length_app.
  replace (length (src_of (take p ops)) + _ - _)
    with (length (src_of (take (q - p) (drop p ops)))) by lia.
  replace (length (dst_of (take p ops)) + _ - _)
    with (length (dst_of (take (q - p) (drop p ops)))) by lia.
  pose proof (take_drop (q - p) (drop p ops)) as Hr.
  set (mid := take (q - p) (drop p ops)) in *. rewrite <- Hr.
  rewrite src_of_app, dst_of_app, !take_app_length. done.
Qed.

(** The op interval of a hunk. *)
Definition h_start (r : changeRange) : nat := c_start r - Z.to_nat ctx.
Definition h_end (r : changeRange) : nat := Nat.min (length ops) (c_end r + Z.to_nat ctx).

Lemma build_hunk_ret r :
  c_start r < c_end r → c_end r ≤ length ops →
  build_hunk ops (positions ops 0 0) ctx r =
    let hops := take (h_end r - h_start r) (drop (h_start r) ops) in
    Ret (MkHunk (sp (h_start r) + 1) (count_src hops) (dp (h_start r) + 1) (count_dst hops) hops).
Proof.
  intros Hlt Hle. unfold build_hunk. unfold small, zlen in *.
  rewrite i64_id by (unfold min_int64, max_int64; lia).
  assert (Z.max 0 (Z.of_nat (c_start r) - ctx) = Z.of_nat (h_start r))%Z as ->.
  { unfold h_start. lia. }
  rewrite (aget_nat _ _ _ (positions_lookup ops (h_start r) 0 0 ltac:(unfold h_start; lia))).
  cbn [mbind outcome_bind Nat.add].
  set (e := if (Z.of_nat (length ops) <? Z.of_nat (c_end r) + ctx)%Z
            then Z.of_nat (length ops) else (Z.of_nat (c_end r) + ctx)%Z).
  assert (e = Z.of_nat (h_end r)) as ->.
  { subst e. unfold h_end. destruct (Z.ltb_spec (Z.of_nat (length ops)) (Z.of_nat (c_end r) + ctx)); lia. }
  destruct (Z.ltb_spec (Z.of_nat (h_end r)) (Z.of_nat (h_start r))); [unfold h_start, h_end in *; lia|].
  rewrite !Nat2Z.id, subslice_ret by (unfold h_start, h_end in *; lia). done.
Qed.

Lemma gap_equal p q rs :
  p ≤ q → (∀ i op, p ≤ i → ops !! i = Some op → is_equal op = false → Exists (in_range i) rs) →
  spaced 0 q rs → Forall (λ op, is_equal op = true) (take (q - p) (drop p ops)).
Proof.
  intros Hpq Hc Hs. apply Forall_lookup. intros i op Hi.
  apply lookup_take_Some in Hi as [Hi Hlt]. rewrite lookup_drop in Hi.
  destruct (is_equal op) eqn:E; [done|exfalso].
  specialize (Hc (p + i) op ltac:(lia) Hi E).
  assert (∀ lo, spaced 0 lo rs → ∀ j, Exists (in_range j) rs → lo ≤ j) as Hlow.
  { clear. induction rs as [|r rs IH]; intros lo Hs j Hj; [by apply Exists_nil in Hj|].
    destruct Hs as (?&?&Hs). apply Exists_cons in Hj as [Hj|Hj]; [unfold in_range in Hj; lia|].
    specialize (IH _ Hs j Hj). lia. }
  specialize (Hlow q Hs _ Hc). lia.
Qed.

Lemma spaced_zero g lo rs : spaced g lo rs → spaced 0 lo rs.
Proof.
  revert lo. induction rs as [|r rs IH]; intros lo; [done|]. cbn.
  intros (?&?&Hs). split_and!; [done|done|]. apply IH. eapply spaced_weaken; [|exact Hs]. lia.
Qed.

Lemma build_all_patch rs p :
  p ≤ length ops → spaced (2 * Z.to_nat ctx + 1) 0 rs → ends_by (length ops) rs →
  (∀ i op, p ≤ i → ops !! i = Some op → is_equal op = false → Exists (in_range i) rs) →
  match rs with [] => True | r :: _ => p ≤ h_start r end →
  ∃ hs, build_all ops (positions ops 0 0) ctx rs = Ret hs ∧
    patch (src_of ops) (sp p) hs = dst_of (drop p ops) ∧
    Forall (hunk_ok (src_of ops) (dst_of ops)) hs.
Proof.
  revert p. induction rs as [|r rs IH]; intros p Hp Hs He Hc Hfirst; cbn [build_all].
  { exists []. split_and!; [done| |by constructor]. cbn [patch].
    destruct (sides_drop p) as [<- _]. apply equal_sides.
    pose proof (gap_equal p (length ops) [] Hp Hc I) as Hall.
    by rewrite take_ge in Hall by (rewrite length_drop; lia). }
  destruct Hs as (_ & Hlt & Hs). apply Forall_cons in He as [Her He].
  rewrite build_hunk_ret by done. cbn [mbind outcome_bind]. cbn zeta.
  assert (h_start r ≤ h_end r ∧ h_end r ≤ length ops ∧ h_start r ≤ c_start r ∧ c_end r ≤ h_end r)
    as (Hh1 & Hh2 & Hh3 & Hh4) by (unfold h_start, h_end; lia).
  destruct (IH (h_end r)) as (hs & -> & Hpatch & Hok); [done| |done| | |].
  { eapply spaced_weaken; [|exact Hs]. lia. }
  { intros i op Hi Hop Hne. specialize (Hc i op ltac:(lia) Hop Hne).
    apply Exists_cons in Hc as [Hc|Hc]; [|done]. unfold in_range in Hc. lia. }
  { destruct rs as [|r' rs']; [done|]. destruct Hs as (Hgap & _). unfold h_end, h_start. lia. }
  cbn [mbind outcome_bind]. eexists. split; [done|].
  set (hops := take (h_end r - h_start r) (drop (h_start r) ops)).
  destruct (sides_between (h_start r) (h_end r) Hh1) as (Hm1 & Hm2 & Hm3 & Hm4).
  fold hops in Hm1, Hm2, Hm3, Hm4.
  destruct (sides_between p (h_start r) Hfirst) as (Hg1 & _ & _ & _).
  split.
  - cbn [patch srcStart srcCount h_ops]. rewrite count_src_of, Nat.add_sub, <- Hm3, Hpatch, <- Hg1.
    rewrite (equal_sides (take (h_start r - p) (drop p ops))).
    2: { eapply (gap_equal p (h_start r) (r :: rs)); [done|done|].
      eapply (spaced_weaken 0 (c_start r)); [done|]. cbn. split_and!; [done|done|].
      eapply spaced_zero, spaced_weaken; [|exact Hs]. lia. }
    rewrite <- !dst_of_app. f_equal. subst hops.
    rewrite <- (take_drop (h_start r - p) (drop p ops)) at 2. f_equal.
    rewrite drop_drop. replace (p + (h_start r - p)) with (h_start r) by lia.
    rewrite <- (take_drop (h_end r - h_start r) (drop (h_start r) ops)) at 2. f_equal.
    rewrite drop_drop. f_equal. lia.
  - constructor; [|done]. unfold hunk_ok. cbn [h_ops srcStart srcCount dstStart dstCount].
    rewrite count_src_of, count_dst_of, !Nat.add_sub, Hm1, Hm2.
    split_and!; [|  |done|done]; f_equal; rewrite <- ?Hm1, <- ?Hm2; lia.
Qed.

Lemma buildHunks_ret :
  ∃ hs, buildHunks ops ctx = Ret hs ∧ patch (src_of ops) 0 hs = dst_of ops ∧
    Forall (hunk_ok (src_of ops) (dst_of ops)) hs.
Proof.
  destruct (merged_spec ops ctx Hctx) as (Hs & He & Hc).
  destruct (build_all_patch (mergeAdjacentChanges (findChanges ops) ctx) 0) as (hs & H & Hp & Hok);
    [lia|done|done| |by destruct (mergeAdjacentChanges _ _); [|lia]|].
  { intros i op _ Hop Hne. eapply Hc; [by apply lookup_lt_Some in Hop|done|done]. }
  exists hs. split_and!; done.
Qed.
End hunks.

(** ** Counting *)

Lemma cost_kinds ops : cost ops = count_kind opInsert ops + count_kind opDelete ops.
Proof.
  unfold cost, count_kind. induction ops as [|[k l] ops IH]; [done|].
  rewrite !filter_cons. cbn [kind].
  destruct k; repeat case_decide; simplify_eq/=; lia.
Qed.

Lemma kinds_lengths ops :
  count_kind opInsert ops + length (src_of ops) = count_kind opDelete ops + length (dst_of ops).
Proof.
  unfold count_kind. induction ops as [|[k l] ops IH]; [done|].
  rewrite src_of_cons, dst_of_cons, !filter_cons. cbn [kind].
  destruct k; repeat case_decide; simplify_eq/=; lia.
Qed.

Lemma script_length ops : length ops ≤ length (src_of ops) + length (dst_of ops).
Proof.
  induction ops as [|[k l] ops IH]; [done|]. rewrite src_of_cons, dst_of_cons.
  destruct k; cbn; lia.
Qed.

Lemma cost_zero ops : forallb is_equal ops = true ↔ cost ops = 0.
Proof.
  unfold cost. induction ops as [|[k l] ops IH]; [done|]. rewrite filter_cons. cbn [forallb].
  rewrite andb_true_iff, IH. cbn [kind].
  destruct k; case_decide; simplify_eq/=; try tauto; (split; [by intros []|done]).
Qed.

(** ** Properties *)

(** C37. Myers' algorithm as written always finds a path, never indexes out of
    range, and its edit script is minimal: it turns the source into the
    destination, and no script that does has fewer insertions and deletions. *)
Theorem myers_minimal src dst :
  ∃ ops, myers src dst = Ret ops ∧ edits src dst ops ∧
    ∀ ops', edits src dst ops' → cost ops ≤ cost ops'.
Proof. apply myers_ret. Qed.

(** Hunks are a correct patch: for every edit script and context size the hunks
    are built, each hunk's header names the source and destination lines it
    shows, and applying the hunks to the source gives the destination. *)
Theorem buildHunks_patch ops ctx :
  small ctx → small (zlen ops) →
  ∃ hs, buildHunks ops ctx = Ret hs ∧ patch (src_of ops) 0 hs = dst_of ops ∧
    Forall (hunk_ok (src_of ops) (dst_of ops)) hs.
Proof. apply buildHunks_ret. Qed.

(** [Unified] returns on all text it can index, and returns the empty string
    exactly when neither input is binary and both have the same lines. *)
Theorem Unified_empty_iff a b opts :
  small (ContextLines opts) →
  small (zlen (splitLines a).1 + zlen (splitLines b).1) →
  ∃ text, Unified a b opts = Ret text ∧
    (text = [] ↔ isBinary a = false ∧ isBinary b = false ∧ (splitLines a).1 = (splitLines b).1).
Proof.
  intros Hctx Hlen. unfold Unified.
  destruct (Z.ltb_spec (ContextLines opts) 0) as [Hneg|_]; [unfold small in Hctx; lia|].
  destruct (isBinary a || isBinary b) eqn:Hbin.
  { eexists. split; [done|]. split; [done|]. intros (Ha & Hb & _).
    by rewrite Ha, Hb in Hbin. }
  apply orb_false_iff in Hbin as [Ha Hb]. rewrite Ha, Hb.
  destruct (splitLines a) as [src sn], (splitLines b) as [dst dn]. cbn [fst] in *.
  destruct (myers_ret src dst) as (ops & -> & [Hs Hd] & Hmin). cbn [mbind outcome_bind].
  destruct (forallb is_equal ops) eqn:Heq.
  { eexists. split; [done|]. split; [|done]. intros _. split_and!; [done..|].
    rewrite <- Hs, <- Hd. apply equal_sides. apply Forall_lookup. intros i op Hop.
    rewrite forallb_forall in Heq. apply Heq. apply list_elem_of_In. by eapply list_elem_of_lookup_2. }
  destruct (buildHunks_ret ops (ContextLines opts) Hctx) as (hs & -> & Hp & _).
  { pose proof (script_length ops) as Hl. rewrite Hs, Hd in Hl. unfold small, zlen in *. lia. }
  cbn [mbind outcome_bind]. eexists. split; [done|].
  assert (src ≠ dst) as Hne.
  { intros ->. destruct (equals_edits dst) as (H1 & H2 & H3).
    specialize (Hmin _ (conj H1 H2)). rewrite H3 in Hmin.
    assert (cost ops = 0) as Hz%cost_zero by lia. congruence. }
  destruct hs as [|h hs].
  { exfalso. cbn in Hp. rewrite drop_0 in Hp. congruence. }
  split; [|by intros (_ & _ & ?)]. unfold formatUnified, header. by cbn.
Qed.

(** The statistics are exact: for text, insertions and deletions add up to the
    cost of a minimal edit script, and their difference is the difference of the
    line counts; binary input is only flagged. *)
Theorem Stat_minimal a b :
  ∃ st, Stat a b = Ret st ∧ Binary st = isBinary a || isBinary b ∧
    (Binary st = false →
      Insertions st + length (splitLines a).1 = Deletions st + length (splitLines b).1 ∧
      ∀ ops, edits (splitLines a).1 (splitLines b).1 ops → Insertions st + Deletions st ≤ cost ops).
Proof.
  unfold Stat. destruct (isBinary a || isBinary b) eqn:Hbin; [by eexists|].
  destruct (myers_ret (splitLines a).1 (splitLines b).1) as (ops & -> & [Hs Hd] & Hmin).
  cbn [mbind outcome_bind]. eexists. split_and!; [done..|]. intros _. cbn [Insertions Deletions].
  split; [by rewrite <- Hs, <- Hd, kinds_lengths|]. by rewrite <- cost_kinds.
Qed.

(** ** Witnesses *)

Definition text_lines (ls : list bytes) : bytes := concat (map (λ l, l ++ [NL]) ls).

Definition sample_ops : list editOp :=
  [MkOp opEqual (str "a"); MkOp opDelete (str "b"); MkOp opInsert (str "x"); MkOp opEqual (str "c")].

Lemma buildHunks_patch_witness :
  ∃ hs, buildHunks sample_ops 3 = Ret hs ∧ patch [str "a"; str "b"; str "c"] 0 hs
    = [str "a"; str "x"; str "c"].
Proof.
  destruct (buildHunks_patch sample_ops 3) as (hs & H1 & H2 & _);
    [unfold small; by_decide..|].
  by exists hs.
Defined.

Lemma Unified_empty_iff_witness :
  ∃ text, Unified (text_lines [str "a"; str "b"]) (text_lines [str "a"; str "c"]) (MkOptions 3 [] [])
    = Ret text ∧ text ≠ [].
Proof.
  destruct (Unified_empty_iff (text_lines [str "a"; str "b"]) (text_lines [str "a"; str "c"])
    (MkOptions 3 [] [])) as (text & H1 & H2); [unfold small; by_decide..|].
  exists text. split; [done|]. intros H3. apply H2 in H3 as (_ & _ & H3). by vm_compute in H3.
Defined.

(** ** Findings *)

(** The unified format shows the context as the program prints it. *)
Example Unified_sample :
  Unified (text_lines [str "a"; str "b"]) (str "a") (MkOptions 3 (str "old") (str "new"))
  = Ret (concat (map (λ l, l ++ [NL])
      [str "--- old"; str "+++ new"; str "@@ -1,2 +1,1 @@"; str " a";
       str "\ No newline at end of file"; str "-b"])).
Proof. vm_compute. reflexivity. Qed.

(** Texts that differ only in the newline at their end are not told apart. *)
Example missing_newline_invisible :
  Unified (text_lines [str "a"]) (str "a") (MkOptions 3 [] []) = Ret [].
Proof. vm_compute. reflexivity. Qed.

(** A context size near the largest integer wraps around and panics. *)
Example huge_context_panics :
  Unified (text_lines [str "a"]) (text_lines [str "b"]) (MkOptions max_int64 [] []) = Panic.
Proof. vm_compute. reflexivity. Qed.
