(* ===== verification/Dag.v ===== *)
(** * Walks over the check-in graph (src/internal/path, src/internal/merge)

    The [plink] table as the list of its rows, in the order a query returns
    them; shortest paths (path.go), common ancestors and forks
    (ancestor.go, detect.go). *)
From S2P Require Import Prelude.
From stdpp Require Import list gmap sets sorting.

(** ** The table *)

Record plinkRow := MkPlink { pl_pid : Z; pl_cid : Z; pl_isprim : bool }.

Inductive dag_error := ErrNoPath | ENoAncestor.

Abbreviation out := (outcome dag_error).

(** ** Shortest paths *)

#[warnings="-register-all"]
Inductive PathNode := MkNode (RID : Z) (From : option PathNode) (Depth : nat).

Definition RID (n : PathNode) : Z := let 'MkNode r _ _ := n in r.
Definition From_ (n : PathNode) : option PathNode := let 'MkNode _ f _ := n in f.
Definition Depth (n : PathNode) : nat := let 'MkNode _ _ d := n in d.

(** The rows that [directOnly] lets a query see. *)
Definition row_visible (directOnly : bool) (r : plinkRow) : bool := negb directOnly || pl_isprim r.

(** The result of the forward query, then that of the reverse one. *)
Definition neighbors (plink : list plinkRow) (directOnly : bool) (rid : Z) : list Z :=
  map pl_cid (filter (λ r, pl_pid r = rid ∧ row_visible directOnly r = true) plink) ++
  map pl_pid (filter (λ r, pl_cid r = rid ∧ row_visible directOnly r = true) plink).

(** The chain of [From] pointers, the end first. *)
Fixpoint from_chain (n : PathNode) : list PathNode :=
  match n with
  | MkNode _ None _ => [n]
  | MkNode _ (Some n') _ => n :: from_chain n'
  end.

Definition reconstruct (e : PathNode) : list PathNode :=
  rev (imap (λ i n, MkNode (RID n) None i) (from_chain e)).

(** The loop over the neighbors of [cur]: the node of [to], or the marks and the
    queue it leaves. *)
Fixpoint visit (ns : list Z) (cur : PathNode) (to : Z) (visited : gset Z) (queue : list PathNode) :
    PathNode + (gset Z * list PathNode) :=
  match ns with
  | [] => inr (visited, queue)
  | nid :: ns =>
    if bool_decide (nid ∈ visited) then visit ns cur to visited queue else
    let node := MkNode nid (Some cur) (Depth cur + 1) in
    if (nid =? to)%Z then inl node
    else visit ns cur to ({[ nid ]} ∪ visited) (queue ++ [node])
  end.

Fixpoint bfs (fuel : nat) (plink : list plinkRow) (directOnly : bool) (to : Z)
    (visited : gset Z) (queue : list PathNode) : out (list PathNode) :=
  match fuel with
  | O => NoFuel
  | S fuel =>
    match queue with
    | [] => Fail ErrNoPath
    | cur :: queue =>
      match visit (neighbors plink directOnly (RID cur)) cur to visited queue with
      | inl node => Ret (reconstruct node)
      | inr (visited, queue) => bfs fuel plink directOnly to visited queue
      end
    end
  end.

(** A nil [skip] is the empty set. *)
Definition Shortest (plink : list plinkRow) (from to : Z) (directOnly : bool) (skip : gset Z) :
    out (list PathNode) :=
  if (from <=? 0)%Z then Panic else
  if (to <=? 0)%Z then Panic else
  if (from =? to)%Z then Ret [MkNode from None 0] else
  bfs (2 * length plink + 2) plink directOnly to ({[ from ]} ∪ skip) [MkNode from None 0].

(** ** Common ancestors *)

Definition getParents (plink : list plinkRow) (rid : Z) : list Z :=
  map pl_pid (filter (λ r, pl_cid r = rid) plink).

(** The loop over the parents, for one of the two searches: a parent the other
    search has seen, or the new marks and queue. *)
Fixpoint climb (parents : list Z) (mine other : gset Z) (queue : list Z) : Z + (gset Z * list Z) :=
  match parents with
  | [] => inr (mine, queue)
  | pid :: parents =>
    if bool_decide (pid ∈ mine) then climb parents mine other queue else
    let mine := {[ pid ]} ∪ mine in
    if bool_decide (pid ∈ other) then inl pid
    else climb parents mine other (queue ++ [pid])
  end.

(** One turn of one search. *)
Definition ancestor_step (plink : list plinkRow) (mine other : gset Z) (queue : list Z) :
    Z + (gset Z * list Z) :=
  match queue with
  | [] => inr (mine, [])
  | current :: queue =>
    if bool_decide (current ∈ other) then inl current
    else climb (getParents plink current) mine other queue
  end.

Fixpoint ancestor_loop (fuel : nat) (plink : list plinkRow) (visitedA visitedB : gset Z)
    (queueA queueB : list Z) : out Z :=
  match fuel with
  | O => NoFuel
  | S fuel =>
    if (0 <? length queueA) || (0 <? length queueB) then
      match ancestor_step plink visitedA visitedB queueA with
      | inl rid => Ret rid
      | inr (visitedA, queueA) =>
        match ancestor_step plink visitedB visitedA queueB with
        | inl rid => Ret rid
        | inr (visitedB, queueB) => ancestor_loop fuel plink visitedA visitedB queueA queueB
        end
      end
    else Fail ENoAncestor
  end.

Definition FindCommonAncestor (plink : list plinkRow) (ridA ridB : Z) : out Z :=
  if (ridA <=? 0)%Z then Panic else
  if (ridB <=? 0)%Z then Panic else
  if (ridA =? ridB)%Z then Ret ridA else
  ancestor_loop (2 * length plink + 3) plink {[ ridA ]} {[ ridB ]} [ridA] [ridB].

(** ** Forks *)

Record Fork := MkFork { fk_Ancestor : Z; fk_LocalTip : Z; fk_RemoteTip : Z }.

(** The inner loop, over the leaves after [leaf]: an error skips the pair. *)
Fixpoint forks_with (plink : list plinkRow) (leaf : Z) (rest : list Z) : out (list Fork) :=
  match rest with
  | [] => Ret []
  | other :: rest =>
    match FindCommonAncestor plink leaf other with
    | Ret ancestor => fs ← forks_with plink leaf rest; Ret (MkFork ancestor leaf other :: fs)
    | Fail _ => forks_with plink leaf rest
    | Panic => Panic
    | NoFuel => NoFuel
    end
  end.

Fixpoint forks_loop (plink : list plinkRow) (leaves : list Z) : out (list Fork) :=
  match leaves with
  | [] => Ret []
  | leaf :: leaves => fs ← forks_with plink leaf leaves; gs ← forks_loop plink leaves; Ret (fs ++ gs)
  end.

(** [leaves] is what the query over [leaf] and [event] returns, newest first. *)
Definition DetectForks (plink : list plinkRow) (leaves : list Z) : out (list Fork) :=
  if length leaves <=? 1 then Ret [] else forks_loop plink leaves.

(** ** Specifications *)

(** A walk of [n] edges from [from] that enters no node of [skip]. *)
Inductive walk (plink : list plinkRow) (directOnly : bool) (skip : gset Z) (from : Z) : nat → Z → Prop :=
  | walk_0 : walk plink directOnly skip from 0 from
  | walk_S n x y :
      walk plink directOnly skip from n x → y ∈ neighbors plink directOnly x → y ∉ skip →
      walk plink directOnly skip from (S n) y.

(** The list of rids is a walk from [x] that enters no node of [skip]. *)
Fixpoint is_path (plink : list plinkRow) (directOnly : bool) (skip : gset Z) (x : Z) (l : list Z) : Prop :=
  match l with
  | [] => True
  | y :: l => y ∈ neighbors plink directOnly x ∧ (y ∉ skip) ∧ is_path plink directOnly skip y l
  end.

(** [l] continues a walk from [from] to [to], and no walk is shorter. *)
Definition shortest_path (plink : list plinkRow) (directOnly : bool) (skip : gset Z) (from to : Z)
    (l : list Z) : Prop :=
  is_path plink directOnly skip from l ∧ List.last l from = to ∧
  ∀ k, walk plink directOnly skip from k to → length l ≤ k.

Definition parent_of (plink : list plinkRow) (c p : Z) : Prop := p ∈ getParents plink c.

(** [a] is [x] or one of its ancestors. *)
Definition ancestor (plink : list plinkRow) (x a : Z) : Prop := rtc (parent_of plink) x a.

(** ** Breadth-first search *)

Lemma size_list_to_set_le (l : list Z) : size (list_to_set l : gset Z) ≤ length l.
Proof.
  induction l as [|x l IH]; [done|]. cbn [list_to_set length].
  pose proof (size_union_alt {[ x ]} (list_to_set l : gset Z)) as H. rewrite size_singleton in H.
  pose proof (subseteq_size ((list_to_set l : gset Z) ∖ {[ x ]}) (list_to_set l) ltac:(set_solver)). lia.
Qed.

(** Marking new rids of [ids]. *)
Lemma unmarked_step (ids visited : gset Z) xs :
  base.NoDup xs → (∀ x, x ∈ xs → x ∈ ids ∧ x ∉ visited) →
  size (ids ∖ visited) = length xs + size (ids ∖ (list_to_set xs ∪ visited)).
Proof.
  intros Hnd Hxs.
  assert (ids ∖ (list_to_set xs ∪ visited) = ids ∖ visited ∖ list_to_set xs) as ->.
  { apply leibniz_equiv. intros x. rewrite !elem_of_difference, elem_of_union. tauto. }
  assert ((list_to_set xs : gset Z) ⊆ ids ∖ visited) as Hsub.
  { intros x Hx%elem_of_list_to_set. by apply elem_of_difference, Hxs. }
  pose proof (subseteq_size _ _ Hsub) as Hle.
  rewrite (size_difference (ids ∖ visited) (list_to_set xs)) by done.
  rewrite size_list_to_set in * by done. lia.
Qed.

Section bfs.
Context (plink : list plinkRow) (directOnly : bool) (skip : gset Z) (from to : Z).
Abbreviation nb := (neighbors plink directOnly).
Abbreviation reach := (walk plink directOnly skip from).

(** All rids that occur in the table. *)
Definition rids : gset Z := list_to_set (map pl_pid plink ++ map pl_cid plink).

Lemma neighbors_rids x y : y ∈ nb x → y ∈ rids.
Proof.
  unfold neighbors, rids. intros Hin. apply elem_of_list_to_set, elem_of_app.
  apply elem_of_app in Hin as [Hin|Hin]; apply list_elem_of_fmap in Hin as (r & -> & Hr);
    apply list_elem_of_filter in Hr as [_ Hr]; [right|left]; by apply list_elem_of_fmap_2.
Qed.

Lemma size_rids : size rids ≤ 2 * length plink.
Proof.
  unfold rids. etrans; [apply size_list_to_set_le|]. rewrite length_app, !length_map. lia.
Qed.

(** A node of the queue stands for a shortest walk to its rid, which its [From]
    pointers retrace. *)
Inductive node_ok : PathNode → Prop :=
  | node_root : node_ok (MkNode from None 0)
  | node_next n x :
      node_ok n → x ∈ nb (RID n) → x ∉ skip → node_ok (MkNode x (Some n) (Depth n + 1)).

Lemma node_walk n : node_ok n → reach (Depth n) (RID n).
Proof.
  induction 1 as [|n x _ IH Hx Hs]; [constructor|]. cbn. rewrite Nat.add_1_r. by econstructor.
Qed.

Lemma reach_0 x : reach 0 x → x = from.
Proof. by inversion 1. Qed.

(** The nodes that the loop over the neighbors appends. *)
Definition new_nodes (cur : PathNode) (xs : list Z) : list PathNode :=
  map (λ x, MkNode x (Some cur) (Depth cur + 1)) xs.

Lemma visit_spec ns cur visited queue :
  match visit ns cur to visited queue with
  | inl node => node = MkNode to (Some cur) (Depth cur + 1) ∧ to ∈ ns ∧ to ∉ visited
  | inr (visited', queue') => ∃ xs,
      queue' = queue ++ new_nodes cur xs ∧ visited' = list_to_set xs ∪ visited ∧
      base.NoDup xs ∧ (∀ x, x ∈ xs → x ∈ ns ∧ (x ∉ visited) ∧ x ≠ to) ∧ (∀ x, x ∈ ns → x ∈ visited')
  end.
Proof.
  revert visited queue. induction ns as [|n ns IH]; intros visited queue; cbn.
  { exists []. cbn. rewrite app_nil_r. split_and!; [done|by rewrite (left_id_L ∅ (∪))|constructor|by intros ? ?%elem_of_nil..]. }
  case_bool_decide as Hn.
  - specialize (IH visited queue). destruct (visit _ _ _ _ _) as [node|[v' q']].
    + destruct IH as (-> & ? & ?). split_and!; [done|by right|done].
    + destruct IH as (xs & -> & -> & Hnd & Hxs & Hall). exists xs. split_and!; [done..| |].
      * intros x Hx. destruct (Hxs x Hx) as (? & ? & ?). split_and!; [by right|done..].
      * intros x [->|Hx]%elem_of_cons; [set_solver|by apply Hall].
  - destruct (Z.eqb_spec n to) as [->|Hne]; [split_and!; [done|by left|done]|].
    specialize (IH ({[n]} ∪ visited) (queue ++ [MkNode n (Some cur) (Depth cur + 1)])).
    destruct (visit _ _ _ _ _) as [node|[v' q']].
    + destruct IH as (-> & ? & ?). split_and!; [done|by right|set_solver].
    + destruct IH as (xs & -> & -> & Hnd & Hxs & Hall). exists (n :: xs). cbn. split_and!.
      * by rewrite <- app_assoc.
      * set_solver.
      * constructor; [|done]. intros Hin. destruct (Hxs n Hin) as (_ & Hv & _). set_solver.
      * intros x [->|Hx]%elem_of_cons; [split_and!; [by left|done..]|].
        destruct (Hxs x Hx) as (? & Hv & ?). split_and!; [by right|set_solver|done].
      * intros x [->|Hx]%elem_of_cons; [set_solver|by apply Hall].
Qed.

(** The search: [P] are the rids already expanded. *)
Record searching (P : gset Z) (visited : gset Z) (queue : list PathNode) : Prop := {
  se_from : from ∈ P ∨ from ∈ map RID queue;
  se_visited : ∀ x, x ∈ visited ↔ x ∈ skip ∨ x ∈ P ∨ x ∈ map RID queue;
  se_to : (to ∉ P) ∧ to ∉ map RID queue;
  se_closed : ∀ x y, x ∈ P → y ∈ nb x → y ∈ visited;
  se_nodes : Forall node_ok queue;
  se_shortest : ∀ n k, n ∈ queue → reach k (RID n) → Depth n ≤ k
}.

(** The queue holds at most two neighboring layers, in order. *)
Definition next_layer (n m : PathNode) : Prop := Depth n ≤ Depth m ≤ Depth n + 1.
Definition layered (queue : list PathNode) : Prop := StronglySorted next_layer queue.

(** Everything as near as the head of the queue is marked. *)
Definition near (visited : gset Z) (queue : list PathNode) : Prop :=
  ∀ n, head queue = Some n → ∀ k x, k ≤ Depth n → reach k x → x ∈ visited.

Lemma searching_start :
  from ≠ to → searching ∅ ({[from]} ∪ skip) [MkNode from None 0] ∧
    near ({[from]} ∪ skip) [MkNode from None 0].
Proof.
  intros Hne. split; [split|].
  - right. by left.
  - intros x. cbn. rewrite elem_of_union, elem_of_singleton, list_elem_of_singleton.
    rewrite (elem_of_empty x). tauto.
  - cbn. rewrite list_elem_of_singleton. split; [apply not_elem_of_empty|congruence].
  - intros x y []%elem_of_empty.
  - repeat constructor.
  - intros n k ->%list_elem_of_singleton _. cbn. lia.
  - intros n [= <-] k x Hk Hr. cbn in Hk. assert (k = 0) as -> by lia.
    apply reach_0 in Hr as ->. apply elem_of_union. left. by apply elem_of_singleton.
Qed.

(** A rid on the way that is marked is expanded or queued. *)
Lemma reach_marked P visited queue k x :
  searching P visited queue → reach k x → x ∈ visited → x ∈ P ∨ x ∈ map RID queue.
Proof.
  intros Hs Hr Hv. inversion Hr as [|n z y _ _ Hsk]; subst; [by apply se_from in Hs|].
  apply (se_visited _ _ _ Hs) in Hv as [?|?]; done.
Qed.

(** When the rids at distance up to [d] are marked and no queued node is at
    distance [d] or less, so are those at distance [d + 1]. *)
Lemma near_next P visited queue d :
  searching P visited queue → (∀ k x, k ≤ d → reach k x → x ∈ visited) →
  (∀ n, n ∈ queue → d < Depth n) → ∀ k x, k ≤ S d → reach k x → x ∈ visited.
Proof.
  intros Hs Hd Hq k x Hk Hr. destruct (decide (k ≤ d)) as [|Hgt]; [by eapply Hd|].
  assert (k = S d) as -> by lia. inversion Hr as [|n z y Hz Hy Hsk]; subst.
  destruct (reach_marked _ _ _ _ _ Hs Hz (Hd _ _ (Nat.le_refl d) Hz)) as [HP|Hin].
  - by eapply (se_closed _ _ _ Hs).
  - apply list_elem_of_fmap in Hin as (n & -> & Hn).
    pose proof (se_shortest _ _ _ Hs n d Hn Hz). specialize (Hq n Hn). lia.
Qed.

Lemma elem_new_nodes n cur xs :
  n ∈ new_nodes cur xs ↔ ∃ x, n = MkNode x (Some cur) (Depth cur + 1) ∧ x ∈ xs.
Proof. apply list_elem_of_fmap. Qed.

Lemma map_RID_new queue cur xs : map RID (queue ++ new_nodes cur xs) = map RID queue ++ xs.
Proof. unfold new_nodes. rewrite map_app, map_map. cbn. by rewrite map_id. Qed.

Lemma layered_new cur queue xs :
  layered (cur :: queue) → layered (queue ++ new_nodes cur xs).
Proof.
  intros Hl. inversion Hl as [|? ? Hq Hc]; subst. rewrite Forall_forall in Hc.
  apply StronglySorted_app_2; [|done|].
  - intros n m Hn (x & -> & _)%elem_new_nodes. specialize (Hc n Hn). unfold next_layer in *. cbn. lia.
  - induction xs as [|x xs IH]; [constructor|]. cbn. constructor; [done|]. apply Forall_forall.
    intros m (y & -> & _)%elem_new_nodes. unfold next_layer. cbn. lia.
Qed.

(** Expanding the head of the queue. *)
Lemma searching_step P visited cur queue xs :
  searching P visited (cur :: queue) → near visited (cur :: queue) →
  (∀ x, x ∈ xs → x ∈ nb (RID cur) ∧ (x ∉ visited) ∧ x ≠ to) →
  (∀ x, x ∈ nb (RID cur) → x ∈ (list_to_set xs ∪ visited : gset Z)) →
  searching ({[ RID cur ]} ∪ P) (list_to_set xs ∪ visited) (queue ++ new_nodes cur xs).
Proof.
  intros [S1 S2 S3 S4 S5 S6] Hnear Hxs Hall. apply list.Forall_cons in S5 as [Hcur S5].
  cbn [map] in *. split.
  - rewrite map_RID_new. rewrite elem_of_cons in S1. rewrite elem_of_union, elem_of_singleton, elem_of_app.
    tauto.
  - intros x. rewrite map_RID_new. rewrite elem_of_union, elem_of_list_to_set, S2.
    rewrite elem_of_union, elem_of_singleton, elem_of_app, elem_of_cons. tauto.
  - rewrite map_RID_new. destruct S3 as [S3 S3']. rewrite elem_of_cons in S3'.
    rewrite elem_of_union, elem_of_singleton, elem_of_app. split; [tauto|].
    intros [?|Hx]; [tauto|]. by destruct (Hxs _ Hx) as (_ & _ & ?).
  - intros x y [->%elem_of_singleton|Hx]%elem_of_union Hy; [by apply Hall|].
    apply elem_of_union. right. by eapply S4.
  - apply Forall_app. split; [done|]. apply Forall_forall. intros n (x & -> & Hx)%elem_new_nodes.
    destruct (Hxs x Hx) as (Hnb & Hv & _). constructor; [done..|]. intros Hsk. apply Hv, S2. by left.
  - intros n k [Hn|(x & -> & Hx)%elem_new_nodes]%elem_of_app Hr; [apply S6; [by right|done]|].
    cbn in *. destruct (Hxs x Hx) as (_ & Hv & _).
    destruct (decide (Depth cur + 1 ≤ k)); [done|]. destruct Hv.
    apply (Hnear cur eq_refl k); [lia|done].
Qed.

Lemma near_step P visited cur queue xs :
  searching P visited (cur :: queue) → layered (cur :: queue) → near visited (cur :: queue) →
  searching ({[ RID cur ]} ∪ P) (list_to_set xs ∪ visited) (queue ++ new_nodes cur xs) →
  near (list_to_set xs ∪ visited) (queue ++ new_nodes cur xs).
Proof.
  intros Hs Hl Hnear Hs' n Hn k x Hk Hr.
  assert (∀ k x, k ≤ Depth cur → reach k x → x ∈ (list_to_set xs ∪ visited : gset Z)) as Hcur.
  { intros k' x' Hk' Hr'. apply elem_of_union. right. by apply (Hnear cur eq_refl k'). }
  pose proof (layered_new cur queue xs Hl) as Hl'.
  assert (Depth n = Depth cur ∨ Depth n = Depth cur + 1) as [He|He].
  { inversion Hl as [|? ? _ Hc]; subst. rewrite Forall_forall in Hc.
    assert (n ∈ queue ++ new_nodes cur xs) as [Hin|(y & -> & _)%elem_new_nodes]%elem_of_app;
      [by apply head_Some_elem_of| |by right].
    specialize (Hc n Hin). unfold next_layer in Hc. lia. }
  - apply (Hcur k); [lia|done].
  - apply (near_next _ _ _ (Depth cur) Hs' Hcur) with k; [|lia|done].
    intros m Hm. destruct (queue ++ new_nodes cur xs) as [|n0 rest]; [by apply elem_of_nil in Hm|].
    injection Hn as ->. apply elem_of_cons in Hm as [->|Hm]; [lia|].
    inversion Hl' as [|? ? _ Hc]; subst. rewrite Forall_forall in Hc.
    specialize (Hc m Hm). unfold next_layer in Hc. lia.
Qed.

(** The search ends, with a shortest walk if there is one. *)
Lemma bfs_spec fuel P visited queue :
  searching P visited queue → layered queue → near visited queue →
  length queue + size (rids ∖ visited) < fuel →
  match bfs fuel plink directOnly to visited queue with
  | Ret p => ∃ n, p = reconstruct n ∧ node_ok n ∧ RID n = to ∧ ∀ k, reach k to → Depth n ≤ k
  | Fail ErrNoPath => ∀ k, ¬ reach k to
  | _ => False
  end.
Proof.
  revert P visited queue. induction fuel as [|fuel IH]; intros P visited queue Hs Hl Hn Hf; [lia|].
  cbn [bfs]. destruct queue as [|cur queue].
  { intros k Hr. assert (∀ k x, reach k x → x ∈ P) as HP.
    { clear -Hs. intros k x Hr. induction Hr as [|n x y Hx IH Hy Hsk].
      - apply se_from in Hs as [?|?%elem_of_nil]; done.
      - pose proof (se_closed _ _ _ Hs _ _ IH Hy) as Hv.
        apply (se_visited _ _ _ Hs) in Hv as [?|[?|?%elem_of_nil]]; done. }
    destruct (se_to _ _ _ Hs) as [Hto _]. by apply Hto, (HP k). }
  pose proof (visit_spec (nb (RID cur)) cur visited queue) as Hv.
  destruct (visit _ _ _ _ _) as [node|[visited' queue']].
  - destruct Hv as (-> & Hnb & Hto). exists (MkNode to (Some cur) (Depth cur + 1)).
    split_and!; [done| |done|].
    + constructor; [|done|].
      * pose proof (se_nodes _ _ _ Hs) as Hall. by inversion Hall.
      * intros Hsk. apply Hto, (se_visited _ _ _ Hs). by left.
    + intros k Hr. cbn. destruct (decide (Depth cur + 1 ≤ k)); [done|]. destruct Hto.
      apply (Hn cur eq_refl k); [lia|done].
  - destruct Hv as (xs & -> & -> & Hnd & Hxs & Hall).
    pose proof (searching_step _ _ _ _ _ Hs Hn Hxs Hall) as Hs'.
    apply (IH _ _ _ Hs'); [by apply layered_new|by eapply near_step|].
    rewrite (unmarked_step rids visited xs Hnd) in Hf.
    2: { intros x Hx. destruct (Hxs x Hx) as (Hnb & ? & _). split; [by eapply neighbors_rids|done]. }
    unfold new_nodes. rewrite length_app, length_map. cbn [length] in Hf. lia.
Qed.

(** ** The path that the [From] pointers spell *)

Lemma from_chain_length n : node_ok n → length (from_chain n) = S (Depth n).
Proof. induction 1 as [|n x _ IH]; [done|]. cbn. rewrite IH. lia. Qed.

Lemma last_cons_next (l : list Z) z x : List.last (z :: l) x = List.last l z.
Proof.
  revert z x. induction l as [|y l IH]; intros z x; [done|].
  change (List.last (z :: y :: l) x) with (List.last (y :: l) x). by rewrite !IH.
Qed.

Lemma is_path_snoc x l y :
  is_path plink directOnly skip x l → y ∈ nb (List.last l x) → y ∉ skip →
  is_path plink directOnly skip x (l ++ [y]).
Proof.
  revert x. induction l as [|z l IH]; intros x; [done|]. cbn [is_path app].
  intros (H1 & H2 & H3) Hy Hsk. rewrite last_cons_next in Hy. split_and!; [done..|]. by apply IH.
Qed.

Lemma chain_path n :
  node_ok n → ∃ l, rev (map RID (from_chain n)) = from :: l ∧ List.last l from = RID n ∧
    is_path plink directOnly skip from l.
Proof.
  induction 1 as [|n x Hn (l & Hl & Hlast & Hp) Hx Hsk]; [by exists []|].
  exists (l ++ [x]). cbn [from_chain map rev RID]. rewrite Hl. split_and!; [done| |].
  - by rewrite last_last.
  - apply is_path_snoc; [done| |done]. by rewrite Hlast.
Qed.

Lemma reconstruct_rids n : map RID (reconstruct n) = rev (map RID (from_chain n)).
Proof.
  unfold reconstruct. rewrite map_rev. f_equal.
  apply list_eq. intros i. rewrite !list_lookup_fmap, list_lookup_imap. by destruct (_ !! i).
Qed.

Lemma length_reconstruct n : length (reconstruct n) = length (from_chain n).
Proof. unfold reconstruct. by rewrite length_rev, length_imap. Qed.
End bfs.

(** ** Common ancestors *)

Section ancestors.
Context (plink : list plinkRow).
Abbreviation parents := (getParents plink).

Definition pids : gset Z := list_to_set (map pl_pid plink).

Lemma parents_pids x y : y ∈ parents x → y ∈ pids.
Proof.
  unfold getParents, pids. intros (r & -> & [_ Hr]%list_elem_of_filter)%list_elem_of_fmap.
  apply elem_of_list_to_set. by apply list_elem_of_fmap_2.
Qed.

Lemma climb_spec ps mine other queue :
  match climb ps mine other queue with
  | inl r => r ∈ ps ∧ r ∈ other
  | inr (mine', queue') => ∃ xs,
      queue' = queue ++ xs ∧ mine' = list_to_set xs ∪ mine ∧ base.NoDup xs ∧
      (∀ x, x ∈ xs → x ∈ ps ∧ (x ∉ mine) ∧ x ∉ other) ∧ (∀ x, x ∈ ps → x ∈ mine')
  end.
Proof.
  revert mine queue. induction ps as [|p ps IH]; intros mine queue; cbn.
  { exists []. cbn. rewrite app_nil_r.
    split_and!; [done|by rewrite (left_id_L ∅ (∪))|constructor|by intros ? ?%elem_of_nil..]. }
  case_bool_decide as Hp.
  - specialize (IH mine queue). destruct (climb _ _ _ _) as [r|[m' q']].
    + destruct IH as [? ?]. split; [by right|done].
    + destruct IH as (xs & -> & -> & Hnd & Hxs & Hall). exists xs. split_and!; [done..| |].
      * intros x Hx. destruct (Hxs x Hx) as (? & ? & ?). split_and!; [by right|done..].
      * intros x [->|Hx]%elem_of_cons; [apply elem_of_union; by right|by apply Hall].
  - case_bool_decide as Ho; [split; [by left|done]|].
    specialize (IH ({[p]} ∪ mine) (queue ++ [p])). destruct (climb _ _ _ _) as [r|[m' q']].
    + destruct IH as [? ?]. split; [by right|done].
    + destruct IH as (xs & -> & -> & Hnd & Hxs & Hall). exists (p :: xs).
      assert (list_to_set xs ∪ ({[p]} ∪ mine) = list_to_set (p :: xs) ∪ mine) as Heq.
      { cbn. rewrite (assoc_L (∪)). f_equal. apply (comm_L (∪)). }
      split_and!; [by rewrite <- app_assoc|done| | |].
      * constructor; [|done]. intros Hin. destruct (Hxs p Hin) as (_ & Hv & _).
        apply Hv, elem_of_union. left. by apply elem_of_singleton.
      * intros x [->|Hx]%elem_of_cons; [split_and!; [by left|done..]|].
        destruct (Hxs x Hx) as (? & Hv & ?). split_and!; [by right| |done].
        intros Hm. apply Hv, elem_of_union. by right.
      * intros x [->|Hx]%elem_of_cons; [|by apply Hall].
        apply elem_of_union. right. apply elem_of_union. left. by apply elem_of_singleton.
Qed.

(** One of the two searches, from [x]: [P] are the rids already expanded. *)
Record climbing (x : Z) (P mine : gset Z) (queue : list Z) : Prop := {
  cl_start : x ∈ mine;
  cl_mine : ∀ y, y ∈ mine ↔ y ∈ P ∨ y ∈ queue;
  cl_anc : ∀ y, y ∈ mine → ancestor plink x y;
  cl_closed : ∀ y z, y ∈ P → z ∈ parents y → z ∈ mine
}.

(** What a turn of either search can still do. *)
Definition work (mine : gset Z) (queue : list Z) : nat := length queue + size (pids ∖ mine).

Lemma climbing_start x : climbing x ∅ {[ x ]} [x].
Proof.
  split.
  - by apply elem_of_singleton.
  - intros y. rewrite elem_of_singleton, list_elem_of_singleton, (elem_of_empty y). tauto.
  - intros y ->%elem_of_singleton. apply rtc_refl.
  - intros y z []%elem_of_empty.
Qed.

Lemma ancestor_step_spec x P mine other queue :
  climbing x P mine queue → mine ## other →
  match ancestor_step plink mine other queue with
  | inl r => ancestor plink x r ∧ r ∈ other
  | inr (mine', queue') => ∃ P',
      climbing x P' mine' queue' ∧ mine' ## other ∧
      work mine' queue' + (if queue is [] then 0 else 1) = work mine queue
  end.
Proof.
  intros [C1 C2 C3 C4] Hd. unfold ancestor_step. destruct queue as [|cur queue].
  { exists P. split_and!; [by split|done|lia]. }
  assert (cur ∈ mine) as Hcur by (apply C2; right; by left).
  case_bool_decide as Ho; [split; [by apply C3|done]|].
  pose proof (climb_spec (parents cur) mine other queue) as Hc.
  destruct (climb _ _ _ _) as [r|[mine' queue']].
  - destruct Hc as [Hr ?]. split; [|done]. eapply rtc_r; [by apply C3|done].
  - destruct Hc as (xs & -> & -> & Hnd & Hxs & Hall). exists ({[ cur ]} ∪ P). split_and!.
    + split.
      * apply elem_of_union. by right.
      * intros y. rewrite !elem_of_union, elem_of_list_to_set, elem_of_singleton, C2, elem_of_app, elem_of_cons.
        tauto.
      * intros y [Hy%elem_of_list_to_set|Hy]%elem_of_union; [|by apply C3].
        destruct (Hxs y Hy) as (Hp & _). eapply rtc_r; [by apply C3|done].
      * intros y z [->%elem_of_singleton|Hy]%elem_of_union Hz; [by apply Hall|].
        apply elem_of_union. right. by eapply C4.
    + intros y [Hy%elem_of_list_to_set|Hy]%elem_of_union Hy'; [|by apply (Hd y)].
      by destruct (Hxs y Hy) as (_ & _ & ?).
    + unfold work. rewrite (unmarked_step pids mine xs Hnd).
      2: { intros y Hy. destruct (Hxs y Hy) as (Hp & ? & _). split; [by eapply parents_pids|done]. }
      rewrite length_app. cbn [length]. lia.
Qed.

(** A finished search has seen every ancestor. *)
Lemma climbing_done x P mine a : climbing x P mine [] → ancestor plink x a → a ∈ mine.
Proof.
  intros [C1 C2 C3 C4]. revert a. unfold ancestor. apply rtc_ind_r; [done|].
  intros y z _ Hp IH. apply C2 in IH as [HP|?%elem_of_nil]; [|done]. by eapply C4.
Qed.

Lemma ancestor_loop_spec fuel a b PA PB visitedA visitedB queueA queueB :
  climbing a PA visitedA queueA → climbing b PB visitedB queueB → visitedA ## visitedB →
  work visitedA queueA + work visitedB queueB < fuel →
  match ancestor_loop fuel plink visitedA visitedB queueA queueB with
  | Ret r => ancestor plink a r ∧ ancestor plink b r
  | Fail ENoAncestor => ∀ r, ¬ (ancestor plink a r ∧ ancestor plink b r)
  | _ => False
  end.
Proof.
  revert PA PB visitedA visitedB queueA queueB.
  induction fuel as [|fuel IH]; intros PA PB visitedA visitedB queueA queueB HA HB Hd Hf; [lia|].
  cbn [ancestor_loop].
  destruct ((0 <? length queueA) || (0 <? length queueB)) eqn:Hmore.
  2: { apply orb_false_iff in Hmore as [HzA%Nat.ltb_ge HzB%Nat.ltb_ge].
    destruct queueA, queueB; try (cbn in *; lia).
    intros r [Ha Hb]. apply (Hd r); by eapply climbing_done. }
  pose proof (ancestor_step_spec a PA visitedA visitedB queueA HA Hd) as HsA.
  destruct (ancestor_step plink visitedA visitedB queueA) as [r|[vA qA]].
  { destruct HsA as [? Hr]. split; [done|]. by apply (cl_anc _ _ _ _ HB). }
  destruct HsA as (PA' & HA' & Hd' & HwA). symmetry in Hd'.
  pose proof (ancestor_step_spec b PB visitedB vA queueB HB Hd') as HsB.
  destruct (ancestor_step plink visitedB vA queueB) as [r|[vB qB]].
  { destruct HsB as [? Hr]. split; [|done]. by apply (cl_anc _ _ _ _ HA'). }
  destruct HsB as (PB' & HB' & Hd'' & HwB). symmetry in Hd''.
  eapply IH; [exact HA'|exact HB'|done|]. destruct queueA, queueB; cbn in Hmore; done || lia.
Qed.
End ancestors.

Lemma size_pids plink : size (pids plink) ≤ length plink.
Proof. unfold pids. etrans; [apply size_list_to_set_le|]. by rewrite length_map. Qed.

Lemma FindCommonAncestor_ok plink a b :
  (0 < a)%Z → (0 < b)%Z →
  match FindCommonAncestor plink a b with
  | Ret r => ancestor plink a r ∧ ancestor plink b r
  | Fail ENoAncestor => ∀ r, ¬ (ancestor plink a r ∧ ancestor plink b r)
  | _ => False
  end.
Proof.
  intros Ha Hb. unfold FindCommonAncestor.
  destruct (Z.leb_spec a 0); [lia|]. destruct (Z.leb_spec b 0); [lia|].
  destruct (Z.eqb_spec a b) as [->|Hne]; [split; apply rtc_refl|].
  apply (ancestor_loop_spec plink _ a b ∅ ∅); [apply climbing_start..| |].
  - intros y ->%elem_of_singleton ?%elem_of_singleton. done.
  - unfold work. cbn [length]. pose proof (size_pids plink).
    pose proof (subseteq_size (pids plink ∖ {[ a ]}) (pids plink) ltac:(set_solver)).
    pose proof (subseteq_size (pids plink ∖ {[ b ]}) (pids plink) ltac:(set_solver)). lia.
Qed.

Lemma Shortest_ok plink from to directOnly skip :
  (0 < from)%Z → (0 < to)%Z →
  match Shortest plink from to directOnly skip with
  | Ret p => ∃ l, map RID p = from :: l ∧ shortest_path plink directOnly skip from to l
  | Fail ErrNoPath => ∀ k, ¬ walk plink directOnly skip from k to
  | _ => False
  end.
Proof.
  intros Hf Ht. unfold Shortest.
  destruct (Z.leb_spec from 0); [lia|]. destruct (Z.leb_spec to 0); [lia|].
  destruct (Z.eqb_spec from to) as [->|Hne]; [exists []; by split; [|split; [|split; [|cbn; lia]]]|].
  destruct (searching_start plink directOnly skip from to Hne) as [Hs Hn].
  pose proof (bfs_spec plink directOnly skip from to (2 * length plink + 2) ∅ ({[from]} ∪ skip)
    [MkNode from None 0] Hs) as Hb.
  pose proof (size_rids plink) as Hsz.
  pose proof (subseteq_size (rids plink ∖ ({[from]} ∪ skip)) (rids plink) ltac:(set_solver)).
  specialize (Hb ltac:(repeat constructor) Hn ltac:(cbn [length]; lia)).
  destruct (bfs _ _ _ _ _ _) as [p|[]| |]; try done.
  destruct Hb as (n & -> & Hok & Hto & Hmin).
  destruct (chain_path plink directOnly skip from n Hok) as (l & Hl & Hlast & Hp).
  exists l. rewrite reconstruct_rids, Hl. split; [done|]. split; [done|]. split; [by rewrite Hlast|].
  intros k Hr. apply Hmin in Hr. pose proof (from_chain_length _ _ _ _ _ Hok) as Hlen.
  apply (f_equal length) in Hl. rewrite length_rev, length_map, Hlen in Hl. cbn in Hl. lia.
Qed.

(** ** Properties *)

(** C39. [Shortest] finds a shortest path: it returns the rids of a walk over
    the visible edges, in either direction, from the start to the end, which
    enters no skipped node and than which no such walk is shorter; it reports
    that there is no path exactly when there is none; and it always ends. *)
Theorem Shortest_shortest plink from to directOnly skip :
  (0 < from)%Z → (0 < to)%Z →
  match Shortest plink from to directOnly skip with
  | Ret p => ∃ l, map RID p = from :: l ∧ shortest_path plink directOnly skip from to l
  | Fail ErrNoPath => ∀ k, ¬ walk plink directOnly skip from k to
  | _ => False
  end.
Proof. apply Shortest_ok. Qed.

(** [FindCommonAncestor] decides whether two check-ins have a common ancestor,
    and returns one if they do; it always ends. *)
Theorem FindCommonAncestor_common plink a b :
  (0 < a)%Z → (0 < b)%Z →
  match FindCommonAncestor plink a b with
  | Ret r => ancestor plink a r ∧ ancestor plink b r
  | Fail ENoAncestor => ∀ r, ¬ (ancestor plink a r ∧ ancestor plink b r)
  | _ => False
  end.
Proof. apply FindCommonAncestor_ok. Qed.

Lemma forks_with_spec plink leaf rest :
  (0 < leaf)%Z → Forall (λ x, 0 < x)%Z rest →
  ∃ fs, forks_with plink leaf rest = Ret fs ∧
    Forall (λ f, ancestor plink (fk_LocalTip f) (fk_Ancestor f) ∧
                 ancestor plink (fk_RemoteTip f) (fk_Ancestor f)) fs ∧
    ∀ x y, (x, y) ∈ map (λ f, (fk_LocalTip f, fk_RemoteTip f)) fs ↔
      x = leaf ∧ y ∈ rest ∧ ∃ r, ancestor plink leaf r ∧ ancestor plink y r.
Proof.
  intros Hl. induction 1 as [|other rest Ho _ (fs & IH & Hfs & Hpairs)]; cbn [forks_with].
  { exists []. split_and!; [done|constructor|]. intros x y. split; [by intros ?%elem_of_nil|].
    by intros (_ & ?%elem_of_nil & _). }
  pose proof (FindCommonAncestor_ok plink leaf other Hl Ho) as Hc.
  destruct (FindCommonAncestor plink leaf other) as [r|[]| |]; try done; rewrite IH.
  - eexists. split; [reflexivity|]. split; [by constructor|]. intros x y. cbn. rewrite elem_of_cons, Hpairs.
    split.
    + intros [[= -> ->]|(-> & ? & ?)]; [split_and!; [done|by left|by exists r]|split_and!; [done|by right|done]].
    + intros (-> & [->|?]%elem_of_cons & ?); [by left|by right].
  - exists fs. split_and!; [done..|]. intros x y. rewrite Hpairs, elem_of_cons. split.
    + intros (? & ? & ?). split_and!; [done|by right|done].
    + intros (-> & [->|?] & r & ?); [|split_and!; [done|done|by exists r]]. by destruct (Hc r).
Qed.

(** [x] comes before [y] in the list. *)
Definition before (leaves : list Z) (x y : Z) : Prop := ∃ l1 l2, leaves = l1 ++ x :: l2 ∧ y ∈ l2.

Lemma before_cons leaf leaves x y :
  before (leaf :: leaves) x y ↔ (x = leaf ∧ y ∈ leaves) ∨ before leaves x y.
Proof.
  split.
  - intros ([|z l1] & l2 & [= -> ->] & Hy); [by left|right]. by exists l1, l2.
  - intros [[-> Hy]|(l1 & l2 & -> & Hy)]; [by exists [], leaves|by exists (leaf :: l1), l2].
Qed.

Lemma forks_loop_spec plink leaves :
  Forall (λ x, 0 < x)%Z leaves →
  ∃ fs, forks_loop plink leaves = Ret fs ∧
    Forall (λ f, ancestor plink (fk_LocalTip f) (fk_Ancestor f) ∧
                 ancestor plink (fk_RemoteTip f) (fk_Ancestor f)) fs ∧
    ∀ x y, (x, y) ∈ map (λ f, (fk_LocalTip f, fk_RemoteTip f)) fs ↔
      before leaves x y ∧ ∃ r, ancestor plink x r ∧ ancestor plink y r.
Proof.
  induction 1 as [|leaf leaves Hl Hls (gs & IH & Hgs & Hgp)]; cbn [forks_loop].
  { exists []. split_and!; [done|constructor|]. intros x y. split; [by intros ?%elem_of_nil|].
    intros [([|] & l2 & ? & _) _]; done. }
  destruct (forks_with_spec plink leaf leaves Hl Hls) as (fs & -> & Hfs & Hfp). rewrite IH.
  eexists. split; [reflexivity|]. split; [by apply Forall_app|]. intros x y.
  rewrite map_app, elem_of_app, Hfp, Hgp, before_cons. split.
  - intros [(-> & ? & ?)|[? ?]]; [split; [by left|done]|split; [by right|done]].
  - intros [[[-> ?]|?] ?]; [left|right]; done.
Qed.

(** [DetectForks] reports exactly the pairs of leaves that have a common
    ancestor, the newer leaf first, each with such an ancestor. *)
Theorem DetectForks_pairs plink leaves :
  Forall (λ x, 0 < x)%Z leaves →
  ∃ fs, DetectForks plink leaves = Ret fs ∧
    Forall (λ f, ancestor plink (fk_LocalTip f) (fk_Ancestor f) ∧
                 ancestor plink (fk_RemoteTip f) (fk_Ancestor f)) fs ∧
    ∀ x y, (x, y) ∈ map (λ f, (fk_LocalTip f, fk_RemoteTip f)) fs ↔
      before leaves x y ∧ ∃ r, ancestor plink x r ∧ ancestor plink y r.
Proof.
  intros Hl. unfold DetectForks. destruct (Nat.leb_spec (length leaves) 1) as [H1|H1].
  - exists []. split_and!; [done|constructor|]. intros x y. split; [by intros ?%elem_of_nil|].
    intros [(l1 & l2 & -> & Hy) _]. destruct l2 as [|z l2]; [by apply elem_of_nil in Hy|].
    rewrite length_app in H1. cbn in H1. lia.
  - by apply forks_loop_spec.
Qed.

(** ** Witnesses *)

(** Check-in 1 has children 2 and 3, merged in 4; 5 continues 3. *)
Definition diamond : list plinkRow :=
  [MkPlink 1 2 true; MkPlink 1 3 true; MkPlink 2 4 true; MkPlink 3 4 false; MkPlink 3 5 true].

Lemma Shortest_shortest_witness :
  map RID <$> (match Shortest diamond 1 4 false ∅ with Ret p => Some p | _ => None end) = Some [1; 2; 4]%Z ∧
  ∃ l, [1; 2; 4]%Z = 1%Z :: l ∧ shortest_path diamond false ∅ 1 4 l.
Proof.
  pose proof (Shortest_shortest diamond 1 4 false ∅ ltac:(lia) ltac:(lia)) as H.
  vm_compute (Shortest _ _ _ _ _) in H. split; [vm_compute; reflexivity|]. exact H.
Defined.

Lemma FindCommonAncestor_common_witness :
  FindCommonAncestor diamond 4 5 = Ret 3%Z ∧ ancestor diamond 4 3 ∧ ancestor diamond 5 3.
Proof.
  assert (FindCommonAncestor diamond 4 5 = Ret 3%Z) as He by (vm_compute; reflexivity).
  pose proof (FindCommonAncestor_common diamond 4 5 ltac:(lia) ltac:(lia)) as H.
  rewrite He in H. exact (conj He H).
Defined.

Lemma DetectForks_pairs_witness :
  DetectForks diamond [5; 4]%Z = Ret [MkFork 3 5 4] ∧
  ∃ fs, DetectForks diamond [5; 4]%Z = Ret fs ∧
    ∀ x y, (x, y) ∈ map (λ f, (fk_LocalTip f, fk_RemoteTip f)) fs ↔
      before [5; 4]%Z x y ∧ ∃ r, ancestor diamond x r ∧ ancestor diamond y r.
Proof.
  split; [vm_compute; reflexivity|].
  destruct (DetectForks_pairs diamond [5; 4]%Z ltac:(repeat constructor)) as (fs & H1 & _ & H2).
  exists fs. exact (conj H1 H2).
Defined.

(** ** Findings *)

(** The [Depth] of the nodes that [Shortest] returns counts from the end of the
    path, unlike the one of its search. *)
Example path_depths_reversed :
  Shortest diamond 1 4 false ∅ = Ret [MkNode 1 None 2; MkNode 2 None 1; MkNode 4 None 0].
Proof. vm_compute. reflexivity. Qed.

(** The common ancestor need not be a nearest one: 2 is a parent of both 3 and 4,
    and 1 is a parent of 2, yet the older 1 is returned. *)
Example ancestor_not_nearest :
  FindCommonAncestor [MkPlink 1 2 true; MkPlink 1 3 false; MkPlink 2 3 true;
                      MkPlink 1 4 false; MkPlink 2 4 true] 3 4 = Ret 1%Z.
Proof. vm_compute. reflexivity. Qed.
