(* ===== verification/Bisect.v ===== *)
(** * Bisection (src/internal/bisect/bisect.go)

    A session keeps its state as text in the [vvar] table; the next check-in to
    test is near the middle of the path between the good and the bad one.
    [List], which only labels rows for display, is not modelled. *)
From S2P Require Import Prelude GoStrings Dag.
From stdpp Require Import list gmap sets.

(** ** The session *)

Abbreviation vvars := (gmap bytes bytes).

Inductive bisect_error :=
  | ENotSet
  | EParseGood
  | EParseBad
  | EPath (e : dag_error)
  | EBisectComplete (bad : Z).

Abbreviation out := (outcome bisect_error).

Definition bisect_good : bytes := str "bisect-good".
Definition bisect_bad : bytes := str "bisect-bad".
Definition bisect_log : bytes := str "bisect-log".

Definition loadVvar (v : vvars) (name : bytes) : bytes := default [] (v !! name).

Definition appendLogEntry (v : vvars) (entry : bytes) : vvars :=
  let cur := loadVvar v bisect_log in
  let cur := if bool_decide (cur = []) then cur else cur ++ [SP] in
  <[bisect_log := cur ++ entry]> v.

Definition appendLog (v : vvars) (rid : Z) : vvars := appendLogEntry v (fmt_int rid).

Definition MarkGood (v : vvars) (rid : Z) : out vvars :=
  if (rid <=? 0)%Z then Panic else Ret (appendLog (<[bisect_good := fmt_int rid]> v) rid).

Definition MarkBad (v : vvars) (rid : Z) : out vvars :=
  if (rid <=? 0)%Z then Panic else Ret (appendLog (<[bisect_bad := fmt_int rid]> v) (i64 (- rid))).

Definition Skip (v : vvars) (rid : Z) : out vvars :=
  if (rid <=? 0)%Z then Panic else Ret (appendLogEntry v ("s"%byte :: fmt_int rid)).

Definition Reset_ (v : vvars) : vvars :=
  delete bisect_good (delete bisect_bad (delete bisect_log v)).

Definition loadEndpoints (v : vvars) : out (Z * Z) :=
  let gStr := loadVvar v bisect_good in
  let bStr := loadVvar v bisect_bad in
  if bool_decide (gStr = []) || bool_decide (bStr = []) then Fail ENotSet else
  match ParseInt gStr with
  | None => Fail EParseGood
  | Some g => match ParseInt bStr with
              | None => Fail EParseBad
              | Some b => Ret (g, b)
              end
  end.

(** The rid that a log token marks as skipped. *)
Definition skip_token (tok : bytes) : option Z :=
  if HasPrefix tok (str "s") then ParseInt (drop 1 tok) else None.

(** [None] is the nil map. *)
Definition parseSkipSet (v : vvars) : option (gset Z) :=
  let log := loadVvar v bisect_log in
  if bool_decide (log = []) then None else
  let skip := list_to_set (omap skip_token (Fields log)) in
  if bool_decide (skip = ∅) then None else Some skip.

(** ** The midpoint *)

(** [idx > 0 && idx < len(p)-1 && !skip[p[idx].RID]] *)
Definition candidate (p : list PathNode) (skip : gset Z) (idx : Z) : bool :=
  (0 <? idx)%Z && (idx <? zlen p - 1)%Z &&
  match p !! Z.to_nat idx with Some n => negb (bool_decide (RID n ∈ skip)) | None => false end.

(** The search outward from [mid], for distances [d], [d + 1], ..., [n] of them. *)
Fixpoint search_from (n : nat) (d mid : Z) (p : list PathNode) (skip : gset Z) : option Z :=
  match n with
  | O => None
  | S n =>
    if candidate p skip (mid + d) then Some (mid + d)%Z
    else if candidate p skip (mid - d) then Some (mid - d)%Z
    else search_from n (d + 1) mid p skip
  end.

Definition pick_mid (p : list PathNode) (skip : option (gset Z)) : option Z :=
  let mid := (zlen p / 2)%Z in
  match skip with
  | None => Some mid
  | Some skip => search_from (length p) 0 mid p skip
  end.

Definition Next (plink : list plinkRow) (v : vvars) : out Z :=
  '(good, bad) ← loadEndpoints v;
  let skip := parseSkipSet v in
  p ← wrap_err EPath (Shortest plink good bad true ∅);
  if length p <=? 2 then Fail (EBisectComplete bad) else
  match pick_mid p skip with
  | None => Fail (EBisectComplete bad)
  | Some mid => n ← index p (Z.to_nat mid); Ret (RID n)
  end.

Record StatusInfo := MkStatus { si_Good : Z; si_Bad : Z; si_Log : bytes; si_Steps : Z }.

(** [int(math.Log2(n))] is the integer logarithm at the lengths of paths in
    memory. *)
Definition Status (plink : list plinkRow) (v : vvars) : out StatusInfo :=
  let '(good, bad) := match loadEndpoints v with Ret gb => gb | _ => (0%Z, 0%Z) end in
  let log := loadVvar v bisect_log in
  if (good =? 0)%Z || (bad =? 0)%Z then Ret (MkStatus good bad log 0) else
  match Shortest plink good bad true (default ∅ (parseSkipSet v)) with
  | Ret p => Ret (MkStatus good bad log (if 2 <? length p then Z.log2 (zlen p) else 0%Z))
  | Fail _ => Ret (MkStatus good bad log 0)
  | Panic => Panic
  | NoFuel => NoFuel
  end.

(** ** Specification: the session without its text *)

Inductive op := OpGood (rid : Z) | OpBad (rid : Z) | OpSkip (rid : Z) | OpReset.

Record session := MkSession { se_good : option Z; se_bad : option Z; se_skips : list Z }.

Definition run_op (v : vvars) (o : op) : out vvars :=
  match o with
  | OpGood rid => MarkGood v rid
  | OpBad rid => MarkBad v rid
  | OpSkip rid => Skip v rid
  | OpReset => Ret (Reset_ v)
  end.

Definition spec_op (s : session) (o : op) : session :=
  match o with
  | OpGood rid => MkSession (Some rid) (se_bad s) (se_skips s)
  | OpBad rid => MkSession (se_good s) (Some rid) (se_skips s)
  | OpSkip rid => MkSession (se_good s) (se_bad s) (se_skips s ++ [rid])
  | OpReset => MkSession None None []
  end.

Fixpoint run_ops (v : vvars) (os : list op) : out vvars :=
  match os with
  | [] => Ret v
  | o :: os => v ← run_op v o; run_ops v os
  end.

(** A rid of the database. *)
Definition op_ok (o : op) : Prop :=
  match o with
  | OpGood rid | OpBad rid | OpSkip rid => (0 < rid ≤ max_int64)%Z
  | OpReset => True
  end.

Definition skip_set (v : vvars) : gset Z := default ∅ (parseSkipSet v).

(** ** The text log *)

Definition entry_word (e : Z + Z) : bytes :=
  match e with inl rid => fmt_int rid | inr rid => "s"%byte :: fmt_int rid end.
Definition entry_skip (e : Z + Z) : option Z := match e with inl _ => None | inr rid => Some rid end.
Definition entry_ok (e : Z + Z) : Prop := int64_range (match e with inl r | inr r => r end).

(** The table holds the state [s]. *)
Record represents (v : vvars) (s : session) : Prop := {
  rp_good : v !! bisect_good = fmt_int <$> se_good s;
  rp_bad : v !! bisect_bad = fmt_int <$> se_bad s;
  rp_range : (∀ r, se_good s = Some r → int64_range r) ∧ (∀ r, se_bad s = Some r → int64_range r);
  rp_log : ∃ es, loadVvar v bisect_log = GoStrings.Join (map entry_word es) [SP] ∧
    Forall entry_ok es ∧ omap entry_skip es = se_skips s
}.

Lemma entry_is_word e : entry_ok e → word (entry_word e).
Proof.
  destruct e as [r|r]; intros He; [by apply fmt_int_word|].
  split; [done|]. apply no_space_graph. constructor; [done|by apply fmt_int_graph].
Qed.

Lemma ParseInt_s t : ParseInt ("s"%byte :: t) = None.
Proof. unfold ParseInt, dec_unsigned. cbn [dec_value]. done. Qed.

Lemma skip_token_entry e : entry_ok e → skip_token (entry_word e) = entry_skip e.
Proof.
  destruct e as [r|r]; intros He; unfold skip_token, entry_word.
  - destruct (HasPrefix (fmt_int r) (str "s")) eqn:Hp; [exfalso|done].
    pose proof (ParseInt_fmt_int r He) as Hr. destruct (fmt_int r) as [|c t]; [done|].
    cbn in Hp. apply andb_true_iff in Hp as [->%bool_decide_eq_true _]. by rewrite ParseInt_s in Hr.
  - assert (HasPrefix ("s"%byte :: fmt_int r) (str "s") = true) as ->.
    { cbn. rewrite bool_decide_true by done. by destruct (fmt_int r). }
    by apply ParseInt_fmt_int.
Qed.

Lemma log_skips es : Forall entry_ok es → omap skip_token (map entry_word es) = omap entry_skip es.
Proof.
  induction 1 as [|e es He _ IH]; [done|]. cbn [map].
  change (?a :: ?l) with ([a] ++ l). rewrite !omap_app, IH. f_equal. cbn.
  by rewrite (skip_token_entry e He).
Qed.

Lemma Join_nil es : Forall entry_ok es → GoStrings.Join (map entry_word es) [SP] = [] → es = [].
Proof.
  intros Hes Hj. destruct es as [|e es]; [done|exfalso]. inversion Hes as [|? ? He]; subst.
  apply entry_is_word in He as [Hne _]. apply Hne. cbn in Hj. destruct (map entry_word es); [done|].
  by apply app_eq_nil in Hj as [? _].
Qed.

Lemma Join_snoc ws w :
  ws ≠ [] → GoStrings.Join (ws ++ [w]) [SP] = GoStrings.Join ws [SP] ++ [SP] ++ w.
Proof.
  induction ws as [|w0 ws IH]; [done|]. intros _. destruct ws as [|w1 ws]; [done|].
  change ((w0 :: w1 :: ws) ++ [w]) with (w0 :: w1 :: (ws ++ [w])).
  rewrite !Join_cons2. change (w1 :: (ws ++ [w])) with ((w1 :: ws) ++ [w]).
  rewrite IH by done. by rewrite <- !app_assoc.
Qed.

Lemma skip_set_represents v s : represents v s → skip_set v = list_to_set (se_skips s).
Proof.
  intros [_ _ _ (es & Hlog & Hes & Hsk)]. unfold skip_set, parseSkipSet. rewrite Hlog.
  case_bool_decide as Hnil.
  - apply Join_nil in Hnil as ->; [|done]. cbn in Hsk. by rewrite <- Hsk.
  - rewrite Fields_Join, log_skips, Hsk by (done || by apply Forall_map, (Forall_impl _ _ _ Hes), entry_is_word).
    case_bool_decide as He; cbn; [by rewrite He|done].
Qed.

Lemma append_represents v e es :
  loadVvar v bisect_log = GoStrings.Join (map entry_word es) [SP] → Forall entry_ok es →
  loadVvar (appendLogEntry v (entry_word e)) bisect_log = GoStrings.Join (map entry_word (es ++ [e])) [SP].
Proof.
  intros Hlog Hes. unfold appendLogEntry. rewrite Hlog. unfold loadVvar at 1.
  rewrite lookup_insert_eq. cbn [default]. case_bool_decide as Hn.
  - apply Join_nil in Hn as ->; [|done]. done.
  - rewrite map_app. cbn [map]. rewrite Join_snoc; [by rewrite <- app_assoc|]. by intros ->%map_eq_nil.
Qed.

Lemma names_differ : bisect_good ≠ bisect_log ∧ bisect_bad ≠ bisect_log ∧ bisect_good ≠ bisect_bad.
Proof. split_and!; discriminate. Qed.

Lemma int64_pos r : (0 < r ≤ max_int64)%Z → int64_range r ∧ int64_range (- r).
Proof. unfold int64_range, min_int64, max_int64. lia. Qed.

Lemma run_op_represents v s o :
  op_ok o → represents v s → ∃ v', run_op v o = Ret v' ∧ represents v' (spec_op s o).
Proof.
  intros Ho [R1 R2 [R3 R4] (es & R5 & R6 & R7)]. destruct names_differ as (N1 & N2 & N3).
  destruct o as [r|r|r|]; cbn [run_op spec_op op_ok] in *; unfold MarkGood, MarkBad, Skip, appendLog;
    try (destruct (int64_pos r Ho) as [Hr Hr']; destruct (Z.leb_spec r 0); [lia|]).
  - eexists. split; [reflexivity|]. split; cbn.
    + unfold appendLogEntry. by rewrite lookup_insert_ne, lookup_insert_eq.
    + unfold appendLogEntry. by rewrite !lookup_insert_ne.
    + split; [by intros ? [= <-]|done].
    + exists (es ++ [inl r]). split_and!.
      * apply (append_represents _ (inl r)); [|done]. unfold loadVvar. by rewrite lookup_insert_ne.
      * apply Forall_app. split; [done|by apply list.Forall_singleton].
      * rewrite omap_app, R7. cbn. by rewrite app_nil_r.
  - assert (i64 (- r) = (- r)%Z) as -> by (apply i64_id; exact Hr').
    eexists. split; [reflexivity|]. split; cbn.
    + unfold appendLogEntry. by rewrite !lookup_insert_ne.
    + unfold appendLogEntry. by rewrite lookup_insert_ne, lookup_insert_eq.
    + split; [done|by intros ? [= <-]].
    + exists (es ++ [inl (- r)%Z]). split_and!.
      * apply (append_represents _ (inl (- r)%Z)); [|done]. unfold loadVvar. by rewrite lookup_insert_ne.
      * apply Forall_app. split; [done|by apply list.Forall_singleton].
      * rewrite omap_app, R7. cbn. by rewrite app_nil_r.
  - eexists. split; [reflexivity|]. split; cbn.
    + unfold appendLogEntry. by rewrite lookup_insert_ne.
    + unfold appendLogEntry. by rewrite lookup_insert_ne.
    + done.
    + exists (es ++ [inr r]). split_and!.
      * by apply (append_represents _ (inr r)).
      * apply Forall_app. split; [done|by apply list.Forall_singleton].
      * rewrite omap_app, R7. done.
  - eexists. split; [reflexivity|]. split; cbn; unfold Reset_, loadVvar.
    + by rewrite lookup_delete_eq.
    + rewrite lookup_delete_ne by done. by rewrite lookup_delete_eq.
    + done.
    + exists []. rewrite !lookup_delete_ne by done. by rewrite lookup_delete_eq.
Qed.

Lemma empty_represents : represents ∅ (MkSession None None []).
Proof. split; [done|done|done|]. by exists []. Qed.

Lemma run_ops_represents v s os :
  Forall op_ok os → represents v s →
  ∃ v', run_ops v os = Ret v' ∧ represents v' (foldl spec_op s os).
Proof.
  intros Hos. revert v s. induction Hos as [|o os Ho _ IH]; intros v s Hr; [by exists v|].
  destruct (run_op_represents v s o Ho Hr) as (v1 & Hv1 & Hr1). cbn [run_ops foldl].
  rewrite Hv1. cbn [mbind outcome_bind]. by apply IH.
Qed.

(** ** The search for the midpoint *)

Lemma search_from_spec n d mid p skip :
  (0 ≤ d)%Z →
  match search_from n d mid p skip with
  | Some m => candidate p skip m = true ∧
      ∀ i, candidate p skip i = true → (d ≤ Z.abs (i - mid))%Z → (Z.abs (m - mid) ≤ Z.abs (i - mid))%Z
  | None => ∀ i, candidate p skip i = true → (d ≤ Z.abs (i - mid) < d + Z.of_nat n)%Z → False
  end.
Proof.
  revert d. induction n as [|n IH]; intros d Hd; cbn [search_from]; [lia|].
  destruct (candidate p skip (mid + d)) eqn:Hp; [split; [done|lia]|].
  destruct (candidate p skip (mid - d)) eqn:Hm; [split; [done|lia]|].
  assert (∀ i, candidate p skip i = true → (d ≤ Z.abs (i - mid))%Z → (d + 1 ≤ Z.abs (i - mid))%Z) as Hn.
  { intros i Hi Hdi. destruct (decide (Z.abs (i - mid) = d)) as [He|]; [exfalso|lia].
    assert (i = mid + d ∨ i = mid - d)%Z as [->| ->] by lia; congruence. }
  specialize (IH (d + 1)%Z ltac:(lia)). destruct (search_from _ _ _ _ _) as [m|].
  - destruct IH as [? IH]. split; [done|]. intros i Hi Hdi. apply IH; [done|]. by apply Hn.
  - intros i Hi Hdi. apply (IH i Hi). pose proof (Hn i Hi). lia.
Qed.

(** The interior indices that are not skipped. *)
Lemma candidate_iff p skip i :
  candidate p skip i = true ↔
    (0 < i < zlen p - 1)%Z ∧ ∃ n, p !! Z.to_nat i = Some n ∧ RID n ∉ skip.
Proof.
  unfold candidate, zlen. rewrite !andb_true_iff, !Z.ltb_lt. split.
  - intros [[H1 H2] H3]. split; [lia|]. destruct (p !! Z.to_nat i) as [n|]; [|done].
    exists n. split; [done|]. by apply negb_true_iff, bool_decide_eq_false in H3.
  - intros [[H1 H2] (n & -> & Hn)]. by rewrite bool_decide_false.
Qed.

Lemma candidate_range p skip i :
  candidate p skip i = true → (Z.abs (i - zlen p / 2) < zlen p)%Z.
Proof. intros [Hi _]%candidate_iff. Z.to_euclidean_division_equations. lia. Qed.

Lemma candidate_node p skip i :
  (0 < i < zlen p - 1)%Z → ∃ n, p !! Z.to_nat i = Some n ∧
    (candidate p skip i = true ↔ RID n ∉ skip).
Proof.
  intros Hi. destruct (lookup_lt_is_Some_2 p (Z.to_nat i)) as [n Hn]; [unfold zlen in *; lia|].
  exists n. split; [done|]. rewrite candidate_iff. split.
  - intros (_ & n' & Hn' & Hs). by assert (n' = n) as -> by congruence.
  - intros Hs. split; [done|by exists n].
Qed.

Lemma pick_mid_spec p v :
  3 ≤ length p →
  match pick_mid p (parseSkipSet v) with
  | Some m => candidate p (skip_set v) m = true ∧
      ∀ i, candidate p (skip_set v) i = true → (Z.abs (m - zlen p / 2) ≤ Z.abs (i - zlen p / 2))%Z
  | None => ∀ i, candidate p (skip_set v) i = false
  end.
Proof.
  intros Hl. unfold pick_mid, skip_set. destruct (parseSkipSet v) as [skip|]; cbn [default].
  - pose proof (search_from_spec (length p) 0 (zlen p / 2) p skip ltac:(lia)) as H.
    destruct (search_from _ _ _ _ _) as [m|].
    + destruct H as [? H]. split; [done|]. intros i Hi. apply H; [done|lia].
    + intros i. destruct (candidate p skip i) eqn:Hi; [exfalso|done].
      apply (H i Hi). pose proof (candidate_range p skip i Hi). unfold zlen in *. lia.
  - split; [|lia]. assert (0 < zlen p / 2 < zlen p - 1)%Z as Hr.
    { unfold zlen. Z.to_euclidean_division_equations. lia. }
    destruct (candidate_node p ∅ _ Hr) as (n & _ & Hc). apply Hc, not_elem_of_empty.
Qed.

(** ** Properties *)

(** Check-ins strictly between the ends of the path [g :: l]. *)
Definition interior (g : Z) (l : list Z) (i : nat) (x : Z) : Prop :=
  (g :: l) !! i = Some x ∧ 0 < i < length l.

Lemma candidate_interior p skip g l i :
  map RID p = g :: l →
  candidate p skip i = true ↔ (0 ≤ i)%Z ∧ ∃ x, interior g l (Z.to_nat i) x ∧ x ∉ skip.
Proof.
  intros Hp. assert (zlen p = Z.of_nat (S (length l))) as Hl.
  { unfold zlen. rewrite <- (length_map RID), Hp. done. }
  rewrite candidate_iff, Hl. unfold interior. rewrite <- Hp, list_lookup_fmap. split.
  - intros [Hi (n & Hn & Hs)]. split; [lia|]. exists (RID n). rewrite Hn. split; [|done]. split; [done|lia].
  - intros [Hi (x & [Hx Hr] & Hs)]. split; [lia|]. apply fmap_Some in Hx as (n & Hn & ->). by exists n.
Qed.

(** [Next] halves the search: on the shortest path of primary edges from the
    good to the bad check-in it picks one strictly between the two that is not
    skipped, and none of those is nearer to the middle of the path; it reports
    completion, with the bad check-in, exactly when no such check-in is left. *)
Theorem Next_midpoint plink v g b :
  loadEndpoints v = Ret (g, b) → (0 < g)%Z → (0 < b)%Z →
  match Next plink v with
  | Ret r => ∃ l m, shortest_path plink true ∅ g b l ∧ interior g l m r ∧ (r ∉ skip_set v) ∧
      let middle := (Z.of_nat (S (length l)) / 2)%Z in
      ∀ i x, interior g l i x → x ∉ skip_set v →
        (Z.abs (Z.of_nat m - middle) ≤ Z.abs (Z.of_nat i - middle))%Z
  | Fail (EBisectComplete b') => b' = b ∧ ∃ l, shortest_path plink true ∅ g b l ∧
      ∀ i x, interior g l i x → x ∈ skip_set v
  | Fail (EPath ErrNoPath) => ∀ k, ¬ walk plink true ∅ g k b
  | _ => False
  end.
Proof.
  intros Hends Hg Hb. unfold Next. rewrite Hends. cbn [mbind outcome_bind].
  pose proof (Shortest_ok plink g b true ∅ Hg Hb) as Hs.
  destruct (Shortest plink g b true ∅) as [p|[]| |]; try done.
  destruct Hs as (l & Hp & Hsp). cbn [wrap_err mbind outcome_bind].
  assert (length p = S (length l)) as Hl by (by rewrite <- (length_map RID), Hp).
  pose proof (candidate_interior p (skip_set v) g l) as Hc.
  destruct (Nat.leb_spec (length p) 2) as [H2|H2].
  { split; [done|]. exists l. split; [done|]. intros i x [_ Hi]. lia. }
  pose proof (pick_mid_spec p v H2) as Hm. destruct (pick_mid p (parseSkipSet v)) as [m|].
  - destruct Hm as [Hcm Hnear]. apply (Hc m Hp) in Hcm as (Hm0 & x & Hx & Hsk).
    pose proof Hx as [Hlk _]. rewrite <- Hp, list_lookup_fmap in Hlk.
    apply fmap_Some in Hlk as (n & Hn & ->). unfold index. rewrite Hn. cbn [mbind outcome_bind].
    exists l, (Z.to_nat m). split_and!; [done|done|done|]. cbn zeta. intros i y Hi Hy.
    rewrite Z2Nat.id by done. replace (Z.of_nat (S (length l))) with (zlen p) by (unfold zlen; by rewrite Hl).
    apply Hnear, Hc; [done|]. split; [lia|]. rewrite Nat2Z.id. by exists y.
  - split; [done|]. exists l. split; [done|]. intros i x Hi.
    destruct (decide (x ∈ skip_set v)) as [|Hx]; [done|exfalso].
    assert (candidate p (skip_set v) (Z.of_nat i) = true) as Ht; [|by rewrite Hm in Ht].
    apply Hc; [done|]. split; [lia|]. rewrite Nat2Z.id. by exists x.
Qed.

(** C40. The text in [vvar] implements the session: after any sequence of marks,
    skips and resets, which all succeed, the good and bad check-ins read back
    are the last ones marked, and the skip set read from the log is the set of
    check-ins skipped since the last reset. *)
Theorem session_refines os :
  Forall op_ok os →
  ∃ v, run_ops ∅ os = Ret v ∧
    let s := foldl spec_op (MkSession None None []) os in
    skip_set v = list_to_set (se_skips s) ∧
    loadEndpoints v = match se_good s, se_bad s with
                      | Some g, Some b => Ret (g, b)
                      | _, _ => Fail ENotSet
                      end.
Proof.
  intros Hos. destruct (run_ops_represents ∅ _ os Hos empty_represents) as (v & Hv & Hr).
  exists v. split; [done|]. cbn zeta. set (s := foldl _ _ _) in *.
  split; [by apply skip_set_represents|]. destruct Hr as [R1 R2 [R3 R4] _].
  unfold loadEndpoints, loadVvar. rewrite R1, R2.
  assert (∀ r, int64_range r → fmt_int r ≠ []) as Hne by (intros r Hr; by apply fmt_int_word).
  destruct (se_good s) as [g|]; cbn; [|done]. rewrite (bool_decide_false (fmt_int g = [])) by auto.
  destruct (se_bad s) as [b|]; cbn; [|done]. rewrite (bool_decide_false (fmt_int b = [])) by auto.
  cbn. by rewrite !ParseInt_fmt_int by auto.
Qed.

(** ** Witnesses *)

Definition line5 : list plinkRow :=
  [MkPlink 1 2 true; MkPlink 2 3 true; MkPlink 3 4 true; MkPlink 4 5 true].

Definition marked : vvars :=
  <[bisect_good := str "1"]> (<[bisect_bad := str "5"]> (<[bisect_log := str "1 -5 s3"]> ∅)).

Definition log_of (m : out vvars) : bytes :=
  match m with Ret v => loadVvar v bisect_log | _ => [] end.

Lemma session_refines_witness :
  log_of (run_ops ∅ [OpGood 1; OpBad 5; OpSkip 3]) = str "1 -5 s3" ∧
  ∃ v, run_ops ∅ [OpGood 1; OpBad 5; OpSkip 3] = Ret v ∧ loadEndpoints v = Ret (1, 5)%Z.
Proof.
  split; [vm_compute; reflexivity|].
  destruct (session_refines [OpGood 1; OpBad 5; OpSkip 3]) as (v & H1 & _ & H2).
  { repeat (apply list.Forall_cons_2; [cbn; unfold max_int64; lia|]). apply list.Forall_nil_2. }
  exists v. exact (conj H1 H2).
Defined.

Lemma Next_midpoint_witness :
  Next line5 marked = Ret 4%Z ∧
  ∃ l m, shortest_path line5 true ∅ 1 5 l ∧ interior 1 l m 4 ∧ 4%Z ∉ skip_set marked.
Proof.
  assert (Next line5 marked = Ret 4%Z) as He by (vm_compute; reflexivity).
  pose proof (Next_midpoint line5 marked 1 5 ltac:(vm_compute; reflexivity) ltac:(lia) ltac:(lia)) as H.
  rewrite He in H. destruct H as (l & m & H1 & H2 & H3 & _).
  split; [exact He|]. exists l, m. exact (conj H1 (conj H2 H3)).
Defined.
