(* ===== verification/Db.v ===== *)
(** * The repository database (src/db/schema.go)

    The tables of a repository file beyond those of [Blob]: configuration,
    users, unversioned files, check-in leaves, the queue of unsent artifacts,
    with the statements that fill a new repository.  A table keyed by a UNIQUE
    column is a finite map over that column; a table that a statement may have
    to create first is an option.

    What the SQLite library and its driver do is stated by the class [Sqlite]. *)
From S2P Require Import Prelude GoStrings Hash Zlib Julian Blob.
From stdpp Require Import list gmap sets.

(** ** The SQL engine *)

Class Sqlite := {
  (** What scanning a BLOB column into a [[]byte] gives; drivers differ on whether
      an empty blob is [nil]. *)
  scan_blob : bytes → slice;
  (** [datetime(t,'unixepoch')], NULL outside the years 0 to 9999. *)
  sql_datetime : Z → option bytes;
  (** What scanning a DATETIME column into a string gives; drivers may format it
      anew. *)
  scan_datetime : bytes → bytes;
  (** What [db.ScanJulianDay] makes of a Julian day in a DATETIME or TIMESTAMP
      column; some drivers deliver a [time.Time]. *)
  scan_julian : julian → julian;
  (** [substr(s,i,n)], up to the end of [s] without an [n], and [instr(s,t)]: both
      count characters, from one. *)
  sql_substr : bytes → Z → option Z → bytes;
  sql_instr : bytes → bytes → Z
}.

Class SqliteLaws `{Sqlite} : Prop := {
  scan_blob_bytes : ∀ b, default [] (scan_blob b) = b
}.

(** ** Tables *)

Record configRow := MkConfigRow { c_value : bytes; c_mtime : option Z }.

Record userRow := MkUserRow {
  u_uid : Z; u_pw : bytes; u_cap : bytes; u_cexpire : option bytes; u_info : option bytes }.

(** A row of [unversioned]; [v_hash] is NULL for a tombstone. *)
Record uvRow := MkUVRow {
  v_mtime : Z; v_hash : option bytes; v_sz : Z; v_encoding : Z; v_content : slice }.

(** A Go value of type [any], as it is decoded from JSON, stored in a column or
    scanned from one.  Floats are their 64-bit patterns, a [json.Number] is its
    text, arrays and objects are the JSON text they came from. *)
Inductive value :=
  | VNil
  | VBool (b : bool)
  | VInt (i : Z)
  | VFloat (f : Z)
  | VNumber (s : bytes)
  | VStr (s : bytes)
  | VBytes (b : bytes)
  | VJson (text : bytes).

#[export] Instance value_eq_dec : EqDecision value.
Proof. solve_decision. Defined.

(** [map[string]any] *)
Abbreviation goMap := (gmap bytes value).

(** An index that is absent gives [nil]. *)
Definition row_get (r : goMap) (col : bytes) : value := default VNil (r !! col).

Record ColumnDef := MkColumn { cd_Name : bytes; cd_Type : bytes; cd_PK : bool }.

(** A row of [_sync_schema]. *)
Record schemaRow := MkSchemaRow {
  sr_columns : bytes; sr_conflict : bytes; sr_mtime : Z; sr_cat_hash : option bytes;
  sr_hash_time : Z }.

(** An extension table [x_<name>]: its columns as they were created, whether it
    has an [_owner], and its rows in the order the engine keeps them. *)
Record xRow := MkXRow { xw_vals : goMap; xw_mtime : Z; xw_owner : bytes }.
Record xTable := MkXTable { xt_columns : list ColumnDef; xt_owner : bool; xt_rows : list xRow }.

(** The tables that relate artifacts, filled by crosslinking. *)
Record plinkVal := MkPlinkVal { pk_isprim : bool; pk_mtime : julian; pk_baseid : option Z }.
Record eventRow := MkEvent {
  ev_type : bytes; ev_mtime : julian; ev_tagid : option Z; ev_user : bytes; ev_comment : bytes;
  ev_bgcolor : option bytes }.
Record mlinkRow := MkMlink {
  ml_mid : Z; ml_fid : Z; ml_pmid : option Z; ml_pid : option Z; ml_fnid : Z }.
Record attachRow := MkAttach {
  at_isLatest : bool; at_mtime : julian; at_src : bytes; at_target : bytes; at_filename : bytes;
  at_comment : bytes; at_user : bytes }.
Record forumRow := MkForum {
  fp_froot : Z; fp_fprev : option Z; fp_firt : option Z; fp_fmtime : julian }.

Record links := MkLinks {
  k_tag : gmap bytes Z;                  (* tagname to tagid *)
  k_plink : gmap (Z * Z) plinkVal;       (* keyed by parent and child *)
  k_event : gmap Z eventRow;
  k_filename : gmap bytes Z;             (* name to fnid *)
  k_mlink : list mlinkRow;
  k_cherrypick : gmap (Z * Z) bool;      (* parent and child to isExclude *)
  k_attachment : gmap Z attachRow;
  k_forumpost : gmap Z forumRow;
  k_orphan : gmap Z Z                    (* rid to baseline *)
}.

(** The rows that the schema inserts. *)
Definition initial_tags : gmap bytes Z :=
  list_to_map (zip [str "bgcolor"; str "comment"; str "user"; str "date"; str "hidden"; str "private";
                    str "cluster"; str "branch"; str "closed"; str "parent"; str "note"]
                   [1; 2; 3; 4; 5; 6; 7; 8; 9; 10; 11]%Z).
Definition no_links : links := MkLinks initial_tags ∅ ∅ ∅ [] ∅ ∅ ∅ ∅.

Record db := MkDb {
  d_repo : repo;
  d_config : gmap bytes configRow;
  d_user : gmap bytes userRow;
  d_uv : option (gmap bytes uvRow);
  d_leaf : gset Z;
  d_unsent : gset Z;
  d_schema : option (gmap bytes schemaRow);
  d_x : gmap bytes xTable;
  d_links : links
}.

Definition on_repo (f : repo → repo) (d : db) : db :=
  MkDb (f (d_repo d)) (d_config d) (d_user d) (d_uv d) (d_leaf d) (d_unsent d) (d_schema d) (d_x d)
    (d_links d).
Definition on_config (f : gmap bytes configRow → gmap bytes configRow) (d : db) : db :=
  MkDb (d_repo d) (f (d_config d)) (d_user d) (d_uv d) (d_leaf d) (d_unsent d) (d_schema d) (d_x d)
    (d_links d).
Definition on_user (f : gmap bytes userRow → gmap bytes userRow) (d : db) : db :=
  MkDb (d_repo d) (d_config d) (f (d_user d)) (d_uv d) (d_leaf d) (d_unsent d) (d_schema d) (d_x d)
    (d_links d).
Definition on_uv (f : option (gmap bytes uvRow) → option (gmap bytes uvRow)) (d : db) : db :=
  MkDb (d_repo d) (d_config d) (d_user d) (f (d_uv d)) (d_leaf d) (d_unsent d) (d_schema d) (d_x d)
    (d_links d).
Definition on_unsent (f : gset Z → gset Z) (d : db) : db :=
  MkDb (d_repo d) (d_config d) (d_user d) (d_uv d) (d_leaf d) (f (d_unsent d)) (d_schema d) (d_x d)
    (d_links d).
Definition on_schema (f : option (gmap bytes schemaRow) → option (gmap bytes schemaRow)) (d : db) : db :=
  MkDb (d_repo d) (d_config d) (d_user d) (d_uv d) (d_leaf d) (d_unsent d) (f (d_schema d)) (d_x d)
    (d_links d).
Definition on_x (f : gmap bytes xTable → gmap bytes xTable) (d : db) : db :=
  MkDb (d_repo d) (d_config d) (d_user d) (d_uv d) (d_leaf d) (d_unsent d) (d_schema d) (f (d_x d))
    (d_links d).

Definition on_leaf (f : gset Z → gset Z) (d : db) : db :=
  MkDb (d_repo d) (d_config d) (d_user d) (d_uv d) (f (d_leaf d)) (d_unsent d) (d_schema d) (d_x d)
    (d_links d).
Definition on_links (f : links → links) (d : db) : db :=
  MkDb (d_repo d) (d_config d) (d_user d) (d_uv d) (d_leaf d) (d_unsent d) (d_schema d) (d_x d)
    (f (d_links d)).

Definition on_tag (f : gmap bytes Z → gmap bytes Z) : db → db :=
  on_links (λ k, MkLinks (f (k_tag k)) (k_plink k) (k_event k) (k_filename k) (k_mlink k)
    (k_cherrypick k) (k_attachment k) (k_forumpost k) (k_orphan k)).
Definition on_plink (f : gmap (Z * Z) plinkVal → gmap (Z * Z) plinkVal) : db → db :=
  on_links (λ k, MkLinks (k_tag k) (f (k_plink k)) (k_event k) (k_filename k) (k_mlink k)
    (k_cherrypick k) (k_attachment k) (k_forumpost k) (k_orphan k)).
Definition on_event (f : gmap Z eventRow → gmap Z eventRow) : db → db :=
  on_links (λ k, MkLinks (k_tag k) (k_plink k) (f (k_event k)) (k_filename k) (k_mlink k)
    (k_cherrypick k) (k_attachment k) (k_forumpost k) (k_orphan k)).
Definition on_filename (f : gmap bytes Z → gmap bytes Z) : db → db :=
  on_links (λ k, MkLinks (k_tag k) (k_plink k) (k_event k) (f (k_filename k)) (k_mlink k)
    (k_cherrypick k) (k_attachment k) (k_forumpost k) (k_orphan k)).
Definition on_mlink (f : list mlinkRow → list mlinkRow) : db → db :=
  on_links (λ k, MkLinks (k_tag k) (k_plink k) (k_event k) (k_filename k) (f (k_mlink k))
    (k_cherrypick k) (k_attachment k) (k_forumpost k) (k_orphan k)).
Definition on_cherrypick (f : gmap (Z * Z) bool → gmap (Z * Z) bool) : db → db :=
  on_links (λ k, MkLinks (k_tag k) (k_plink k) (k_event k) (k_filename k) (k_mlink k)
    (f (k_cherrypick k)) (k_attachment k) (k_forumpost k) (k_orphan k)).
Definition on_attachment (f : gmap Z attachRow → gmap Z attachRow) : db → db :=
  on_links (λ k, MkLinks (k_tag k) (k_plink k) (k_event k) (k_filename k) (k_mlink k)
    (k_cherrypick k) (f (k_attachment k)) (k_forumpost k) (k_orphan k)).
Definition on_forumpost (f : gmap Z forumRow → gmap Z forumRow) : db → db :=
  on_links (λ k, MkLinks (k_tag k) (k_plink k) (k_event k) (k_filename k) (k_mlink k)
    (k_cherrypick k) (k_attachment k) (f (k_forumpost k)) (k_orphan k)).
Definition on_orphan (f : gmap Z Z → gmap Z Z) : db → db :=
  on_links (λ k, MkLinks (k_tag k) (k_plink k) (k_event k) (k_filename k) (k_mlink k)
    (k_cherrypick k) (k_attachment k) (k_forumpost k) (f (k_orphan k))).

(** The errors of the components over the database. *)
Inductive db_error :=
  | EBlob (e : blob_error)
  | ENoTable
  | EConstraint
  | ENoRows
  | EScan
  | EZlib
  | EInvalid (what : bytes)
  | EAuthFailed
  | EUUIDMismatch
  | EDeltaSourceMissing (src : bytes)
  | ERemote (message : bytes)
  | ERounds
  | EIterations.

Abbreviation out := (outcome db_error).

(** A call that is not in a transaction leaves what it did when it fails. *)
Abbreviation kept := (outcome (db * db_error)).

(** A call that fails without a change, and the error of a transaction. *)
Definition unchanged {A} (d : db) (m : out A) : kept A := wrap_err (λ e, (d, e)) m.
Definition rollback {A} (m : kept A) : out A := wrap_err snd m.

(** The state that is left, with a result or with an error, is related to [d]. *)
Definition keeps (R : relation db) (d : db) (m : kept db) : Prop :=
  match m with Ret d' | Fail (d', _) => R d d' | _ => True end.

Lemma keeps_ret (R : relation db) d d' : R d d' → keeps R d (Ret d').
Proof. done. Qed.

Lemma keeps_trans (R : relation db) `{!Transitive R} d d' m : R d d' → keeps R d' m → keeps R d m.
Proof. intros H. destruct m as [x|[x e]| |]; cbn; [by etrans|by etrans|done..]. Qed.

Lemma keeps_bind (R : relation db) `{!Transitive R} d m f :
  keeps R d m → (∀ d', m = Ret d' → R d d' → keeps R d' (f d')) → keeps R d (m ≫= f).
Proof.
  destruct m as [x|[x e]| |]; cbn; [|done..]. intros H Hf. eapply (keeps_trans R); [exact H|by apply Hf].
Qed.

(** A call that fails without a change. *)
Lemma keeps_unchanged (R : relation db) `{!Reflexive R} {A} d (m : out A) (f : A → kept db) :
  (∀ a, m = Ret a → keeps R d (f a)) → keeps R d (unchanged d m ≫= f).
Proof. destruct m; cbn; auto. Qed.

Lemma keeps_rollback (R : relation db) `{!Reflexive R} d m :
  (∀ d', m = Ret d' → R d d') → keeps R d (unchanged d (rollback m)).
Proof. destruct m as [x|[x e]| |]; cbn; auto. Qed.

(** The text of an error, as it is sent to a peer. *)
Class ErrorText := { err_text : db_error → bytes }.

(** The order of the rows of a SELECT without ORDER BY, and of a [range] over a
    map. *)
Class Unordered := { any_order : ∀ {A}, list A → list A }.

Class UnorderedLaws `{Unordered} : Prop := {
  any_order_perm : ∀ A (l : list A), any_order l ≡ₚ l
}.

(** A call into [Blob] or [Content] on the repository of a database. *)
Definition in_repo {A} (m : outcome blob_error A) : out A := wrap_err EBlob m.

(** [SELECT value FROM config WHERE name=?] *)
Definition config_value (d : db) (name : bytes) : option bytes := c_value <$> d_config d !! name.

(** The value scanned into a string variable that is left empty when the query
    fails. *)
Definition config_or_empty (d : db) (name : bytes) : bytes := default [] (config_value d name).

(** ** A new repository *)

Definition isProjectCodeHex (s : bytes) : bool :=
  (length s =? 40) && forallb is_hex_lower s.

Definition next_uid (t : gmap bytes userRow) : Z :=
  foldr Z.max 0%Z (map (λ p, u_uid p.2) (map_to_list t)) + 1.

(** [INSERT INTO user(login, ...)]; the login is UNIQUE. *)
Definition insert_user (d : db) (login pw cap : bytes) (info : option bytes) : out db :=
  match d_user d !! login with
  | Some _ => Fail EConstraint
  | None => Ret (on_user <[login := MkUserRow (next_uid (d_user d)) pw cap None info]> d)
  end.

Definition SeedUser (d : db) (login : bytes) : out db :=
  if bool_decide (login = []) then Panic else
  if bool_decide (is_Some (d_user d !! login)) ||
     existsb (λ p, u_uid p.2 =? 1)%Z (map_to_list (d_user d)) then Ret d else
  Ret (on_user <[login := MkUserRow 1 [] (str "s") None (Some [])]> d).

Definition SeedNobody (d : db) (caps : bytes) : out db :=
  match insert_user d (str "nobody") [] caps (Some []) with
  | Fail _ => Ret d
  | m => m
  end.

(** [INSERT INTO config(name, value, mtime)]; the name is the primary key. *)
Definition insert_config (now : Z) (d : db) (nv : bytes * bytes) : out db :=
  match d_config d !! nv.1 with
  | Some _ => Fail EConstraint
  | None => Ret (on_config <[nv.1 := MkConfigRow nv.2 (Some now)]> d)
  end.

Fixpoint insert_configs (now : Z) (d : db) (l : list (bytes * bytes)) : out db :=
  match l with
  | [] => Ret d
  | nv :: l => d ← insert_config now d nv; insert_configs now d l
  end.

(** [rnd] is what the random source delivers, twenty bytes at a time; the
    failure of the source is not modelled. *)
Definition SeedConfig (now : Z) (rnd1 rnd2 : bytes) (d : db) (projectCode : bytes) : out db :=
  projServer ← (if bool_decide (projectCode = []) then Ret (hex_encode rnd1, hex_encode rnd2)
                else if negb (isProjectCodeHex projectCode) then Fail (EInvalid projectCode)
                else Ret (projectCode, hex_encode rnd1));
  insert_configs now d
    [(str "project-code", projServer.1); (str "server-code", projServer.2);
     (str "aux-schema", str "2015-01-24"); (str "content-schema", str "2")].

(** The tables after [CreateRepoSchema]. *)
Definition CreateRepoSchema : db := MkDb empty_repo ∅ ∅ None ∅ ∅ None ∅ no_links.

(** What [repo.CreateWithEnv] leaves in the file it creates. *)
Definition CreateWithEnv (now : Z) (rnd1 rnd2 : bytes) (user projectCode : bytes) : out db :=
  d ← SeedUser CreateRepoSchema user;
  d ← SeedNobody d (str "cghijknorswy");
  SeedConfig now rnd1 rnd2 d projectCode.

(** A new repository has the configuration it was asked for, or nothing. *)
Lemma SeedConfig_new now r1 r2 projectCode :
  isProjectCodeHex projectCode = true →
  ∃ d, SeedConfig now r1 r2 CreateRepoSchema projectCode = Ret d ∧
       config_value d (str "project-code") = Some projectCode ∧
       config_value d (str "server-code") = Some (hex_encode r1).
Proof.
  intros Hp. unfold SeedConfig. rewrite Hp. rewrite bool_decide_false by (by intros ->).
  eexists. split; [reflexivity|]. by split.
Qed.

(** [substr] and [instr] on ASCII text. *)
Definition ascii_substr (s : bytes) (i : Z) (n : option Z) : bytes :=
  let s := drop (Z.to_nat (i - 1)) s in match n with Some n => take (Z.to_nat n) s | None => s end.
Fixpoint ascii_instr (s t : bytes) : Z :=
  if HasPrefix s t then 1%Z else
  match s with
  | [] => 0%Z
  | _ :: s => let i := ascii_instr s t in if (i =? 0)%Z then 0%Z else (i + 1)%Z
  end.

(** A driver that keeps empty blobs and knows one date, for the witnesses. *)
Definition test_sqlite : Sqlite := {|
  scan_blob b := Some b;
  sql_datetime t := if (t =? 0)%Z then Some (str "1970-01-01 00:00:00")
                    else Some (str "2026-01-01 00:00:00");
  scan_datetime s := s;
  scan_julian j := j;
  sql_substr := ascii_substr;
  sql_instr := ascii_instr
|}.

Lemma test_sqlite_laws : @SqliteLaws test_sqlite.
Proof. by split. Qed.

(** Rows in the order they are kept, and an error text that says nothing. *)
Definition test_order : Unordered := {| any_order _ l := l |}.
Definition test_error_text : ErrorText := {| err_text _ := str "failed" |}.

Lemma test_order_laws : @UnorderedLaws test_order.
Proof. by split. Qed.
