(* ===== verification/Uv.v ===== *)
(** * Unversioned files (src/internal/uv)

    Files kept outside of the check-in history, in the table [unversioned]: the
    newest write of a name wins, and a deletion leaves a tombstone, a row whose
    hash is NULL.  Two repositories compare a file with [Status] and all their
    files with [ContentHash], which is cached in the [config] table. *)
From S2P Require Import Prelude GoStrings Hash Zlib Blob Db.
From stdpp Require Import list gmap sets.

Record Entry := MkEntry { e_Name : bytes; e_MTime : Z; e_Hash : bytes; e_Size : Z }.

(** ** Comparison (status.go) *)

Definition cmpStr (a b : bytes) : Z :=
  if str_ltb a b then -1 else if str_ltb b a then 1 else 0.

Definition dash : bytes := str "-".

Definition Status (localMtime : Z) (localHash : bytes) (remoteMtime : Z) (remoteHash : bytes) : Z :=
  if (localMtime =? 0)%Z then 0%Z else
  let mtimeCmp := (if localMtime <? remoteMtime then -1
                   else if localMtime >? remoteMtime then 1 else 0)%Z in
  let hashCmp := cmpStr localHash remoteHash in
  if (hashCmp =? 0)%Z then (3 + mtimeCmp)%Z else
  if (mtimeCmp =? 0)%Z && bool_decide (localHash = dash) then 5%Z else
  if (mtimeCmp =? 0)%Z && bool_decide (remoteHash = dash) then 1%Z else
  if ((mtimeCmp <? 0) || ((mtimeCmp =? 0) && (hashCmp <? 0)))%Z then 1%Z else 5%Z.

(** ** The table (uv.go) *)

Definition EnsureSchema (d : db) : db := on_uv (λ t, Some (default ∅ t)) d.

Definition uv_hash_key : bytes := str "uv-hash".

Definition InvalidateHash (d : db) : db := on_config (delete uv_hash_key) d.

(** A statement on [unversioned]; it fails when the table does not exist. *)
Definition uv_exec (f : gmap bytes uvRow → gmap bytes uvRow) (d : db) : out db :=
  match d_uv d with
  | None => Fail ENoTable
  | Some t => Ret (on_uv (λ _, Some (f t)) d)
  end.

Definition sha1_reference : bytes := str "0000000000000000000000000000000000000000".

(** The hash policy of a repository follows its project code. *)
Definition referenceHash (d : db) : bytes :=
  let projCode := config_or_empty d (str "project-code") in
  if 40 <? length projCode then projCode else sha1_reference.

Section uv.
Context {codec : Zlib} {sqlite : Sqlite} {sha3 : Sha3}.

(** The encoding and the bytes [Write] stores: compressed if that saves a fifth. *)
Definition encode_content (content : bytes) : Z * bytes :=
  let compressed := deflate content in
  if (zlen compressed <=? zlen content * 4 / 5)%Z then (1%Z, compressed) else (0%Z, content).

Definition Write (d : db) (name : bytes) (content : slice) (mtime : Z) : out db :=
  if bool_decide (name = []) then Panic else
  match content with
  | None => Panic
  | Some content =>
    contentHash ← Hash.ContentHash (Some content) (referenceHash d);
    let '(encoding, stored) := encode_content content in
    d ← uv_exec <[name := MkUVRow mtime (Some contentHash) (zlen content) encoding (Some stored)]> d;
    Ret (InvalidateHash d)
  end.

Definition tombstone (mtime : Z) : uvRow := MkUVRow mtime None 0 0 None.

(** The existing row is overwritten, or a new one inserted; all columns but the
    key are set either way. *)
Definition Delete (d : db) (name : bytes) (mtime : Z) : out db :=
  if bool_decide (name = []) then Panic else
  d ← uv_exec <[name := tombstone mtime]> d;
  Ret (InvalidateHash d).

Definition Read (d : db) (name : bytes) : out (slice * Z * bytes) :=
  match d_uv d with
  | None => Fail ENoTable
  | Some t =>
    match t !! name with
    | None => Ret (None, 0%Z, [])
    | Some row =>
      match v_hash row with
      | None => Ret (None, v_mtime row, [])
      | Some h =>
        let stored := match v_content row with None => None | Some c => scan_blob c end in
        match stored with
        | Some z =>
          if (v_encoding row =? 1)%Z then
            match inflate z with
            | Some data => Ret (Some data, v_mtime row, h)
            | None => Fail EZlib
            end
          else Ret (stored, v_mtime row, h)
        | None => Ret (None, v_mtime row, h)
        end
      end
    end
  end.

(** Rows in the order of their names. *)
Definition by_name (t : gmap bytes uvRow) : list (bytes * uvRow) :=
  sort_slice (λ a b, str_ltb a.1 b.1) (map_to_list t).

Definition entry_of (p : bytes * uvRow) : Entry :=
  MkEntry p.1 (v_mtime p.2) (default [] (v_hash p.2)) (v_sz p.2).

Definition List_ (d : db) : out (list Entry) :=
  match d_uv d with
  | None => Fail ENoTable
  | Some t => Ret (map entry_of (by_name t))
  end.

(** A line of the catalog, for a file that is not deleted. *)
Definition catalog_line (p : bytes * uvRow) : option (bytes * option bytes * bytes) :=
  match v_hash p.2 with
  | Some h => Some (p.1, sql_datetime (v_mtime p.2), h)
  | None => None
  end.

Fixpoint catalog_lines (l : list (bytes * option bytes * bytes)) (h : bytes) : out bytes :=
  match l with
  | [] => Ret h
  | (name, Some dt, fileHash) :: l =>
    catalog_lines l (h ++ name ++ [SP] ++ dt ++ [SP] ++ fileHash ++ [NL])
  | (_, None, _) :: _ => Fail EScan
  end.

Definition ContentHash (now : Z) (d : db) : out (db * bytes) :=
  let cached := config_or_empty d uv_hash_key in
  if negb (bool_decide (cached = [])) then Ret (d, cached) else
  match d_uv d with
  | None => Fail ENoTable
  | Some t =>
    h ← catalog_lines (omap catalog_line (by_name t)) [];
    let result := sha1_hex h in
    Ret (on_config <[uv_hash_key := MkConfigRow result (Some now)]> d, result)
  end.
End uv.

(** The other statements that sync code runs on the table, always followed by
    [InvalidateHash]. *)
Definition SetMTime (d : db) (name : bytes) (mtime : Z) : out db :=
  d ← uv_exec (alter (λ r, MkUVRow mtime (v_hash r) (v_sz r) (v_encoding r) (v_content r)) name) d;
  Ret (InvalidateHash d).

Definition DropRow (d : db) (name : bytes) : out db :=
  d ← uv_exec (delete name) d; Ret (InvalidateHash d).

(** ** Specification *)

(** What a replica knows of a file: when it was written, and its hash, or [dash]
    for a deletion.  The later version wins; at equal times a deletion wins, then
    the larger hash. *)
Definition version : Type := Z * bytes.

Definition older (a b : version) : bool :=
  ((a.1 <? b.1)%Z ||
   ((a.1 =? b.1)%Z && negb (bool_decide (a.2 = b.2)) && negb (bool_decide (a.2 = dash)) &&
    (bool_decide (b.2 = dash) || str_ltb a.2 b.2))).

(** The catalog of a table, as text. *)
Definition catalog `{Sqlite} (t : gmap bytes uvRow) : out bytes :=
  catalog_lines (omap catalog_line (by_name t)) [].

(** An operation on the files, or one on other tables. *)
Inductive uv_step `{Zlib} `{Sqlite} `{Sha3} (d : db) : db → Prop :=
  | uv_ensure : uv_step d (EnsureSchema d)
  | uv_write name content mtime d' :
      Write d name content mtime = Ret d' → uv_step d d'
  | uv_delete name mtime d' : Delete d name mtime = Ret d' → uv_step d d'
  | uv_mtime name mtime d' : SetMTime d name mtime = Ret d' → uv_step d d'
  | uv_drop name d' : DropRow d name = Ret d' → uv_step d d'
  | uv_hash now d' h : ContentHash now d = Ret (d', h) → uv_step d d'
  | uv_other d' : d_uv d' = d_uv d → d_config d' !! uv_hash_key = d_config d !! uv_hash_key →
      uv_step d d'.

(** ** Lemmas *)

Lemma cmpStr_zero a b : cmpStr a b = 0%Z ↔ a = b.
Proof.
  unfold cmpStr. split.
  - destruct (str_ltb a b) eqn:E1; [done|]. destruct (str_ltb b a) eqn:E2; [done|].
    intros _. by apply str_ltb_total.
  - intros ->. by rewrite !str_ltb_irrefl.
Qed.

Lemma cmpStr_neg a b : (cmpStr a b <? 0)%Z = str_ltb a b.
Proof. unfold cmpStr. destruct (str_ltb a b), (str_ltb b a); done. Qed.

(** The three outcomes of a comparison, by the order of the versions. *)
Lemma Status_cases lm lh rm rh : lm ≠ 0%Z →
  (older (lm, lh) (rm, rh) = true ∧ Status lm lh rm rh = if bool_decide (lh = rh) then 2%Z else 1%Z) ∨
  ((lm, lh) = (rm, rh) ∧ Status lm lh rm rh = 3%Z) ∨
  (older (rm, rh) (lm, lh) = true ∧ Status lm lh rm rh = if bool_decide (lh = rh) then 4%Z else 5%Z).
Proof.
  intros Hl. unfold Status, older. cbn [fst snd]. rewrite (proj2 (Z.eqb_neq _ _) Hl).
  destruct (decide (lh = rh)) as [->|Hne].
  - rewrite (proj2 (cmpStr_zero rh rh) eq_refl), Z.eqb_refl. rewrite bool_decide_true by done.
    destruct (Z.ltb_spec lm rm), (Z.gtb_spec lm rm), (Z.ltb_spec rm lm); try lia; auto.
    right. left. split; [f_equal; lia|done].
  - assert (cmpStr lh rh ≠ 0%Z) as Hc by by rewrite cmpStr_zero.
    rewrite (proj2 (Z.eqb_neq _ _) Hc), cmpStr_neg.
    rewrite !(bool_decide_false (lh = rh)), !(bool_decide_false (rh = lh)) by congruence.
    destruct (Z.ltb_spec lm rm), (Z.gtb_spec lm rm), (Z.ltb_spec rm lm); try lia; cbn; auto.
    replace (lm =? rm)%Z with true by lia. replace (rm =? lm)%Z with true by lia. cbn.
    repeat case_bool_decide; cbn; subst; auto; try done.
    destruct (str_ltb lh rh) eqn:E1; cbn; [by auto|]. destruct (str_ltb rh lh) eqn:E2; cbn; [auto|].
    by destruct Hne; apply str_ltb_total.
Qed.

Lemma older_asym a b : older a b = true → older b a = false.
Proof.
  destruct a as [m h], b as [m' h']. unfold older. cbn [fst snd].
  destruct (Z.ltb_spec m m'), (Z.ltb_spec m' m), (Z.eqb_spec m m'), (Z.eqb_spec m' m);
    try lia; cbn; try done.
  repeat case_bool_decide; cbn; try congruence. apply str_ltb_asym.
Qed.

Lemma older_irrefl a : older a a = false.
Proof. destruct (older a a) eqn:E; [|done]. by rewrite <- E, (older_asym a a). Qed.

Lemma older_trans a b c : older a b = true → older b c = true → older a c = true.
Proof.
  destruct a as [m1 h1], b as [m2 h2], c as [m3 h3]. unfold older. cbn [fst snd].
  destruct (Z.ltb_spec m1 m2), (Z.ltb_spec m2 m3), (Z.ltb_spec m1 m3), (Z.eqb_spec m1 m2),
    (Z.eqb_spec m2 m3), (Z.eqb_spec m1 m3); try lia; cbn; try done.
  repeat case_bool_decide; cbn; subst; try congruence; intros E1 E2;
    try (by rewrite ?str_ltb_irrefl, ?(str_ltb_asym _ _ E1) in E2).
  destruct (str_ltb h1 h3) eqn:E3; [done|].
  pose proof (str_ltb_negtrans h1 h3 h2 E3 (str_ltb_asym _ _ E2)). congruence.
Qed.

Lemma uv_exec_ret f d d' : uv_exec f d = Ret d' →
  ∃ t, d_uv d = Some t ∧ d_uv d' = Some (f t) ∧ d_config d' = d_config d.
Proof.
  unfold uv_exec. destruct (d_uv d) as [t|] eqn:E; [|done]. intros [= <-]. by exists t.
Qed.

Section facts.
Context {codec : Zlib} {sqlite : Sqlite} {sha3 : Sha3}.

(** The cached hash, when there is one, is that of the files. *)
Definition cache_fresh (d : db) : Prop :=
  ∀ h, config_or_empty d uv_hash_key = h → h ≠ [] →
    ∃ t text, d_uv d = Some t ∧ catalog t = Ret text ∧ h = sha1_hex text.

Lemma invalidated_fresh d : cache_fresh (InvalidateHash d).
Proof.
  intros h Hh Hne. destruct Hne. rewrite <- Hh. unfold config_or_empty, config_value, InvalidateHash.
  cbn. by rewrite lookup_delete_eq.
Qed.

Lemma ContentHash_ret now d d' h : ContentHash now d = Ret (d', h) → cache_fresh d →
  (∃ t text, d_uv d = Some t ∧ catalog t = Ret text ∧ h = sha1_hex text) ∧ cache_fresh d'.
Proof.
  unfold ContentHash. intros H Hd. case_bool_decide as Hc; cbn in H.
  - destruct (d_uv d) as [t|] eqn:Et; [|done].
    apply bind_ret_inv in H as (text & Htext & H). injection H as <- <-.
    split; [by exists t, text|]. intros h Hh _. exists t, text. split; [done|]. split; [done|].
    rewrite <- Hh. unfold config_or_empty, config_value. cbn. by rewrite lookup_insert_eq.
  - injection H as <- <-. split; [by apply Hd|done].
Qed.

Lemma uv_step_fresh d d' : uv_step d d' → cache_fresh d → cache_fresh d'.
Proof.
  intros [| | | | | |? Huv Hcfg] Hd.
  - intros h Hh Hne. destruct (Hd h Hh Hne) as (t & text & Ht & H). exists t, text.
    split; [|done]. cbn. by rewrite Ht.
  - revert H. unfold Write. case_bool_decide; [done|]. destruct content as [c|]; [|done].
    intros H'. inv_bind. destruct (encode_content c). inv_bind. apply invalidated_fresh.
  - revert H. unfold Delete. case_bool_decide; [done|]. intros H'. inv_bind. apply invalidated_fresh.
  - unfold SetMTime in H. inv_bind. apply invalidated_fresh.
  - unfold DropRow in H. inv_bind. apply invalidated_fresh.
  - by apply (ContentHash_ret _ _ _ _ H Hd).
  - intros h Hh Hne. destruct (Hd h) as (t & text & H); [|done|].
    + rewrite <- Hh. unfold config_or_empty, config_value. by rewrite Hcfg.
    + exists t, text. by rewrite Huv.
Qed.

Lemma reachable_fresh d : rtc (uv_step) CreateRepoSchema d → cache_fresh d.
Proof.
  intros H. assert (cache_fresh CreateRepoSchema) as H0 by (intros h Hh Hne; by destruct Hne).
  revert H0. induction H as [|d1 d2 d3 Hs _ IH]; [done|]. eauto using uv_step_fresh.
Qed.

Lemma encode_decode {zlaws : ZlibLaws} {slaws : SqliteLaws} content encoding stored :
  encode_content content = (encoding, stored) →
  ∃ z, scan_blob stored = z ∧
    (if (encoding =? 1)%Z then ∃ z', z = Some z' ∧ inflate z' = Some content else default [] z = content) ∧
    (encoding = 0 ∨ encoding = 1)%Z.
Proof.
  unfold encode_content. destruct (_ <=? _)%Z; intros [= <- <-]; eexists; (split; [reflexivity|]); cbn.
  - pose proof (scan_blob_bytes (deflate content)) as Hs. split; [|by right].
    destruct (scan_blob (deflate content)) as [z|]; cbn in Hs.
    + exists z. by rewrite Hs, inflate_deflate.
    + pose proof (deflate_head content) as Hh. by rewrite <- Hs in Hh.
  - split; [apply scan_blob_bytes|by left].
Qed.
End facts.

(** ** Properties *)

(** Two replicas that know a file compare their versions consistently: the
    answer is 3 exactly for equal versions, 0 to 2 (pull) exactly if the local
    version is older, 4 or 5 (push) exactly if it is newer, in a strict total
    order on versions, so at most one side pulls. *)
Theorem Status_order lm lh rm rh (Hl : lm ≠ 0%Z) :
  ((Status lm lh rm rh ≤ 2)%Z ↔ older (lm, lh) (rm, rh) = true) ∧
  (Status lm lh rm rh = 3%Z ↔ (lm, lh) = (rm, rh)) ∧
  ((4 ≤ Status lm lh rm rh)%Z ↔ older (rm, rh) (lm, lh) = true) ∧
  (rm ≠ 0 → Status lm lh rm rh + Status rm rh lm lh = 6)%Z.
Proof.
  pose proof (Status_cases lm lh rm rh Hl) as Hc. pose proof (Status_cases rm rh lm lh) as Hr.
  destruct Hc as [[Ho Hs]|[[[= -> ->] Hs]|[Ho Hs]]]; rewrite Hs.
  - rewrite Ho, (older_asym _ _ Ho). split; [|split; [|split]].
    + split; [done|]. intros _. destruct (bool_decide (lh = rh)); lia.
    + split; [destruct (bool_decide (lh = rh)); lia|]. intros [= -> ->]. by rewrite older_irrefl in Ho.
    + split; [destruct (bool_decide (lh = rh)); lia|done].
    + intros Hrm. destruct (Hr Hrm) as [[Ho' _]|[[[= -> ->] _]|[_ ->]]].
      * by rewrite (older_asym _ _ Ho) in Ho'.
      * by rewrite older_irrefl in Ho.
      * clear Hr; repeat case_bool_decide; lia || congruence.
  - rewrite older_irrefl. split; [split; [lia|done]|]. split; [done|]. split; [split; [lia|done]|]. intros _. lia.
  - rewrite Ho, (older_asym _ _ Ho). split; [|split; [|split]].
    + split; [destruct (bool_decide (lh = rh)); lia|done].
    + split; [destruct (bool_decide (lh = rh)); lia|]. intros [= -> ->]. by rewrite older_irrefl in Ho.
    + split; [done|]. intros _. destruct (bool_decide (lh = rh)); lia.
    + intros Hrm. destruct (Hr Hrm) as [[_ ->]|[[[= -> ->] _]|[Ho' _]]].
      * clear Hr; repeat case_bool_decide; lia || congruence.
      * by rewrite older_irrefl in Ho.
      * by rewrite (older_asym _ _ Ho) in Ho'.
Qed.

(** Over every sequence of operations, the catalog hash is the SHA-1 of the
    catalog of the files that are there and not deleted: the cached value is
    never out of date. *)
Theorem ContentHash_current {codec : Zlib} {sqlite : Sqlite} {sha3 : Sha3} now d
    (Hd : rtc (uv_step) CreateRepoSchema d) :
  snd <$> ContentHash now d =
  match d_uv d with None => Fail ENoTable | Some t => sha1_hex <$> catalog t end.
Proof.
  apply reachable_fresh in Hd. unfold ContentHash. case_bool_decide as Hc; cbn.
  - destruct (d_uv d) as [t|]; [|done]. unfold catalog. by destruct (catalog_lines _ _).
  - destruct (Hd _ eq_refl Hc) as (t & text & Ht & Htext & Hh). rewrite Ht, Htext. cbn [fmap outcome_fmap].
    by rewrite <- Hh.
Qed.

(** A file that was written reads back with its content, its time and its hash
    under the repository's policy; the other files are untouched. *)
Theorem Write_Read {codec : Zlib} {zlaws : ZlibLaws} {sqlite : Sqlite} {slaws : SqliteLaws}
    {sha3 : Sha3} d name content mtime d' (Hw : Write d name (Some content) mtime = Ret d') :
  (∃ s h, Read d' name = Ret (s, mtime, h) ∧ default [] s = content ∧
     Hash.ContentHash (E:=db_error) (Some content) (referenceHash d) = Ret h) ∧
  ∀ other, other ≠ name → Read d' other = Read d other.
Proof.
  unfold Write in Hw. case_bool_decide; [done|]. inv_bind. rename a into h.
  destruct (encode_content content) as [encoding stored] eqn:Eenc. inv_bind.
  apply uv_exec_ret in Ha0 as (t & Ht & Ht' & _).
  destruct (encode_decode _ _ _ Eenc) as (z & Hz & Hdec & Henc).
  unfold Read, InvalidateHash. cbn [d_uv on_config]. rewrite Ht'. split.
  - rewrite lookup_insert_eq. cbn. rewrite Hz. destruct Henc as [He|He]; rewrite He in Hdec |- *; cbn in *.
    + exists z, h. by destruct z.
    + destruct Hdec as (z' & Hz' & Hinf). rewrite Hz'. cbn. rewrite Hinf. by exists (Some content), h.
  - intros other Ho. rewrite Ht. by rewrite lookup_insert_ne.
Qed.

(** ** Concrete runs *)

#[local] Existing Instance stored.
#[local] Existing Instance stored_laws.
#[local] Existing Instance test_sqlite.
#[local] Existing Instance test_sqlite_laws.
#[local] Existing Instance test_sha3.

Definition db_of (m : out db) : db := match m with Ret d => d | _ => CreateRepoSchema end.

Definition db_w : db := db_of (Write (EnsureSchema CreateRepoSchema) (str "a.txt") (Some text_a) 7).
Definition after_hash (now : Z) (d : db) : db :=
  match ContentHash now d with Ret (d, _) => d | _ => d end.

Lemma uv_step_hash now d : uv_step d (after_hash now d).
Proof.
  unfold after_hash. destruct (ContentHash now d) as [[d' h]| | |] eqn:E; [by eapply uv_hash|..];
    by apply uv_other.
Qed.

Definition db_h : db := after_hash 9 db_w.

Lemma Status_order_witness :
  5%Z ≠ 0%Z ∧ ((Status 5 (str "aa") 5 (str "ab") ≤ 2)%Z ↔ older (5%Z, str "aa") (5%Z, str "ab") = true).
Proof. split; [done|]. apply (Status_order 5 (str "aa") 5 (str "ab")). done. Defined.

Lemma ContentHash_current_witness :
  snd <$> ContentHash 10 db_h =
  match d_uv db_h with None => Fail ENoTable | Some t => sha1_hex <$> catalog t end.
Proof.
  apply ContentHash_current.
  apply rtc_l with (EnsureSchema CreateRepoSchema); [apply uv_ensure|].
  apply rtc_l with db_w; [by apply (uv_write _ (str "a.txt") (Some text_a) 7)|].
  apply rtc_once, uv_step_hash.
Defined.

Lemma Write_Read_witness :
  (∃ s h, Read db_w (str "a.txt") = Ret (s, 7%Z, h) ∧ default [] s = text_a ∧
     Hash.ContentHash (E:=db_error) (Some text_a) (referenceHash (EnsureSchema CreateRepoSchema)) = Ret h) ∧
  ∀ other, other ≠ str "a.txt" → Read db_w other = Read (EnsureSchema CreateRepoSchema) other.
Proof.
  apply (Write_Read (EnsureSchema CreateRepoSchema) (str "a.txt") text_a 7 db_w). reflexivity.
Defined.

(** A tombstone is read with an empty hash, while the comparison looks for the
    deletion marker ["-"]: at equal times a local deletion loses against a
    remote file, and two equal deletions are never found identical. *)
Example tombstone_loses_tie :
  Status 5 [] 5 (str "ab") = 1%Z ∧ Status 5 dash 5 (str "ab") = 5%Z ∧ Status 5 [] 5 dash = 1%Z.
Proof. by vm_compute. Qed.

(** 2 is the answer for a remote time that is newer, 4 for one that is older. *)
Example status_2_is_newer :
  Status 5 (str "ab") 6 (str "ab") = 2%Z ∧ Status 6 (str "ab") 5 (str "ab") = 4%Z.
Proof. by vm_compute. Qed.
