(* ===== verification/Auth.v ===== *)
(** * Users, capabilities and logins (src/internal/auth, src/internal/sync/auth.go)

    A user has a password hash, a string of one-letter capabilities and
    possibly a time after which the account is dead.  A client proves that it
    knows the password by signing a nonce; [VerifyLogin] is the server's check of
    the card that [computeLogin] makes.  The current time is an argument, in
    nanoseconds since 1970. *)
From S2P Require Import Prelude GoStrings Hash Zlib Deck Julian Blob Db.
From S2P Require Xfer.
From stdpp Require Import list gmap sets.

(** ** Capabilities (auth.go) *)

Definition HasCapability (caps : bytes) (required : byte) : bool := bool_decide (required ∈ caps).
Definition CanPush (caps : bytes) : bool := HasCapability caps "i"%byte.
Definition CanPull (caps : bytes) : bool := HasCapability caps "o"%byte.
Definition CanClone (caps : bytes) : bool := HasCapability caps "g"%byte.
Definition CanPushUV (caps : bytes) : bool := HasCapability caps "y"%byte.
Definition CanSyncPrivate (caps : bytes) : bool := HasCapability caps "x"%byte.

(** [CExpire] is an instant, absent for the zero time. *)
Record User := MkUser {
  us_UID : Z; us_Login : bytes; us_Cap : bytes; us_CExpire : option Z; us_Info : bytes }.

(** ** Users (user.go) *)

Definition slash : bytes := str "/".

Definition hashPassword (projectCode login password : bytes) : bytes :=
  sha1_hex (projectCode ++ slash ++ login ++ slash ++ password).

Definition CreateUser (d : db) (projectCode login password caps : bytes) : out db :=
  if bool_decide (projectCode = []) then Panic else
  if bool_decide (login = []) then Panic else
  let pw := hashPassword projectCode login password in
  insert_user d login pw caps None.

Definition user_of (login : bytes) (row : userRow) : User :=
  MkUser (u_uid row) login (u_cap row) None (default [] (u_info row)).

Definition GetUser (d : db) (login : bytes) : out User :=
  match d_user d !! login with
  | None => Fail ENoRows
  | Some row => Ret (user_of login row)
  end.

(** [ORDER BY login] *)
Definition ListUsers (d : db) : list User :=
  map (λ p, user_of p.1 p.2) (sort_slice (λ a b, str_ltb a.1 b.1) (map_to_list (d_user d))).

(** An UPDATE of the row of a login; no row is an error of the caller. *)
Definition update_user (d : db) (login : bytes) (f : userRow → userRow) : out db :=
  match d_user d !! login with
  | None => Fail ENoRows
  | Some _ => Ret (on_user (alter f login) d)
  end.

Definition UpdateCaps (d : db) (login caps : bytes) : out db :=
  if bool_decide (login = []) then Panic else
  update_user d login (λ r, MkUserRow (u_uid r) (u_pw r) caps (u_cexpire r) (u_info r)).

Definition SetPassword (d : db) (projectCode login password : bytes) : out db :=
  if bool_decide (projectCode = []) then Panic else
  let pw := hashPassword projectCode login password in
  update_user d login (λ r, MkUserRow (u_uid r) pw (u_cap r) (u_cexpire r) (u_info r)).

Definition DeleteUser (d : db) (login : bytes) : out db :=
  if bool_decide (login = []) then Panic else
  match d_user d !! login with
  | None => Fail ENoRows
  | Some _ => Ret (on_user (delete login) d)
  end.

(** ** Expiry times

    [time.Parse] with the layouts of [VerifyLogin], to an instant. *)

Fixpoint cutspace (s : bytes) : bytes :=
  match s with
  | c :: s' => if bool_decide (c = SP) then cutspace s' else s
  | [] => []
  end.

(** A space of the layout stands for any number of spaces, but not for none
    before another character. *)
Definition skip_space (s : bytes) : option bytes :=
  match s with
  | c :: _ => if bool_decide (c = SP) then Some (cutspace s) else None
  | [] => Some []
  end.

(** A date and a time of day, with a separator read by [sep]; what follows is
    returned. *)
Definition parse_civil (sep : bytes → option bytes) (s : bytes) : option (time * bytes) :=
  year ← (if length s <? 4 then None else dec_value (take 4 s) 0);
  s ← skip_lit "-"%byte (drop 4 s);
  '(month, s) ← getnum s true;
  _ ← in_range 1 12 month;
  s ← skip_lit "-"%byte s;
  '(day, s) ← getnum s true;
  s ← sep s;
  '(hour, s) ← getnum s false;
  _ ← in_range 0 23 hour;
  s ← skip_lit ":"%byte s;
  '(min, s) ← getnum s true;
  _ ← in_range 0 59 min;
  s ← skip_lit ":"%byte s;
  '(sec, s) ← getnum s true;
  _ ← in_range 0 59 sec;
  '(nsec, s) ← parse_frac false s;
  Some (Time year month day hour min sec nsec, s).

(** The zone of the layout, ["Z07:00"]: the offset in seconds. *)
Definition parse_zone (s : bytes) : option (Z * bytes) :=
  match s with
  | sign :: s =>
    if bool_decide (sign = "Z"%byte) then Some (0%Z, s) else
    if length s <? 5 then None else
    '(hr, s1) ← getnum (take 2 s) true;
    s2 ← skip_lit ":"%byte (drop 2 s);
    '(mm, s3) ← getnum s2 true;
    _ ← in_range 0 24 hr;
    _ ← in_range 0 60 mm;
    let off := ((hr * 60 + mm) * 60)%Z in
    if bool_decide (sign = "+"%byte) then Some (off, s3) else
    if bool_decide (sign = "-"%byte) then Some ((- off)%Z, s3) else None
  | [] => None
  end.

Definition valid_day (t : time) : option unit :=
  in_range 1 (days_in (t_month t) (t_year t)) (t_day t).

Definition parse_RFC3339 (s : bytes) : option Z :=
  '(t, s) ← parse_civil (skip_lit "T"%byte) s;
  '(off, s) ← parse_zone s;
  if negb (length s =? 0) then None else
  _ ← valid_day t; Some (instant t - off * 10 ^ 9)%Z.

Definition parse_DateTime (s : bytes) : option Z :=
  '(t, s) ← parse_civil skip_space s;
  if negb (length s =? 0) then None else
  _ ← valid_day t; Some (instant t).

Definition parse_expiry (s : bytes) : option Z :=
  first_some (parse_RFC3339 s) (parse_DateTime s).

(** ** Login cards (verify.go, sync/auth.go) *)

Section login.
Context {sqlite : Sqlite}.

Definition VerifyLogin (now : Z) (d : db) (projectCode : bytes) (card : Xfer.LoginCard) : out User :=
  if bool_decide (projectCode = []) then Panic else
  match d_user d !! Xfer.lg_User card with
  | None => Fail EAuthFailed
  | Some row =>
    let u := user_of (Xfer.lg_User card) row in
    u ← match u_cexpire row with
        | None => Ret u
        | Some s =>
          match parse_expiry (scan_datetime s) with
          | None => Fail EAuthFailed
          | Some expireTime =>
            if (expireTime <? now)%Z then Fail EAuthFailed
            else Ret (MkUser (us_UID u) (us_Login u) (us_Cap u) (Some expireTime) (us_Info u))
          end
        end;
    let expected := sha1_hex (Xfer.lg_Nonce card ++ u_pw row) in
    if negb (bool_decide (expected = Xfer.lg_Signature card)) then Fail EAuthFailed else Ret u
  end.
End login.

Definition computeLogin (user password projectCode : bytes) (payload : slice) : out Xfer.LoginCard :=
  if bool_decide (user = []) then Panic else
  if bool_decide (projectCode = []) then Panic else
  match payload with
  | None => Panic
  | Some payload =>
    let nonce := sha1_hex payload in
    let sharedSecret := sha1_hex (projectCode ++ slash ++ user ++ slash ++ password) in
    let signature := sha1_hex (nonce ++ sharedSecret) in
    Ret (Xfer.MkLogin user nonce signature)
  end.

(** [rb] is the 20 bytes the random source delivers. *)
Definition appendRandomComment (payload rb : bytes) : bytes :=
  payload ++ str "# " ++ hex_encode rb ++ [NL].

(** ** Properties *)

(** The instants at which a user's account is alive. *)
Definition alive {sqlite : Sqlite} (now : Z) (row : userRow) : Prop :=
  match u_cexpire row with
  | None => True
  | Some s => ∃ t, parse_expiry (scan_datetime s) = Some t ∧ (now ≤ t)%Z
  end.

Lemma VerifyLogin_cases {sqlite : Sqlite} now d code card u : code ≠ [] →
  VerifyLogin now d code card = Ret u ↔
  ∃ row, d_user d !! Xfer.lg_User card = Some row ∧ alive now row ∧
    Xfer.lg_Signature card = sha1_hex (Xfer.lg_Nonce card ++ u_pw row) ∧
    u = MkUser (u_uid row) (Xfer.lg_User card) (u_cap row)
          (u_cexpire row ≫= (λ s, parse_expiry (scan_datetime s))) (default [] (u_info row)).
Proof.
  intros Hc. unfold VerifyLogin, alive. cbv zeta. rewrite bool_decide_false by done.
  destruct (d_user d !! Xfer.lg_User card) as [row|]; [|naive_solver].
  destruct (u_cexpire row) as [s|] eqn:Es; cbn [mbind option_bind outcome_bind].
  - destruct (parse_expiry (scan_datetime s)) as [t|] eqn:Et.
    2:{ split; [done|]. intros (row' & [= <-] & H & _). rewrite Es in H.
      destruct H as (t & Ht & _). congruence. }
    destruct (Z.ltb_spec t now).
    { split; [done|]. intros (row' & [= <-] & H' & _). rewrite Es in H'.
      destruct H' as (t' & Ht' & ?). rewrite Et in Ht'. injection Ht' as <-. lia. }
    cbn [mbind outcome_bind]. case_bool_decide as Hs; cbn [negb]; split.
    + intros [= <-]. exists row. rewrite Es. cbn [mbind option_bind]. rewrite Et. naive_solver.
    + intros (row' & [= <-] & _ & _ & ->). rewrite Es. cbn [mbind option_bind]. by rewrite Et.
    + done.
    + intros (row' & [= <-] & _ & H' & _). congruence.
  - case_bool_decide as Hs; cbn [negb]; split.
    + intros [= <-]. exists row. rewrite Es. naive_solver.
    + intros (row' & [= <-] & _ & _ & ->). by rewrite Es.
    + done.
    + intros (row' & [= <-] & _ & H' & _). congruence.
Qed.

Lemma hashPassword_secret code login password :
  sha1_hex (code ++ slash ++ login ++ slash ++ password) = hashPassword code login password.
Proof. reflexivity. Qed.

Lemma computeLogin_ret login password code payload card :
  computeLogin login password code payload = Ret card →
  code ≠ [] ∧ login ≠ [] ∧ ∃ p, payload = Some p ∧
  card = Xfer.MkLogin login (sha1_hex p) (sha1_hex (sha1_hex p ++ hashPassword code login password)).
Proof.
  unfold computeLogin. repeat case_bool_decide; try done. destruct payload as [p|]; [|done].
  intros [= <-]. split; [done|]. split; [done|]. by exists p.
Qed.

(** A login card is accepted exactly if its user exists, the account has not
    expired, and the signature is the hash of the nonce and the stored password
    hash; the answer carries the stored capabilities. *)
Theorem VerifyLogin_iff {sqlite : Sqlite} now d code card u (Hc : code ≠ []) :
  VerifyLogin now d code card = Ret u ↔
  ∃ row, d_user d !! Xfer.lg_User card = Some row ∧ alive now row ∧
    Xfer.lg_Signature card = sha1_hex (Xfer.lg_Nonce card ++ u_pw row) ∧
    u = MkUser (u_uid row) (Xfer.lg_User card) (u_cap row)
          (u_cexpire row ≫= (λ s, parse_expiry (scan_datetime s))) (default [] (u_info row)).
Proof. by apply VerifyLogin_cases. Qed.

(** A user that was created logs in with the card computed from the password and
    gets the capabilities given at creation; a card computed from another
    password is accepted only if two different signed secrets hash alike. *)
Theorem CreateUser_login {sqlite : Sqlite} now d code login password caps d' payload card
    (Hu : CreateUser d code login password caps = Ret d') :
  (computeLogin login password code payload = Ret card →
   VerifyLogin now d' code card = Ret (MkUser (next_uid (d_user d)) login caps None [])) ∧
  (∀ other u, computeLogin login other code payload = Ret card →
   VerifyLogin now d' code card = Ret u →
   ∃ nonce, sha1_hex (nonce ++ hashPassword code login other)
            = sha1_hex (nonce ++ hashPassword code login password)).
Proof.
  unfold CreateUser, insert_user in Hu. repeat case_bool_decide; try done.
  destruct (d_user d !! login) as [r|]; [done|]. injection Hu as <-.
  split.
  - intros (_ & _ & p & -> & ->)%computeLogin_ret. apply VerifyLogin_cases; [done|].
    cbn [Xfer.lg_User Xfer.lg_Nonce Xfer.lg_Signature d_user on_user].
    eexists. rewrite lookup_insert_eq. split; [reflexivity|]. done.
  - intros other u (_ & _ & p & -> & ->)%computeLogin_ret Hv.
    apply VerifyLogin_cases in Hv; [|done].
    cbn [Xfer.lg_User Xfer.lg_Nonce Xfer.lg_Signature d_user on_user] in Hv.
    destruct Hv as (row & Hrow & _ & Hs & _). rewrite lookup_insert_eq in Hrow.
    injection Hrow as <-. by exists (sha1_hex p).
Qed.

(** ** Users keep their identity *)

(** One change of the user table that succeeded. *)
Inductive user_step (d : db) : db → Prop :=
  | us_create code login password caps d' :
      CreateUser d code login password caps = Ret d' → user_step d d'
  | us_caps login caps d' : UpdateCaps d login caps = Ret d' → user_step d d'
  | us_password code login password d' : SetPassword d code login password = Ret d' → user_step d d'
  | us_delete login d' : DeleteUser d login = Ret d' → user_step d d'
  | us_seed login d' : SeedUser d login = Ret d' → user_step d d'
  | us_nobody caps d' : SeedNobody d caps = Ret d' → user_step d d'.

(** No two users share a uid. *)
Definition uids_ok (d : db) : Prop :=
  ∀ l1 l2 r1 r2, d_user d !! l1 = Some r1 → d_user d !! l2 = Some r2 → u_uid r1 = u_uid r2 → l1 = l2.

Lemma next_uid_fresh t login row : t !! login = Some row → (u_uid row < next_uid t)%Z.
Proof.
  intros H. unfold next_uid. apply elem_of_map_to_list in H.
  assert (u_uid row ∈ map (λ p : bytes * userRow, u_uid p.2) (map_to_list t)) as Hin.
  { apply list_elem_of_fmap. by exists (login, row). }
  apply foldr_max_ge in Hin. lia.
Qed.

Lemma insert_user_ok d login pw cap info d' :
  insert_user d login pw cap info = Ret d' → uids_ok d → uids_ok d'.
Proof.
  unfold insert_user. destruct (d_user d !! login) eqn:El; [done|]. intros [= <-] Hd l1 l2 r1 r2.
  cbn. intros [[<- <-]|[? H1]]%lookup_insert_Some [[<- <-]|[? H2]]%lookup_insert_Some He; try done.
  - pose proof (next_uid_fresh _ _ _ H2). cbn in He. lia.
  - pose proof (next_uid_fresh _ _ _ H1). cbn in He. lia.
  - by eapply Hd.
Qed.

Lemma update_user_ok d login f d' : (∀ r, u_uid (f r) = u_uid r) →
  update_user d login f = Ret d' → uids_ok d → uids_ok d'.
Proof.
  intros Hf. unfold update_user. destruct (d_user d !! login); [|done]. intros [= <-] Hd l1 l2 r1 r2.
  cbn. intros H1 H2 He.
  assert (∀ l r, alter f login (d_user d) !! l = Some r → ∃ r0, d_user d !! l = Some r0 ∧ u_uid r0 = u_uid r)
    as Hback.
  { intros l r. destruct (decide (login = l)) as [->|Hne].
    - rewrite lookup_alter_eq. destruct (d_user d !! l) as [r0|]; cbn; [|done].
      intros [= <-]. exists r0. by rewrite Hf.
    - rewrite lookup_alter_ne by done. intros. by exists r. }
  destruct (Hback _ _ H1) as (a & Ha & Ea), (Hback _ _ H2) as (b & Hb & Eb).
  eapply Hd; [done..|]. congruence.
Qed.

Lemma user_step_ok d d' : user_step d d' → uids_ok d → uids_ok d'.
Proof.
  intros [code l p caps ? H|l caps ? H|code l p ? H|l ? H|l ? H|caps ? H] Hd.
  - unfold CreateUser in H. repeat case_bool_decide; try done. by eapply insert_user_ok.
  - unfold UpdateCaps in H. case_bool_decide; [done|]. by eapply update_user_ok; [|done|].
  - unfold SetPassword in H. case_bool_decide; [done|]. by eapply update_user_ok; [|done|].
  - unfold DeleteUser in H. case_bool_decide; [done|]. destruct (_ !! _); [|done].
    injection H as <-. intros l1 l2 r1 r2. cbn.
    intros [_ H1]%lookup_delete_Some [_ H2]%lookup_delete_Some. by eapply Hd.
  - unfold SeedUser in H. case_bool_decide; [done|]. case_bool_decide as Hl; cbn in H.
    { by injection H as <-. }
    destruct (existsb _ _) eqn:He; injection H as <-; [done|]. intros l1 l2 r1 r2. cbn.
    assert (∀ k r, d_user d !! k = Some r → u_uid r ≠ 1%Z) as Hno.
    { intros k r Hk Hr. apply not_true_iff_false in He. apply He, existsb_exists.
      exists (k, r). split; [|cbn; by rewrite Hr]. by apply list_elem_of_In, elem_of_map_to_list. }
    intros [[<- <-]|[? H1]]%lookup_insert_Some [[<- <-]|[? H2]]%lookup_insert_Some E; try done.
    + cbn in E. by destruct (Hno _ _ H2).
    + cbn in E. by destruct (Hno _ _ H1).
    + by eapply Hd.
  - unfold SeedNobody in H. destruct (insert_user _ _ _ _ _) eqn:E; try done; injection H as <-.
    + by eapply insert_user_ok.
    + done.
Qed.

(** Over every sequence of changes to the users, starting from an empty table,
    no two users share a uid. *)
Theorem users_distinct d (Hd : rtc user_step CreateRepoSchema d) : uids_ok d.
Proof.
  assert (uids_ok CreateRepoSchema) as H0 by (intros ????; cbn; by rewrite lookup_empty).
  revert H0. induction Hd as [|a b c Hs _ IH]; [done|]. eauto using user_step_ok.
Qed.

(** ** Concrete runs *)

#[local] Existing Instance test_sqlite.

Definition code40 : bytes := str "0123456789abcdef0123456789abcdef01234567".

Definition users_of (m : out db) : db := match m with Ret d => d | _ => CreateRepoSchema end.

Definition db_alice : db :=
  users_of (CreateUser CreateRepoSchema code40 (str "alice") (str "secret") (str "io")).

Definition card_of (m : out Xfer.LoginCard) : Xfer.LoginCard :=
  match m with Ret c => c | _ => Xfer.MkLogin [] [] [] end.

Definition alice_card : Xfer.LoginCard :=
  card_of (computeLogin (str "alice") (str "secret") code40 (Some (str "pull x y"))).

Lemma VerifyLogin_iff_witness :
  code40 ≠ [] ∧ VerifyLogin 0 db_alice code40 alice_card = Ret (MkUser 1 (str "alice") (str "io") None []).
Proof.
  split; [done|]. apply (VerifyLogin_iff 0 db_alice code40 alice_card); [done|].
  eexists. split; [reflexivity|]. split; [exact I|]. split; vm_compute; reflexivity.
Defined.

Lemma CreateUser_login_witness :
  VerifyLogin 5 db_alice code40 alice_card = Ret (MkUser 1 (str "alice") (str "io") None []).
Proof.
  refine (proj1 (CreateUser_login 5 CreateRepoSchema code40 (str "alice") (str "secret") (str "io")
    db_alice (Some (str "pull x y")) alice_card _) _); vm_compute; reflexivity.
Defined.

Lemma users_distinct_witness : uids_ok db_alice.
Proof.
  apply users_distinct, rtc_once. by apply (us_create _ code40 (str "alice") (str "secret") (str "io")).
Defined.

Example expiry_formats :
  parse_expiry (str "2024-02-29T23:59:59Z") = Some 1709251199000000000%Z ∧
  parse_expiry (str "2024-02-29 23:59:59") = Some 1709251199000000000%Z ∧
  parse_expiry (str "2024-02-29T23:59:59.5+02:00") = Some 1709243999500000000%Z ∧
  parse_expiry (str "2023-02-29 00:00:00") = None ∧
  parse_expiry (str "1970-01-01T00:00:00Z") = Some 0%Z.
Proof. by vm_compute. Qed.
