(* ===== verification/Receive.v ===== *)
(** * Receiving artifacts (src/internal/sync/client.go, src/internal/manifest/crosslink.go)

    What client and server do with a [file] or [cfile] card: resolve a delta,
    check the hash, and store the artifact in one transaction, filling the
    phantom that waits for it if there is one.  A new cluster artifact is
    crosslinked at once: its members leave [unclustered], and the members that
    are not there become phantoms.

    A failed transaction leaves the tables as they were; the cache may have
    changed, so a failure carries the cache it leaves. *)
From S2P Require Import Prelude GoStrings Hash Zlib Delta Deck Blob Content Db.
From stdpp Require Import list gmap sets.

Abbreviation received := (outcome (option Cache * db_error)).

(** A failure that leaves the cache [c]. *)
Definition with_cache {A} (c : option Cache) (m : out A) : received A := wrap_err (λ e, (c, e)) m.

(** The cache after an expansion that failed: only the miss was counted. *)
Definition cache_missed (c : option Cache) (rid : Z) : option Cache := (λ c, (cache_lookup c rid).1) <$> c.

Section receive.
Context {codec : Zlib} {sha3 : Sha3}.

(** ** Clusters *)

(** A member of a cluster: clustered now if present, expected if not. *)
Definition crosslink_member (q : repo) (uuid : bytes) : outcome blob_error repo :=
  ex ← Blob.Exists q uuid;
  match ex with
  | Some memberRID => Ret (with_unclustered (λ s, s ∖ {[ memberRID ]}) q)
  | None => '(q, _) ← StorePhantom q uuid; Ret q
  end.

Fixpoint crosslink_members (q : repo) (M : list bytes) : outcome blob_error repo :=
  match M with
  | [] => Ret q
  | uuid :: M => q ← crosslink_member q uuid; crosslink_members q M
  end.

Definition CrosslinkCluster (q : repo) (rid : Z) (d : Deck) : outcome blob_error repo :=
  if (rid <=? 0)%Z then Panic else
  crosslink_members (with_tagxref <[(7%Z, rid) := cluster_tag rid]> q) (d_M d).

(** ** Received files *)

Definition resolveFileContent (q : repo) (deltaSrc : bytes) (payload : bytes) (cache : option Cache) :
    received (option Cache * bytes) :=
  if bool_decide (deltaSrc = []) then Ret (cache, payload) else
  srcRid ← with_cache cache (in_repo (Blob.Exists q deltaSrc));
  match srcRid with
  | None => Fail (cache, EDeltaSourceMissing deltaSrc)
  | Some srcRid =>
    '(cache, baseContent) ← with_cache (cache_missed cache srcRid)
                              (in_repo (Cache_Expand cache q srcRid));
    applied ← with_cache cache (in_repo (wrap_err EDelta (Apply (Some baseContent) payload)));
    Ret (cache, applied)
  end.

(** The transaction's UPDATE of a phantom's row; [row] is the phantom. *)
Definition fill_phantom (q : repo) (rid : Z) (row : blobRow) (size : Z) (content : bytes) : repo :=
  let q := with_blob <[rid := MkBlob (b_uuid row) size (Some content) 1]> q in
  let q := with_phantom (λ s, s ∖ {[ rid ]}) q in
  with_unclustered (λ s, {[ rid ]} ∪ s) q.

Definition crosslink_if_cluster (q : repo) (rid : Z) (fullContent : bytes) : outcome blob_error repo :=
  match Parse (Some fullContent) with
  | Ret d => if bool_decide (d_Type d = Cluster) then CrosslinkCluster q rid d else Ret q
  | Fail _ => Ret q
  | Panic => Panic
  | NoFuel => NoFuel
  end.

(** The transaction of [storeReceivedFile]. *)
Definition store_full (q : repo) (uuid fullContent : bytes) : outcome blob_error repo :=
  existing ← Blob.Exists q uuid;
  match existing with
  | Some existingRid =>
    match t_blob q !! existingRid with
    | Some row =>
      if negb (b_size row =? -1)%Z then Ret q else
      compressed ← Compress (Some fullContent);
      Ret (fill_phantom q existingRid row (zlen fullContent) compressed)
    | None => Ret q
    end
  | None =>
    compressed ← Compress (Some fullContent);
    '(q, rid) ← insert_blob q (MkBlob uuid (zlen fullContent) (Some compressed) 1);
    let q := with_unclustered (λ s, {[ rid ]} ∪ s) q in
    crosslink_if_cluster q rid fullContent
  end.

Definition storeReceivedFile (q : repo) (uuid deltaSrc : bytes) (payload : slice)
    (cache : option Cache) : received (option Cache * repo) :=
  if bool_decide (uuid = []) then Panic else
  match payload with
  | None => Panic
  | Some payload =>
    valid ← IsValidHash uuid;
    if negb valid then Fail (cache, EInvalid uuid) else
    '(cache, fullContent) ← resolveFileContent q deltaSrc payload cache;
    if negb (bool_decide (hash_of uuid fullContent = uuid)) then Fail (cache, EUUIDMismatch) else
    q ← with_cache cache (in_repo (store_full q uuid fullContent));
    Ret (cache, q)
  end.
End receive.

(** ** What storage never forgets *)

Section facts.
Context {codec : Zlib} {sha3 : Sha3}.

(** The rows of [q] are in [q'] under the same rids, those with content
    unchanged. *)
Definition rows_kept (q q' : repo) : Prop :=
  ∀ rid row, t_blob q !! rid = Some row →
    ∃ row', t_blob q' !! rid = Some row' ∧ b_uuid row' = b_uuid row ∧
      (b_size row ≠ (-1)%Z → row' = row).

#[global] Instance rows_kept_preorder : PreOrder rows_kept.
Proof.
  split; [intros q rid row H; by exists row|].
  intros q1 q2 q3 A B rid row H. destruct (A rid row H) as (row2 & H2 & Hu & Hs).
  destruct (B rid row2 H2) as (row3 & H3 & Hu3 & Hs3). exists row3.
  split_and!; [done|congruence|]. intros Hn. rewrite <- (Hs Hn). apply Hs3. by rewrite (Hs Hn).
Qed.

(** Moreover, what could be expanded still expands to the same. *)
Record retains (q q' : repo) : Prop := {
  rt_rows : rows_kept q q';
  rt_expands : ∀ rid c, expands q rid c → expands q' rid c
}.

#[global] Instance retains_preorder : PreOrder retains.
Proof.
  split.
  - intros q. by split.
  - intros q1 q2 q3 [A1 A2] [B1 B2]. split; [by etrans|by auto].
Qed.

Lemma extends_retains q q' : extends q q' → retains q q'.
Proof.
  intros Hext. split; [|by intros; eapply expands_extends].
  intros rid row H. exists row. destruct Hext as (Hb & _). by split; [eapply lookup_weaken|].
Qed.

Lemma same_tables_retains q q' :
  t_blob q' = t_blob q → t_delta q' = t_delta q → retains q q'.
Proof.
  intros Hb Hd. split; [|by intros; eapply expands_ext].
  intros rid row H. exists row. by rewrite Hb.
Qed.

(** Repositories whose artifacts are all smaller than 4 GiB. *)
Definition small (q : repo) : Prop :=
  ∀ rid row, t_blob q !! rid = Some row → (b_size row < 2 ^ 32)%Z.

Lemma small_kept q q' : rows_kept q q' → small q' → small q.
Proof.
  intros Hr Hs rid row H. destruct (Hr rid row H) as (row' & H' & _ & Hsz).
  destruct (decide (b_size row = (-1)%Z)) as [->|Hn]; [done|].
  specialize (Hs rid row' H'). by rewrite (Hsz Hn) in Hs.
Qed.

Lemma retains_rid q q' uuid rid :
  repo_ok q' → retains q q' → rid_of_uuid q uuid = Some rid → rid_of_uuid q' uuid = Some rid.
Proof.
  intros Hok Hr (row & Hrow & Hu)%rid_of_uuid_Some.
  destruct (rt_rows _ _ Hr rid row Hrow) as (row' & Hrow' & Hu' & _).
  destruct (rid_of_uuid q' uuid) as [r|] eqn:E.
  - apply rid_of_uuid_Some in E as (row2 & Hrow2 & Hu2). f_equal.
    eapply (ok_uuid q' Hok r rid); [done..|]. congruence.
  - pose proof (rid_of_uuid_None q' uuid E rid row' Hrow'). congruence.
Qed.

(** ** The cache *)

Definition coherent (c : option Cache) (q : repo) : Prop :=
  ∀ cc, c = Some cc → ∀ rid e, items cc !! rid = Some e → (0 < rid)%Z ∧ expands q rid (ce_data e).

Lemma coherent_retains c q q' : retains q q' → coherent c q → coherent c q'.
Proof.
  intros Hr Hc cc -> rid e He. destruct (Hc cc eq_refl rid e He). split; [done|]. by apply Hr.
Qed.

Lemma coherent_none q : coherent None q.
Proof. by intros cc [=]. Qed.

Lemma evict_loop_items fuel c c' : evict_loop fuel c = Ret c' → items c' ⊆ items c.
Proof.
  revert c. induction fuel as [|fuel IH]; intros c; cbn [evict_loop]; [done|].
  destruct (_ && _); [|by intros [= <-]]. intros H%IH. etrans; [exact H|].
  unfold evictOldest. case_match; [|done]. cbn. apply delete_subseteq.
Qed.

Lemma cache_missed_coherent c rid q : coherent c q → coherent (cache_missed c rid) q.
Proof.
  intros Hc cc. destruct c as [c|]; [|done]. cbn. intros [= <-] r e.
  unfold cache_lookup. destruct (items c !! rid); cbn; by apply Hc.
Qed.

Lemma Cache_Expand_sound c q rid c' d :
  coherent c q → Cache_Expand c q rid = Ret (c', d) →
  coherent c' q ∧ (0 < rid)%Z ∧ expands q rid d.
Proof.
  intros Hc. unfold Cache_Expand. destruct c as [c|].
  - unfold cache_lookup. destruct (items c !! rid) as [e|] eqn:He.
    + intros [= <- <-]. split; [|by apply (Hc c)]. intros cc [= <-]. by apply (Hc c).
    + intros H. inv_bind. pose proof (Expand_positive _ _ _ Ha) as Hp.
      apply Expand_expands in Ha; [|done]. split; [|done].
      intros cc [= <-] r e. revert Ha0. unfold cache_fill. cbn [items]. rewrite He. cbv zeta.
      intros Hev%evict_loop_items. intros Hl. apply (lookup_weaken _ _ _ _ Hl) in Hev. cbn in Hev.
      apply lookup_insert_Some in Hev as [[<- <-]|[_ Hev]]; [done|]. by apply (Hc c).
  - intros H. inv_bind. pose proof (Expand_positive _ _ _ Ha) as Hp.
    apply Expand_expands in Ha; [|done]. split; [apply coherent_none|done].
Qed.

(** ** Crosslinking a cluster *)

Lemma StorePhantom_row q uuid q' rid : StorePhantom q uuid = Ret (q', rid) →
  ∃ row, t_blob q' !! rid = Some row ∧ b_uuid row = uuid.
Proof.
  unfold StorePhantom. case_bool_decide; [done|]. intros Hs.
  apply bind_ret_inv in Hs as (ex & Hex & Hs). apply Exists_ret in Hex as ->.
  destruct (rid_of_uuid q uuid) as [r|] eqn:Hu.
  { injection Hs as <- <-. by apply rid_of_uuid_Some. }
  apply bind_ret_inv in Hs as ([q1 rid1] & Hins & Hs).
  apply insert_blob_ret in Hins as (-> & Hn & _). injection Hs as <- <-.
  eexists. split; [apply lookup_insert_eq|done].
Qed.

Lemma crosslink_member_ok q uuid q' :
  repo_ok q → crosslink_member q uuid = Ret q' →
  repo_ok q' ∧ extends q q' ∧ is_Some (rid_of_uuid q' uuid).
Proof.
  intros Hok. unfold crosslink_member. intros H. apply bind_ret_inv in H as (ex & Hex & H).
  apply Exists_ret in Hex as ->. destruct (rid_of_uuid q uuid) as [r|] eqn:Hu.
  - injection H as <-. split_and!; [by apply (repo_ok_ext q)|exact (extends_refl q)|].
    exists r. exact Hu.
  - apply bind_ret_inv in H as ([q1 rid] & HS & H). injection H as <-.
    split_and!; [by eapply StorePhantom_ok|by eapply StorePhantom_extends|].
    destruct (StorePhantom_row _ _ _ _ HS) as (row & Hrow & Hu').
    destruct (rid_of_uuid q1 uuid) eqn:E; [by eexists|].
    by pose proof (rid_of_uuid_None q1 uuid E rid row Hrow).
Qed.

Lemma crosslink_members_ok M q q' :
  repo_ok q → crosslink_members q M = Ret q' →
  repo_ok q' ∧ extends q q' ∧ Forall (λ u, is_Some (rid_of_uuid q' u)) M.
Proof.
  revert q. induction M as [|u M IH]; intros q Hok; cbn [crosslink_members].
  { intros [= <-]. split_and!; [done|apply extends_refl|constructor]. }
  intros H. apply bind_ret_inv in H as (q1 & H1 & H).
  destruct (crosslink_member_ok q u q1 Hok H1) as (Hok1 & He1 & [r Hr]).
  destruct (IH q1 Hok1 H) as (Hok' & He & HM). split_and!; [done|by eapply extends_trans|].
  constructor; [|done]. exists r. apply (retains_rid q1); [done|by apply extends_retains|done].
Qed.

Lemma CrosslinkCluster_ok q rid d q' :
  repo_ok q → CrosslinkCluster q rid d = Ret q' →
  repo_ok q' ∧ extends q q' ∧ Forall (λ u, is_Some (rid_of_uuid q' u)) (d_M d).
Proof.
  intros Hok. unfold CrosslinkCluster. destruct (rid <=? 0)%Z; [done|].
  intros H. apply crosslink_members_ok in H as (Hok' & He & HM); [|by apply (repo_ok_ext q)].
  by split_and!.
Qed.

Lemma crosslink_members_extends M q q' : crosslink_members q M = Ret q' → extends q q'.
Proof.
  revert q. induction M as [|u M IH]; intros q; cbn [crosslink_members].
  { intros [= <-]. apply extends_refl. }
  intros H. apply bind_ret_inv in H as (q1 & H1 & H). apply IH in H.
  eapply extends_trans; [|exact H]. revert H1. unfold crosslink_member. intros H1.
  apply bind_ret_inv in H1 as ([r|] & _ & H1).
  - injection H1 as <-. exact (extends_refl q).
  - apply bind_ret_inv in H1 as ([q2 rid] & HS & H1). injection H1 as <-.
    by eapply StorePhantom_extends.
Qed.

(** A member that is there leaves [unclustered] and stays away. *)
Lemma members_leave M q q' u r :
  repo_ok q → crosslink_members q M = Ret q' → u ∈ M → rid_of_uuid q u = Some r →
  r ∉ t_unclustered q'.
Proof.
  assert (∀ M q q', crosslink_members q M = Ret q' → t_unclustered q' ⊆ t_unclustered q) as Hsub.
  { clear. intros M. induction M as [|u M IH]; intros q q'; cbn [crosslink_members].
    { by intros [= <-]. }
    intros H. apply bind_ret_inv in H as (q1 & H1 & H). etrans; [by apply IH|].
    revert H1. unfold crosslink_member. intros H1. apply bind_ret_inv in H1 as ([r|] & _ & H1).
    - injection H1 as <-. cbn. set_solver.
    - apply bind_ret_inv in H1 as ([q2 rid] & HS & H1). injection H1 as <-.
      revert HS. unfold StorePhantom. case_bool_decide; [done|]. intros HS.
      apply bind_ret_inv in HS as ([r|] & _ & HS); [by injection HS as <- <-|].
      apply bind_ret_inv in HS as ([q3 rid3] & Hins & HS).
      apply insert_blob_ret in Hins as (-> & _). by injection HS as <- <-. }
  revert q. induction M as [|v M IH]; intros q Hok; cbn [crosslink_members];
    [by intros _ ?%elem_of_nil|].
  intros H Hu Hr. apply bind_ret_inv in H as (q1 & H1 & H).
  destruct (crosslink_member_ok q v q1 Hok H1) as (Hok1 & He1 & _).
  apply elem_of_cons in Hu as [->|Hu].
  - apply Hsub in H. revert H1. unfold crosslink_member. intros H1.
    apply bind_ret_inv in H1 as (ex & Hex & H1). apply Exists_ret in Hex as ->.
    rewrite Hr in H1. injection H1 as <-. cbn in H. set_solver.
  - eapply IH; [exact Hok1|exact H|done|].
    by apply (retains_rid q); [|apply extends_retains|].
Qed.

(** What is tagged as a cluster is one. *)
Definition clusters_only (q : repo) : Prop :=
  ∀ k tx, t_tagxref q !! k = Some tx →
    ∃ c d, expands q (tx_srcid tx) c ∧ Parse (Some c) = Ret d ∧ d_Type d = Cluster.

Lemma clusters_only_retains q q' :
  retains q q' → t_tagxref q' = t_tagxref q → clusters_only q → clusters_only q'.
Proof.
  intros Hr Ht H k tx. rewrite Ht. intros (c & d & He & Hd)%H. exists c, d. split; [by apply Hr|done].
Qed.

Lemma crosslink_members_tags M q q' : crosslink_members q M = Ret q' → t_tagxref q' = t_tagxref q.
Proof.
  revert q. induction M as [|u M IH]; intros q; cbn [crosslink_members]; [by intros [= <-]|].
  intros H. apply bind_ret_inv in H as (q1 & H1 & H). rewrite (IH _ H). revert H1. unfold crosslink_member.
  intros H1. apply bind_ret_inv in H1 as ([r|] & _ & H1); [by injection H1 as <-|].
  apply bind_ret_inv in H1 as ([q2 rid] & HS & H1). injection H1 as <-. revert HS.
  unfold StorePhantom. case_bool_decide; [done|]. intros HS.
  apply bind_ret_inv in HS as ([r|] & _ & HS); [by injection HS as <- <-|].
  apply bind_ret_inv in HS as ([q3 rid3] & Hins & HS).
  apply insert_blob_ret in Hins as (-> & _). by injection HS as <- <-.
Qed.

Lemma crosslink_if_cluster_only q rid c q' :
  clusters_only q → expands q rid c → crosslink_if_cluster q rid c = Ret q' → clusters_only q'.
Proof.
  intros Hq He. unfold crosslink_if_cluster. destruct (Parse (Some c)) as [d|e| |] eqn:Hp; try done;
    [|by intros [= <-]].
  case_bool_decide as Hd; [|by intros [= <-]]. unfold CrosslinkCluster. destruct (rid <=? 0)%Z; [done|].
  set (q1 := with_tagxref _ q). intros H. pose proof (crosslink_members_extends _ _ _ H) as Hext.
  apply (clusters_only_retains q1); [by apply extends_retains|by eapply crosslink_members_tags|].
  assert (∀ r x, expands q r x → expands q1 r x) as He1
    by exact (rt_expands _ _ (same_tables_retains q q1 eq_refl eq_refl)).
  intros k tx. unfold q1. cbn. intros [[<- <-]|[_ Hk]]%lookup_insert_Some.
  - exists c, d. split; [by apply He1|done].
  - destruct (Hq k tx Hk) as (x & dx & Hx & Hdx). exists x, dx. split; [by apply He1|done].
Qed.

Lemma crosslink_if_cluster_frame q rid c q' : crosslink_if_cluster q rid c = Ret q' → extends q q'.
Proof.
  unfold crosslink_if_cluster, CrosslinkCluster.
  destruct (Parse (Some c)) as [d|e| |]; [|intros [= <-]; apply extends_refl|done..].
  case_bool_decide; [|intros [= <-]; apply extends_refl]. destruct (rid <=? 0)%Z; [done|].
  exact (crosslink_members_extends _ _ _).
Qed.

Lemma crosslink_if_cluster_ok q rid c q' :
  repo_ok q → crosslink_if_cluster q rid c = Ret q' → repo_ok q' ∧ extends q q'.
Proof.
  intros Hok. unfold crosslink_if_cluster.
  destruct (Parse (Some c)) as [d|e| |]; [|intros [= <-]; split; [done|apply extends_refl]|done..].
  case_bool_decide; [|intros [= <-]; split; [done|apply extends_refl]].
  intros H'. by destruct (CrosslinkCluster_ok _ _ _ _ Hok H') as (? & ? & _).
Qed.
End facts.

(** ** Storing *)

Section store.
Context {codec : Zlib} {laws : ZlibLaws} {sha3 : Sha3}.

(** Filling a phantom: its row gets content, all other rows stay. *)
Lemma fill_phantom_ok q rid row content stored :
  repo_ok q → t_blob q !! rid = Some row → b_size row = (-1)%Z →
  Compress (Some content) = Ret stored → (zlen content < 2 ^ 32)%Z →
  hash_of (b_uuid row) content = b_uuid row →
  let q' := fill_phantom q rid row (zlen content) stored in
  repo_ok q' ∧ retains q q' ∧ expands q' rid content.
Proof.
  intros Hok Hrow Hs Hst Hlt Hh q'. pose proof (zlen_nonneg content) as Hz.
  assert (t_blob q' = <[rid := MkBlob (b_uuid row) (zlen content) (Some stored) 1]> (t_blob q)) as Hb by done.
  assert (t_delta q' = t_delta q) as Hd by done.
  destruct (ok_row q Hok rid row Hrow) as [Hpos Hlen].
  assert (t_delta q !! rid = None) as Hnd.
  { destruct (t_delta q !! rid) eqn:E; [|done].
    destruct (ok_delta q Hok _ _ E) as (row' & Hrow' & Hn). congruence. }
  assert (∀ r, r ≠ rid → Load q' r = Load q r) as HL.
  { intros r Hr. unfold Load. by rewrite Hb, lookup_insert_ne. }
  assert (∀ r c, expands q r c → r ≠ rid) as Hne.
  { assert (∀ c, Load q rid ≠ Ret c) as Hno.
    { intros c. unfold Load. destruct (rid <=? 0)%Z; [done|]. by rewrite Hrow, Hs. }
    intros r c [r' c' _ HL'|r' s c0 d' c' _ _ HL' _] ->; by eapply Hno. }
  assert (∀ r c, expands q r c → expands q' r c) as Hexp.
  { intros r c H. pose proof (Hne _ _ H) as Hr.
    induction H as [r c Hdr HLr|r s c0 d c Hdr He IH HLr HA].
    - apply expands_plain; [done|]. by rewrite HL.
    - eapply expands_delta; [done|apply IH; by eapply Hne|by rewrite HL|done]. }
  assert (expands q' rid content) as Hnew.
  { apply expands_plain; [by rewrite Hd|].
    eapply (Load_stored q' rid); [by rewrite Hb, lookup_insert_eq|done|exact Hst|done|cbn; lia|by left]. }
  split_and!; [| |done].
  - split.
    + intros r row'. rewrite Hb. intros [[<- <-]|[_ H]]%lookup_insert_Some; [done|by apply (ok_row q Hok r)].
    + intros r1 r2 row1 row2. rewrite Hb.
      intros [[<- <-]|[Hn1 L1]]%lookup_insert_Some [[<- <-]|[Hn2 L2]]%lookup_insert_Some Heq; try done.
      * by apply (ok_uuid q Hok rid r2 row row2).
      * by apply (ok_uuid q Hok r1 rid row1 row).
      * by apply (ok_uuid q Hok r1 r2 row1 row2).
    + intros r s. rewrite Hd, Hb. intros Hr. destruct (ok_delta q Hok _ _ Hr) as (row' & Hrow' & Hn).
      exists row'. by rewrite lookup_insert_ne by congruence.
    + intros r row'. rewrite Hb. intros [[<- <-]|[_ H]]%lookup_insert_Some Hn; [by exists content|].
      destruct (ok_content q Hok r row' H Hn) as (c & He & Hc). exists c. by split; [apply Hexp|].
  - split; [|done]. intros r row' H. rewrite Hb. destruct (decide (r = rid)) as [->|Hr].
    + eexists. rewrite lookup_insert_eq. split; [done|]. assert (row' = row) as -> by congruence. done.
    + exists row'. by rewrite lookup_insert_ne.
Qed.

(** A new row with its content. *)
Lemma insert_full_ok q uuid content stored q1 rid :
  repo_ok q → Compress (Some content) = Ret stored → (zlen content < 2 ^ 32)%Z →
  hash_of uuid content = uuid →
  insert_blob q (MkBlob uuid (zlen content) (Some stored) 1) = Ret (q1, rid) →
  repo_ok q1 ∧ extends q q1 ∧ expands q1 rid content ∧ rid_of_uuid q1 uuid = Some rid.
Proof.
  intros Hok Hst Hlt Hh Hins. apply insert_blob_ret in Hins as (-> & Hn & Hr & Hu & Hnew).
  pose proof (zlen_nonneg content) as Hz. set (row := MkBlob _ _ _ _) in *.
  pose proof (extends_insert q rid row Hn) as Hext. pose proof (fresh_no_delta q rid Hok Hn) as Hd.
  assert (expands (with_blob <[rid := row]> q) rid content) as He.
  { apply expands_plain; [done|].
    eapply (Load_stored _ rid row); [apply lookup_insert_eq|done|exact Hst|done|cbn; lia|by left]. }
  assert (repo_ok (with_blob <[rid := row]> q)) as Hok'.
  { eapply repo_ok_add; [exact Hok|done|done|done|by right|done|done|done|]. intros _. by exists content. }
  split_and!; [done..|].
  destruct (rid_of_uuid _ uuid) as [r|] eqn:E.
  - apply rid_of_uuid_Some in E as (row' & Hrow' & Hu'). f_equal.
    eapply (ok_uuid _ Hok' r rid); [done|apply lookup_insert_eq|done].
  - pose proof (rid_of_uuid_None _ _ E rid row (lookup_insert_eq _ _ _)). by destruct H.
Qed.

(** The cluster tags after the transaction. *)
Lemma store_full_clusters q uuid content q' :
  repo_ok q → store_full q uuid content = Ret q' → small q' → hash_of uuid content = uuid →
  clusters_only q → clusters_only q'.
Proof.
  intros Hok. unfold store_full. intros H Hsm Hh Hcl. apply bind_ret_inv in H as (ex & Hex & H).
  apply Exists_ret in Hex as ->. destruct (rid_of_uuid q uuid) as [rid|] eqn:Hu.
  - pose proof (rid_of_uuid_Some _ _ _ Hu) as (row & Hrow & Hur). rewrite Hrow in H.
    destruct (Z.eqb_spec (b_size row) (-1)) as [Hs|Hs]; cbn [negb] in H; [|by injection H as <-].
    apply bind_ret_inv in H as (stored & Hst & H). injection H as <-. subst uuid.
    destruct (fill_phantom_ok q rid row content stored) as (_ & H2 & _); try done.
    { apply (Hsm rid (MkBlob (b_uuid row) (zlen content) (Some stored) 1)). apply lookup_insert_eq. }
    by apply (clusters_only_retains q).
  - apply bind_ret_inv in H as (stored & Hst & H). apply bind_ret_inv in H as ([q1 rid] & Hins & H).
    assert (zlen content < 2 ^ 32)%Z as Hlt.
    { pose proof (crosslink_if_cluster_frame _ _ _ _ H) as (Hb & _).
      apply (Hsm rid (MkBlob uuid (zlen content) (Some stored) 1)). eapply lookup_weaken; [|exact Hb].
      apply insert_blob_ret in Hins as (-> & _). apply lookup_insert_eq. }
    destruct (insert_full_ok _ _ _ _ _ _ Hok Hst Hlt Hh Hins) as (_ & Hext & He & _).
    eapply (crosslink_if_cluster_only _ rid content); [| |exact H].
    + apply (clusters_only_retains q1); [by apply same_tables_retains|done|].
      apply (clusters_only_retains q); [by apply extends_retains| |done].
      by apply insert_blob_ret in Hins as (-> & _).
    + match type of H with crosslink_if_cluster ?q2 _ _ = _ =>
        exact (rt_expands _ _ (same_tables_retains q1 q2 eq_refl eq_refl) rid content He) end.
Qed.

(** What the transaction leaves: a consistent repository that has the artifact. *)
Lemma store_full_ok q uuid content q' :
  repo_ok q → store_full q uuid content = Ret q' → small q' → hash_of uuid content = uuid →
  repo_ok q' ∧ retains q q' ∧
  ∃ rid c, rid_of_uuid q' uuid = Some rid ∧ expands q' rid c ∧ hash_of uuid c = uuid ∧
    ((∀ r row, t_blob q !! r = Some row → b_uuid row = uuid → b_size row = (-1)%Z) → c = content).
Proof.
  intros Hok. unfold store_full. intros H Hsm Hh. apply bind_ret_inv in H as (ex & Hex & H).
  apply Exists_ret in Hex as ->. destruct (rid_of_uuid q uuid) as [rid|] eqn:Hu.
  - pose proof (rid_of_uuid_Some _ _ _ Hu) as (row & Hrow & Hur). rewrite Hrow in H.
    destruct (Z.eqb_spec (b_size row) (-1)) as [Hs|Hs]; cbn [negb] in H.
    + apply bind_ret_inv in H as (stored & Hst & H). injection H as <-. subst uuid.
      assert (zlen content < 2 ^ 32)%Z as Hlt.
      { apply (Hsm rid (MkBlob (b_uuid row) (zlen content) (Some stored) 1)). apply lookup_insert_eq. }
      destruct (fill_phantom_ok q rid row content stored) as (H1 & H2 & H3); try done.
      split_and!; [done|done|]. exists rid, content. split_and!; [|done..].
      by apply (retains_rid q).
    + injection H as <-. split_and!; [done|reflexivity|].
      destruct (ok_content q Hok rid row Hrow Hs) as (c & He & Hc). subst uuid.
      exists rid, c. split_and!; [done|done|done|]. intros Hall. by destruct Hs; apply (Hall rid).
  - apply bind_ret_inv in H as (stored & Hst & H). apply bind_ret_inv in H as ([q1 rid] & Hins & H).
    assert (zlen content < 2 ^ 32)%Z as Hlt.
    { pose proof (insert_blob_ret _ _ _ _ Hins) as (-> & Hn & _).
      assert (∃ row, t_blob q' !! rid = Some row ∧ b_size row = zlen content) as (row & Hrow & Hsz).
      { cbv zeta in H. destruct (crosslink_if_cluster_frame _ _ _ _ H) as (Hb & _).
        eexists. split; [eapply lookup_weaken; [apply lookup_insert_eq|exact Hb]|done]. }
      rewrite <- Hsz. by apply (Hsm rid). }
    destruct (insert_full_ok q uuid content stored q1 rid) as (H1 & H2 & H3 & H4); try done.
    cbv zeta in H. apply crosslink_if_cluster_ok in H as [H5 H6]; [|by apply (repo_ok_ext q1)].
    assert (extends q1 q') as He1 by exact H6.
    split_and!; [done|apply extends_retains; by eapply extends_trans|].
    exists rid, content. split_and!; [|by eapply expands_extends|done|done].
    apply (retains_rid q1); [done|by apply extends_retains|done].
Qed.

(** Artifacts whose crosslinking cannot fail: not a cluster, or one whose members
    are long enough to be uuids; parsing must not panic. *)
Definition acceptable (content : bytes) : Prop :=
  match Parse (Some content) with
  | Ret d => d_Type d = Cluster → Forall (λ u, 40 ≤ length u) (d_M d)
  | Fail _ => True
  | Panic | NoFuel => False
  end.

Lemma crosslink_member_total q u : 40 ≤ length u → ∃ q', crosslink_member q u = Ret q'.
Proof.
  intros Hu. unfold crosslink_member, StorePhantom, Blob.Exists.
  rewrite bool_decide_false by (intros ->; cbn in Hu; lia). cbn [mbind outcome_bind].
  destruct (rid_of_uuid q u) as [r|] eqn:E; [by eexists|].
  rewrite insert_blob_new by done. by eexists.
Qed.

Lemma crosslink_members_total M q :
  Forall (λ u, 40 ≤ length u) M → ∃ q', crosslink_members q M = Ret q'.
Proof.
  intros HM. revert q. induction HM as [|u M Hu HM IH]; intros q; [by eexists|].
  cbn [crosslink_members]. destruct (crosslink_member_total q u Hu) as [q1 ->]. apply IH.
Qed.

Lemma store_full_total q uuid content :
  repo_ok q → 40 ≤ length uuid → acceptable content → ∃ q', store_full q uuid content = Ret q'.
Proof.
  intros Hok Hu Ha. unfold store_full, Blob.Exists.
  rewrite bool_decide_false by (intros ->; cbn in Hu; lia). cbn [mbind outcome_bind].
  destruct (rid_of_uuid q uuid) as [r|] eqn:E.
  - destruct (t_blob q !! r) as [row|]; [|by eexists]. destruct (negb _); by eexists.
  - cbn [Compress mbind outcome_bind]. rewrite insert_blob_new by done. cbn [mbind outcome_bind].
    cbv zeta. unfold crosslink_if_cluster. unfold acceptable in Ha.
    destruct (Parse (Some content)) as [d|e| |]; [|by eexists|done..].
    case_bool_decide as Hd; [|by eexists]. unfold CrosslinkCluster.
    destruct (Z.leb_spec (next_rid q) 0) as [Hle|]; [destruct (next_rid_fresh q); lia|].
    by apply crosslink_members_total, Ha.
Qed.

Lemma resolve_ok q deltaSrc payload cache cache' c :
  coherent cache q → resolveFileContent q deltaSrc payload cache = Ret (cache', c) → coherent cache' q.
Proof.
  intros Hc. unfold resolveFileContent. case_bool_decide; [by intros [= <- <-]|].
  intros H'. apply bind_ret_inv in H' as ([r|] & _ & H'); [|done].
  apply bind_ret_inv in H' as ([c1 base] & Hb & H').
  apply wrap_err_ret, wrap_err_ret in Hb. apply Cache_Expand_sound in Hb as (Hc1 & _); [|done].
  apply bind_ret_inv in H' as (applied & _ & H'). by injection H' as <- <-.
Qed.

Lemma IsValidHash_any {E F} h b : IsValidHash (E:=E) h = Ret b → IsValidHash (E:=F) h = Ret b.
Proof.
  unfold IsValidHash. destruct (length h =? 0); [done|].
  destruct (negb (length h =? 40) && negb (length h =? 64)); by intros [= <-].
Qed.

Lemma IsValidHash_length {E} h : IsValidHash (E:=E) h = Ret true → 40 ≤ length h.
Proof.
  unfold IsValidHash. destruct (length h =? 0); [done|].
  destruct (Nat.eqb_spec (length h) 40); [lia|]. destruct (Nat.eqb_spec (length h) 64); [lia|done].
Qed.

Lemma storeReceivedFile_inv q uuid deltaSrc payload cache cache' q' :
  storeReceivedFile q uuid deltaSrc payload cache = Ret (cache', q') →
  ∃ data c, payload = Some data ∧ resolveFileContent q deltaSrc data cache = Ret (cache', c) ∧
    IsValidHash (E:=db_error) uuid = Ret true ∧ hash_of uuid c = uuid ∧ store_full q uuid c = Ret q'.
Proof.
  unfold storeReceivedFile. case_bool_decide; [done|]. destruct payload as [data|]; [|done].
  intros H'. apply bind_ret_inv in H' as (valid & Hv & H'). destruct valid; [|done]. cbn [negb] in H'.
  apply bind_ret_inv in H' as ([c1 full] & Hr & H'). case_bool_decide as Hh; [|done]. cbn [negb] in H'.
  apply bind_ret_inv in H' as (q1 & Hs & H'). injection H' as <- <-.
  apply wrap_err_ret, wrap_err_ret in Hs. exists data, full. split_and!; try done.
  by eapply IsValidHash_any.
Qed.

(** Receiving keeps the repository and the cache consistent and loses nothing. *)
Lemma storeReceivedFile_ok q uuid deltaSrc payload cache cache' q' :
  repo_ok q → coherent cache q →
  storeReceivedFile q uuid deltaSrc payload cache = Ret (cache', q') → small q' →
  repo_ok q' ∧ retains q q' ∧ coherent cache' q' ∧
  ∃ rid c, rid_of_uuid q' uuid = Some rid ∧ expands q' rid c ∧ hash_of uuid c = uuid.
Proof.
  intros Hok Hc H Hsm.
  destruct (storeReceivedFile_inv _ _ _ _ _ _ _ H) as (data & c & -> & Hr & _ & Hh & Hs).
  apply resolve_ok in Hr; [|done].
  destruct (store_full_ok q uuid c q') as (H1 & H2 & rid & c' & H3 & H4 & H5 & _); try done.
  split_and!; [done|done|by eapply coherent_retains|]. by exists rid, c'.
Qed.

(** A whole artifact with the right hash is stored. *)
Lemma receive_total q uuid content cache :
  repo_ok q → IsValidHash (E:=db_error) uuid = Ret true → hash_of uuid content = uuid →
  acceptable content →
  ∃ q', store_full q uuid content = Ret q' ∧
    storeReceivedFile q uuid [] (Some content) cache = Ret (cache, q').
Proof.
  intros Hok Hv Hh Ha.
  assert (40 ≤ length uuid) as Hl.
  { by eapply IsValidHash_length. }
  destruct (store_full_total q uuid content Hok Hl Ha) as [q' Hq']. exists q'. split; [done|].
  unfold storeReceivedFile. rewrite bool_decide_false by (intros ->; cbn in Hl; lia).
  assert (IsValidHash (E:=option Cache * db_error) uuid = Ret true) as ->.
  { by eapply IsValidHash_any. }
  cbn [mbind outcome_bind negb]. unfold resolveFileContent.
  rewrite bool_decide_true by done. cbn [mbind outcome_bind].
  rewrite bool_decide_true by done. cbn [negb]. by rewrite Hq'.
Qed.

(** A failure leaves a coherent cache. *)
Lemma storeReceivedFile_failed q uuid deltaSrc payload cache cache' e :
  coherent cache q → storeReceivedFile q uuid deltaSrc payload cache = Fail (cache', e) →
  coherent cache' q.
Proof.
  intros Hc. unfold storeReceivedFile. case_bool_decide; [done|]. destruct payload as [data|]; [|done].
  intros H'. apply bind_fail_inv in H' as [Hv|(valid & _ & H')].
  { revert Hv. unfold IsValidHash. destruct (_ =? 0); [done|]. by destruct (_ && _). }
  destruct (negb valid); [by injection H' as <- _|].
  apply bind_fail_inv in H' as [Hr|([c1 full] & Hr & H')].
  - revert Hr. unfold resolveFileContent. case_bool_decide; [done|]. intros Hr.
    apply bind_fail_inv in Hr as [Hx|([rid|] & _ & Hr)].
    + by apply wrap_err_fail in Hx as (? & _ & [= -> _]).
    + apply bind_fail_inv in Hr as [Hx|([c2 base] & Hx & Hr)].
      * apply wrap_err_fail in Hx as (? & _ & [= -> _]). by apply cache_missed_coherent.
      * apply wrap_err_ret, wrap_err_ret in Hx. apply Cache_Expand_sound in Hx as (Hc2 & _); [|done].
        apply bind_fail_inv in Hr as [Hx'|(? & _ & Hr)]; [|done].
        by apply wrap_err_fail in Hx' as (? & _ & [= -> _]).
    + by injection Hr as <- _.
  - apply resolve_ok in Hr; [|done]. destruct (negb _); [by injection H' as <- _|].
    apply bind_fail_inv in H' as [Hx|(? & _ & H')]; [|done].
    by apply wrap_err_fail in Hx as (? & _ & [= -> _]).
Qed.
End store.

(** What receiving does to the tables, whether they are consistent or not. *)
Section frame.
Context {codec : Zlib} {sha3 : Sha3}.

Lemma insert_rows q row q' rid : insert_blob q row = Ret (q', rid) →
  rows_kept q q' ∧ t_private q' = t_private q.
Proof.
  intros H. apply insert_blob_ret in H as (-> & Hn & _). split; [|done].
  apply extends_retains, extends_insert, Hn.
Qed.

Lemma StorePhantom_frame q uuid q' rid : StorePhantom q uuid = Ret (q', rid) →
  t_private q' = t_private q.
Proof.
  unfold StorePhantom. case_bool_decide; [done|]. intros Hs.
  apply bind_ret_inv in Hs as ([r|] & _ & Hs); [by injection Hs as <- <-|].
  apply bind_ret_inv in Hs as ([q1 rid1] & Hins & Hs). apply insert_rows in Hins as [_ Hp].
  by injection Hs as <- <-.
Qed.

Lemma crosslink_members_private M q q' : crosslink_members q M = Ret q' → t_private q' = t_private q.
Proof.
  revert q. induction M as [|u M IH]; intros q; cbn [crosslink_members]; [by intros [= <-]|].
  intros H. apply bind_ret_inv in H as (q1 & H1 & H). rewrite (IH _ H). clear H.
  unfold crosslink_member in H1. apply bind_ret_inv in H1 as ([r|] & _ & H1); [by injection H1 as <-|].
  apply bind_ret_inv in H1 as ([q2 rid] & Hp & H1). injection H1 as <-. by eapply StorePhantom_frame.
Qed.

Lemma store_full_frame q uuid content q' : store_full q uuid content = Ret q' →
  rows_kept q q' ∧ t_private q' = t_private q.
Proof.
  unfold store_full. intros H. apply bind_ret_inv in H as ([rid|] & _ & H).
  - destruct (t_blob q !! rid) as [row|] eqn:Hrow; [|by injection H as <-].
    destruct (Z.eqb_spec (b_size row) (-1)) as [Hs|]; cbn [negb] in H; [|by injection H as <-].
    apply bind_ret_inv in H as (stored & _ & H). injection H as <-. split; [|done].
    intros r row' Hr. cbn. destruct (decide (r = rid)) as [->|Hn].
    + rewrite lookup_insert_eq. eexists. split; [done|]. by assert (row' = row) as -> by congruence.
    + rewrite lookup_insert_ne by done. by exists row'.
  - apply bind_ret_inv in H as (stored & _ & H). apply bind_ret_inv in H as ([q1 rid] & Hins & H).
    apply insert_rows in Hins as [Hk Hp]. rewrite <- Hp. cbv zeta in H.
    pose proof (crosslink_if_cluster_frame _ _ _ _ H) as He. split.
    + etrans; [exact Hk|]. exact (rt_rows _ _ (extends_retains _ _ He)).
    + revert H. unfold crosslink_if_cluster, CrosslinkCluster.
      destruct (Parse (Some content)) as [d|e| |]; [|by intros [= <-]|done..].
      case_bool_decide; [|by intros [= <-]]. destruct (rid <=? 0)%Z; [done|].
      intros Hm. by apply crosslink_members_private in Hm.
Qed.

(** Rows that are new are phantoms. *)
Definition only_phantoms (q q' : repo) : Prop :=
  ∀ r row, t_blob q' !! r = Some row → t_blob q !! r = Some row ∨ b_size row = (-1)%Z.

Lemma StorePhantom_new q uuid q' rid : StorePhantom q uuid = Ret (q', rid) → only_phantoms q q'.
Proof.
  unfold StorePhantom. case_bool_decide; [done|]. intros Hs.
  apply bind_ret_inv in Hs as ([r|] & _ & Hs); [injection Hs as <- <-; intros ??; auto|].
  apply bind_ret_inv in Hs as ([q1 rid1] & Hins & Hs).
  apply insert_blob_ret in Hins as (-> & _). injection Hs as <- <-.
  intros r row. cbn. intros [[_ <-]|[_ Hr]]%lookup_insert_Some; auto.
Qed.

Lemma crosslink_members_new M q q' : crosslink_members q M = Ret q' → only_phantoms q q'.
Proof.
  revert q. induction M as [|u M IH]; intros q; cbn [crosslink_members]; [intros [= <-] ??; auto|].
  intros H. apply bind_ret_inv in H as (q1 & H1 & H). apply IH in H. intros r row Hr.
  destruct (H r row Hr) as [Hr1|]; [|auto]. unfold crosslink_member in H1.
  apply bind_ret_inv in H1 as ([r1|] & _ & H1); [injection H1 as <-; auto|].
  apply bind_ret_inv in H1 as ([q2 rid] & Hp & H1). injection H1 as <-.
  by apply (StorePhantom_new _ _ _ _ Hp).
Qed.

(** The rows after receiving an artifact: those there were, phantoms, and the
    artifact's. *)
Lemma store_full_new q uuid content q' : store_full q uuid content = Ret q' →
  ∀ r row, t_blob q' !! r = Some row →
    t_blob q !! r = Some row ∨ b_size row = (-1)%Z ∨ (b_uuid row = uuid ∧ b_size row = zlen content).
Proof.
  unfold store_full. intros H. apply bind_ret_inv in H as (ex & Hex & H). apply Exists_ret in Hex as ->.
  destruct (rid_of_uuid q uuid) as [rid|] eqn:Hu.
  - apply rid_of_uuid_Some in Hu as (row0 & Hrow0 & Hu). rewrite Hrow0 in H.
    destruct (negb _); [injection H as <-; auto|].
    apply bind_ret_inv in H as (stored & _ & H). injection H as <-. intros r row. cbn.
    intros [[_ <-]|[_ Hr]]%lookup_insert_Some; cbn; auto.
  - apply bind_ret_inv in H as (stored & _ & H). apply bind_ret_inv in H as ([q1 rid] & Hins & H).
    apply insert_blob_ret in Hins as (-> & _). cbv zeta in H.
    assert (only_phantoms (with_blob <[rid := MkBlob uuid (zlen content) (Some stored) 1]> q) q') as Hn.
    { revert H. unfold crosslink_if_cluster, CrosslinkCluster.
      destruct (Parse (Some content)) as [d|e| |]; [|intros [= <-] ??; auto|done..].
      case_bool_decide; [|intros [= <-] ??; auto]. destruct (rid <=? 0)%Z; [done|].
      exact (crosslink_members_new _ _ _). }
    intros r row Hr. destruct (Hn r row Hr) as [Hr1|]; [|auto]. revert Hr1. cbn.
    intros [[_ <-]|[_ Hr1]]%lookup_insert_Some; cbn; auto.
Qed.

Lemma storeReceivedFile_frame q uuid deltaSrc payload cache cache' q' :
  storeReceivedFile q uuid deltaSrc payload cache = Ret (cache', q') →
  rows_kept q q' ∧ t_private q' = t_private q.
Proof.
  intros H. destruct (storeReceivedFile_inv _ _ _ _ _ _ _ H) as (data & c & _ & _ & _ & _ & Hs).
  by eapply store_full_frame.
Qed.
End frame.

(** ** Properties *)

(** A received artifact that was accepted can be read back: the repository stays
    consistent, keeps every artifact it had, the cache stays coherent, and the
    uuid names content with that hash; if the artifact was missing or a phantom,
    it is the content received (a delta being applied to its source). *)
Theorem storeReceivedFile_correct {codec : Zlib} {laws : ZlibLaws} {sha3 : Sha3}
    q uuid deltaSrc payload cache cache' q'
    (Hok : repo_ok q) (Hc : coherent cache q)
    (H : storeReceivedFile q uuid deltaSrc payload cache = Ret (cache', q')) (Hsm : small q') :
  repo_ok q' ∧ retains q q' ∧ coherent cache' q' ∧
  ∃ rid c, rid_of_uuid q' uuid = Some rid ∧ Expand q' rid = Ret c ∧ hash_of uuid c = uuid ∧
    ((∀ r row, t_blob q !! r = Some row → b_uuid row = uuid → b_size row = (-1)%Z) →
     ∃ data, payload = Some data ∧ resolveFileContent q deltaSrc data cache = Ret (cache', c)).
Proof.
  destruct (storeReceivedFile_ok _ _ _ _ _ _ _ Hok Hc H Hsm) as (H1 & H2 & H3 & _).
  destruct (storeReceivedFile_inv _ _ _ _ _ _ _ H) as (data & c & -> & Hr & _ & Hh & Hs).
  destruct (store_full_ok q uuid c q') as (_ & _ & rid & c' & H4 & H5 & H6 & H7); try done.
  split_and!; [done..|]. exists rid, c'.
  pose proof (rid_of_uuid_Some _ _ _ H4) as (row & Hrow & _).
  split_and!; [done| |done|intros Hall; exists data; by rewrite (H7 Hall)].
  apply Expand_expands; [|done]. by apply (ok_row q' H1 rid row).
Qed.

(** A full artifact with the right hash is never refused, whatever is there
    already, unless it is a cluster with a member too short to be a uuid. *)
Theorem storeReceivedFile_accepts {codec : Zlib} {laws : ZlibLaws} {sha3 : Sha3} q uuid content cache
    (Hok : repo_ok q) (Hv : IsValidHash (E:=db_error) uuid = Ret true)
    (Hh : hash_of uuid content = uuid) (Ha : acceptable content) :
  ∃ q', storeReceivedFile q uuid [] (Some content) cache = Ret (cache, q').
Proof. destruct (receive_total q uuid content cache) as (q' & _ & H); [done..|by exists q']. Qed.

(** A new cluster makes its members known: each has a row afterwards (a phantom
    if it was missing), and those that were there are no longer waiting to be
    clustered. *)
Theorem cluster_members_known {codec : Zlib} {laws : ZlibLaws} {sha3 : Sha3}
    q uuid content cache q' d
    (Hok : repo_ok q) (Hp : Parse (Some content) = Ret d) (Hd : d_Type d = Cluster)
    (Hnew : rid_of_uuid q uuid = None) (Hlt : (zlen content < 2 ^ 32)%Z)
    (H : storeReceivedFile q uuid [] (Some content) cache = Ret (cache, q')) :
  Forall (λ u, is_Some (rid_of_uuid q' u)) (d_M d) ∧
  ∀ u r, u ∈ d_M d → rid_of_uuid q u = Some r → r ∉ t_unclustered q'.
Proof.
  destruct (storeReceivedFile_inv _ _ _ _ _ _ _ H) as (data & c & [= <-] & Hr & _ & Hh & Hs).
  unfold resolveFileContent in Hr. rewrite bool_decide_true in Hr by done. injection Hr as <-.
  unfold store_full in Hs. apply bind_ret_inv in Hs as (ex & Hex & Hs).
  apply Exists_ret in Hex as ->. rewrite Hnew in Hs.
  apply bind_ret_inv in Hs as (stored & Hst & Hs). apply bind_ret_inv in Hs as ([q1 rid] & Hins & Hs).
  destruct (insert_full_ok q uuid content stored q1 rid) as (H1 & H2 & _); try done.
  cbv zeta in Hs. unfold crosslink_if_cluster in Hs. rewrite Hp, bool_decide_true in Hs by done.
  set (q2 := with_unclustered _ q1) in Hs.
  assert (repo_ok q2) as Hok2 by by apply (repo_ok_ext q1).
  split; [by apply (CrosslinkCluster_ok _ _ _ _ Hok2 Hs)|].
  assert (retains q q2) as Hr2.
  { transitivity q1; [by apply extends_retains|by apply same_tables_retains]. }
  intros u r Hu Hur. unfold CrosslinkCluster in Hs. destruct (rid <=? 0)%Z; [done|].
  eapply members_leave; [|exact Hs|exact Hu|]; [by apply (repo_ok_ext q2)|].
  exact (retains_rid q q2 u r Hok2 Hr2 Hur).
Qed.

(** ** Concrete runs *)

#[local] Existing Instance stored.
#[local] Existing Instance stored_laws.
#[local] Existing Instance test_sha3.

Definition repo_of (m : received (option Cache * repo)) : repo :=
  match m with Ret (_, q) => q | _ => empty_repo end.

Definition phantom_repo : repo :=
  match StorePhantom empty_repo (sha1_hex text_a) with Ret (q, _) => q | _ => empty_repo end.

Lemma phantom_repo_ok : repo_ok phantom_repo.
Proof.
  apply (StorePhantom_ok empty_repo (sha1_hex text_a) _ 1 empty_ok). vm_compute. reflexivity.
Qed.

Definition receive_a : repo :=
  repo_of (storeReceivedFile phantom_repo (sha1_hex text_a) [] (Some text_a) None).

Lemma receive_a_small : small receive_a.
Proof.
  assert (map_Forall (λ _ row, (b_size row < 2 ^ 32)%Z) (t_blob receive_a)) as H;
    [|intros rid row Hrow; exact (H rid row Hrow)].
  by_decide.
Qed.

Lemma storeReceivedFile_correct_witness :
  repo_ok receive_a ∧ retains phantom_repo receive_a ∧ coherent None receive_a ∧
  ∃ rid c, rid_of_uuid receive_a (sha1_hex text_a) = Some rid ∧ Expand receive_a rid = Ret c ∧
    hash_of (sha1_hex text_a) c = sha1_hex text_a ∧
    ((∀ r row, t_blob phantom_repo !! r = Some row → b_uuid row = sha1_hex text_a → b_size row = (-1)%Z) →
     ∃ data, Some text_a = Some data ∧ resolveFileContent phantom_repo [] data None = Ret (None, c)).
Proof.
  apply (storeReceivedFile_correct phantom_repo (sha1_hex text_a) [] (Some text_a) None None receive_a
    phantom_repo_ok (coherent_none _)); [vm_compute; reflexivity|exact receive_a_small].
Defined.

Lemma storeReceivedFile_accepts_witness :
  ∃ q', storeReceivedFile repo_a (sha1_hex text_b) [] (Some text_b) None = Ret (None, q').
Proof.
  apply storeReceivedFile_accepts; [exact repo_a_ok|vm_compute; reflexivity..|vm_compute; exact I].
Defined.

Definition cluster_text : bytes := Marshal (cluster_deck [sha1_hex text_a; sha1_hex text_b]).
Definition cluster_repo : repo :=
  repo_of (storeReceivedFile repo_a (sha1_hex cluster_text) [] (Some cluster_text) None).
Definition parsed_cluster : Deck :=
  match Parse (Some cluster_text) with Ret d => d | _ => deck_zero end.

Lemma cluster_members_known_witness :
  Forall (λ u, is_Some (rid_of_uuid cluster_repo u)) (d_M parsed_cluster) ∧
  ∀ u r, u ∈ d_M parsed_cluster → rid_of_uuid repo_a u = Some r → r ∉ t_unclustered cluster_repo.
Proof.
  apply (cluster_members_known repo_a (sha1_hex cluster_text) cluster_text None);
    [exact repo_a_ok|vm_compute; reflexivity..].
Defined.

(** An artifact with the text [body] and its checksum. *)
Definition with_Z (body : bytes) : bytes := body ++ str "Z " ++ computeZ body ++ [NL].
Definition push_panics (content : bytes) : Prop :=
  storeReceivedFile empty_repo (sha1_hex content) [] (Some content) None = Panic.

(** A peer can make the receiver panic: with a manifest whose W card has a
    negative size, and with a cluster that has an empty member. *)
Example pushed_negative_W_panics : push_panics (with_Z (str "W -1" ++ [NL])).
Proof. vm_compute. reflexivity. Qed.
Example pushed_empty_member_panics : push_panics (with_Z (str "M " ++ [NL])).
Proof. vm_compute. reflexivity. Qed.

(** A cluster that arrives for a phantom is stored, but not crosslinked: its
    members stay unknown. *)
Definition awaiting_cluster : repo :=
  match StorePhantom empty_repo (sha1_hex cluster_text) with Ret (q, _) => q | _ => empty_repo end.
Example phantom_cluster_not_linked :
  let q := repo_of (storeReceivedFile awaiting_cluster (sha1_hex cluster_text) [] (Some cluster_text) None) in
  rid_of_uuid q (sha1_hex cluster_text) = Some 1%Z ∧ Load q 1 = Ret cluster_text ∧
  rid_of_uuid q (sha1_hex text_a) = None.
Proof. vm_compute. auto. Qed.
