(* ===== verification/Tag.v ===== *)
(** * Tags (src/internal/tag)

    A tag is a row of [tagxref] for an artifact: put there by a control artifact
    or by a check-in itself, or propagated (with [tx_srcid] 0) along the primary
    edges of [plink] to the descendants of a tagged check-in.  [propagate] walks
    these edges in the order of a priority queue, a [container/heap]. *)
From S2P Require Import Prelude GoStrings Hash Zlib Deck Julian Blob Db.
From stdpp Require Import list gmap sets.

Abbreviation out := (outcome db_error).

(** ** The queue

    Go's [container/heap] on a slice; out of range [Less] and [Swap] do nothing,
    which [up] and [down] never ask for. *)

Record queueItem := MkItem { qi_rid : Z; qi_mtime : julian }.
Abbreviation mtimeQueue := (list queueItem).

Definition Less (h : mtimeQueue) (i j : nat) : bool :=
  match h !! i, h !! j with
  | Some a, Some b => f_ltb (qi_mtime a) (qi_mtime b)
  | _, _ => false
  end.

Definition Swap (h : mtimeQueue) (i j : nat) : mtimeQueue :=
  match h !! i, h !! j with
  | Some a, Some b => <[i := b]> (<[j := a]> h)
  | _, _ => h
  end.

Fixpoint up (fuel : nat) (h : mtimeQueue) (j : nat) : mtimeQueue :=
  match fuel with
  | O => h
  | S fuel =>
    let i := (j - 1) / 2 in
    if (i =? j) || negb (Less h j i) then h else up fuel (Swap h i j) i
  end.

Fixpoint down (fuel : nat) (h : mtimeQueue) (i n : nat) : mtimeQueue :=
  match fuel with
  | O => h
  | S fuel =>
    let j1 := 2 * i + 1 in
    if n <=? j1 then h else
    let j := if (j1 + 1 <? n) && Less h (j1 + 1) j1 then j1 + 1 else j1 in
    if negb (Less h j i) then h else down fuel (Swap h i j) j n
  end.

Definition heap_Push (h : mtimeQueue) (x : queueItem) : mtimeQueue :=
  let h := h ++ [x] in up (length h) h (length h - 1).

(** [None] for the empty queue, which is not popped. *)
Definition heap_Pop (h : mtimeQueue) : option (queueItem * mtimeQueue) :=
  let n := length h - 1 in
  let h := down (length h) (Swap h 0 n) 0 n in
  match h !! n with
  | Some x => Some (x, take n h)
  | None => None
  end.

(** ** Tags and their names *)

Definition TagCancel : Z := 0.
Definition TagSingleton : Z := 1.
Definition TagPropagating : Z := 2.

Record TagOpts := MkTagOpts {
  to_TargetRID : Z; to_TagName : bytes; to_TagType : Z; to_Value : bytes; to_User : bytes; to_Time : time }.
Record ApplyOpts := MkApplyOpts {
  ao_TargetRID : Z; ao_SrcRID : Z; ao_TagName : bytes; ao_TagType : Z; ao_Value : bytes;
  ao_MTime : julian }.

Definition on_tagxref (f : gmap (Z * Z) tagRow → gmap (Z * Z) tagRow) : db → db := on_repo (with_tagxref f).
Definition d_tagxref (d : db) : gmap (Z * Z) tagRow := t_tagxref (d_repo d).

(** The rowid of a new row, in a table with an integer primary key. *)
Definition next_rowid (ids : list Z) : Z := foldr Z.max 0%Z ids + 1.

Definition ensureTag (d : db) (name : bytes) : out (db * Z) :=
  if bool_decide (name = []) then Panic else
  match k_tag (d_links d) !! name with
  | Some tagid => Ret (d, tagid)
  | None =>
    let tagid := next_rowid (map snd (map_to_list (k_tag (d_links d)))) in
    Ret (on_tag <[name := tagid]> d, tagid)
  end.

Definition bgcolor : bytes := str "bgcolor".

(** [UPDATE event SET bgcolor=? WHERE objid=?] *)
Definition set_bgcolor (v : option bytes) (objid : Z) : db → db :=
  on_event (alter (λ e, MkEvent (ev_type e) (ev_mtime e) (ev_tagid e) (ev_user e) (ev_comment e) v) objid).

(** ** Propagation (propagate.go) *)

Section tag.
Context {sqlite : Sqlite} {order : Unordered}.

Record child := MkChild { ch_cid : Z; ch_mtime : julian; ch_doit : bool }.

(** The [doit] column: an older propagated tag, or none, is overwritten; only a
    propagated tag is cancelled. *)
Definition doit (d : db) (tagid tagType : Z) (mtime : julian) (cid : Z) : bool :=
  match d_tagxref d !! (tagid, cid) with
  | Some r =>
    if (tagType =? TagPropagating)%Z then (tx_srcid r =? 0)%Z && f_ltb (tx_mtime r) mtime
    else (tx_srcid r =? 0)%Z
  | None => (tagType =? TagPropagating)%Z
  end.

(** The query for the primary children of a check-in. *)
Definition children (d : db) (tagid tagType : Z) (mtime : julian) (currentRid : Z) : list child :=
  map (λ p, MkChild p.1.2 (scan_julian (pk_mtime p.2)) (doit d tagid tagType mtime p.1.2))
    (any_order (filter (λ p, p.1.1 = currentRid ∧ pk_isprim p.2 = true)
       (map_to_list (k_plink (d_links d))))).

(** What is done to a child that takes part. *)
Definition mark (tagid tagType origID : Z) (mtime : julian) (value tagName : bytes) (cid : Z) (d : db) : db :=
  if (tagType =? TagPropagating)%Z then
    let d := on_tagxref <[(tagid, cid) := MkTagRow 2 0 origID (Some value) mtime]> d in
    if bool_decide (tagName = bgcolor) then set_bgcolor (Some value) cid d else d
  else
    let d := on_tagxref (delete (tagid, cid)) d in
    if bool_decide (tagName = bgcolor) then set_bgcolor None cid d else d.

Definition maxIterations : Z := 1000000.

Fixpoint propagate_loop (fuel : nat) (tagid tagType origID : Z) (mtime : julian) (value tagName : bytes)
    (d : db) (pq : mtimeQueue) (visited : gset Z) (iterations : Z) : kept db :=
  match fuel with
  | O => NoFuel
  | S fuel =>
    match heap_Pop pq with
    | None => Ret d
    | Some (item, pq) =>
      let iterations := (iterations + 1)%Z in
      if (maxIterations <? iterations)%Z then Fail (d, EIterations) else
      let currentRid := qi_rid item in
      if bool_decide (currentRid ∈ visited) then
        propagate_loop fuel tagid tagType origID mtime value tagName d pq visited iterations
      else
        let kids := filter (λ c, ch_doit c = true) (children d tagid tagType mtime currentRid) in
        let d := foldl (λ d c, mark tagid tagType origID mtime value tagName (ch_cid c) d) d kids in
        let pq := foldl (λ q c, heap_Push q (MkItem (ch_cid c) (ch_mtime c))) pq kids in
        propagate_loop fuel tagid tagType origID mtime value tagName d pq ({[ currentRid ]} ∪ visited) iterations
    end
  end.

(** Each row of [plink] is queued at most once, with the seed. *)
Definition propagate (d : db) (tagid tagType origID : Z) (mtime : julian) (value tagName : bytes) (pid : Z) :
    kept db :=
  propagate_loop (size (k_plink (d_links d)) + 2) tagid tagType origID mtime value tagName d
    (heap_Push [] (MkItem pid (f64 0))) ∅ 0.

(** The rows of [tagxref] for an artifact: tagid, and the row. *)
Definition tags_of (d : db) (rid : Z) : list (Z * tagRow) :=
  map (λ p, (p.1.1, p.2))
    (any_order (filter (λ p, p.1.2 = rid) (map_to_list (d_tagxref d)))).

(** The name of a tag: [tagid] is a key as well. *)
Definition tag_name (d : db) (tagid : Z) : option bytes :=
  fst <$> head (filter (λ p, p.2 = tagid) (map_to_list (k_tag (d_links d)))).

(** The scan of the rows, into variables that take no NULL. *)
Fixpoint scan_entries (l : list (Z * tagRow)) : out (list (Z * tagRow * bytes)) :=
  match l with
  | [] => Ret []
  | (tagid, r) :: l =>
    match tx_value r with
    | None => Fail EScan
    | Some v => es ← scan_entries l; Ret ((tagid, r, v) :: es)
    end
  end.

Fixpoint propagate_entries (l : list (Z * tagRow * bytes)) (rid : Z) (d : db) : kept db :=
  match l with
  | [] => Ret d
  | (tagid, r, value) :: l =>
    let tagtype := if (tx_tagtype r =? TagSingleton)%Z then TagCancel else tx_tagtype r in
    match tag_name d tagid with
    | None => Fail (d, ENoRows)
    | Some tagname =>
      d ← propagate d tagid tagtype (tx_origid r) (scan_julian (tx_mtime r)) value tagname rid;
      propagate_entries l rid d
    end
  end.

Definition PropagateAll (d : db) (rid : Z) : kept db :=
  if (rid <=? 0)%Z then Ret d else
  entries ← unchanged d (scan_entries (tags_of d rid));
  propagate_entries entries rid d.

(** ** Applying tags (tag.go) *)

Definition ApplyTagWithTx (d : db) (opts : ApplyOpts) : kept db :=
  if bool_decide (ao_TagName opts = []) then Panic else
  if (ao_TargetRID opts <=? 0)%Z then Panic else
  '(d, tagid) ← unchanged d (ensureTag d (ao_TagName opts));
  let d := on_tagxref <[(tagid, ao_TargetRID opts) :=
             MkTagRow (ao_TagType opts) (ao_SrcRID opts) (ao_TargetRID opts) (Some (ao_Value opts))
               (ao_MTime opts)]> d in
  let d := if bool_decide (ao_TagName opts = bgcolor) && (ao_TagType opts =? TagPropagating)%Z
           then set_bgcolor (Some (ao_Value opts)) (ao_TargetRID opts) d else d in
  if (ao_TagType opts =? TagPropagating)%Z || (ao_TagType opts =? TagCancel)%Z then
    propagate d tagid (ao_TagType opts) (ao_TargetRID opts) (ao_MTime opts) (ao_Value opts)
      (ao_TagName opts) (ao_TargetRID opts)
  else Ret d.

(** The same in a transaction of its own. *)
Definition ApplyTag (d : db) (opts : ApplyOpts) : kept db := unchanged d (rollback (ApplyTagWithTx d opts)).

Definition deck_tag_type (tagType : Z) : option byte :=
  if (tagType =? TagCancel)%Z then Some "-"%byte else
  if (tagType =? TagSingleton)%Z then Some "+"%byte else
  if (tagType =? TagPropagating)%Z then Some "*"%byte else None.

(** The control artifact that adds or cancels a tag. *)
Definition control_deck (opts : TagOpts) (t : time) (type : byte) (targetUUID : bytes) : Deck :=
  set_U (to_User opts) (set_T [MkTagCard type (to_TagName opts) targetUUID (to_Value opts)]
    (set_D t (set_Type Control deck_zero))).

Context {codec : Zlib}.

Definition AddTag (now : time) (d : db) (opts : TagOpts) : out (db * Z) :=
  if bool_decide (to_TagName opts = []) then Panic else
  if (to_TargetRID opts <=? 0)%Z then Panic else
  let t := if IsZero (to_Time opts) then now else to_Time opts in
  match t_blob (d_repo d) !! to_TargetRID opts with
  | None => Fail ENoRows
  | Some target =>
    match deck_tag_type (to_TagType opts) with
    | None => Fail (EInvalid (to_TagName opts))
    | Some type =>
      let manifestBytes := Marshal (control_deck opts t type (b_uuid target)) in
      '(q, controlRid, _) ← in_repo (Store (d_repo d) manifestBytes);
      let d := on_repo (λ _, q) d in
      '(d, tagid) ← ensureTag d (to_TagName opts);
      let mtime := TimeToJulian t in
      let d := on_tagxref <[(tagid, to_TargetRID opts) :=
                 MkTagRow (to_TagType opts) controlRid (to_TargetRID opts) (Some (to_Value opts)) mtime]> d in
      d ← (if (to_TagType opts =? TagPropagating)%Z || (to_TagType opts =? TagCancel)%Z then
             rollback (propagate d tagid (to_TagType opts) (to_TargetRID opts) mtime (to_Value opts)
                         (to_TagName opts) (to_TargetRID opts))
           else Ret d);
      Ret (on_unsent (λ s, {[ controlRid ]} ∪ s) d, controlRid)
    end
  end.
End tag.

(** ** Lemmas: the queue *)

Lemma Swap_perm h i j : Swap h i j ≡ₚ h.
Proof.
  unfold Swap. destruct (h !! i) as [a|] eqn:Hi; [|done]. destruct (h !! j) as [b|] eqn:Hj; [|done].
  destruct (decide (i = j)) as [->|Hn].
  { rewrite Hi in Hj. injection Hj as ->. by rewrite (list_insert_id h j b Hi), (list_insert_id h j b Hi). }
  apply Permutation_inj. split; [by rewrite !length_insert|].
  exists (λ k, if decide (k = i) then j else if decide (k = j) then i else k). split.
  - intros x y. repeat case_decide; lia.
  - intros k. rewrite !list_lookup_insert. pose proof (lookup_lt_Some _ _ _ Hi).
    pose proof (lookup_lt_Some _ _ _ Hj). rewrite length_insert.
    repeat case_decide; subst; try tauto; try lia; naive_solver.
Qed.

Lemma up_perm fuel h j : up fuel h j ≡ₚ h.
Proof.
  revert h j. induction fuel as [|fuel IH]; intros h j; [done|]. cbn [up]. destruct (_ || _); [done|].
  by rewrite IH, Swap_perm.
Qed.

Lemma down_perm fuel h i n : down fuel h i n ≡ₚ h.
Proof.
  revert h i. induction fuel as [|fuel IH]; intros h i; [done|]. cbn [down].
  destruct (n <=? _); [done|]. destruct (negb _); [done|]. by rewrite IH, Swap_perm.
Qed.

Lemma heap_Push_perm h x : heap_Push h x ≡ₚ x :: h.
Proof. unfold heap_Push. rewrite up_perm. symmetry. apply Permutation_cons_append. Qed.

(** The queue loses what is popped, and nothing else; it is popped if it is not
    empty. *)
Lemma heap_Pop_perm h :
  match heap_Pop h with Some (x, h') => h ≡ₚ x :: h' | None => h = [] end.
Proof.
  unfold heap_Pop. set (h1 := down _ _ _ _).
  assert (h1 ≡ₚ h) as Hp by (unfold h1; by rewrite down_perm, Swap_perm).
  pose proof (Permutation_length Hp) as Hl.
  destruct (h1 !! (length h - 1)) as [x|] eqn:E.
  - rewrite <- Hp, <- (take_drop (length h - 1) h1) at 1.
    erewrite drop_S by exact E. rewrite drop_ge by (rewrite Hl; lia).
    symmetry. apply Permutation_cons_append.
  - apply lookup_ge_None in E. destruct h; [done|]. cbn in *. lia.
Qed.

(** Longer runs of [up] and [down] change nothing. *)
Lemma up_fuel fuel fuel' h j : j ≤ fuel → j ≤ fuel' → up fuel h j = up fuel' h j.
Proof.
  revert fuel' h j. induction fuel as [|fuel IH]; intros fuel' h j H1 H2.
  { replace j with 0 by lia. by destruct fuel'. }
  destruct fuel' as [|fuel']. { replace j with 0 by lia. done. }
  cbn [up]. destruct (Nat.eqb_spec ((j - 1) / 2) j) as [|Hne]; [done|]. cbn [orb].
  destruct (Less h j _); [|done]. cbn [negb].
  assert ((j - 1) / 2 ≤ j - 1) by (apply Nat.Div0.div_le_upper_bound; lia).
  assert (j ≠ 0) by (intros ->; by apply Hne). apply IH; lia.
Qed.

Lemma down_fuel fuel fuel' h i n : n ≤ i + fuel → n ≤ i + fuel' → down fuel h i n = down fuel' h i n.
Proof.
  revert fuel' h i. induction fuel as [|fuel IH]; intros fuel' h i H1 H2.
  { destruct fuel' as [|fuel']; [done|]. cbn [down]. by rewrite (proj2 (Nat.leb_le n _)) by lia. }
  destruct fuel' as [|fuel'].
  { cbn [down]. by rewrite (proj2 (Nat.leb_le n _)) by lia. }
  cbn [down]. destruct (n <=? _); [done|]. destruct (negb _); [done|].
  apply IH; destruct (_ && _); lia.
Qed.

(** ** Lemmas: propagation *)

Section propagation.
Context {sqlite : Sqlite} {order : Unordered} {olaws : UnorderedLaws}.
Variables (d0 : db) (tagid tagType origID : Z) (mtime : julian) (value tagName : bytes).

(** An artifact gives way to a tag: it has none, or one it was handed that is
    older; a cancellation only takes away one that it was handed. *)
Definition yields (c : Z) : Prop :=
  match d_tagxref d0 !! (tagid, c) with
  | None => tagType = TagPropagating
  | Some r => tx_srcid r = 0%Z ∧ (tagType = TagPropagating → f_ltb (tx_mtime r) mtime = true)
  end.

Lemma doit_yields c : doit d0 tagid tagType mtime c = true ↔ yields c.
Proof.
  unfold doit, yields. destruct (d_tagxref d0 !! (tagid, c)) as [r|]; [|by rewrite Z.eqb_eq].
  destruct (Z.eqb_spec tagType TagPropagating) as [Ht|Ht].
  - rewrite andb_true_iff, Z.eqb_eq. naive_solver.
  - rewrite Z.eqb_eq. naive_solver.
Qed.

(** The primary edges along which the tag moves. *)
Definition tag_edge (p c : Z) : Prop :=
  ∃ v, k_plink (d_links d0) !! (p, c) = Some v ∧ pk_isprim v = true ∧ yields c.

(** The row that is written, none for a cancellation, and the colour. *)
Definition tag_written : option tagRow :=
  if (tagType =? TagPropagating)%Z then Some (MkTagRow 2 0 origID (Some value) mtime) else None.
Definition colour_written : option bytes := if (tagType =? TagPropagating)%Z then Some value else None.

Definition recolour (e : eventRow) : eventRow :=
  MkEvent (ev_type e) (ev_mtime e) (ev_tagid e) (ev_user e) (ev_comment e) colour_written.

(** [d] is [d0] with the tag written for the artifacts in [M]. *)
Record marked (M : gset Z) (d : db) : Prop := {
  mk_only : ∃ X Y, d = on_event (λ _, Y) (on_tagxref (λ _, X) d0);
  mk_tag : ∀ k, d_tagxref d !! k = if decide (k.1 = tagid ∧ k.2 ∈ M) then tag_written
                                   else d_tagxref d0 !! k;
  mk_event : ∀ c, k_event (d_links d) !! c =
    (if bool_decide (tagName = bgcolor) && bool_decide (c ∈ M) then recolour else id)
      <$> k_event (d_links d0) !! c
}.

Lemma marked_empty : marked ∅ d0.
Proof.
  split.
  - exists (d_tagxref d0), (k_event (d_links d0)). by destruct d0 as [[] ? ? ? ? ? ? ? []].
  - intros k. by rewrite decide_False by set_solver.
  - intros c. rewrite (bool_decide_false (c ∈ (∅ : gset Z))) by set_solver.
    rewrite andb_false_r. by destruct (_ !! c).
Qed.

Lemma mark_eq c d : mark tagid tagType origID mtime value tagName c d =
  (if bool_decide (tagName = bgcolor) then set_bgcolor colour_written c else id)
    (on_tagxref (partial_alter (λ _, tag_written) (tagid, c)) d).
Proof.
  unfold mark, tag_written, colour_written. destruct (_ =? _)%Z; by destruct (bool_decide _).
Qed.

Lemma mark_marked M c d : marked M d →
  marked ({[ c ]} ∪ M) (mark tagid tagType origID mtime value tagName c d).
Proof.
  intros [(X & Y & ->) Ht He]. rewrite mark_eq. split.
  - destruct (bool_decide _); cbn; unfold set_bgcolor, on_event, on_tagxref, on_links, on_repo; cbn;
      by do 2 eexists.
  - intros [t a]. cbn [fst snd].
    replace (d_tagxref _) with (partial_alter (λ _, tag_written) (tagid, c) X) by by destruct (bool_decide _).
    specialize (Ht (t, a)). change (d_tagxref _) with X in Ht at 1. cbn [fst snd] in Ht.
    destruct (decide ((t, a) = (tagid, c))) as [[= -> ->]|Hn].
    + rewrite lookup_partial_alter_eq, decide_True by set_solver. done.
    + rewrite lookup_partial_alter_ne by done. rewrite Ht.
      repeat case_decide; try done; exfalso; set_solver.
  - intros a. specialize (He a). change (k_event (d_links _)) with Y in He at 1.
    destruct (bool_decide (tagName = bgcolor)); cbn [andb] in *; [|done].
    change (k_event (d_links _)) with (alter (λ e, MkEvent (ev_type e) (ev_mtime e) (ev_tagid e)
      (ev_user e) (ev_comment e) colour_written) c Y) at 1.
    destruct (decide (a = c)) as [->|Hn].
    + rewrite lookup_alter_eq, He. rewrite (bool_decide_true (c ∈ {[c]} ∪ M)) by set_solver.
      destruct (k_event (d_links d0) !! c); [|done]. cbn. by destruct (bool_decide _).
    + rewrite lookup_alter_ne by done. rewrite He.
      replace (bool_decide (a ∈ {[c]} ∪ M)) with (bool_decide (a ∈ M)); [done|].
      apply bool_decide_ext. set_solver.
Qed.

(** Who was marked takes no part any more. *)
Lemma marked_doit M d c : marked M d →
  doit d tagid tagType mtime c = doit d0 tagid tagType mtime c && negb (bool_decide (c ∈ M)).
Proof.
  intros [_ Ht _]. unfold doit. rewrite Ht. cbn [fst snd]. case_decide as Hc.
  - destruct Hc as [_ Hc]. rewrite bool_decide_true by done. rewrite andb_false_r.
    unfold tag_written. destruct (_ =? _)%Z eqn:E; [|done]. cbn. by rewrite f_ltb_irrefl.
  - rewrite bool_decide_false by naive_solver. by rewrite andb_true_r.
Qed.

Lemma marked_plink M d : marked M d → k_plink (d_links d) = k_plink (d_links d0).
Proof. by intros [(X & Y & ->) _ _]. Qed.

(** The number of edges that are still to be followed. *)
Definition unfollowed (visited : gset Z) : nat :=
  length (filter (λ p : Z * Z * plinkVal, p.1.1 ∉ visited) (map_to_list (k_plink (d_links d0)))).

Lemma elem_kids M d x c : marked M d →
  c ∈ map ch_cid (filter (λ k, ch_doit k = true) (children d tagid tagType mtime x)) ↔
  tag_edge x c ∧ c ∉ M.
Proof.
  intros Hm. rewrite list_elem_of_fmap. unfold children, tag_edge. split.
  - intros (k & -> & [Hd Hk]%list_elem_of_filter).
    apply list_elem_of_fmap in Hk as ([[p c] v] & -> & Hin). cbn [ch_cid ch_doit fst snd] in *.
    rewrite any_order_perm in Hin. apply list_elem_of_filter in Hin as [[Hp Hprim] Hin].
    cbn [fst snd] in Hp, Hprim. subst p.
    apply elem_of_map_to_list in Hin. rewrite (marked_plink M d Hm) in Hin.
    rewrite (marked_doit M d c Hm) in Hd. apply andb_true_iff in Hd as [Hd Hn].
    apply doit_yields in Hd. split; [by exists v|]. by case_bool_decide.
  - intros ((v & Hv & Hprim & Hd%doit_yields) & Hn).
    exists (MkChild c (scan_julian (pk_mtime v)) (doit d tagid tagType mtime c)). split; [done|].
    apply list_elem_of_filter. cbn [ch_doit]. split.
    { rewrite (marked_doit M d c Hm), Hd. by rewrite bool_decide_false. }
    apply list_elem_of_fmap. exists ((x, c), v). split; [done|].
    rewrite any_order_perm. apply list_elem_of_filter. split; [done|]. apply elem_of_map_to_list.
    by rewrite (marked_plink M d Hm).
Qed.

Lemma kids_length M d x visited : marked M d → x ∉ visited →
  length (filter (λ k, ch_doit k = true) (children d tagid tagType mtime x))
    + unfollowed ({[ x ]} ∪ visited) ≤ unfollowed visited.
Proof.
  intros Hm Hx. unfold children, unfollowed. rewrite (marked_plink M d Hm).
  etrans; [apply Nat.add_le_mono_r, length_filter|]. rewrite length_map.
  rewrite (Permutation_length (any_order_perm _ _)).
  generalize (map_to_list (k_plink (d_links d0))) as l. induction l as [|[[p c] v] l IH]; [done|].
  rewrite !filter_cons. cbn [fst snd] in *. repeat case_decide; cbn [length]; try lia; set_solver by lia.
Qed.

Lemma foldl_mark M kids d : marked M d →
  marked (list_to_set (map ch_cid kids) ∪ M)
    (foldl (λ d c, mark tagid tagType origID mtime value tagName (ch_cid c) d) d kids).
Proof.
  revert M d. induction kids as [|k kids IH]; intros M d Hm; cbn [foldl map list_to_set].
  { by rewrite union_empty_l_L. }
  replace ({[ch_cid k]} ∪ list_to_set (map ch_cid kids) ∪ M)
    with (list_to_set (map ch_cid kids) ∪ ({[ch_cid k]} ∪ M)) by set_solver.
  by apply IH, mark_marked.
Qed.

Lemma foldl_push kids q :
  foldl (λ q c, heap_Push q (MkItem (ch_cid c) (ch_mtime c))) q kids
  ≡ₚ map (λ c, MkItem (ch_cid c) (ch_mtime c)) kids ++ q.
Proof.
  revert q. induction kids as [|k kids IH]; intros q; [done|]. cbn [foldl map app].
  rewrite IH, heap_Push_perm. symmetry. apply Permutation_middle.
Qed.

Section loop.
Variable pid : Z.

(** What was marked is reached from [pid], and what is known but not visited is
    in the queue. *)
Record walking (M visited : gset Z) (pq : mtimeQueue) : Prop := {
  wk_sound : ∀ c, c ∈ M → tc tag_edge pid c;
  wk_queue : ∀ i, i ∈ pq → qi_rid i = pid ∨ qi_rid i ∈ M;
  wk_known : ∀ x, x = pid ∨ x ∈ M → x ∈ visited ∨ x ∈ map qi_rid pq;
  wk_closed : ∀ x c, x ∈ visited → tag_edge x c → c ∈ M
}.

Lemma walking_done M visited : walking M visited [] → ∀ c, c ∈ M ↔ tc tag_edge pid c.
Proof.
  intros [Hs _ Hk Hc] c. split; [apply Hs|].
  assert (∀ x c, tc tag_edge x c → x ∈ visited → c ∈ M) as H.
  { intros x c' Ht. induction Ht as [x y He|x y z He _ IH]; intros Hx; [by eapply Hc|].
    apply IH. destruct (Hk y) as [?|Hin]; [right; by eapply Hc|done|]. by apply not_elem_of_nil in Hin. }
  intros Ht. apply (H pid c Ht). destruct (Hk pid) as [?|Hin]; [by left|done|].
  by apply not_elem_of_nil in Hin.
Qed.

Lemma walking_skip M visited x pq pq' :
  pq ≡ₚ x :: pq' → qi_rid x ∈ visited → walking M visited pq → walking M visited pq'.
Proof.
  intros Hp Hx [Hs Hq Hk Hc]. split; [done| | |done].
  - intros i Hi. apply Hq. rewrite Hp. by right.
  - intros y Hy. destruct (Hk y Hy) as [?|Hin]; [by left|]. rewrite Hp in Hin. cbn in Hin.
    apply elem_of_cons in Hin as [->|Hin]; auto.
Qed.

Lemma walking_step M visited x pq pq' kids :
  pq ≡ₚ x :: pq' → walking M visited pq →
  (∀ c, c ∈ map ch_cid kids ↔ tag_edge (qi_rid x) c ∧ c ∉ M) →
  walking (list_to_set (map ch_cid kids) ∪ M) ({[ qi_rid x ]} ∪ visited)
    (foldl (λ q c, heap_Push q (MkItem (ch_cid c) (ch_mtime c))) pq' kids).
Proof.
  intros Hp [Hs Hq Hk Hc] Hkids.
  assert (qi_rid x = pid ∨ qi_rid x ∈ M) as Hx by (apply Hq; rewrite Hp; by left).
  assert (map qi_rid (map (λ c, MkItem (ch_cid c) (ch_mtime c)) kids) = map ch_cid kids) as Hmap
    by (rewrite map_map; by apply map_ext).
  split.
  - intros c [Hin%elem_of_list_to_set|Hin]%elem_of_union; [|by apply Hs].
    apply Hkids in Hin as [He _]. destruct Hx as [<-|Hx]; [by apply tc_once|].
    eapply tc_r; [by apply Hs|done].
  - intros i. rewrite foldl_push. intros [Hi|Hi]%elem_of_app.
    + right. apply elem_of_union_l, elem_of_list_to_set. rewrite <- Hmap.
      apply list_elem_of_fmap. by exists i.
    + destruct (Hq i) as [?|?]; [rewrite Hp; by right|by left|right; set_solver].
  - intros y Hy. rewrite foldl_push, map_app, Hmap.
    destruct (decide (y = qi_rid x)) as [->|Hn]; [left; set_solver|].
    assert ((y = pid ∨ y ∈ M) ∨ y ∈ map ch_cid kids) as [Hy'|Hy'].
    { destruct Hy as [->|[Hy%elem_of_list_to_set|Hy]%elem_of_union]; auto. }
    + destruct (Hk y Hy') as [?|Hin]; [left; set_solver|]. rewrite Hp in Hin. cbn in Hin.
      apply elem_of_cons in Hin as [->|Hin]; [done|]. right. apply elem_of_app. by right.
    + right. apply elem_of_app. by left.
  - intros y c [->%elem_of_singleton|Hy]%elem_of_union He; [|apply elem_of_union_r; by eapply Hc].
    destruct (decide (c ∈ M)); [set_solver|]. apply elem_of_union_l, elem_of_list_to_set.
    by apply Hkids.
Qed.

Lemma propagate_loop_ok fuel d pq visited M iterations :
  marked M d → walking M visited pq →
  length pq + unfollowed visited < fuel →
  (iterations + Z.of_nat (length pq + unfollowed visited) ≤ maxIterations)%Z →
  ∃ d' M', propagate_loop fuel tagid tagType origID mtime value tagName d pq visited iterations = Ret d' ∧
    marked M' d' ∧ ∀ c, c ∈ M' ↔ tc tag_edge pid c.
Proof.
  revert d pq visited M iterations. induction fuel as [|fuel IH]; [lia|].
  intros d pq visited M iterations Hm Hw Hf Hi. cbn [propagate_loop].
  pose proof (heap_Pop_perm pq) as Hp. destruct (heap_Pop pq) as [[x pq']|].
  2:{ subst pq. exists d, M. split; [done|]. split; [done|]. by eapply walking_done. }
  pose proof (Permutation_length Hp) as Hl. cbn [length] in Hl.
  replace (maxIterations <? iterations + 1)%Z with false by lia.
  case_bool_decide as Hv.
  - apply (IH d pq' visited M); [done|by eapply walking_skip|lia|lia].
  - set (kids := filter _ _). pose proof (kids_length M d (qi_rid x) visited Hm Hv) as Hk.
    fold kids in Hk.
    apply (IH _ _ _ (list_to_set (map ch_cid kids) ∪ M)).
    + by apply foldl_mark.
    + eapply walking_step; [done..|]. intros c. by apply elem_kids.
    + rewrite foldl_push, length_app, length_map. lia.
    + rewrite foldl_push, length_app, length_map. lia.
Qed.

(** The fuel is enough, whatever the limit says. *)
Lemma propagate_loop_safe fuel d pq visited M iterations :
  marked M d → length pq + unfollowed visited < fuel →
  safe (propagate_loop fuel tagid tagType origID mtime value tagName d pq visited iterations).
Proof.
  revert d pq visited M iterations. induction fuel as [|fuel IH]; [lia|].
  intros d pq visited M iterations Hm Hf. cbn [propagate_loop].
  pose proof (heap_Pop_perm pq) as Hp. destruct (heap_Pop pq) as [[x pq']|]; [|done].
  pose proof (Permutation_length Hp) as Hl. cbn [length] in Hl.
  destruct (_ <? _)%Z; [done|]. case_bool_decide as Hv; [apply (IH _ _ _ M); [done|lia]|].
  set (kids := filter _ _). pose proof (kids_length M d (qi_rid x) visited Hm Hv) as Hk. fold kids in Hk.
  apply (IH _ _ _ (list_to_set (map ch_cid kids) ∪ M)); [by apply foldl_mark|].
  rewrite foldl_push, length_app, length_map. lia.
Qed.

Lemma unfollowed_all : unfollowed ∅ ≤ size (k_plink (d_links d0)).
Proof. rewrite <- length_map_to_list. apply length_filter. Qed.

Lemma propagate_safe : safe (propagate d0 tagid tagType origID mtime value tagName pid).
Proof.
  unfold propagate. apply (propagate_loop_safe _ _ _ _ ∅); [apply marked_empty|].
  pose proof unfollowed_all. cbn. lia.
Qed.

Lemma propagate_ok :
  (Z.of_nat (size (k_plink (d_links d0))) < maxIterations)%Z →
  ∃ d' M, propagate d0 tagid tagType origID mtime value tagName pid = Ret d' ∧
    marked M d' ∧ ∀ c, c ∈ M ↔ tc tag_edge pid c.
Proof.
  intros Hsz. unfold propagate. pose proof unfollowed_all as Hu.
  apply (propagate_loop_ok _ _ _ _ ∅); [apply marked_empty| |cbn; lia|cbn; lia].
  split; [set_solver| | |set_solver].
  - intros i Hi. left. apply list_elem_of_singleton in Hi. by subst i.
  - intros y [->|Hy]; [|set_solver]. right. cbn. by left.
Qed.
End loop.
End propagation.

(** What a tag operation on check-ins may change. *)
Definition tags_only (d d' : db) : Prop := ∃ X Y, d' = on_event (λ _, Y) (on_tagxref (λ _, X) d).

#[export] Instance tags_only_preorder : PreOrder tags_only.
Proof.
  split.
  - intros d. exists (d_tagxref d), (k_event (d_links d)). by destruct d as [[] ? ? ? ? ? ? ? []].
  - intros d1 d2 d3 (X & Y & ->) (X' & Y' & ->). by exists X', Y'.
Qed.

(** What applying tags may change: the tags, and the colours of events. *)
Definition uncoloured (e : eventRow) := (ev_type e, ev_mtime e, ev_tagid e, ev_user e, ev_comment e).

Record tag_effect (d d' : db) : Prop := {
  te_only : ∃ X Y T, d' = on_tag (λ _, T) (on_event (λ _, Y) (on_tagxref (λ _, X) d));
  te_event : ∀ o, uncoloured <$> k_event (d_links d') !! o = uncoloured <$> k_event (d_links d) !! o
}.

#[export] Instance tag_effect_preorder : PreOrder tag_effect.
Proof.
  split.
  - intros d. split; [|done]. exists (d_tagxref d), (k_event (d_links d)), (k_tag (d_links d)).
    by destruct d as [[] ? ? ? ? ? ? ? []].
  - intros d1 d2 d3 [(X & Y & T & ->) H1] [(X' & Y' & T' & ->) H2]. split; [by exists X', Y', T'|].
    intros o. by rewrite H2, H1.
Qed.

Lemma set_bgcolor_effect v o d : tag_effect d (set_bgcolor v o d).
Proof.
  split.
  - exists (d_tagxref d), (k_event (d_links (set_bgcolor v o d))), (k_tag (d_links d)).
    by destruct d as [[] ? ? ? ? ? ? ? []].
  - intros o'. unfold set_bgcolor. cbn. destruct (decide (o = o')) as [->|Hn].
    + rewrite lookup_alter_eq. by destruct (_ !! o').
    + by rewrite lookup_alter_ne.
Qed.

Lemma on_tagxref_effect f d : tag_effect d (on_tagxref f d).
Proof.
  split; [|done]. exists (f (d_tagxref d)), (k_event (d_links d)), (k_tag (d_links d)).
  by destruct d as [[] ? ? ? ? ? ? ? []].
Qed.

Lemma ensureTag_effect d name d' tagid : ensureTag d name = Ret (d', tagid) → tag_effect d d'.
Proof.
  unfold ensureTag. case_bool_decide; [done|]. destruct (_ !! name).
  { intros [= <- <-]. reflexivity. }
  intros [= <- <-]. split; [|done].
  match goal with |- context [on_tag ?f d] => exists (d_tagxref d), (k_event (d_links d)), (f (k_tag (d_links d))) end.
  by destruct d as [[] ? ? ? ? ? ? ? []].
Qed.

Section effect.
Context {sqlite : Sqlite} {order : Unordered}.

Lemma mark_effect t ty o m v n c d : tag_effect d (mark t ty o m v n c d).
Proof.
  unfold mark. cbv zeta. destruct (_ =? _)%Z; case_bool_decide; try apply on_tagxref_effect;
    (etrans; [apply on_tagxref_effect|apply set_bgcolor_effect]).
Qed.

Lemma propagate_loop_effect fuel t ty o m v n d pq visited i :
  keeps tag_effect d (propagate_loop fuel t ty o m v n d pq visited i).
Proof.
  revert d pq visited i. induction fuel as [|fuel IH]; intros d pq visited i; [done|].
  cbn [propagate_loop]. destruct (heap_Pop pq) as [[x pq']|]; [|cbn; reflexivity].
  destruct (_ <? _)%Z; [cbn; reflexivity|]. case_bool_decide; [apply IH|].
  eapply (keeps_trans tag_effect); [|apply IH]. generalize (filter (λ c, ch_doit c = true) (children d t ty m (qi_rid x))) as kids.
  intros kids. revert d. induction kids as [|k kids IHk]; intros d; [reflexivity|].
  cbn [foldl]. etrans; [apply mark_effect|apply IHk].
Qed.

Lemma PropagateAll_effect d rid : keeps tag_effect d (PropagateAll d rid).
Proof.
  unfold PropagateAll. destruct (rid <=? 0)%Z; [cbn; reflexivity|].
  apply keeps_unchanged; [apply _|]. intros es _. revert d.
  induction es as [|[[t r] v] es IH]; intros d; cbn [propagate_entries]; [cbn; reflexivity|].
  destruct (tag_name d t); [|cbn; reflexivity].
  apply keeps_bind; [apply _|apply propagate_loop_effect|]. intros d' _ _. apply IH.
Qed.

Lemma ApplyTag_effect d opts : keeps tag_effect d (ApplyTag d opts).
Proof.
  unfold ApplyTag. apply keeps_rollback; [apply _|]. intros d' H.
  cut (keeps tag_effect d (ApplyTagWithTx d opts)); [by rewrite H|]. clear d' H.
  unfold ApplyTagWithTx. case_bool_decide; [done|]. destruct (_ <=? 0)%Z; [done|].
  apply keeps_unchanged; [apply _|]. intros [d1 tagid] H1%ensureTag_effect.
  eapply (keeps_trans tag_effect); [exact H1|]. cbv zeta.
  match goal with |- keeps _ _ (if _ then propagate ?d2 _ _ _ _ _ _ _ else _) =>
    apply (keeps_trans tag_effect _ d2) end.
  { destruct (_ && _); [etrans; [apply on_tagxref_effect|apply set_bgcolor_effect]|apply on_tagxref_effect]. }
  destruct (_ || _); [apply propagate_loop_effect|cbn; reflexivity].
Qed.

Context {olaws : UnorderedLaws}.

Lemma PropagateAll_safe d rid : safe (PropagateAll d rid).
Proof.
  unfold PropagateAll. destruct (rid <=? 0)%Z; [done|]. apply safe_bind.
  { apply safe_wrap. generalize (tags_of d rid) as l. intros l. induction l as [|[t r] l IH]; [done|].
    cbn [scan_entries]. destruct (tx_value r); [|done]. apply safe_bind; done. }
  intros es _. revert d. induction es as [|[[t r] v] es IH]; intros d; [done|].
  cbn [propagate_entries]. destruct (tag_name d t); [|done].
  apply safe_bind; [apply propagate_safe|]. intros d' _. apply IH.
Qed.

(** Tags are applied without a panic if they have a name. *)
Lemma ApplyTag_safe d opts : ao_TagName opts ≠ [] → (0 < ao_TargetRID opts)%Z → safe (ApplyTag d opts).
Proof.
  intros Hn Ht. unfold ApplyTag, ApplyTagWithTx. apply safe_wrap, safe_wrap.
  rewrite bool_decide_false by done. replace (_ <=? 0)%Z with false by lia.
  apply safe_bind; [unfold ensureTag; rewrite bool_decide_false by done; by destruct (_ !! _)|].
  intros [d1 tagid] _. cbv zeta. destruct (_ || _); [apply propagate_safe|done].
Qed.
End effect.

Section inherit.
Context {sqlite : Sqlite} {order : Unordered} {olaws : UnorderedLaws}.

(** How a row of [tagxref] propagates: a singleton tag is a cancellation. *)
Definition inherited_type (r : tagRow) : Z :=
  if (tx_tagtype r =? TagSingleton)%Z then TagCancel else tx_tagtype r.

(** The artifacts to which the row [r] of the tag [t] moves from [rid]. *)
Definition inherits (d : db) (rid t : Z) (r : tagRow) (c : Z) : Prop :=
  tc (tag_edge d t (inherited_type r) (scan_julian (tx_mtime r))) rid c.

Definition inherited_row (r : tagRow) : option tagRow :=
  tag_written (inherited_type r) (tx_origid r) (scan_julian (tx_mtime r)) (default [] (tx_value r)).

Lemma inherits_ext d d' rid t r :
  tags_only d d' → (∀ c, d_tagxref d' !! (t, c) = d_tagxref d !! (t, c)) →
  ∀ c, inherits d' rid t r c ↔ inherits d rid t r c.
Proof.
  intros (X & Y & Hd) Ht c. unfold inherits.
  assert (∀ x y, tag_edge d' t (inherited_type r) (scan_julian (tx_mtime r)) x y ↔
                 tag_edge d t (inherited_type r) (scan_julian (tx_mtime r)) x y) as He.
  { intros x y. unfold tag_edge, yields. by rewrite Ht, Hd. }
  split; intros H.
  - eapply tc_congruence with (f := id) in H; [exact H|]. intros x y. apply He.
  - eapply tc_congruence with (f := id) in H; [exact H|]. intros x y. apply He.
Qed.

Lemma tag_name_ext d d' t : tags_only d d' → tag_name d' t = tag_name d t.
Proof. by intros (X & Y & ->). Qed.

(** The entries [l] are propagated, each without regard to the others. *)
Lemma propagate_entries_ok l rid d :
  (Z.of_nat (size (k_plink (d_links d))) < maxIterations)%Z →
  NoDup (map (λ e, e.1.1) l) → Forall (λ e, is_Some (tag_name d e.1.1) ∧ tx_value e.1.2 = Some e.2) l →
  ∃ d', propagate_entries l rid d = Ret d' ∧ tags_only d d' ∧
    (∀ t c, t ∉ map (λ e, e.1.1) l → d_tagxref d' !! (t, c) = d_tagxref d !! (t, c)) ∧
    ∀ e, e ∈ l → ∃ M : gset Z, (∀ c, c ∈ M ↔ inherits d rid e.1.1 e.1.2 c) ∧
      ∀ c, d_tagxref d' !! (e.1.1, c) =
        if decide (c ∈ M) then inherited_row e.1.2 else d_tagxref d !! (e.1.1, c).
Proof.
  revert d. induction l as [|[[t r] v] l IH]; intros d Hsz Hnd Hall.
  { exists d. split; [done|]. split; [reflexivity|]. split; [done|]. intros e He. by apply not_elem_of_nil in He. }
  cbn [map fst snd] in *. apply NoDup_cons in Hnd as [Hnt Hnd].
  apply Forall_cons in Hall as [[[name Hname] Hv] Hall]. cbn [fst snd] in *.
  cbn [propagate_entries]. fold (inherited_type r). rewrite Hname.
  destruct (propagate_ok d t (inherited_type r) (tx_origid r) (scan_julian (tx_mtime r)) v name rid Hsz)
    as (d1 & M & -> & [Hto Hx _] & HM). cbn [mbind outcome_bind].
  assert (∀ t' c, t' ≠ t → d_tagxref d1 !! (t', c) = d_tagxref d !! (t', c)) as Hother.
  { intros t' c Hn. rewrite Hx. by rewrite decide_False by (cbn; tauto). }
  destruct (IH d1) as (d' & -> & Hto' & Hout & Hin).
  { by destruct Hto as (X & Y & ->). }
  { done. }
  { eapply Forall_impl; [exact Hall|]. intros e He. by rewrite (tag_name_ext d d1). }
  exists d'. split; [done|]. split; [by etrans|]. split.
  { intros t' c [Hn1 Hn2]%not_elem_of_cons. rewrite Hout by done. by apply Hother. }
  intros e [->|He]%elem_of_cons; cbn [fst snd].
  - exists M. split; [done|]. intros c. rewrite Hout by done. rewrite Hx. cbn [fst snd].
    unfold inherited_row. rewrite Hv. cbn. repeat case_decide; tauto.
  - assert (e.1.1 ≠ t) as Hn.
    { intros <-. apply Hnt. apply list_elem_of_fmap. by exists e. }
    destruct (Hin e He) as (M' & HM' & Hrow). exists M'. split.
    + intros c. rewrite HM'. apply inherits_ext; [done|]. intros c'. by apply Hother.
    + intros c. rewrite Hrow. by rewrite Hother.
Qed.

Lemma scan_entries_ok l : Forall (λ p : Z * tagRow, is_Some (tx_value p.2)) l →
  scan_entries l = Ret (map (λ p, (p, default [] (tx_value p.2))) l).
Proof.
  induction 1 as [|[t r] l [v Hv] _ IH]; [done|]. cbn [scan_entries map snd] in *. rewrite Hv, IH. done.
Qed.

Lemma elem_tags_of d rid t r : (t, r) ∈ tags_of d rid ↔ d_tagxref d !! (t, rid) = Some r.
Proof.
  unfold tags_of. rewrite list_elem_of_fmap. split.
  - intros ([[t' c] r'] & [= -> ->] & Hin). rewrite any_order_perm in Hin.
    apply list_elem_of_filter in Hin as [Hc Hin]. cbn in Hc. subst c. by apply elem_of_map_to_list.
  - intros H. exists ((t, rid), r). split; [done|]. rewrite any_order_perm.
    apply list_elem_of_filter. split; [done|]. by apply elem_of_map_to_list.
Qed.

Lemma tags_of_nodup d rid : NoDup (map fst (tags_of d rid)).
Proof.
  unfold tags_of. rewrite map_map. rewrite (any_order_perm _ _).
  pose proof (NoDup_fst_map_to_list (d_tagxref d)) as H. revert H.
  generalize (map_to_list (d_tagxref d)) as l. induction l as [|[[t c] r] l IH]; intros H; [constructor|].
  cbn in H. apply NoDup_cons in H as [Hn H]. rewrite filter_cons. case_decide as Hc; [|by apply IH].
  cbn in Hc. subst c. cbn [map fst snd]. apply NoDup_cons. split; [|by apply IH].
  intros ([[t' c'] r'] & Ht & [Hc Hin]%list_elem_of_filter)%list_elem_of_fmap. cbn in *. subst.
  apply Hn. apply list_elem_of_fmap. by exists ((t', rid), r').
Qed.
End inherit.

(** ** Properties *)

(** C29. A tag reaches exactly the descendants it should: propagating it from a
    check-in writes it (or removes it, for a cancellation) at the artifacts that
    are reached over primary edges through artifacts that have no such tag, an
    older propagated one, or for a cancellation a propagated one; no other row
    changes. The walk ends and stays below its limit for any graph, cyclic ones
    included, of fewer than a million edges. *)
Theorem propagate_spec {sqlite : Sqlite} {order : Unordered} {olaws : UnorderedLaws}
    d tagid tagType origID mtime value tagName pid :
  (Z.of_nat (size (k_plink (d_links d))) < maxIterations)%Z →
  ∃ d' M, propagate d tagid tagType origID mtime value tagName pid = Ret d' ∧
    marked d tagid tagType origID mtime value tagName M d' ∧
    ∀ c, c ∈ M ↔ tc (tag_edge d tagid tagType mtime) pid c.
Proof. apply propagate_ok. Qed.

(** A check-in hands on its tags: after [PropagateAll] every row of [tagxref] is
    the one inherited from the check-in if the row is for a tag of the check-in
    and an artifact the tag moves to, and otherwise what it was. *)
Theorem PropagateAll_spec {sqlite : Sqlite} {order : Unordered} {olaws : UnorderedLaws} d rid :
  (0 < rid)%Z → (Z.of_nat (size (k_plink (d_links d))) < maxIterations)%Z →
  (∀ t r, d_tagxref d !! (t, rid) = Some r → is_Some (tag_name d t) ∧ is_Some (tx_value r)) →
  ∃ d', PropagateAll d rid = Ret d' ∧ tags_only d d' ∧
    (∀ t c, d_tagxref d !! (t, rid) = None → d_tagxref d' !! (t, c) = d_tagxref d !! (t, c)) ∧
    ∀ t r, d_tagxref d !! (t, rid) = Some r → ∃ M : gset Z, (∀ c, c ∈ M ↔ inherits d rid t r c) ∧
      ∀ c, d_tagxref d' !! (t, c) = if decide (c ∈ M) then inherited_row r else d_tagxref d !! (t, c).
Proof.
  intros Hpos Hsz Hall. unfold PropagateAll. replace (rid <=? 0)%Z with false by lia.
  rewrite scan_entries_ok.
  2:{ apply Forall_forall. intros [t r] Hin%elem_tags_of. by apply (Hall t r). }
  cbn [mbind outcome_bind].
  assert (map (λ e : Z * tagRow * bytes, e.1.1) (map (λ p, (p, default [] (tx_value p.2))) (tags_of d rid))
          = map fst (tags_of d rid)) as Hmap by (rewrite map_map; by apply map_ext).
  destruct (propagate_entries_ok (map (λ p, (p, default [] (tx_value p.2))) (tags_of d rid)) rid d)
    as (d' & Hd' & Hto & Hout & Hin); [done|rewrite Hmap; apply tags_of_nodup| |].
  { apply Forall_map, Forall_forall. intros [t r] Hin%elem_tags_of. cbn [fst snd].
    destruct (Hall t r Hin) as [Hn [v Hv]]. by rewrite Hv. }
  exists d'. split; [exact Hd'|]. split; [done|]. split.
  - intros t c Hn. apply Hout. rewrite Hmap.
    intros ([t' r] & -> & Hr%elem_tags_of)%list_elem_of_fmap. cbn in Hn. congruence.
  - intros t r Hr. apply (Hin (t, r, default [] (tx_value r))).
    apply list_elem_of_fmap. exists (t, r). split; [done|]. by apply elem_tags_of.
Qed.

(** ** Witnesses and findings *)

#[local] Existing Instance test_sqlite.
#[local] Existing Instance test_order.
#[local] Existing Instance test_order_laws.
#[local] Existing Instance stored.

(** Three check-ins in a row; the first one is on a branch. *)
Definition primary : plinkVal := MkPlinkVal true (f64 1) None.
Definition branch_row : tagRow := MkTagRow 2 1 1 (Some (str "trunk")) (f64 5).
Definition three : db :=
  on_tagxref (λ _, {[ (8%Z, 1%Z) := branch_row ]})
    (on_plink (λ _, <[(1%Z, 2%Z) := primary]> {[ (2%Z, 3%Z) := primary ]}) CreateRepoSchema).

Lemma three_edge p c : k_plink (d_links three) !! (p, c) = Some primary →
  c ≠ 1%Z → tag_edge three 8 2 (f64 5) p c.
Proof.
  intros Hp Hc. exists primary. split; [done|]. split; [done|]. unfold yields.
  replace (d_tagxref three !! (8%Z, c)) with (@None tagRow); [done|].
  symmetry. apply lookup_singleton_ne. congruence.
Qed.

Lemma three_reaches : tc (tag_edge three 8 2 (f64 5)) 1%Z 3%Z.
Proof.
  apply (tc_l _ 1%Z 2%Z 3%Z); [|apply tc_once]; by apply three_edge.
Qed.

Lemma propagate_spec_witness :
  ∃ d', propagate three 8 2 1 (f64 5) (str "trunk") (str "branch") 1 = Ret d' ∧
    d_tagxref d' !! (8%Z, 3%Z) = Some (MkTagRow 2 0 1 (Some (str "trunk")) (f64 5)).
Proof.
  destruct (propagate_spec three 8 2 1 (f64 5) (str "trunk") (str "branch") 1)
    as (d' & M & H1 & H2 & H3); [by vm_compute|].
  exists d'. split; [exact H1|]. rewrite (mk_tag _ _ _ _ _ _ _ _ _ H2).
  rewrite decide_True by (split; [done|]; apply H3, three_reaches). reflexivity.
Defined.

Lemma PropagateAll_spec_witness :
  ∃ d', PropagateAll three 1 = Ret d' ∧
    d_tagxref d' !! (8%Z, 3%Z) = Some (MkTagRow 2 0 1 (Some (str "trunk")) (f64 5)).
Proof.
  destruct (PropagateAll_spec three 1) as (d' & H1 & _ & _ & H2); [lia|by vm_compute| |].
  { intros t r. unfold d_tagxref, three. cbn. intros [[= <-] <-]%lookup_singleton_Some.
    split; [|done]. eexists. vm_compute. reflexivity. }
  destruct (H2 8%Z branch_row) as (M & HM & H); [reflexivity|].
  exists d'. split; [exact H1|]. rewrite H. rewrite decide_True; [reflexivity|].
  apply HM. exact three_reaches.
Defined.

(** [AddTag] colours the descendants of a check-in, but not the check-in. *)
Definition event_1 : eventRow := MkEvent (str "ci") (f64 1) None [] [] None.
Definition coloured : db :=
  on_repo (λ _, repo_a)
    (on_event (λ _, <[1%Z := event_1]> {[ 2%Z := event_1 ]})
       (on_plink (λ _, {[ (1%Z, 2%Z) := primary ]}) CreateRepoSchema)).
Definition colours (m : out (db * Z)) : list (option bytes) :=
  match m with
  | Ret (d, _) => map (λ rid, k_event (d_links d) !! rid ≫= ev_bgcolor) [1; 2]%Z
  | _ => []
  end.
Example AddTag_forgets_the_target :
  colours (AddTag time_zero coloured (MkTagOpts 1 bgcolor 2 (str "#ff0000") (str "u") (Time 2024 1 1 0 0 0 0)))
  = [None; Some (str "#ff0000")] ∧
  match ApplyTag coloured (MkApplyOpts 1 7 bgcolor 2 (str "#ff0000") (f64 9)) with
  | Ret d => colours (Ret (d, 0%Z)) = [Some (str "#ff0000"); Some (str "#ff0000")]
  | _ => False
  end.
Proof. split; vm_compute; reflexivity. Qed.

(** The value of a cluster's tag is NULL: its tags cannot be handed on. *)
Example cluster_tags_fail :
  PropagateAll (on_tagxref <[(7%Z, 1%Z) := cluster_tag 1]> CreateRepoSchema) 1
  = Fail (on_tagxref <[(7%Z, 1%Z) := cluster_tag 1]> CreateRepoSchema, EScan).
Proof. vm_compute. reflexivity. Qed.
