(* ===== verification/Crosslink.v ===== *)
(** * Crosslinking (src/internal/manifest/crosslink.go, dephantomize.go)

    Crosslinking reads the structural artifacts and records in the tables what
    they say: a check-in becomes an event with its parents ([plink]), files
    ([mlink]) and cherry-picks and the tags it puts on itself; control artifacts
    put tags on others; wiki pages, tickets, technotes, attachments and forum
    posts get their events.  [Crosslink] sweeps over all artifacts that left no
    trace in the tables so far; a check-in that refers to artifacts that are not
    there yet is left for a later sweep. *)
From S2P Require Import Prelude GoStrings Hash Zlib Deck Julian Quote Blob Db Receive Tag.
From stdpp Require Import list gmap sets.

Abbreviation out := (outcome db_error).

(** [INSERT OR IGNORE] of a row under a unique key. *)
Definition insert_new `{Countable K} {A} (k : K) (v : A) (m : gmap K A) : gmap K A :=
  match m !! k with Some _ => m | None => <[k := v]> m end.

(** [SELECT rid FROM blob WHERE uuid=?]; a failed query leaves the variable. *)
Definition rid_of (d : db) (uuid : bytes) : option Z := rid_of_uuid (d_repo d) uuid.

(** [REPLACE INTO event(type, mtime, objid, user, comment)] *)
Definition replace_event (type : bytes) (mtime : julian) (objid : Z) (user comment : bytes) : db → db :=
  on_event <[objid := MkEvent type mtime None user comment None]>.

(** An error that is ignored. *)
Definition ignore_err (m : kept db) : kept db := match m with Fail (d, _) => Ret d | m => m end.

(** ** Check-ins *)

Definition ensureFilename (d : db) (name : bytes) : out (db * Z) :=
  if bool_decide (name = []) then Panic else
  match k_filename (d_links d) !! name with
  | Some fnid => Ret (d, fnid)
  | None =>
    let fnid := next_rowid (map snd (map_to_list (k_filename (d_links d)))) in
    Ret (on_filename <[name := fnid]> d, fnid)
  end.

(** A row for each parent that is there; [i] is the index of the first. *)
Fixpoint insertPlinks (i : nat) (P : list bytes) (rid : Z) (mtime : julian) (baseid : option Z) (d : db) : db :=
  match P with
  | [] => d
  | parentUUID :: P =>
    let d := match rid_of d parentUUID with
             | None => d
             | Some parentRid => on_plink (insert_new (parentRid, rid) (MkPlinkVal (i =? 0) mtime baseid)) d
             end in
    insertPlinks (S i) P rid mtime baseid d
  end.

Definition insertCheckinPlinks (d : db) (rid : Z) (dk : Deck) (baseid : option Z) : db :=
  insertPlinks 0 (d_P dk) rid (TimeToJulian (d_D dk)) baseid d.

Definition delete_leaf (d : db) (parentUUID : bytes) : db :=
  match rid_of d parentUUID with
  | None => d
  | Some parentRid => on_leaf (λ s, s ∖ {[ parentRid ]}) d
  end.

Definition updateLeafTable (d : db) (rid : Z) (dk : Deck) : db :=
  foldl delete_leaf (on_leaf (λ s, {[ rid ]} ∪ s) d) (d_P dk).

Fixpoint insert_mlinks (rid : Z) (F : list FileCard) (d : db) : out db :=
  match F with
  | [] => Ret d
  | f :: F =>
    if bool_decide (fc_UUID f = []) then insert_mlinks rid F d else
    '(d, fnid) ← ensureFilename d (fc_Name f);
    insert_mlinks rid F
      (match rid_of d (fc_UUID f) with
       | None => d
       | Some fileRid => on_mlink (λ l, l ++ [MkMlink rid fileRid None None fnid]) d
       end)
  end.

Definition insertCheckinMlinks (d : db) (rid : Z) (dk : Deck) : out db := insert_mlinks rid (d_F dk) d.

Definition insert_cherrypick (rid : Z) (d : db) (cp : CherryPick) : db :=
  match rid_of d (cp_Target cp) with
  | None => d
  | Some parentRid => on_cherrypick <[(parentRid, rid) := cp_IsBackout cp]> d
  end.

Definition insertCherrypicks (d : db) (rid : Z) (dk : Deck) : db :=
  foldl (insert_cherrypick rid) d (d_Q dk).

Definition checkin_event (dk : Deck) : eventRow :=
  MkEvent (str "ci") (TimeToJulian (d_D dk)) None (d_U dk) (d_C dk) None.

(** The one transaction for the tables of a check-in. *)
Definition crosslinkCheckinTables (d : db) (rid : Z) (dk : Deck) : out db :=
  let d := on_event (insert_new rid (checkin_event dk)) d in
  let baseid := if bool_decide (d_B dk = []) then None else rid_of d (d_B dk) in
  let d := insertCheckinPlinks d rid dk baseid in
  let d := updateLeafTable d rid dk in
  d ← insertCheckinMlinks d rid dk;
  Ret (insertCherrypicks d rid dk).

(** The types of a T card; others are skipped. *)
Definition tag_type (t : byte) : option Z :=
  if bool_decide (t = "*"%byte) then Some TagPropagating else
  if bool_decide (t = "+"%byte) then Some TagSingleton else
  if bool_decide (t = "-"%byte) then Some TagCancel else None.

Definition self : bytes := str "*".

Section crosslink.
Context {codec : Zlib} {sqlite : Sqlite} {order : Unordered} {unicode : Unicode}.

Fixpoint apply_inline (rid : Z) (mtime : julian) (T : list TagCard) (d : db) : kept db :=
  match T with
  | [] => Ret d
  | tc :: T =>
    d ← (if negb (bool_decide (tc_UUID tc = self)) then Ret d else
         match tag_type (tc_Type tc) with
         | None => Ret d
         | Some tagType => ApplyTag d (MkApplyOpts rid rid (tc_Name tc) tagType (tc_Value tc) mtime)
         end);
    apply_inline rid mtime T d
  end.

Definition applyInlineTags (d : db) (rid : Z) (dk : Deck) : kept db :=
  d ← apply_inline rid (TimeToJulian (d_D dk)) (d_T dk) d;
  match d_P dk with
  | [] => Ret d
  | p :: _ => match rid_of d p with Some primaryParentRid => PropagateAll d primaryParentRid | None => Ret d end
  end.

Definition crosslinkCheckin (d : db) (rid : Z) (dk : Deck) : kept db :=
  if (rid <=? 0)%Z then Panic else
  d ← unchanged d (crosslinkCheckinTables d rid dk);
  applyInlineTags d rid dk.

(** ** Control artifacts *)

Fixpoint apply_control (srcRID : Z) (mtime : julian) (T : list TagCard) (d : db) : kept db :=
  match T with
  | [] => Ret d
  | tc :: T =>
    d ← (if bool_decide (tc_UUID tc = self) then Ret d else
         match rid_of d (tc_UUID tc) with
         | None => Ret d
         | Some targetRID =>
           match tag_type (tc_Type tc) with
           | None => Ret d
           | Some tagType =>
             ApplyTag d (MkApplyOpts targetRID srcRID (tc_Name tc) tagType (tc_Value tc) mtime)
           end
         end);
    apply_control srcRID mtime T d
  end.

(** What a T card says. *)
Definition control_phrase (tc : TagCard) : bytes :=
  let prefix := tc_Type tc in
  let name := tc_Name tc in
  let says p n := bool_decide (prefix = p) && bool_decide (name = str n) in
  if says "*"%byte "branch"%string then str " Move to branch " ++ tc_Value tc ++ str "." else
  if says "*"%byte "bgcolor"%string
  then str " Change branch background color to " ++ Quote (tc_Value tc) ++ str "." else
  if says "+"%byte "bgcolor"%string
  then str " Change background color to " ++ Quote (tc_Value tc) ++ str "." else
  if says "-"%byte "bgcolor"%string then str " Cancel background color." else
  if says "+"%byte "comment"%string then str " Edit check-in comment." else
  if says "+"%byte "user"%string then str " Change user to " ++ Quote (tc_Value tc) ++ str "." else
  if bool_decide (prefix = "-"%byte) then str " Cancel " ++ Quote name ++ str "." else
  if bool_decide (prefix = "+"%byte) then str " Add " ++ Quote name ++ str "." else
  if bool_decide (prefix = "*"%byte) then str " Add propagating " ++ Quote name ++ str "." else [].

Definition buildControlComment (dk : Deck) : bytes :=
  let comment := concat (map control_phrase (filter (λ tc, tc_UUID tc ≠ self) (d_T dk))) in
  if bool_decide (comment = []) then str " " else comment.

Definition crosslinkControl (d : db) (srcRID : Z) (dk : Deck) : kept db :=
  if (srcRID <=? 0)%Z then Panic else
  let mtime := TimeToJulian (d_D dk) in
  d ← apply_control srcRID mtime (d_T dk) d;
  Ret (replace_event (str "g") mtime srcRID (d_U dk) (buildControlComment dk) d).

(** ** Wiki pages, tickets, technotes, forum posts *)

(** The parents of an artifact that is not a check-in. *)
Definition addFWTPlink (d : db) (rid : Z) (dk : Deck) : kept db :=
  if (rid <=? 0)%Z then Panic else
  let d := insertPlinks 0 (d_P dk) rid (TimeToJulian (d_D dk)) None d in
  let primaryParentRid := default 0%Z (head (d_P dk) ≫= rid_of d) in
  if (0 <? primaryParentRid)%Z then PropagateAll d primaryParentRid else Ret d.

Definition crosslinkWiki (d : db) (rid : Z) (dk : Deck) : kept db :=
  if (rid <=? 0)%Z then Panic else
  d ← addFWTPlink d rid dk;
  let title := d_L dk in
  if bool_decide (title = []) then Fail (d, EInvalid (str "wiki manifest missing title (L-card)")) else
  let mtime := TimeToJulian (d_D dk) in
  d ← ApplyTag d (MkApplyOpts rid rid (str "wiki-" ++ title) TagSingleton (fmt_int (zlen (d_W dk))) mtime);
  let prefix := if is_nil (d_W dk) then "-"%byte else if is_nil (d_P dk) then "+"%byte else ":"%byte in
  Ret (replace_event (str "w") mtime rid (d_U dk) (prefix :: title) d).

(** What the event of an attachment says. *)
Definition attachTargetTypeName (t : byte) : bytes :=
  if bool_decide (t = "w"%byte) then str "wiki page" else
  if bool_decide (t = "t"%byte) then str "ticket" else
  if bool_decide (t = "e"%byte) then str "tech note" else [].

Definition attach_comment (src target filename : bytes) (type : byte) : bytes :=
  (if bool_decide (src = []) then str "Delete attachment " ++ Quote filename ++ str " from "
   else str "Add attachment " ++ filename ++ str " to ")
  ++ attachTargetTypeName type ++ SP :: target.

(** [UPDATE event SET comment=?, type=? WHERE objid=?] *)
Definition retype_event (type comment : bytes) (objid : Z) : db → db :=
  on_event (alter (λ e, MkEvent type (ev_mtime e) (ev_tagid e) (ev_user e) comment (ev_bgcolor e)) objid).

Definition updateAttachmentComments (d : db) (targetID : bytes) (targetType : byte) : kept db :=
  if bool_decide (targetID = []) then Panic else
  let rows := any_order (filter (λ p, at_target p.2 = targetID) (map_to_list (k_attachment (d_links d)))) in
  Ret (foldl (λ d p, retype_event [targetType]
                (attach_comment (at_src p.2) (at_target p.2) (at_filename p.2) targetType) p.1 d) d rows).

Definition crosslinkTicket (d : db) (rid : Z) (dk : Deck) : kept db :=
  if (rid <=? 0)%Z then Panic else
  let ticketUUID := d_K dk in
  if bool_decide (ticketUUID = []) then Fail (d, EInvalid (str "ticket manifest missing UUID (K-card)")) else
  d ← ApplyTag d (MkApplyOpts rid rid (str "tkt-" ++ ticketUUID) TagSingleton [] (TimeToJulian (d_D dk)));
  updateAttachmentComments d ticketUUID "t"%byte.

(** Whether a version of the technote is there that is not older; rowids are not
    zero. *)
Definition subsequent (d : db) (tagid rid : Z) (mtime : julian) : bool :=
  existsb (λ p, (p.1.1 =? tagid)%Z && f_leb mtime (tx_mtime p.2) && negb (p.1.2 =? rid)%Z)
    (map_to_list (d_tagxref d)).

(** The events of the earlier versions are deleted. *)
Definition delete_versions (tagid : Z) (d : db) : db :=
  on_event (filter (λ p, ¬ (ev_type p.2 = str "e" ∧ ev_tagid p.2 = Some tagid ∧
                            is_Some (d_tagxref d !! (tagid, p.1))))) d.

Definition event_bgcolor (d : db) (rid : Z) : option bytes :=
  k_tag (d_links d) !! bgcolor ≫= λ tagid, d_tagxref d !! (tagid, rid) ≫= tx_value.

Definition crosslinkEvent (d : db) (rid : Z) (dk : Deck) : kept db :=
  if (rid <=? 0)%Z then Panic else
  match d_E dk with
  | None => Fail (d, EInvalid (str "event manifest missing E-card"))
  | Some e =>
    d ← addFWTPlink d rid dk;
    let eventID := ec_UUID e in
    let tagName := str "event-" ++ eventID in
    let mtime := TimeToJulian (d_D dk) in
    d ← ApplyTag d (MkApplyOpts rid rid tagName TagSingleton (fmt_int (zlen (d_W dk))) mtime);
    match k_tag (d_links d) !! tagName with
    | None => Fail (d, ENoRows)
    | Some tagid =>
      let later := subsequent d tagid rid mtime in
      let d := if negb (is_nil (d_P dk)) && negb later then delete_versions tagid d else d in
      let d := if later then d else
                 on_event <[rid := MkEvent (str "e") (TimeToJulian (ec_Date e)) (Some tagid) (d_U dk) (d_C dk)
                                     (event_bgcolor d rid)]> d in
      updateAttachmentComments d eventID "e"%byte
    end
  end.

(** [len(s)] is 40 or 64, and all are lower-case hex digits. *)
Definition isHash (s : bytes) : bool :=
  ((length s =? 40) || (length s =? 64)) && forallb is_hex_lower s.

(** The UPDATE of [isLatest] over the attachments of one name to one target. *)
Definition mark_latest (target filename : bytes) (t : gmap Z attachRow) : gmap Z attachRow :=
  let same a := bool_decide (at_target a = target) && bool_decide (at_filename a = filename) in
  let latest a := forallb (λ p, negb (same p.2) || f_leb (at_mtime p.2) (at_mtime a)) (map_to_list t) in
  (λ a, if same a then MkAttach (latest a) (at_mtime a) (at_src a) (at_target a) (at_filename a)
                         (at_comment a) (at_user a) else a) <$> t.

Definition attach_type (d : db) (target : bytes) : byte :=
  let tagged name := bool_decide (is_Some (k_tag (d_links d) !! (str name ++ target))) in
  if isHash target then
    if tagged "tkt-"%string then "t"%byte else if tagged "event-"%string then "e"%byte else "w"%byte
  else "w"%byte.

Definition crosslinkAttachment (d : db) (rid : Z) (dk : Deck) : kept db :=
  if (rid <=? 0)%Z then Panic else
  match d_A dk with
  | None => Fail (d, EInvalid (str "attachment manifest missing A-card"))
  | Some a =>
    let mtime := TimeToJulian (d_D dk) in
    let src := ac_Source a in let target := ac_Target a in let filename := ac_Filename a in
    match k_attachment (d_links d) !! rid with
    | Some _ => Fail (d, EConstraint)
    | None =>
      let d := on_attachment <[rid := MkAttach false mtime src target filename (d_C dk) (d_U dk)]> d in
      let d := on_attachment (mark_latest target filename) d in
      let attachToType := attach_type d target in
      Ret (replace_event [attachToType] mtime rid (d_U dk) (attach_comment src target filename attachToType) d)
    end
  end.

(** The rids of thread root, previous version and the post replied to; zero for
    none. *)
Definition resolveForumRefs (d : db) (rid : Z) (dk : Deck) : Z * Z * Z :=
  let rid_or_0 uuid := if bool_decide (uuid = []) then 0%Z else default 0%Z (rid_of d uuid) in
  let froot := rid_or_0 (d_G dk) in
  (if (froot =? 0)%Z then rid else froot,
   default 0%Z (head (d_P dk) ≫= rid_of d),
   rid_or_0 (d_I dk)).

Definition nullif0 (z : Z) : option Z := if (z =? 0)%Z then None else Some z.

(** [substr(comment,1,instr(comment,':')) || ' ' || title] *)
Definition retitle (title comment : bytes) : bytes :=
  sql_substr comment 1 (Some (sql_instr comment (str ":"))) ++ SP :: title.

(** [firt] is NULL for the posts that start a thread, so none is found. *)
Definition hasNewer (d : db) (froot rid : Z) (mtime : julian) : bool :=
  existsb (λ p, (fp_froot p.2 =? froot)%Z && bool_decide (fp_firt p.2 = Some 0%Z) &&
                negb (p.1 =? rid)%Z && f_ltb mtime (fp_fmtime p.2))
    (map_to_list (k_forumpost (d_links d))).

Definition retitle_thread (froot : Z) (title : bytes) (d : db) : db :=
  on_event (map_imap (λ objid e, Some
    (match k_forumpost (d_links d) !! objid with
     | Some fp => if (fp_froot fp =? froot)%Z
                  then MkEvent (ev_type e) (ev_mtime e) (ev_tagid e) (ev_user e)
                         (retitle title (ev_comment e)) (ev_bgcolor e)
                  else e
     | None => e
     end))) d.

Definition crosslinkForumStarter (d : db) (rid : Z) (dk : Deck) (froot fprev : Z) (mtime : julian) : db :=
  let title := if bool_decide (d_H dk = []) then str "(Deleted)" else d_H dk in
  let fType := if (fprev =? 0)%Z then str "Post" else str "Edit" in
  let d := replace_event (str "f") mtime rid (d_U dk) (fType ++ str ": " ++ title) d in
  if hasNewer d froot rid mtime then d else retitle_thread froot title d.

Definition crosslinkForumReply (d : db) (rid : Z) (dk : Deck) (froot fprev : Z) (mtime : julian) : db :=
  let rootTitle := match k_event (d_links d) !! froot with
                   | Some e => sql_substr (ev_comment e) (sql_instr (ev_comment e) (str ":") + 2) None
                   | None => str "Unknown"
                   end in
  let fType := if is_nil (d_W dk) then str "Delete reply"
               else if (fprev =? 0)%Z then str "Reply" else str "Edit reply" in
  replace_event (str "f") mtime rid (d_U dk) (fType ++ str ": " ++ rootTitle) d.

Definition crosslinkForum (d : db) (rid : Z) (dk : Deck) : kept db :=
  if (rid <=? 0)%Z then Panic else
  d ← addFWTPlink d rid dk;
  let '(froot, fprev, firt) := resolveForumRefs d rid dk in
  let mtime := TimeToJulian (d_D dk) in
  let d := on_forumpost <[rid := MkForum froot (nullif0 fprev) (nullif0 firt) mtime]> d in
  Ret (if (firt =? 0)%Z then crosslinkForumStarter d rid dk froot fprev mtime
       else crosslinkForumReply d rid dk froot fprev mtime).

(** ** Clusters

    [Receive.CrosslinkCluster] for a call that is not in a transaction. *)
Fixpoint link_members (M : list bytes) (d : db) : kept db :=
  match M with
  | [] => Ret d
  | uuid :: M =>
    q ← unchanged d (in_repo (crosslink_member (d_repo d) uuid));
    link_members M (on_repo (λ _, q) d)
  end.

Definition crosslink_cluster (d : db) (rid : Z) (dk : Deck) : kept db :=
  if (rid <=? 0)%Z then Panic else
  link_members (d_M dk) (on_tagxref <[(7%Z, rid) := cluster_tag rid]> d).

(** ** The sweep *)

Definition crosslink_artifact (d : db) (rid : Z) (dk : Deck) : kept db :=
  match d_Type dk with
  | Checkin => crosslinkCheckin d rid dk
  | Wiki => crosslinkWiki d rid dk
  | Ticket => crosslinkTicket d rid dk
  | Event => crosslinkEvent d rid dk
  | Attachment => crosslinkAttachment d rid dk
  | Cluster => crosslink_cluster d rid dk
  | ForumPost => crosslinkForum d rid dk
  | Control => crosslinkControl d rid dk
  end.

(** The manifest that an artifact is, if it is one. *)
Definition read_manifest (d : db) (rid : Z) : out Deck :=
  data ← in_repo (Expand (d_repo d) rid);
  wrap_err (λ _, EInvalid data) (Parse (Some data)).

Definition blobPresent (d : db) (uuid : bytes) : bool :=
  match rid_of d uuid ≫= λ rid, t_blob (d_repo d) !! rid with
  | Some row => (0 <=? b_size row)%Z
  | None => false
  end.

Fixpoint missing_refs (d : db) (refs : list bytes) (seen : gset bytes) : list bytes :=
  match refs with
  | [] => []
  | uuid :: refs =>
    if bool_decide (uuid = []) || bool_decide (uuid ∈ seen) then missing_refs d refs seen else
    (if blobPresent d uuid then [] else [uuid]) ++ missing_refs d refs ({[ uuid ]} ∪ seen)
  end.

Definition missingCheckinRefs (d : db) (dk : Deck) : list bytes :=
  missing_refs d (d_B dk :: map fc_UUID (d_F dk)) ∅.

(** The WHERE clause: a present artifact that is in no table. *)
Definition uncrosslinked (d : db) (p : Z * blobRow) : Prop :=
  (0 ≤ b_size p.2)%Z ∧ k_event (d_links d) !! p.1 = None ∧
  map_Forall (λ _ tx, tx_srcid tx ≠ p.1) (d_tagxref d) ∧
  k_forumpost (d_links d) !! p.1 = None ∧ k_attachment (d_links d) !! p.1 = None.

#[global] Instance uncrosslinked_dec d p : Decision (uncrosslinked d p).
Proof. apply _. Defined.

Definition candidates (d : db) : list Z :=
  map fst (sort_slice (λ a b : Z * blobRow, (a.1 <? b.1)%Z)
    (filter (uncrosslinked d) (map_to_list (t_blob (d_repo d))))).

(** Whether a check-in must wait. *)
Definition deferred (d : db) (dk : Deck) : bool :=
  bool_decide (d_Type dk = Checkin) && negb (is_nil (missingCheckinRefs d dk)).

(** The artifacts [l] in turn, [linked] so far. *)
Fixpoint sweep (l : list Z) (d : db) (linked : Z) : outcome (db * Z * db_error) (db * Z) :=
  match l with
  | [] => Ret (d, linked)
  | rid :: l =>
    match read_manifest d rid with
    | Fail _ => sweep l d linked
    | Ret dk =>
      if deferred d dk then sweep l d linked else
      d ← wrap_err (λ e, (e.1, linked, e.2)) (crosslink_artifact d rid dk);
      sweep l d (linked + 1)
    | Panic => Panic
    | NoFuel => NoFuel
    end
  end.

Definition Crosslink (d : db) : outcome (db * Z * db_error) (db * Z) := sweep (candidates d) d 0.

(** ** Phantoms that were filled (dephantomize.go) *)

Definition crosslinkSingle (d : db) (rid : Z) : kept db :=
  if (rid <=? 0)%Z then Panic else
  dk ← unchanged d (read_manifest d rid);
  crosslink_artifact d rid dk.

Fixpoint link_orphans (l : list Z) (d : db) : kept db :=
  match l with
  | [] => Ret d
  | orid :: l => d ← ignore_err (crosslinkSingle d orid); link_orphans l d
  end.

Definition orphans_of (d : db) (baseline : Z) : list Z :=
  any_order (map fst (filter (λ p, p.2 = baseline) (map_to_list (k_orphan (d_links d))))).

(** The artifacts kept as deltas from one, without files of their own. *)
Definition delta_children (d : db) (current : Z) : list Z :=
  any_order (map fst (filter (λ p, p.2 = current ∧ Forall (λ m, ml_mid m ≠ p.1) (k_mlink (d_links d)))
    (map_to_list (t_delta (d_repo d))))).

(** One round, for the artifact [current]; the children to go on with. *)
Definition dephantomize (d : db) (current : Z) : kept (db * list Z) :=
  if (current <=? 0)%Z then Ret (d, []) else
  d ← ignore_err (crosslinkSingle d current);
  let orphans := orphans_of d current in
  d ← link_orphans orphans d;
  let d := if is_nil orphans then d else on_orphan (filter (λ p, p.2 ≠ current)) d in
  Ret (d, delta_children d current).

(** [rounds] of the million rounds are left; the stack has its top at the front. *)
Fixpoint dephantomize_loop (rounds : nat) (stack : list Z) (d : db) : kept db :=
  match stack with
  | [] => Ret d
  | current :: stack =>
    match rounds with
    | O => Ret d
    | S rounds =>
      '(d, children) ← dephantomize d current;
      dephantomize_loop rounds (children ++ stack) d
    end
  end.

Definition AfterDephantomize (d : db) (rid : Z) : kept db :=
  if (rid <=? 0)%Z then Ret d else dephantomize_loop (Z.to_nat maxIterations) [rid] d.
End crosslink.
