(* ===== verification/Linked.v ===== *)
(** * What crosslinking establishes

    The facts about [Crosslink]: which tables each kind of artifact may touch
    ([quiet]), what the tables of a check-in are ([tables]), and by induction over
    the sweep the state that [Crosslink] leaves. *)
From S2P Require Import Prelude GoStrings Hash Zlib Deck Julian Quote Blob Content Db Receive Tag Crosslink.
From stdpp Require Import list gmap sets sorting.

Section facts.
Context {codec : Zlib} {sha3 : Sha3}.

(** ** The repository: only phantoms are added *)

Record repo_grows (q q' : repo) : Prop := {
  rg_ok : repo_ok q → repo_ok q';
  rg_extends : extends q q';
  rg_full : ∀ r row, t_blob q' !! r = Some row → (0 ≤ b_size row)%Z → t_blob q !! r = Some row
}.

#[global] Instance repo_grows_preorder : PreOrder repo_grows.
Proof.
  split.
  - intros q. split; [done|apply extends_refl|done].
  - intros q1 q2 q3 [A1 A2 A3] [B1 B2 B3]. split; [auto|by eapply extends_trans|eauto].
Qed.

Lemma repo_grows_same q q' : t_blob q' = t_blob q → t_delta q' = t_delta q → repo_grows q q'.
Proof.
  intros Hb Hd. split.
  - intros Hok. by apply (repo_ok_ext q).
  - unfold extends. rewrite Hb, Hd. split_and!; [done..|]. congruence.
  - by rewrite Hb.
Qed.

Lemma crosslink_member_grows q u q' : crosslink_member q u = Ret q' → repo_grows q q'.
Proof.
  intros H. assert (repo_ok q → repo_ok q') as Hok by (intros Hq; by eapply crosslink_member_ok).
  assert (extends q q') as Hext.
  { apply (crosslink_members_extends [u]). cbn. by rewrite H. }
  split; [done|done|]. intros r row. revert H. unfold crosslink_member. intros H.
  apply bind_ret_inv in H as ([m|] & _ & H); [by injection H as <-|].
  apply bind_ret_inv in H as ([q2 rid] & HS & H). injection H as <-. revert HS.
  unfold StorePhantom. case_bool_decide; [done|]. intros HS.
  apply bind_ret_inv in HS as ([m|] & _ & HS); [by injection HS as <- <-|].
  apply bind_ret_inv in HS as ([q3 rid3] & Hins & HS). apply insert_blob_ret in Hins as (-> & _).
  injection HS as <- <-. cbn. intros [[<- <-]|[_ Hr]]%lookup_insert_Some Hs; [by cbn in Hs|done].
Qed.
(** ** Check-ins and their events *)

(** The event of a check-in, but for its colour. *)
Definition checkin_row (d : db) (o : Z) (x : bytes * julian * option Z * bytes * bytes) : Prop :=
  uncoloured <$> k_event (d_links d) !! o = Some x ∧ x.1.1.1.1 = str "ci".

Definition ci (d : db) (o : Z) : Prop := ∃ x, checkin_row d o x.

(** The events, attachments and forum posts of an artifact. *)
Definition traces (d : db) (o : Z) : Prop :=
  is_Some (k_event (d_links d) !! o) ∨ is_Some (k_attachment (d_links d) !! o) ∨
  is_Some (k_forumpost (d_links d) !! o).

(** Attachments and forum posts are not check-ins. *)
Definition others_ok (d : db) : Prop :=
  ∀ o, is_Some (k_attachment (d_links d) !! o) ∨ is_Some (k_forumpost (d_links d) !! o) → ¬ ci d o.

Lemma ci_trace d o : ci d o → traces d o.
Proof. intros (x & Hx & _). left. destruct (k_event (d_links d) !! o); [by eexists|done]. Qed.

(** Crosslinking the artifact [rid], not a check-in, adds rows of [rid] and leaves
    the check-ins alone. *)
Record quiet (rid : Z) (d d' : db) : Prop := {
  qt_repo : repo_grows (d_repo d) (d_repo d');
  qt_names : k_filename (d_links d') = k_filename (d_links d);
  qt_files : k_mlink (d_links d') = k_mlink (d_links d);
  qt_leaf : d_leaf d' = d_leaf d;
  qt_plink : k_plink (d_links d) ⊆ k_plink (d_links d');
  qt_plink_new : ∀ p c, c ≠ rid → k_plink (d_links d') !! (p, c) = k_plink (d_links d) !! (p, c);
  qt_traces : ∀ o, o ≠ rid → traces d' o → traces d o;
  qt_rows : others_ok d → ¬ ci d rid →
    others_ok d' ∧ ∀ o x, checkin_row d' o x ↔ checkin_row d o x
}.

#[global] Instance quiet_preorder rid : PreOrder (quiet rid).
Proof.
  split.
  - intros d. by split.
  - intros d1 d2 d3 [A1 A2 A3 A4 A5 A6 A7 A8] [B1 B2 B3 B4 B5 B6 B7 B8].
    split; [by etrans|congruence|congruence|congruence|by etrans| | |].
    + intros p c Hc. rewrite B6 by done. by apply A6.
    + intros o Hn H. by apply A7, B7.
    + intros H1 H2. destruct (A8 H1 H2) as [H3 H4].
      destruct (B8 H3) as [H5 H6]; [intros (x & Hx); apply H2; exists x; by apply H4|].
      split; [done|]. intros o x. by rewrite H6, H4.
Qed.

(** Changes to the events alone. *)
Lemma quiet_event rid f d :
  (∀ o, o ≠ rid → is_Some (f (k_event (d_links d)) !! o) → is_Some (k_event (d_links d) !! o)) →
  (others_ok d → ¬ ci d rid → ∀ o x, checkin_row (on_event f d) o x ↔ checkin_row d o x) →
  quiet rid d (on_event f d).
Proof.
  intros Ht Hr. split; try done; [intros o Hn [H|H]; [left; by apply Ht|by right]|].
  intros H1 H2. specialize (Hr H1 H2). split; [|done]. intros o Ho (x & Hx). apply (H1 o Ho).
  exists x. by apply Hr.
Qed.

(** Rows other than check-ins' come and go. *)
Lemma quiet_put rid e d : ev_type e ≠ str "ci" → quiet rid d (on_event <[rid := e]> d).
Proof.
  intros He. apply quiet_event.
  - intros o Hn. by rewrite lookup_insert_ne.
  - intros _ Hci o x. unfold checkin_row. cbn. destruct (decide (rid = o)) as [<-|Hn].
    + rewrite lookup_insert_eq. split; [by intros [[= <-] ?]|]. intros H. destruct Hci. by exists x.
    + by rewrite lookup_insert_ne.
Qed.

(** Rows that are not check-ins' are changed. *)
Lemma quiet_alter rid o f d : is_Some (k_attachment (d_links d) !! o) →
  (∀ e, ev_type (f e) ≠ str "ci") → quiet rid d (on_event (alter f o) d).
Proof.
  intros Ha Hf. apply quiet_event.
  - intros o' _. cbn. by rewrite lookup_alter_is_Some.
  - intros Hok _ o' x. unfold checkin_row. cbn. destruct (decide (o = o')) as [<-|Hn].
    + rewrite lookup_alter_eq. split.
      * destruct (k_event (d_links d) !! o) as [e|]; [|by intros [? ?]]. cbn. intros [[= <-] H]. by destruct (Hf e).
      * intros H. destruct (Hok o); [by left|]. by exists x.
    + by rewrite lookup_alter_ne.
Qed.

Lemma quiet_tags rid d d' : tag_effect d d' → quiet rid d d'.
Proof.
  intros [(X & Y & T & ->) He]. split; try done.
  - by apply repo_grows_same.
  - intros o _ [H|H]; [left|by right]. specialize (He o). cbn in *. destruct H as [e H].
    rewrite H in He. destruct (k_event (d_links d) !! o); [by eexists|done].
  - assert (∀ o x, checkin_row (on_tag (λ _, T) (on_event (λ _, Y) (on_tagxref (λ _, X) d))) o x
      ↔ checkin_row d o x) as Hr by (intros o x; unfold checkin_row; by rewrite He).
    intros Ho _. split; [|done]. intros o H (x & Hx). apply (Ho o H). exists x. by apply Hr.
Qed.

Lemma keeps_quiet rid d m : keeps tag_effect d m → keeps (quiet rid) d m.
Proof. destruct m as [x|[x e]| |]; cbn; auto using quiet_tags. Qed.

(** ** Parents *)

Lemma insert_new_lookup `{Countable K} {A} (k k' : K) (v : A) m :
  insert_new k v m !! k' = if decide (k = k') then Some (default v (m !! k)) else m !! k'.
Proof.
  unfold insert_new. case_decide as Hk.
  - subst k'. destruct (m !! k) eqn:E; [done|]. by rewrite lookup_insert_eq.
  - destruct (m !! k); [done|]. by rewrite lookup_insert_ne.
Qed.

Lemma insert_new_subseteq `{Countable K} {A} (k : K) (v : A) m : m ⊆ insert_new k v m.
Proof. unfold insert_new. destruct (m !! k) eqn:E; [done|]. by apply insert_subseteq. Qed.

(** The rows of [plink] after the parents [P] of [rid], the first of index [i]. *)
Record parents_of (d : db) (rid : Z) (i : nat) (P : list bytes) (X : gmap (Z * Z) plinkVal) : Prop := {
  pa_old : k_plink (d_links d) ⊆ X;
  pa_rows : ∀ p c, is_Some (X !! (p, c)) ↔
    is_Some (k_plink (d_links d) !! (p, c)) ∨ (c = rid ∧ ∃ u, u ∈ P ∧ rid_of d u = Some p);
  pa_prim : ∀ p v, X !! (p, rid) = Some v → k_plink (d_links d) !! (p, rid) = None →
    pk_isprim v = true ↔ i = 0 ∧ head P ≫= rid_of d = Some p
}.

Lemma insertPlinks_eq i P rid mtime base d :
  ∃ X, insertPlinks i P rid mtime base d = on_plink (λ _, X) d ∧ parents_of d rid i P X.
Proof.
  revert i d. induction P as [|u P IH]; intros i d; cbn [insertPlinks].
  { exists (k_plink (d_links d)). split; [by destruct d as [? ? ? ? ? ? ? ? []]|]. split; [done| |congruence].
    intros p c. split; [by left|]. intros [?|(_ & u & Hu & _)]; [done|by apply not_elem_of_nil in Hu]. }
  set (d1 := match rid_of d u with Some _ => _ | None => _ end).
  destruct (IH (S i) d1) as (X & -> & [H1 H2 H3]).
  assert (∀ v, rid_of d1 v = rid_of d v) as Hrid by (intros v; unfold d1; by destruct (rid_of d u)).
  assert (k_plink (d_links d) ⊆ k_plink (d_links d1)) as Hsub.
  { unfold d1. destruct (rid_of d u); [apply insert_new_subseteq|done]. }
  exists X. split; [unfold d1; by destruct (rid_of d u)|]. split; [by etrans| |].
  - intros p c. rewrite H2. setoid_rewrite Hrid. setoid_rewrite elem_of_cons. unfold d1.
    destruct (rid_of d u) as [r|] eqn:Hu; [|naive_solver].
    change (k_plink (d_links (on_plink ?f d))) with (f (k_plink (d_links d))). cbv beta.
    rewrite insert_new_lookup. case_decide as Hk; [|naive_solver].
    injection Hk as <- <-. split; [|by left; eexists]. intros _. right. split; [done|]. exists u. auto.
  - intros p v Hv Hn. cbn [head mbind option_bind].
    destruct (k_plink (d_links d1) !! (p, rid)) as [v'|] eqn:E.
    + assert (X !! (p, rid) = Some v') as Hv' by (by eapply lookup_weaken).
      assert (v' = v) as -> by congruence. revert E. unfold d1.
      destruct (rid_of d u) as [r|] eqn:Hu; [|congruence].
      change (k_plink (d_links (on_plink ?f d))) with (f (k_plink (d_links d))). cbv beta.
      rewrite insert_new_lookup. case_decide as Hk; [|congruence]. injection Hk as ->. rewrite Hn.
      cbn. intros [= <-]. cbn. rewrite Nat.eqb_eq. naive_solver.
    + rewrite (H3 p v Hv E). split; [lia|]. intros [-> Hu]. exfalso. revert E. unfold d1. rewrite Hu.
      change (k_plink (d_links (on_plink ?f d))) with (f (k_plink (d_links d))). cbv beta.
      rewrite insert_new_lookup, decide_True; done.
Qed.

Lemma quiet_parents rid i P mtime base d : quiet rid d (insertPlinks i P rid mtime base d).
Proof.
  destruct (insertPlinks_eq i P rid mtime base d) as (X & -> & [H1 H2 _]). split; try done.
  intros p c Hc. cbn. destruct (X !! (p, c)) as [v|] eqn:E.
  - destruct (proj1 (H2 p c)) as [[v' Hv]|[? _]]; [by eexists| |done]. rewrite Hv.
    eapply lookup_weaken in Hv; [|exact H1]. congruence.
  - destruct (k_plink (d_links d) !! (p, c)) as [v|] eqn:E'; [|done].
    eapply lookup_weaken in E'; [|exact H1]. congruence.
Qed.

(** ** The handlers *)

Section handlers.
Context {sqlite : Sqlite} {order : Unordered} {olaws : UnorderedLaws} {unicode : Unicode}.

Lemma addFWTPlink_quiet d rid dk : keeps (quiet rid) d (addFWTPlink d rid dk).
Proof.
  unfold addFWTPlink. destruct (rid <=? 0)%Z; [done|]. cbv zeta.
  apply (keeps_trans (quiet rid) _ _ _ (quiet_parents rid 0 (d_P dk) (TimeToJulian (d_D dk)) None d)).
  destruct (0 <? _)%Z; [apply keeps_quiet, PropagateAll_effect|cbn; reflexivity].
Qed.

Lemma ApplyTag_quiet rid d opts : keeps (quiet rid) d (ApplyTag d opts).
Proof. apply keeps_quiet, ApplyTag_effect. Qed.

Lemma updateAttachmentComments_quiet rid d target t : keeps (quiet rid) d (updateAttachmentComments d target t).
Proof.
  unfold updateAttachmentComments. case_bool_decide; [done|]. cbn.
  match goal with |- quiet rid d (foldl ?f d ?l) => set (step := f); set (rows := l) end.
  assert (Forall (λ p, is_Some (k_attachment (d_links d) !! p.1)) rows) as Hrows.
  { apply Forall_forall. intros [o a] Hin. unfold rows in Hin. rewrite any_order_perm in Hin.
    apply list_elem_of_filter in Hin as [_ Hin]. apply elem_of_map_to_list in Hin. by eexists. }
  clearbody rows. revert d Hrows. induction rows as [|[o a] rows IH]; intros d Hrows; [reflexivity|].
  apply Forall_cons in Hrows as [Ho Hrows]. cbn [foldl]. etrans; [|apply IH; exact Hrows].
  apply quiet_alter; [exact Ho|]. intros e. cbn. by destruct t.
Qed.

Lemma quiet_forum rid d row : quiet rid d (on_forumpost <[rid := row]> d).
Proof.
  split; try done.
  - intros o Hn [H|[H|H]]; [by left|by right; left|]. right; right. revert H. cbn. by rewrite lookup_insert_ne.
  - intros Ho Hci. split; [|done]. intros o [H|H]; [by apply (Ho o); left|].
    destruct (decide (rid = o)) as [<-|Hn]; [done|]. apply (Ho o). right. revert H. cbn.
    by rewrite lookup_insert_ne.
Qed.

Lemma crosslinkWiki_quiet d rid dk : keeps (quiet rid) d (crosslinkWiki d rid dk).
Proof.
  unfold crosslinkWiki. destruct (rid <=? 0)%Z; [done|].
  apply keeps_bind; [apply _|apply addFWTPlink_quiet|]. intros d1 _ _. cbv zeta.
  case_bool_decide; [cbn; reflexivity|].
  apply keeps_bind; [apply _|apply ApplyTag_quiet|]. intros d2 _ _. by apply quiet_put.
Qed.

Lemma crosslinkTicket_quiet d rid dk : keeps (quiet rid) d (crosslinkTicket d rid dk).
Proof.
  unfold crosslinkTicket. destruct (rid <=? 0)%Z; [done|]. cbv zeta.
  case_bool_decide; [cbn; reflexivity|].
  apply keeps_bind; [apply _|apply ApplyTag_quiet|]. intros d2 _ _. apply updateAttachmentComments_quiet.
Qed.

Lemma delete_versions_quiet rid tagid d : quiet rid d (delete_versions tagid d).
Proof.
  apply quiet_event.
  - intros o _ [e [He _]%map_lookup_filter_Some]. by eexists.
  - intros _ _ o x. unfold checkin_row. cbn. rewrite map_lookup_filter.
    destruct (k_event (d_links d) !! o) as [e|]; [|done]. cbn.
    match goal with |- context [guard ?P] => destruct (decide P) as [HP|HP] end.
    + by rewrite option_guard_True.
    + rewrite option_guard_False by done. split; [by intros [? ?]|]. intros [[= <-] Hx]. destruct HP.
      intros [He _]. cbn in Hx. congruence.
Qed.

Lemma crosslinkEvent_quiet d rid dk : keeps (quiet rid) d (crosslinkEvent d rid dk).
Proof.
  unfold crosslinkEvent. destruct (rid <=? 0)%Z; [done|].
  destruct (d_E dk) as [e|]; [|cbn; reflexivity].
  apply keeps_bind; [apply _|apply addFWTPlink_quiet|]. intros d1 _ _. cbv zeta.
  apply keeps_bind; [apply _|apply ApplyTag_quiet|]. intros d2 _ _.
  destruct (k_tag _ !! _) as [tagid|]; [|cbn; reflexivity].
  set (later := subsequent d2 _ _ _).
  assert (quiet rid d2 (if negb (is_nil (d_P dk)) && negb later then delete_versions tagid d2 else d2)) as H3.
  { destruct (_ && _); [apply delete_versions_quiet|reflexivity]. }
  revert H3. generalize (if negb (is_nil (d_P dk)) && negb later then delete_versions tagid d2 else d2) as d3.
  intros d3 H3. apply (keeps_trans (quiet rid) _ _ _ H3).
  destruct later; [apply updateAttachmentComments_quiet|].
  eapply (keeps_trans (quiet rid)); [|apply updateAttachmentComments_quiet]. by apply quiet_put.
Qed.

Lemma mark_latest_dom target filename t o :
  is_Some (mark_latest target filename t !! o) ↔ is_Some (t !! o).
Proof. unfold mark_latest. rewrite lookup_fmap. apply fmap_is_Some. Qed.

Lemma attach_type_not_ci d target : [attach_type d target] ≠ str "ci".
Proof. by destruct (attach_type d target). Qed.

(** The rows of attachments other than [rid]'s stay. *)
Lemma quiet_attachment rid f d :
  (∀ o, o ≠ rid → is_Some (f (k_attachment (d_links d)) !! o) → is_Some (k_attachment (d_links d) !! o)) →
  quiet rid d (on_attachment f d).
Proof.
  intros Hf. split; try done.
  - intros o Hn [H|[H|H]]; [by left|right; left; by apply Hf|by right; right].
  - intros Ho Hci. split; [|done]. intros o [H|H]; [|by apply (Ho o); right].
    destruct (decide (o = rid)) as [->|Hn]; [done|]. apply (Ho o). left. by apply Hf.
Qed.

Lemma crosslinkAttachment_quiet d rid dk : keeps (quiet rid) d (crosslinkAttachment d rid dk).
Proof.
  unfold crosslinkAttachment. destruct (rid <=? 0)%Z; [done|].
  destruct (d_A dk) as [a|]; [|cbn; reflexivity]. cbv zeta.
  destruct (_ !! rid); [cbn; reflexivity|]. cbn [keeps].
  etrans; [|apply quiet_put, attach_type_not_ci]. etrans; apply quiet_attachment.
  - intros o Hn. by rewrite lookup_insert_ne.
  - intros o _. by rewrite mark_latest_dom.
Qed.

Lemma retitle_thread_quiet rid froot title d : quiet rid d (retitle_thread froot title d).
Proof.
  apply quiet_event.
  - intros o _. rewrite map_lookup_imap. destruct (k_event (d_links d) !! o); [by eexists|by intros [? ?]].
  - intros Hok _ o x. unfold checkin_row. cbn. rewrite map_lookup_imap.
    destruct (k_event (d_links d) !! o) as [e|] eqn:He; [|done]. cbn.
    destruct (k_forumpost (d_links d) !! o) as [fp|] eqn:Hf; [|done].
    assert (ev_type e ≠ str "ci") as Hn.
    { intros Ht. apply (Hok o); [right; by eexists|]. exists (uncoloured e).
      unfold checkin_row. by rewrite He. }
    destruct (_ =? _)%Z; split; intros [[= <-] Hx]; cbn in Hx; done.
Qed.

Lemma crosslinkForum_quiet d rid dk : keeps (quiet rid) d (crosslinkForum d rid dk).
Proof.
  unfold crosslinkForum. destruct (rid <=? 0)%Z; [done|].
  apply keeps_bind; [apply _|apply addFWTPlink_quiet|]. intros d1 _ _.
  destruct (resolveForumRefs d1 rid dk) as [[froot fprev] firt]. cbv zeta. cbn [keeps].
  etrans; [apply quiet_forum|].
  destruct (firt =? 0)%Z; [unfold crosslinkForumStarter; cbv zeta|by apply quiet_put].
  match goal with |- quiet _ _ (if _ then ?d2 else _) => transitivity d2 end; [by apply quiet_put|].
  destruct (hasNewer _ _ _ _); [reflexivity|apply retitle_thread_quiet].
Qed.

Lemma crosslinkControl_quiet d rid dk : keeps (quiet rid) d (crosslinkControl d rid dk).
Proof.
  unfold crosslinkControl. destruct (rid <=? 0)%Z; [done|]. cbv zeta.
  apply keeps_bind; [apply _| |intros d1 _ _; by apply quiet_put].
  generalize (d_T dk) as T. intros T. revert d.
  induction T as [|tc T IH]; intros d; cbn [apply_control]; [cbn; reflexivity|].
  apply keeps_bind; [apply _| |intros d1 _ _; apply IH].
  case_bool_decide; [cbn; reflexivity|]. destruct (rid_of d _); [|cbn; reflexivity].
  destruct (tag_type _); [apply ApplyTag_quiet|cbn; reflexivity].
Qed.

Lemma quiet_repo rid f d : repo_grows (d_repo d) (f (d_repo d)) → quiet rid d (on_repo f d).
Proof. intros H. by split. Qed.

Lemma crosslink_cluster_quiet d rid dk : keeps (quiet rid) d (crosslink_cluster d rid dk).
Proof.
  unfold crosslink_cluster. destruct (rid <=? 0)%Z; [done|].
  apply (keeps_trans (quiet rid) _ _ _ (quiet_tags rid _ _ (on_tagxref_effect <[(7%Z, rid) := cluster_tag rid]> d))).
  generalize (on_tagxref <[(7%Z, rid) := cluster_tag rid]> d) as d1. intros d1. clear d. rename d1 into d.
  generalize (d_M dk) as M. intros M. revert d.
  induction M as [|u M IH]; intros d; cbn [link_members]; [cbn; reflexivity|].
  apply keeps_unchanged; [apply _|]. intros q Hq. apply wrap_err_ret in Hq.
  eapply (keeps_trans (quiet rid)); [|apply IH]. apply quiet_repo.
  exact (crosslink_member_grows _ _ _ Hq).
Qed.

Lemma crosslink_artifact_quiet d rid dk :
  d_Type dk ≠ Checkin → keeps (quiet rid) d (crosslink_artifact d rid dk).
Proof.
  intros Ht. unfold crosslink_artifact. destruct (d_Type dk); [done|..].
  - apply crosslinkWiki_quiet.
  - apply crosslinkTicket_quiet.
  - apply crosslinkEvent_quiet.
  - apply crosslink_cluster_quiet.
  - apply crosslinkForum_quiet.
  - apply crosslinkAttachment_quiet.
  - apply crosslinkControl_quiet.
Qed.

(** ** The tables of a check-in *)

Definition names_unique (N : gmap bytes Z) : Prop :=
  ∀ n1 n2 fnid, N !! n1 = Some fnid → N !! n2 = Some fnid → n1 = n2.

Lemma next_rowid_fresh ids i : i ∈ ids → (i < next_rowid ids)%Z.
Proof.
  unfold next_rowid. induction ids as [|j ids IH]; [by intros ?%not_elem_of_nil|].
  cbn [foldr]. intros [->|Hi%IH]%elem_of_cons; lia.
Qed.

Lemma ensureFilename_ret d name d' fnid : ensureFilename d name = Ret (d', fnid) →
  ∃ N, d' = on_filename (λ _, N) d ∧ k_filename (d_links d) ⊆ N ∧ N !! name = Some fnid ∧
    (names_unique (k_filename (d_links d)) → names_unique N).
Proof.
  unfold ensureFilename. case_bool_decide; [done|]. destruct (_ !! name) as [i|] eqn:E.
  { intros [= <- <-]. exists (k_filename (d_links d)). by destruct d as [? ? ? ? ? ? ? ? []]. }
  cbv zeta. set (new := next_rowid _). intros [= <- <-]. eexists. split; [reflexivity|].
  split; [by apply insert_subseteq|]. split; [apply lookup_insert_eq|].
  assert (∀ n, k_filename (d_links d) !! n ≠ Some new) as Hnew.
  { intros n Hn. assert (new < new)%Z; [|lia]. apply next_rowid_fresh, list_elem_of_fmap.
    exists (n, new). split; [done|]. by apply elem_of_map_to_list. }
  intros Hu n1 n2 f [[<- <-]|[? H1]]%lookup_insert_Some [[<- ?]|[? H2]]%lookup_insert_Some; try done.
  - by destruct (Hnew n2).
  - subst f. by destruct (Hnew n1).
  - by eapply Hu.
Qed.

(** The row of [mlink] for a file of the check-in [rid]. *)
Definition file_row (d : db) (rid : Z) (f : FileCard) (m : mlinkRow) : Prop :=
  ml_mid m = rid ∧ rid_of d (fc_UUID f) = Some (ml_fid m) ∧
  k_filename (d_links d) !! fc_Name f = Some (ml_fnid m).

Definition file_listed (d : db) (f : FileCard) : Prop := fc_UUID f ≠ [] ∧ is_Some (rid_of d (fc_UUID f)).
#[global] Instance file_listed_dec d f : Decision (file_listed d f).
Proof. apply _. Defined.

Lemma insert_mlinks_ret rid F d d' : insert_mlinks rid F d = Ret d' →
  ∃ N rows, d' = on_mlink (λ l, l ++ rows) (on_filename (λ _, N) d) ∧ k_filename (d_links d) ⊆ N ∧
    (names_unique (k_filename (d_links d)) → names_unique N) ∧
    Forall2 (file_row d' rid) (filter (file_listed d) F) rows.
Proof.
  revert d. induction F as [|f F IH]; intros d; cbn [insert_mlinks].
  { intros [= <-]. exists (k_filename (d_links d)), []. split_and!; [|done|done|constructor].
    destruct d as [? ? ? ? ? ? ? ? []]. unfold on_mlink, on_filename, on_links. cbn. by rewrite app_nil_r. }
  rewrite filter_cons. case_bool_decide as Hu.
  { rewrite decide_False by (intros [? _]; done). apply IH. }
  intros H. apply bind_ret_inv in H as ([d1 fnid] & H1 & H).
  apply ensureFilename_ret in H1 as (N1 & -> & Hs1 & Hn1 & Hi1).
  change (rid_of (on_filename (λ _, N1) d) (fc_UUID f)) with (rid_of d (fc_UUID f)) in H.
  destruct (rid_of d (fc_UUID f)) as [fileRid|] eqn:Hf.
  - rewrite decide_True by (split; [done|by eexists]).
    destruct (IH _ H) as (N & rows & -> & Hs & Hi & Hrows). exists N, (MkMlink rid fileRid None None fnid :: rows).
    assert (∀ rows', on_mlink (λ l, l ++ rows') (on_filename (λ _, N)
              (on_mlink (λ l, l ++ [MkMlink rid fileRid None None fnid]) (on_filename (λ _, N1) d)))
            = on_mlink (λ l, l ++ MkMlink rid fileRid None None fnid :: rows') (on_filename (λ _, N) d)) as He.
    { intros rows'. unfold on_mlink, on_filename, on_links. cbn. by rewrite <- app_assoc. }
    rewrite He in Hrows |- *. split_and!; [done|by etrans|by auto|]. constructor; [|exact Hrows].
    split_and!; [done|exact Hf|]. cbn. by eapply lookup_weaken.
  - rewrite decide_False by (intros [_ [? ?]]; congruence).
    destruct (IH _ H) as (N & rows & -> & Hs & Hi & Hrows). exists N, rows.
    split_and!; [done|by etrans|by auto|exact Hrows].
Qed.

Lemma leaf_fold P d d1 : (∀ u, rid_of d1 u = rid_of d u) →
  ∃ L, foldl delete_leaf d1 P = on_leaf (λ _, L) d1 ∧
    ∀ r, r ∈ L ↔ r ∈ d_leaf d1 ∧ ¬ ∃ u, u ∈ P ∧ rid_of d u = Some r.
Proof.
  revert d1. induction P as [|u P IH]; intros d1 Hrid; cbn [foldl].
  { exists (d_leaf d1). split; [by destruct d1|]. intros r. split; [|tauto]. intros H. split; [done|].
    intros (u & Hu & _). by apply not_elem_of_nil in Hu. }
  destruct (IH (delete_leaf d1 u)) as (L & HL & Hr).
  { intros v. rewrite <- Hrid. unfold delete_leaf. by destruct (rid_of d1 u). }
  exists L. split; [rewrite HL; unfold delete_leaf; by destruct (rid_of d1 u)|].
  intros r. rewrite Hr. unfold delete_leaf. rewrite Hrid. setoid_rewrite elem_of_cons.
  destruct (rid_of d u) as [p|] eqn:Hu; [|naive_solver].
  cbn. rewrite elem_of_difference, elem_of_singleton. split.
  - intros [[H1 H2] H3]. split; [done|]. intros (v & [->|Hv] & Hvr); [congruence|]. apply H3. by exists v.
  - intros [H1 H2]. split_and!; [done| |].
    + intros ->. apply H2. exists u. auto.
    + intros (v & Hv & Hvr). apply H2. exists v. auto.
Qed.

Lemma cherrypicks_eq rid Q d : ∃ X, foldl (insert_cherrypick rid) d Q = on_cherrypick (λ _, X) d.
Proof.
  revert d. induction Q as [|c Q IH]; intros d; cbn [foldl].
  { exists (k_cherrypick (d_links d)). by destruct d as [? ? ? ? ? ? ? ? []]. }
  destruct (IH (insert_cherrypick rid d c)) as [X HX]. exists X. rewrite HX.
  unfold insert_cherrypick. by destruct (rid_of d _).
Qed.

(** What the transaction for a check-in with the files [F] leaves. *)
Record tables (F : list FileCard) (rid : Z) (dk : Deck) (d d' : db) : Prop := {
  tb_repo : d_repo d' = d_repo d;
  tb_event : k_event (d_links d') = insert_new rid (checkin_event dk) (k_event (d_links d));
  tb_attach : k_attachment (d_links d') = k_attachment (d_links d);
  tb_forum : k_forumpost (d_links d') = k_forumpost (d_links d);
  tb_plink : parents_of d rid 0 (d_P dk) (k_plink (d_links d'));
  tb_leaf : ∀ r, r ∈ d_leaf d' ↔
    (r = rid ∨ r ∈ d_leaf d) ∧ ¬ ∃ u, u ∈ d_P dk ∧ rid_of d u = Some r;
  tb_names : k_filename (d_links d) ⊆ k_filename (d_links d') ∧
    (names_unique (k_filename (d_links d)) → names_unique (k_filename (d_links d')));
  tb_mlink : ∃ rows, k_mlink (d_links d') = k_mlink (d_links d) ++ rows ∧
    Forall2 (file_row d' rid) (filter (file_listed d) F) rows
}.

Lemma crosslinkCheckinTables_ok d rid dk d' :
  crosslinkCheckinTables d rid dk = Ret d' → tables (d_F dk) rid dk d d'.
Proof.
  unfold crosslinkCheckinTables, insertCheckinPlinks, updateLeafTable, insertCheckinMlinks, insertCherrypicks.
  cbv zeta. set (d1 := on_event _ d).
  match goal with |- context [insertPlinks 0 (d_P dk) rid ?m ?b d1] =>
    destruct (insertPlinks_eq 0 (d_P dk) rid m b d1) as (X & -> & HX) end.
  destruct (leaf_fold (d_P dk) d (on_leaf (λ s, {[rid]} ∪ s) (on_plink (λ _, X) d1))) as (L & -> & HL); [done|].
  intros H. apply bind_ret_inv in H as (d2 & Hm & H).
  apply insert_mlinks_ret in Hm as (N & rows & -> & HN & Hu & Hrows).
  destruct (cherrypicks_eq rid (d_Q dk)
    (on_mlink (λ l, l ++ rows) (on_filename (λ _, N) (on_leaf (λ _, L) (on_leaf (λ s, {[rid]} ∪ s) (on_plink (λ _, X) d1))))))
    as [C HC]. rewrite HC in H. injection H as <-.
  split; try done.
  - by destruct HX.
  - intros r. change (r ∈ L ↔ (r = rid ∨ r ∈ d_leaf d) ∧ ¬ ∃ u, u ∈ d_P dk ∧ rid_of d u = Some r).
    rewrite HL. cbn. by rewrite elem_of_union, elem_of_singleton.
  - exists rows. split; [done|]. exact Hrows.
Qed.

(** ** What does not change when the repository grows *)

(** The artifact is there, and not as a phantom. *)
Definition present (d : db) (rid : Z) : Prop :=
  ∃ row, t_blob (d_repo d) !! rid = Some row ∧ (0 ≤ b_size row)%Z.

(** A check-in that need not wait. *)
Definition complete (d : db) (rid : Z) (dk : Deck) : Prop :=
  read_manifest d rid = Ret dk ∧ d_Type dk = Checkin ∧ missingCheckinRefs d dk = [].

Section grown.
Variables (d d' : db).
Hypothesis (Hok : repo_ok (d_repo d)) (Hg : repo_grows (d_repo d) (d_repo d')).

Lemma rid_of_grows u r : rid_of d u = Some r → rid_of d' u = Some r.
Proof. apply retains_rid; [by apply Hg|apply extends_retains, Hg]. Qed.

Lemma present_grows rid : present d rid → present d' rid.
Proof.
  intros (row & Hr & Hs). exists row. split; [|done]. eapply lookup_weaken; [done|].
  by destruct (rg_extends _ _ Hg) as (? & _).
Qed.

Lemma read_grows rid : present d rid → read_manifest d' rid = read_manifest d rid.
Proof.
  intros (row & Hr & Hs). destruct (ok_content _ Hok rid row Hr) as (c & He & _); [lia|].
  assert (expands (d_repo d') rid c) as He' by (eapply expands_extends; [apply Hg|done]).
  pose proof (expands_pos _ _ _ He) as Hp. unfold read_manifest.
  apply Expand_expands in He, He'; [|done..]. by rewrite He, He'.
Qed.

Lemma blobPresent_grows u : blobPresent d' u = blobPresent d u.
Proof.
  unfold blobPresent. destruct (rid_of d u) as [r|] eqn:Hu.
  - rewrite (rid_of_grows u r Hu). cbn. apply rid_of_uuid_Some in Hu as (row & Hr & _). rewrite Hr.
    destruct (rg_extends _ _ Hg) as (Hb & _). by rewrite (lookup_weaken _ _ _ _ Hr Hb).
  - cbn. destruct (rid_of d' u) as [r|] eqn:Hu'; [|done]. cbn.
    apply rid_of_uuid_Some in Hu' as (row & Hr & Hur). rewrite Hr.
    destruct (Z.leb_spec 0 (b_size row)) as [Hs|]; [|done].
    pose proof (rg_full _ _ Hg r row Hr Hs) as Hr0. by destruct (rid_of_uuid_None _ _ Hu r row Hr0).
Qed.

Lemma missing_grows dk : missingCheckinRefs d' dk = missingCheckinRefs d dk.
Proof.
  unfold missingCheckinRefs. generalize (∅ : gset bytes) as seen.
  induction (d_B dk :: map fc_UUID (d_F dk)) as [|u refs IH]; intros seen; [done|].
  cbn [missing_refs]. rewrite blobPresent_grows. destruct (_ || _); [apply IH|]. by rewrite IH.
Qed.

Lemma complete_grows rid dk : present d rid → complete d' rid dk ↔ complete d rid dk.
Proof. intros Hp. unfold complete. by rewrite read_grows, missing_grows. Qed.
End grown.

Lemma missing_spec d refs seen : missing_refs d refs seen = [] ↔
  ∀ u, u ∈ refs → u ≠ [] → u ∉ seen → blobPresent d u = true.
Proof.
  revert seen. induction refs as [|u refs IH]; intros seen; cbn [missing_refs].
  { split; [intros _ u Hu; by apply not_elem_of_nil in Hu|done]. }
  destruct (bool_decide_reflect (u = [])) as [->|Hu]; cbn [orb].
  { rewrite IH. setoid_rewrite elem_of_cons. naive_solver. }
  destruct (bool_decide_reflect (u ∈ seen)) as [Hs|Hs].
  { rewrite IH. setoid_rewrite elem_of_cons. naive_solver. }
  destruct (blobPresent d u) eqn:Hp; cbn [app].
  - rewrite IH. setoid_rewrite elem_of_cons. split.
    + intros H v [->|Hv] Hn Hns; [done|]. destruct (decide (v = u)) as [->|Hvu]; [done|].
      apply H; [done|done|set_solver].
    + intros H v Hv Hn Hns. apply H; [by right|done|set_solver].
  - split; [done|]. intros H. rewrite H in Hp; [done|by left|done|done].
Qed.

Lemma filter_agree {A} (P Q : A → Prop) `{!∀ x, Decision (P x), !∀ x, Decision (Q x)} (l : list A) :
  (∀ x, x ∈ l → P x ↔ Q x) → filter P l = filter Q l.
Proof.
  induction l as [|x l IH]; intros Hl; [done|]. rewrite !filter_cons, IH by (intros; apply Hl; by right).
  destruct (Hl x) as [H1 H2]; [by left|]. repeat case_decide; try done; tauto.
Qed.

(** Every file of a complete check-in is there. *)
Lemma complete_files d rid dk :
  complete d rid dk → filter (file_listed d) (d_F dk) = filter (λ f, fc_UUID f ≠ []) (d_F dk).
Proof.
  intros (_ & _ & Hm). apply filter_agree. unfold missingCheckinRefs in Hm.
  intros f Hf. unfold file_listed. split; [tauto|]. intros Hu. split; [done|].
  assert (blobPresent d (fc_UUID f) = true) as Hp.
  { apply (proj1 (missing_spec d _ ∅) Hm); [|done|set_solver]. right. apply list_elem_of_fmap. by exists f. }
  unfold blobPresent in Hp. destruct (rid_of d (fc_UUID f)); [by eexists|done].
Qed.

(** ** The links of a repository *)

Record links_ok (d : db) : Prop := {
  lk_others : others_ok d;
  lk_files : ∀ m, m ∈ k_mlink (d_links d) → ci d (ml_mid m);
  lk_plink : ∀ p c, is_Some (k_plink (d_links d) !! (p, c)) →
    present d c ∧ ∀ dk, read_manifest d c = Ret dk → d_Type dk = Checkin → ci d c;
  lk_names : names_unique (k_filename (d_links d))
}.

(** Crosslinking one artifact: nothing was done, or an artifact was linked. *)
Inductive step (rid : Z) (d d' : db) : Prop :=
  | step_skip : d' = d → (∀ dk, ¬ complete d rid dk) → step rid d d'
  | step_other dk : read_manifest d rid = Ret dk → d_Type dk ≠ Checkin → quiet rid d d' → step rid d d'
  | step_checkin dk d1 : complete d rid dk → tables (d_F dk) rid dk d d1 → tag_effect d1 d' → step rid d d'.

Inductive steps : list Z → db → db → Prop :=
  | steps_nil d : steps [] d d
  | steps_cons rid l d d1 d2 : step rid d d1 → steps l d1 d2 → steps (rid :: l) d d2.

Lemma apply_inline_effect rid m T d : keeps tag_effect d (apply_inline rid m T d).
Proof.
  revert d. induction T as [|tc T IH]; intros d; cbn [apply_inline]; [cbn; reflexivity|].
  apply keeps_bind; [apply _| |intros; apply IH].
  destruct (negb _); [cbn; reflexivity|]. destruct (tag_type _); [apply ApplyTag_effect|cbn; reflexivity].
Qed.

Lemma applyInlineTags_effect d rid dk : keeps tag_effect d (applyInlineTags d rid dk).
Proof.
  unfold applyInlineTags. apply keeps_bind; [apply _|apply apply_inline_effect|]. intros d' _ _.
  destruct (d_P dk); [cbn; reflexivity|]. destruct (rid_of _ _); [apply PropagateAll_effect|cbn; reflexivity].
Qed.

(** The transaction of a check-in has no errors. *)
Lemma tables_no_error d rid dk e : crosslinkCheckinTables d rid dk ≠ Fail e.
Proof.
  unfold crosslinkCheckinTables, insertCheckinMlinks. cbv zeta.
  match goal with |- context [insert_mlinks rid (d_F dk) ?d1] => generalize d1 end. intros d1.
  cut (insert_mlinks rid (d_F dk) d1 ≠ Fail e).
  { destruct (insert_mlinks _ _ _); cbn; congruence. }
  revert d1. induction (d_F dk) as [|f F IH]; intros d1; cbn [insert_mlinks]; [done|].
  case_bool_decide; [apply IH|]. unfold ensureFilename. case_bool_decide; [done|].
  destruct (_ !! fc_Name f); cbn [mbind outcome_bind]; apply IH.
Qed.

Lemma artifact_step d rid dk : read_manifest d rid = Ret dk → deferred d dk = false →
  match crosslink_artifact d rid dk with
  | Ret d' | Fail (d', _) => step rid d d'
  | _ => True
  end.
Proof.
  intros Hr Hd. destruct (decide (d_Type dk = Checkin)) as [Ht|Ht].
  - assert (complete d rid dk) as Hc.
    { split_and!; [done|done|]. unfold deferred in Hd. rewrite bool_decide_true in Hd by done.
      by destruct (missingCheckinRefs d dk). }
    unfold crosslink_artifact. rewrite Ht. unfold crosslinkCheckin. destruct (rid <=? 0)%Z; [done|].
    destruct (crosslinkCheckinTables d rid dk) as [d1|e| |] eqn:E; cbn [unchanged wrap_err mbind outcome_bind];
      [|by apply tables_no_error in E|done..].
    apply crosslinkCheckinTables_ok in E. pose proof (applyInlineTags_effect d1 rid dk) as H.
    destruct (applyInlineTags d1 rid dk) as [x|[x e]| |]; cbn in H; try done; by eapply step_checkin.
  - pose proof (crosslink_artifact_quiet d rid dk Ht) as H.
    destruct (crosslink_artifact d rid dk) as [x|[x e]| |]; cbn in H; try done; by eapply step_other.
Qed.

(** The sweep takes these steps, all of them if it succeeds. *)
Lemma sweep_steps l d n :
  match sweep l d n with
  | Ret (d', _) => steps l d d'
  | Fail (d', _, _) => ∃ l1 l2, l = l1 ++ l2 ∧ steps l1 d d'
  | _ => True
  end.
Proof.
  revert d n. induction l as [|rid l IH]; intros d n; cbn [sweep]; [constructor|].
  assert ((∀ dk, ¬ complete d rid dk) →
    match sweep l d n with
    | Ret (d', _) => steps (rid :: l) d d'
    | Fail (d', _, _) => ∃ l1 l2, rid :: l = l1 ++ l2 ∧ steps l1 d d'
    | _ => True
    end) as Hskip.
  { intros Hn. specialize (IH d n). destruct (sweep l d n) as [[d' n']|[[d' n'] e]| |]; try done.
    - by eapply steps_cons; [apply step_skip|].
    - destruct IH as (l1 & l2 & -> & H). exists (rid :: l1), l2. split; [done|].
      by eapply steps_cons; [apply step_skip|]. }
  destruct (read_manifest d rid) as [dk|e| |] eqn:Hr; [|apply Hskip; intros dk (? & _); congruence|done..].
  destruct (deferred d dk) eqn:Hd.
  { apply Hskip. intros dk' (Hr' & Ht & Hm). assert (dk' = dk) as -> by congruence.
    unfold deferred in Hd. by rewrite Hm, andb_false_r in Hd. }
  pose proof (artifact_step d rid dk Hr Hd) as Hs.
  destruct (crosslink_artifact d rid dk) as [d1|[d1 e]| |]; cbn [wrap_err mbind outcome_bind]; try done.
  - specialize (IH d1 (n + 1)%Z). destruct (sweep l d1 _) as [[d' n']|[[d' n'] e]| |]; try done.
    + by eapply steps_cons.
    + destruct IH as (l1 & l2 & -> & H). exists (rid :: l1), l2. split; [done|]. by eapply steps_cons.
  - exists [rid], l. split; [done|]. eapply steps_cons; [exact Hs|constructor].
Qed.

(** ** The state after a sweep *)

(** The rows of [mlink] and the parents of a check-in. *)
Definition mlinks_of (d : db) (rid : Z) : list mlinkRow := filter (λ m, ml_mid m = rid) (k_mlink (d_links d)).

Record parents_linked (d d' : db) (rid : Z) (dk : Deck) : Prop := {
  pl_sound : ∀ p, is_Some (k_plink (d_links d') !! (p, rid)) → ∃ u, u ∈ d_P dk ∧ rid_of d' u = Some p;
  pl_complete : ∀ u p, u ∈ d_P dk → rid_of d u = Some p → is_Some (k_plink (d_links d') !! (p, rid));
  pl_prim : ∀ p v, k_plink (d_links d') !! (p, rid) = Some v →
    (pk_isprim v = true → head (d_P dk) ≫= rid_of d' = Some p) ∧
    (head (d_P dk) ≫= rid_of d = Some p → pk_isprim v = true)
}.

(** What crosslinking the artifacts [l] of [d] establishes. *)
Record established (l : list Z) (d d' : db) : Prop := {
  es_repo : repo_grows (d_repo d) (d_repo d');
  es_links : links_ok d';
  es_rows : ∀ o x, checkin_row d' o x ↔
    checkin_row d o x ∨ (o ∈ l ∧ ∃ dk, complete d o dk ∧ x = uncoloured (checkin_event dk));
  es_names : k_filename (d_links d) ⊆ k_filename (d_links d');
  es_files : ∀ o dk, o ∈ l → complete d o dk →
    Forall2 (file_row d' o) (filter (λ f, fc_UUID f ≠ []) (d_F dk)) (mlinks_of d' o);
  es_files_old : ∀ o, o ∉ l → mlinks_of d' o = mlinks_of d o;
  es_parents : ∀ o dk, o ∈ l → complete d o dk → parents_linked d d' o dk;
  es_parents_old : ∀ p c, c ∉ l → k_plink (d_links d') !! (p, c) = k_plink (d_links d) !! (p, c);
  es_traces : ∀ o, o ∉ l → traces d' o → traces d o
}.

Lemma established_nil d : links_ok d → established [] d d.
Proof.
  intros H. split; try done; try (intros ? ? ?%not_elem_of_nil; done).
  intros o x. split; [by left|]. intros [?|[?%not_elem_of_nil _]]; done.
Qed.

Lemma quiet_established rid d d' dk :
  repo_ok (d_repo d) → links_ok d → present d rid → ¬ traces d rid →
  read_manifest d rid = Ret dk → d_Type dk ≠ Checkin → quiet rid d d' → established [rid] d d'.
Proof.
  intros Hok [L1 L2 L3 L4] Hp Htr Hr Ht [Q1 Q2 Q3 Q4 Q5 Q6 Q7 Q8].
  assert (¬ ci d rid) as Hci by (by intros H%ci_trace). destruct (Q8 L1 Hci) as [Ho Hrow].
  assert (∀ dk', ¬ complete d rid dk') as Hnc by (intros dk' (? & ? & _); congruence).
  assert (∀ o, ci d o → ci d' o) as Hcis by (intros o (x & Hx); exists x; by apply Hrow).
  split; try done.
  - split; [done| | |by rewrite Q2].
    + intros m. rewrite Q3. intros Hm. by apply Hcis, L2.
    + intros p c Hpc. destruct (decide (c = rid)) as [->|Hn].
      * split; [by apply (present_grows d d')|]. intros dk'. rewrite (read_grows d d' Hok Q1 rid Hp). congruence.
      * rewrite Q6 in Hpc by done. destruct (L3 p c Hpc) as [Hpd Hci']. split; [by apply (present_grows d d')|].
        intros dk'. rewrite (read_grows d d' Hok Q1 c Hpd). intros. apply Hcis. by eapply Hci'.
  - intros o x. rewrite Hrow. split; [by left|].
    intros [?|(->%list_elem_of_singleton & dk' & Hc & _)]; [done|]. by apply Hnc in Hc.
  - by rewrite Q2.
  - intros o dk' ->%list_elem_of_singleton Hc. by apply Hnc in Hc.
  - intros o _. unfold mlinks_of. by rewrite Q3.
  - intros o dk' ->%list_elem_of_singleton Hc. by apply Hnc in Hc.
  - intros p c Hc. apply Q6. intros ->. apply Hc. by left.
  - intros o Hn. apply Q7. intros ->. apply Hn. by left.
Qed.

Lemma filter_all {A} (P : A → Prop) `{!∀ x, Decision (P x)} (l : list A) : Forall P l → filter P l = l.
Proof. induction 1 as [|x l Hx _ IH]; [done|]. rewrite filter_cons, decide_True by done. by f_equal. Qed.

Lemma filter_none {A} (P : A → Prop) `{!∀ x, Decision (P x)} (l : list A) :
  Forall (λ x, ¬ P x) l → filter P l = [].
Proof. induction 1 as [|x l Hx _ IH]; [done|]. by rewrite filter_cons, decide_False. Qed.

Lemma tables_rows F rid dk d d' : ¬ traces d rid → tables F rid dk d d' →
  ∀ o x, checkin_row d' o x ↔ checkin_row d o x ∨ (o = rid ∧ x = uncoloured (checkin_event dk)).
Proof.
  intros Htr Ht o x. unfold checkin_row. rewrite (tb_event _ _ _ _ _ Ht), insert_new_lookup.
  case_decide as Ho.
  - subst o. assert (k_event (d_links d) !! rid = None) as ->.
    { destruct (k_event (d_links d) !! rid) eqn:E; [|done]. destruct Htr. left. by eexists. }
    cbn. split; [intros [[= <-] _]; by right|]. intros [[? _]|[_ ->]]; done.
  - split; [by left|]. intros [?|[? _]]; congruence.
Qed.

(** What linking the one check-in [rid] with the files [F] establishes. *)
Record linked (F : list FileCard) (rid : Z) (dk : Deck) (d d' : db) : Prop := {
  li_repo : repo_grows (d_repo d) (d_repo d');
  li_links : links_ok d';
  li_rows : ∀ o x, checkin_row d' o x ↔ checkin_row d o x ∨ (o = rid ∧ x = uncoloured (checkin_event dk));
  li_names : k_filename (d_links d) ⊆ k_filename (d_links d');
  li_files : Forall2 (file_row d' rid) (filter (file_listed d) F) (mlinks_of d' rid);
  li_files_old : ∀ o, o ≠ rid → mlinks_of d' o = mlinks_of d o;
  li_parents : parents_linked d d' rid dk;
  li_parents_old : ∀ p c, c ≠ rid → k_plink (d_links d') !! (p, c) = k_plink (d_links d) !! (p, c);
  li_traces : ∀ o, o ≠ rid → traces d' o → traces d o
}.

Lemma checkin_linked F rid d d1 d' dk read :
  repo_ok (d_repo d) → links_ok d → present d rid → ¬ traces d rid →
  read_manifest d rid = Ret read → d_Type read = Checkin →
  tables F rid dk d d1 → tag_effect d1 d' → linked F rid dk d d'.
Proof.
  intros Hok [L1 L2 L3 L4] Hp Htr Hrd Hty Ht [(X & Y & T & ->) He].
  pose proof (tables_rows _ _ _ _ _ Htr Ht) as Hrow1.
  set (d2 := on_tag _ _) in *.
  assert (∀ o x, checkin_row d2 o x ↔ checkin_row d o x ∨ (o = rid ∧ x = uncoloured (checkin_event dk))) as Hrow.
  { intros o x. rewrite <- Hrow1. unfold checkin_row. by rewrite He. }
  clear Hrow1. destruct Ht as [T1 T2 T3 T4 [P1 P2 P3] T6 [T7 T8] (rows & T9 & T10)].
  assert (repo_grows (d_repo d) (d_repo d2)) as Hg.
  { cbn. rewrite T1. by apply repo_grows_same. }
  assert (∀ u, rid_of d2 u = rid_of d u) as Hrid by (intros u; unfold rid_of; cbn; by rewrite T1).
  assert (ci d2 rid) as Hci by (eexists; apply Hrow; by right).
  assert (∀ o, ci d o → ci d2 o) as Hcis by (intros o (x & Hx); exists x; apply Hrow; by left).
  assert (∀ p, k_plink (d_links d) !! (p, rid) = None) as Hnew.
  { intros p. destruct (k_plink (d_links d) !! (p, rid)) eqn:E; [|done].
    destruct Htr. apply ci_trace. destruct (L3 p rid) as [_ Hl]; [by eexists|]. by apply (Hl read). }
  assert (Forall (λ m, ml_mid m = rid) rows) as Hmid.
  { clear -T10. induction T10 as [|f m fs ms [H _] _ IH]; by constructor. }
  assert (Forall (λ m, ml_mid m ≠ rid) (k_mlink (d_links d))) as Hold.
  { apply Forall_forall. intros m Hm ?. apply Htr, ci_trace. replace rid with (ml_mid m). by apply L2. }
  assert (∀ p c, c ≠ rid → k_plink (d_links d1) !! (p, c) = k_plink (d_links d) !! (p, c)) as Hother.
  { intros p c Hn. destruct (k_plink (d_links d) !! (p, c)) as [v|] eqn:E; [by eapply lookup_weaken|].
    apply eq_None_not_Some. intros Hs. apply P2 in Hs as [[? ?]|[? _]]; congruence. }
  split; try done.
  - split.
    + intros o Ho (x & Hx). apply Hrow in Hx as [Hx|[-> _]].
      * apply (L1 o); [|by exists x]. cbn in Ho. by rewrite T3, T4 in Ho.
      * apply Htr. cbn in Ho. rewrite T3, T4 in Ho. by right.
    + intros m. cbn. rewrite T9. intros [Hm|Hm]%elem_of_app; [by apply Hcis, L2|].
      apply (Forall_elem _ _ _ Hmid) in Hm. by rewrite Hm.
    + intros p c Hpc. destruct (decide (c = rid)) as [->|Hn]; [split; [by apply (present_grows d d2)|done]|].
      cbn in Hpc. rewrite Hother in Hpc by done. destruct (L3 p c Hpc) as [Hpd Hci'].
      split; [by apply (present_grows d d2)|].
      intros dk'. rewrite (read_grows d d2 Hok Hg c Hpd). intros. apply Hcis. by eapply Hci'.
    + by apply T8.
  - unfold mlinks_of. cbn. rewrite T9, filter_app, (filter_none _ _ Hold), (filter_all _ _ Hmid). exact T10.
  - intros o Ho. unfold mlinks_of. cbn. rewrite T9, filter_app, (filter_none _ rows).
    { by rewrite app_nil_r. }
    eapply Forall_impl; [exact Hmid|]. intros m Hm Ho'. congruence.
  - split.
    + intros p Hs. cbn in Hs. apply P2 in Hs as [Hs|[_ (u & Hu & Hr)]].
      { rewrite Hnew in Hs. by destruct Hs. }
      exists u. by rewrite Hrid.
    + intros u p Hu Hr. cbn. apply P2. right. split; [done|]. by exists u.
    + intros p v Hv. cbn in Hv. pose proof (P3 p v Hv (Hnew p)) as H3.
      assert (head (d_P dk) ≫= rid_of d2 = head (d_P dk) ≫= rid_of d) as ->.
      { destruct (d_P dk) as [|u P]; [done|]. apply Hrid. }
      rewrite H3. naive_solver.
  - intros o Hn Htr'. destruct Htr' as [H|H].
    + left. specialize (He o). cbn in H, He. destruct H as [e H]. rewrite H in He.
      rewrite T2, insert_new_lookup, decide_False in He by done.
      destruct (k_event (d_links d) !! o); [by eexists|done].
    + right. cbn in H. by rewrite T3, T4 in H.
Qed.

Lemma checkin_established rid d d1 d' dk :
  repo_ok (d_repo d) → links_ok d → present d rid → ¬ traces d rid →
  complete d rid dk → tables (d_F dk) rid dk d d1 → tag_effect d1 d' → established [rid] d d'.
Proof.
  intros Hok Hl Hp Htr Hc Ht He.
  assert (∀ dk', complete d rid dk' → dk' = dk) as Hdk by (intros dk' (H & _); destruct Hc as [H' _]; congruence).
  destruct (checkin_linked (d_F dk) rid d d1 d' dk dk) as [E1 E2 E3 E4 E5 E6 E7 E8 E9]; try done; try apply Hc.
  split; [done|done| |done| | | | |].
  - intros o x. rewrite E3, list_elem_of_singleton. split.
    + intros [?|[-> ->]]; [by left|]. right. split; [done|]. by exists dk.
    + intros [?|(-> & dk' & ->%Hdk & ->)]; [by left|by right].
  - intros o dk' ->%list_elem_of_singleton ->%Hdk. by rewrite <- (complete_files d rid dk).
  - intros o Ho. apply E6. intros ->. apply Ho. by left.
  - intros o dk' ->%list_elem_of_singleton ->%Hdk. exact E7.
  - intros p c Hc'. apply E8. intros ->. apply Hc'. by left.
  - intros o Ho. apply E9. intros ->. apply Ho. by left.
Qed.

Lemma step_established rid d d' :
  repo_ok (d_repo d) → links_ok d → present d rid → ¬ traces d rid → step rid d d' → established [rid] d d'.
Proof.
  intros Hok Hl Hp Htr [->  Hnc|dk Hr Ht Hq|dk d1 Hc Ht He].
  - destruct (established_nil d Hl) as [E1 E2 E3 E4 E5 E6 E7 E8 E9]. split; try done.
    + intros o x. split; [by left|].
      intros [?|(->%list_elem_of_singleton & dk & Hc & _)]; [done|by apply Hnc in Hc].
    + intros o dk ->%list_elem_of_singleton Hc. by apply Hnc in Hc.
    + intros o dk ->%list_elem_of_singleton Hc. by apply Hnc in Hc.
  - by eapply quiet_established.
  - by eapply checkin_established.
Qed.

Lemma file_row_grows d d' rid f m :
  repo_ok (d_repo d) → repo_grows (d_repo d) (d_repo d') → k_filename (d_links d) ⊆ k_filename (d_links d') →
  file_row d rid f m → file_row d' rid f m.
Proof.
  intros Hok Hg Hn (H1 & H2 & H3). split_and!; [done|by apply (rid_of_grows d)|by eapply lookup_weaken].
Qed.

Lemma parents_linked_before d d1 d' o dk :
  repo_ok (d_repo d) → repo_grows (d_repo d) (d_repo d1) →
  parents_linked d1 d' o dk → parents_linked d d' o dk.
Proof.
  intros Hok Hg [H1 H2 H3]. split; [done| |].
  - intros u p Hu Hr. eapply H2; [done|]. by apply (rid_of_grows d).
  - intros p v Hv. destruct (H3 p v Hv) as [H4 H5]. split; [done|]. intros Hh. apply H5.
    destruct (d_P dk); [done|]. by apply (rid_of_grows d).
Qed.

Lemma parents_linked_after d d1 d' o dk :
  repo_ok (d_repo d1) → repo_grows (d_repo d1) (d_repo d') →
  (∀ p, k_plink (d_links d') !! (p, o) = k_plink (d_links d1) !! (p, o)) →
  parents_linked d d1 o dk → parents_linked d d' o dk.
Proof.
  intros Hok Hg He [H1 H2 H3]. split.
  - intros p. rewrite He. intros (u & Hu & Hr)%H1. exists u. split; [done|]. by apply (rid_of_grows d1).
  - intros u p. rewrite He. apply H2.
  - intros p v. rewrite He. intros Hv. destruct (H3 p v Hv) as [H4 H5]. split; [|done]. intros Hh%H4.
    destruct (d_P dk); [done|]. by apply (rid_of_grows d1).
Qed.

Lemma established_cons rid l d d1 d' :
  repo_ok (d_repo d) → rid ∉ l → Forall (present d) l →
  established [rid] d d1 → established l d1 d' → established (rid :: l) d d'.
Proof.
  intros Hok Hn Hp [A1 A2 A3 A4 A5 A6 A7 A8 A9] [B1 B2 B3 B4 B5 B6 B7 B8 B9].
  assert (repo_ok (d_repo d1)) as Hok1 by by apply A1.
  assert (∀ o dk, o ∈ l → complete d o dk → complete d1 o dk) as Hc1.
  { intros o dk Ho. apply (complete_grows d d1 Hok A1), (Forall_elem _ _ _ Hp Ho). }
  split; [by etrans|done| |by etrans| | | | |].
  - intros o x. rewrite B3, A3, list_elem_of_singleton, elem_of_cons. split.
    + intros [[?|[-> H]]|[Ho (dk & Hc & ->)]]; [by left|right; auto|]. right. split; [by right|].
      exists dk. split; [|done]. revert Hc. apply (complete_grows d d1 Hok A1), (Forall_elem _ _ _ Hp Ho).
    + intros [?|[[->|Ho] H]]; [by left; left|left; right; auto|]. right. split; [done|].
      destruct H as (dk & Hc & ->). exists dk. auto.
  - intros o dk [->|Ho]%elem_of_cons Hc; [|apply B5; [done|by apply Hc1]].
    rewrite (B6 rid Hn). eapply Forall2_impl; [apply A5; [by left|done]|].
    intros f m. by apply file_row_grows.
  - intros o [Ho1 Ho2]%not_elem_of_cons. rewrite (B6 o Ho2). apply A6. by rewrite list_elem_of_singleton.
  - intros o dk [->|Ho]%elem_of_cons Hc.
    + eapply parents_linked_after; [exact Hok1|done| |apply A7; [by left|done]]. intros p. by apply B8.
    + eapply parents_linked_before; [exact Hok|exact A1|]. apply B7; [done|by apply Hc1].
  - intros p c [Hc1' Hc2]%not_elem_of_cons. rewrite (B8 p c Hc2). apply A8. by rewrite list_elem_of_singleton.
  - intros o [Ho1 Ho2]%not_elem_of_cons H. apply A9; [by rewrite list_elem_of_singleton|]. by apply B9.
Qed.

Lemma steps_established l d d' :
  NoDup l → repo_ok (d_repo d) → links_ok d → Forall (λ r, present d r ∧ ¬ traces d r) l →
  steps l d d' → established l d d'.
Proof.
  intros Hnd Hok Hl Hall Hs. induction Hs as [d|rid l d d1 d2 Hs Hss IH]; [by apply established_nil|].
  apply NoDup_cons in Hnd as [Hn Hnd]. apply Forall_cons in Hall as [[Hp Htr] Hall].
  pose proof (step_established rid d d1 Hok Hl Hp Htr Hs) as H1.
  apply (established_cons rid l d d1); [done|done| |done|].
  - eapply Forall_impl; [exact Hall|]. by intros r [? _].
  - apply IH; [done|by apply H1|by apply H1|]. apply Forall_forall. intros r Hr.
    destruct (Forall_elem _ _ _ Hall Hr) as [H2 H3]. split.
    + by apply (present_grows d d1); [apply H1|].
    + intros Ht. apply H3, (es_traces _ _ _ H1); [|done]. rewrite list_elem_of_singleton. by intros ->.
Qed.

(** ** The candidates *)

Lemma candidates_elem d rid :
  rid ∈ candidates d ↔ ∃ row, t_blob (d_repo d) !! rid = Some row ∧ uncrosslinked d (rid, row).
Proof.
  unfold candidates. rewrite list_elem_of_fmap. setoid_rewrite sort_slice_perm.
  setoid_rewrite list_elem_of_filter. split.
  - intros ([r row] & -> & Hu & Hin%elem_of_map_to_list). by exists row.
  - intros (row & Hr & Hu). exists (rid, row). split; [done|]. split; [done|]. by apply elem_of_map_to_list.
Qed.

Lemma candidates_nodup d : NoDup (candidates d).
Proof.
  unfold candidates. rewrite sort_slice_perm. pose proof (NoDup_fst_map_to_list (t_blob (d_repo d))) as H.
  revert H. generalize (map_to_list (t_blob (d_repo d))) as l. intros l H.
  eapply sublist_NoDup; [exact H|]. apply fmap_sublist, sublist_filter.
Qed.

Lemma candidates_fresh d : Forall (λ r, present d r ∧ ¬ traces d r) (candidates d).
Proof.
  apply Forall_forall. intros rid (row & Hr & H1 & H2 & _ & H3 & H4)%candidates_elem. cbn in *.
  split; [by exists row|]. unfold traces. rewrite H2, H3, H4. intros [[? [=]]|[[? [=]]|[? [=]]]].
Qed.

(** The artifacts that were crosslinked: all candidates, or those before the one
    that failed. *)
Lemma Crosslink_established d : repo_ok (d_repo d) → links_ok d →
  match Crosslink d with
  | Ret (d', _) => established (candidates d) d d'
  | Fail (d', _, _) => ∃ l1 l2, candidates d = l1 ++ l2 ∧ established l1 d d'
  | _ => True
  end.
Proof.
  intros Hok Hl. unfold Crosslink. pose proof (sweep_steps (candidates d) d 0) as H.
  pose proof (candidates_nodup d) as Hnd. pose proof (candidates_fresh d) as Hf.
  destruct (sweep (candidates d) d 0) as [[d' n]|[[d' n] e]| |]; try done.
  - by apply steps_established.
  - destruct H as (l1 & l2 & Heq & H). exists l1, l2. split; [done|]. rewrite Heq in Hnd, Hf.
    apply NoDup_app in Hnd as (? & _ & _). apply Forall_app in Hf as [? _]. by apply steps_established.
Qed.

(** ** Leaves *)

(** The leaves are the check-ins without a check-in as a child. *)
Definition leaf_ok (d : db) : Prop :=
  ∀ r, r ∈ d_leaf d ↔ ci d r ∧ ∀ c, ci d c → k_plink (d_links d) !! (r, c) = None.

(** No check-in that is still to be linked has a child that is linked, or that is
    linked before it. *)
Record parents_first (l : list Z) (d : db) : Prop := {
  pf_old : ∀ r dk c, r ∈ l → complete d r dk → ci d c → k_plink (d_links d) !! (r, c) = None;
  pf_new : ∀ r dk c dkc u, r ∈ l → complete d r dk → c ∈ l → complete d c dkc →
    u ∈ d_P dkc → rid_of d u = Some r → (r ≤ c)%Z
}.

Lemma rid_of_back d d' u r :
  repo_ok (d_repo d) → repo_grows (d_repo d) (d_repo d') → present d r →
  rid_of d' u = Some r → rid_of d u = Some r.
Proof.
  intros Hok Hg (row & Hr & _) Hu. apply rid_of_uuid_Some in Hu as (row' & Hr' & <-).
  assert (row' = row) as ->.
  { destruct (rg_extends _ _ Hg) as (Hb & _). rewrite (lookup_weaken _ _ _ _ Hr Hb) in Hr'. congruence. }
  unfold rid_of. destruct (rid_of_uuid (d_repo d) (b_uuid row)) as [r2|] eqn:E.
  - apply rid_of_uuid_Some in E as (row2 & H2 & Hu2). f_equal. by eapply (ok_uuid _ Hok).
  - by destruct (rid_of_uuid_None _ _ E r row Hr).
Qed.

Lemma quiet_leaf rid d d' : links_ok d → ¬ ci d rid → quiet rid d d' → leaf_ok d → leaf_ok d'.
Proof.
  intros Hl Hci Hq Hok r. rewrite (qt_leaf _ _ _ Hq), (Hok r).
  destruct (qt_rows _ _ _ Hq (lk_others _ Hl) Hci) as [_ Hrows].
  assert (∀ o, ci d' o ↔ ci d o) as Hc.
  { intros o. split; intros (x & Hx); exists x; by apply Hrows. }
  rewrite Hc. apply and_iff_compat_l. apply forall_proper. intros c. rewrite Hc. split; intros H Hcc.
  - rewrite (qt_plink_new _ _ _ Hq); [by apply H|by intros ->].
  - rewrite <- (qt_plink_new _ _ _ Hq); [by apply H|by intros ->].
Qed.

Lemma checkin_leaf F rid d d1 d' dk read :
  links_ok d → present d rid → ¬ traces d rid → complete d rid read →
  (∀ c, ci d c → k_plink (d_links d) !! (rid, c) = None) →
  tables F rid dk d d1 → tag_effect d1 d' → leaf_ok d → leaf_ok d'.
Proof.
  intros Hl Hp Htr Hc Hchild Ht [(X & Y & T & ->) He] Hok r.
  pose proof (tables_rows _ _ _ _ _ Htr Ht) as Hrow.
  assert (∀ o, ci (on_tag (λ _, T) (on_event (λ _, Y) (on_tagxref (λ _, X) d1))) o ↔ ci d o ∨ o = rid) as Hci.
  { intros o. split.
    - intros (x & Hx). unfold checkin_row in Hx. rewrite He in Hx. apply Hrow in Hx as [Hx|[-> _]].
      + left. by exists x.
      + by right.
    - intros Ho. assert (∃ x, checkin_row d1 o x) as (x & Hx).
      { destruct Ho as [(x & Hx)| ->]; eexists; apply Hrow; [by left|by right]. }
      exists x. unfold checkin_row. by rewrite He. }
  assert (∀ p, k_plink (d_links d) !! (p, rid) = None) as Hnew.
  { intros p. destruct (k_plink (d_links d) !! (p, rid)) eqn:E; [|done].
    destruct Htr. apply ci_trace. destruct (lk_plink _ Hl p rid) as [_ H]; [by eexists|]. by apply (H read); apply Hc. }
  destruct (tb_plink _ _ _ _ _ Ht) as [P1 P2 _].
  assert (∀ p c, k_plink (d_links d1) !! (p, c) = None ↔
    k_plink (d_links d) !! (p, c) = None ∧ ¬ (c = rid ∧ ∃ u, u ∈ d_P dk ∧ rid_of d u = Some p)) as Hpl.
  { intros p c. rewrite !eq_None_not_Some, P2. tauto. }
  cbn. rewrite (tb_leaf _ _ _ _ _ Ht), Hci, (Hok r). setoid_rewrite Hci. setoid_rewrite Hpl. split.
  - intros [[->|[H1 H2]] Hu].
    + split; [by right|]. intros c [Hcc| ->]; (split; [|naive_solver]); auto.
    + split; [by left|]. intros c [Hcc| ->]; (split; [|naive_solver]); auto.
  - intros [H1 H2]. split; [|naive_solver]. destruct H1 as [H1|H1]; [|by left]. right. split; [done|].
    intros c Hcc. by apply H2; left.
Qed.

Lemma steps_leaf l d d' :
  StronglySorted Z.lt l → repo_ok (d_repo d) → links_ok d → Forall (λ r, present d r ∧ ¬ traces d r) l →
  parents_first l d → leaf_ok d → steps l d d' → leaf_ok d'.
Proof.
  intros Hsort Hok Hl Hall Hpf Hleaf Hs. induction Hs as [d|rid l d d1 d2 Hs Hss IH]; [done|].
  apply StronglySorted_inv in Hsort as [Hsort Hlt]. apply Forall_cons in Hall as [[Hp Htr] Hall].
  pose proof (step_established rid d d1 Hok Hl Hp Htr Hs) as E.
  pose proof (es_repo _ _ _ E) as Hg.
  assert (∀ r, r ∈ l → rid < r)%Z as Hlt' by (intros r; apply (Forall_elem _ _ _ Hlt)).
  assert (∀ r, r ∈ l → present d r) as Hpl by (intros r Hr; by apply (Forall_elem _ _ _ Hall)).
  apply IH; [done|by apply Hg|by apply E| | |].
  - apply Forall_forall. intros r Hr. split; [by apply (present_grows d d1), Hpl|].
    intros Ht. apply (Forall_elem _ _ _ Hall Hr), (es_traces _ _ _ E); [|done].
    rewrite list_elem_of_singleton. intros ->. specialize (Hlt' _ Hr). lia.
  - destruct Hpf as [F1 F2]. split.
    + intros r dk c Hr Hc (x & Hx). apply (complete_grows d d1 Hok Hg r dk (Hpl r Hr)) in Hc.
      apply (es_rows _ _ _ E) in Hx as [Hx|(->%list_elem_of_singleton & dkc & Hcc & _)].
      * rewrite (es_parents_old _ _ _ E).
        { eapply F1; [by right|exact Hc|by exists x]. }
        rewrite list_elem_of_singleton. intros ->. apply Htr, ci_trace. by exists x.
      * apply eq_None_not_Some. intros Hpr.
        destruct (es_parents _ _ _ E rid dkc) as [H1 _ _]; [by left|done|].
        apply H1 in Hpr as (u & Hu & Hur). apply (rid_of_back d d1 u r Hok Hg (Hpl r Hr)) in Hur.
        pose proof (F2 r dk rid dkc u ltac:(by right) Hc ltac:(by left) Hcc Hu Hur).
        specialize (Hlt' _ Hr). lia.
    + intros r dk c dkc u Hr Hc Hcl Hcc Hu Hur.
      apply (complete_grows d d1 Hok Hg r dk (Hpl r Hr)) in Hc.
      apply (complete_grows d d1 Hok Hg c dkc (Hpl c Hcl)) in Hcc.
      apply (rid_of_back d d1 u r Hok Hg (Hpl r Hr)) in Hur.
      eapply F2; [by right|exact Hc|by right|exact Hcc|done|done].
  - destruct Hs as [->  _|dk Hr Ht Hq|dk d0 Hc Ht He]; [done| |].
    + eapply quiet_leaf; [exact Hl| |exact Hq|done]. by intros H%ci_trace.
    + eapply checkin_leaf; [done..| |done|done|done]. intros c Hcc.
      eapply (pf_old _ _ Hpf); [by left|done|done].
Qed.

Lemma candidates_sorted d : StronglySorted Z.lt (candidates d).
Proof.
  unfold candidates. match goal with |- context [sort_slice ?f ?l] => assert (StronglySorted by_rid (sort_slice f l)) as H end.
  { apply sort_by_rid. pose proof (NoDup_fst_map_to_list (t_blob (d_repo d))) as H.
    eapply sublist_NoDup; [exact H|]. apply fmap_sublist, sublist_filter. }
  induction H as [|x l Hl IH Hx]; [constructor|]. cbn [map]. constructor; [done|].
  apply Forall_map. exact Hx.
Qed.

(** ** Panics *)

(** What the handlers rely on and the parser does not check: tags, files and
    technotes have names. *)
Record clean (dk : Deck) : Prop := {
  cl_tags : ∀ tc, tc ∈ d_T dk → tc_Name tc ≠ [];
  cl_files : ∀ f, f ∈ d_F dk → fc_UUID f ≠ [] → fc_Name f ≠ [];
  cl_event : ∀ e, d_Type dk = Event → d_E dk = Some e → ec_UUID e ≠ [];
  cl_members : ∀ u, u ∈ d_M dk → u ≠ []
}.

Section clean.
Variables (rid : Z) (dk : Deck).
Hypothesis (Hrid : (0 < rid)%Z) (Hc : clean dk).

Lemma rid_positive : (rid <=? 0)%Z = false.
Proof. lia. Qed.

Lemma addFWTPlink_safe d : safe (addFWTPlink d rid dk).
Proof. unfold addFWTPlink. rewrite rid_positive. cbv zeta. destruct (_ <? _)%Z; [apply PropagateAll_safe|done]. Qed.

Lemma updateAttachmentComments_safe d target t : target ≠ [] → safe (updateAttachmentComments d target t).
Proof. intros H. unfold updateAttachmentComments. by rewrite bool_decide_false. Qed.

Lemma app_nonempty {A} (l k : list A) : l ≠ [] → l ++ k ≠ [].
Proof. by destruct l. Qed.

Lemma crosslinkWiki_safe d : safe (crosslinkWiki d rid dk).
Proof.
  unfold crosslinkWiki. rewrite rid_positive. apply safe_bind; [apply addFWTPlink_safe|]. intros d1 _. cbv zeta.
  case_bool_decide; [done|]. apply safe_bind; [|done]. by apply ApplyTag_safe; [apply app_nonempty|].
Qed.

Lemma crosslinkTicket_safe d : safe (crosslinkTicket d rid dk).
Proof.
  unfold crosslinkTicket. rewrite rid_positive. cbv zeta. case_bool_decide; [done|].
  apply safe_bind; [by apply ApplyTag_safe; [apply app_nonempty|]|]. intros d1 _.
  by apply updateAttachmentComments_safe.
Qed.

Lemma crosslinkEvent_safe d : d_Type dk = Event → safe (crosslinkEvent d rid dk).
Proof.
  intros Ht. unfold crosslinkEvent. rewrite rid_positive. destruct (d_E dk) as [e|] eqn:He; [|done].
  apply safe_bind; [apply addFWTPlink_safe|]. intros d1 _. cbv zeta.
  apply safe_bind; [by apply ApplyTag_safe; [apply app_nonempty|]|]. intros d2 _.
  destruct (k_tag _ !! _); [|done]. apply updateAttachmentComments_safe. by apply (cl_event _ Hc).
Qed.

Lemma crosslinkAttachment_safe d : safe (crosslinkAttachment d rid dk).
Proof.
  unfold crosslinkAttachment. rewrite rid_positive. destruct (d_A dk); [|done]. cbv zeta. by destruct (_ !! rid).
Qed.

Lemma crosslinkForum_safe d : safe (crosslinkForum d rid dk).
Proof.
  unfold crosslinkForum. rewrite rid_positive. apply safe_bind; [apply addFWTPlink_safe|]. intros d1 _.
  by destruct (resolveForumRefs d1 rid dk) as [[? ?] ?].
Qed.

Lemma apply_control_safe m d : repo_ok (d_repo d) → safe (apply_control rid m (d_T dk) d).
Proof.
  pose proof (cl_tags _ Hc) as Ht. revert d Ht. induction (d_T dk) as [|tc T IH]; intros d Ht Hok; [done|].
  cbn [apply_control].
  match goal with |- safe (mbind _ ?m) => assert (safe m) as Hs; [|assert (keeps (quiet rid) d m) as Hq] end.
  - case_bool_decide; [done|]. destruct (rid_of d (tc_UUID tc)) as [target|] eqn:Hr; [|done].
    destruct (tag_type _); [|done]. apply ApplyTag_safe; [apply Ht; by left|].
    apply rid_of_uuid_Some in Hr as (row & Hr & _). by apply (ok_row _ Hok) in Hr as [? _].
  - case_bool_decide; [cbn; reflexivity|]. destruct (rid_of d _); [|cbn; reflexivity].
    destruct (tag_type _); [apply ApplyTag_quiet|cbn; reflexivity].
  - apply safe_bind; [done|]. intros d1 H1. rewrite H1 in Hq. apply IH; [intros; apply Ht; by right|].
    by apply (rg_ok _ _ (qt_repo _ _ _ Hq)).
Qed.

Lemma crosslinkControl_safe d : repo_ok (d_repo d) → safe (crosslinkControl d rid dk).
Proof.
  intros Hok. unfold crosslinkControl. rewrite rid_positive. cbv zeta.
  apply safe_bind; [by apply apply_control_safe|done].
Qed.

Lemma crosslink_cluster_safe d : safe (crosslink_cluster d rid dk).
Proof.
  unfold crosslink_cluster. rewrite rid_positive.
  generalize (on_tagxref <[(7%Z, rid) := cluster_tag rid]> d) as d1. intros d1.
  pose proof (cl_members _ Hc) as HM. revert d1 HM. induction (d_M dk) as [|u M IH]; intros d1 HM; [done|].
  cbn [link_members]. apply safe_bind; [|intros; apply IH; intros; apply HM; by right].
  apply safe_wrap, safe_wrap. assert (u ≠ []) as Hu by (apply HM; by left).
  unfold crosslink_member, StorePhantom, Blob.Exists. rewrite bool_decide_false by done.
  cbn [mbind outcome_bind]. destruct (rid_of_uuid _ u); [done|].
  cbn [mbind outcome_bind]. apply safe_bind; [|by intros []]. apply safe_bind; [|by intros []].
  unfold insert_blob. destruct (_ <? _); [done|]. by destruct (rid_of_uuid _ _).
Qed.

Lemma crosslinkCheckin_safe d : safe (crosslinkCheckin d rid dk).
Proof.
  unfold crosslinkCheckin. rewrite rid_positive. apply safe_bind.
  - apply safe_wrap. unfold crosslinkCheckinTables, insertCheckinMlinks. cbv zeta.
    match goal with |- context [insert_mlinks rid (d_F dk) ?d1] => generalize d1 end. intros d1.
    apply safe_bind; [|done]. pose proof (cl_files _ Hc) as Hf. revert d1 Hf.
    induction (d_F dk) as [|f F IH]; intros d1 Hf; cbn [insert_mlinks]; [done|].
    case_bool_decide as Hu; [apply IH; intros; apply Hf; [by right|done]|].
    unfold ensureFilename. rewrite bool_decide_false by (by apply Hf; [left|]).
    destruct (_ !! fc_Name f); cbn [mbind outcome_bind]; apply IH; intros; apply Hf; by try right.
  - intros d1 _. unfold applyInlineTags. apply safe_bind.
    + pose proof (cl_tags _ Hc) as Ht. generalize (TimeToJulian (d_D dk)) as m. intros m. revert d1 Ht.
      induction (d_T dk) as [|tc T IH]; intros d1 Ht; cbn [apply_inline]; [done|].
      apply safe_bind; [|intros; apply IH; intros; apply Ht; by right].
      destruct (negb _); [done|]. destruct (tag_type _); [|done]. apply ApplyTag_safe; [apply Ht; by left|done].
    + intros d2 _. destruct (d_P dk); [done|]. destruct (rid_of _ _); [apply PropagateAll_safe|done].
Qed.

Lemma crosslink_artifact_safe d : repo_ok (d_repo d) → safe (crosslink_artifact d rid dk).
Proof.
  intros Hok. unfold crosslink_artifact. destruct (d_Type dk) eqn:Ht.
  - apply crosslinkCheckin_safe.
  - apply crosslinkWiki_safe.
  - apply crosslinkTicket_safe.
  - by apply crosslinkEvent_safe.
  - apply crosslink_cluster_safe.
  - apply crosslinkForum_safe.
  - apply crosslinkAttachment_safe.
  - by apply crosslinkControl_safe.
Qed.
End clean.

Lemma step_grows rid d d' : step rid d d' → repo_grows (d_repo d) (d_repo d').
Proof.
  intros [-> _|dk _ _ Hq|dk d1 _ Ht [(X & Y & T & ->) _]]; [reflexivity|by apply Hq|].
  cbn. rewrite (tb_repo _ _ _ _ _ Ht). by apply repo_grows_same.
Qed.

Lemma sweep_safe l d n :
  repo_ok (d_repo d) → Forall (present d) l →
  (∀ rid, rid ∈ l → safe (read_manifest d rid) ∧ ∀ dk, read_manifest d rid = Ret dk → clean dk) →
  safe (sweep l d n).
Proof.
  revert d n. induction l as [|rid l IH]; intros d n Hok Hp Hall; [done|]. cbn [sweep].
  apply Forall_cons in Hp as [Hp Hpl]. destruct (Hall rid) as [Hs Hcl]; [by left|].
  assert (∀ n, safe (sweep l d n)) as Hd by (intros n'; apply IH; [done|done|]; intros; apply Hall; by right).
  destruct (read_manifest d rid) as [dk|e| |] eqn:Hr; [|apply Hd|done..].
  destruct (deferred d dk) eqn:Hdef; [apply Hd|]. apply safe_bind.
  - apply safe_wrap, crosslink_artifact_safe; [|by apply Hcl|done].
    destruct Hp as (row & Hrow & _). by apply (ok_row _ Hok) in Hrow as [? _].
  - intros d1 H1. apply wrap_err_ret in H1. pose proof (artifact_step d rid dk Hr Hdef) as Hst. rewrite H1 in Hst.
    pose proof (step_grows _ _ _ Hst) as Hg. apply IH; [by apply Hg| |].
    + eapply Forall_impl; [exact Hpl|]. intros r. by apply present_grows.
    + intros r Hr'. rewrite (read_grows d d1 Hok Hg r (Forall_elem _ _ _ Hpl Hr')). apply Hall. by right.
Qed.
End handlers.
End facts.

(** It is enough that the artifacts of the repository are. *)
Lemma Crosslink_clean_safe {codec : Zlib} {sha3 : Sha3} {sqlite : Sqlite} {order : Unordered}
    {olaws : UnorderedLaws} {unicode : Unicode} d :
  repo_ok (d_repo d) →
  (∀ rid, present d rid → safe (read_manifest d rid) ∧ ∀ dk, read_manifest d rid = Ret dk → clean dk) →
  safe (Crosslink d).
Proof.
  intros Hok H. pose proof (candidates_fresh d) as Hf. apply sweep_safe; [done| |].
  - eapply Forall_impl; [exact Hf|]. by intros r [? _].
  - intros rid Hr. by apply H, (Forall_elem _ _ _ Hf).
Qed.

(** ** Properties *)

(** C27. The state after crosslinking satisfies the invariant of the link
    tables, and its check-ins are exactly those that were there and the
    candidates whose manifest refers to nothing that is missing, each with the
    event its manifest describes, one row of [mlink] for every file of the
    manifest, in order, and one row of [plink] for every parent that is known,
    the first of them primary. *)
Theorem Crosslink_checkins {codec : Zlib} {sha3 : Sha3} {sqlite : Sqlite} {order : Unordered}
    {olaws : UnorderedLaws} {unicode : Unicode} d d' n :
  repo_ok (d_repo d) → links_ok d → Crosslink d = Ret (d', n) →
  links_ok d' ∧ repo_ok (d_repo d') ∧
  (∀ o x, checkin_row d' o x ↔ checkin_row d o x ∨
     (o ∈ candidates d ∧ ∃ dk, complete d o dk ∧ x = uncoloured (checkin_event dk))) ∧
  ∀ o dk, o ∈ candidates d → complete d o dk →
    Forall2 (file_row d' o) (filter (λ f, fc_UUID f ≠ []) (d_F dk)) (mlinks_of d' o) ∧
    parents_linked d d' o dk.
Proof.
  intros Hok Hl Hc. pose proof (Crosslink_established d Hok Hl) as H. rewrite Hc in H.
  split_and!; [apply H|by apply H|apply H|]. intros o dk Ho Hcm. split; [by apply H|by apply H].
Qed.

(** C28. A check-in is not linked before it can be checked out, even if the
    sweep fails midway: for every check-in that is new in the tables, its
    manifest is there, and so are its baseline and all its files. *)
Theorem Crosslink_defers {codec : Zlib} {sha3 : Sha3} {sqlite : Sqlite} {order : Unordered}
    {olaws : UnorderedLaws} {unicode : Unicode} d d' :
  repo_ok (d_repo d) → links_ok d →
  (∃ n, Crosslink d = Ret (d', n)) ∨ (∃ n e, Crosslink d = Fail (d', n, e)) →
  ∀ o, ci d' o → ¬ ci d o → ∃ dk, read_manifest d' o = Ret dk ∧ d_Type dk = Checkin ∧
    ∀ u, u ∈ d_B dk :: map fc_UUID (d_F dk) → u ≠ [] → blobPresent d' u = true.
Proof.
  intros Hok Hl Hc o (x & Hx) Hn. pose proof (Crosslink_established d Hok Hl) as H.
  assert (∃ l, established l d d' ∧ ∀ r, r ∈ l → present d r) as (l & E & Hp).
  { pose proof (candidates_fresh d) as Hf. destruct Hc as [[n Hc]|(n & e & Hc)]; rewrite Hc in H.
    - exists (candidates d). split; [done|]. intros r Hr. by apply (Forall_elem _ _ _ Hf).
    - destruct H as (l1 & l2 & Heq & H). exists l1. split; [done|]. intros r Hr.
      rewrite Heq in Hf. apply Forall_app in Hf as [Hf _]. by apply (Forall_elem _ _ _ Hf). }
  pose proof (es_repo _ _ _ E) as Hg. apply (es_rows _ _ _ E) in Hx as [Hx|(Ho & dk & Hcm & _)].
  { destruct Hn. by exists x. }
  apply (complete_grows d d' Hok Hg o dk (Hp o Ho)) in Hcm as (H1 & H2 & H3). exists dk.
  split_and!; [done|done|]. intros u Hu Hne. apply (proj1 (missing_spec d' _ ∅) H3); [done|done|set_solver].
Qed.

(** The leaves stay right: if [leaf] has exactly the check-ins without children
    and no check-in is linked after a child of it, then this also holds when the
    sweep is done. *)
Theorem Crosslink_leaves {codec : Zlib} {sha3 : Sha3} {sqlite : Sqlite} {order : Unordered}
    {olaws : UnorderedLaws} {unicode : Unicode} d d' n :
  repo_ok (d_repo d) → links_ok d → leaf_ok d → parents_first (candidates d) d →
  Crosslink d = Ret (d', n) → leaf_ok d'.
Proof.
  intros Hok Hl Hleaf Hpf Hc. unfold Crosslink in Hc. pose proof (sweep_steps (candidates d) d 0) as H.
  rewrite Hc in H. apply (steps_leaf (candidates d) d d'); try done.
  - apply candidates_sorted.
  - apply candidates_fresh.
Qed.

(** [Crosslink] ends, with a result or an error, if the manifests of its
    candidates can be read and name their tags, files and technotes. *)
Theorem Crosslink_safe {codec : Zlib} {sha3 : Sha3} {sqlite : Sqlite} {order : Unordered}
    {olaws : UnorderedLaws} {unicode : Unicode} d :
  repo_ok (d_repo d) →
  (∀ rid, rid ∈ candidates d →
     safe (read_manifest d rid) ∧ ∀ dk, read_manifest d rid = Ret dk → clean dk) →
  safe (Crosslink d).
Proof.
  intros Hok H. apply sweep_safe; [done| |done]. eapply Forall_impl; [apply candidates_fresh|]. by intros r [? _].
Qed.

(** ** Witnesses *)

#[local] Existing Instance test_sqlite.
#[local] Existing Instance test_order.
#[local] Existing Instance test_order_laws.
#[local] Existing Instance test_unicode.
#[local] Existing Instance test_sha3.
#[local] Existing Instance stored.
#[local] Existing Instance stored_laws.

(** A file, and a check-in of it. *)
Definition first_checkin : Deck :=
  set_U (str "u") (set_F [MkFileCard (str "a") (sha1_hex text_a) [] []]
    (set_C (str "one") (set_D (Time 2024 1 1 0 0 0 0) deck_zero))).
Definition history : db :=
  on_repo (λ _, after (Store repo_a (Marshal first_checkin))) CreateRepoSchema.

Lemma history_ok : repo_ok (d_repo history).
Proof.
  unfold history. cbn [d_repo on_repo].
  destruct (Store repo_a (Marshal first_checkin)) as [[[q rid] uuid]|e| |] eqn:E; [|exact empty_ok..].
  exact (Store_ok _ _ _ _ _ repo_a_ok E).
Qed.

Lemma history_links : links_ok history ∧ leaf_ok history.
Proof.
  assert (∀ o, ¬ ci history o) as Hno by (intros o (x & [Hx _]); cbn in Hx; by rewrite lookup_empty in Hx).
  split; [split|].
  - intros o _. apply Hno.
  - intros m Hm. by apply not_elem_of_nil in Hm.
  - intros p c Hp. cbn in Hp. rewrite lookup_empty in Hp. by destruct Hp.
  - intros n1 n2 f Hf. cbn in Hf. by rewrite lookup_empty in Hf.
  - intros r. split; [by intros ?%elem_of_empty|]. intros [Hr _]. by apply Hno in Hr.
Qed.

(** The manifest is read, waits for nothing, and the sweep succeeds. *)
Definition returned {E A} (m : outcome E A) : bool := match m with Ret _ => true | _ => false end.
Lemma history_computes :
  candidates history = [1; 2]%Z ∧ returned (Crosslink history) = true ∧
  match read_manifest history 2 with
  | Ret dk => bool_decide (d_Type dk = Checkin) && is_nil (missingCheckinRefs history dk)
              && is_nil (d_P dk) && is_nil (d_T dk) && (length (d_F dk) =? 1)
  | _ => false
  end = true ∧ returned (read_manifest history 1) = false.
Proof. vm_compute. auto. Qed.

Lemma history_sweep : ∃ d' n, Crosslink history = Ret (d', n).
Proof.
  destruct history_computes as (_ & H & _). destruct (Crosslink history) as [[d' n]|e| |]; [|discriminate H..].
  exists d', n. exact eq_refl.
Qed.

Lemma is_nil_true {A} (l : list A) : is_nil l = true → l = [].
Proof. by destruct l. Qed.

Lemma history_complete : ∃ dk, complete history 2 dk ∧ d_P dk = [] ∧ d_T dk = [] ∧ length (d_F dk) = 1.
Proof.
  destruct history_computes as (_ & _ & H & _).
  destruct (read_manifest history 2) as [dk|e| |] eqn:Hr; [|discriminate H..].
  apply andb_true_iff in H as [H Hf%Nat.eqb_eq]. apply andb_true_iff in H as [H Ht].
  apply andb_true_iff in H as [H Hp]. apply andb_true_iff in H as [H1%bool_decide_eq_true H2].
  apply is_nil_true in H2, Hp, Ht. exists dk. exact (conj (conj Hr (conj H1 H2)) (conj Hp (conj Ht Hf))).
Qed.

Lemma history_candidate : 2%Z ∈ candidates history.
Proof. destruct history_computes as (-> & _). by right; left. Qed.

Lemma Crosslink_checkins_witness : ∃ d' n, Crosslink history = Ret (d', n) ∧ ci d' 2.
Proof.
  destruct history_sweep as (d' & n & Hc). exists d', n. split; [exact Hc|].
  destruct history_complete as (dk & Hcm & _).
  destruct (Crosslink_checkins history d' n history_ok (proj1 history_links) Hc) as (_ & _ & H & _).
  exists (uncoloured (checkin_event dk)). apply H. right. split; [exact history_candidate|].
  exists dk. exact (conj Hcm eq_refl).
Defined.

Lemma Crosslink_defers_witness : ∃ d' dk, ci d' 2 ∧ read_manifest d' 2 = Ret dk ∧
  ∀ u, u ∈ d_B dk :: map fc_UUID (d_F dk) → u ≠ [] → blobPresent d' u = true.
Proof.
  destruct history_sweep as (d' & n & Hc). destruct history_complete as (dk & Hcm & _).
  assert (ci d' 2) as Hci.
  { pose proof (Crosslink_established history history_ok (proj1 history_links)) as H. rewrite Hc in H.
    exists (uncoloured (checkin_event dk)). apply (es_rows _ _ _ H). right.
    split; [exact history_candidate|]. exists dk. exact (conj Hcm eq_refl). }
  destruct (Crosslink_defers history d' history_ok (proj1 history_links) (or_introl (ex_intro _ n Hc)) 2 Hci)
    as (dk' & H1 & _ & H2).
  { intros (x & [Hx _]). cbn in Hx. rewrite lookup_empty in Hx. discriminate Hx. }
  exists d', dk'. exact (conj Hci (conj H1 H2)).
Defined.

Lemma Crosslink_leaves_witness : ∃ d' n, Crosslink history = Ret (d', n) ∧ leaf_ok d'.
Proof.
  destruct history_sweep as (d' & n & Hc). exists d', n. split; [exact Hc|].
  apply (Crosslink_leaves history d' n history_ok (proj1 history_links) (proj2 history_links)); [|exact Hc].
  split.
  - intros r dk c _ _ (x & [Hx _]). cbn in Hx. rewrite lookup_empty in Hx. discriminate Hx.
  - intros r dk c dkc u Hr (Hrd & _) Hcc (Hrc & _) Hu Hur. rewrite (proj1 history_computes) in Hr, Hcc.
    destruct history_complete as (dk2 & (Hr2 & _) & HP & _).
    destruct history_computes as (_ & _ & _ & Hn1).
    apply elem_of_cons in Hcc as [->| ->%list_elem_of_singleton]; [rewrite Hrc in Hn1; discriminate Hn1|].
    rewrite Hrc in Hr2. injection Hr2 as <-. rewrite HP in Hu. destruct (not_elem_of_nil _ Hu).
Defined.

Lemma Crosslink_safe_witness : safe (Crosslink history).
Proof.
  apply (Crosslink_safe history history_ok). intros rid. rewrite (proj1 history_computes).
  intros [->| ->%list_elem_of_singleton]%elem_of_cons.
  - split; [vm_compute; exact I|]. intros dk Hr. destruct history_computes as (_ & _ & _ & Hn1).
    rewrite Hr in Hn1. discriminate Hn1.
  - split; [vm_compute; exact I|]. vm_compute. intros dk [= <-].
    split; cbn; [intros tc Htc; destruct (not_elem_of_nil _ Htc)| |discriminate|intros u Hu; destruct (not_elem_of_nil _ Hu)].
    intros f ->%list_elem_of_singleton _. discriminate.
Defined.

(** ** Findings *)

(** [leaf] gets a check-in that has a child already, when the child came first. *)
Definition uuid_of (n : Z) : bytes := replicate 39 "0"%byte ++ [byte_of (48 + n)].
Definition two_checkins : db :=
  on_repo (with_blob (λ _, <[1%Z := MkBlob (uuid_of 1) 0 (Some []) 1]> {[ 2%Z := MkBlob (uuid_of 2) 0 (Some []) 1 ]}))
    CreateRepoSchema.
Definition child_of_2 : Deck := set_P [uuid_of 2] deck_zero.
Definition then_parent (m : out db) : out (list Z * bool) :=
  d ← m; d ← crosslinkCheckinTables d 2 deck_zero;
  Ret (elements (d_leaf d), bool_decide (is_Some (k_plink (d_links d) !! (2%Z, 1%Z)))).
Example late_parent_stays_leaf :
  then_parent (crosslinkCheckinTables two_checkins 1 child_of_2) = Ret ([2; 1]%Z, true).
Proof. vm_compute. reflexivity. Qed.

(** A check-in whose parent is not there does not wait for it, and its edge to the
    parent is never recorded: with its event it is not a candidate any more. *)
Definition child_of_9 : Deck := set_P [uuid_of 9] deck_zero.
Example missing_parent_forgotten :
  missingCheckinRefs two_checkins child_of_9 = [] ∧
  match crosslinkCheckinTables two_checkins 1 child_of_9 with
  | Ret d => k_plink (d_links d) = ∅ ∧ ¬ uncrosslinked d (1%Z, MkBlob (uuid_of 1) 0 (Some []) 1)
  | _ => False
  end.
Proof.
  split; [reflexivity|]. split; [reflexivity|]. intros (_ & H & _). revert H. vm_compute. discriminate.
Qed.

(** A T card without a name parses, and crosslinking it panics: so does every later
    sweep, of server and client alike. *)
Example unnamed_tag_panics :
  match parseTCard deck_zero (str "+ *") with
  | Ret dk => crosslinkCheckin two_checkins 1 dk = Panic
  | _ => False
  end.
Proof. vm_compute. reflexivity. Qed.

(** A newer version of a thread's title is never found, as [firt] is NULL and not 0. *)
Example newer_title_overwritten :
  hasNewer (on_forumpost <[5%Z := MkForum 5 None (nullif0 0) (f64 9)]> CreateRepoSchema) 5 6 (f64 1) = false.
Proof. vm_compute. reflexivity. Qed.
