(* ===== verification/Verify.v ===== *)
(** * Verification and rebuild (src/internal/verify)

    [Verify] reads the whole repository and reports what is wrong with it: blobs
    that cannot be read or have the wrong hash, dangling deltas and phantoms,
    check-ins without event or parents, wrong leaves.  [Rebuild] empties the
    derived tables and fills them again from the artifacts.  The messages of issues
    are not modelled. *)
From S2P Require Import Prelude GoStrings Hash Zlib Deck Julian Quote Blob Content Db Receive Tag Crosslink Linked.
From stdpp Require Import list gmap sets.

Abbreviation out := (outcome db_error).

(** ** Reports (verify.go) *)

Inductive IssueKind :=
  | IssueHashMismatch | IssueBlobCorrupt | IssueDeltaDangling | IssuePhantomOrphan
  | IssueEventMissing | IssueEventMismatch | IssueMlinkMissing | IssuePlinkMissing
  | IssueTagxrefMissing | IssueFilenameMissing | IssueLeafIncorrect | IssueMissingReference.

Record Issue := MkIssue { is_Kind : IssueKind; is_RID : Z; is_UUID : bytes; is_Table : bytes }.

Record Report := MkReport {
  rp_Issues : list Issue;
  rp_BlobsChecked : Z;
  rp_BlobsOK : Z;
  rp_BlobsFailed : Z;
  rp_BlobsSkipped : Z;
  rp_MissingRefs : Z;
  rp_TablesRebuilt : list bytes
}.

Definition no_report : Report := MkReport [] 0 0 0 0 0 [].

Definition OK (r : Report) : bool := is_nil (rp_Issues r).

Definition addIssue (i : Issue) (r : Report) : Report :=
  MkReport (rp_Issues r ++ [i]) (rp_BlobsChecked r) (rp_BlobsOK r) (rp_BlobsFailed r) (rp_BlobsSkipped r)
    (rp_MissingRefs r) (rp_TablesRebuilt r).
(** Counting a blob that was checked. *)
Definition count_blob (ok : bool) (r : Report) : Report :=
  MkReport (rp_Issues r) (rp_BlobsChecked r + 1) (rp_BlobsOK r + if ok then 1 else 0)
    (rp_BlobsFailed r + if ok then 0 else 1) (rp_BlobsSkipped r) (rp_MissingRefs r) (rp_TablesRebuilt r).
Definition count_skipped (r : Report) : Report :=
  MkReport (rp_Issues r) (rp_BlobsChecked r) (rp_BlobsOK r) (rp_BlobsFailed r) (rp_BlobsSkipped r + 1)
    (rp_MissingRefs r) (rp_TablesRebuilt r).
Definition count_missing (r : Report) : Report :=
  MkReport (rp_Issues r) (rp_BlobsChecked r) (rp_BlobsOK r) (rp_BlobsFailed r) (rp_BlobsSkipped r)
    (rp_MissingRefs r + 1) (rp_TablesRebuilt r).
Definition set_rebuilt (t : list bytes) (r : Report) : Report :=
  MkReport (rp_Issues r) (rp_BlobsChecked r) (rp_BlobsOK r) (rp_BlobsFailed r) (rp_BlobsSkipped r)
    (rp_MissingRefs r) t.

(** A loop over rows that passes something on. *)
Fixpoint each_row {A S} (f : A → S → out S) (l : list A) (s : S) : out S :=
  match l with
  | [] => Ret s
  | x :: l => s ← f x s; each_row f l s
  end.

Section verify.
Context {codec : Zlib} {sha3 : Sha3} {sqlite : Sqlite} {order : Unordered}.

(** [SELECT rid, uuid FROM blob WHERE size >= 0] *)
Definition collectBlobEntries (d : db) : list (Z * bytes) :=
  map (λ p, (p.1, b_uuid p.2)) (any_order (filter (λ p, (0 ≤ b_size p.2)%Z) (map_to_list (t_blob (d_repo d))))).

(** ** Blobs (check_blobs.go) *)

(** What the uuid of a blob should be. *)
Definition computed_hash (uuid data : bytes) : bytes :=
  if length uuid =? 64 then sha3_hex data else sha1_hex data.

Definition check_blob (d : db) (e : Z * bytes) (report : Report) : out Report :=
  match Expand (d_repo d) e.1 with
  | Ret data =>
    if bool_decide (computed_hash e.2 data = e.2) then Ret (count_blob true report)
    else Ret (addIssue (MkIssue IssueHashMismatch e.1 e.2 (str "blob")) (count_blob false report))
  | Fail _ => Ret (addIssue (MkIssue IssueBlobCorrupt e.1 e.2 (str "blob")) (count_blob false report))
  | Panic => Panic
  | NoFuel => NoFuel
  end.

Definition checkBlobs (d : db) (report : Report) : out Report :=
  report ← each_row (check_blob d) (collectBlobEntries d) report;
  if negb (rp_BlobsChecked report =? rp_BlobsOK report + rp_BlobsFailed report)%Z then Panic else Ret report.

(** ** Structure (check_structure.go) *)

Definition has_blob (d : db) (rid : Z) : bool := bool_decide (is_Some (t_blob (d_repo d) !! rid)).

Definition checkDeltaChains (d : db) (report : Report) : Report :=
  foldl (λ r p, addIssue (MkIssue IssueDeltaDangling p.1 [] (str "delta")) r) report
    (any_order (filter (λ p, negb (has_blob d p.1) || negb (has_blob d p.2) = true) (map_to_list (t_delta (d_repo d))))).

Definition checkPhantoms (d : db) (report : Report) : Report :=
  foldl (λ r rid, addIssue (MkIssue IssuePhantomOrphan rid [] (str "phantom")) r) report
    (any_order (filter (λ rid, has_blob d rid = false) (elements (t_phantom (d_repo d))))).

(** ** Derived tables (check_derived.go) *)

(** Expanding and parsing, where errors are passed over. *)
Definition try_manifest (d : db) (rid : Z) : out (option Deck) :=
  match read_manifest d rid with
  | Ret dk => Ret (Some dk)
  | Fail _ => Ret None
  | Panic => Panic
  | NoFuel => NoFuel
  end.

Definition checkEvent (d : db) (rid : Z) (uuid : bytes) (report : Report) : Report :=
  match k_event (d_links d) !! rid with
  | Some _ => report
  | None => addIssue (MkIssue IssueEventMissing rid uuid (str "event")) report
  end.

Definition checkPlink (d : db) (cid : Z) (childUUID parentUUID : bytes) (report : Report) : out Report :=
  ex ← in_repo (Blob.Exists (d_repo d) parentUUID);
  match ex with
  | None => Ret report
  | Some pid =>
    match k_plink (d_links d) !! (pid, cid) with
    | Some _ => Ret report
    | None => Ret (addIssue (MkIssue IssuePlinkMissing cid childUUID (str "plink")) report)
    end
  end.

Definition checkOneCheckin (d : db) (e : Z * bytes) (report : Report) : out Report :=
  found ← try_manifest d e.1;
  match found with
  | None => Ret report
  | Some dk =>
    if negb (bool_decide (d_Type dk = Checkin)) then Ret report else
    each_row (checkPlink d e.1 e.2) (d_P dk) (checkEvent d e.1 e.2 report)
  end.

Definition checkCheckins (d : db) (report : Report) : out Report :=
  each_row (checkOneCheckin d) (collectBlobEntries d) report.

(** The check-ins that are no parents. *)
Definition childless (d : db) (rid : Z) : Prop :=
  Forall (λ p : Z * Z * plinkVal, p.1.1 ≠ rid) (map_to_list (k_plink (d_links d))).
#[global] Instance childless_dec d rid : Decision (childless d rid).
Proof. apply _. Defined.

Definition computeExpectedLeaves (d : db) : gset Z :=
  list_to_set (map fst (filter (λ p, ev_type p.2 = str "ci" ∧ childless d p.1) (map_to_list (k_event (d_links d))))).

Definition getActualLeaves (d : db) : gset Z := d_leaf d.

Definition leafSetsEqual (a b : gset Z) : bool :=
  (size a =? size b) && forallb (λ rid, bool_decide (rid ∈ b)) (elements a).

Definition checkLeaves (d : db) (report : Report) : Report :=
  if leafSetsEqual (computeExpectedLeaves d) (getActualLeaves d) then report
  else addIssue (MkIssue IssueLeafIncorrect 0 [] (str "leaf")) report.

Definition checkDerived (d : db) (report : Report) : out Report :=
  report ← checkCheckins d report; Ret (checkLeaves d report).

Definition Verify (d : db) : out Report :=
  report ← checkBlobs d no_report;
  checkDerived d (checkPhantoms d (checkDeltaChains d report)).

(** ** Rebuilding check-ins (rebuild_manifest.go) *)

Fixpoint rebuildPlinks (i : nat) (P : list bytes) (rid : Z) (mtime : julian) (s : db * Report) : out (db * Report) :=
  match P with
  | [] => Ret s
  | parentUUID :: P =>
    ex ← in_repo (Blob.Exists (d_repo s.1) parentUUID);
    rebuildPlinks (S i) P rid mtime
      (match ex with
       | None => (s.1, addIssue (MkIssue IssueMissingReference rid parentUUID (str "plink")) (count_missing s.2))
       | Some parentRID => (on_plink (insert_new (parentRID, rid) (MkPlinkVal (i =? 0) mtime None)) s.1, s.2)
       end)
  end.

Definition files_by_name (F : list FileCard) : gmap bytes bytes :=
  foldl (λ m f, <[fc_Name f := fc_UUID f]> m) ∅ F.

(** The files of the primary parent; none when it is not there or no manifest. *)
Definition buildParentFileMap (d : db) (dk : Deck) : out (gmap bytes bytes) :=
  match d_P dk with
  | [] => Ret ∅
  | p :: _ =>
    ex ← in_repo (Blob.Exists (d_repo d) p);
    match ex with
    | None => Ret ∅
    | Some parentRID =>
      parent ← try_manifest d parentRID;
      Ret (match parent with Some parentDeck => files_by_name (d_F parentDeck) | None => ∅ end)
    end
  end.

Definition rebuildEnsureFilename (d : db) (name : bytes) : out (db * Z) :=
  if bool_decide (name = []) then Panic else
  match k_filename (d_links d) !! name with
  | Some fnid => Ret (d, fnid)
  | None =>
    let fnid := next_rowid (map snd (map_to_list (k_filename (d_links d)))) in
    Ret (on_filename <[name := fnid]> d, fnid)
  end.

Definition rebuild_file (parentFiles : gmap bytes bytes) (rid : Z) (f : FileCard) (d : db) : out db :=
  if is_nil (fc_UUID f) then Ret d else
  if bool_decide (parentFiles !! fc_Name f = Some (fc_UUID f)) then Ret d else
  '(d, fnid) ← rebuildEnsureFilename d (fc_Name f);
  ex ← in_repo (Blob.Exists (d_repo d) (fc_UUID f));
  Ret (match ex with
       | None => d
       | Some fileRID => on_mlink (λ l, l ++ [MkMlink rid fileRID None None fnid]) d
       end).

Definition rebuildMlinks (d : db) (rid : Z) (dk : Deck) : out db :=
  parentFiles ← buildParentFileMap d dk;
  each_row (rebuild_file parentFiles rid) (d_F dk) d.

Definition rebuildCheckin (rid : Z) (dk : Deck) (s : db * Report) : out (db * Report) :=
  let mtime := TimeToJulian (d_D dk) in
  let d := on_event (insert_new rid (MkEvent (str "ci") mtime None (d_U dk) (d_C dk) None)) s.1 in
  '(d, report) ← rebuildPlinks 0 (d_P dk) rid mtime (d, s.2);
  d ← rebuildMlinks d rid dk;
  Ret (d, report).

Definition rebuild_entry (e : Z * bytes) (s : db * Report) : out (db * Report) :=
  match Expand (d_repo s.1) e.1 with
  | Ret data =>
    match Parse (Some data) with
    | Ret dk => if negb (bool_decide (d_Type dk = Checkin)) then Ret s else rebuildCheckin e.1 dk s
    | Fail _ => Ret s
    | Panic => Panic
    | NoFuel => NoFuel
    end
  | Fail _ => Ret (s.1, count_skipped s.2)
  | Panic => Panic
  | NoFuel => NoFuel
  end.

Definition rebuildManifests (d : db) (report : Report) : out (db * Report) :=
  each_row rebuild_entry (collectBlobEntries d) (d, report).

(** ** Rebuilding tags (rebuild_tags.go) *)

Definition mapDeckTagType (t : byte) : option Z :=
  if bool_decide (t = "*"%byte) then Some TagPropagating else
  if bool_decide (t = "+"%byte) then Some TagSingleton else
  if bool_decide (t = "-"%byte) then Some TagCancel else None.

Definition rebuild_inline (rid : Z) (mtime : julian) (tc : TagCard) (d : db) : out db :=
  if negb (bool_decide (tc_UUID tc = self)) then Ret d else
  match mapDeckTagType (tc_Type tc) with
  | None => Ret d
  | Some tagType => rollback (ApplyTagWithTx d (MkApplyOpts rid rid (tc_Name tc) tagType (tc_Value tc) mtime))
  end.

Definition rebuildInlineTags (d : db) (rid : Z) (dk : Deck) : out db :=
  each_row (rebuild_inline rid (TimeToJulian (d_D dk))) (d_T dk) d.

Definition rebuild_control (srcRID : Z) (mtime : julian) (tc : TagCard) (d : db) : out db :=
  if bool_decide (tc_UUID tc = self) then Ret d else
  ex ← in_repo (Blob.Exists (d_repo d) (tc_UUID tc));
  match ex with
  | None => Ret d
  | Some targetRID =>
    match mapDeckTagType (tc_Type tc) with
    | None => Ret d
    | Some tagType =>
      rollback (ApplyTagWithTx d (MkApplyOpts targetRID srcRID (tc_Name tc) tagType (tc_Value tc) mtime))
    end
  end.

Definition rebuildControlTags (d : db) (srcRID : Z) (dk : Deck) : out db :=
  each_row (rebuild_control srcRID (TimeToJulian (d_D dk))) (d_T dk) d.

(** One pass over the manifests of a type. *)
Definition tags_pass (type : ArtifactType) (rebuild : db → Z → Deck → out db) (e : Z * bytes) (d : db) : out db :=
  found ← try_manifest d e.1;
  match found with
  | None => Ret d
  | Some dk => if negb (bool_decide (d_Type dk = type)) then Ret d else rebuild d e.1 dk
  end.

Definition rebuildTags (d : db) : out db :=
  let entries := collectBlobEntries d in
  d ← each_row (tags_pass Checkin rebuildInlineTags) entries d;
  each_row (tags_pass Control rebuildControlTags) entries d.

(** ** Leaves and bookkeeping (rebuild_leaves.go) *)

Definition rebuildLeaves (d : db) : db := on_leaf (λ s, s ∪ computeExpectedLeaves d) d.

Definition rebuildBookkeeping (d : db) : db :=
  let rids : gset Z := list_to_set (map fst (collectBlobEntries d)) in
  on_unsent (λ s, s ∪ rids) (on_repo (with_unclustered (λ s, s ∪ rids)) d).

(** ** The whole rebuild (rebuild.go) *)

Definition rebuildTableList : list bytes :=
  [str "event"; str "mlink"; str "plink"; str "tagxref"; str "filename"; str "leaf"; str "unclustered"; str "unsent"].

Definition dropDerivedTables (d : db) : db :=
  on_unsent (λ _, ∅) (on_leaf (λ _, ∅) (on_repo (λ q, with_unclustered (λ _, ∅) (with_tagxref (λ _, ∅) q))
    (on_filename (λ _, ∅) (on_plink (λ _, ∅) (on_mlink (λ _, []) (on_event (λ _, ∅) d)))))).

(** A failure leaves the database as it was. *)
Definition Rebuild (d : db) : out (db * Report) :=
  report ← checkBlobs d no_report;
  '(d, report) ← rebuildManifests (dropDerivedTables d) report;
  d ← rebuildTags d;
  Ret (rebuildBookkeeping (rebuildLeaves d), set_rebuilt rebuildTableList report).
End verify.

(** ** Lemmas: what is read *)

(** SHA3-256 has 256 bits. *)
Class Sha3Laws `{Sha3} : Prop := { sha3_length : ∀ x, length (sha3_256 x) = 32 }.

Section facts.
Context {codec : Zlib} {sha3 : Sha3} {hlaws : Sha3Laws} {sqlite : Sqlite} {order : Unordered} {olaws : UnorderedLaws}.

Lemma computed_hash_iff uuid c : computed_hash uuid c = uuid ↔ hash_of uuid c = uuid.
Proof.
  unfold computed_hash, hash_of.
  assert (length (sha3_hex c) = 64) as H3 by (unfold sha3_hex; by rewrite length_hex_encode, sha3_length).
  pose proof (length_sha1_hex c) as H1.
  destruct (Nat.eqb_spec (length uuid) 64) as [E|E]; destruct (Nat.ltb_spec 40 (length uuid)) as [L|L]; try done; try lia.
  split; intros H; exfalso; rewrite <- H in *; lia.
Qed.

Lemma entries_elem d rid uuid : (rid, uuid) ∈ collectBlobEntries d ↔
  ∃ row, t_blob (d_repo d) !! rid = Some row ∧ (0 ≤ b_size row)%Z ∧ uuid = b_uuid row.
Proof.
  unfold collectBlobEntries. rewrite list_elem_of_fmap. setoid_rewrite any_order_perm.
  setoid_rewrite list_elem_of_filter. split.
  - intros ([r row] & [= -> ->] & Hs & Hin%elem_of_map_to_list). by exists row.
  - intros (row & Hr & Hs & ->). exists (rid, row). split; [done|]. split; [done|]. by apply elem_of_map_to_list.
Qed.

Lemma entries_present d e : e ∈ collectBlobEntries d → present d e.1.
Proof. destruct e as [rid uuid]. intros (row & Hr & Hs & _)%entries_elem. by exists row. Qed.

Lemma present_entry d rid : present d rid → ∃ uuid, (rid, uuid) ∈ collectBlobEntries d.
Proof. intros (row & Hr & Hs). exists (b_uuid row). apply entries_elem. by exists row. Qed.

Lemma entries_nodup d : NoDup (map fst (collectBlobEntries d)).
Proof.
  unfold collectBlobEntries. rewrite map_map, any_order_perm. cbn [fst].
  pose proof (NoDup_fst_map_to_list (t_blob (d_repo d))) as H.
  eapply sublist_NoDup; [exact H|]. apply fmap_sublist, sublist_filter.
Qed.

(** A check of each row adds issues to the report unless all rows are good. *)
Lemma each_row_checks {A} (P : Report → Prop) (f : A → Report → out Report) (good : A → Prop) l : ∀ r, P r →
  (∀ x r, x ∈ l → P r → ∃ r', f x r = Ret r' ∧ P r' ∧ (rp_Issues r' = [] ↔ rp_Issues r = [] ∧ good x)) →
  ∃ r', each_row f l r = Ret r' ∧ P r' ∧ (rp_Issues r' = [] ↔ rp_Issues r = [] ∧ ∀ x, x ∈ l → good x).
Proof.
  induction l as [|x l IH]; intros r Hr Hf; cbn [each_row].
  { exists r. split_and!; [done|done|]. split; [|by intros [? _]]. intros H. split; [done|]. by intros x ?%not_elem_of_nil. }
  destruct (Hf x r) as (r1 & -> & H1 & E1); [by left|done|]. cbn [mbind outcome_bind].
  destruct (IH r1) as (r' & -> & H2 & E2); [done|intros; apply Hf; [by right|done]|].
  exists r'. split_and!; [done|done|]. rewrite E2, E1. setoid_rewrite elem_of_cons. naive_solver.
Qed.

Lemma addIssue_issues i r : rp_Issues (addIssue i r) = [] ↔ False.
Proof. unfold addIssue. cbn. by destruct (rp_Issues r). Qed.

(** Rows that are issues. *)
Lemma foldl_issues {A} (f : A → Issue) l r :
  rp_Issues (foldl (λ r x, addIssue (f x) r) r l) = [] ↔ rp_Issues r = [] ∧ l = [].
Proof.
  revert r. induction l as [|x l IH]; intros r; cbn [foldl]; [tauto|]. rewrite IH, addIssue_issues. naive_solver.
Qed.

Lemma foldl_blobs {A} (f : A → Issue) l r :
  rp_BlobsChecked (foldl (λ r x, addIssue (f x) r) r l) = rp_BlobsChecked r.
Proof. revert r. induction l as [|x l IH]; intros r; cbn [foldl]; [done|]. by rewrite IH. Qed.

Lemma filter_nil_iff {A} (P : A → Prop) `{!∀ x, Decision (P x)} (l : list A) :
  filter P l = [] ↔ ∀ x, x ∈ l → ¬ P x.
Proof.
  split.
  - intros Hn x Hx HP. assert (x ∈ filter P l) as Hin by by apply list_elem_of_filter.
    rewrite Hn in Hin. by apply not_elem_of_nil in Hin.
  - intros Hn. apply filter_none, list.Forall_forall. exact Hn.
Qed.

Lemma any_order_nil {A} (l : list A) : any_order l = [] ↔ l = [].
Proof.
  pose proof (any_order_perm _ l) as Hp. split; [intros E; rewrite E in Hp; by apply Permutation_nil in Hp|].
  intros ->. symmetry in Hp. by apply Permutation_nil in Hp.
Qed.

Lemma read_safe d rid : safe (read_manifest d rid) → safe (Expand (d_repo d) rid).
Proof. unfold read_manifest. destruct (Expand _ _); done. Qed.

Lemma try_manifest_safe d rid : safe (read_manifest d rid) → ∃ found, try_manifest d rid = Ret found ∧
  ∀ dk, found = Some dk ↔ read_manifest d rid = Ret dk.
Proof. unfold try_manifest. destruct (read_manifest d rid); try done; intros _; eexists; (split; [done|]); naive_solver. Qed.

(** *** Parents *)

Lemma fields_nonempty s : ∀ skip cur w, w ∈ fields_loop s skip cur → w ≠ [].
Proof.
  assert (∀ cur w, w ∈ flush cur → w ≠ []) as Hf.
  { intros cur w. unfold flush. destruct cur; cbn; [by intros ?%not_elem_of_nil|]. by intros ->%list_elem_of_singleton. }
  induction s as [|c s IH]; intros skip cur w; cbn [fields_loop]; [apply Hf|].
  destruct skip; [|apply IH]. destruct (space_prefix (c :: s)); [apply IH|].
  intros [?|?]%elem_of_app; [by eapply Hf|by eapply IH].
Qed.

Definition parents_named (dk : Deck) : Prop := ∀ u, u ∈ d_P dk → u ≠ [].

Lemma parseCard_parents dk c args dk' : parseCard dk c args = Ret dk' →
  d_P dk' = d_P dk ∨ d_P dk' = Fields args.
Proof.
  destruct c; cbn [parseCard]; try done; try (intros [= <-]; auto; fail);
    unfold parseACard, parseDCard, parseECard, parseFCard, parseJCard, parseQCard, parseTCard;
    try (destruct (_ <? _); [done|]; intros (? & _ & Hr)%bind_ret_inv; revert Hr);
    repeat case_match; try done; intros [= <-]; auto.
Qed.

Lemma parse_loop_parents fuel : ∀ body dk last dk',
  parents_named dk → parse_loop fuel body dk last = Ret dk' → parents_named dk'.
Proof.
  induction fuel as [|fuel IH]; intros body dk last dk' Hp; cbn [parse_loop]; [done|].
  destruct (_ =? 0); [by intros [= <-]|]. destruct (readLine body) as [ln rest].
  destruct ln as [|card ln]; [by apply IH|]. case_bool_decide.
  - destruct (_ <? _)%Z; [done|]. intros ([dk1 rest1] & H1 & Hr)%bind_ret_inv. eapply IH; [|exact Hr].
    revert H1. unfold parseW. repeat (case_match; try done). by intros [= <- <-].
  - destruct (_ <? _)%Z; [done|]. destruct (_ || _); [done|].
    intros (dk1 & H1 & Hr)%bind_ret_inv. eapply IH; [|exact Hr]. unfold parents_named.
    apply parseCard_parents in H1 as [-> | ->]; [done|]. intros u. apply fields_nonempty.
Qed.

Lemma Parse_parents data dk : Parse data = Ret dk → parents_named dk.
Proof.
  unfold Parse. destruct data; [|done]. intros (_ & _ & H)%bind_ret_inv. apply bind_ret_inv in H as (dk1 & H1 & H).
  injection H as <-. unfold parents_named. cbn. eapply parse_loop_parents; [|exact H1]. by intros u ?%not_elem_of_nil.
Qed.

Lemma read_parents d rid dk : read_manifest d rid = Ret dk → parents_named dk.
Proof. unfold read_manifest. intros (c & _ & H)%bind_ret_inv. apply wrap_err_ret in H. by eapply Parse_parents. Qed.

(** The parents have names, so looking for them does not panic. *)
Lemma Exists_named d u : u ≠ [] → in_repo (Blob.Exists (d_repo d) u) = Ret (rid_of d u).
Proof. intros Hu. unfold Blob.Exists. by rewrite bool_decide_false. Qed.

(** *** Leaves *)

Lemma childless_iff d rid : childless d rid ↔ ∀ c, k_plink (d_links d) !! (rid, c) = None.
Proof.
  unfold childless. rewrite list.Forall_forall. split.
  - intros H c. destruct (k_plink (d_links d) !! (rid, c)) as [v|] eqn:E; [|done].
    apply elem_of_map_to_list in E. by specialize (H _ E).
  - intros H [[p c] v] Hin%elem_of_map_to_list. cbn. intros ->. by rewrite H in Hin.
Qed.

(** A check-in in the event table, without children. *)
Definition listed (d : db) (rid : Z) : Prop := ∃ e, k_event (d_links d) !! rid = Some e ∧ ev_type e = str "ci".
Definition is_leaf (d : db) (rid : Z) : Prop := listed d rid ∧ ∀ c, k_plink (d_links d) !! (rid, c) = None.

Lemma listed_ci d rid : listed d rid ↔ ci d rid.
Proof.
  unfold listed, ci, checkin_row. split.
  - intros (e & -> & He). by exists (uncoloured e).
  - intros (x & H & Hx). destruct (k_event (d_links d) !! rid) as [e|]; [|done]. cbn in H. injection H as <-. by exists e.
Qed.

Lemma expected_elem d rid : rid ∈ computeExpectedLeaves d ↔ is_leaf d rid.
Proof.
  unfold computeExpectedLeaves, is_leaf, listed. rewrite <- childless_iff, elem_of_list_to_set, list_elem_of_fmap. split.
  - intros ([r e] & -> & [[Ht Hc] Hin%elem_of_map_to_list]%list_elem_of_filter). cbn in *. eauto.
  - intros ((e & He & Ht) & Hc). exists (rid, e). split; [done|]. apply list_elem_of_filter.
    split; [done|]. by apply elem_of_map_to_list.
Qed.

Lemma leafSetsEqual_iff a b : leafSetsEqual a b = true ↔ a = b.
Proof.
  unfold leafSetsEqual. rewrite andb_true_iff, Nat.eqb_eq, forallb_forall. split.
  - intros [Hs H]. apply set_subseteq_size_eq; [|lia].
    intros r Hr. apply elem_of_elements, list_elem_of_In in Hr. by apply H, bool_decide_eq_true in Hr.
  - intros ->. split; [done|]. intros r Hr%list_elem_of_In. apply bool_decide_eq_true. by apply elem_of_elements.
Qed.

Lemma leaves_right d : computeExpectedLeaves d = d_leaf d ↔ ∀ r, r ∈ d_leaf d ↔ is_leaf d r.
Proof.
  split; [by intros <- r; apply expected_elem|]. intros H. apply set_eq. intros r. by rewrite expected_elem, H.
Qed.

(** ** Lemmas: verification *)

(** A repository that is in order. *)
Record healthy (d : db) : Prop := {
  he_blobs : ∀ rid row, t_blob (d_repo d) !! rid = Some row → (0 ≤ b_size row)%Z →
    ∃ c, expands (d_repo d) rid c ∧ hash_of (b_uuid row) c = b_uuid row;
  he_deltas : ∀ rid src, t_delta (d_repo d) !! rid = Some src →
    is_Some (t_blob (d_repo d) !! rid) ∧ is_Some (t_blob (d_repo d) !! src);
  he_phantoms : ∀ rid, rid ∈ t_phantom (d_repo d) → is_Some (t_blob (d_repo d) !! rid);
  he_events : ∀ rid dk, present d rid → read_manifest d rid = Ret dk → d_Type dk = Checkin →
    is_Some (k_event (d_links d) !! rid);
  he_plinks : ∀ rid dk u p, present d rid → read_manifest d rid = Ret dk → d_Type dk = Checkin →
    u ∈ d_P dk → rid_of d u = Some p → is_Some (k_plink (d_links d) !! (p, rid));
  he_leaves : ∀ r, r ∈ d_leaf d ↔ is_leaf d r
}.

(** Every artifact is read without a panic. *)
Definition readable (d : db) : Prop := ∀ rid, is_Some (t_blob (d_repo d) !! rid) → safe (read_manifest d rid).

Lemma present_row d rid : present d rid → is_Some (t_blob (d_repo d) !! rid).
Proof. intros (row & Hr & _). by exists row. Qed.

Section verify.
Variable d : db.
Hypothesis Hread : readable d.

Definition blob_good (e : Z * bytes) : Prop := ∃ c, expands (d_repo d) e.1 c ∧ hash_of e.2 c = e.2.
Definition counted (r : Report) : Prop := rp_BlobsChecked r = (rp_BlobsOK r + rp_BlobsFailed r)%Z.

Lemma check_blob_ok e r : e ∈ collectBlobEntries d → counted r → ∃ r', check_blob d e r = Ret r' ∧ counted r' ∧
  (rp_Issues r' = [] ↔ rp_Issues r = [] ∧ blob_good e).
Proof.
  intros Hin Hr. pose proof (read_safe _ _ (Hread _ (present_row _ _ (entries_present _ _ Hin)))) as Hs.
  unfold check_blob, counted in *. destruct (Expand (d_repo d) e.1) as [c|er| |] eqn:E; try done.
  - pose proof (Expand_positive _ _ _ E) as Hp. apply Expand_expands in E; [|done].
    case_bool_decide as Hh; eexists; (split; [reflexivity|]); (split; [cbn; lia|]).
    + cbn. apply computed_hash_iff in Hh. split; [|by intros [? _]]. intros H. split; [done|]. by exists c.
    + rewrite addIssue_issues. split; [done|]. intros [_ (c' & Hc & Hh')]. apply Hh, computed_hash_iff.
      by rewrite <- (expands_fun _ _ _ _ Hc E).
  - eexists. split; [reflexivity|]. split; [cbn; lia|]. rewrite addIssue_issues. split; [done|].
    intros [_ (c' & Hc & _)]. pose proof (expands_pos _ _ _ Hc). apply Expand_expands in Hc; [congruence|done].
Qed.

Lemma checkBlobs_ok r : counted r → ∃ r', checkBlobs d r = Ret r' ∧
  (rp_Issues r' = [] ↔ rp_Issues r = [] ∧ ∀ e, e ∈ collectBlobEntries d → blob_good e).
Proof.
  intros Hr. unfold checkBlobs.
  destruct (each_row_checks counted (check_blob d) blob_good (collectBlobEntries d) r Hr) as (r' & -> & Hc & Hi).
  { intros e r1 He Hr1. by apply check_blob_ok. }
  cbn [mbind outcome_bind]. exists r'. split; [|done]. unfold counted in Hc. by rewrite Hc, Z.eqb_refl.
Qed.

Lemma checkDeltaChains_ok r : rp_Issues (checkDeltaChains d r) = [] ↔ rp_Issues r = [] ∧
  ∀ rid src, t_delta (d_repo d) !! rid = Some src → is_Some (t_blob (d_repo d) !! rid) ∧ is_Some (t_blob (d_repo d) !! src).
Proof.
  unfold checkDeltaChains. rewrite foldl_issues, any_order_nil, filter_nil_iff. apply and_iff_compat_l.
  unfold has_blob. split.
  - intros H rid src Hd. apply elem_of_map_to_list in Hd. specialize (H _ Hd). cbn in H.
    rewrite orb_true_iff, !negb_true_iff, !bool_decide_eq_false in H.
    destruct (t_blob (d_repo d) !! rid), (t_blob (d_repo d) !! src); naive_solver.
  - intros H [rid src] Hd%elem_of_map_to_list. destruct (H _ _ Hd) as [H1 H2]. cbn. by rewrite !bool_decide_true.
Qed.

Lemma checkPhantoms_ok r : rp_Issues (checkPhantoms d r) = [] ↔ rp_Issues r = [] ∧
  ∀ rid, rid ∈ t_phantom (d_repo d) → is_Some (t_blob (d_repo d) !! rid).
Proof.
  unfold checkPhantoms. rewrite foldl_issues, any_order_nil, filter_nil_iff. apply and_iff_compat_l.
  unfold has_blob. setoid_rewrite elem_of_elements. setoid_rewrite bool_decide_eq_false.
  split; intros H rid Hr; specialize (H rid Hr); destruct (t_blob (d_repo d) !! rid); naive_solver.
Qed.

Definition checkin_good (e : Z * bytes) : Prop := ∀ dk, read_manifest d e.1 = Ret dk → d_Type dk = Checkin →
  is_Some (k_event (d_links d) !! e.1) ∧
  ∀ u, u ∈ d_P dk → ∀ p, rid_of d u = Some p → is_Some (k_plink (d_links d) !! (p, e.1)).

Lemma checkOneCheckin_ok e r : e ∈ collectBlobEntries d → ∃ r', checkOneCheckin d e r = Ret r' ∧ True ∧
  (rp_Issues r' = [] ↔ rp_Issues r = [] ∧ checkin_good e).
Proof.
  intros Hin. unfold checkOneCheckin, checkin_good.
  destruct (try_manifest_safe d e.1) as (found & -> & Hf); [by apply Hread, present_row, entries_present|]. cbn [mbind outcome_bind].
  destruct found as [dk|].
  2: { exists r. split_and!; [done|done|]. split; [|by intros [? _]]. intros H. split; [done|].
    intros dk Hdk%Hf. done. }
  pose proof (proj1 (Hf dk) eq_refl) as Hdk. pose proof (read_parents _ _ _ Hdk) as Hpn.
  case_bool_decide as Ht; cbn [negb].
  2: { exists r. split_and!; [done|done|]. split; [|by intros [? _]]. intros H. split; [done|].
    intros dk' Hdk'. congruence. }
  destruct (each_row_checks (λ _, True) (checkPlink d e.1 e.2)
    (λ u, ∀ p, rid_of d u = Some p → is_Some (k_plink (d_links d) !! (p, e.1))) (d_P dk) (checkEvent d e.1 e.2 r))
    as (r' & -> & _ & Hi); [done| |].
  { intros u r1 Hu _. unfold checkPlink. rewrite (Exists_named d u (Hpn u Hu)). cbn [mbind outcome_bind].
    destruct (rid_of d u) as [p|].
    - destruct (k_plink (d_links d) !! (p, e.1)) eqn:Epl; eexists; (split; [reflexivity|]); (split; [done|]).
      + split; [|by intros [? _]]. intros H. split; [done|]. intros p' [= <-]. by rewrite Epl.
      + rewrite addIssue_issues. split; [done|]. intros [_ H]. specialize (H p eq_refl). rewrite Epl in H. by destruct H.
    - eexists. split; [reflexivity|]. split; [done|]. split; [|by intros [? _]]. by intros H. }
  exists r'. split_and!; [done|done|]. rewrite Hi.
  assert (rp_Issues (checkEvent d e.1 e.2 r) = [] ↔ rp_Issues r = [] ∧ is_Some (k_event (d_links d) !! e.1)) as ->.
  { unfold checkEvent. destruct (k_event (d_links d) !! e.1).
    - split; [|by intros [? _]]. intros H. split; [done|by eexists].
    - rewrite addIssue_issues. split; [done|]. by intros [_ [? ?]]. }
  split.
  - intros [[H1 H2] H3]. split; [done|]. intros dk' Hdk' _. assert (dk' = dk) as -> by congruence. done.
  - intros [H1 H2]. destruct (H2 dk Hdk Ht). done.
Qed.

Lemma Verify_ok : ∃ r, Verify d = Ret r ∧ (OK r = true ↔ healthy d).
Proof.
  unfold Verify. destruct (checkBlobs_ok no_report) as (r1 & -> & H1); [done|]. cbn [mbind outcome_bind].
  unfold checkDerived, checkCheckins.
  destruct (each_row_checks (λ _, True) (checkOneCheckin d) checkin_good (collectBlobEntries d)
    (checkPhantoms d (checkDeltaChains d r1))) as (r2 & -> & _ & H2); [done|by intros; apply checkOneCheckin_ok|].
  cbn [mbind outcome_bind]. eexists. split; [reflexivity|].
  assert (∀ r, OK r = true ↔ rp_Issues r = []) as HOK by (intros r; unfold OK, is_nil; by destruct (rp_Issues r)).
  rewrite HOK. unfold checkLeaves, getActualLeaves.
  assert (rp_Issues r2 = [] ↔ ((∀ e, e ∈ collectBlobEntries d → blob_good e) ∧
    (∀ rid src, t_delta (d_repo d) !! rid = Some src → is_Some (t_blob (d_repo d) !! rid) ∧ is_Some (t_blob (d_repo d) !! src)) ∧
    (∀ rid, rid ∈ t_phantom (d_repo d) → is_Some (t_blob (d_repo d) !! rid)) ∧
    ∀ e, e ∈ collectBlobEntries d → checkin_good e)) as Hall.
  { rewrite H2, checkPhantoms_ok, checkDeltaChains_ok, H1. cbn. tauto. }
  destruct (leafSetsEqual _ _) eqn:El.
  - apply leafSetsEqual_iff in El. pose proof (proj1 (leaves_right d) El) as El'. rewrite Hall. split.
    + intros (A & B & C & D). split; try done.
      * intros rid row Hr Hs. apply (A (rid, b_uuid row)), entries_elem. by exists row.
      * intros rid dk [uuid Hp]%present_entry Hdk Ht. by apply (D _ Hp dk).
      * intros rid dk u p [uuid Hp]%present_entry Hdk Ht Hu Hup. by apply (D _ Hp dk Hdk Ht) with u.
    + intros [A B C D E _]. split_and!; try done.
      * intros [rid uuid] (row & Hr & Hs & ->)%entries_elem. by apply A.
      * intros e He%entries_present dk Hdk Ht. split; [by apply (D e.1 dk)|]. intros u Hu p Hup. by eapply E.
  - rewrite addIssue_issues. split; [done|]. intros [_ _ _ _ _ F].
    apply (proj2 (leaves_right d)), leafSetsEqual_iff in F. congruence.
Qed.
End verify.

(** ** Lemmas: rebuilding *)

(** A run that returns with [P], or fails with [E]. *)
Definition runs {E A} (Q : E → Prop) (P : A → Prop) (m : outcome E A) : Prop :=
  match m with Ret a => P a | Fail e => Q e | _ => False end.

Lemma runs_bind {E A B} (Q : E → Prop) (P : A → Prop) (R : B → Prop) m (f : A → outcome E B) :
  runs Q P m → (∀ a, P a → runs Q R (f a)) → runs Q R (m ≫= f).
Proof. destruct m; cbn; auto. Qed.

Lemma runs_mono {E A} (Q : E → Prop) (P R : A → Prop) m : runs Q P m → (∀ a, P a → R a) → runs Q R m.
Proof. destruct m; cbn; auto. Qed.

Lemma runs_impl {E A} (Q Q' : E → Prop) (P : A → Prop) m : (∀ e, Q e → Q' e) → runs Q P m → runs Q' P m.
Proof. destruct m; cbn; auto. Qed.

(** A loop keeps what each row keeps. *)
Lemma each_row_runs {A S} (Q : db_error → Prop) (I : list A → S → Prop) (f : A → S → out S) l s :
  I [] s → (∀ l1 x l2 s, l = l1 ++ x :: l2 → I l1 s → runs Q (I (l1 ++ [x])) (f x s)) → runs Q (I l) (each_row f l s).
Proof.
  intros Hs Hf. assert (∀ l1 l2 s, l = l1 ++ l2 → I l1 s → runs Q (I l) (each_row f l2 s)) as H.
  { intros l1 l2. revert l1. induction l2 as [|x l2 IH]; intros l1 s1 Hl H1; cbn [each_row].
    { cbn. by rewrite Hl, app_nil_r. }
    apply (runs_bind _ (I (l1 ++ [x]))); [by apply (Hf l1 x l2)|]. intros s2 H2.
    apply (IH (l1 ++ [x])); [by rewrite <- app_assoc|done]. }
  by apply (H []).
Qed.

(** *** Check-ins *)

Lemma rebuildPlinks_eq P rid mtime : ∀ i d r, (∀ u, u ∈ P → u ≠ []) →
  ∃ r', rebuildPlinks i P rid mtime (d, r) = Ret (insertPlinks i P rid mtime None d, r').
Proof.
  induction P as [|u P IH]; intros i d r Hp; cbn [rebuildPlinks insertPlinks]; [by exists r|].
  cbn [fst snd]. rewrite Exists_named by (apply Hp; by left). cbn [mbind outcome_bind].
  assert (∀ v, v ∈ P → v ≠ []) as Hp' by (intros; apply Hp; by right).
  destruct (rid_of d u); apply IH; done.
Qed.

Definition changed (pf : gmap bytes bytes) (f : FileCard) : Prop := pf !! fc_Name f ≠ Some (fc_UUID f).

Lemma insert_mlinks_cons rid f F d : insert_mlinks rid (f :: F) d = d ← insert_mlinks rid [f] d; insert_mlinks rid F d.
Proof.
  cbn [insert_mlinks]. case_bool_decide; [done|]. rewrite bind_assoc.
  destruct (ensureFilename _ _) as [[d1 fnid]|e| |]; done.
Qed.

Lemma rebuild_file_eq pf rid f d :
  rebuild_file pf rid f d = if decide (changed pf f) then insert_mlinks rid [f] d else Ret d.
Proof.
  unfold rebuild_file. cbn [insert_mlinks]. destruct (decide (fc_UUID f = [])) as [Eu|Eu].
  { rewrite (bool_decide_true (fc_UUID f = [])) by done.
    replace (is_nil (fc_UUID f)) with true by (by rewrite Eu). by case_decide. }
  assert (is_nil (fc_UUID f) = false) as -> by (unfold is_nil; by destruct (fc_UUID f)).
  case_bool_decide as Hb; [rewrite decide_False; [done|]; unfold changed; intros Hn; by apply Hn|].
  rewrite decide_True by done. rewrite bool_decide_false by done.
  change (rebuildEnsureFilename d (fc_Name f)) with (ensureFilename d (fc_Name f)).
  destruct (ensureFilename d (fc_Name f)) as [[d1 fnid]|e| |]; cbn [mbind outcome_bind]; [|done..].
  by rewrite Exists_named.
Qed.

Lemma rebuild_files_eq pf rid F : ∀ d,
  each_row (rebuild_file pf rid) F d = insert_mlinks rid (filter (changed pf) F) d.
Proof.
  induction F as [|f F IH]; intros d; cbn [each_row]; [done|]. rewrite rebuild_file_eq, filter_cons.
  case_decide; [|cbn [mbind outcome_bind]; apply IH]. rewrite (insert_mlinks_cons rid f (filter (changed pf) F)).
  destruct (insert_mlinks rid [f] d); cbn [mbind outcome_bind]; [apply IH|done..].
Qed.

Lemma insert_mlinks_total rid F : ∀ d, (∀ f, f ∈ F → fc_UUID f ≠ [] → fc_Name f ≠ []) →
  ∃ d', insert_mlinks rid F d = Ret d'.
Proof.
  induction F as [|f F IH]; intros d Hf; cbn [insert_mlinks]; [by eexists|].
  assert (∀ g, g ∈ F → fc_UUID g ≠ [] → fc_Name g ≠ []) as Hf' by (intros; apply Hf; [by right|done]).
  case_bool_decide as Hu; [by apply IH|]. unfold ensureFilename. rewrite bool_decide_false by (apply Hf; [by left|done]).
  destruct (_ !! fc_Name f); cbn [mbind outcome_bind]; by apply IH.
Qed.

(** The check-in manifests. *)
Definition checkin_of (d : db) (o : Z) (dk : Deck) : Prop :=
  present d o ∧ read_manifest d o = Ret dk ∧ d_Type dk = Checkin.

(** The files of the primary parent. *)
Definition parent_files (d : db) (dk : Deck) : gmap bytes bytes :=
  match head (d_P dk) ≫= rid_of d with
  | Some r => match read_manifest d r with Ret parentDeck => files_by_name (d_F parentDeck) | _ => ∅ end
  | None => ∅
  end.

(** The files that get a row: those that are there and differ from the parent's. *)
Definition changed_files (d : db) (dk : Deck) : list FileCard :=
  filter (file_listed d) (filter (changed (parent_files d dk)) (d_F dk)).

Lemma buildParentFileMap_eq d dk : readable d → parents_named dk → buildParentFileMap d dk = Ret (parent_files d dk).
Proof.
  intros Hread Hp. unfold buildParentFileMap, parent_files, parents_named in *. destruct (d_P dk) as [|p P]; [done|].
  rewrite Exists_named by (apply Hp; by left). cbn [head mbind option_bind outcome_bind].
  destruct (rid_of d p) as [r|] eqn:Hr; [|done]. apply rid_of_uuid_Some in Hr as (row & Hr & _).
  assert (safe (read_manifest d r)) as Hs by (apply Hread; by eexists).
  unfold try_manifest. by destruct (read_manifest d r).
Qed.

Lemma rebuildCheckin_eq rid dk d r : readable d → parents_named dk →
  (∀ f, f ∈ d_F dk → fc_UUID f ≠ [] → fc_Name f ≠ []) →
  let d1 := insertPlinks 0 (d_P dk) rid (TimeToJulian (d_D dk)) None (on_event (insert_new rid (checkin_event dk)) d) in
  ∃ d' r', rebuildCheckin rid dk (d, r) = Ret (d', r') ∧
    insert_mlinks rid (filter (changed (parent_files d dk)) (d_F dk)) d1 = Ret d'.
Proof.
  intros Hread Hp Hf d1. unfold rebuildCheckin. cbn [fst snd].
  change (MkEvent (str "ci") (TimeToJulian (d_D dk)) None (d_U dk) (d_C dk) None) with (checkin_event dk).
  destruct (rebuildPlinks_eq (d_P dk) rid (TimeToJulian (d_D dk)) 0 (on_event (insert_new rid (checkin_event dk)) d) r Hp)
    as (r' & ->). cbn [mbind outcome_bind]. fold d1.
  assert (d_repo d1 = d_repo d) as Hrepo.
  { unfold d1. by destruct (insertPlinks_eq 0 (d_P dk) rid (TimeToJulian (d_D dk)) None (on_event (insert_new rid (checkin_event dk)) d))
      as (X & -> & _). }
  unfold rebuildMlinks.
  assert (buildParentFileMap d1 dk = buildParentFileMap d dk) as ->.
  { unfold buildParentFileMap, try_manifest, read_manifest. by rewrite Hrepo. }
  rewrite buildParentFileMap_eq by done. cbn [mbind outcome_bind]. rewrite rebuild_files_eq.
  destruct (insert_mlinks_total rid (filter (changed (parent_files d dk)) (d_F dk)) d1) as (d' & Hd').
  { intros f [_ Hin]%list_elem_of_filter. by apply Hf. }
  rewrite Hd'. exists d', r'. done.
Qed.
(** *** All check-ins *)

Section collect.
Variable d0 : db.
Hypothesis Hread : readable d0.
Hypothesis Hnames : ∀ o dk, checkin_of d0 o dk → ∀ f, f ∈ d_F dk → fc_UUID f ≠ [] → fc_Name f ≠ [].
Hypothesis Hempty : k_event (d_links d0) = ∅ ∧ k_plink (d_links d0) = ∅ ∧ k_mlink (d_links d0) = [] ∧ k_filename (d_links d0) = ∅.

(** [d] has the rows of the check-ins in [L]. *)
Record collected (L : list Z) (d : db) : Prop := {
  co_only : ∃ Y X N M, d = on_mlink (λ _, M) (on_filename (λ _, N) (on_plink (λ _, X) (on_event (λ _, Y) d0)));
  co_event : ∀ o e, k_event (d_links d) !! o = Some e ↔ o ∈ L ∧ ∃ dk, checkin_of d0 o dk ∧ e = checkin_event dk;
  co_plink : ∀ p c, is_Some (k_plink (d_links d) !! (p, c)) ↔
    c ∈ L ∧ ∃ dk u, checkin_of d0 c dk ∧ u ∈ d_P dk ∧ rid_of d0 u = Some p;
  co_prim : ∀ p c v dk, k_plink (d_links d) !! (p, c) = Some v → checkin_of d0 c dk →
    pk_isprim v = true ↔ head (d_P dk) ≫= rid_of d0 = Some p;
  co_names : names_unique (k_filename (d_links d));
  co_files : ∀ o dk, o ∈ L → checkin_of d0 o dk → Forall2 (file_row d o) (changed_files d0 dk) (mlinks_of d o);
  co_mlink : ∀ m, m ∈ k_mlink (d_links d) → ml_mid m ∈ L ∧ ∃ dk, checkin_of d0 (ml_mid m) dk
}.

Lemma collected_nil : collected [] d0.
Proof.
  destruct Hempty as (H1 & H2 & H3 & H4). split.
  - exists ∅, ∅, ∅, []. destruct d0 as [? ? ? ? ? ? ? ? []]. cbn in *. by subst.
  - intros o e. rewrite H1, lookup_empty. split; [done|]. by intros [?%not_elem_of_nil _].
  - intros p c. rewrite H2, lookup_empty. split; [by intros [? ?]|]. by intros [?%not_elem_of_nil _].
  - intros p c v dk. by rewrite H2, lookup_empty.
  - rewrite H4. intros n1 n2 f. by rewrite lookup_empty.
  - by intros o dk ?%not_elem_of_nil.
  - rewrite H3. by intros m ?%not_elem_of_nil.
Qed.

Lemma checkin_of_fun o dk dk' : checkin_of d0 o dk → checkin_of d0 o dk' → dk = dk'.
Proof. intros (_ & H & _) (_ & H' & _). congruence. Qed.

(** An artifact that is not a check-in. *)
Lemma collected_skip L rid d : (∀ dk, ¬ checkin_of d0 rid dk) → collected L d → collected (L ++ [rid]) d.
Proof.
  intros Hno [C1 C2 C3 C4 C5 C6 C7]. split; try done; setoid_rewrite elem_of_app; setoid_rewrite list_elem_of_singleton.
  - intros o e. rewrite C2. split; [naive_solver|]. intros [[Ho|Ho] (dk & Hdk & He)]; [by eauto|].
    subst o. by destruct (Hno dk).
  - intros p c. rewrite C3. split; [naive_solver|]. intros [[Ho|Ho] (dk & u & Hdk & Hu)]; [by eauto|].
    subst c. by destruct (Hno dk).
  - intros o dk [Ho|Ho] Hdk; [by apply C6|]. subst o. by destruct (Hno dk).
  - intros m Hm. destruct (C7 m Hm). auto.
Qed.

Lemma collected_checkin L rid dk d d' : rid ∉ L → checkin_of d0 rid dk → collected L d →
  insert_mlinks rid (filter (changed (parent_files d dk)) (d_F dk))
    (insertPlinks 0 (d_P dk) rid (TimeToJulian (d_D dk)) None (on_event (insert_new rid (checkin_event dk)) d)) = Ret d' →
  collected (L ++ [rid]) d'.
Proof.
  intros Hn Hdk [(Y0 & X0 & N0 & M0 & Hd) C2 C3 C4 C5 C6 C7] H.
  assert (k_event (d_links d) !! rid = None) as Hev.
  { destruct (k_event (d_links d) !! rid) eqn:E; [|done]. by apply C2 in E as [? _]. }
  assert (∀ p, k_plink (d_links d) !! (p, rid) = None) as Hpn.
  { intros p. apply eq_None_not_Some. by intros [? _]%C3. }
  assert (Forall (λ m, ml_mid m ≠ rid) (k_mlink (d_links d))) as Hold.
  { apply Forall_forall. intros m Hm ?. apply Hn. destruct (C7 m Hm). congruence. }
  assert (∀ u, rid_of d u = rid_of d0 u) as Hrid by (intros u; by rewrite Hd).
  assert (parent_files d dk = parent_files d0 dk) as Hpf.
  { unfold parent_files, read_manifest. rewrite Hd. done. }
  destruct (insertPlinks_eq 0 (d_P dk) rid (TimeToJulian (d_D dk)) None (on_event (insert_new rid (checkin_event dk)) d))
    as (X & HX & [X1 X2 X3]). rewrite HX, Hpf in H. clear HX Hpf.
  apply insert_mlinks_ret in H as (N & rows & -> & N1 & N2 & Hrows).
  set (d1 := on_plink (λ _, X) (on_event _ d)) in *.
  set (d' := on_mlink (λ l, l ++ rows) _) in *.
  assert (filter (file_listed d1) (filter (changed (parent_files d0 dk)) (d_F dk)) = changed_files d0 dk) as Hfl.
  { unfold changed_files. apply filter_agree. intros f _. unfold file_listed.
    change (rid_of d1 (fc_UUID f)) with (rid_of d (fc_UUID f)). by rewrite Hrid. }
  rewrite Hfl in Hrows. clear Hfl.
  assert (Forall (λ m, ml_mid m = rid) rows) as Hmid.
  { clear -Hrows. induction Hrows as [|f m fs ms [H _] _ IH]; by constructor. }
  change (k_plink (d_links (on_event (insert_new rid (checkin_event dk)) d))) with (k_plink (d_links d)) in X1, X2, X3.
  assert (k_mlink (d_links d') = k_mlink (d_links d) ++ rows) as Hml by done.
  split.
  - exists (insert_new rid (checkin_event dk) Y0), X, N, (M0 ++ rows). unfold d', d1. rewrite Hd. reflexivity.
  - intros o e. change (k_event (d_links d')) with (insert_new rid (checkin_event dk) (k_event (d_links d))).
    rewrite insert_new_lookup, elem_of_app, list_elem_of_singleton. case_decide as Ho.
    + subst o. rewrite Hev. cbn. split.
      * intros [= <-]. split; [by right|]. by exists dk.
      * intros (_ & dk' & Hdk' & ->). by rewrite (checkin_of_fun _ _ _ Hdk Hdk').
    + rewrite C2. naive_solver.
  - intros p c. change (k_plink (d_links d')) with X. rewrite X2, C3, elem_of_app, list_elem_of_singleton.
    change (rid_of (on_event (insert_new rid (checkin_event dk)) d)) with (rid_of d). setoid_rewrite Hrid. split.
    + intros [[Hc H]|[-> (u & Hu & Hup)]]; [auto|]. split; [by right|]. by exists dk, u.
    + intros [[Hc|Hc] H]; [by left|]. subst c. right. split; [done|]. destruct H as (dk' & u & Hdk' & Hu & Hup).
      rewrite <- (checkin_of_fun _ _ _ Hdk Hdk') in Hu. by exists u.
  - intros p c v dk' Hv Hdk'. change (k_plink (d_links d')) with X in Hv.
    destruct (decide (c = rid)) as [->|Hc].
    + rewrite <- (checkin_of_fun _ _ _ Hdk Hdk'). rewrite (X3 p v Hv (Hpn p)).
      change (rid_of (on_event (insert_new rid (checkin_event dk)) d)) with (rid_of d).
      destruct (d_P dk) as [|u P]; cbn; [naive_solver|]. rewrite Hrid. naive_solver.
    + apply (C4 p c v dk'); [|done].
      destruct (proj1 (X2 p c)) as [[v' Hv']|[? _]]; [by eexists| |done].
      rewrite Hv'. apply (lookup_weaken _ _ _ _ Hv') in X1. congruence.
  - change (k_filename (d_links d')) with N. by apply N2.
  - intros o dk' Ho Hdk'. unfold mlinks_of. rewrite Hml, filter_app.
    apply elem_of_app in Ho as [Ho| ->%list_elem_of_singleton].
    + rewrite (filter_none _ rows).
      2: { eapply Forall_impl; [exact Hmid|]. cbn. intros m -> ->. done. }
      rewrite app_nil_r. eapply Forall2_impl; [by apply C6|]. intros f m (H1 & H2 & H3). split_and!; [done|done|].
      change (k_filename (d_links d')) with N. by eapply lookup_weaken.
    + rewrite (filter_none _ _ Hold), (filter_all _ _ Hmid). rewrite <- (checkin_of_fun _ _ _ Hdk Hdk'). exact Hrows.
  - intros m. rewrite Hml, elem_of_app, elem_of_app, list_elem_of_singleton. intros [Hm|Hm].
    + destruct (C7 m Hm). auto.
    + apply (Forall_elem _ _ _ Hmid) in Hm. rewrite Hm. split; [by right|]. by exists dk.
Qed.

Lemma rebuildManifests_collects r :
  runs (λ _, False) (λ s, collected (map fst (collectBlobEntries d0)) s.1) (rebuildManifests d0 r).
Proof.
  unfold rebuildManifests. pose proof (entries_nodup d0) as Hnd.
  apply (each_row_runs _ (λ l s, collected (map fst l) s.1) rebuild_entry); [apply collected_nil|].
  intros l1 e l2 [d rep] Hl HC. cbn [fst] in HC. rewrite map_app. cbn [map].
  assert (e.1 ∉ map fst l1) as Hn.
  { rewrite Hl, map_app in Hnd. apply NoDup_app in Hnd as (_ & Hd & _). intros Hin. apply (Hd _ Hin). by left. }
  assert (present d0 e.1) as Hp by (apply entries_present; rewrite Hl; apply elem_of_app; right; by left).
  assert (d_repo d = d_repo d0) as Hrepo by (destruct (co_only _ _ HC) as (Y & X & N & M & ->); done).
  pose proof (Hread _ (present_row _ _ Hp)) as Hs.
  assert ((∀ dk, ¬ checkin_of d0 e.1 dk) → ∀ rep : Report, runs (λ _, False) (λ s : db * Report, collected (map fst l1 ++ [e.1]) s.1)
    (Ret (E:=db_error) (d, rep))) as Hskip by (intros; cbn; by apply collected_skip).
  unfold rebuild_entry. cbn [fst snd]. rewrite Hrepo.
  destruct (Expand (d_repo d0) e.1) as [c|er| |] eqn:Ex.
  - assert (read_manifest d0 e.1 = wrap_err (λ _, EInvalid c) (Parse (Some c))) as Hrm by (unfold read_manifest; by rewrite Ex).
    rewrite Hrm in Hs. destruct (Parse (Some c)) as [dk|er| |]; cbn in Hs; try done.
    + case_bool_decide as Ht; cbn [negb].
      * assert (checkin_of d0 e.1 dk) as Hdk by done.
        destruct (rebuildCheckin_eq e.1 dk d rep) as (d' & r' & -> & Hd').
        { intros rid. unfold read_manifest. rewrite Hrepo. apply Hread. }
        { by eapply read_parents. }
        { by eapply Hnames. }
        cbn. by eapply collected_checkin.
      * refine (Hskip _ _). intros dk' (_ & Hr & Hty). rewrite Hrm in Hr. cbn in Hr. congruence.
    + refine (Hskip _ _). intros dk' (_ & Hr & Hty). rewrite Hrm in Hr. done.
  - refine (Hskip _ _). intros dk' (_ & Hr & Hty). unfold read_manifest in Hr. by rewrite Ex in Hr.
  - unfold read_manifest in Hs. by rewrite Ex in Hs.
  - unfold read_manifest in Hs. by rewrite Ex in Hs.
Qed.
End collect.
(** *** Tags *)

Lemma propagate_loop_fails fuel t ty o m v n d pq visited i x e :
  propagate_loop fuel t ty o m v n d pq visited i = Fail (x, e) → e = EIterations.
Proof.
  revert d pq visited i. induction fuel as [|fuel IH]; intros d pq visited i; cbn [propagate_loop]; [done|].
  destruct (heap_Pop pq) as [[y pq']|]; [|done]. destruct (_ <? _)%Z; [by intros [= _ <-]|].
  case_bool_decide; apply IH.
Qed.

Lemma ApplyTagWithTx_runs d opts : ao_TagName opts ≠ [] → (0 < ao_TargetRID opts)%Z →
  runs (λ e, e = EIterations) (tag_effect d) (rollback (ApplyTagWithTx d opts)).
Proof.
  intros Hn Ht. pose proof (ApplyTag_effect d opts) as He. pose proof (ApplyTag_safe d opts Hn Ht) as Hs.
  unfold ApplyTag in He, Hs. destruct (ApplyTagWithTx d opts) as [x|[x e]| |] eqn:E; cbn in *; try done.
  unfold ApplyTagWithTx in E. rewrite (bool_decide_false (ao_TagName opts = [])) in E by done.
  replace (_ <=? 0)%Z with false in E by lia. unfold ensureTag in E. rewrite (bool_decide_false (ao_TagName opts = [])) in E by done.
  destruct (_ !! ao_TagName opts); cbn [unchanged wrap_err mbind outcome_bind] in E;
    (destruct (_ || _); [|done]); unfold propagate in E; by eapply propagate_loop_fails.
Qed.

(** What tags need: names, and targets for those of control artifacts. *)
Record rebuildable (dk : Deck) : Prop := {
  rd_files : ∀ f, f ∈ d_F dk → fc_UUID f ≠ [] → fc_Name f ≠ [];
  rd_tags : ∀ tc, tc ∈ d_T dk → tc_Name tc ≠ [] ∧ tc_UUID tc ≠ []
}.

Section tags.
Variable d0 : db.
Hypothesis Hok : repo_ok (d_repo d0).
Hypothesis Hread : readable d0.
Hypothesis Hclean : ∀ rid dk, present d0 rid → read_manifest d0 rid = Ret dk → rebuildable dk.

Lemma effect_grows d : tag_effect d0 d → repo_grows (d_repo d0) (d_repo d).
Proof. intros [(X & Y & T & ->) _]. by apply repo_grows_same. Qed.

Lemma effect_rid d u : tag_effect d0 d → rid_of d u = rid_of d0 u.
Proof. by intros [(X & Y & T & ->) _]. Qed.

(** A loop that applies tags. *)
Lemma tags_run {A} (f : A → db → out db) l d : tag_effect d0 d →
  (∀ x d, x ∈ l → tag_effect d0 d → runs (λ e, e = EIterations) (tag_effect d0) (f x d)) →
  runs (λ e, e = EIterations) (tag_effect d0) (each_row f l d).
Proof.
  intros Hd Hf. apply (each_row_runs _ (λ _, tag_effect d0)); [done|]. intros l1 x l2 d1 Hl H1.
  apply Hf; [rewrite Hl; apply elem_of_app; right; by left|done].
Qed.

Lemma one_tag_runs d opts : tag_effect d0 d → ao_TagName opts ≠ [] → (0 < ao_TargetRID opts)%Z →
  runs (λ e, e = EIterations) (tag_effect d0) (rollback (ApplyTagWithTx d opts)).
Proof. intros Hd Hn Ht. eapply runs_mono; [by apply ApplyTagWithTx_runs|]. intros d2 H2. by etrans. Qed.

Lemma rebuildInlineTags_runs d rid dk : tag_effect d0 d → (0 < rid)%Z → rebuildable dk →
  runs (λ e, e = EIterations) (tag_effect d0) (rebuildInlineTags d rid dk).
Proof.
  intros Hd Hp Hc. apply tags_run; [done|]. intros tc d1 Htc H1. unfold rebuild_inline.
  destruct (negb _); [done|]. destruct (mapDeckTagType _); [|done].
  apply one_tag_runs; [done|by apply (rd_tags _ Hc)|done].
Qed.

Lemma rebuildControlTags_runs d rid dk : tag_effect d0 d → rebuildable dk →
  runs (λ e, e = EIterations) (tag_effect d0) (rebuildControlTags d rid dk).
Proof.
  intros Hd Hc. apply tags_run; [done|]. intros tc d1 Htc H1. unfold rebuild_control.
  case_bool_decide; [done|]. destruct (rd_tags _ Hc tc Htc) as [H2 H3].
  rewrite Exists_named, (effect_rid d1) by done. cbn [mbind outcome_bind].
  destruct (rid_of d0 (tc_UUID tc)) as [r|] eqn:Hr; [|done]. destruct (mapDeckTagType _); [|done].
  apply one_tag_runs; [done|done|]. apply rid_of_uuid_Some in Hr as (row & Hr & _).
  by apply (ok_row _ Hok) in Hr as [? _].
Qed.

Lemma tags_pass_runs type rebuild e d : e ∈ collectBlobEntries d0 → tag_effect d0 d →
  (∀ dk, rebuildable dk → runs (λ e, e = EIterations) (tag_effect d0) (rebuild d e.1 dk)) →
  runs (λ e, e = EIterations) (tag_effect d0) (tags_pass type rebuild e d).
Proof.
  intros He%entries_present Hd Hf. unfold tags_pass.
  assert (read_manifest d e.1 = read_manifest d0 e.1) as Hr.
  { apply (read_grows d0 d Hok (effect_grows d Hd) e.1 He). }
  destruct (try_manifest_safe d e.1) as (found & -> & Hfound); [rewrite Hr; by apply Hread, present_row|].
  cbn [mbind outcome_bind]. destruct found as [dk|]; [|done]. destruct (negb _); [done|]. apply Hf.
  apply (Hclean e.1); [done|]. rewrite <- Hr. by apply Hfound.
Qed.

Lemma rebuildTags_runs : runs (λ e, e = EIterations) (tag_effect d0) (rebuildTags d0).
Proof.
  unfold rebuildTags. cbv zeta. assert (tag_effect d0 d0) as H0 by done.
  apply (runs_bind _ (tag_effect d0)).
  - apply tags_run; [done|]. intros e d He Hd. apply tags_pass_runs; [done|done|]. intros dk Hdk.
    apply rebuildInlineTags_runs; [done| |done]. apply entries_present in He as (row & Hr & _).
    by apply (ok_row _ Hok) in Hr as [? _].
  - intros d1 H1. apply tags_run; [done|]. intros e d He Hd. apply tags_pass_runs; [done|done|]. intros dk Hdk.
    by apply rebuildControlTags_runs.
Qed.
End tags.

(** *** Reading depends on the artifacts alone *)

Lemma walk_loop_ext q q' fuel : t_delta q' = t_delta q → ∀ rid seen chain,
  walk_loop fuel q' rid seen chain = walk_loop fuel q rid seen chain.
Proof. intros Hd. induction fuel as [|fuel IH]; intros rid seen chain; cbn [walk_loop]; [done|]. rewrite Hd. by repeat case_match. Qed.

Lemma apply_chain_ext q q' l : t_blob q' = t_blob q → ∀ c, apply_chain q' c l = apply_chain q c l.
Proof.
  intros Hb. induction l as [|rid l IH]; intros c; cbn [apply_chain]; [done|]. rewrite (Load_ext q q') by done.
  destruct (Load q rid); cbn [mbind outcome_bind]; [|done..]. destruct (wrap_err _ _); cbn [mbind outcome_bind]; [apply IH|done..].
Qed.

Lemma Expand_ext q q' rid : t_blob q' = t_blob q → t_delta q' = t_delta q → Expand q' rid = Expand q rid.
Proof.
  intros Hb Hd. unfold Expand, walkDeltaChain. rewrite Hd, (walk_loop_ext q q') by done.
  destruct (rid <=? 0)%Z; [done|]. destruct (walk_loop _ _ _ _ _) as [l| | |]; cbn [mbind outcome_bind]; [|done..].
  destruct (rev l) as [|root deltas]; [done|]. rewrite (Load_ext q q') by done.
  destruct (Load q root); cbn [mbind outcome_bind]; [|done..]. by apply apply_chain_ext.
Qed.

Lemma read_manifest_ext d d' rid : t_blob (d_repo d') = t_blob (d_repo d) → t_delta (d_repo d') = t_delta (d_repo d) →
  read_manifest d' rid = read_manifest d rid.
Proof. intros Hb Hd. unfold read_manifest. by rewrite (Expand_ext (d_repo d) (d_repo d')). Qed.

(** *** The tags of the manifests *)

(** What [ApplyTag] is called with for a T card, for its own check-in and for
    another artifact. *)
Definition inline_tag (rid : Z) (dk : Deck) (tc : TagCard) : option ApplyOpts :=
  if bool_decide (tc_UUID tc = self) then
    (λ ty, MkApplyOpts rid rid (tc_Name tc) ty (tc_Value tc) (TimeToJulian (d_D dk))) <$> mapDeckTagType (tc_Type tc)
  else None.

Definition control_tag (d : db) (rid : Z) (dk : Deck) (tc : TagCard) : option ApplyOpts :=
  if bool_decide (tc_UUID tc = self) then None else
  target ← rid_of d (tc_UUID tc);
  (λ ty, MkApplyOpts target rid (tc_Name tc) ty (tc_Value tc) (TimeToJulian (d_D dk))) <$> mapDeckTagType (tc_Type tc).

Definition manifest_tags (d : db) (type : ArtifactType) (tag : Z → Deck → TagCard → option ApplyOpts)
    (e : Z * bytes) : list ApplyOpts :=
  match read_manifest d e.1 with
  | Ret dk => if bool_decide (d_Type dk = type) then omap (tag e.1 dk) (d_T dk) else []
  | _ => []
  end.

(** All tags that the manifests set: first those of check-ins on themselves, then
    those of control artifacts. *)
Definition tags_in (d : db) : list ApplyOpts :=
  concat (map (manifest_tags d Checkin inline_tag) (collectBlobEntries d)) ++
  concat (map (manifest_tags d Control (control_tag d)) (collectBlobEntries d)).

Definition apply_tags (l : list ApplyOpts) : db → out db := each_row (λ o d, rollback (ApplyTagWithTx d o)) l.

Lemma each_row_app {A S} (f : A → S → out S) l1 l2 s : each_row f (l1 ++ l2) s = s ← each_row f l1 s; each_row f l2 s.
Proof.
  revert s. induction l1 as [|x l1 IH]; intros s; [done|]. cbn [each_row app].
  destruct (f x s); cbn [mbind outcome_bind]; [apply IH|done..].
Qed.

Lemma each_row_one {A S} (f : A → S → out S) x s : each_row f [x] s = f x s.
Proof. cbn [each_row]. by destruct (f x s). Qed.

Definition same_blobs (d d' : db) : Prop := t_blob (d_repo d') = t_blob (d_repo d) ∧ t_delta (d_repo d') = t_delta (d_repo d).

Lemma effect_blobs d d' : tag_effect d d' → same_blobs d d'.
Proof. by intros [(X & Y & T & ->) _]. Qed.

Lemma apply_tag_blobs d0 o d d' : same_blobs d0 d → rollback (ApplyTagWithTx d o) = Ret d' → same_blobs d0 d'.
Proof.
  intros [H1 H2] H. pose proof (ApplyTag_effect d o) as He. unfold ApplyTag in He. apply wrap_err_ret in H. rewrite H in He.
  cbn in He. apply effect_blobs in He as [E1 E2]. split; congruence.
Qed.

Section tag_list.
Variable d0 : db.
Hypothesis Hread : readable d0.
Hypothesis Hclean : ∀ rid dk, present d0 rid → read_manifest d0 rid = Ret dk → rebuildable dk.

(** A loop that applies the tags [g] of each row applies those of all rows. *)
Lemma each_row_tags {A} (f : A → db → out db) (g : A → list ApplyOpts) l :
  (∀ x d, x ∈ l → same_blobs d0 d → f x d = apply_tags (g x) d) →
  ∀ d, same_blobs d0 d → each_row f l d = apply_tags (concat (map g l)) d.
Proof.
  induction l as [|x l IH]; intros Hf d Hd; cbn [each_row map concat]; [done|].
  unfold apply_tags. rewrite each_row_app, (Hf x d) by (done || by left). unfold apply_tags.
  destruct (each_row _ (g x) d) as [d1|e| |] eqn:E; cbn [mbind outcome_bind]; [|done..].
  apply IH; [intros; apply Hf; [by right|done]|]. clear -E Hd. revert d Hd E.
  induction (g x) as [|o os IHo]; intros d Hd; cbn [each_row]; [by intros [= <-]|].
  intros (d2 & H2 & H)%bind_ret_inv. eapply IHo; [|exact H]. by eapply apply_tag_blobs.
Qed.

Lemma omap_concat {A B} (f : A → option B) l : omap f l = concat (map (λ x, option_list (f x)) l).
Proof. induction l as [|x l IH]; [done|]. cbn. destruct (f x); cbn; by rewrite IH. Qed.

Lemma inline_tags_eq rid dk d : same_blobs d0 d → rebuildInlineTags d rid dk = apply_tags (omap (inline_tag rid dk) (d_T dk)) d.
Proof.
  intros Hd. unfold rebuildInlineTags. rewrite omap_concat. apply each_row_tags; [|done]. intros tc d1 _ _.
  unfold rebuild_inline, inline_tag. case_bool_decide; cbn [negb]; [|done].
  destruct (mapDeckTagType _); cbn [fmap option_fmap option_map option_list]; [|done]. exact (eq_sym (each_row_one (λ o d, rollback (ApplyTagWithTx d o)) _ d1)).
Qed.

Lemma control_tags_eq rid dk d : same_blobs d0 d → rebuildable dk →
  rebuildControlTags d rid dk = apply_tags (omap (control_tag d0 rid dk) (d_T dk)) d.
Proof.
  intros Hd Hdk. unfold rebuildControlTags. rewrite omap_concat. apply each_row_tags; [|done]. intros tc d1 Htc [Hb _].
  unfold rebuild_control, control_tag. case_bool_decide; [done|].
  rewrite Exists_named by apply (rd_tags _ Hdk tc Htc). cbn [mbind outcome_bind option_bind].
  assert (rid_of d1 (tc_UUID tc) = rid_of d0 (tc_UUID tc)) as ->.
  { unfold rid_of, rid_of_uuid. by rewrite Hb. }
  destruct (rid_of d0 (tc_UUID tc)) as [r|]; cbn [mbind option_bind]; [|done].
  destruct (mapDeckTagType _); cbn [fmap option_fmap option_map option_list]; [|done]. exact (eq_sym (each_row_one (λ o d, rollback (ApplyTagWithTx d o)) _ d1)).
Qed.

Lemma tags_pass_eq type rebuild tag :
  (∀ rid dk d, same_blobs d0 d → rebuildable dk → rebuild d rid dk = apply_tags (omap (tag rid dk) (d_T dk)) d) →
  ∀ d, same_blobs d0 d → each_row (tags_pass type rebuild) (collectBlobEntries d0) d
    = apply_tags (concat (map (manifest_tags d0 type tag) (collectBlobEntries d0))) d.
Proof.
  intros Hf. apply each_row_tags. intros e d He%entries_present Hd. unfold tags_pass, manifest_tags, try_manifest.
  rewrite (read_manifest_ext d0 d) by apply Hd. pose proof (Hread e.1 (present_row _ _ He)) as Hs.
  destruct (read_manifest d0 e.1) as [dk|er| |] eqn:Hr; cbn [mbind outcome_bind]; try done.
  case_bool_decide; cbn [negb]; [|done]. apply Hf; [done|by apply (Hclean e.1)].
Qed.

Lemma rebuildTags_eq : rebuildTags d0 = apply_tags (tags_in d0) d0.
Proof.
  unfold rebuildTags, tags_in, apply_tags. cbv zeta. rewrite each_row_app.
  rewrite (tags_pass_eq Checkin rebuildInlineTags inline_tag) by (done || (intros; by apply inline_tags_eq)).
  unfold apply_tags. destruct (each_row _ (concat _) d0) as [d1|e| |] eqn:E; cbn [mbind outcome_bind]; [|done..].
  apply (tags_pass_eq Control rebuildControlTags (control_tag d0)); [by intros; apply control_tags_eq|].
  assert (∀ l d, same_blobs d0 d → each_row (λ o d, rollback (ApplyTagWithTx d o)) l d = Ret d1 → same_blobs d0 d1) as Hk; [|by eapply Hk].
  clear. intros l. induction l as [|o l IH]; intros d Hd; cbn [each_row]; [by intros [= <-]|].
  intros (d2 & H2 & H)%bind_ret_inv. eapply IH; [|exact H]. by eapply apply_tag_blobs.
Qed.
End tag_list.

Lemma tags_in_ext d d' : same_blobs d d' → tags_in d' = tags_in d.
Proof.
  intros [Hb Hd]. unfold tags_in, collectBlobEntries. rewrite Hb. f_equal; f_equal; apply map_ext; intros e;
    unfold manifest_tags; rewrite (read_manifest_ext d d') by done; [done|].
  assert (∀ u, rid_of d' u = rid_of d u) as Hr by (intros u; unfold rid_of, rid_of_uuid; by rewrite Hb).
  destruct (read_manifest d e.1) as [dk|er| |]; [|done..]. case_bool_decide; [|done].
  induction (d_T dk) as [|tc l IH]; [done|]. cbn. rewrite IH. unfold control_tag. by rewrite Hr.
Qed.

(** *** The whole rebuild *)

(** What [Rebuild] leaves: the rows of the check-in manifests, of all of them and
    of nothing else. The tags are those that applying the tags of all manifests
    gives, from no tag on, with the events and parents of the check-ins. *)
Record rebuilt (d d' : db) : Prop := {
  rb_repo : ∃ X, d_repo d' = with_unclustered (λ _, d_unsent d') (with_tagxref (λ _, X) (d_repo d));
  rb_rest : d_config d' = d_config d ∧ d_user d' = d_user d ∧ d_uv d' = d_uv d ∧ d_schema d' = d_schema d ∧
    d_x d' = d_x d ∧ k_attachment (d_links d') = k_attachment (d_links d) ∧
    k_forumpost (d_links d') = k_forumpost (d_links d) ∧ k_cherrypick (d_links d') = k_cherrypick (d_links d);
  rb_events : ∀ o x, uncoloured <$> k_event (d_links d') !! o = Some x ↔
    ∃ dk, checkin_of d o dk ∧ x = uncoloured (checkin_event dk);
  rb_plinks : ∀ p c, is_Some (k_plink (d_links d') !! (p, c)) ↔
    ∃ dk u, checkin_of d c dk ∧ u ∈ d_P dk ∧ rid_of d u = Some p;
  rb_primary : ∀ p c v dk, k_plink (d_links d') !! (p, c) = Some v → checkin_of d c dk →
    pk_isprim v = true ↔ head (d_P dk) ≫= rid_of d = Some p;
  rb_names : names_unique (k_filename (d_links d'));
  rb_files : ∀ o dk, checkin_of d o dk → Forall2 (file_row d' o) (changed_files d dk) (mlinks_of d' o);
  rb_files_only : ∀ m, m ∈ k_mlink (d_links d') → ∃ dk, checkin_of d (ml_mid m) dk;
  rb_tags : ∃ d1 d2, apply_tags (tags_in d) d1 = Ret d2 ∧
    (t_tagxref (d_repo d1) = ∅ ∧ k_tag (d_links d1) = k_tag (d_links d) ∧ k_plink (d_links d1) = k_plink (d_links d') ∧
      ∀ o e, k_event (d_links d1) !! o = Some e ↔ ∃ dk, checkin_of d o dk ∧ e = checkin_event dk) ∧
    t_tagxref (d_repo d') = t_tagxref (d_repo d2) ∧ k_tag (d_links d') = k_tag (d_links d2) ∧
    k_event (d_links d') = k_event (d_links d2);
  rb_leaves : ∀ r, r ∈ d_leaf d' ↔ ci d' r ∧ ∀ c, k_plink (d_links d') !! (r, c) = None;
  rb_unsent : ∀ r, r ∈ d_unsent d' ↔ present d r
}.

Definition all_rebuildable (d : db) : Prop := ∀ rid dk, present d rid → read_manifest d rid = Ret dk → rebuildable dk.

(** The tags and the last tables do not touch what was collected. *)
Lemma rebuilt_collected d d1 d2 :
  let d0 := dropDerivedTables d in
  (∀ o, read_manifest d0 o = read_manifest d o) → (∀ dk, parent_files d0 dk = parent_files d dk) →
  collected d0 (map fst (collectBlobEntries d0)) d1 → tag_effect d1 d2 → apply_tags (tags_in d) d1 = Ret d2 →
  rebuilt d (rebuildBookkeeping (rebuildLeaves d2)).
Proof.
  intros d0 Hrd Hpf [(Y & X & N & M & ->) C2 C3 C4 C5 C6 C7] [(X2 & Y2 & T2 & ->) He] Htags.
  assert (∀ o dk, checkin_of d0 o dk ↔ checkin_of d o dk) as Hco by (intros o dk; unfold checkin_of; by rewrite Hrd).
  assert (∀ o, o ∈ map fst (collectBlobEntries d0) ↔ present d o) as Hent.
  { intros o. rewrite list_elem_of_fmap. split.
    - intros (e & -> & H). by apply entries_present in H.
    - intros H. destruct (present_entry d0 o) as [uuid H']; [done|]. by exists (o, uuid). }
  set (d1 := on_mlink _ _) in *. set (d2 := on_tag _ _) in *. set (d' := rebuildBookkeeping _).
  assert (k_event (d_links d') = Y2) as HY by done.
  assert (k_plink (d_links d') = X) as HX by done.
  change (k_plink (d_links d1)) with X in *. change (k_mlink (d_links d1)) with M in *.
  change (k_event (d_links d2)) with Y2 in *.
  assert (∀ o x, uncoloured <$> Y2 !! o = Some x ↔ ∃ dk, checkin_of d o dk ∧ x = uncoloured (checkin_event dk)) as Hev.
  { intros o x. rewrite He. split.
    - intros (e & Ho & ->)%fmap_Some. apply C2 in Ho as (_ & dk & Hdk%Hco & ->). by exists dk.
    - intros (dk & Hdk & ->). apply fmap_Some. exists (checkin_event dk). split; [|done]. apply C2.
      split; [apply Hent, Hdk|]. exists dk. by rewrite Hco. }
  split.
  - exists X2. unfold d', rebuildBookkeeping, rebuildLeaves. cbn. reflexivity.
  - done.
  - exact Hev.
  - intros p c. rewrite HX, C3, Hent. setoid_rewrite Hco. split; [by intros [_ H]|]. intros (dk & u & Hdk & H).
    split; [apply Hdk|]. by exists dk, u.
  - intros p c v dk Hv Hdk%Hco. by apply (C4 p c).
  - exact C5.
  - intros o dk Hdk. assert (changed_files d dk = changed_files d0 dk) as ->.
    { unfold changed_files. by rewrite Hpf. }
    apply C6; [apply Hent, Hdk|by apply Hco].
  - intros m Hm. destruct (C7 m Hm) as (_ & dk & Hdk%Hco). by exists dk.
  - exists d1, d2. split; [exact Htags|]. split; [|done]. split_and!; [done..|]. intros o e.
    rewrite C2, Hent. setoid_rewrite Hco. split; [by intros [_ H]|].
    intros (dk & Hdk & ->). split; [apply Hdk|by exists dk].
  - intros r. unfold d', rebuildBookkeeping, rebuildLeaves. cbn [d_leaf on_unsent on_repo on_leaf].
    rewrite elem_of_union, expected_elem. unfold is_leaf. rewrite listed_ci. cbn. split; [|by right].
    intros [?%elem_of_empty|H]; done.
  - intros r. unfold d', rebuildBookkeeping. cbn [d_unsent on_unsent]. rewrite elem_of_union, elem_of_list_to_set.
    rewrite <- Hent. cbn. split; [|by right]. intros [?%elem_of_empty|H]; done.
Qed.

Lemma Rebuild_rebuilt d : repo_ok (d_repo d) → readable d → all_rebuildable d →
  runs (λ e, e = EIterations) (λ s, rebuilt d s.1) (Rebuild d).
Proof.
  intros Hok Hread Hclean. unfold Rebuild.
  destruct (checkBlobs_ok d Hread no_report eq_refl) as (r1 & -> & _). cbn [mbind outcome_bind].
  set (d0 := dropDerivedTables d).
  assert (∀ o, read_manifest d0 o = read_manifest d o) as Hrd by (intros; by apply read_manifest_ext).
  assert (repo_ok (d_repo d0)) as Hok0 by (by apply (repo_ok_ext (d_repo d))).
  assert (readable d0) as Hread0 by (intros o; rewrite Hrd; apply Hread).
  assert (all_rebuildable d0) as Hclean0 by (intros o dk Hp; rewrite Hrd; by apply Hclean).
  assert (∀ o dk, checkin_of d0 o dk ↔ checkin_of d o dk) as Hco by (intros o dk; unfold checkin_of; by rewrite Hrd).
  assert (∀ dk, parent_files d0 dk = parent_files d dk) as Hpf.
  { intros dk. unfold parent_files. change (rid_of d0) with (rid_of d).
    destruct (head (d_P dk) ≫= rid_of d); [by rewrite Hrd|done]. }
  apply (runs_bind _ (λ s, collected d0 (map fst (collectBlobEntries d0)) s.1)).
  { eapply (runs_impl (λ _, False)); [done|apply rebuildManifests_collects; [done| |done]].
    intros o dk (Hp & Hr & _). apply (rd_files _ (Hclean0 o dk Hp Hr)). }
  intros [d1 rep] HC. cbn [fst] in HC. apply (runs_bind _ (λ d2, tag_effect d1 d2 ∧ apply_tags (tags_in d) d1 = Ret d2)).
  { destruct (co_only _ _ _ HC) as (Y & X & N & M & Hd1).
    assert (∀ o, read_manifest d1 o = read_manifest d0 o) as Hrd1 by (intros; rewrite Hd1; by apply read_manifest_ext).
    assert (readable d1) as Hread1 by (intros o; rewrite Hrd1; rewrite Hd1; apply Hread0).
    assert (all_rebuildable d1) as Hclean1 by (intros o dk; rewrite Hrd1; unfold present; rewrite Hd1; apply Hclean0).
    assert (same_blobs d d1) as Hsb by (by rewrite Hd1).
    rewrite <- (tags_in_ext d d1 Hsb), <- (rebuildTags_eq d1 Hread1 Hclean1).
    assert (runs (λ e, e = EIterations) (tag_effect d1) (rebuildTags d1)) as Hr by (apply rebuildTags_runs; [by rewrite Hd1|done..]).
    by destruct (rebuildTags d1). }
  intros d2 [H2 H3]. by eapply rebuilt_collected.
Qed.
(** *** Rebuilding again

    A run on a database whose tags [T] are those that the run ends with does the
    same, and what is not derived stays. *)

Section again.
Context {S B : Type} (base : S → B) (tags : S → gmap bytes Z) (W : S → S) (T : gmap bytes Z).

Definition follows (f : S → out S) : Prop := ∀ s s', f s = Ret s' →
  base s' = base s ∧ tags s ⊆ tags s' ∧ (tags s' ⊆ T → f (W s) = Ret (W s')).

Lemma follows_ret : follows Ret.
Proof. intros s s' [= <-]. done. Qed.

Lemma follows_bind f g : follows f → follows g → follows (λ s, f s ≫= g).
Proof.
  intros Hf Hg s s' (s1 & H1 & H2)%bind_ret_inv. destruct (Hf _ _ H1) as (E1 & A1 & B1).
  destruct (Hg _ _ H2) as (E2 & A2 & B2). split; [congruence|]. split; [by etrans|]. intros HT. rewrite B1 by (by etrans). cbn [mbind outcome_bind]. by apply B2.
Qed.

Lemma follows_each {A} (f : A → S → out S) l : (∀ x, x ∈ l → follows (f x)) → follows (each_row f l).
Proof.
  induction l as [|x l IH]; intros Hf; [apply follows_ret|]. cbn [each_row].
  apply (follows_bind (f x) (each_row f l)); [apply Hf; by left|]. apply IH. intros; apply Hf; by right.
Qed.
End again.

Definition with_tags (T : gmap bytes Z) : db → db := on_tag (λ _, T).
Definition d_tags (d : db) : gmap bytes Z := k_tag (d_links d).

(** What [Rebuild] does not derive, but for the tag names. *)
Definition given (d : db) : db := with_tags ∅ (dropDerivedTables d).

Lemma with_tags_id d : with_tags (d_tags d) d = d.
Proof. by destruct d as [? ? ? ? ? ? ? ? []]. Qed.

Lemma foldl_mark_tags T t ty o m v n kids : ∀ d,
  foldl (λ d c, mark t ty o m v n (ch_cid c) d) (with_tags T d) kids
  = with_tags T (foldl (λ d c, mark t ty o m v n (ch_cid c) d) d kids).
Proof.
  induction kids as [|k kids IH]; intros d; [done|]. cbn [foldl]. rewrite <- IH. f_equal. unfold mark.
  destruct (_ =? _)%Z; by destruct (bool_decide _).
Qed.

Lemma propagate_tags T fuel t ty o m v n pq visited i d d' :
  propagate_loop fuel t ty o m v n d pq visited i = Ret d' →
  given d' = given d ∧ d_tags d' = d_tags d ∧
  propagate_loop fuel t ty o m v n (with_tags T d) pq visited i = Ret (with_tags T d').
Proof.
  revert d pq visited i. induction fuel as [|fuel IH]; intros d pq visited i; cbn [propagate_loop]; [done|].
  destruct (heap_Pop pq) as [[x pq']|]; [|by intros [= <-]]. destruct (_ <? _)%Z; [done|].
  case_bool_decide; [apply IH|]. intros H2%IH.
  change (children (with_tags T d) t ty m (qi_rid x)) with (children d t ty m (qi_rid x)).
  rewrite foldl_mark_tags. destruct H2 as (H1 & H2 & H3). rewrite H1, H2.
  assert (∀ kids d, given (foldl (λ d c, mark t ty o m v n (ch_cid c) d) d kids) = given d ∧
    d_tags (foldl (λ d c, mark t ty o m v n (ch_cid c) d) d kids) = d_tags d) as Hf; [|split_and!; [apply Hf..|exact H3]].
  clear. intros kids. induction kids as [|k kids IHk]; intros d; [done|]. cbn [foldl].
  destruct (IHk (mark t ty o m v n (ch_cid k) d)) as [-> ->].
  unfold mark. destruct (_ =? _)%Z; by destruct (bool_decide _).
Qed.

(** The row of a tag, and what it does to the descendants. *)
Definition put_tag (opts : ApplyOpts) (tagid : Z) (d : db) : db :=
  let d := on_tagxref <[(tagid, ao_TargetRID opts) :=
             MkTagRow (ao_TagType opts) (ao_SrcRID opts) (ao_TargetRID opts) (Some (ao_Value opts))
               (ao_MTime opts)]> d in
  if bool_decide (ao_TagName opts = bgcolor) && (ao_TagType opts =? TagPropagating)%Z
  then set_bgcolor (Some (ao_Value opts)) (ao_TargetRID opts) d else d.
Definition spread (opts : ApplyOpts) (tagid : Z) (d : db) : kept db :=
  if (ao_TagType opts =? TagPropagating)%Z || (ao_TagType opts =? TagCancel)%Z then
    propagate d tagid (ao_TagType opts) (ao_TargetRID opts) (ao_MTime opts) (ao_Value opts)
      (ao_TagName opts) (ao_TargetRID opts)
  else Ret d.

Lemma ApplyTagWithTx_eq d opts : ApplyTagWithTx d opts =
  if bool_decide (ao_TagName opts = []) then Panic else
  if (ao_TargetRID opts <=? 0)%Z then Panic else
  '(d, tagid) ← unchanged d (ensureTag d (ao_TagName opts)); spread opts tagid (put_tag opts tagid d).
Proof. reflexivity. Qed.

Lemma put_tag_tags T opts tagid d :
  given (put_tag opts tagid d) = given d ∧ d_tags (put_tag opts tagid d) = d_tags d ∧ put_tag opts tagid (with_tags T d) = with_tags T (put_tag opts tagid d).
Proof. unfold put_tag. cbv zeta. by destruct (_ && _). Qed.

Lemma ensureTag_tags T d name d1 tagid : ensureTag d name = Ret (d1, tagid) →
  given d1 = given d ∧ d_tags d ⊆ d_tags d1 ∧ (d_tags d1 ⊆ T → ensureTag (with_tags T d) name = Ret (with_tags T d1, tagid)).
Proof.
  unfold ensureTag. destruct (bool_decide _); [done|].
  change (k_tag (d_links (with_tags T d))) with T. change (k_tag (d_links d)) with (d_tags d).
  destruct (d_tags d !! name) as [i|] eqn:E; intros [= <- <-].
  - split; [done|]. split; [done|]. intros HT. by rewrite (lookup_weaken _ _ _ _ E HT).
  - split; [done|]. split; [by apply insert_subseteq|]. intros HT.
    assert (T !! name = Some (next_rowid (map snd (map_to_list (d_tags d))))) as ->; [|done].
    eapply lookup_weaken; [apply lookup_insert_eq|exact HT].
Qed.

Lemma ApplyTagWithTx_follows T opts : follows given d_tags (with_tags T) T (λ d, rollback (ApplyTagWithTx d opts)).
Proof.
  intros d d' H%wrap_err_ret. rewrite ApplyTagWithTx_eq in *. destruct (bool_decide _); [done|].
  destruct (_ <=? 0)%Z; [done|]. apply bind_ret_inv in H as ([d1 tagid] & H1 & H). apply wrap_err_ret in H1.
  apply (ensureTag_tags T) in H1 as (A0 & A & B). destruct (put_tag_tags T opts tagid d1) as (E0 & E1 & E2).
  assert (given d' = given d1 ∧ d_tags d' = d_tags d1 ∧ spread opts tagid (with_tags T (put_tag opts tagid d1)) = Ret (with_tags T d')) as (Hg & Ht & HW).
  { rewrite <- E0, <- E1. unfold spread in *. destruct (_ || _); [by apply propagate_tags|]. by injection H as <-. }
  rewrite Ht. split; [congruence|]. split; [done|]. intros HT. rewrite B by done. cbn [unchanged wrap_err mbind outcome_bind].
  unfold rollback. by rewrite E2, HW.
Qed.

Lemma rebuildTags_follows T : follows given d_tags (with_tags T) T rebuildTags.
Proof.
  assert (∀ type rebuild e, (∀ rid dk, follows given d_tags (with_tags T) T (λ d, rebuild d rid dk)) →
    follows given d_tags (with_tags T) T (tags_pass type rebuild e)) as Hpass.
  { intros type rebuild e Hr d d' H. unfold tags_pass in *.
    change (try_manifest (with_tags T d) e.1) with (try_manifest d e.1).
    apply bind_ret_inv in H as (found & Hf & H). rewrite Hf. cbn [mbind outcome_bind].
    destruct found as [dk|]; [|by injection H as <-]. destruct (negb _); [by injection H as <-|]. by apply Hr. }
  intros d d' H. unfold rebuildTags in *. cbv zeta in *.
  change (collectBlobEntries (with_tags T d)) with (collectBlobEntries d).
  revert H. apply (follows_bind given d_tags (with_tags T) T (each_row (tags_pass Checkin rebuildInlineTags) (collectBlobEntries d))
    (each_row (tags_pass Control rebuildControlTags) (collectBlobEntries d))); apply follows_each; intros e _; apply Hpass;
    intros rid dk; apply follows_each; intros tc _.
  - unfold rebuild_inline. destruct (negb _); [apply follows_ret|]. destruct (mapDeckTagType _); [|apply follows_ret].
    apply ApplyTagWithTx_follows.
  - intros x x' H. unfold rebuild_control in *. destruct (bool_decide _); [by injection H as <-|].
    change (Blob.Exists (d_repo (with_tags T x)) (tc_UUID tc)) with (Blob.Exists (d_repo x) (tc_UUID tc)).
    apply bind_ret_inv in H as (ex & He & H). rewrite He. cbn [mbind outcome_bind]. destruct ex; [|by injection H as <-].
    destruct (mapDeckTagType _); [|by injection H as <-]. revert H. apply ApplyTagWithTx_follows.
Qed.

Lemma insertPlinks_follows T i P rid mtime d :
  given (insertPlinks i P rid mtime None d) = given d ∧ d_tags (insertPlinks i P rid mtime None d) = d_tags d ∧
  insertPlinks i P rid mtime None (with_tags T d) = with_tags T (insertPlinks i P rid mtime None d).
Proof.
  revert i d. induction P as [|u P IH]; intros i d; [done|]. cbn [insertPlinks].
  change (rid_of (with_tags T d) u) with (rid_of d u). destruct (rid_of d u) as [p|]; [|apply IH].
  destruct (IH (S i) (on_plink (insert_new (p, rid) (MkPlinkVal (i =? 0) mtime None)) d)) as (-> & -> & <-). done.
Qed.

Definition W_report (T : gmap bytes Z) (s : db * Report) : db * Report := (with_tags T s.1, s.2).

Lemma rebuildPlinks_follows T P rid mtime : ∀ i,
  follows (λ s, given s.1) (λ s, d_tags s.1) (W_report T) T (rebuildPlinks i P rid mtime).
Proof.
  induction P as [|u P IH]; intros i; [apply follows_ret|]. intros [d r] s'. unfold W_report. cbn [rebuildPlinks fst snd].
  change (Blob.Exists (d_repo (with_tags T d)) u) with (Blob.Exists (d_repo d) u).
  intros H. apply bind_ret_inv in H as (ex & -> & H). cbn [mbind outcome_bind]. apply IH in H as (E & A & B).
  destruct ex; cbn [fst snd] in *; done.
Qed.

Lemma rebuildMlinks_follows T rid dk : follows given d_tags (with_tags T) T (λ d, rebuildMlinks d rid dk).
Proof.
  intros d d' H. unfold rebuildMlinks in *. change (buildParentFileMap (with_tags T d) dk) with (buildParentFileMap d dk).
  apply bind_ret_inv in H as (pf & Hpf & H). rewrite Hpf. cbn [mbind outcome_bind]. revert H.
  apply follows_each. clear. intros f _ d d' H. unfold rebuild_file in *. destruct (is_nil _); [by injection H as <-|].
  destruct (bool_decide _); [by injection H as <-|]. apply bind_ret_inv in H as ([d1 fnid] & H1 & H).
  assert (given d1 = given d ∧ d_tags d1 = d_tags d ∧
    rebuildEnsureFilename (with_tags T d) (fc_Name f) = Ret (with_tags T d1, fnid)) as (E1 & E2 & E3).
  { unfold rebuildEnsureFilename in *. destruct (bool_decide _); [done|].
    change (k_filename (d_links (with_tags T d))) with (k_filename (d_links d)).
    by destruct (_ !! fc_Name f); injection H1 as <- <-. }
  rewrite E3. cbn [mbind outcome_bind].
  change (Blob.Exists (d_repo (with_tags T d1)) (fc_UUID f)) with (Blob.Exists (d_repo d1) (fc_UUID f)).
  apply bind_ret_inv in H as (ex & Hex & H). rewrite Hex. cbn [mbind outcome_bind]. injection H as <-.
  rewrite <- E1, <- E2. by destruct ex.
Qed.

Lemma rebuildManifests_follows T r : ∀ d d' r', rebuildManifests d r = Ret (d', r') →
  given d' = given d ∧ d_tags d ⊆ d_tags d' ∧ (d_tags d' ⊆ T → rebuildManifests (with_tags T d) r = Ret (with_tags T d', r')).
Proof.
  intros d d' r' H. unfold rebuildManifests in *. change (collectBlobEntries (with_tags T d)) with (collectBlobEntries d).
  revert H. generalize (collectBlobEntries d) as l. intros l H.
  refine (follows_each (λ s, given s.1) (λ s, d_tags s.1) (W_report T) T rebuild_entry l _ (d, r) (d', r') H).
  clear. intros e _ [d r] [d' r'] H. unfold rebuild_entry, W_report in *. cbn [fst snd] in *.
  change (Expand (d_repo (with_tags T d)) e.1) with (Expand (d_repo d) e.1).
  destruct (Expand (d_repo d) e.1) as [c|er| |]; [|by injection H as <- <-|done..].
  destruct (Parse (Some c)) as [dk|er| |]; [|by injection H as <- <-|done..].
  destruct (negb _); [by injection H as <- <-|]. unfold rebuildCheckin in *. cbn [fst snd] in *.
  apply bind_ret_inv in H as ([d1 r1] & H1 & H). apply bind_ret_inv in H as (d2 & H2 & H). injection H as <- <-.
  apply (rebuildPlinks_follows T) in H1 as (E1 & A1 & B1). apply (rebuildMlinks_follows T) in H2 as (E2 & A2 & B2).
  cbn [fst snd] in *. split; [by rewrite E2, E1|]. split; [by etrans|]. intros HT.
  unfold W_report in B1. cbn [fst snd] in B1.
  change (on_event ?f (with_tags T d)) with (with_tags T (on_event f d)).
  rewrite B1 by (by etrans). cbn [mbind outcome_bind]. by rewrite B2.
Qed.

Lemma each_row_ext {A S} (f g : A → S → out S) l : (∀ x s, f x s = g x s) → ∀ s, each_row f l s = each_row g l s.
Proof.
  intros H. induction l as [|x l IH]; intros s; cbn [each_row]; [done|]. rewrite H.
  destruct (g x s); cbn [mbind outcome_bind]; [apply IH|done..].
Qed.

Lemma Rebuild_same d d' r : Rebuild d = Ret (d', r) → Rebuild d' = Ret (d', r).
Proof.
  unfold Rebuild. intros H. apply bind_ret_inv in H as (r1 & H1 & H). apply bind_ret_inv in H as ([d1 r2] & H2 & H).
  apply bind_ret_inv in H as (d2 & H3 & H). injection H as <- <-. set (d' := rebuildBookkeeping (rebuildLeaves d2)).
  set (T := d_tags d2).
  destruct (rebuildManifests_follows T _ _ _ _ H2) as (E2 & A2 & B2). destruct (rebuildTags_follows T _ _ H3) as (E3 & A3 & B3).
  assert (given d' = given (dropDerivedTables d)) as Hg by (rewrite <- E2, <- E3; reflexivity).
  assert (dropDerivedTables d' = with_tags T (dropDerivedTables d)) as Hdrop.
  { transitivity (with_tags T (given d')); [|by rewrite Hg]. rewrite <- (with_tags_id (dropDerivedTables d')). reflexivity. }
  assert (t_blob (d_repo d') = t_blob (d_repo d) ∧ t_delta (d_repo d') = t_delta (d_repo d)) as [Hb Hd].
  { split.
    - exact (f_equal (λ x, t_blob (d_repo x)) Hg).
    - exact (f_equal (λ x, t_delta (d_repo x)) Hg). }
  assert (checkBlobs d' no_report = Ret r1) as ->.
  { rewrite <- H1. unfold checkBlobs, collectBlobEntries. rewrite Hb. f_equal. apply each_row_ext.
    intros e s. unfold check_blob. by rewrite (Expand_ext (d_repo d) (d_repo d')). }
  cbn [mbind outcome_bind]. rewrite Hdrop, B2 by done. cbn [mbind outcome_bind]. rewrite B3 by done.
  cbn [mbind outcome_bind]. unfold T. by rewrite with_tags_id.
Qed.
(** *** After a rebuild *)

Lemma repo_healthy q : repo_ok q →
  (∀ rid row, t_blob q !! rid = Some row → (0 ≤ b_size row)%Z → ∃ c, expands q rid c ∧ hash_of (b_uuid row) c = b_uuid row) ∧
  ∀ rid src, t_delta q !! rid = Some src → is_Some (t_blob q !! rid) ∧ is_Some (t_blob q !! src).
Proof.
  intros Hok. split.
  - intros rid row Hr Hs. apply (ok_content _ Hok rid row Hr). lia.
  - intros rid src Hd. destruct (ok_delta _ Hok _ _ Hd) as (row & Hr & Hs). split; [by eexists|].
    destruct (ok_content _ Hok rid row Hr Hs) as (c & He & _).
    inversion He as [? ? Hn _|? src' ? ? ? Hd' He' _ _]; [congruence|]. assert (src' = src) as -> by congruence.
    inversion He' as [? ? _ HL|? ? ? ? ? _ _ HL _]; by eapply Load_row.
Qed.

Definition phantoms_known (d : db) : Prop := ∀ rid, rid ∈ t_phantom (d_repo d) → is_Some (t_blob (d_repo d) !! rid).

Lemma rebuilt_healthy d d' : repo_ok (d_repo d) → phantoms_known d → rebuilt d d' → healthy d'.
Proof.
  intros Hok Hph H. destruct (rb_repo _ _ H) as [X Hrepo].
  assert (t_blob (d_repo d') = t_blob (d_repo d)) as Hb by (by rewrite Hrepo).
  assert (t_delta (d_repo d') = t_delta (d_repo d)) as Hd by (by rewrite Hrepo).
  assert (repo_ok (d_repo d')) as Hok' by (by apply (repo_ok_ext (d_repo d))).
  assert (∀ o dk, present d' o → read_manifest d' o = Ret dk → d_Type dk = Checkin → checkin_of d o dk) as Hco.
  { intros o dk Hp Hr Ht. unfold present in Hp. rewrite Hb in Hp. rewrite (read_manifest_ext d d') in Hr by done. done. }
  destruct (repo_healthy _ Hok') as [H1 H2]. split; [done|done| | | |].
  - intros rid. rewrite Hb, Hrepo. apply Hph.
  - intros o dk Hp Hr Ht. apply fmap_is_Some with uncoloured. exists (uncoloured (checkin_event dk)).
    apply (rb_events _ _ H). exists dk. split; [by apply Hco|done].
  - intros o dk u p Hp Hr Ht Hu Hup. apply (rb_plinks _ _ H). exists dk, u. split; [by apply Hco|]. split; [done|].
    unfold rid_of in *. by rewrite Hrepo in Hup.
  - intros r. rewrite (rb_leaves _ _ H). unfold is_leaf. by rewrite listed_ci.
Qed.
End facts.

(** ** Properties *)

(** C24. [Verify] is complete and right: whatever is wrong with a repository
    whose artifacts can be read without a panic, it runs to its end, and its
    report is without issues exactly if every blob expands to content with its
    hash, no delta or phantom refers to a missing blob, every check-in manifest
    has its event and a row for every parent that is known, and the leaves are
    the check-ins without children. Like the code, and unlike its comment, this
    does not look at the tables mlink, tagxref and filename (see the findings).
    *)
Theorem Verify_OK_iff {codec : Zlib} {sha3 : Sha3} {hlaws : Sha3Laws} {order : Unordered} {olaws : UnorderedLaws} d :
  readable d → ∃ report, Verify d = Ret report ∧ (OK report = true ↔ healthy d).
Proof. apply Verify_ok. Qed.

(** C25. [Rebuild] restores the derived tables. It is given a repository that
    satisfies the storage invariant, whose artifacts are read without a panic
    ([readable]) and whose manifests name the files they list, the tags and the
    targets of tags ([all_rebuildable]; the findings show that it panics on an
    empty target). Then it ends without a panic, fails only if a tag meets the
    limit of propagation, and otherwise leaves exactly the rows of the check-in
    manifests that are there: their events, a row of [plink] for each known
    parent with the first one primary, a row of [mlink] for each known file that
    differs from the primary parent's, the childless check-ins as leaves, all
    artifacts as unsent and unclustered. The tags are exactly those that
    [ApplyTag] gives for the T cards of the check-ins on themselves and then of
    the control artifacts, applied from an empty [tagxref] on. No table that is
    not derived changes. *)
Theorem Rebuild_spec {codec : Zlib} {sha3 : Sha3} {hlaws : Sha3Laws} {sqlite : Sqlite} {order : Unordered}
    {olaws : UnorderedLaws} d :
  repo_ok (d_repo d) → readable d → all_rebuildable d →
  match Rebuild d with Ret (d', _) => rebuilt d d' | Fail e => e = EIterations | _ => False end.
Proof. intros H1 H2 H3. pose proof (Rebuild_rebuilt d H1 H2 H3) as H. by destruct (Rebuild d) as [[d' r]| | |]. Qed.

(** C26. What [Rebuild] leaves passes verification: on a repository as [Rebuild]
    needs it (the storage invariant, so every artifact has its hash; artifacts
    read without a panic; files, tags and targets named) that also has a blob
    for each phantom row, a run that succeeds leaves a repository on which
    [Verify] reports no issue. Without the invariant the hash mismatches and
    orphan phantoms that were there remain, as [Rebuild] does not touch them. *)
Theorem Rebuild_verifies {codec : Zlib} {sha3 : Sha3} {hlaws : Sha3Laws} {sqlite : Sqlite} {order : Unordered}
    {olaws : UnorderedLaws} d d' report :
  repo_ok (d_repo d) → readable d → all_rebuildable d → phantoms_known d → Rebuild d = Ret (d', report) →
  ∃ report', Verify d' = Ret report' ∧ OK report' = true.
Proof.
  intros H1 H2 H3 H4 HR. pose proof (Rebuild_rebuilt d H1 H2 H3) as H. rewrite HR in H. cbn in H.
  destruct (rb_repo _ _ H) as [X Hrepo]. destruct (Verify_ok d') as (r & Hr & Hiff).
  { intros rid. rewrite (read_manifest_ext d d'), Hrepo by (by rewrite Hrepo). apply H2. }
  exists r. split; [exact Hr|]. by apply Hiff, (rebuilt_healthy d).
Qed.

(** Rebuilding is idempotent: a second run leaves the database, tags included,
    and the report exactly as the first did. *)
Theorem Rebuild_idempotent {codec : Zlib} {sha3 : Sha3} {sqlite : Sqlite} {order : Unordered} {olaws : UnorderedLaws}
    d d' report : Rebuild d = Ret (d', report) → Rebuild d' = Ret (d', report).
Proof. apply Rebuild_same. Qed.

(** ** Witnesses *)

#[local] Existing Instance test_sqlite.
#[local] Existing Instance test_order.
#[local] Existing Instance test_order_laws.
#[local] Existing Instance test_unicode.
#[local] Existing Instance test_sha3.
#[local] Existing Instance stored.
#[local] Existing Instance stored_laws.

Lemma test_sha3_laws : @Sha3Laws test_sha3.
Proof. split. intros x. cbn. rewrite length_app, length_sha1. reflexivity. Qed.
#[local] Existing Instance test_sha3_laws.

(** The repository with one check-in, of one file. *)
Definition readable_row (d : db) (rid : Z) : bool :=
  match read_manifest d rid with
  | Ret dk => forallb (λ f, negb (is_nil (fc_Name f))) (d_F dk) && is_nil (d_T dk)
  | Fail _ => true
  | _ => false
  end.

Lemma rows_readable d : forallb (λ p, readable_row d p.1) (map_to_list (t_blob (d_repo d))) = true →
  readable d ∧ all_rebuildable d.
Proof.
  intros Hall. assert (∀ rid, is_Some (t_blob (d_repo d) !! rid) → readable_row d rid = true) as H.
  { intros rid [row Hr]. rewrite forallb_forall in Hall. apply (Hall (rid, row)).
    by apply list_elem_of_In, elem_of_map_to_list. }
  unfold readable_row in H. split.
  - intros rid Hr%H. by destruct (read_manifest d rid).
  - intros rid dk Hp Hr. specialize (H rid (present_row _ _ Hp)). rewrite Hr in H.
    apply andb_true_iff in H as [Hf HT%is_nil_true]. rewrite forallb_forall in Hf. split.
    + intros f Hin%list_elem_of_In%Hf _. by destruct (fc_Name f).
    + intros tc. rewrite HT. by intros ?%not_elem_of_nil.
Qed.

Lemma history_rows : readable history ∧ all_rebuildable history.
Proof. apply rows_readable. vm_compute. reflexivity. Qed.

Lemma history_rebuilds : returned (Rebuild history) = true.
Proof. vm_compute. reflexivity. Qed.

Lemma history_rebuilt : ∃ d' r, Rebuild history = Ret (d', r).
Proof.
  pose proof history_rebuilds as H. destruct (Rebuild history) as [[d' r]|e| |]; [|discriminate H..].
  exists d', r. exact eq_refl.
Qed.

(** Nothing was crosslinked there yet, and [Verify] says so. *)
Lemma Verify_OK_iff_witness : ¬ healthy history.
Proof.
  destruct (Verify_OK_iff history (proj1 history_rows)) as (r & Hr & [_ Hiff]). intros H%Hiff.
  assert (match Verify history with Ret r => OK r | _ => true end = false) as Hn by (vm_compute; reflexivity).
  rewrite Hr in Hn. rewrite Hn in H. discriminate H.
Defined.

Lemma history_checkin : ∃ dk, checkin_of history 2 dk.
Proof.
  destruct history_complete as (dk & (Hrd & Ht & _) & _). exists dk. refine (conj _ (conj Hrd Ht)).
  exact (proj1 (Forall_elem _ _ _ (candidates_fresh history) history_candidate)).
Qed.

Lemma Rebuild_spec_witness : ∃ d' r, Rebuild history = Ret (d', r) ∧ ci d' 2 ∧ (2%Z ∈ d_unsent d').
Proof.
  destruct history_rebuilt as (d' & r & HR). exists d', r. split; [exact HR|].
  pose proof (Rebuild_spec history history_ok (proj1 history_rows) (proj2 history_rows)) as H. rewrite HR in H.
  destruct history_checkin as (dk & Hdk). split.
  - exists (uncoloured (checkin_event dk)). split; [|exact eq_refl]. apply (rb_events _ _ H). exists dk.
    exact (conj Hdk eq_refl).
  - apply (rb_unsent _ _ H), Hdk.
Defined.

Lemma history_phantoms : phantoms_known history.
Proof.
  assert (∀ d, bool_decide (t_phantom (d_repo d) = ∅) = true → phantoms_known d) as H.
  { intros d He%bool_decide_eq_true rid. rewrite He. by intros ?%elem_of_empty. }
  apply H. vm_compute. reflexivity.
Qed.

Lemma Rebuild_verifies_witness : ∃ d' r report, Rebuild history = Ret (d', r) ∧ Verify d' = Ret report ∧ OK report = true.
Proof.
  destruct history_rebuilt as (d' & r & HR).
  destruct (Rebuild_verifies history d' r history_ok (proj1 history_rows) (proj2 history_rows) history_phantoms HR)
    as (report & H1 & H2).
  exists d', r, report. exact (conj HR (conj H1 H2)).
Defined.

Lemma Rebuild_idempotent_witness : ∃ d' r, Rebuild history = Ret (d', r) ∧ Rebuild d' = Ret (d', r).
Proof.
  destruct history_rebuilt as (d' & r & HR). exists d', r.
  exact (conj HR (Rebuild_idempotent history d' r HR)).
Defined.

(** ** Findings *)

(** Only the presence of events and of rows for the parents is checked: what
    [mlink] and [filename] hold does not matter. *)
Example files_unchecked f g d : Verify (on_mlink f (on_filename g d)) = Verify d.
Proof. reflexivity. Qed.

(** The event of an attachment is dropped and never comes back, as its row in
    [attachment] stays and keeps it from being crosslinked. *)
Definition attached : db :=
  on_attachment (λ _, {[ 1%Z := MkAttach true (f64 1) [] [] [] [] [] ]})
    (on_event (λ _, {[ 1%Z := MkEvent (str "w") (f64 1) None [] [] None ]}) history).
Example attachment_forgotten :
  match Rebuild attached with
  | Ret (d, _) => (k_event (d_links attached) !! 1%Z, k_event (d_links d) !! 1%Z, candidates d)
  | _ => (None, None, [])
  end = (Some (MkEvent (str "w") (f64 1) None [] [] None), None, []).
Proof. vm_compute. reflexivity. Qed.

(** A check-in whose file is missing waits in [Crosslink], but [Rebuild] lists it,
    without the file, for good. *)
Definition fileless : db :=
  on_repo (λ _, after (Store empty_repo (Marshal first_checkin))) CreateRepoSchema.
Example fileless_listed :
  match Crosslink fileless, Rebuild fileless with
  | Ret (c, _), Ret (d, _) =>
    (bool_decide (is_Some (k_event (d_links c) !! 1%Z)), bool_decide (is_Some (k_event (d_links d) !! 1%Z)),
     length (k_mlink (d_links d)), candidates d)
  | _, _ => (true, false, 1, [])
  end = (false, true, 0, []).
Proof. vm_compute. reflexivity. Qed.

(** Private artifacts are marked as unsent. *)
Example private_unsent :
  match Rebuild (on_repo (with_private (λ _, {[ 1%Z ]})) history) with
  | Ret (d, _) => bool_decide (1%Z ∈ d_unsent d)
  | _ => false
  end = true.
Proof. vm_compute. reflexivity. Qed.

(** A tag with an empty target parses, crosslinking passes over it, and a rebuild
    panics. *)
Example empty_target_panics :
  match parseTCard deck_zero (str "+name  value") with
  | Ret dk => (rebuildControlTags history 2 dk, returned (crosslinkControl history 2 dk))
  | _ => (NoFuel, false)
  end = (Panic, true).
Proof. vm_compute. reflexivity. Qed.
