(* ===== verification/Checkin.v ===== *)
(** * Check-ins (src/internal/manifest/manifest.go, files.go, log.go, finfo.go)

    [Checkin] stores the files and the manifest of a new check-in and fills the
    tables that crosslinking would fill for a check-in that was received.
    [ListFiles] reads the files of a check-in back, [Log] follows the primary
    parents, [FileHistory] reads the history of a file off [mlink]. *)
From S2P Require Import Prelude GoStrings Hash Zlib Deck Julian Quote Blob Db Receive Tag Crosslink.
From stdpp Require Import list gmap sets.

Abbreviation out := (outcome db_error).

(** ** Options *)

Record File := MkSource { fl_Name : bytes; fl_Content : bytes; fl_Perm : bytes }.

Record CheckinOpts := MkCheckinOpts {
  ck_Files : list File;
  ck_Comment : bytes;
  ck_User : bytes;
  ck_Parent : Z;
  ck_MergeParents : list Z;
  ck_Delta : bool;
  ck_Time : time;
  ck_Tags : list TagCard
}.

(** [SELECT uuid FROM blob WHERE rid=?] *)
Definition uuid_at (d : db) (rid : Z) : option bytes := b_uuid <$> t_blob (d_repo d) !! rid.

Section checkin.
Context {codec : Zlib} {sqlite : Sqlite} {order : Unordered}.

(** ** The manifest *)

Fixpoint storeFileBlobs (files : list File) (d : db) : out (db * list FileCard * list Z) :=
  match files with
  | [] => Ret (d, [], [])
  | f :: files =>
    '(q, rid, uuid) ← in_repo (Store (d_repo d) (fl_Content f));
    '(d, fCards, rids) ← storeFileBlobs files (on_repo (λ _, q) d);
    Ret (d, MkFileCard (fl_Name f) uuid (fl_Perm f) [] :: fCards, rid :: rids)
  end.

(** The uuids of the merge parents; the primary parent is left out. *)
Fixpoint merge_uuids (d : db) (parent : Z) (merges : list Z) : out (list bytes) :=
  match merges with
  | [] => Ret []
  | mp :: merges =>
    if (mp <=? 0)%Z || (mp =? parent)%Z then merge_uuids d parent merges else
    match uuid_at d mp with
    | None => Fail ENoRows
    | Some mpUUID => rest ← merge_uuids d parent merges; Ret (mpUUID :: rest)
    end
  end.

Definition parent_uuids (d : db) (opts : CheckinOpts) : out (list bytes) :=
  if negb (0 <? ck_Parent opts)%Z then Ret [] else
  match uuid_at d (ck_Parent opts) with
  | None => Fail ENoRows
  | Some parentUUID => rest ← merge_uuids d (ck_Parent opts) (ck_MergeParents opts); Ret (parentUUID :: rest)
  end.

(** The tags of a first check-in. *)
Definition trunk_tags : list TagCard :=
  [MkTagCard "*"%byte (str "branch") self (str "trunk"); MkTagCard "+"%byte (str "sym-trunk") self []].

Definition checkin_tags (opts : CheckinOpts) : list TagCard :=
  match ck_Tags opts with
  | _ :: _ => ck_Tags opts
  | [] => if (ck_Parent opts =? 0)%Z then trunk_tags else []
  end.

(** [content.Expand] and [deck.Parse]: [read_manifest] without a check of the rid. *)
Definition read_deck (d : db) (uuid : bytes) : out Deck :=
  ex ← in_repo (Blob.Exists (d_repo d) uuid);
  match ex with
  | None => Fail (EInvalid uuid)
  | Some rid => read_manifest d rid
  end.

(** The files of a baseline by name; a later card wins. *)
Definition base_files (F : list FileCard) : gmap bytes bytes :=
  foldl (λ m f, <[fc_Name f := fc_UUID f]> m) ∅ F.

(** The cards of a delta manifest: new and changed files, and the names of those
    that are gone. *)
Definition delta_cards (baseFiles : gmap bytes bytes) (fullFCards : list FileCard) : list FileCard :=
  filter (λ f, baseFiles !! fc_Name f ≠ Some (fc_UUID f)) fullFCards ++
  map (λ name, MkFileCard name [] [] [])
    (filter (λ name, name ∉ map fc_Name fullFCards) (any_order (map fst (map_to_list baseFiles)))).

Definition applyDelta (d : db) (dk : Deck) (fullFCards : list FileCard) (parentRid : Z) : out Deck :=
  parentDeck ← read_manifest d parentRid;
  let baselineUUID := if bool_decide (d_B parentDeck = []) then default [] (uuid_at d parentRid)
                      else d_B parentDeck in
  baseDeck ← read_deck d baselineUUID;
  let deltaFCards := delta_cards (base_files (d_F baseDeck)) fullFCards in
  Ret (if length deltaFCards <? length fullFCards then set_F deltaFCards (set_B baselineUUID dk) else dk).

Definition getContent (d : db) (uuid : bytes) : out bytes :=
  ex ← in_repo (Blob.Exists (d_repo d) uuid);
  match ex with
  | None => Fail (EInvalid uuid)
  | Some rid => in_repo (Expand (d_repo d) rid)
  end.

Definition buildCheckinDeck (d : db) (opts : CheckinOpts) (fCards : list FileCard) : out Deck :=
  P ← parent_uuids d opts;
  let dk := set_T (checkin_tags opts) (set_P P (set_U (ck_User opts) (set_F fCards
              (set_D (ck_Time opts) (set_C (ck_Comment opts) (set_Type Checkin deck_zero)))))) in
  dk ← (if ck_Delta opts && (0 <? ck_Parent opts)%Z then applyDelta d dk fCards (ck_Parent opts) else Ret dk);
  rHash ← ComputeR (getContent d) (set_F fCards deck_zero);
  Ret (set_R rHash dk).

Definition insertCheckinBlob (d : db) (dk : Deck) : out (db * Z * bytes) :=
  '(q, rid, uuid) ← in_repo (Store (d_repo d) (Marshal dk)); Ret (on_repo (λ _, q) d, rid, uuid).

(** ** The tables *)

(** [SELECT fid FROM mlink WHERE mid=? AND fnid=?]; the variable stays 0 if there
    is no row. *)
Definition file_of (d : db) (mid fnid : Z) : Z :=
  default 0%Z (ml_fid <$> head (any_order (filter (λ m, ml_mid m = mid ∧ ml_fnid m = fnid) (k_mlink (d_links d))))).

Fixpoint insertMlinks (parent : Z) (files : list File) (manifestRid : Z) (d : db) : out db :=
  match files with
  | [] => Ret d
  | f :: files =>
    '(d, fnid) ← ensureFilename d (fl_Name f);
    fileRid ← in_repo (Blob.Exists (d_repo d) (sha1_hex (fl_Content f)));
    let pmid := (if 0 <? parent then parent else 0)%Z in
    let pid := if (0 <? parent)%Z then file_of d parent fnid else 0%Z in
    insertMlinks parent files manifestRid
      (on_mlink (λ l, l ++ [MkMlink manifestRid (default 0%Z fileRid) (Some pmid) (Some pid) fnid]) d)
  end.

(** The parents, without repetitions. *)
Fixpoint merge_rids (merges : list Z) (seen : gset Z) : list Z :=
  match merges with
  | [] => []
  | mp :: merges =>
    if (mp <=? 0)%Z || bool_decide (mp ∈ seen) then merge_rids merges seen
    else mp :: merge_rids merges ({[ mp ]} ∪ seen)
  end.

Definition collectParents (opts : CheckinOpts) : list Z :=
  if (ck_Parent opts <=? 0)%Z then []
  else ck_Parent opts :: merge_rids (ck_MergeParents opts) {[ ck_Parent opts ]}.

(** [INSERT INTO plink]; a pair of parent and child is unique. *)
Fixpoint insert_parents (i : nat) (parents : list Z) (manifestRid : Z) (mtime : julian) (d : db) : out db :=
  match parents with
  | [] => Ret d
  | pid :: parents =>
    match k_plink (d_links d) !! (pid, manifestRid) with
    | Some _ => Fail EConstraint
    | None =>
      insert_parents (S i) parents manifestRid mtime
        (on_plink <[(pid, manifestRid) := MkPlinkVal (i =? 0) mtime None]> d)
    end
  end.

Definition markLeafAndEvent (d : db) (opts : CheckinOpts) (manifestRid : Z) : out db :=
  let mtime := TimeToJulian (ck_Time opts) in
  let allParents := collectParents opts in
  d ← insert_parents 0 allParents manifestRid mtime d;
  match k_event (d_links d) !! manifestRid with
  | Some _ => Fail EConstraint
  | None =>
    let d := on_event <[manifestRid := MkEvent (str "ci") mtime None (ck_User opts) (ck_Comment opts) None]> d in
    let d := on_leaf (λ s, ({[ manifestRid ]} ∪ s) ∖ list_to_set allParents) d in
    Ret (on_unsent (λ s, {[ manifestRid ]} ∪ s) d)
  end.

(** The transaction of [Checkin]: the database, the tags of the manifest, and the
    new check-in. *)
Definition checkin_tx (d : db) (opts : CheckinOpts) : out (db * list TagCard * Z * bytes) :=
  '(d, fCards, fileRids) ← storeFileBlobs (ck_Files opts) d;
  dk ← buildCheckinDeck d opts fCards;
  '(d, manifestRid, manifestUUID) ← insertCheckinBlob d dk;
  d ← insertMlinks (ck_Parent opts) (ck_Files opts) manifestRid d;
  d ← markLeafAndEvent d opts manifestRid;
  Ret (on_unsent (λ s, list_to_set fileRids ∪ s) d, d_T dk, manifestRid, manifestUUID).

(** [now] is [time.Now().UTC()]. *)
Definition with_time (now : time) (opts : CheckinOpts) : CheckinOpts :=
  if bool_decide (ck_Time opts = time_zero)
  then MkCheckinOpts (ck_Files opts) (ck_Comment opts) (ck_User opts) (ck_Parent opts) (ck_MergeParents opts)
         (ck_Delta opts) now (ck_Tags opts)
  else opts.

Definition Checkin (now : time) (d : db) (opts : CheckinOpts) : outcome (db * db_error) (db * Z * bytes) :=
  if is_nil (ck_Files opts) then Panic else
  if bool_decide (ck_User opts = []) then Panic else
  let opts := with_time now opts in
  '(d, inlineTCards, manifestRid, manifestUUID) ← unchanged d (checkin_tx d opts);
  d ← apply_inline manifestRid (TimeToJulian (ck_Time opts)) inlineTCards d;
  d ← (if (0 <? ck_Parent opts)%Z then PropagateAll d (ck_Parent opts) else Ret d);
  if (manifestRid <=? 0)%Z then Panic else Ret (d, manifestRid, manifestUUID).

(** ** The files of a check-in (files.go) *)

Record FileEntry := MkEntry { fe_Name : bytes; fe_UUID : bytes; fe_Perm : bytes }.

Definition entry_of (f : FileCard) : FileEntry := MkEntry (fc_Name f) (fc_UUID f) (fc_Perm f).

Definition sort_entries : list FileEntry → list FileEntry :=
  sort_slice (λ x y, str_ltb (fe_Name x) (fe_Name y)).

Definition fCardsToEntries (fCards : list FileCard) : list FileEntry := sort_entries (map entry_of fCards).

Definition GetManifest (d : db) (rid : Z) : out Deck :=
  if (rid <=? 0)%Z then Panic else read_manifest d rid.

(** The files of a baseline as a delta manifest changes them. *)
Definition file_map (base delta : list FileCard) : gmap bytes FileEntry :=
  foldl (λ m f, if is_nil (fc_UUID f) then delete (fc_Name f) m else <[fc_Name f := entry_of f]> m)
    (foldl (λ m f, <[fc_Name f := entry_of f]> m) ∅ base) delta.

Definition ListFiles (d : db) (rid : Z) : out (list FileEntry) :=
  dk ← GetManifest d rid;
  if bool_decide (d_B dk = []) then Ret (fCardsToEntries (d_F dk)) else
  baseDeck ← read_deck d (d_B dk);
  Ret (sort_entries (any_order (map snd (map_to_list (file_map (d_F baseDeck) (d_F dk)))))).

(** The files of the parent that were not supplied. *)
Fixpoint parent_files (d : db) (entries : list FileEntry) (supplied : gset bytes) : out (list File) :=
  match entries with
  | [] => Ret []
  | pf :: entries =>
    if bool_decide (fe_Name pf ∈ supplied) then parent_files d entries supplied else
    data ← getContent d (fe_UUID pf);
    rest ← parent_files d entries supplied;
    Ret (MkSource (fe_Name pf) data (fe_Perm pf) :: rest)
  end.

Definition MergeParentFiles (d : db) (parentRID : Z) (supplied : list File) : out (list File) :=
  if (parentRID =? 0)%Z then Ret supplied else
  parentFiles ← ListFiles d parentRID;
  rest ← parent_files d parentFiles (list_to_set (map fl_Name supplied));
  Ret (supplied ++ rest).

(** ** The log (log.go) *)

(** A time is the number of milliseconds since 1970. *)
Record LogEntry := MkLog {
  lg_RID : Z; lg_UUID : bytes; lg_Comment : bytes; lg_User : bytes; lg_Time : Z; lg_Parents : list bytes }.

(** [SELECT pid FROM plink WHERE cid=? AND isprim=1] *)
Definition primary_parent (d : db) (cid : Z) : option Z :=
  (λ p : Z * Z * plinkVal, p.1.1) <$>
    head (any_order (filter (λ p, p.1.2 = cid ∧ pk_isprim p.2 = true) (map_to_list (k_plink (d_links d))))).

(** The uuids of the parents, the primary one first. *)
Definition parents_of_checkin (d : db) (cid : Z) : list bytes :=
  omap (λ p : Z * Z * plinkVal, uuid_at d p.1.1)
    (sort_slice (λ p p', pk_isprim p.2 && negb (pk_isprim p'.2))
       (any_order (filter (λ p, p.1.2 = cid) (map_to_list (k_plink (d_links d)))))).

Definition log_entry (d : db) (current : Z) : option LogEntry :=
  uuid ← uuid_at d current;
  e ← k_event (d_links d) !! current;
  Some (MkLog current uuid (ev_comment e) (ev_user e) (JulianToTime (scan_julian (ev_mtime e)))
    (parents_of_checkin d current)).

(** [n] is the number of entries so far. *)
Fixpoint log_loop (fuel : nat) (d : db) (limit : Z) (n : Z) (current : Z) : out (list LogEntry) :=
  match fuel with
  | O => NoFuel
  | S fuel =>
    if (0 <? limit)%Z && (limit <=? n)%Z then Ret [] else
    match log_entry d current with
    | None => Fail ENoRows
    | Some e =>
      match primary_parent d current with
      | None => Ret [e]
      | Some parentRid => rest ← log_loop fuel d limit (n + 1) parentRid; Ret (e :: rest)
      end
    end
  end.

(** Without a limit, a walk that is longer than there are edges has met a cycle:
    the code does not end then. *)
Definition log_fuel (d : db) (limit : Z) : nat :=
  if (0 <? limit)%Z then S (Z.to_nat limit) else S (S (size (k_plink (d_links d)))).

Definition Log (d : db) (start limit : Z) : out (list LogEntry) :=
  if (start <=? 0)%Z then Fail (EInvalid []) else log_loop (log_fuel d limit) d limit 0 start.
End checkin.

(** ** The history of a file (finfo.go) *)

(** What a driver delivers for a DATETIME column, and [db.ScanTime]. *)
Inductive scanned := ScannedFloat (f : julian) | ScannedTime (ms : Z).
Class DateColumn := { scan_date : julian → scanned }.
Definition ScanTime (v : scanned) : Z := match v with ScannedFloat f => JulianToTime f | ScannedTime ms => ms end.

Inductive FileAction := FileAdded | FileModified | FileDeleted | FileRenamed.

Definition action_String (a : FileAction) : bytes :=
  match a with
  | FileAdded => str "added" | FileModified => str "modified"
  | FileDeleted => str "deleted" | FileRenamed => str "renamed"
  end.

Record FileVersion := MkVersion {
  fv_CheckinRID : Z; fv_CheckinUUID : bytes; fv_FileRID : Z; fv_FileUUID : bytes; fv_Action : FileAction;
  fv_User : bytes; fv_Comment : bytes; fv_Date : Z; fv_PrevName : bytes }.

Definition classifyAction (fileRID pid pfnid fnid : Z) : FileAction * bool :=
  if (fileRID =? 0)%Z then (FileDeleted, true) else
  if negb (pfnid =? 0)%Z && negb (pfnid =? fnid)%Z then (FileRenamed, true) else
  if (pid =? 0)%Z then (FileAdded, true) else
  (FileModified, negb (fileRID =? pid)%Z).

Section history.
Context {order : Unordered} {dates : DateColumn}.

(** A row of the query.  Nothing ever writes [mlink.pfnid], so it is NULL. *)
Definition history_row (d : db) (m : mlinkRow) : option (mlinkRow * bytes * eventRow * bytes) :=
  cb ← t_blob (d_repo d) !! ml_mid m;
  e ← k_event (d_links d) !! ml_mid m;
  Some (m, b_uuid cb, e, default [] (b_uuid <$> t_blob (d_repo d) !! ml_fid m)).

Definition history_rows (d : db) (fnid limit : Z) : list (mlinkRow * bytes * eventRow * bytes) :=
  let rows := sort_slice (λ x y : mlinkRow * bytes * eventRow * bytes, f_ltb (ev_mtime y.1.2) (ev_mtime x.1.2))
    (any_order (omap (history_row d) (filter (λ m, ml_fnid m = fnid) (k_mlink (d_links d))))) in
  if (0 <? limit)%Z then take (Z.to_nat limit) rows else rows.

Definition version_of (d : db) (fnid : Z) (row : mlinkRow * bytes * eventRow * bytes) : option FileVersion :=
  let '(m, uuid, e, fileUUID) := row in
  let pid := default 0%Z (ml_pid m) in
  let pfnid := 0%Z in
  let '(action, changed) := classifyAction (ml_fid m) pid pfnid fnid in
  if negb changed then None else
  Some (MkVersion (ml_mid m) uuid (ml_fid m) fileUUID action (ev_user e) (ev_comment e)
          (ScanTime (scan_date (ev_mtime e))) []).

Definition fileHistoryByFnid (d : db) (fnid limit : Z) : list FileVersion :=
  omap (version_of d fnid) (history_rows d fnid limit).

Definition FileHistory (d : db) (path : bytes) (limit : Z) : out (list FileVersion) :=
  if bool_decide (path = []) then Fail (EInvalid path) else
  match k_filename (d_links d) !! path with
  | None => Fail ENoRows
  | Some fnid => Ret (fileHistoryByFnid d fnid limit)
  end.

Definition FileAt (d : db) (checkinRID : Z) (path : bytes) : out (option Z) :=
  if (checkinRID <=? 0)%Z then Panic else
  if bool_decide (path = []) then Panic else
  Ret (ml_fid <$> head (any_order (filter
    (λ m, ml_mid m = checkinRID ∧ k_filename (d_links d) !! path = Some (ml_fnid m) ∧ (0 < ml_fid m)%Z)
    (k_mlink (d_links d))))).
End history.

(** ** Lemmas: the log *)

Section log.
Context {sqlite : Sqlite} {order : Unordered} {olaws : UnorderedLaws}.

(** Going back over primary edges. *)
Definition back (d : db) (c p : Z) : Prop := primary_parent d c = Some p.

Lemma back_edge d c p : back d c p → ∃ v, k_plink (d_links d) !! (p, c) = Some v ∧ pk_isprim v = true.
Proof.
  unfold back, primary_parent. intros H. destruct (head _) as [[[p' c'] v]|] eqn:E; [|done].
  injection H as ->. assert ((p, c', v) ∈ any_order (filter
    (λ p : Z * Z * plinkVal, p.1.2 = c ∧ pk_isprim p.2 = true) (map_to_list (k_plink (d_links d))))) as Hin.
  { destruct (any_order _); [done|]. injection E as ->. by left. }
  rewrite any_order_perm in Hin. apply list_elem_of_filter in Hin as [[Hc Hp] Hin]. cbn in Hc, Hp. subst c'.
  exists v. split; [|done]. by apply elem_of_map_to_list in Hin.
Qed.

(** A walk that runs out of fuel has made as many steps. *)
Inductive walk (d : db) : Z → list Z → Prop :=
  | walk_nil c : walk d c []
  | walk_cons c p l : back d c p → walk d p l → walk d c (c :: l).

Lemma log_loop_walk d limit fuel : ∀ n c, log_loop fuel d limit n c = NoFuel → ∃ l, walk d c l ∧ length l = fuel.
Proof.
  induction fuel as [|fuel IH]; intros n c; cbn [log_loop]; [intros _; exists []; split; [constructor|done]|].
  destruct (_ && _); [done|]. destruct (log_entry d c) as [e|]; [|done].
  destruct (primary_parent d c) as [p|] eqn:Hp; [|done]. intros H.
  destruct (log_loop fuel d limit (n + 1) p) eqn:E; try done.
  destruct (IH _ _ E) as (l & Hl & Hn). exists (c :: l). split; [by econstructor|cbn; lia].
Qed.

Lemma walk_reach d c l : walk d c l → ∀ x, x ∈ l → c = x ∨ tc (back d) c x.
Proof.
  induction 1 as [|x0 p k Hb _ IH]; intros x; [by intros ?%not_elem_of_nil|].
  intros [->|Hx]%elem_of_cons; [by left|]. right. destruct (IH x Hx) as [->|Ht]; [by apply tc_once|by eapply tc_l].
Qed.

Lemma walk_repeats d c l : walk d c l → ¬ NoDup l → ∃ x, tc (back d) x x.
Proof.
  induction 1 as [|x0 p k Hb Hw IH]; intros Hn; [destruct Hn; constructor|].
  destruct (decide (x0 ∈ k)) as [Hc|Hc].
  - exists x0. destruct (walk_reach d p k Hw x0 Hc) as [->|Ht]; [by apply tc_once|by eapply tc_l].
  - apply IH. intros Hl. apply Hn. by constructor.
Qed.

Lemma walk_children d c l : walk d c l → ∀ x, x ∈ l → x ∈ map (λ p : Z * Z * plinkVal, p.1.2) (map_to_list (k_plink (d_links d))).
Proof.
  induction 1 as [|x0 p k Hb _ IH]; intros x; [by intros ?%not_elem_of_nil|].
  intros [->|Hx]%elem_of_cons; [|by apply IH]. apply back_edge in Hb as (v & Hv & _).
  apply list_elem_of_fmap. exists (p, x0, v). split; [done|]. by apply elem_of_map_to_list.
Qed.

Lemma walk_length d c l : walk d c l → NoDup l → length l ≤ size (k_plink (d_links d)).
Proof.
  intros Hw Hn. assert (l ⊆+ map (λ p : Z * Z * plinkVal, p.1.2) (map_to_list (k_plink (d_links d)))) as Hs.
  { apply NoDup_submseteq; [done|]. intros x. by apply (walk_children d c l). }
  apply submseteq_length in Hs. rewrite length_map in Hs. by rewrite length_map_to_list in Hs.
Qed.

Lemma log_loop_limit d limit fuel : ∀ n c, (0 < limit)%Z → (n ≤ limit)%Z → (limit < n + Z.of_nat fuel)%Z →
  log_loop fuel d limit n c ≠ NoFuel.
Proof.
  induction fuel as [|fuel IH]; intros n c Hl Hn Hf; [lia|cbn [log_loop]].
  rewrite (proj2 (Z.ltb_lt 0 limit)) by done. cbn [andb]. destruct (Z.leb_spec limit n); [done|].
  destruct (log_entry d c) as [e|]; [|done]. destruct (primary_parent d c) as [p|]; [|done].
  specialize (IH (n + 1)%Z p Hl ltac:(lia) ltac:(lia)).
  destruct (log_loop fuel d limit (n + 1) p); [done..|by destruct IH].
Qed.

(** The entries of a log: the check-ins along the primary parents, at most [k]. *)
Inductive logged (d : db) : option nat → Z → list LogEntry → Prop :=
  | logged_cut c : logged d (Some 0) c []
  | logged_root k c e : k ≠ Some 0 → log_entry d c = Some e → primary_parent d c = None → logged d k c [e]
  | logged_cons k c p e l : k ≠ Some 0 → log_entry d c = Some e → back d c p →
      logged d (Nat.pred <$> k) p l → logged d k c (e :: l).

Definition left_of (limit n : Z) : option nat :=
  if (0 <? limit)%Z then Some (Z.to_nat (limit - n)) else None.

Lemma log_loop_ret d limit fuel : ∀ n c l, log_loop fuel d limit n c = Ret l → logged d (left_of limit n) c l.
Proof.
  induction fuel as [|fuel IH]; intros n c l; cbn [log_loop]; [done|].
  destruct (_ && _) eqn:Hc.
  { apply andb_true_iff in Hc as [H1 H2%Z.leb_le]. unfold left_of. rewrite H1. intros [= <-].
    replace (Z.to_nat (limit - n)) with 0 by lia. constructor. }
  assert (left_of limit n ≠ Some 0 ∧ left_of limit (n + 1) = Nat.pred <$> left_of limit n) as [Hk Hp].
  { unfold left_of. destruct (0 <? limit)%Z; [|done]. cbn in Hc. apply Z.leb_gt in Hc.
    split; [intros [=]; lia|]. cbn. f_equal. lia. }
  destruct (log_entry d c) as [e|] eqn:He; [|done]. destruct (primary_parent d c) as [p|] eqn:Hb.
  - intros H. apply bind_ret_inv in H as (rest & Hr & H). injection H as <-. apply IH in Hr. rewrite Hp in Hr.
    by econstructor.
  - intros [= <-]. by constructor.
Qed.

Lemma logged_length d k c l : logged d (Some k) c l → length l ≤ k.
Proof.
  intros H. remember (Some k) as o eqn:E. revert k E.
  induction H as [c|o c e Hk _ _|o c p e l Hk _ _ _ IH]; intros k E; subst; cbn [length]; [lia|..];
    (destruct k as [|k]; [done|]); [lia|]. specialize (IH k eq_refl). lia.
Qed.
End log.

(** ** Properties *)

(** The log ends unless the primary parents run in a circle and no limit is set.
    It lists the check-ins from the first one back along the primary parents,
    each with its event and parents, as many as the limit allows, or to a root.
    *)
Theorem Log_ends {sqlite : Sqlite} {order : Unordered} {olaws : UnorderedLaws} d start limit :
  (Log d start limit = NoFuel → (limit ≤ 0)%Z ∧ ∃ c, tc (back d) c c) ∧
  ∀ l, Log d start limit = Ret l →
    logged d (left_of limit 0) start l ∧ ((0 < limit)%Z → (zlen l ≤ limit)%Z).
Proof.
  unfold Log. destruct (Z.leb_spec start 0) as [|Hs]; [done|]. split.
  - intros H. unfold log_fuel in H. destruct (Z.ltb_spec 0 limit) as [Hl|Hl].
    { by apply log_loop_limit in H; [|done|lia|lia]. }
    split; [done|]. apply log_loop_walk in H as (l & Hw & Hn). apply (walk_repeats d start l Hw).
    intros Hd. pose proof (walk_length d start l Hw Hd). lia.
  - intros l H. apply log_loop_ret in H. split; [done|]. intros Hl. unfold left_of in H.
    rewrite (proj2 (Z.ltb_lt 0 limit)) in H by done. apply logged_length in H. unfold zlen. lia.
Qed.

(** ** Witnesses *)

#[local] Existing Instance test_sqlite.
#[local] Existing Instance test_order.
#[local] Existing Instance test_order_laws.

(** Two check-ins, the second one after the first. *)
Definition told (comment : bytes) : eventRow := MkEvent (str "ci") (f64 1) None (str "u") comment None.
Definition two_steps : db :=
  on_event (λ _, <[1%Z := told (str "one")]> {[ 2%Z := told (str "two") ]})
    (on_plink (λ _, {[ (1%Z, 2%Z) := MkPlinkVal true (f64 1) None ]})
       (on_repo (with_blob (λ _, <[1%Z := MkBlob (str "a") 0 (Some []) 1]> {[ 2%Z := MkBlob (str "b") 0 (Some []) 1 ]}))
          CreateRepoSchema)).

Lemma Log_ends_witness : ∃ l, Log two_steps 2 1 = Ret l ∧ logged two_steps (Some 1) 2 l ∧ (zlen l ≤ 1)%Z.
Proof.
  destruct (Log_ends two_steps 2 1) as [_ H].
  assert (∃ l, Log two_steps 2 1 = Ret l) as [l Hl] by (eexists; vm_compute; reflexivity).
  exists l. destruct (H l Hl) as [H1 H2]. exact (conj Hl (conj H1 (H2 eq_refl))).
Defined.
