(* ===== verification/Shun.v ===== *)
(** * Shunned artifacts (src/internal/shun)

    A repository refuses the artifacts listed in the [shun] table.  [Purge]
    removes the ones it already has: artifacts stored as deltas against them are
    expanded first, so that nothing else is lost. *)
From S2P Require Import Prelude GoStrings Hash Zlib Delta Blob Content Db Receive.
From stdpp Require Import list gmap sets.

Record Entry := MkEntry { e_UUID : bytes; e_MTime : Z; e_Comment : bytes }.

Record PurgeResult := MkPurge {
  pg_BlobsDeleted : Z; pg_DeltasExpanded : Z; pg_PrivateCleaned : Z }.

(** ** The list (shun.go) *)

Definition Add (now : Z) (q : repo) (uuid comment : bytes) : out repo :=
  if bool_decide (uuid = []) then Fail (EInvalid uuid) else
  valid ← IsValidHash uuid;
  if negb valid then Fail (EInvalid uuid) else
  Ret (with_shun <[uuid := MkShunRow now (Some comment)]> q).

Definition Remove (q : repo) (uuid : bytes) : repo := with_shun (delete uuid) q.

Definition IsShunned (q : repo) (uuid : bytes) : bool := bool_decide (is_Some (t_shun q !! uuid)).

(** [ORDER BY mtime DESC]; rows of equal times in the order of the primary key. *)
Definition List_ (q : repo) : list Entry :=
  map (λ p, MkEntry p.1 (sh_mtime p.2) (default [] (sh_scom p.2)))
    (sort_slice (λ a b, sh_mtime b.2 <? sh_mtime a.2)%Z
      (sort_slice (λ a b, str_ltb a.1 b.1) (map_to_list (t_shun q)))).

(** ** Purging (purge.go) *)

(** The temporary table [toshun]. *)
Definition toshun (q : repo) : gset Z :=
  dom (filter (λ p, is_Some (t_shun q !! b_uuid p.2)) (t_blob q)).

(** The artifacts stored as deltas against a shunned one. *)
Definition dependents (q : repo) : list Z :=
  (filter (λ p, p.2 ∈ toshun q) (map_to_list (t_delta q))).*1.

Section purge.
Context {codec : Zlib}.

(** One dependent is replaced by its full content. *)
Definition undelta (q : repo) (rid : Z) : outcome blob_error repo :=
  expanded ← Expand q rid;
  compressed ← Compress (Some expanded);
  let q := with_blob (alter (λ row, MkBlob (b_uuid row) (zlen expanded) (Some compressed) (b_rcvid row)) rid) q in
  Ret (with_delta (delete rid) q).

Fixpoint undelta_loop (q : repo) (l : list Z) : outcome blob_error repo :=
  match l with
  | [] => Ret q
  | rid :: l => q ← undelta q rid; undelta_loop q l
  end.

(** The DELETE statements of steps 3 and 4. *)
Definition delete_shunned (gone : gset Z) (q : repo) : repo :=
  let q := with_delta (filter (λ p, p.1 ∉ gone)) q in
  let q := with_blob (filter (λ p, p.1 ∉ gone)) q in
  with_private (λ s, s ∩ dom (t_blob q)) q.

(** The dependents in the order [l] in which the engine delivers them. *)
Definition Purge_in (q : repo) (l : list Z) : outcome blob_error (repo * PurgeResult) :=
  let gone := toshun q in
  q1 ← undelta_loop q l;
  let q2 := delete_shunned gone q1 in
  Ret (q2, MkPurge (Z.of_nat (size (t_blob q1)) - Z.of_nat (size (t_blob q2))) (zlen l)
             (Z.of_nat (size (t_private q1)) - Z.of_nat (size (t_private q2)))).

Definition Purge (q : repo) : outcome blob_error (repo * PurgeResult) := Purge_in q (dependents q).
End purge.

(** ** Lemmas *)

Lemma elem_toshun q rid :
  rid ∈ toshun q ↔ ∃ row, t_blob q !! rid = Some row ∧ is_Some (t_shun q !! b_uuid row).
Proof.
  unfold toshun. rewrite elem_of_dom. split.
  - intros [row H]. apply map_lookup_filter_Some in H as [H1 H2]. by exists row.
  - intros (row & H1 & H2). exists row. by apply map_lookup_filter_Some.
Qed.

Lemma elem_dependents q rid :
  rid ∈ dependents q ↔ ∃ src, t_delta q !! rid = Some src ∧ src ∈ toshun q.
Proof.
  unfold dependents. rewrite list_elem_of_fmap. split.
  - intros ([r s] & -> & [Hs Hin]%list_elem_of_filter). exists s. split; [|done].
    by apply elem_of_map_to_list.
  - intros (s & Hd & Hs). exists (rid, s). split; [done|]. apply list_elem_of_filter.
    split; [done|]. by apply elem_of_map_to_list.
Qed.

Lemma dependents_nodup q : base.NoDup (dependents q).
Proof.
  unfold dependents. pose proof (NoDup_fst_map_to_list (t_delta q)) as H.
  revert H. generalize (map_to_list (t_delta q)) as l. induction l as [|[r s] l IH]; intros H.
  - apply base.NoDup_nil_2.
  - cbn in H. apply list.NoDup_cons in H as [Hn H]. rewrite filter_cons.
    case_decide; cbn; [|by apply IH]. apply list.NoDup_cons. split; [|by apply IH].
    intros Hin. apply Hn. apply list_elem_of_fmap in Hin as ([r' s'] & -> & [_ Hin]%list_elem_of_filter).
    apply list_elem_of_fmap. by exists (r', s').
Qed.

Section facts.
Context {codec : Zlib} {laws : ZlibLaws} {sha3 : Sha3}.

(** Artifacts smaller than 4 GiB. *)
Definition small_contents (q : repo) : Prop :=
  ∀ rid c, expands q rid c → (zlen c < 2 ^ 32)%Z.

(** Two repositories with the same artifacts: rows under the same rids with the
    same uuids, phantoms where there were phantoms, and the same contents. *)
Record same_artifacts (q q' : repo) : Prop := {
  sa_rows : ∀ rid row, t_blob q !! rid = Some row →
    ∃ row', t_blob q' !! rid = Some row' ∧ b_uuid row' = b_uuid row ∧
      (b_size row' = (-1)%Z ↔ b_size row = (-1)%Z);
  sa_back : ∀ rid, is_Some (t_blob q' !! rid) → is_Some (t_blob q !! rid);
  sa_expands : ∀ rid c, expands q rid c ↔ expands q' rid c
}.

Lemma same_artifacts_trans q1 q2 q3 : same_artifacts q1 q2 → same_artifacts q2 q3 → same_artifacts q1 q3.
Proof.
  intros [A1 A2 A3] [B1 B2 B3]. split.
  - intros rid row H. destruct (A1 rid row H) as (r2 & H2 & Hu & Hs).
    destruct (B1 rid r2 H2) as (r3 & H3 & Hu3 & Hs3). exists r3. split_and!; [done|congruence|].
    by rewrite Hs3.
  - auto.
  - intros rid c. by rewrite A3.
Qed.

(** Expanding one dependent changes no artifact. *)
Lemma undelta_ok q rid src :
  repo_ok q → small_contents q → t_delta q !! rid = Some src →
  ∃ q', undelta q rid = Ret q' ∧ repo_ok q' ∧ same_artifacts q q' ∧
    t_delta q' = delete rid (t_delta q) ∧ t_shun q' = t_shun q ∧ t_private q' = t_private q.
Proof.
  intros Hok Hsm Hd. destruct (ok_delta q Hok _ _ Hd) as (row & Hrow & Hn).
  destruct (ok_row q Hok rid row Hrow) as [Hpos Hlen].
  destruct (ok_content q Hok rid row Hrow Hn) as (c & He & Hh).
  pose proof (proj2 (Expand_expands q rid c Hpos) He) as HE.
  unfold undelta. rewrite HE. cbn [mbind outcome_bind Compress]. eexists. split; [reflexivity|].
  set (stored := size_prefix (zlen c) ++ deflate c).
  set (row1 := MkBlob (b_uuid row) (zlen c) (Some stored) (b_rcvid row)).
  set (q' := with_delta _ _). pose proof (zlen_nonneg c) as Hz. pose proof (Hsm rid c He) as Hlt.
  assert (t_blob q' = <[rid := row1]> (t_blob q)) as Hb.
  { unfold q'. cbn. apply map_eq. intros r. destruct (decide (r = rid)) as [->|Hr].
    - by rewrite lookup_alter_eq, lookup_insert_eq, Hrow.
    - by rewrite lookup_alter_ne, lookup_insert_ne. }
  assert (t_delta q' = delete rid (t_delta q)) as Hdel by done.
  assert (Load q' rid = Ret c) as HLrid.
  { eapply (Load_stored q' rid row1); [by rewrite Hb, lookup_insert_eq|done| |done|cbn; lia|by left].
    reflexivity. }
  assert (∀ r, r ≠ rid → Load q' r = Load q r) as HL.
  { intros r Hr. unfold Load. by rewrite Hb, lookup_insert_ne. }
  assert (expands q' rid c) as Hnew.
  { apply expands_plain; [by rewrite Hdel, lookup_delete_eq|done]. }
  assert (∀ r d, expands q r d → expands q' r d) as Hfwd.
  { intros r d H. destruct (decide (r = rid)) as [->|Hr].
    { by rewrite (expands_fun q rid d c H He). }
    induction H as [r d Hdr HLr|r s c0 d e Hdr H0 IH HLr HA].
    - apply expands_plain; [by rewrite Hdel, lookup_delete_ne|by rewrite HL].
    - eapply expands_delta; [by rewrite Hdel, lookup_delete_ne| |by rewrite HL|exact HA].
      destruct (decide (s = rid)) as [->|Hs]; [|by apply IH].
      by rewrite (expands_fun q rid c0 c H0 He). }
  assert (∀ r d, expands q' r d → expands q r d) as Hbwd.
  { intros r d H. induction H as [r d Hdr HLr|r s c0 d e Hdr H0 IH HLr HA];
      destruct (decide (r = rid)) as [->|Hr].
    - assert (d = c) as -> by congruence. done.
    - apply expands_plain; [by rewrite Hdel, lookup_delete_ne in Hdr|by rewrite <- HL].
    - by rewrite Hdel, lookup_delete_eq in Hdr.
    - eapply expands_delta; [by rewrite Hdel, lookup_delete_ne in Hdr|exact IH|by rewrite <- HL|exact HA]. }
  split_and!; [| |done..].
  - split.
    + intros r row'. rewrite Hb. intros [[<- <-]|[_ H]]%lookup_insert_Some; [done|by apply (ok_row q Hok r)].
    + intros r1 r2 w1 w2. rewrite Hb.
      intros [[<- <-]|[Hn1 L1]]%lookup_insert_Some [[<- <-]|[Hn2 L2]]%lookup_insert_Some Heq; try done.
      * by apply (ok_uuid q Hok rid r2 row w2).
      * by apply (ok_uuid q Hok r1 rid w1 row).
      * by apply (ok_uuid q Hok r1 r2 w1 w2).
    + intros r s. rewrite Hdel, Hb. intros [Hr H]%lookup_delete_Some.
      destruct (ok_delta q Hok _ _ H) as (w & Hw & Hwn). exists w. by rewrite lookup_insert_ne.
    + intros r w. rewrite Hb. intros [[<- <-]|[_ H]]%lookup_insert_Some Hw; [by exists c|].
      destruct (ok_content q Hok r w H Hw) as (d & Hd1 & Hd2). exists d. by split; [apply Hfwd|].
  - split.
    + intros r w H. rewrite Hb. destruct (decide (r = rid)) as [->|Hr].
      * exists row1. rewrite lookup_insert_eq. assert (w = row) as -> by congruence.
        split_and!; [done|done|]. cbn. split; [lia|done].
      * exists w. by rewrite lookup_insert_ne.
    + intros r. rewrite Hb. destruct (decide (r = rid)) as [->|Hr]; [by eexists|].
      by rewrite lookup_insert_ne.
    + split; auto.
Qed.

Lemma undelta_loop_ok l q :
  repo_ok q → small_contents q → base.NoDup l → (∀ r, r ∈ l → is_Some (t_delta q !! r)) →
  ∃ q', undelta_loop q l = Ret q' ∧ repo_ok q' ∧ same_artifacts q q' ∧
    (∀ r, t_delta q' !! r = if bool_decide (r ∈ l) then None else t_delta q !! r) ∧
    t_shun q' = t_shun q ∧ t_private q' = t_private q.
Proof.
  revert q. induction l as [|r l IH]; intros q Hok Hsm Hnd Hall; cbn [undelta_loop].
  { exists q. split_and!; [done|done|split; [intros rid row ?; by exists row|done|done]|done..]. }
  apply list.NoDup_cons in Hnd as [Hr Hnd]. destruct (Hall r) as [src Hsrc]; [by left|].
  destruct (undelta_ok q r src Hok Hsm Hsrc) as (q1 & -> & Hok1 & Hsa & Hd & Hs & Hp).
  cbn [mbind outcome_bind].
  destruct (IH q1 Hok1) as (q' & -> & Hok' & Hsa' & Hd' & Hs' & Hp'); [|done| |].
  - intros rid c He. apply (Hsm rid), (sa_expands _ _ Hsa), He.
  - intros x Hx. rewrite Hd, lookup_delete_ne by congruence. apply Hall. by right.
  - exists q'. split_and!; [done|done|by eapply same_artifacts_trans| |congruence|congruence].
    intros x. rewrite Hd', Hd. destruct (decide (x = r)) as [->|Hx].
    + rewrite lookup_delete_eq. rewrite (bool_decide_true (r ∈ r :: l)) by (by left). by case_bool_decide.
    + rewrite lookup_delete_ne by done. repeat case_bool_decide; try done;
        match goal with H : _ ∈ _ :: _ |- _ => by apply elem_of_cons in H as [|] | H : ¬ _ |- _ =>
          by destruct H; right end.
Qed.

(** Deleting blobs that no delta is based on. *)
Lemma delete_shunned_ok q gone :
  repo_ok q → (∀ r s, t_delta q !! r = Some s → s ∉ gone) →
  let q' := delete_shunned gone q in
  repo_ok q' ∧
  (∀ rid, t_blob q' !! rid = if bool_decide (rid ∈ gone) then None else t_blob q !! rid) ∧
  (∀ rid c, expands q' rid c ↔ expands q rid c ∧ rid ∉ gone).
Proof.
  intros Hok Hbase q'.
  assert (∀ rid, t_blob q' !! rid = if bool_decide (rid ∈ gone) then None else t_blob q !! rid) as Hb.
  { intros rid. unfold q'. cbn. destruct (t_blob q !! rid) as [row|] eqn:E.
    - case_bool_decide as Hg.
      + apply map_lookup_filter_None. right. intros x Hx. cbn. by intros ?.
      + by apply map_lookup_filter_Some.
    - destruct (bool_decide _); apply map_lookup_filter_None; by left. }
  assert (∀ rid, t_delta q' !! rid = if bool_decide (rid ∈ gone) then None else t_delta q !! rid) as Hd.
  { intros rid. unfold q'. cbn. destruct (t_delta q !! rid) as [s|] eqn:E.
    - case_bool_decide as Hg.
      + apply map_lookup_filter_None. right. intros x Hx. cbn. by intros ?.
      + by apply map_lookup_filter_Some.
    - destruct (bool_decide _); apply map_lookup_filter_None; by left. }
  assert (∀ rid, rid ∉ gone → Load q' rid = Load q rid) as HL.
  { intros rid Hr. unfold Load. by rewrite Hb, bool_decide_false. }
  assert (∀ rid c, expands q rid c → rid ∉ gone → expands q' rid c) as Hfwd.
  { intros rid c H. induction H as [r d Hdr HLr|r s c0 d e Hdr H0 IH HLr HA]; intros Hr.
    - apply expands_plain; [by rewrite Hd, bool_decide_false|by rewrite HL].
    - eapply expands_delta; [by rewrite Hd, bool_decide_false|apply IH; by eapply Hbase|by rewrite HL|done]. }
  assert (∀ rid c, Load q' rid = Ret c → rid ∉ gone) as Hin.
  { intros rid c H Hg. destruct (Load_row _ _ _ H) as [row Hrow]. by rewrite Hb, bool_decide_true in Hrow. }
  assert (∀ rid c, expands q' rid c → expands q rid c ∧ rid ∉ gone) as Hbwd.
  { intros rid c H. induction H as [r d Hdr HLr|r s c0 d e Hdr H0 IH HLr HA]; pose proof (Hin _ _ HLr) as Hr;
      rewrite Hd, bool_decide_false in Hdr by done; rewrite HL in HLr by done; (split; [|done]).
    - by apply expands_plain.
    - eapply expands_delta; [done|apply IH|done..]. }
  assert (∀ rid row, t_blob q' !! rid = Some row → t_blob q !! rid = Some row ∧ rid ∉ gone) as Hrow.
  { intros rid row. rewrite Hb. case_bool_decide; [done|]. by intros ->. }
  split_and!; [|done|intros; split; [apply Hbwd|intros []; by apply Hfwd]].
  split.
  - intros rid row [H _]%Hrow. by apply (ok_row q Hok rid).
  - intros r1 r2 w1 w2 [H1 _]%Hrow [H2 _]%Hrow. by apply (ok_uuid q Hok).
  - intros rid s. rewrite Hd. case_bool_decide as Hg; [done|]. intros H.
    destruct (ok_delta q Hok _ _ H) as (row & Hr & Hn). exists row. by rewrite Hb, bool_decide_false.
  - intros rid row [H Hg]%Hrow Hn. destruct (ok_content q Hok rid row H Hn) as (c & He & Hc).
    exists c. by split; [apply Hfwd|].
Qed.
End facts.

(** ** Properties *)

(** C32. Purging always succeeds on a consistent repository, in whatever order
    the dependents are delivered: the shunned artifacts are gone, and every
    other artifact keeps its rid, its uuid and its content; the repository stays
    consistent, and no private mark is left without a blob. *)
Theorem Purge_correct {codec : Zlib} {laws : ZlibLaws} {sha3 : Sha3} q l
    (Hok : repo_ok q) (Hsm : small_contents q) (Hl : l ≡ₚ dependents q) :
  ∃ q' res, Purge_in q l = Ret (q', res) ∧ repo_ok q' ∧
    (∀ rid row, t_blob q' !! rid = Some row → t_shun q !! b_uuid row = None) ∧
    (∀ rid row, t_blob q !! rid = Some row → t_shun q !! b_uuid row = None →
       ∃ row', t_blob q' !! rid = Some row' ∧ b_uuid row' = b_uuid row) ∧
    (∀ rid c, expands q' rid c ↔ expands q rid c ∧ rid ∉ toshun q) ∧
    (∀ rid, rid ∈ t_private q' ↔ rid ∈ t_private q ∧ is_Some (t_blob q' !! rid)).
Proof.
  destruct (undelta_loop_ok l q) as (q1 & Hq1 & Hok1 & Hsa & Hd & Hs & Hp); [done|done| | |].
  { rewrite Hl. apply dependents_nodup. }
  { intros r. rewrite Hl. intros (s & Hr & _)%elem_dependents. by exists s. }
  assert (∀ r s, t_delta q1 !! r = Some s → s ∉ toshun q) as Hbase.
  { intros r s. rewrite Hd. case_bool_decide as Hr; [done|]. intros H Hg. apply Hr. rewrite Hl.
    apply elem_dependents. by exists s. }
  destruct (delete_shunned_ok q1 (toshun q) Hok1 Hbase) as (Hok2 & Hb & He). cbn zeta in *.
  unfold Purge_in. rewrite Hq1. cbn [mbind outcome_bind]. eexists _, _. split; [reflexivity|].
  set (q2 := delete_shunned (toshun q) q1) in *. split_and!; [done| | | |].
  - intros rid row. rewrite Hb. case_bool_decide as Hg; [done|]. intros H1.
    destruct (sa_back _ _ Hsa rid) as [row0 H0]; [by eexists|].
    destruct (sa_rows _ _ Hsa rid row0 H0) as (row1 & H1' & Hu & _).
    assert (row1 = row) as -> by congruence. rewrite Hu.
    destruct (t_shun q !! b_uuid row0) eqn:E; [|done]. destruct Hg. apply elem_toshun. eauto.
  - intros rid row H Hn. destruct (sa_rows _ _ Hsa rid row H) as (row1 & H1 & Hu & _).
    exists row1. rewrite Hb, bool_decide_false; [done|]. intros (row' & H' & Hs')%elem_toshun.
    assert (row' = row) as -> by congruence. rewrite Hn in Hs'. by destruct Hs'.
  - intros rid c. by rewrite He, (sa_expands _ _ Hsa).
  - intros rid. unfold q2, delete_shunned. cbn. rewrite elem_of_intersection, Hp. by rewrite elem_of_dom.
Qed.

(** ** Concrete runs *)

#[local] Existing Instance stored.
#[local] Existing Instance stored_laws.
#[local] Existing Instance test_sha3.

Definition expands_small `{Zlib} (q : repo) (rid : Z) : bool :=
  match Expand q rid with Ret c => (zlen c <? 2 ^ 32)%Z | _ => true end.

Lemma small_contents_check `{Zlib} q :
  map_Forall (λ rid _, expands_small q rid = true) (t_blob q) → small_contents q.
Proof.
  intros Hall rid c He. assert (is_Some (t_blob q !! rid)) as [row Hrow].
  { destruct He as [r d _ HL|r s c0 d e _ _ HL _]; by eapply Load_row. }
  pose proof (Hall rid row Hrow) as Hs. pose proof (expands_pos _ _ _ He).
  apply Expand_expands in He; [|done]. unfold expands_small in Hs. rewrite He in Hs. lia.
Qed.

Definition shun_a (q : repo) : repo := with_shun <[sha1_hex text_a := MkShunRow 0 None]> q.

Lemma shun_a_ok q : repo_ok q → repo_ok (shun_a q).
Proof. by apply (repo_ok_ext q). Qed.

Lemma shun_b_ok : repo_ok (shun_a repo_b).
Proof.
  apply shun_a_ok. refine (proj1 (storage_step_ok repo_a repo_b repo_a_ok _)).
  apply (step_delta _ text_b 1 _ 2 (sha1_hex text_b)); vm_compute; reflexivity.
Qed.

Lemma Purge_correct_witness :
  ∃ q' res, Purge_in (shun_a repo_b) [2%Z] = Ret (q', res) ∧ repo_ok q' ∧
    (∀ rid row, t_blob q' !! rid = Some row → t_shun (shun_a repo_b) !! b_uuid row = None) ∧
    (∀ rid row, t_blob (shun_a repo_b) !! rid = Some row → t_shun (shun_a repo_b) !! b_uuid row = None →
       ∃ row', t_blob q' !! rid = Some row' ∧ b_uuid row' = b_uuid row) ∧
    (∀ rid c, expands q' rid c ↔ expands (shun_a repo_b) rid c ∧ rid ∉ toshun (shun_a repo_b)) ∧
    (∀ rid, rid ∈ t_private q' ↔ rid ∈ t_private (shun_a repo_b) ∧ is_Some (t_blob q' !! rid)).
Proof.
  apply (Purge_correct (shun_a repo_b) [2%Z]); [exact shun_b_ok|apply small_contents_check; by_decide|].
  by_decide.
Defined.

Example purged_content :
  match Purge (shun_a repo_b) with
  | Ret (q, res) => (Expand q 2, Blob.Exists q (sha1_hex text_a), res) =
                    (Ret text_b, Ret None, MkPurge 1 1 0)
  | _ => False
  end.
Proof. vm_compute. reflexivity. Qed.

(** Purging leaves the rows of other tables behind: when the newest blob is a
    shunned phantom, the next artifact gets its rid and is taken for a phantom. *)
Definition shunned_phantom : repo := shun_a phantom_repo.
Definition after_purge : repo := match Purge shunned_phantom with Ret (q, _) => q | _ => empty_repo end.
Example rid_reused_as_phantom :
  match Store after_purge text_b with
  | Ret (q, rid, _) => Load q rid = Ret text_b ∧ IsPhantom q rid = Ret true
  | _ => False
  end.
Proof. vm_compute. auto. Qed.
