(* ===== verification/TableSync.v ===== *)
(** * Table synchronisation (src/internal/repo/tablesync.go, src/internal/sync/xdelete.go)

    Applications register tables whose rows travel between repositories: the
    definition is a row of [_sync_schema], the rows live in a table [x_<name>].
    A row is identified on the wire by a hash of its primary key; a row whose
    other columns are all NULL is a tombstone.

    Three classes state what lies outside: the conversions of the SQL driver and
    statements that are not of the expected shape ([Sql]), floating-point text
    ([Floats]), and package [encoding/json] ([Json]). *)
From S2P Require Import Prelude GoStrings Hash Blob Db.
From stdpp Require Import list gmap sets.

(** ** What the code relies on *)

Class Sql := {
  (** The stored form of a value bound to a column, by the column's affinity;
      [None] if the driver or the engine refuses it. *)
  sql_store : list ColumnDef → ColumnDef → value → option value;
  (** What scanning a stored value into an [any] gives. *)
  sql_scan : value → value;
  (** Equality of two stored values of a column. *)
  sql_equal : value → value → bool;
  (** Names that cannot be used as identifiers without quotes. *)
  sql_keyword : bytes → bool;
  (** What a statement does whose text is not one the model describes, because a
      name that was pasted into it is not a column of the table. *)
  sql_exec : db → bytes → list value → out db
}.

Class Floats := {
  fmt_float : Z → bytes;                  (* strconv.FormatFloat(f, 'f', -1, 64) *)
  parse_float : bytes → option Z;         (* strconv.ParseFloat *)
  float_of_int : Z → Z;                   (* float64(i) *)
  plain_float : Z → bool;                 (* neither NaN nor -0 *)
  int_of_float : Z → Z                    (* int64(f) *)
}.

Record TableDef := MkTableDef { td_Columns : list ColumnDef; td_Conflict : bytes }.

Class Json := {
  (** [dec.UseNumber(); dec.Decode(&row)]: an error, a nil map, or a map. *)
  json_row : bytes → option (option goMap);
  json_of_row : goMap → option bytes;
  json_def : bytes → option TableDef;
  json_of_def : TableDef → bytes;
  json_cols : bytes → option (list ColumnDef);
  json_of_cols : list ColumnDef → bytes
}.

Record TableInfo := MkTableInfo {
  ti_Name : bytes; ti_Def : TableDef; ti_MTime : Z; ti_CatHash : bytes; ti_HashTime : Z }.

(** ** Names *)

Definition reservedTables : list bytes :=
  [str "blob"; str "delta"; str "event"; str "mlink"; str "unversioned"].

Definition is_lower_ (c : byte) : bool :=
  ((97 <=? bval c) && (bval c <=? 122) || (bval c =? 95))%Z.
Definition is_digit (c : byte) : bool := ((48 <=? bval c) && (bval c <=? 57))%Z.

(** [^[a-z_][a-z0-9_]*$] *)
Definition validName (s : bytes) : bool :=
  match s with
  | c :: s => is_lower_ c && forallb (λ c, is_lower_ c || is_digit c) s
  | [] => false
  end.

Definition ValidateTableName (name : bytes) : out unit :=
  if bool_decide (name = []) then Fail (EInvalid name) else
  if negb (validName name) then Fail (EInvalid name) else
  if bool_decide (name ∈ reservedTables) then Fail (EInvalid name) else
  if HasPrefix name (str "x_") then Fail (EInvalid name) else Ret tt.

Definition ValidateColumnName (name : bytes) : out unit :=
  if bool_decide (name = []) then Fail (EInvalid name) else
  if negb (validName name) then Fail (EInvalid name) else Ret tt.

(** ** The registry *)

Definition EnsureSyncSchema (d : db) : db := on_schema (λ t, Some (default ∅ t)) d.

Definition to_lower (c : byte) : byte :=
  if ((65 <=? bval c) && (bval c <=? 90))%Z then byte_of (bval c + 32) else c.

(** [strings.ToLower], as far as it can give one of the four type names: the
    only other character that it maps to a letter of theirs is U+0130, the
    capital I with a dot, which becomes an "i". *)
Fixpoint lower_type (ty : bytes) : bytes :=
  match ty with
  | [] => []
  | xc4 :: xb0 :: ty' => "i"%byte :: lower_type ty'
  | c :: ty' => to_lower c :: lower_type ty'
  end.

Definition has_owner (conflict : bytes) : bool :=
  bool_decide (conflict = str "owner-write") || bool_decide (conflict = str "self-write").

Section tables.
Context {sql : Sql} {floats : Floats} {json : Json}.

(** The CREATE TABLE statement is accepted if its column names, with those that
    are added, are distinct identifiers. *)
Definition ddl_ok (def : TableDef) : bool :=
  let names := map cd_Name (td_Columns def) ++ [str "mtime"]
               ++ (if has_owner (td_Conflict def) then [str "_owner"] else []) in
  bool_decide (base.NoDup names) && negb (existsb sql_keyword names).

Definition supported_type (ty : bytes) : bool :=
  bool_decide (lower_type ty ∈ [str "text"; str "integer"; str "real"; str "blob"]).

Definition createExtensionTable (d : db) (name : bytes) (def : TableDef) : out db :=
  if negb (forallb (λ c, supported_type (cd_Type c)) (td_Columns def)) then Fail (EInvalid name) else
  if negb (existsb cd_PK (td_Columns def)) then Panic else
  match d_x d !! name with
  | Some _ => Ret d
  | None =>
    if negb (ddl_ok def) then Fail EConstraint else
    Ret (on_x <[name := MkXTable (td_Columns def) (has_owner (td_Conflict def)) []]> d)
  end.

Fixpoint validate_columns (cols : list ColumnDef) : out unit :=
  match cols with
  | [] => Ret tt
  | c :: cols => _ ← ValidateColumnName (cd_Name c); validate_columns cols
  end.

Definition valid_conflict (c : bytes) : bool :=
  bool_decide (c ∈ [str "mtime-wins"; str "self-write"; str "owner-write"]).

(** The registry is written before the table is created, in no transaction: the
    result is the database after the call, and whether it failed. *)
Definition RegisterSyncedTable (d : db) (name : bytes) (def : TableDef) (mtime : Z) :
    out (db * option db_error) :=
  match (_ ← ValidateTableName name;
         _ ← (if length (td_Columns def) =? 0 then Fail (EInvalid name) else Ret tt);
         _ ← validate_columns (td_Columns def);
         _ ← (if negb (existsb cd_PK (td_Columns def)) then Fail (EInvalid name) else Ret tt);
         if negb (valid_conflict (td_Conflict def)) then Fail (EInvalid name) else Ret tt) with
  | Fail e => Ret (d, Some e)
  | Panic => Panic
  | NoFuel => NoFuel
  | Ret _ =>
    match d_schema d with
    | None => Ret (d, Some ENoTable)
    | Some t =>
      let row := MkSchemaRow (json_of_cols (td_Columns def)) (td_Conflict def) mtime None 0 in
      let d := on_schema (λ _, Some (<[name := row]> t)) d in
      match createExtensionTable d name def with
      | Ret d => Ret (d, None)
      | Fail e => Ret (d, Some e)
      | Panic => Panic
      | NoFuel => NoFuel
      end
    end
  end.

Definition table_info (p : bytes * schemaRow) : out TableInfo :=
  match json_cols (sr_columns p.2) with
  | None => Fail EScan
  | Some cols =>
    Ret (MkTableInfo p.1 (MkTableDef cols (sr_conflict p.2)) (sr_mtime p.2)
           (default [] (sr_cat_hash p.2)) (sr_hash_time p.2))
  end.

Fixpoint table_infos (l : list (bytes * schemaRow)) : out (list TableInfo) :=
  match l with
  | [] => Ret []
  | p :: l => i ← table_info p; rest ← table_infos l; Ret (i :: rest)
  end.

Definition ListSyncedTables (d : db) : out (list TableInfo) :=
  match d_schema d with
  | None => Fail ENoTable
  | Some t => table_infos (sort_slice (λ a b, str_ltb a.1 b.1) (map_to_list t))
  end.

(** ** Primary keys *)

Definition normalizeValue (colType : bytes) (v : value) : out bytes :=
  if bool_decide (v = VNil) then Panic else
  if bool_decide (colType = str "integer") then
    match v with
    | VInt n => Ret (fmt_int n)
    | VFloat f => Ret (fmt_int (int_of_float f))
    | VNumber s => match ParseInt s with Some i => Ret (fmt_int i) | None => Panic end
    | _ => Panic
    end
  else if bool_decide (colType = str "real") then
    match v with
    | VFloat f => Ret (fmt_float f)
    | VInt n => Ret (fmt_float (float_of_int n))
    | VNumber s => match parse_float s with Some f => Ret (fmt_float f) | None => Panic end
    | _ => Panic
    end
  else if bool_decide (colType = str "text") then
    match v with VStr s => Ret s | _ => Panic end
  else if bool_decide (colType = str "blob") then
    match v with VBytes b => Ret (hex_encode b) | _ => Panic end
  else Panic.

Definition equals_sign : bytes := str "=".

Fixpoint pk_parts (cols : list ColumnDef) (pkValues : goMap) : out (list bytes) :=
  match cols with
  | [] => Ret []
  | col :: cols =>
    n ← normalizeValue (cd_Type col) (row_get pkValues (cd_Name col));
    parts ← pk_parts cols pkValues;
    Ret ((cd_Name col ++ equals_sign ++ n) :: parts)
  end.

Definition sort_columns (cols : list ColumnDef) : list ColumnDef :=
  sort_slice (λ a b, str_ltb (cd_Name a) (cd_Name b)) cols.

Definition pk_canonical (pkCols : list ColumnDef) (pkValues : goMap) : out bytes :=
  parts ← pk_parts (sort_columns pkCols) pkValues; Ret (GoStrings.Join parts [x00]).

(** The slice of key columns is nil when there are none. *)
Definition PKHash (pkCols : list ColumnDef) (pkValues : goMap) : out bytes :=
  if length pkCols =? 0 then Panic else
  canonical ← pk_canonical pkCols pkValues; Ret (sha1_hex canonical).

Definition pk_columns (def : TableDef) : list ColumnDef := filter (λ c, cd_PK c = true) (td_Columns def).

(** The key columns of a row. *)
Definition pk_values (cols : list ColumnDef) (r : goMap) : goMap :=
  foldl (λ m c, <[cd_Name c := row_get r (cd_Name c)]> m) ∅ cols.

Definition row_hash (def : TableDef) (r : goMap) : out bytes :=
  PKHash (pk_columns def) (pk_values (pk_columns def) r).

(** ** Rows *)

Definition comma : bytes := str ", ".

Definition upsert_text (tableName : bytes) (keys : list bytes) : bytes :=
  str "INSERT OR REPLACE INTO x_" ++ tableName ++ str "(" ++ GoStrings.Join (keys ++ [str "mtime"]) comma
  ++ str ") VALUES(" ++ GoStrings.Join (map (λ _, str "?") keys ++ [str "?"]) comma ++ str ")".

Definition find_column (cols : list ColumnDef) (name : bytes) : option ColumnDef :=
  head (filter (λ c, cd_Name c = name) cols).

(** The stored values of the columns that the statement names. *)
Fixpoint store_values (all cols : list ColumnDef) (r : goMap) : option goMap :=
  match cols with
  | [] => Some ∅
  | c :: cols =>
    v ← sql_store all c (row_get r (cd_Name c));
    m ← store_values all cols r;
    Some (<[cd_Name c := v]> m)
  end.

Definition same_pk (cols : list ColumnDef) (a b : goMap) : bool :=
  forallb (λ c, sql_equal (row_get a (cd_Name c)) (row_get b (cd_Name c))) cols.

(** The statement has the expected meaning if it names columns of the table, and
    a value for each key column. *)
Definition upsert_plain (t : xTable) (r : goMap) : bool :=
  forallb (λ p, (bool_decide (p.1 = str "_owner") && xt_owner t)
                || bool_decide (is_Some (find_column (xt_columns t) p.1))) (map_to_list r)
  && forallb (λ c, negb (cd_PK c) || negb (bool_decide (row_get r (cd_Name c) = VNil))) (xt_columns t).

Definition owner_value (r : goMap) : option bytes :=
  match r !! str "_owner" with None => Some [] | Some (VStr s) => Some s | Some _ => None end.

Definition sorted_keys (r : goMap) : list bytes := sort_slice str_ltb (map fst (map_to_list r)).

Definition UpsertXRow (d : db) (tableName : bytes) (r : goMap) (mtime : Z) : out db :=
  if bool_decide (tableName = []) then Panic else
  let keys := sorted_keys r in
  let text := upsert_text tableName keys in
  let args := map (row_get r) keys ++ [VInt mtime] in
  match d_x d !! tableName with
  | None => if validName tableName then Fail ENoTable else sql_exec d text args
  | Some t =>
    match owner_value r with
    | Some owner =>
      if negb (upsert_plain t r) then sql_exec d text args else
      match store_values (xt_columns t) (xt_columns t) r with
      | None => Fail EConstraint
      | Some vals =>
        let pk := filter (λ c, cd_PK c = true) (xt_columns t) in
        let rows := filter (λ x, same_pk pk (xw_vals x) vals = false) (xt_rows t) in
        Ret (on_x <[tableName := MkXTable (xt_columns t) (xt_owner t)
                                   (rows ++ [MkXRow vals mtime owner])]> d)
      end
    | None => sql_exec d text args
    end
  end.

(** The map that scanning a row of [SELECT *] gives: without [mtime], and without
    a column called [_owner], declared or added. *)
Definition scan_row (x : xRow) : goMap := delete (str "_owner") (sql_scan <$> xw_vals x).

(** The value of that column, if it is text. *)
Definition row_owner (x : xRow) : bytes :=
  match sql_scan <$> xw_vals x !! str "_owner" with
  | Some (VStr s) => s
  | Some _ => []
  | None => xw_owner x
  end.

Definition ListXRows (d : db) (tableName : bytes) : out (list (goMap * Z)) :=
  if bool_decide (tableName = []) then Panic else
  match d_x d !! tableName with
  | None => Fail ENoTable
  | Some t => Ret (map (λ x, (scan_row x, xw_mtime x))
                     (sort_slice (λ a b, xw_mtime a <? xw_mtime b)%Z (xt_rows t)))
  end.

Fixpoint lookup_loop (def : TableDef) (pkHash : bytes) (l : list (goMap * Z)) : out (option (goMap * Z)) :=
  match l with
  | [] => Ret None
  | (r, m) :: l =>
    computed ← row_hash def r;
    if bool_decide (computed = pkHash) then Ret (Some (r, m)) else lookup_loop def pkHash l
  end.

Definition LookupXRow (d : db) (tableName : bytes) (def : TableDef) (pkHash : bytes) :
    out (option (goMap * Z)) :=
  if bool_decide (tableName = []) then Panic else
  if bool_decide (pkHash = []) then Panic else
  rows ← ListXRows d tableName; lookup_loop def pkHash rows.

Fixpoint owner_loop (def : TableDef) (pkHash : bytes) (l : list xRow) : out bytes :=
  match l with
  | [] => Ret []
  | x :: l =>
    computed ← row_hash def (scan_row x);
    if bool_decide (computed = pkHash) then Ret (row_owner x) else owner_loop def pkHash l
  end.

Definition LookupXRowOwner (d : db) (tableName : bytes) (def : TableDef) (pkHash : bytes) : out bytes :=
  if bool_decide (tableName = []) then Panic else
  if bool_decide (pkHash = []) then Panic else
  if negb (has_owner (td_Conflict def)) then Ret [] else
  match d_x d !! tableName with
  | None => Fail ENoTable
  | Some t => owner_loop def pkHash (xt_rows t)
  end.

Definition IsTombstone (def : TableDef) (r : goMap) : out bool :=
  if length (td_Columns def) =? 0 then Panic else
  let values := filter (λ c, cd_PK c = false) (td_Columns def) in
  Ret (forallb (λ c, bool_decide (row_get r (cd_Name c) = VNil)) values
       && negb (length values =? 0)).

Definition delete_text (tableName : bytes) (values pk : list bytes) : bytes :=
  str "UPDATE x_" ++ tableName ++ str " SET "
  ++ GoStrings.Join (map (λ c, c ++ str " = NULL") values ++ [str "mtime = ?"]) comma
  ++ str " WHERE " ++ GoStrings.Join (map (λ c, c ++ str " = ?") pk) (str " AND ").

(** The statement names columns of the table, each once, and clears no column
    that is part of its key. *)
Definition delete_plain (t : xTable) (def : TableDef) : bool :=
  bool_decide (base.NoDup (map cd_Name (td_Columns def))) &&
  forallb (λ c, match find_column (xt_columns t) (cd_Name c) with
                | Some c' => cd_PK c || negb (cd_PK c')
                | None => false
                end) (td_Columns def).

Definition clear_row (values : list ColumnDef) (mtime : Z) (x : xRow) : xRow :=
  MkXRow (foldl (λ m c, <[cd_Name c := VNil]> m) (xw_vals x) values) mtime (xw_owner x).

Definition DeleteXRowByPKHash (d : db) (tableName : bytes) (def : TableDef) (pkHash : bytes) (mtime : Z) :
    out (db * bool) :=
  if length (td_Columns def) =? 0 then Panic else
  found ← LookupXRow d tableName def pkHash;
  match found with
  | None => Ret (d, false)
  | Some (r, currentMtime) =>
    if (mtime <? currentMtime)%Z then Ret (d, false) else
    let pk := pk_columns def in
    let values := filter (λ c, cd_PK c = false) (td_Columns def) in
    match d_x d !! tableName with
    | None => Fail ENoTable
    | Some t =>
      if negb (delete_plain t def) then
        d ← sql_exec d (delete_text tableName (map cd_Name values) (map cd_Name pk))
              (VInt mtime :: map (λ c, row_get r (cd_Name c)) pk);
        Ret (d, true)
      else
      let rows := map (λ x, if same_pk pk (xw_vals x) r then clear_row values mtime x else x) (xt_rows t) in
      Ret (on_x <[tableName := MkXTable (xt_columns t) (xt_owner t) rows]> d, true)
    end
  end.

(** ** Catalogs *)

Fixpoint catalog_entries (def : TableDef) (l : list (goMap * Z)) : out (list (bytes * Z)) :=
  match l with
  | [] => Ret []
  | (r, m) :: l =>
    dead ← IsTombstone def r;
    if dead : bool then catalog_entries def l else
    h ← row_hash def r;
    es ← catalog_entries def l;
    Ret ((h, m) :: es)
  end.

Definition catalog_text (entries : list (bytes * Z)) : bytes :=
  concat (map (λ e, e.1 ++ [SP] ++ fmt_int e.2 ++ [NL])
    (sort_slice (λ a b, str_ltb a.1 b.1) entries)).

Definition CatalogHash (d : db) (tableName : bytes) (def : TableDef) : out bytes :=
  rows ← ListXRows d tableName;
  entries ← catalog_entries def rows;
  Ret (sha1_hex (catalog_text entries)).

(** ** Rows from JSON (src/internal/sync/handler_tablesync.go, xdelete.go) *)

Definition coerce_column (r : goMap) (col : ColumnDef) : goMap :=
  match r !! cd_Name col with
  | Some (VNumber n) =>
    if bool_decide (cd_Type col = str "integer") then
      match ParseInt n with Some i => <[cd_Name col := VInt i]> r | None => r end
    else if bool_decide (cd_Type col = str "real") then
      match parse_float n with Some f => <[cd_Name col := VFloat f]> r | None => r end
    else <[cd_Name col := VStr n]> r
  | _ => r
  end.

(** The map may be nil, after decoding [null]. *)
Definition coerceJSONNumbers (r : option goMap) (def : TableDef) : out goMap :=
  match r with None => Panic | Some r => Ret (foldl coerce_column r (td_Columns def)) end.

Definition extractPKColumns (def : TableDef) : out (list bytes) :=
  if length (td_Columns def) =? 0 then Panic else Ret (map cd_Name (pk_columns def)).

Definition extractPKColumnDefs (def : TableDef) : out (list ColumnDef) :=
  if length (td_Columns def) =? 0 then Panic else Ret (pk_columns def).

Definition applyXDeleteLocally (d : db) (table : bytes) (def : TableDef) (pkHash : bytes) (mtime : Z)
    (pkData : slice) : out db :=
  '(d, deleted) ← DeleteXRowByPKHash d table def pkHash mtime;
  if deleted : bool then Ret d else
  existing ← LookupXRow d table def pkHash;
  match existing with
  | Some _ => Ret d
  | None =>
    match pkData with
    | None | Some [] => Ret d
    | Some data =>
      match json_row data with
      | None => Fail EScan
      | Some pk =>
        pk ← coerceJSONNumbers pk def;
        computedHash ← PKHash (pk_columns def) pk;
        if negb (bool_decide (computedHash = pkHash)) then Fail EUUIDMismatch else
        UpsertXRow d table pk mtime
      end
    end
  end.
End tables.

(** ** Lemmas: primary keys *)

Section pk.
Context {sql : Sql} {floats : Floats} {json : Json}.

(** The values a key column of a type can be hashed with. *)
Definition hashable (colType : bytes) (v : value) : bool :=
  match v with
  | VInt _ => bool_decide (colType = str "integer") || bool_decide (colType = str "real")
  | VFloat _ => bool_decide (colType = str "integer") || bool_decide (colType = str "real")
  | VNumber s => (bool_decide (colType = str "integer") && bool_decide (is_Some (ParseInt s)))
                 || (bool_decide (colType = str "real") && bool_decide (is_Some (parse_float s)))
  | VStr _ => bool_decide (colType = str "text")
  | VBytes _ => bool_decide (colType = str "blob")
  | VNil | VBool _ | VJson _ => false
  end.

Lemma normalizeValue_cases ty v :
  if hashable ty v then ∃ s, normalizeValue ty v = Ret s else normalizeValue ty v = Panic.
Proof.
  unfold normalizeValue. case_bool_decide as Hv; [by subst v|].
  destruct (decide (ty = str "integer")) as [->|H1].
  { destruct v as [|b|i|f|s|s|b|t]; try done; cbn; try by eexists.
    destruct (ParseInt s); cbn; by try eexists. }
  rewrite (bool_decide_false (ty = str "integer")) by done.
  destruct (decide (ty = str "real")) as [->|H2].
  { destruct v as [|b|i|f|s|s|b|t]; try done; cbn; try by eexists.
    destruct (parse_float s); cbn; by try eexists. }
  rewrite (bool_decide_false (ty = str "real")) by done.
  destruct (decide (ty = str "text")) as [->|H3].
  { destruct v as [|b|i|f|s|s|b|t]; try done; cbn; by try eexists. }
  rewrite (bool_decide_false (ty = str "text")) by done.
  destruct (decide (ty = str "blob")) as [->|H4].
  { destruct v as [|b|i|f|s|s|b|t]; try done; cbn; by try eexists. }
  rewrite (bool_decide_false (ty = str "blob")) by done.
  destruct v; cbn; rewrite ?(bool_decide_false (ty = _)) by done; done.
Qed.

Definition key_ok (r : goMap) (c : ColumnDef) : Prop := hashable (cd_Type c) (row_get r (cd_Name c)) = true.

Lemma pk_parts_cases cols r :
  (Forall (key_ok r) cols ∧ ∃ parts, pk_parts cols r = Ret parts) ∨
  (¬ Forall (key_ok r) cols ∧ pk_parts cols r = Panic).
Proof.
  induction cols as [|c cols IH]; cbn [pk_parts].
  { left. split; [constructor|by eexists]. }
  pose proof (normalizeValue_cases (cd_Type c) (row_get r (cd_Name c))) as Hn.
  destruct (hashable _ _) eqn:Hh.
  - destruct Hn as [s ->]. cbn [mbind outcome_bind].
    destruct IH as [[Hall [ps ->]]|[Hno ->]]; cbn [mbind outcome_bind].
    + left. split; [by constructor|by eexists].
    + right. split; [|done]. by intros [_ H]%list.Forall_cons.
  - rewrite Hn. right. split; [|done]. intros [Hk _]%list.Forall_cons. unfold key_ok in Hk. congruence.
Qed.

Lemma sort_columns_perm cols : sort_columns cols ≡ₚ cols.
Proof. apply sort_slice_perm. Qed.

Lemma PKHash_cases cols r :
  (cols ≠ [] ∧ Forall (key_ok r) cols ∧ ∃ c, pk_canonical cols r = Ret c ∧ PKHash cols r = Ret (sha1_hex c)) ∨
  ((cols = [] ∨ ¬ Forall (key_ok r) cols) ∧ PKHash cols r = Panic).
Proof.
  unfold PKHash, pk_canonical. destruct cols as [|c0 cols]; [right; by split; [left|]|].
  cbn [length Nat.eqb]. destruct (pk_parts_cases (sort_columns (c0 :: cols)) r) as [[H [ps ->]]|[H ->]].
  - left. cbn [mbind outcome_bind]. rewrite sort_columns_perm in H. eauto.
  - right. cbn [mbind outcome_bind]. rewrite sort_columns_perm in H. auto.
Qed.

(** ** Lists of separated parts *)

Lemma join_nul_inj (l k : list bytes) :
  length l = length k → Forall (λ p, x00 ∉ p) l → Forall (λ p, x00 ∉ p) k →
  GoStrings.Join l [x00] = GoStrings.Join k [x00] → l = k.
Proof.
  revert k. induction l as [|p l IH]; intros [|p' k]; try done.
  intros Hlen [Hp Hl']%list.Forall_cons [Hp' Hk']%list.Forall_cons.
  destruct l as [|q l], k as [|q' k]; try done.
  - cbn. by intros ->.
  - rewrite !Join_cons2. intros Heq. cbn [app] in Heq. apply split_sep in Heq as [-> Heq]; [|done..].
    f_equal. apply IH; [cbn in *; lia|done..].
Qed.

(** The rendered key columns hold no NUL byte. *)
Definition nul_free (cols : list ColumnDef) (r : goMap) : Prop :=
  Forall (λ c, (x00 ∉ cd_Name c) ∧
    ∀ s, normalizeValue (cd_Type c) (row_get r (cd_Name c)) = Ret s → x00 ∉ s) cols.

Lemma pk_parts_nul cols r ps : nul_free cols r → pk_parts cols r = Ret ps →
  Forall (λ p, x00 ∉ p) ps ∧ length ps = length cols.
Proof.
  intros Hf. revert ps. induction Hf as [|c cols [Hn Hs] Hf IH]; intros ps; cbn [pk_parts].
  { intros [= <-]. by split. }
  intros H. inv_bind. destruct (IH _ Ha0) as [H1 H2]. split; [|cbn; lia]. apply list.Forall_cons. split; [|done].
  intros Hin. apply elem_of_app in Hin as [Hin|Hin]; [done|].
  apply elem_of_cons in Hin as [Hin|Hin]; [done|by apply (Hs _ Ha)].
Qed.

Lemma pk_parts_inj cols r1 r2 ps : pk_parts cols r1 = Ret ps → pk_parts cols r2 = Ret ps →
  ∀ c, c ∈ cols → normalizeValue (cd_Type c) (row_get r1 (cd_Name c))
                  = normalizeValue (cd_Type c) (row_get r2 (cd_Name c)).
Proof.
  revert ps. induction cols as [|c cols IH]; intros ps; [by intros _ _ c ?%elem_of_nil|].
  cbn [pk_parts]. intros H1 H2.
  apply bind_ret_inv in H1 as (n1 & Hn1 & H1). apply bind_ret_inv in H1 as (ps1 & Hp1 & H1).
  apply bind_ret_inv in H2 as (n2 & Hn2 & H2). apply bind_ret_inv in H2 as (ps2 & Hp2 & H2).
  rewrite <- H2 in H1. injection H1 as He Hp. apply app_inv_head in He. injection He as He.
  intros x [->|Hx]%elem_of_cons; [congruence|]. subst. by eapply IH.
Qed.
End pk.

(** ** Properties: primary keys *)

(** Hashing a primary key panics exactly if there is no key column, or some key
    column has a value its declared type cannot be rendered from: nothing, or
    JSON of another type; otherwise it returns. Both come from the peer. *)
Theorem PKHash_panics_iff {floats : Floats} cols r :
  (PKHash cols r = Panic ↔
     cols = [] ∨ ∃ c, c ∈ cols ∧ hashable (cd_Type c) (row_get r (cd_Name c)) = false) ∧
  (PKHash cols r ≠ Panic → ∃ h, PKHash cols r = Ret h).
Proof.
  assert (¬ Forall (key_ok r) cols ↔ ∃ c, c ∈ cols ∧ hashable (cd_Type c) (row_get r (cd_Name c)) = false) as Hex.
  { split.
    - intros H. apply not_Forall_Exists in H; [|intros c; unfold key_ok; solve_decision].
      apply Exists_exists in H as (c & Hc & Hk). exists c. split; [done|].
      by apply not_true_iff_false.
    - intros (c & Hc & Hk) H. rewrite Forall_forall in H. specialize (H c Hc). unfold key_ok in H. congruence. }
  destruct (PKHash_cases cols r) as [(Hne & Hall & c & _ & ->)|[H ->]].
  - split; [|by eexists]. split; [done|]. rewrite <- Hex. by intros [->|?].
  - split; [|done]. split; [|done]. intros _. by rewrite <- Hex.
Qed.

(** Keys without NUL bytes are told apart: if the texts that are hashed for two
    rows are equal, all key columns render alike. *)
Theorem pk_canonical_injective {floats : Floats} cols r1 r2 s
    (H1 : pk_canonical cols r1 = Ret s) (H2 : pk_canonical cols r2 = Ret s)
    (Hn1 : nul_free cols r1) (Hn2 : nul_free cols r2) c (Hc : c ∈ cols) :
  normalizeValue (cd_Type c) (row_get r1 (cd_Name c)) = normalizeValue (cd_Type c) (row_get r2 (cd_Name c)).
Proof.
  unfold pk_canonical in *.
  apply bind_ret_inv in H1 as (a0 & Ha0 & H1). apply bind_ret_inv in H2 as (a & Ha & H2).
  injection H1 as H1. injection H2 as H2.
  assert (nul_free (sort_columns cols) r1) as Hs1 by (unfold nul_free; by rewrite sort_columns_perm).
  assert (nul_free (sort_columns cols) r2) as Hs2 by (unfold nul_free; by rewrite sort_columns_perm).
  destruct (pk_parts_nul _ _ _ Hs1 Ha0) as [F1 L1], (pk_parts_nul _ _ _ Hs2 Ha) as [F2 L2].
  apply (pk_parts_inj (sort_columns cols) r1 r2 a0); [done| |by rewrite sort_columns_perm].
  rewrite (join_nul_inj a0 a); [done|congruence|done|done|congruence].
Qed.

(** ** Lemmas: tables whose keys can be hashed *)

(** Values the database gives back as they were: an empty blob may come back as
    nothing, NaN is stored as NULL, -0 as 0, and text as the driver likes. *)
Definition stable_key {floats : Floats} (v : value) : bool :=
  match v with VBytes [] | VNumber _ => false | VFloat f => plain_float f | _ => true end.

Class SqlLaws `{Sql} `{Floats} : Prop := {
  (** A key that can be hashed is still rendered alike when it has been stored
      and scanned. *)
  store_scan : ∀ cols c v v' s, stable_key v = true → sql_store cols c v = Some v' →
    normalizeValue (cd_Type c) v = Ret s → normalizeValue (cd_Type c) (sql_scan v') = Ret s;
  scan_nil : sql_scan VNil = VNil;
  (** A column equals what was scanned from it, unless it is NULL. *)
  equal_scan : ∀ v, sql_scan v ≠ VNil → sql_equal v (sql_scan v) = true
}.

Section rows.
Context {sql : Sql} {floats : Floats} {json : Json}.

(** The table has the columns of its definition, and every row has a key. *)
Record table_ok (def : TableDef) (t : xTable) : Prop := {
  to_columns : xt_columns t = td_Columns def;
  to_names : base.NoDup (map cd_Name (td_Columns def));
  to_owner : str "_owner" ∉ map cd_Name (td_Columns def);
  to_pk : pk_columns def ≠ [];
  to_keys : ∀ x, x ∈ xt_rows t → Forall (key_ok (scan_row x)) (pk_columns def)
}.

Lemma pk_values_get cols r c : c ∈ cols →
  row_get (pk_values cols r) (cd_Name c) = row_get r (cd_Name c).
Proof.
  unfold pk_values. intros Hc.
  assert (∀ m, (∃ v, m !! cd_Name c = Some v ∧ v = row_get r (cd_Name c)) ∨ c ∈ cols →
    row_get (foldl (λ m c, <[cd_Name c := row_get r (cd_Name c)]> m) m cols) (cd_Name c)
    = row_get r (cd_Name c)) as H; [|apply H; by right].
  clear Hc. induction cols as [|x cols IH]; intros m Hm; cbn [foldl].
  { destruct Hm as [(v & Hv & ->)|?%elem_of_nil]; [|done]. unfold row_get at 1. by rewrite Hv. }
  apply IH. destruct (decide (cd_Name x = cd_Name c)) as [Hx|Hx].
  - left. exists (row_get r (cd_Name c)). by rewrite Hx, lookup_insert_eq.
  - destruct Hm as [(v & Hv & ->)|[->|Hm]%elem_of_cons]; [left|done|by right].
    eexists. by rewrite lookup_insert_ne.
Qed.

Lemma key_ok_values cols r : Forall (key_ok (pk_values cols r)) cols ↔ Forall (key_ok r) cols.
Proof.
  rewrite !Forall_forall. unfold key_ok.
  by split; intros H c Hc; specialize (H c Hc); rewrite pk_values_get in *.
Qed.

Lemma pk_parts_ext cols r1 r2 :
  (∀ c, c ∈ cols → normalizeValue (cd_Type c) (row_get r1 (cd_Name c))
                   = normalizeValue (cd_Type c) (row_get r2 (cd_Name c))) →
  pk_parts cols r1 = pk_parts cols r2.
Proof.
  induction cols as [|c cols IH]; intros H; [done|]. cbn [pk_parts]. rewrite (H c) by by left.
  rewrite IH; [done|]. intros x Hx. apply H. by right.
Qed.

(** The hash of a row depends on how its key columns render. *)
Lemma row_hash_ext def r1 r2 :
  (∀ c, c ∈ pk_columns def → normalizeValue (cd_Type c) (row_get r1 (cd_Name c))
                   = normalizeValue (cd_Type c) (row_get r2 (cd_Name c))) →
  row_hash def r1 = row_hash def r2.
Proof.
  intros H. unfold row_hash, PKHash, pk_canonical.
  rewrite (pk_parts_ext _ _ (pk_values (pk_columns def) r2)); [done|].
  intros c. rewrite sort_columns_perm. intros Hc. rewrite !pk_values_get by done. by apply H.
Qed.

Lemma row_hash_ret def r : pk_columns def ≠ [] → Forall (key_ok r) (pk_columns def) →
  ∃ h, row_hash def r = Ret h.
Proof.
  intros Hpk Hk. unfold row_hash.
  destruct (PKHash_cases (pk_columns def) (pk_values (pk_columns def) r)) as [(_ & _ & c & _ & H)|[H _]].
  - by eexists.
  - rewrite key_ok_values in H. by destruct H.
Qed.

Lemma row_hash_keys def r h : row_hash def r = Ret h → Forall (key_ok r) (pk_columns def).
Proof.
  unfold row_hash. intros H.
  destruct (PKHash_cases (pk_columns def) (pk_values (pk_columns def) r)) as [(_ & Hk & _)|[_ Hp]].
  - by rewrite key_ok_values in Hk.
  - congruence.
Qed.

(** Searching a list in which every row has a hash. *)
Definition hashed (def : TableDef) (p : goMap * Z) : Prop := ∃ h, row_hash def p.1 = Ret h.

Lemma lookup_loop_none def h l :
  Forall (hashed def) l → (∀ p, p ∈ l → row_hash def p.1 ≠ Ret h) → lookup_loop def h l = Ret None.
Proof.
  induction l as [|[r m] l IH]; intros Hl Hn; [done|]. apply list.Forall_cons in Hl as [[k Hk] Hl].
  cbn [lookup_loop]. cbn in Hk. rewrite Hk. cbn [mbind outcome_bind]. rewrite bool_decide_false.
  - apply IH; [done|]. intros p Hp. apply Hn. by right.
  - intros ->. by apply (Hn (r, m)); [left|].
Qed.

Lemma lookup_loop_unique def h l p :
  Forall (hashed def) l → p ∈ l → row_hash def p.1 = Ret h →
  (∀ p', p' ∈ l → row_hash def p'.1 = Ret h → p' = p) → lookup_loop def h l = Ret (Some p).
Proof.
  induction l as [|[r m] l IH]; intros Hl Hp Hh Hu; [by apply elem_of_nil in Hp|].
  apply list.Forall_cons in Hl as [[k Hk] Hl]. cbn [lookup_loop]. cbn in Hk. rewrite Hk.
  cbn [mbind outcome_bind]. case_bool_decide as Hd.
  - subst k. by rewrite (Hu (r, m)) by (done || by left).
  - apply elem_of_cons in Hp as [->|Hp]; [cbn in Hh; congruence|]. apply IH; [done..|].
    intros p' Hp'. apply Hu. by right.
Qed.

Lemma lookup_loop_total def h l : Forall (hashed def) l → ∃ res, lookup_loop def h l = Ret res.
Proof.
  induction l as [|[r m] l IH]; intros Hl; [by eexists|]. apply list.Forall_cons in Hl as [[k Hk] Hl].
  cbn [lookup_loop]. cbn in Hk. rewrite Hk. cbn [mbind outcome_bind].
  case_bool_decide; [by eexists|by apply IH].
Qed.

Lemma lookup_loop_some def h l p : lookup_loop def h l = Ret (Some p) → p ∈ l ∧ row_hash def p.1 = Ret h.
Proof.
  induction l as [|[r m] l IH]; [done|]. cbn [lookup_loop]. intros H.
  apply bind_ret_inv in H as (k & Hk & H). case_bool_decide as Hd.
  - injection H as <-. subst k. by split; [left|].
  - apply IH in H as [H1 H2]. by split; [right|].
Qed.

(** The list that [ListXRows] delivers. *)
Definition listed (t : xTable) : list (goMap * Z) :=
  map (λ x, (scan_row x, xw_mtime x)) (sort_slice (λ a b, xw_mtime a <? xw_mtime b)%Z (xt_rows t)).

Lemma elem_listed t p : p ∈ listed t ↔ ∃ x, x ∈ xt_rows t ∧ p = (scan_row x, xw_mtime x).
Proof.
  unfold listed. rewrite list_elem_of_fmap. split; intros (x & H1 & H2); exists x.
  - by rewrite sort_slice_perm in H2.
  - by rewrite sort_slice_perm.
Qed.

Lemma ListXRows_listed d name t : name ≠ [] → d_x d !! name = Some t → ListXRows d name = Ret (listed t).
Proof. intros Hn Ht. unfold ListXRows. rewrite bool_decide_false by done. by rewrite Ht. Qed.

Lemma listed_hashed def t : table_ok def t → Forall (hashed def) (listed t).
Proof.
  intros [_ _ _ Hpk Hk]. apply Forall_forall. intros p (x & Hx & ->)%elem_listed.
  apply row_hash_ret; [done|]. by apply Hk.
Qed.

Lemma LookupXRow_listed d name def t h : name ≠ [] → h ≠ [] → d_x d !! name = Some t →
  LookupXRow d name def h = lookup_loop def h (listed t).
Proof.
  intros Hn Hh Ht. unfold LookupXRow. rewrite !bool_decide_false by done.
  by rewrite (ListXRows_listed d name t).
Qed.

Lemma catalog_entries_total def l :
  td_Columns def ≠ [] → Forall (hashed def) l → ∃ es, catalog_entries def l = Ret es.
Proof.
  intros Hc. induction l as [|[r m] l IH]; intros Hl; [by eexists|].
  apply list.Forall_cons in Hl as [[k Hk] Hl]. destruct (IH Hl) as [es Hes]. cbn [catalog_entries].
  unfold IsTombstone. destruct (td_Columns def) as [|c0 cs] eqn:E; [done|]. cbn [length Nat.eqb mbind outcome_bind].
  destruct (_ && _); [by eexists|]. cbn in Hk. rewrite Hk, Hes. by eexists.
Qed.

(** ** Storing a row *)

Lemma find_column_self cols c : base.NoDup (map cd_Name cols) → c ∈ cols → find_column cols (cd_Name c) = Some c.
Proof.
  unfold find_column. induction cols as [|x cols IH]; intros Hnd Hc; [by apply elem_of_nil in Hc|].
  cbn in Hnd. apply list.NoDup_cons in Hnd as [Hx Hnd]. rewrite filter_cons.
  apply elem_of_cons in Hc as [->|Hc]; [by rewrite decide_True|].
  rewrite decide_False; [by apply IH|]. intros He. apply Hx. rewrite He. by apply list_elem_of_fmap_2.
Qed.

Lemma store_values_get all cols r m c :
  base.NoDup (map cd_Name cols) → store_values all cols r = Some m → c ∈ cols →
  ∃ v, m !! cd_Name c = Some v ∧ sql_store all c (row_get r (cd_Name c)) = Some v.
Proof.
  revert m. induction cols as [|x cols IH]; intros m Hnd H Hc; [by apply elem_of_nil in Hc|].
  cbn in Hnd. apply list.NoDup_cons in Hnd as [Hx Hnd]. cbn [store_values] in H.
  apply bind_Some in H as (v & Hv & H). apply bind_Some in H as (m0 & Hm0 & [= <-]).
  apply elem_of_cons in Hc as [->|Hc].
  - exists v. by rewrite lookup_insert_eq.
  - destruct (IH m0 Hnd Hm0 Hc) as (w & Hw & Hs). exists w. split; [|done].
    rewrite lookup_insert_ne; [done|]. intros He. apply Hx. rewrite He. by apply list_elem_of_fmap_2.
Qed.

Lemma row_get_scan x col v : xw_vals x !! col = Some v → col ≠ str "_owner" →
  row_get (scan_row x) col = sql_scan v.
Proof. intros H Hn. unfold row_get, scan_row. by rewrite lookup_delete_ne, lookup_fmap, H. Qed.

Lemma not_owner def t c : table_ok def t → c ∈ td_Columns def → cd_Name c ≠ str "_owner".
Proof. intros Hok Hc He. apply (to_owner _ _ Hok). rewrite <- He. by apply list_elem_of_fmap_2. Qed.

Lemma pk_columns_in def c : c ∈ pk_columns def → c ∈ td_Columns def ∧ cd_PK c = true.
Proof. unfold pk_columns. intros [? ?]%list_elem_of_filter. done. Qed.
End rows.

Section writes.
Context {sql : Sql} {floats : Floats} {json : Json} {laws : SqlLaws}.

Definition stable_keys (def : TableDef) (r : goMap) : Prop :=
  Forall (λ c, stable_key (row_get r (cd_Name c)) = true) (pk_columns def).

(** The new row renders its key as the row that was given. *)
Lemma stored_key def t r m c :
  table_ok def t → store_values (xt_columns t) (xt_columns t) r = Some m → stable_keys def r →
  c ∈ pk_columns def → key_ok r c → ∀ mt o,
  normalizeValue (cd_Type c) (row_get (scan_row (MkXRow m mt o)) (cd_Name c))
  = normalizeValue (cd_Type c) (row_get r (cd_Name c)).
Proof.
  intros Hok. pose proof Hok as [Hcols Hnd _ _ _]. intros Hm Hb Hc Hk mt o. rewrite Hcols in Hm.
  destruct (pk_columns_in def c Hc) as [Hin _].
  destruct (store_values_get _ _ _ _ c Hnd Hm Hin) as (v & Hv & Hs).
  rewrite (row_get_scan (MkXRow m mt o) (cd_Name c) v Hv) by (by eapply not_owner).
  pose proof (normalizeValue_cases (cd_Type c) (row_get r (cd_Name c))) as Hn.
  unfold key_ok in Hk. rewrite Hk in Hn. destruct Hn as [s Hs'].
  rewrite Hs'. eapply store_scan; [|exact Hs|exact Hs'].
  unfold stable_keys in Hb. rewrite Forall_forall in Hb. by apply Hb.
Qed.

Lemma key_ok_normal r r' c :
  normalizeValue (cd_Type c) (row_get r (cd_Name c)) = normalizeValue (cd_Type c) (row_get r' (cd_Name c)) →
  key_ok r' c → key_ok r c.
Proof.
  unfold key_ok. intros He Hk.
  pose proof (normalizeValue_cases (cd_Type c) (row_get r (cd_Name c))) as H1.
  pose proof (normalizeValue_cases (cd_Type c) (row_get r' (cd_Name c))) as H2. rewrite Hk in H2.
  destruct H2 as [s Hs]. destruct (hashable (cd_Type c) (row_get r (cd_Name c))); [done|]. congruence.
Qed.

Lemma table_columns def t : table_ok def t → td_Columns def ≠ [].
Proof. intros [_ _ _ H _] E. apply H. unfold pk_columns. by rewrite E. Qed.

Lemma same_pk_scan x c : key_ok (scan_row x) c →
  sql_equal (row_get (xw_vals x) (cd_Name c)) (row_get (scan_row x) (cd_Name c)) = true.
Proof.
  unfold key_ok, row_get, scan_row.
  destruct (decide (cd_Name c = str "_owner")) as [->|Hn]; [by rewrite lookup_delete_eq|].
  rewrite lookup_delete_ne, lookup_fmap by done.
  destruct (xw_vals x !! cd_Name c) as [v|]; cbn; [|done].
  intros H. apply equal_scan. by intros E; rewrite E in H.
Qed.

(** What an upsert with the expected statement leaves. *)
Definition upserted (t : xTable) (m : goMap) (mtime : Z) (owner : bytes) : xTable :=
  MkXTable (xt_columns t) (xt_owner t)
    (filter (λ x, same_pk (filter (λ c, cd_PK c = true) (xt_columns t)) (xw_vals x) m = false) (xt_rows t)
     ++ [MkXRow m mtime owner]).

Lemma UpsertXRow_ret d name t r mtime owner d' :
  d_x d !! name = Some t → owner_value r = Some owner → upsert_plain t r = true →
  UpsertXRow d name r mtime = Ret d' →
  ∃ m, store_values (xt_columns t) (xt_columns t) r = Some m ∧
    d' = on_x <[name := upserted t m mtime owner]> d.
Proof.
  intros Ht Ho Hp. unfold UpsertXRow. case_bool_decide; [done|]. rewrite Ht, Ho, Hp. cbn [negb].
  destruct (store_values _ _ r) as [m|]; [|done]. intros [= <-]. by exists m.
Qed.

Lemma upserted_ok def t r m mtime owner h :
  table_ok def t → store_values (xt_columns t) (xt_columns t) r = Some m → stable_keys def r →
  row_hash def r = Ret h →
  table_ok def (upserted t m mtime owner) ∧ row_hash def (scan_row (MkXRow m mtime owner)) = Ret h.
Proof.
  intros Hok Hm Hb Hh. pose proof (row_hash_keys _ _ _ Hh) as Hk. rewrite Forall_forall in Hk.
  assert (∀ c, c ∈ pk_columns def →
    normalizeValue (cd_Type c) (row_get (scan_row (MkXRow m mtime owner)) (cd_Name c))
    = normalizeValue (cd_Type c) (row_get r (cd_Name c))) as Hn.
  { intros c Hc. by apply (stored_key def t); [..|apply Hk]. }
  split; [|by rewrite (row_hash_ext _ _ r)].
  destruct Hok as [H1 H2 H3 H4 H5]. split; [done..|]. cbn [xt_rows upserted].
  intros x [[_ Hx]%list_elem_of_filter| ->%list_elem_of_singleton]%elem_of_app; [by apply H5|].
  apply Forall_forall. intros c Hc. apply (key_ok_normal _ r); [by apply Hn|by apply Hk].
Qed.

(** ** Deleting *)

Lemma clear_row_get values mtime x c : c ∉ map cd_Name values →
  xw_vals (clear_row values mtime x) !! c = xw_vals x !! c.
Proof.
  unfold clear_row. cbn. generalize (xw_vals x) as m. induction values as [|v values IH]; intros m Hc; [done|].
  cbn in *. apply not_elem_of_cons in Hc as [Hv Hc]. rewrite IH by done. by rewrite lookup_insert_ne.
Qed.

Lemma clear_row_nil values mtime x c : c ∈ map cd_Name values →
  xw_vals (clear_row values mtime x) !! c = Some VNil.
Proof.
  unfold clear_row. cbn. intros Hc.
  assert (∀ m : goMap, m !! c = Some VNil ∨ c ∈ map cd_Name values →
    foldl (λ m c, <[cd_Name c := VNil]> m) m values !! c = Some VNil) as H; [|apply H; by right].
  clear Hc. induction values as [|v values IH]; intros m Hm; cbn.
  { by destruct Hm as [|?%elem_of_nil]. }
  apply IH. destruct (decide (cd_Name v = c)) as [<-|Hv]; [left; by rewrite lookup_insert_eq|].
  rewrite lookup_insert_ne by done. destruct Hm as [|[->|]%elem_of_cons]; auto. done.
Qed.

Definition value_columns (def : TableDef) : list ColumnDef := filter (λ c, cd_PK c = false) (td_Columns def).

Lemma names_inj (l : list ColumnDef) c c' :
  base.NoDup (map cd_Name l) → c ∈ l → c' ∈ l → cd_Name c = cd_Name c' → c = c'.
Proof.
  intros Hnd H1 H2 He. pose proof (find_column_self l c Hnd H1) as F1.
  pose proof (find_column_self l c' Hnd H2) as F2. congruence.
Qed.

Lemma pk_not_value def c : base.NoDup (map cd_Name (td_Columns def)) → c ∈ pk_columns def →
  cd_Name c ∉ map cd_Name (value_columns def).
Proof.
  intros Hnd Hc Hin. apply list_elem_of_fmap in Hin as (c' & He & [Hv Hin']%list_elem_of_filter).
  destruct (pk_columns_in def c Hc) as [Hin Hpk].
  rewrite (names_inj _ c c' Hnd Hin Hin' He) in Hpk. congruence.
Qed.

Lemma delete_plain_ok def t : table_ok def t → delete_plain t def = true.
Proof.
  intros [H1 H2 _ _ _]. unfold delete_plain. rewrite bool_decide_true by done. cbn [andb].
  apply forallb_forall. intros c Hc%list_elem_of_In. rewrite H1, (find_column_self _ _ H2 Hc).
  by destruct (cd_PK c).
Qed.

(** The rows after a deletion of those with the key of [r]. *)
Definition cleared (def : TableDef) (t : xTable) (r : goMap) (mtime : Z) : xTable :=
  MkXTable (xt_columns t) (xt_owner t)
    (map (λ x, if same_pk (pk_columns def) (xw_vals x) r then clear_row (value_columns def) mtime x else x)
       (xt_rows t)).

Lemma clear_row_key def x mtime c : base.NoDup (map cd_Name (td_Columns def)) → c ∈ pk_columns def →
  row_get (scan_row (clear_row (value_columns def) mtime x)) (cd_Name c) = row_get (scan_row x) (cd_Name c).
Proof.
  intros Hnd Hc. unfold row_get, scan_row.
  destruct (decide (cd_Name c = str "_owner")) as [->|Hn]; [by rewrite !lookup_delete_eq|].
  rewrite !lookup_delete_ne, !lookup_fmap by done.
  by rewrite clear_row_get by by apply pk_not_value.
Qed.

Lemma cleared_ok def t r mtime : table_ok def t → table_ok def (cleared def t r mtime).
Proof.
  intros [H1 H2 H3 H4 H5]. split; [done..|]. cbn [xt_rows cleared].
  intros x (y & -> & Hy)%list_elem_of_fmap. destruct (same_pk _ _ _); [|by apply H5].
  specialize (H5 y Hy). rewrite Forall_forall in *. intros c Hc. unfold key_ok.
  rewrite clear_row_key by done. by apply H5.
Qed.

Lemma DeleteXRowByPKHash_cases d name def t h mtime :
  name ≠ [] → h ≠ [] → td_Columns def ≠ [] → d_x d !! name = Some t → table_ok def t →
  ∃ found, LookupXRow d name def h = Ret found ∧
    DeleteXRowByPKHash d name def h mtime = Ret
      match found with
      | Some (r, m) => if (mtime <? m)%Z then (d, false)
                       else (on_x <[name := cleared def t r mtime]> d, true)
      | None => (d, false)
      end.
Proof.
  intros Hn Hh Hc Ht Hok. rewrite (LookupXRow_listed d name def t h) by done.
  destruct (lookup_loop_total def h (listed t) (listed_hashed def t Hok)) as [found Hf].
  exists found. split; [done|]. unfold DeleteXRowByPKHash.
  destruct (td_Columns def) as [|c0 cs] eqn:E; [done|]. cbn [length Nat.eqb].
  rewrite (LookupXRow_listed d name def t h) by done. rewrite Hf. cbn [mbind outcome_bind].
  destruct found as [[r m]|]; [|done]. destruct (mtime <? m)%Z; [done|]. rewrite Ht.
  rewrite (delete_plain_ok def t Hok). cbn [negb]. unfold cleared, value_columns. by rewrite E.
Qed.
End writes.

(** ** What the operations leave alone *)

(** The databases differ in their extension tables at most. *)
Definition x_only (d d' : db) : Prop := on_x (λ _, ∅) d' = on_x (λ _, ∅) d.

#[global] Instance x_only_preorder : PreOrder x_only.
Proof. split; unfold x_only; [by intros d|by intros d1 d2 d3 -> ->]. Qed.

Lemma x_only_on_x f d : x_only d (on_x f d).
Proof. done. Qed.

Definition valid_keys (r : goMap) : Prop := map_Forall (λ k _, validName k = true) r.
Definition valid_def (def : TableDef) : Prop :=
  Forall (λ c, validName (cd_Name c) = true) (td_Columns def).

(** A statement into which only identifiers were pasted writes to its table. *)
Class SqlExecLaws `{Sql} : Prop := {
  exec_upsert : ∀ d table keys args d', validName table = true →
    Forall (λ k, validName k = true) keys →
    sql_exec d (upsert_text table keys) args = Ret d' → ∃ t, d' = on_x <[table := t]> d;
  exec_delete : ∀ d table values pk args d', validName table = true →
    Forall (λ k, validName k = true) values → Forall (λ k, validName k = true) pk →
    sql_exec d (delete_text table values pk) args = Ret d' → ∃ t, d' = on_x <[table := t]> d
}.

Section frames.
Context {sql : Sql} {floats : Floats} {json : Json} {laws : SqlExecLaws}.

Lemma sorted_keys_valid r : valid_keys r → Forall (λ k, validName k = true) (sorted_keys r).
Proof.
  intros Hr. apply sort_slice_Forall, Forall_forall. intros k (p & -> & Hp)%list_elem_of_fmap.
  destruct p as [k v]. apply elem_of_map_to_list in Hp. exact (Hr k v Hp).
Qed.

Lemma UpsertXRow_frame d table r mtime d' :
  validName table = true → valid_keys r → UpsertXRow d table r mtime = Ret d' → x_only d d'.
Proof.
  intros Ht Hr. unfold UpsertXRow. case_bool_decide; [done|]. cbv zeta.
  pose proof (sorted_keys_valid r Hr) as Hk.
  destruct (d_x d !! table) as [t|]; [|by rewrite Ht].
  destruct (owner_value r) as [owner|].
  - destruct (negb (upsert_plain t r)).
    + intros (t' & ->)%exec_upsert; [apply x_only_on_x|done..].
    + destruct (store_values _ _ r); [|done]. intros [= <-]. apply x_only_on_x.
  - intros (t' & ->)%exec_upsert; [apply x_only_on_x|done..].
Qed.

Lemma valid_columns (P : ColumnDef → Prop) `{!∀ c, Decision (P c)} def :
  valid_def def → Forall (λ k, validName k = true) (map cd_Name (filter P (td_Columns def))).
Proof.
  intros Hd. apply Forall_forall. intros k (c & -> & [_ Hc]%list_elem_of_filter)%list_elem_of_fmap.
  by apply (Forall_elem _ _ _ Hd).
Qed.

Lemma DeleteXRowByPKHash_frame d table def h mtime d' b :
  validName table = true → valid_def def →
  DeleteXRowByPKHash d table def h mtime = Ret (d', b) → x_only d d'.
Proof.
  intros Ht Hd. unfold DeleteXRowByPKHash. destruct (_ =? 0); [done|]. intros H.
  apply bind_ret_inv in H as ([[r m]|] & _ & H); [|by injection H as <- _].
  destruct (_ <? m)%Z; [by injection H as <- _|]. cbv zeta in H.
  destruct (d_x d !! table) as [t|]; [|done]. destruct (negb _).
  - apply bind_ret_inv in H as (d1 & H1 & H). injection H as <- _.
    apply exec_delete in H1 as (t' & ->); [apply x_only_on_x|done|..]; by apply valid_columns.
  - injection H as <- _. apply x_only_on_x.
Qed.

Lemma coerce_valid r def r' : valid_keys r → coerceJSONNumbers (Some r) def = Ret r' → valid_keys r'.
Proof.
  intros Hr [= <-]. revert r Hr. induction (td_Columns def) as [|c cols IH]; intros r Hr; [done|]. cbn.
  apply IH. unfold coerce_column. destruct (r !! cd_Name c) as [v|] eqn:E; [|done].
  pose proof (Hr _ _ E) as Hc. destruct v; try done.
  repeat case_bool_decide; try case_match; try done; by apply map_Forall_insert_2.
Qed.

Lemma applyXDeleteLocally_frame d table def h mtime pkData d' :
  validName table = true → valid_def def →
  (∀ r, json_row (default [] pkData) = Some (Some r) → valid_keys r) →
  applyXDeleteLocally d table def h mtime pkData = Ret d' → x_only d d'.
Proof.
  intros Ht Hd Hr. unfold applyXDeleteLocally. intros H. apply bind_ret_inv in H as ([d1 b] & H1 & H).
  apply DeleteXRowByPKHash_frame in H1; [|done..]. destruct b; [by injection H as <-|].
  apply bind_ret_inv in H as ([p|] & _ & H); [by injection H as <-|].
  destruct pkData as [[|c data]|]; [by injection H as <-| |by injection H as <-].
  destruct (json_row (c :: data)) as [[r|]|] eqn:E; [|done|done].
  apply bind_ret_inv in H as (r' & Hc & H). apply bind_ret_inv in H as (h' & _ & H).
  destruct (negb _); [done|]. etrans; [exact H1|].
  apply UpsertXRow_frame in H; [done|done|]. eapply coerce_valid; [|exact Hc]. apply Hr, E.
Qed.

(** Registering a table keeps the tables there are, and everything else. *)
Lemma RegisterSyncedTable_frame d name def mtime d' e :
  RegisterSyncedTable d name def mtime = Ret (d', e) →
  on_schema (λ _, None) (on_x (λ _, ∅) d') = on_schema (λ _, None) (on_x (λ _, ∅) d) ∧
  d_x d ⊆ d_x d' ∧ (e = None → validName name = true ∧ valid_def def).
Proof.
  unfold RegisterSyncedTable. destruct (_ ≫= _) as [u|e0| |] eqn:Hv; [|by intros [= <- <-]|done..].
  assert (validName name = true ∧ valid_def def) as Hvalid.
  { apply bind_ret_inv in Hv as ([] & Hn & Hv). apply bind_ret_inv in Hv as ([] & _ & Hv).
    apply bind_ret_inv in Hv as ([] & Hc & _). split.
    - revert Hn. unfold ValidateTableName. case_bool_decide; [done|]. by destruct (validName name).
    - unfold valid_def. clear Hn. revert Hc. induction (td_Columns def) as [|c cols IH]; [done|].
      cbn [validate_columns]. intros H. apply bind_ret_inv in H as ([] & Hc & H).
      constructor; [|by apply IH]. revert Hc. unfold ValidateColumnName. case_bool_decide; [done|].
      by destruct (validName (cd_Name c)). }
  destruct (d_schema d) as [t|]; [|by intros [= <- <-]]. cbv zeta.
  set (d1 := on_schema _ d). assert (d_x d1 = d_x d) as Hx by done.
  destruct (createExtensionTable d1 name def) as [d2|e2| |] eqn:Hcr; try done.
  - intros [= <- <-]. revert Hcr. unfold createExtensionTable.
    destruct (negb (forallb _ _)); [done|]. destruct (negb (existsb _ _)); [done|].
    destruct (d_x d1 !! name) eqn:E; [intros [= <-]; by rewrite Hx|].
    destruct (negb (ddl_ok _)); [done|]. intros [= <-].
    split; [done|]. split; [|done]. cbn. rewrite Hx in *. by apply insert_subseteq.
  - by intros [= <- <-].
Qed.
End frames.

(** ** Catalogs *)

Definition entry_wf (e : bytes * Z) : Prop := length e.1 = 40 ∧ int64_range e.2.

Lemma row_hash_length {floats : Floats} def r h : row_hash def r = Ret h → length h = 40.
Proof.
  unfold row_hash.
  destruct (PKHash_cases (pk_columns def) (pk_values (pk_columns def) r)) as [(_ & _ & c & _ & ->)|[_ ->]]; [|done].
  intros [= <-]. apply length_sha1_hex.
Qed.

Lemma entries_wf {floats : Floats} def l es : catalog_entries def l = Ret es →
  Forall (λ p, int64_range p.2) l → Forall entry_wf es.
Proof.
  intros H Hl. revert es H. induction Hl as [|[r m] l Hm Hl IH]; intros es; cbn [catalog_entries].
  { by intros [= <-]. }
  intros H. apply bind_ret_inv in H as (dead & _ & H). destruct dead; [by apply IH|].
  apply bind_ret_inv in H as (h & Hh & H). apply bind_ret_inv in H as (es0 & Hes & [= <-]).
  constructor; [|by apply IH]. split; [|done]. by apply (row_hash_length def r).
Qed.

Lemma fmt_int_NL v : int64_range v → NL ∉ fmt_int v.
Proof. intros H Hin. pose proof (Forall_elem _ _ _ (fmt_int_graph v H) Hin) as Hg. cbn in Hg. lia. Qed.

Definition catalog_line (e : bytes * Z) : bytes := e.1 ++ [SP] ++ fmt_int e.2 ++ [NL].

Lemma catalog_lines_inj l k : Forall entry_wf l → Forall entry_wf k →
  concat (map catalog_line l) = concat (map catalog_line k) → l = k.
Proof.
  intros Hl. revert k. induction Hl as [|[h m] l [Hh Hm] Hl IH]; intros k Hk.
  { destruct Hk as [|[h m] k [Hh _] _]; [done|]. cbn in *. by destruct h. }
  destruct Hk as [|[h' m'] k [Hh' Hm'] Hk]; [cbn in *; by destruct h|]. cbn in Hh, Hm, Hh', Hm'.
  cbn [map concat]. unfold catalog_line at 1 3. cbn [fst snd]. rewrite <- !app_assoc. intros H.
  apply app_inj_1 in H as [<- H]; [|congruence]. cbn [app] in H. injection H as H.
  apply split_sep in H as [He H]; [|by apply fmt_int_NL..].
  assert (Some m = Some m') as [= <-] by (by rewrite <- !ParseInt_fmt_int, He). f_equal. by apply IH.
Qed.

Lemma catalog_text_inj es es' : Forall entry_wf es → Forall entry_wf es' →
  catalog_text es = catalog_text es' → es ≡ₚ es'.
Proof.
  intros H1 H2 H. unfold catalog_text in H. apply catalog_lines_inj in H; [|by apply sort_slice_Forall..].
  rewrite <- (sort_slice_perm (λ a b, str_ltb a.1 b.1) es), H. apply sort_slice_perm.
Qed.

(** ** Properties: rows *)

(** C33. Tables stay well typed: in a table with the columns of its definition
    whose keys can all be hashed, searching and hashing never panic; deleting
    keeps this for every key hash; and so does writing a row if three things
    hold that [UpsertXRow] itself does not check. The key of the row can be
    hashed and is read back as it was ([stable_keys]: no key is an empty blob, a
    NaN, a negative zero or a JSON number that was not coerced); the names of
    its values are columns of the table and it has a value for each key column
    ([upsert_plain], since the names are pasted into the statement); and its
    [_owner], if any, is text ([owner_value]). *)
Theorem table_keys_kept {sql : Sql} {floats : Floats} {laws : SqlLaws} d name def t
    (Hname : name ≠ []) (Ht : d_x d !! name = Some t) (Hok : table_ok def t) :
  (∀ h, h ≠ [] → ∃ found, LookupXRow d name def h = Ret found) ∧
  (∃ c, CatalogHash d name def = Ret c) ∧
  (∀ r h mtime owner d', row_hash def r = Ret h → stable_keys def r → owner_value r = Some owner →
     upsert_plain t r = true → UpsertXRow d name r mtime = Ret d' →
     ∃ t', d_x d' !! name = Some t' ∧ table_ok def t') ∧
  (∀ h mtime, h ≠ [] → ∃ d' b t', DeleteXRowByPKHash d name def h mtime = Ret (d', b) ∧
     d_x d' !! name = Some t' ∧ table_ok def t').
Proof.
  pose proof (table_columns def t Hok) as Hc.
  split; [|split; [|split]].
  - intros h Hh. rewrite (LookupXRow_listed d name def t h) by done.
    by apply lookup_loop_total, listed_hashed.
  - unfold CatalogHash. rewrite (ListXRows_listed d name t) by done. cbn [mbind outcome_bind].
    destruct (catalog_entries_total def (listed t) Hc) as [es ->]; [by apply listed_hashed|]. by eexists.
  - intros r h mtime owner d' Hh Hb Ho Hp Hu.
    destruct (UpsertXRow_ret _ _ _ _ _ _ _ Ht Ho Hp Hu) as (m & Hm & ->). cbn.
    rewrite lookup_insert_eq. eexists. split; [done|].
    by apply (upserted_ok def t r m mtime owner h).
  - intros h mtime Hh.
    destruct (DeleteXRowByPKHash_cases d name def t h mtime) as (found & _ & ->); [done..|].
    destruct found as [[r m]|]; [destruct (mtime <? m)%Z|]; eexists _, _, _; (split; [reflexivity|]).
    + by split.
    + cbn. rewrite lookup_insert_eq. split; [done|]. by apply cleared_ok.
    + by split.
Qed.

(** A row that was written is found under its hash with its time, and with the
    values the columns store, unless another row has the same hash. *)
Theorem UpsertXRow_LookupXRow {sql : Sql} {floats : Floats} {laws : SqlLaws}
    d name def t r h mtime owner d'
    (Hname : name ≠ []) (Ht : d_x d !! name = Some t) (Hok : table_ok def t)
    (Hh : row_hash def r = Ret h) (Hb : stable_keys def r) (Ho : owner_value r = Some owner)
    (Hp : upsert_plain t r = true) (Hu : UpsertXRow d name r mtime = Ret d')
    (Hfree : ∀ x, x ∈ xt_rows t → row_hash def (scan_row x) ≠ Ret h) :
  ∃ r', LookupXRow d' name def h = Ret (Some (r', mtime)) ∧ row_hash def r' = Ret h ∧
    ∀ c, c ∈ td_Columns def → ∃ v, sql_store (td_Columns def) c (row_get r (cd_Name c)) = Some v ∧
      row_get r' (cd_Name c) = sql_scan v.
Proof.
  destruct (UpsertXRow_ret _ _ _ _ _ _ _ Ht Ho Hp Hu) as (m & Hm & ->).
  destruct (upserted_ok def t r m mtime owner h Hok Hm Hb Hh) as [Hok' Hh'].
  exists (scan_row (MkXRow m mtime owner)).
  assert (h ≠ []) as Hne.
  { revert Hh. unfold row_hash. intros H ->.
    destruct (PKHash_cases (pk_columns def) (pk_values (pk_columns def) r)) as [(_ & _ & c & _ & H')|[_ H']];
      rewrite H' in H; [|done]. injection H as H. pose proof (length_sha1_hex c) as Hl. by rewrite H in Hl. }
  split; [|split; [done|]].
  - rewrite (LookupXRow_listed _ name def (upserted t m mtime owner) h);
      [|done|done|cbn; by rewrite lookup_insert_eq].
    apply lookup_loop_unique; [by apply listed_hashed| |done|].
    + apply elem_listed. exists (MkXRow m mtime owner). split; [|done]. cbn [xt_rows upserted].
      apply elem_of_app. right. by apply list_elem_of_singleton.
    + intros p (x & Hx & ->)%elem_listed Hpx. cbn [xt_rows upserted] in Hx.
      apply elem_of_app in Hx as [[_ Hx]%list_elem_of_filter| ->%list_elem_of_singleton]; [|done].
      by destruct (Hfree x Hx).
  - intros c Hc. pose proof (not_owner _ _ _ Hok Hc) as Hn. destruct Hok as [Hcols Hnd _ _ _]. rewrite Hcols in Hm.
    destruct (store_values_get _ _ _ _ c Hnd Hm Hc) as (v & Hv & Hs). exists v. split; [done|].
    by apply row_get_scan.
Qed.

(** A deletion that reports success found a row with the hash that was not
    newer, and replaced exactly the rows with that row's key: their other
    columns are NULL, their time is that of the deletion, their hash is the
    same, and they are tombstones, provided that the table has any other
    columns. *)
Theorem DeleteXRowByPKHash_tombstone {sql : Sql} {floats : Floats} {laws : SqlLaws}
    d name def t h mtime d'
    (Hname : name ≠ []) (Hh : h ≠ []) (Ht : d_x d !! name = Some t) (Hok : table_ok def t)
    (Hdel : DeleteXRowByPKHash d name def h mtime = Ret (d', true)) :
  ∃ x, x ∈ xt_rows t ∧ row_hash def (scan_row x) = Ret h ∧ (xw_mtime x ≤ mtime)%Z ∧
    let key y := same_pk (pk_columns def) (xw_vals y) (scan_row x) in
    let gone := clear_row (value_columns def) mtime in
    key x = true ∧
    d' = on_x <[name := MkXTable (xt_columns t) (xt_owner t)
                          (map (λ y, if key y then gone y else y) (xt_rows t))]> d ∧
    (∀ y, row_hash def (scan_row (gone y)) = row_hash def (scan_row y)) ∧
    (∀ y, IsTombstone def (scan_row (gone y)) = Ret (negb (length (value_columns def) =? 0))).
Proof.
  pose proof (table_columns def t Hok) as Hc.
  destruct (DeleteXRowByPKHash_cases d name def t h mtime) as (found & Hf & Hd); [done..|].
  rewrite Hd in Hdel. destruct found as [[r m]|]; [|done]. destruct (Z.ltb_spec mtime m); [done|].
  injection Hdel as <-. rewrite (LookupXRow_listed d name def t h) in Hf by done.
  apply lookup_loop_some in Hf as [(x & Hx & [= -> ->])%elem_listed Hh']. exists x.
  split; [done|]. split; [done|]. split; [done|]. cbv zeta. split; [|split; [done|split]].
  - pose proof (row_hash_keys _ _ _ Hh') as Hk. rewrite Forall_forall in Hk.
    apply forallb_forall. intros c Hin%list_elem_of_In. specialize (Hk c Hin).
    apply same_pk_scan. by apply Hk.
  - intros y. apply row_hash_ext. intros c Hin. by rewrite clear_row_key by (done || by apply (to_names _ t)).
  - intros y. unfold IsTombstone. destruct (Nat.eqb_spec (length (td_Columns def)) 0) as [E|_].
    { by apply nil_length_inv in E. }
    fold (value_columns def). rewrite (proj2 (forallb_forall _ _)); [done|].
    intros c Hin. apply bool_decide_eq_true. unfold row_get, scan_row.
    destruct (decide (cd_Name c = str "_owner")) as [->|Hn]; [by rewrite lookup_delete_eq|].
    rewrite lookup_delete_ne, lookup_fmap by done. rewrite clear_row_nil; [by apply scan_nil|]. by apply list_elem_of_fmap_2, list_elem_of_In.
Qed.

(** The catalog of a table is the SHA-1 of a text that tells exactly the hashes
    and times of its live rows: two tables have the same text if and only if
    they have the same live hashes and times, in whatever order the rows were
    stored. *)
Theorem CatalogHash_iff {sql : Sql} {floats : Floats} d d' name def c c' l l' es es'
    (Hc : CatalogHash d name def = Ret c) (Hc' : CatalogHash d' name def = Ret c')
    (Hl : ListXRows d name = Ret l) (Hl' : ListXRows d' name = Ret l')
    (He : catalog_entries def l = Ret es) (He' : catalog_entries def l' = Ret es')
    (Hr : Forall (λ p, int64_range p.2) l) (Hr' : Forall (λ p, int64_range p.2) l')
    (Hnd : base.NoDup (map fst es)) :
  c = sha1_hex (catalog_text es) ∧ c' = sha1_hex (catalog_text es') ∧
  (catalog_text es = catalog_text es' ↔ es ≡ₚ es').
Proof.
  unfold CatalogHash in Hc, Hc'. rewrite Hl in Hc. rewrite Hl' in Hc'. cbn [mbind outcome_bind] in Hc, Hc'.
  rewrite He in Hc. rewrite He' in Hc'. injection Hc as <-. injection Hc' as <-.
  split; [done|]. split; [done|]. split.
  - intros H. apply catalog_text_inj in H; [done|by apply (entries_wf def l)|by apply (entries_wf def l')].
  - intros H. unfold catalog_text. by rewrite (sort_slice_perm_eq fst es es').
Qed.

(** ** Witnesses *)

(** An engine that stores what it is given, and numbers instead of floats. *)
#[local] Instance test_sql : Sql := {|
  sql_store _ _ v := match v with VBool _ | VNumber _ | VJson _ => None | _ => Some v end;
  sql_scan v := v;
  sql_equal v w := bool_decide (v = w);
  sql_keyword s := bool_decide (s = str "order");
  sql_exec _ _ _ := Fail EConstraint
|}.
#[local] Instance test_floats : Floats := {|
  fmt_float := fmt_int; parse_float := ParseInt; float_of_int z := z; plain_float _ := true;
  int_of_float z := z
|}.

#[local] Instance test_sql_laws : SqlLaws.
Proof.
  split; [|done|].
  - intros cols c v v' s _ H. destruct v; try done; by injection H as <-.
  - intros v _. by apply bool_decide_eq_true.
Qed.

#[local] Instance test_sql_exec : SqlExecLaws.
Proof. by split. Qed.

(** A table of settings with a row for [a]. *)
Definition kv : TableDef :=
  MkTableDef [MkColumn (str "k") (str "text") true; MkColumn (str "v") (str "text") false] (str "mtime-wins").
(** An encoder that knows one object, one table and the empty list. *)
Definition test_json : Json := {|
  json_row s := if bool_decide (s = str "{}") then Some (Some ∅)
                else if bool_decide (s = str "null") then Some None else None;
  json_of_row r := if bool_decide (r = ∅) then Some (str "{}") else None;
  json_def s := if bool_decide (s = str "kv") then Some kv else None;
  json_of_def _ := str "{}";
  json_cols s := if bool_decide (s = str "[]") then Some [] else None;
  json_of_cols _ := str "[]"
|}.

Definition kv_row (k v : bytes) : goMap := <[str "k" := VStr k]> (<[str "v" := VStr v]> ∅).
Definition kv_table (l : list xRow) : xTable := MkXTable (td_Columns kv) false l.
Definition kv_db (l : list xRow) : db := on_x <[str "kv" := kv_table l]> CreateRepoSchema.
Definition row_1 : xRow := MkXRow (kv_row (str "a") (str "1")) 5 [].
Definition row_2 : xRow := MkXRow (kv_row (str "b") (str "2")) 9 [].
Definition hash_1 : bytes := sha1_hex (str "k=a").
Definition hash_2 : bytes := sha1_hex (str "k=b").

Lemma kv_db_table l : d_x (kv_db l) !! str "kv" = Some (kv_table l).
Proof. apply lookup_insert_eq. Qed.

Lemma kv_table_ok : table_ok kv (kv_table [row_1]).
Proof.
  split; [done|by_decide|by_decide|by_decide|]. intros x Hx%list_elem_of_singleton. subst x.
  unfold key_ok. by_decide.
Qed.

(** What a call returned. *)
Definition value_of {A} (dflt : A) (m : out A) : A := match m with Ret a => a | _ => dflt end.
Definition returns {A} (m : out A) : bool := match m with Ret _ => true | _ => false end.
Lemma returned {A} dflt (m : out A) : returns m = true → m = Ret (value_of dflt m).
Proof. by destruct m. Qed.

Lemma pk_canonical_injective_witness :
  normalizeValue (str "text") (row_get (kv_row (str "a") (str "1")) (str "k"))
  = normalizeValue (str "text") (row_get (kv_row (str "a") (str "2")) (str "k")).
Proof.
  apply (pk_canonical_injective (pk_columns kv) (kv_row (str "a") (str "1")) (kv_row (str "a") (str "2"))
           (str "k=a")) with (c := MkColumn (str "k") (str "text") true);
    [reflexivity|reflexivity| | |vm_compute; left].
  all: constructor; [|constructor]; split; [by_decide|intros s [= <-]; by_decide].
Defined.

Definition kv_after : db := value_of CreateRepoSchema
  (UpsertXRow (kv_db [row_1]) (str "kv") (kv_row (str "b") (str "2")) 9).

(** The premises of the properties hold for the new row. *)
Lemma kv_row_ok :
  row_hash kv (kv_row (str "b") (str "2")) = Ret hash_2 ∧ stable_keys kv (kv_row (str "b") (str "2")) ∧
  owner_value (kv_row (str "b") (str "2")) = Some [] ∧
  upsert_plain (kv_table [row_1]) (kv_row (str "b") (str "2")) = true ∧
  UpsertXRow (kv_db [row_1]) (str "kv") (kv_row (str "b") (str "2")) 9 = Ret kv_after.
Proof.
  split; [vm_compute; reflexivity|]. split; [by_decide|]. split; [vm_compute; reflexivity|].
  split; [vm_compute; reflexivity|]. unfold kv_after. apply returned. vm_compute. reflexivity.
Qed.

Lemma table_keys_kept_witness :
  (∀ h, h ≠ [] → ∃ found, LookupXRow (kv_db [row_1]) (str "kv") kv h = Ret found) ∧
  ∃ t', d_x kv_after !! str "kv" = Some t' ∧ table_ok kv t'.
Proof.
  destruct (table_keys_kept (kv_db [row_1]) (str "kv") kv (kv_table [row_1]) ltac:(done)
              (kv_db_table _) kv_table_ok) as (H1 & _ & H3 & _).
  destruct kv_row_ok as (R1 & R2 & R3 & R4 & R5). split; [exact H1|]. exact (H3 (kv_row (str "b") (str "2")) hash_2 9%Z [] kv_after R1 R2 R3 R4 R5).
Defined.

Lemma UpsertXRow_LookupXRow_witness :
  ∃ r', LookupXRow kv_after (str "kv") kv hash_2 = Ret (Some (r', 9%Z)) ∧ row_hash kv r' = Ret hash_2 ∧
    ∀ c, c ∈ td_Columns kv → ∃ v, sql_store (td_Columns kv) c (row_get (kv_row (str "b") (str "2")) (cd_Name c)) = Some v ∧
      row_get r' (cd_Name c) = sql_scan v.
Proof.
  destruct kv_row_ok as (R1 & R2 & R3 & R4 & R5).
  assert (str "kv" ≠ []) as Hn by done.
  refine (UpsertXRow_LookupXRow (kv_db [row_1]) (str "kv") kv (kv_table [row_1]) (kv_row (str "b") (str "2"))
    hash_2 9 [] kv_after Hn (kv_db_table _) kv_table_ok R1 R2 R3 R4 R5 _).
  intros x Hx%list_elem_of_singleton. subst x. vm_compute. discriminate.
Defined.

Definition kv_deleted : out (db * bool) := DeleteXRowByPKHash (kv_db [row_1]) (str "kv") kv hash_1 7.

Definition kv_without : db := fst (value_of (CreateRepoSchema, true) kv_deleted).
Lemma kv_deleted_ret : DeleteXRowByPKHash (kv_db [row_1]) (str "kv") kv hash_1 7 = Ret (kv_without, true).
Proof.
  unfold kv_without. fold kv_deleted. assert (match kv_deleted with Ret (_, b) => b | _ => false end = true) as H by (vm_compute; reflexivity).
  revert H. generalize kv_deleted. by intros [[d []]| | |].
Qed.

Lemma DeleteXRowByPKHash_tombstone_witness :
  ∃ x, x ∈ xt_rows (kv_table [row_1]) ∧ row_hash kv (scan_row x) = Ret hash_1 ∧ (xw_mtime x ≤ 7)%Z.
Proof.
  assert (str "kv" ≠ []) as Hn by done. assert (hash_1 ≠ []) as Hh by (vm_compute; discriminate).
  destruct (DeleteXRowByPKHash_tombstone (kv_db [row_1]) (str "kv") kv (kv_table [row_1]) hash_1 7 kv_without
    Hn Hh (kv_db_table _) kv_table_ok kv_deleted_ret)
    as (x & H1 & H2 & H3 & _). by exists x.
Defined.

Definition kv_two : list xRow := [row_1; row_2].
Definition kv_listed : list (goMap * Z) := [(scan_row row_1, 5%Z); (scan_row row_2, 9%Z)].
Definition kv_entries : list (bytes * Z) := [(hash_1, 5%Z); (hash_2, 9%Z)].

Lemma kv_lists : ListXRows (kv_db kv_two) (str "kv") = Ret kv_listed ∧
  ListXRows (kv_db (reverse kv_two)) (str "kv") = Ret kv_listed.
Proof. unfold ListXRows. by rewrite !kv_db_table. Qed.

Lemma kv_catalog : catalog_entries kv kv_listed = Ret kv_entries.
Proof. vm_compute. reflexivity. Qed.

Lemma kv_hash l : ListXRows (kv_db l) (str "kv") = Ret kv_listed →
  CatalogHash (kv_db l) (str "kv") kv = Ret (sha1_hex (catalog_text kv_entries)).
Proof. unfold CatalogHash. intros ->. cbn [mbind outcome_bind]. by rewrite kv_catalog. Qed.

Lemma CatalogHash_iff_witness :
  catalog_text kv_entries = catalog_text kv_entries ↔ kv_entries ≡ₚ kv_entries.
Proof.
  destruct kv_lists as [H1 H2].
  refine (proj2 (proj2 (CatalogHash_iff _ _ _ _ _ _ _ _ _ _ (kv_hash _ H1) (kv_hash _ H2) H1 H2 kv_catalog
    kv_catalog _ _ _))); unfold int64_range; by_decide.
Defined.

(** ** Behaviour worth knowing *)

(** Keys with NUL bytes collide: the text that is hashed does not quote them. *)
Definition key_cols : list ColumnDef :=
  [MkColumn (str "a") (str "text") true; MkColumn (str "b") (str "text") true].
Definition two_keys (a b : bytes) : goMap := <[str "a" := VStr a]> (<[str "b" := VStr b]> ∅).
Example nul_keys_collide :
  pk_canonical key_cols (two_keys (str "1" ++ x00 :: str "b=2") (str "3"))
  = pk_canonical key_cols (two_keys (str "1") (str "2" ++ x00 :: str "b=3")).
Proof. vm_compute. reflexivity. Qed.

(** A type in capitals is accepted when a table is registered, and panics when a
    key is hashed. *)
Definition upper : TableDef := MkTableDef [MkColumn (str "k") (str "TEXT") true] (str "mtime-wins").
Example upper_registered {json : Json} :
  (match RegisterSyncedTable (EnsureSyncSchema CreateRepoSchema) (str "t") upper 0 with
   | Ret (_, None) => true
   | _ => false
   end) = true ∧
  row_hash upper (<[str "k" := VStr (str "a")]> ∅) = Panic.
Proof. split; vm_compute; reflexivity. Qed.

(** A column called [mtime] clashes with the one that is added: the call fails,
    but the registry keeps the table. *)
Definition clash : TableDef := MkTableDef [MkColumn (str "mtime") (str "integer") true] (str "mtime-wins").
Example clash_registered {json : Json} :
  match RegisterSyncedTable (EnsureSyncSchema CreateRepoSchema) (str "t") clash 0 with
  | Ret (d, Some _) => (bool_decide (is_Some (default ∅ (d_schema d) !! str "t")),
                        bool_decide (is_Some (d_x d !! str "t"))) = (true, false)
  | _ => False
  end.
Proof. vm_compute. reflexivity. Qed.

(** A table of which all columns are keys has no tombstones: a deletion only
    changes the row's time. *)
Definition set_def : TableDef := MkTableDef [MkColumn (str "k") (str "text") true] (str "mtime-wins").
Definition set_row : xRow := MkXRow (<[str "k" := VStr (str "a")]> ∅) 5 [].
Definition set_db : db := on_x <[str "s" := MkXTable (td_Columns set_def) false [set_row]]> CreateRepoSchema.
Example set_row_survives :
  match DeleteXRowByPKHash set_db (str "s") set_def hash_1 7 with
  | Ret (d, b) => (b, map xw_mtime (default [] (xt_rows <$> d_x d !! str "s")),
                   IsTombstone set_def (scan_row set_row)) = (true, [7%Z], Ret false)
  | _ => False
  end.
Proof. vm_compute. reflexivity. Qed.
