(* ===== verification/CkinLock.v ===== *)
(** * Check-in locks (src/internal/sync/ckin_lock.go)

    A client that is about to commit on top of a check-in asks for a lock on it.
    A lock is a row of [config] whose value is JSON; it lapses after a minute, or
    when the check-in is no leaf any more. *)
From S2P Require Import Prelude GoStrings Hash Zlib Deck Blob Db TableSync.
From stdpp Require Import list gmap sets.

Record CkinLockFail := MkLockFail { lf_HeldBy : bytes; lf_Since : Z }.
Record ckinLockEntry := MkLockEntry { le_ClientID : bytes; le_Login : bytes; le_MTime : Z }.

(** [encoding/json] on lock entries; texts that are not valid UTF-8 change. *)
Class LockJson := {
  lock_of_json : bytes → option ckinLockEntry;
  json_of_lock : ckinLockEntry → bytes
}.

Class LockJsonLaws `{LockJson} (valid : bytes → bool) : Prop := {
  lock_json : ∀ e, valid (le_ClientID e) = true → valid (le_Login e) = true →
    int64_range (le_MTime e) → lock_of_json (json_of_lock e) = Some e
}.

Definition DefaultCkinLockTimeout : Z := 60.
Definition lock_prefix : bytes := str "libfossil-ci-lock-".
Definition configKey (parentUUID : bytes) : bytes := lock_prefix ++ parentUUID.

(** [name LIKE 'libfossil-ci-lock-%'] ignores the case of ASCII letters. *)
Definition like_lock (name : bytes) : bool := HasPrefix (map to_lower name) lock_prefix.

(** The lock's parent is an artifact that is a leaf. *)
Definition is_leaf (d : db) (uuid : bytes) : bool :=
  match rid_of_uuid (d_repo d) uuid with
  | Some rid => bool_decide (rid ∈ d_leaf d)
  | None => false
  end.

(** The rows of [config] that the function keeps. *)
Definition lock_stays (now timeout : Z) (d : db) (p : bytes * configRow) : bool :=
  if like_lock p.1 then
    match c_mtime p.2 with Some m => negb (m <? i64 (now - timeout))%Z | None => true end
    && is_leaf d (TrimPrefix p.1 lock_prefix)
  else true.

Definition expireStaleLocks (now : Z) (d : db) (timeout : Z) : db :=
  on_config (filter (λ p, lock_stays now timeout d p = true)) d.

Section json.
Context {json : LockJson}.

(** The entry of another client that holds the lock. *)
Definition held_by_other (d : db) (parentUUID clientID : bytes) : option ckinLockEntry :=
  raw ← config_value d (configKey parentUUID);
  entry ← lock_of_json raw;
  if bool_decide (le_ClientID entry = clientID) then None else Some entry.

Definition processCkinLock (now : Z) (d : db) (parentUUID clientID user : bytes) (timeout : Z) :
    db * option CkinLockFail :=
  let d := expireStaleLocks now d timeout in
  match held_by_other d parentUUID clientID with
  | Some entry => (d, Some (MkLockFail (le_Login entry) (le_MTime entry)))
  | None =>
    let val := json_of_lock (MkLockEntry clientID user now) in
    (on_config <[configKey parentUUID := MkConfigRow val (Some now)]> d, None)
  end.
End json.

(** ** Properties *)

Lemma HasPrefix_app p s : HasPrefix (p ++ s) p = true.
Proof. induction p as [|c p IH]; [by destruct s|]. cbn. by rewrite bool_decide_true. Qed.

Lemma like_lock_configKey u : like_lock (configKey u) = true.
Proof.
  unfold like_lock, configKey. rewrite map_app.
  replace (map to_lower lock_prefix) with lock_prefix by (vm_compute; reflexivity). apply HasPrefix_app.
Qed.

Lemma TrimPrefix_configKey u : TrimPrefix (configKey u) lock_prefix = u.
Proof. unfold TrimPrefix, configKey. rewrite HasPrefix_app. by apply drop_app_exact. Qed.

(** A lock of the clock's last minute on a leaf survives. *)
Lemma config_after_expiry now timeout d u v m :
  is_leaf d u = true → d_config d !! configKey u = Some (MkConfigRow v (Some m)) →
  config_value (expireStaleLocks now d timeout) (configKey u)
  = if (m <? i64 (now - timeout))%Z then None else Some v.
Proof.
  intros Hl Hc. unfold config_value, expireStaleLocks, on_config. cbn [d_config].
  assert (lock_stays now timeout d (configKey u, MkConfigRow v (Some m)) = negb (m <? i64 (now - timeout))%Z) as Hs.
  { unfold lock_stays. cbn [fst snd c_mtime].
    by rewrite like_lock_configKey, TrimPrefix_configKey, Hl, andb_true_r. }
  destruct (m <? _)%Z.
  - rewrite map_lookup_filter_None_2; [done|]. right. intros r. rewrite Hc. intros [= <-]. by rewrite Hs.
  - by rewrite (map_lookup_filter_Some_2 _ _ _ (MkConfigRow v (Some m))).
Qed.

(** C34. Locks exclude each other: after a client was granted the lock on a leaf
    at [t1], and as long as its row is there and the check-in a leaf, a request
    at [t2] is refused, naming the holder and the time, exactly if it comes from
    another client and at most a minute later; otherwise it is granted. *)
Theorem processCkinLock_excludes `{LockJson} {valid} {laws : LockJsonLaws valid}
    t1 t2 d d1 d2 parent clientA userA clientB userB
    (HA : valid clientA = true) (HU : valid userA = true)
    (Ht : (0 ≤ t1 < 2 ^ 62)%Z) (Ht2 : (0 ≤ t2 < 2 ^ 62)%Z)
    (Hlock : processCkinLock t1 d parent clientA userA DefaultCkinLockTimeout = (d1, None))
    (Hkept : d_config d2 !! configKey parent = d_config d1 !! configKey parent)
    (Hleaf : is_leaf d2 parent = true) :
  (processCkinLock t2 d2 parent clientB userB DefaultCkinLockTimeout).2
  = if (negb (bool_decide (clientB = clientA)) && (t2 <=? t1 + 60)%Z)
    then Some (MkLockFail userA t1) else None.
Proof.
  assert (d_config d2 !! configKey parent
          = Some (MkConfigRow (json_of_lock (MkLockEntry clientA userA t1)) (Some t1))) as Hrow.
  { rewrite Hkept. revert Hlock. unfold processCkinLock. destruct (held_by_other _ _ _); [done|].
    intros [= <-]. cbn. by rewrite lookup_insert_eq. }
  unfold processCkinLock, held_by_other.
  rewrite (config_after_expiry _ _ _ _ _ _ Hleaf Hrow). unfold DefaultCkinLockTimeout.
  rewrite i64_id by (unfold min_int64, max_int64; lia).
  destruct (Z.ltb_spec t1 (t2 - 60)), (Z.leb_spec t2 (t1 + 60)); try lia; cbn [mbind option_bind].
  - by rewrite andb_false_r.
  - rewrite andb_true_r. rewrite lock_json by (done || (unfold int64_range, min_int64, max_int64; cbn; lia)). cbn [mbind option_bind le_ClientID].
    destruct (decide (clientB = clientA)) as [->|Hn].
    + by rewrite !bool_decide_true.
    + by rewrite !bool_decide_false by done.
Qed.

(** ** Witness *)

(** Three lines stand for the object. *)
#[local] Instance test_lock_json : LockJson := {|
  json_of_lock e := le_ClientID e ++ NL :: le_Login e ++ NL :: fmt_int (le_MTime e);
  lock_of_json s := match SplitN s NL 3 with
                    | [c; u; t] => m ← ParseInt t; Some (MkLockEntry c u m)
                    | _ => None
                    end
|}.

#[local] Instance test_lock_json_laws : LockJsonLaws (λ s, bool_decide (NL ∉ s)).
Proof.
  split. intros [c u m] Hc%bool_decide_eq_true Hu%bool_decide_eq_true Hm.
  cbn [le_ClientID le_Login le_MTime] in *. unfold lock_of_json, json_of_lock, test_lock_json.
  cbn [le_ClientID le_Login le_MTime].
  rewrite !SplitN_sep by done. rewrite SplitN_none by by right. by rewrite ParseInt_fmt_int.
Qed.

Definition leaf_repo : db :=
  MkDb repo_a ∅ ∅ None {[ 1%Z ]} ∅ None ∅ no_links.
Definition locked_db : db :=
  (processCkinLock 1000 leaf_repo (sha1_hex text_a) (str "c1") (str "alice") DefaultCkinLockTimeout).1.

Lemma locked : processCkinLock 1000 leaf_repo (sha1_hex text_a) (str "c1") (str "alice")
  DefaultCkinLockTimeout = (locked_db, None).
Proof.
  assert ((processCkinLock 1000 leaf_repo (sha1_hex text_a) (str "c1") (str "alice")
             DefaultCkinLockTimeout).2 = None) as H by (vm_compute; reflexivity).
  unfold locked_db. revert H. generalize (processCkinLock 1000 leaf_repo (sha1_hex text_a) (str "c1")
    (str "alice") DefaultCkinLockTimeout). by intros [d x] [= ->].
Qed.

Lemma processCkinLock_excludes_witness :
  (processCkinLock 1030 locked_db (sha1_hex text_a) (str "c2") (str "bob") DefaultCkinLockTimeout).2
  = Some (MkLockFail (str "alice") 1000).
Proof.
  assert (is_leaf locked_db (sha1_hex text_a) = true) as Hl by (vm_compute; reflexivity).
  rewrite (processCkinLock_excludes 1000 1030 leaf_repo locked_db locked_db (sha1_hex text_a)
    (str "c1") (str "alice") (str "c2") (str "bob") eq_refl eq_refl ltac:(lia) ltac:(lia) locked eq_refl Hl).
  reflexivity.
Defined.
