(* ===== verification/Handler.v ===== *)
(** * The sync server (src/internal/sync/handler.go, handler_uv.go, handler_tablesync.go)

    [HandleSync] answers one request: a handler record is created, the cards of
    the request are processed in several passes, and the cards collected in the
    record are the response.  Every handler is a function from the record to the
    record; the repository is part of it.  A handler that returns an error leaves
    what it did so far, so a failure carries the record.

    Fault injection is off ([buggify] is nil), observers see nothing, and the
    clock does not advance while a request is answered.  [process_cards]
    is [process] up to the crosslinking of the manifests that came with the
    request; the whole is in [SyncLinked]. *)
From S2P Require Import Prelude GoStrings Hash Zlib Xfer Blob Content Db Uv Auth Receive TableSync CkinLock.
From stdpp Require Import list gmap sets.

Abbreviation out := (outcome db_error).

(** ** The handler *)

Record SyncedTable := MkSynced { st_Info : TableInfo; st_Def : TableDef }.

Record handler := MkHandler {
  h_repo : db;
  h_cache : option Cache;
  h_resp : list Card;
  h_pushOK : bool;
  h_pullOK : bool;
  h_cloneMode : bool;
  h_cloneSeq : Z;
  h_cloneSnapMax : Z;
  h_uvCatalogSent : bool;
  h_reqClusters : bool;
  h_filesSent : Z;
  h_filesRecvd : Z;
  h_syncPrivate : bool;
  h_nextIsPrivate : bool;
  h_syncedTables : gmap bytes SyncedTable;
  h_xrowsSent : Z;
  h_xrowsRecvd : Z;
  h_remoteHas : gmap bytes bool;          (* the IsPrivate flag of the client's igot *)
  h_user : bytes;
  h_caps : bytes;
  h_authed : bool
}.

Definition set_repo (x : db) (h : handler) : handler :=
  MkHandler x (h_cache h) (h_resp h) (h_pushOK h) (h_pullOK h) (h_cloneMode h) (h_cloneSeq h)
    (h_cloneSnapMax h) (h_uvCatalogSent h) (h_reqClusters h) (h_filesSent h) (h_filesRecvd h)
    (h_syncPrivate h) (h_nextIsPrivate h) (h_syncedTables h) (h_xrowsSent h) (h_xrowsRecvd h)
    (h_remoteHas h) (h_user h) (h_caps h) (h_authed h).
Definition set_cache (x : option Cache) (h : handler) : handler :=
  MkHandler (h_repo h) x (h_resp h) (h_pushOK h) (h_pullOK h) (h_cloneMode h) (h_cloneSeq h)
    (h_cloneSnapMax h) (h_uvCatalogSent h) (h_reqClusters h) (h_filesSent h) (h_filesRecvd h)
    (h_syncPrivate h) (h_nextIsPrivate h) (h_syncedTables h) (h_xrowsSent h) (h_xrowsRecvd h)
    (h_remoteHas h) (h_user h) (h_caps h) (h_authed h).
Definition set_resp (x : list Card) (h : handler) : handler :=
  MkHandler (h_repo h) (h_cache h) x (h_pushOK h) (h_pullOK h) (h_cloneMode h) (h_cloneSeq h)
    (h_cloneSnapMax h) (h_uvCatalogSent h) (h_reqClusters h) (h_filesSent h) (h_filesRecvd h)
    (h_syncPrivate h) (h_nextIsPrivate h) (h_syncedTables h) (h_xrowsSent h) (h_xrowsRecvd h)
    (h_remoteHas h) (h_user h) (h_caps h) (h_authed h).
Definition set_pushOK (x : bool) (h : handler) : handler :=
  MkHandler (h_repo h) (h_cache h) (h_resp h) x (h_pullOK h) (h_cloneMode h) (h_cloneSeq h)
    (h_cloneSnapMax h) (h_uvCatalogSent h) (h_reqClusters h) (h_filesSent h) (h_filesRecvd h)
    (h_syncPrivate h) (h_nextIsPrivate h) (h_syncedTables h) (h_xrowsSent h) (h_xrowsRecvd h)
    (h_remoteHas h) (h_user h) (h_caps h) (h_authed h).
Definition set_pullOK (x : bool) (h : handler) : handler :=
  MkHandler (h_repo h) (h_cache h) (h_resp h) (h_pushOK h) x (h_cloneMode h) (h_cloneSeq h)
    (h_cloneSnapMax h) (h_uvCatalogSent h) (h_reqClusters h) (h_filesSent h) (h_filesRecvd h)
    (h_syncPrivate h) (h_nextIsPrivate h) (h_syncedTables h) (h_xrowsSent h) (h_xrowsRecvd h)
    (h_remoteHas h) (h_user h) (h_caps h) (h_authed h).
Definition set_cloneMode (x : bool) (h : handler) : handler :=
  MkHandler (h_repo h) (h_cache h) (h_resp h) (h_pushOK h) (h_pullOK h) x (h_cloneSeq h)
    (h_cloneSnapMax h) (h_uvCatalogSent h) (h_reqClusters h) (h_filesSent h) (h_filesRecvd h)
    (h_syncPrivate h) (h_nextIsPrivate h) (h_syncedTables h) (h_xrowsSent h) (h_xrowsRecvd h)
    (h_remoteHas h) (h_user h) (h_caps h) (h_authed h).
Definition set_cloneSeq (x : Z) (h : handler) : handler :=
  MkHandler (h_repo h) (h_cache h) (h_resp h) (h_pushOK h) (h_pullOK h) (h_cloneMode h) x
    (h_cloneSnapMax h) (h_uvCatalogSent h) (h_reqClusters h) (h_filesSent h) (h_filesRecvd h)
    (h_syncPrivate h) (h_nextIsPrivate h) (h_syncedTables h) (h_xrowsSent h) (h_xrowsRecvd h)
    (h_remoteHas h) (h_user h) (h_caps h) (h_authed h).
Definition set_cloneSnapMax (x : Z) (h : handler) : handler :=
  MkHandler (h_repo h) (h_cache h) (h_resp h) (h_pushOK h) (h_pullOK h) (h_cloneMode h)
    (h_cloneSeq h) x (h_uvCatalogSent h) (h_reqClusters h) (h_filesSent h) (h_filesRecvd h)
    (h_syncPrivate h) (h_nextIsPrivate h) (h_syncedTables h) (h_xrowsSent h) (h_xrowsRecvd h)
    (h_remoteHas h) (h_user h) (h_caps h) (h_authed h).
Definition set_uvCatalogSent (x : bool) (h : handler) : handler :=
  MkHandler (h_repo h) (h_cache h) (h_resp h) (h_pushOK h) (h_pullOK h) (h_cloneMode h)
    (h_cloneSeq h) (h_cloneSnapMax h) x (h_reqClusters h) (h_filesSent h) (h_filesRecvd h)
    (h_syncPrivate h) (h_nextIsPrivate h) (h_syncedTables h) (h_xrowsSent h) (h_xrowsRecvd h)
    (h_remoteHas h) (h_user h) (h_caps h) (h_authed h).
Definition set_reqClusters (x : bool) (h : handler) : handler :=
  MkHandler (h_repo h) (h_cache h) (h_resp h) (h_pushOK h) (h_pullOK h) (h_cloneMode h)
    (h_cloneSeq h) (h_cloneSnapMax h) (h_uvCatalogSent h) x (h_filesSent h) (h_filesRecvd h)
    (h_syncPrivate h) (h_nextIsPrivate h) (h_syncedTables h) (h_xrowsSent h) (h_xrowsRecvd h)
    (h_remoteHas h) (h_user h) (h_caps h) (h_authed h).
Definition set_filesSent (x : Z) (h : handler) : handler :=
  MkHandler (h_repo h) (h_cache h) (h_resp h) (h_pushOK h) (h_pullOK h) (h_cloneMode h)
    (h_cloneSeq h) (h_cloneSnapMax h) (h_uvCatalogSent h) (h_reqClusters h) x (h_filesRecvd h)
    (h_syncPrivate h) (h_nextIsPrivate h) (h_syncedTables h) (h_xrowsSent h) (h_xrowsRecvd h)
    (h_remoteHas h) (h_user h) (h_caps h) (h_authed h).
Definition set_filesRecvd (x : Z) (h : handler) : handler :=
  MkHandler (h_repo h) (h_cache h) (h_resp h) (h_pushOK h) (h_pullOK h) (h_cloneMode h)
    (h_cloneSeq h) (h_cloneSnapMax h) (h_uvCatalogSent h) (h_reqClusters h) (h_filesSent h) x
    (h_syncPrivate h) (h_nextIsPrivate h) (h_syncedTables h) (h_xrowsSent h) (h_xrowsRecvd h)
    (h_remoteHas h) (h_user h) (h_caps h) (h_authed h).
Definition set_syncPrivate (x : bool) (h : handler) : handler :=
  MkHandler (h_repo h) (h_cache h) (h_resp h) (h_pushOK h) (h_pullOK h) (h_cloneMode h)
    (h_cloneSeq h) (h_cloneSnapMax h) (h_uvCatalogSent h) (h_reqClusters h) (h_filesSent h)
    (h_filesRecvd h) x (h_nextIsPrivate h) (h_syncedTables h) (h_xrowsSent h) (h_xrowsRecvd h)
    (h_remoteHas h) (h_user h) (h_caps h) (h_authed h).
Definition set_nextIsPrivate (x : bool) (h : handler) : handler :=
  MkHandler (h_repo h) (h_cache h) (h_resp h) (h_pushOK h) (h_pullOK h) (h_cloneMode h)
    (h_cloneSeq h) (h_cloneSnapMax h) (h_uvCatalogSent h) (h_reqClusters h) (h_filesSent h)
    (h_filesRecvd h) (h_syncPrivate h) x (h_syncedTables h) (h_xrowsSent h) (h_xrowsRecvd h)
    (h_remoteHas h) (h_user h) (h_caps h) (h_authed h).
Definition set_syncedTables (x : gmap bytes SyncedTable) (h : handler) : handler :=
  MkHandler (h_repo h) (h_cache h) (h_resp h) (h_pushOK h) (h_pullOK h) (h_cloneMode h)
    (h_cloneSeq h) (h_cloneSnapMax h) (h_uvCatalogSent h) (h_reqClusters h) (h_filesSent h)
    (h_filesRecvd h) (h_syncPrivate h) (h_nextIsPrivate h) x (h_xrowsSent h) (h_xrowsRecvd h)
    (h_remoteHas h) (h_user h) (h_caps h) (h_authed h).
Definition set_xrowsSent (x : Z) (h : handler) : handler :=
  MkHandler (h_repo h) (h_cache h) (h_resp h) (h_pushOK h) (h_pullOK h) (h_cloneMode h)
    (h_cloneSeq h) (h_cloneSnapMax h) (h_uvCatalogSent h) (h_reqClusters h) (h_filesSent h)
    (h_filesRecvd h) (h_syncPrivate h) (h_nextIsPrivate h) (h_syncedTables h) x (h_xrowsRecvd h)
    (h_remoteHas h) (h_user h) (h_caps h) (h_authed h).
Definition set_xrowsRecvd (x : Z) (h : handler) : handler :=
  MkHandler (h_repo h) (h_cache h) (h_resp h) (h_pushOK h) (h_pullOK h) (h_cloneMode h)
    (h_cloneSeq h) (h_cloneSnapMax h) (h_uvCatalogSent h) (h_reqClusters h) (h_filesSent h)
    (h_filesRecvd h) (h_syncPrivate h) (h_nextIsPrivate h) (h_syncedTables h) (h_xrowsSent h) x
    (h_remoteHas h) (h_user h) (h_caps h) (h_authed h).
Definition set_remoteHas (x : gmap bytes bool) (h : handler) : handler :=
  MkHandler (h_repo h) (h_cache h) (h_resp h) (h_pushOK h) (h_pullOK h) (h_cloneMode h)
    (h_cloneSeq h) (h_cloneSnapMax h) (h_uvCatalogSent h) (h_reqClusters h) (h_filesSent h)
    (h_filesRecvd h) (h_syncPrivate h) (h_nextIsPrivate h) (h_syncedTables h) (h_xrowsSent h)
    (h_xrowsRecvd h) x (h_user h) (h_caps h) (h_authed h).
Definition set_user (x : bytes) (h : handler) : handler :=
  MkHandler (h_repo h) (h_cache h) (h_resp h) (h_pushOK h) (h_pullOK h) (h_cloneMode h)
    (h_cloneSeq h) (h_cloneSnapMax h) (h_uvCatalogSent h) (h_reqClusters h) (h_filesSent h)
    (h_filesRecvd h) (h_syncPrivate h) (h_nextIsPrivate h) (h_syncedTables h) (h_xrowsSent h)
    (h_xrowsRecvd h) (h_remoteHas h) x (h_caps h) (h_authed h).
Definition set_caps (x : bytes) (h : handler) : handler :=
  MkHandler (h_repo h) (h_cache h) (h_resp h) (h_pushOK h) (h_pullOK h) (h_cloneMode h)
    (h_cloneSeq h) (h_cloneSnapMax h) (h_uvCatalogSent h) (h_reqClusters h) (h_filesSent h)
    (h_filesRecvd h) (h_syncPrivate h) (h_nextIsPrivate h) (h_syncedTables h) (h_xrowsSent h)
    (h_xrowsRecvd h) (h_remoteHas h) (h_user h) x (h_authed h).
Definition set_authed (x : bool) (h : handler) : handler :=
  MkHandler (h_repo h) (h_cache h) (h_resp h) (h_pushOK h) (h_pullOK h) (h_cloneMode h)
    (h_cloneSeq h) (h_cloneSnapMax h) (h_uvCatalogSent h) (h_reqClusters h) (h_filesSent h)
    (h_filesRecvd h) (h_syncPrivate h) (h_nextIsPrivate h) (h_syncedTables h) (h_xrowsSent h)
    (h_xrowsRecvd h) (h_remoteHas h) (h_user h) (h_caps h) x.

Definition h_blobs (h : handler) : repo := d_repo (h_repo h).
Definition set_blobs (q : repo) (h : handler) : handler := set_repo (on_repo (λ _, q) (h_repo h)) h.

(** [h.resp = append(h.resp, card)] *)
Definition emit (c : Card) (h : handler) : handler := set_resp (h_resp h ++ [c]) h.
Definition emit_error (message : bytes) (h : handler) : handler := emit (CardError message) h.

Definition new_handler (d : db) (cache : option Cache) : handler :=
  MkHandler d cache [] false false false 0 0 false false 0 0 false false ∅ 0 0 ∅ [] [] false.

(** A handler returns the record, or an error and the record it leaves. *)
Abbreviation handled := (outcome (handler * db_error)).

(** A call that leaves the record [h] if it fails. *)
Definition at_ {A} (h : handler) (m : out A) : handled A := wrap_err (λ e, (h, e)) m.

(** [for _, x := range l], left at the first error. *)
Fixpoint each {A} (f : handler → A → handled handler) (l : list A) (h : handler) : handled handler :=
  match l with
  | [] => Ret h
  | x :: l => h ← f h x; each f l h
  end.

Definition DefaultCloneBatchSize : nat := 200.
Definition cloneCapPrefix : bytes := str "lf-clone-cap:".

Definition parseCloneCap (v : bytes) : option Z :=
  if negb (HasPrefix v cloneCapPrefix) then None else
  match ParseInt (drop (length cloneCapPrefix) v) with
  | Some rid => if (rid <? 0)%Z then None else Some rid
  | None => None
  end.

Definition detectOperation (cards : list Card) : bytes :=
  if existsb (λ c, match c with CardClone _ => true | _ => false end) cards
  then str "clone" else str "sync".

Definition nobody : bytes := str "nobody".

Definition initAuth (h : handler) : handler :=
  let h := set_authed false (set_caps [] (set_user nobody h)) in
  match d_user (h_repo h) !! nobody with
  | Some row => set_caps (u_cap row) h
  | None => h
  end.

Section handlers.
Context {codec : Zlib} {sha3 : Sha3} {sqlite : Sqlite} {sql : Sql} {floats : Floats} {json : Json}
  {locks : LockJson} {texts : ErrorText} {order : Unordered}.

Definition auth_failed : bytes := str "authentication failed".

Definition handleLoginCard (now : Z) (h : handler) (c : LoginCard) : handled handler :=
  match config_value (h_repo h) (str "project-code") with
  | None => Ret (emit_error auth_failed h)
  | Some projectCode =>
    match VerifyLogin now (h_repo h) projectCode c with
    | Ret u => Ret (set_authed true (set_caps (us_Cap u) (set_user (us_Login u) h)))
    | Fail _ => Ret (emit_error auth_failed h)
    | Panic => Panic
    | NoFuel => NoFuel
    end
  end.

Definition loadSyncedTables (h : handler) : handled handler :=
  let h := set_repo (EnsureSyncSchema (h_repo h)) h in
  tables ← at_ h (ListSyncedTables (h_repo h));
  Ret (set_syncedTables (foldl (λ m info, <[ti_Name info := MkSynced info (ti_Def info)]> m) ∅ tables) h).

(** ** Unversioned files *)

Definition uv_igot (e : Uv.Entry) : Card :=
  CardUVIGot (MkUVIGot (Uv.e_Name e) (Uv.e_MTime e)
    (if bool_decide (Uv.e_Hash e = []) then dash else Uv.e_Hash e) (Uv.e_Size e)).

Definition handlePragmaUVHash (now : Z) (h : handler) (clientHash : bytes) : handled handler :=
  if h_uvCatalogSent h then Ret h else
  let h := set_repo (Uv.EnsureSchema (h_repo h)) h in
  '(d, localHash) ← at_ h (Uv.ContentHash now (h_repo h));
  let h := set_repo d h in
  if bool_decide (localHash = clientHash) then Ret h else
  let h := emit (CardPragma (MkPragma (str "uv-push-ok") [])) (set_uvCatalogSent true h) in
  entries ← at_ h (Uv.List_ (h_repo h));
  Ret (foldl (λ h e, emit (uv_igot e) h) h entries).

Definition sendUVFile (h : handler) (name : bytes) : handled handler :=
  if bool_decide (name = []) then Panic else
  '(content, mtime, fileHash) ← at_ h (Uv.Read (h_repo h) name);
  Ret (emit (CardUVFile (if bool_decide (fileHash = [])
                         then MkUVFile name mtime dash 0 UVFlagDeletion None
                         else MkUVFile name mtime fileHash (zlen (default [] content)) 0 content)) h).

Definition handleUVIGot (h : handler) (c : UVIGotCard) : handled handler :=
  let h := set_repo (Uv.EnsureSchema (h_repo h)) h in
  '(_, localMtime, localHash) ← at_ h (Uv.Read (h_repo h) (ui_Name c));
  let status := Uv.Status localMtime localHash (ui_MTime c) (ui_Hash c) in
  if ((status =? 0) || (status =? 1))%Z then Ret (emit (CardUVGimme (ui_Name c)) h)
  else if (status =? 2)%Z then
    d ← at_ h (Uv.SetMTime (h_repo h) (ui_Name c) (ui_MTime c));
    Ret (set_repo d h)
  else if ((status =? 4) || (status =? 5))%Z then sendUVFile h (ui_Name c)
  else Ret h.

Definition handleUVGimme (h : handler) (name : bytes) : handled handler := sendUVFile h name.

Definition handleUVFile (h : handler) (c : UVFileCard) : handled handler :=
  if negb (CanPushUV (h_caps h)) then
    Ret (emit_error (str "uvfile " ++ uf_Name c ++ str " denied: insufficient capabilities") h) else
  if negb (h_pushOK h) then
    Ret (emit_error (str "uvfile " ++ uf_Name c ++ str " rejected: no push card") h) else
  let h := set_repo (Uv.EnsureSchema (h_repo h)) h in
  genuine ← (if (Z.land (uf_Flags c) 5 =? 0)%Z then
               computed ← Hash.ContentHash (uf_Content c) (uf_Hash c);
               Ret (bool_decide (computed = uf_Hash c))
             else Ret true);
  if negb genuine then Ret (emit_error (str "uvfile " ++ uf_Name c ++ str ": hash mismatch") h) else
  '(_, localMtime, localHash) ← at_ h (Uv.Read (h_repo h) (uf_Name c));
  if (2 <=? Uv.Status localMtime localHash (uf_MTime c) (uf_Hash c))%Z then Ret h else
  if bool_decide (uf_Hash c = dash) then
    d ← at_ h (Uv.Delete (h_repo h) (uf_Name c) (uf_MTime c)); Ret (set_repo d h)
  else
  match uf_Content c with
  | Some content =>
    d ← at_ h (Uv.Write (h_repo h) (uf_Name c) (Some content) (uf_MTime c)); Ret (set_repo d h)
  | None => Ret h
  end.

(** ** Synchronised tables *)

Definition xname (kind table pkHash : bytes) : bytes := kind ++ [SP] ++ table ++ slash ++ pkHash.

(** Deletions and rows go out under the hash they were asked for. *)
Definition sendXRow (h : handler) (table : bytes) (st : SyncedTable) (pkHash : bytes) : handled handler :=
  if bool_decide (pkHash = []) then Panic else
  found ← at_ h (LookupXRow (h_repo h) table (st_Def st) pkHash);
  match found with
  | None => Ret h
  | Some (row, mtime) =>
    match json_of_row row with
    | None => Fail (h, EScan)
    | Some rowJSON =>
      let h := emit (CardXRow (Xfer.MkXRow table pkHash mtime (Some rowJSON))) h in
      Ret (set_xrowsSent (h_xrowsSent h + 1) h)
    end
  end.

Definition sendXDelete (h : handler) (table : bytes) (st : SyncedTable) (pkHash : bytes) (mtime : Z)
    (row : goMap) : handled handler :=
  if bool_decide (pkHash = []) then Panic else
  _ ← at_ h (extractPKColumns (st_Def st));
  match json_of_row (pk_values (pk_columns (st_Def st)) row) with
  | None => Ret (emit_error (xname (str "xdelete") table pkHash ++ str ": marshal PKData: "
                             ++ err_text EScan) h)
  | Some pkData => Ret (emit (CardXDelete (MkXDelete table pkHash mtime (Some pkData))) h)
  end.

Fixpoint emit_xigots (table : bytes) (def : TableDef) (rows : list (goMap * Z)) (h : handler) :
    handled handler :=
  match rows with
  | [] => Ret h
  | (row, mtime) :: rows =>
    pkHash ← at_ h (row_hash def row);
    emit_xigots table def rows (emit (CardXIGot (MkXIGot table pkHash mtime)) h)
  end.

Definition emitXIGotsForTable (h : handler) (table : bytes) (st : SyncedTable) : handled handler :=
  if bool_decide (table = []) then Panic else
  rows ← at_ h (ListXRows (h_repo h) table);
  _ ← at_ h (extractPKColumns (st_Def st));
  emit_xigots table (st_Def st) rows h.

Definition emit_table (h : handler) (p : bytes * SyncedTable) : handled handler :=
  let defJSON := json_of_def (st_Def p.2) in
  let h := emit (CardSchema (MkSchema p.1 1 (sha1_hex defJSON) (ti_MTime (st_Info p.2)) (Some defJSON))) h in
  emitXIGotsForTable h p.1 p.2.

(** The order of the range over the map is the runtime's. *)
Definition emitXIGots (h : handler) : handled handler :=
  each emit_table (any_order (map_to_list (h_syncedTables h))) h.

Definition schema_error (table what : bytes) (e : db_error) : bytes :=
  str "schema " ++ table ++ str ": " ++ what ++ err_text e.

Definition handleSchemaCard (h : handler) (c : SchemaCard) : handled handler :=
  match ValidateTableName (sc_Table c) with
  | Fail e => Ret (emit_error (schema_error (sc_Table c) [] e) h)
  | Panic => Panic
  | NoFuel => NoFuel
  | Ret _ =>
    match json_def (content (sc_Content c)) with
    | None => Ret (emit_error (schema_error (sc_Table c) (str "unmarshal: ") EScan) h)
    | Some def =>
      '(d, failed) ← at_ h (RegisterSyncedTable (h_repo h) (sc_Table c) def (sc_MTime c));
      let h := set_repo d h in
      match failed with
      | Some e => Ret (emit_error (schema_error (sc_Table c) (str "register: ") e) h)
      | None =>
        let st := MkSynced (MkTableInfo (sc_Table c) def (sc_MTime c) [] 0) def in
        Ret (set_syncedTables (<[sc_Table c := st]> (h_syncedTables h)) h)
      end
    end
  end.

Definition handlePragmaXTableHash (h : handler) (table clientHash : bytes) : handled handler :=
  match h_syncedTables h !! table with
  | None => Ret h
  | Some st =>
    match CatalogHash (h_repo h) table (st_Def st) with
    | Fail e => Ret (emit_error (str "xtable-hash " ++ table ++ str ": " ++ err_text e) h)
    | Panic => Panic
    | NoFuel => NoFuel
    | Ret localHash =>
      if bool_decide (localHash = clientHash) then Ret h else
      match emitXIGotsForTable h table st with
      | Fail (h, e) =>
        Ret (emit_error (str "xtable-hash " ++ table ++ str ": emit xigots: " ++ err_text e) h)
      | m => m
      end
    end
  end.

Definition handleXIGot (h : handler) (c : XIGotCard) : handled handler :=
  if negb (h_pullOK h) then Ret h else
  match h_syncedTables h !! xi_Table c with
  | None => Ret h
  | Some st =>
    found ← at_ h (LookupXRow (h_repo h) (xi_Table c) (st_Def st) (xi_PKHash c));
    match found with
    | None => Ret (emit (CardXGimme (MkXGimme (xi_Table c) (xi_PKHash c))) h)
    | Some (localRow, localMtime) =>
      if (xi_MTime c <? localMtime)%Z then
        dead ← at_ h (IsTombstone (st_Def st) localRow);
        if dead : bool then sendXDelete h (xi_Table c) st (xi_PKHash c) localMtime localRow
        else sendXRow h (xi_Table c) st (xi_PKHash c)
      else Ret h
    end
  end.

Definition handleXGimme (h : handler) (c : XGimmeCard) : handled handler :=
  match h_syncedTables h !! xg_Table c with
  | None => Ret h
  | Some st => sendXRow h (xg_Table c) st (xg_PKHash c)
  end.

(** The row, or the text of the error card. *)
Definition verifyXRowPKHash (c : XRowCard) (st : SyncedTable) : out (goMap + bytes) :=
  match json_row (content (xr_Content c)) with
  | None => Ret (inr (xname (str "xrow") (xr_Table c) (xr_PKHash c) ++ str ": unmarshal: " ++ err_text EScan))
  | Some row =>
    row ← coerceJSONNumbers row (st_Def st);
    _ ← extractPKColumns (st_Def st);
    computedPK ← row_hash (st_Def st) row;
    Ret (if bool_decide (computedPK = xr_PKHash c) then inl row
         else inr (xname (str "xrow") (xr_Table c) (xr_PKHash c) ++ str ": pk hash mismatch"))
  end.

(** The [_owner] of a row that was looked up, if it is text. *)
Definition local_owner (row : goMap) : bytes :=
  match row !! str "_owner" with Some (VStr s) => s | _ => [] end.

Definition set_owner (user : bytes) (row : goMap) : goMap :=
  if bool_decide (user = []) then row else <[str "_owner" := VStr user]> row.

(** [None] if the row is rejected, otherwise the row to store. *)
Definition resolveXRowConflict (h : handler) (c : XRowCard) (st : SyncedTable) (row : goMap) :
    out (option goMap) :=
  local ← LookupXRow (h_repo h) (xr_Table c) (st_Def st) (xr_PKHash c);
  let conflict := td_Conflict (st_Def st) in
  if bool_decide (conflict = str "mtime-wins") then
    match local with
    | Some (_, localMtime) => Ret (if (xr_MTime c <? localMtime)%Z then None else Some row)
    | None => Ret (Some row)
    end
  else if bool_decide (conflict = str "self-write") then
    match local with
    | Some (localRow, _) =>
      if negb (bool_decide (local_owner localRow = [])) && negb (bool_decide (local_owner localRow = h_user h))
      then Ret None else Ret (Some (set_owner (h_user h) row))
    | None => Ret (Some (set_owner (h_user h) row))
    end
  else if bool_decide (conflict = str "owner-write") then
    match local with
    | Some (localRow, _) =>
      if negb (bool_decide (local_owner localRow = h_user h))
      then Ret None else Ret (Some (set_owner (h_user h) row))
    | None => Ret (Some (set_owner (h_user h) row))
    end
  else Ret (Some row).

Definition handleXRow (h : handler) (c : XRowCard) : handled handler :=
  if negb (h_pushOK h) then
    Ret (emit_error (xname (str "xrow") (xr_Table c) (xr_PKHash c) ++ str " rejected: no push card") h) else
  match h_syncedTables h !! xr_Table c with
  | None => Ret h
  | Some st =>
    verified ← at_ h (verifyXRowPKHash c st);
    match verified with
    | inr message => Ret (emit_error message h)
    | inl row =>
      accept ← at_ h (resolveXRowConflict h c st row);
      match accept with
      | None => Ret h
      | Some row =>
        d ← at_ h (UpsertXRow (h_repo h) (xr_Table c) row (xr_MTime c));
        let h := set_repo d h in
        Ret (set_xrowsRecvd (h_xrowsRecvd h + 1) h)
      end
    end
  end.

Definition handleXDelete (h : handler) (c : XDeleteCard) : handled handler :=
  if negb (h_pushOK h) then
    Ret (emit_error (xname (str "xdelete") (xd_Table c) (xd_PKHash c) ++ str " rejected: no push card") h) else
  match h_syncedTables h !! xd_Table c with
  | None => Ret h
  | Some st =>
    foreign ← (if has_owner (td_Conflict (st_Def st)) then
                 localOwner ← at_ h (LookupXRowOwner (h_repo h) (xd_Table c) (st_Def st) (xd_PKHash c));
                 Ret (negb (bool_decide (localOwner = [])) && negb (bool_decide (localOwner = h_user h)))
               else Ret false);
    if foreign : bool then Ret h else
    d ← at_ h (applyXDeleteLocally (h_repo h) (xd_Table c) (st_Def st) (xd_PKHash c) (xd_MTime c)
                 (xd_PKData c));
    Ret (set_repo d h)
  end.

(** ** Control cards *)

Definition not_private : bytes := str "not authorized to sync private content".

Definition handlePragma (now : Z) (h : handler) (c : PragmaCard) : handled handler :=
  h ← (if bool_decide (pr_Name c = str "uv-hash") && (1 <=? length (pr_Values c)) then
         match handlePragmaUVHash now h (nth 0 (pr_Values c) []) with
         | Fail (h, e) => Ret (emit_error (str "uv-hash: " ++ err_text e) h)
         | m => m
         end
       else if bool_decide (pr_Name c = str "xtable-hash") && (2 <=? length (pr_Values c)) then
         handlePragmaXTableHash h (nth 0 (pr_Values c) []) (nth 1 (pr_Values c) [])
       else Ret h);
  let h := if bool_decide (pr_Name c = str "req-clusters") then set_reqClusters true h else h in
  let h :=
    if bool_decide (pr_Name c = str "ci-lock") && (2 <=? length (pr_Values c)) then
      let '(d, fail) := processCkinLock now (h_repo h) (nth 0 (pr_Values c) []) (nth 1 (pr_Values c) [])
                          (h_user h) DefaultCkinLockTimeout in
      let h := set_repo d h in
      match fail with
      | Some f => emit (CardPragma (MkPragma (str "ci-lock-fail") [lf_HeldBy f; fmt_int (lf_Since f)])) h
      | None => h
      end
    else h in
  Ret (if bool_decide (pr_Name c = str "send-private") then
         if CanSyncPrivate (h_caps h) then set_syncPrivate true h else emit_error not_private h
       else h).

Definition denied (what : bytes) : bytes := what ++ str " denied: insufficient capabilities".

Definition handleControlCard (now : Z) (h : handler) (card : Card) : handled handler :=
  match card with
  | CardPragma c => handlePragma now h c
  | CardPush _ => Ret (if CanPush (h_caps h) then set_pushOK true h else emit_error (denied (str "push")) h)
  | CardPull _ => Ret (if CanPull (h_caps h) then set_pullOK true h else emit_error (denied (str "pull")) h)
  | CardClone _ =>
    Ret (if CanClone (h_caps h) then set_cloneMode true h else emit_error (denied (str "clone")) h)
  | CardCloneSeqNo n => Ret (set_cloneSeq n h)
  | CardCookie v => Ret (match parseCloneCap v with Some rid => set_cloneSnapMax rid h | None => h end)
  | CardSchema c => handleSchemaCard h c
  | _ => Ret h
  end.

(** ** Artifacts *)

Definition handleIGot (h : handler) (c : IGotCard) : handled handler :=
  exists_ ← at_ h (in_repo (Blob.Exists (h_blobs h) (ig_UUID c)));
  match exists_ with
  | Some _ => Ret (set_remoteHas (<[ig_UUID c := ig_IsPrivate c]> (h_remoteHas h)) h)
  | None =>
    if negb (h_pushOK h) && negb (h_pullOK h) then Ret h else
    if ig_IsPrivate c && negb (h_syncPrivate h) then Ret h else
    Ret (emit (CardGimme (ig_UUID c)) h)
  end.

Definition handleGimme (h : handler) (uuid : bytes) : handled handler :=
  found ← at_ h (in_repo (Blob.Exists (h_blobs h) uuid));
  match found with
  | None => Ret h
  | Some rid =>
    isPriv ← at_ h (in_repo (IsPrivate (h_blobs h) rid));
    if isPriv && negb (h_syncPrivate h) then Ret h else
    match Cache_Expand (h_cache h) (h_blobs h) rid with
    | Fail e =>
      Ret (emit_error (str "expand " ++ uuid ++ str ": " ++ err_text (EBlob e))
             (set_cache (cache_missed (h_cache h) rid) h))
    | Panic => Panic
    | NoFuel => NoFuel
    | Ret (cache, data) =>
      let h := set_cache cache h in
      let h := if isPriv : bool then emit CardPrivate h else h in
      let h := emit (CardFile (MkFile uuid [] (Some data))) h in
      Ret (set_filesSent (h_filesSent h + 1) h)
    end
  end.

Definition handleFile (h : handler) (uuid deltaSrc : bytes) (payload : slice) : handled handler :=
  if bool_decide (uuid = []) then Panic else
  if negb (h_pushOK h) then
    Ret (emit_error (str "file " ++ uuid ++ str " rejected: no push card") h) else
  match storeReceivedFile (h_blobs h) uuid deltaSrc payload (h_cache h) with
  | Fail (cache, e) =>
    Ret (emit_error (str "storing " ++ uuid ++ str ": " ++ err_text e) (set_cache cache h))
  | Panic => Panic
  | NoFuel => NoFuel
  | Ret (cache, q) =>
    let h := set_blobs q (set_cache cache h) in
    found ← at_ h (in_repo (Blob.Exists (h_blobs h) uuid));
    match found with
    | None => Ret (emit_error (str "blob " ++ uuid ++ str " missing after store") h)
    | Some rid =>
      h ← (if h_nextIsPrivate h then
             q ← at_ h (in_repo (MakePrivate (h_blobs h) rid));
             Ret (set_nextIsPrivate false (set_blobs q h))
           else
             q ← at_ h (in_repo (MakePublic (h_blobs h) rid));
             Ret (set_blobs q h));
      Ret (set_filesRecvd (h_filesRecvd h + 1) h)
    end
  end.

Definition handlePrivate (h : handler) : handler :=
  if CanSyncPrivate (h_caps h) then set_nextIsPrivate true h
  else set_nextIsPrivate false (emit_error not_private h).

Definition handleReqConfig (h : handler) (name : bytes) : handled handler :=
  match config_value (h_repo h) name with
  | None => Ret h
  | Some val => Ret (emit (CardConfig (MkConfig name (Some val))) h)
  end.

Definition handleDataCard (h : handler) (card : Card) : handled handler :=
  match card with
  | CardIGot c => handleIGot h c
  | CardGimme uuid => handleGimme h uuid
  | CardFile c => handleFile h (f_UUID c) (f_DeltaSrc c) (f_Content c)
  | CardCFile c => handleFile h (cf_UUID c) (cf_DeltaSrc c) (cf_Content c)
  | CardPrivate => Ret (handlePrivate h)
  | CardReqConfig name => handleReqConfig h name
  | CardUVIGot c => handleUVIGot h c
  | CardUVGimme name => handleUVGimme h name
  | CardUVFile c => handleUVFile h c
  | CardXIGot c => handleXIGot h c
  | CardXGimme c => handleXGimme h c
  | CardXRow c => handleXRow h c
  | CardXDelete c => handleXDelete h c
  | _ => Ret h
  end.

(** ** Announcements *)

(** Whether the client announced the artifact with this flag. *)
Definition announced (h : handler) (uuid : bytes) (private : bool) : bool :=
  bool_decide (h_remoteHas h !! uuid = Some private).

Definition public_row (q : repo) (p : Z * blobRow) : bool :=
  (0 <=? b_size p.2)%Z && negb (bool_decide (b_uuid p.2 ∈ dom (t_shun q)))
  && negb (bool_decide (p.1 ∈ t_private q)).

Definition emitPrivateIGots (h : handler) : handler :=
  let rids := any_order (elements (t_private (h_blobs h))) in
  let rows := omap (λ rid, t_blob (h_blobs h) !! rid) rids in
  let uuids := map b_uuid (filter (λ row, (0 <= b_size row)%Z) rows) in
  let uuids := filter (λ u, announced h u true = false) uuids in
  foldl (λ h u, emit (CardIGot (MkIGot u true)) h) h uuids.

Definition emitIGots (h : handler) : handler :=
  let rows := filter (λ p, public_row (h_blobs h) p = true) (any_order (map_to_list (t_blob (h_blobs h)))) in
  let uuids := filter (λ u, announced h u false = false) (map (λ p, b_uuid p.2) rows) in
  let h := foldl (λ h u, emit (CardIGot (MkIGot u false)) h) h uuids in
  if h_syncPrivate h then emitPrivateIGots h else h.

(** The clusters that are no longer announced one by one (not called). *)
Definition sendAllClusters (h : handler) : handler :=
  let q := h_blobs h in
  let tagged := any_order (elements (dom (t_tagxref q))) in
  let rids := map snd (filter (λ k, k.1 = 7%Z) tagged) in
  let keep rid :=
    match t_blob q !! rid with
    | Some row =>
      if negb (bool_decide (rid ∈ t_unclustered q)) && negb (bool_decide (rid ∈ t_phantom q))
         && public_row q (rid, row)
      then Some (b_uuid row) else None
    | None => None
    end in
  let uuids := filter (λ u, announced h u false = false) (omap keep rids) in
  foldl (λ h u, emit (CardIGot (MkIGot u false)) h) h uuids.

(** ** Clones *)

(** [SELECT COALESCE(MAX(rid), 0) FROM blob WHERE size >= 0] *)
Definition max_rid (q : repo) : Z :=
  foldr Z.max 0%Z (map fst (filter (λ p, (0 <= b_size p.2)%Z) (map_to_list (t_blob q)))).

(** The rows of the batch query, in the order of their rids. *)
Definition clone_rows (q : repo) (cloneSeq cloneSnapMax : Z) : list (Z * blobRow) :=
  sort_slice (λ a b, a.1 <? b.1)%Z
    (filter (λ p, (cloneSeq < p.1)%Z ∧ (p.1 <= cloneSnapMax)%Z ∧ (0 <= b_size p.2)%Z)
       (map_to_list (t_blob q))).

(** The loop over the rows, with the last rid that was sent, and whether a row
    was left over. *)
Fixpoint clone_loop (rows : list (Z * blobRow)) (count : nat) (lastSentRID : Z) (h : handler) :
    handled (handler * Z * bool) :=
  match rows with
  | [] => Ret (h, lastSentRID, false)
  | (rid, row) :: rows =>
    isPriv ← at_ h (in_repo (IsPrivate (h_blobs h) rid));
    if isPriv && negb (h_syncPrivate h) then clone_loop rows count lastSentRID h else
    if DefaultCloneBatchSize <=? count then Ret (h, lastSentRID, true) else
    '(cache, data) ← at_ (set_cache (cache_missed (h_cache h) rid) h)
                       (in_repo (Cache_Expand (h_cache h) (h_blobs h) rid));
    let h := set_cache cache h in
    let h := if isPriv : bool then emit CardPrivate h else h in
    let h := emit (CardFile (MkFile (b_uuid row) [] (Some data))) h in
    clone_loop rows (S count) rid (set_filesSent (h_filesSent h + 1) h)
  end.

Definition emitCloneBatch (h : handler) : handled handler :=
  let h := if (h_cloneSnapMax h =? 0)%Z then
             let maxRid := max_rid (h_blobs h) in
             emit (CardCookie (cloneCapPrefix ++ fmt_int maxRid)) (set_cloneSnapMax maxRid h)
           else h in
  '(h, lastSentRID, more) ← clone_loop (clone_rows (h_blobs h) (h_cloneSeq h) (h_cloneSnapMax h)) 0 0 h;
  Ret (emit (CardCloneSeqNo (if more : bool then lastSentRID else 0%Z)) h).

(** ** Requests *)

Definition is_file_card (c : Card) : bool :=
  match c with CardFile _ | CardCFile _ | CardPrivate => true | _ => false end.
Definition is_login_card (c : Card) : bool := match c with CardLogin _ => true | _ => false end.

Definition processDataCards (h : handler) (cards : list Card) : handled handler :=
  h ← each handleDataCard (filter (λ c, is_file_card c = true) cards) h;
  h ← each handleDataCard (filter (λ c, is_file_card c = false) cards) h;
  h ← (if h_pullOK h then emitXIGots (emitIGots h) else Ret h);
  if h_cloneMode h then emitCloneBatch h else Ret h.

(** The first pass: who is asking, and what may they do. *)
Definition authenticate (now : Z) (h : handler) (cards : list Card) : handled handler :=
  h ← loadSyncedTables (initAuth h);
  each (λ h c, match c with CardLogin c => handleLoginCard now h c | _ => Ret h end) cards h.

Definition emit_codes (h : handler) : handler :=
  if h_cloneMode h then
    let projectCode := config_or_empty (h_repo h) (str "project-code") in
    let serverCode := config_or_empty (h_repo h) (str "server-code") in
    if bool_decide (projectCode = []) then h else emit (CardPush (MkPush serverCode projectCode)) h
  else h.

(** [process] without its last step: when files were received, the manifests
    among them are crosslinked ([SyncLinked.process]). *)
Definition process_cards (now : Z) (h : handler) (cards : list Card) : handled handler :=
  h ← authenticate now h cards;
  h ← each (handleControlCard now) (filter (λ c, is_login_card c = false) cards) h;
  processDataCards (emit_codes h) cards.
End handlers.
