(* ===== verification/HandlerSafety.v ===== *)
(** * What the server guarantees (src/internal/sync/handler.go and its parts)

    Each handler is related to the record it is given by the relation [good]: it
    keeps the capabilities; without a push card it leaves the repository alone;
    it loses no artifact, keeps the repository consistent and sends only genuine
    artifacts; and without the capability for private content it sends none.
    [calm] is the stronger relation that all handlers satisfy which have nothing
    to do with artifacts. *)
From S2P Require Import Prelude GoStrings Hash Zlib Xfer Blob Content Db Uv Auth Receive TableSync CkinLock Handler.
From stdpp Require Import list gmap sets.

(** ** Handlers as steps of a relation *)

(** The record a handler leaves, after an error too, is related to [h]. *)
Definition steps (R : relation handler) (h : handler) (m : handled handler) : Prop :=
  match m with Ret h' => R h h' | Fail (h', _) => R h h' | Panic | NoFuel => True end.

Section steps.
Context {R : relation handler} `{!PreOrder R}.

Lemma steps_weaken (Q : relation handler) h m :
  (∀ h1 h2, R h1 h2 → Q h1 h2) → steps R h m → steps Q h m.
Proof. intros H. destruct m as [|[]| |]; cbn; auto. Qed.

Lemma steps_from h h1 m : R h h1 → steps R h1 m → steps R h m.
Proof. intros H. destruct m as [|[]| |]; cbn; try done; intros; by etrans. Qed.

Lemma steps_bind h m f : steps R h m → (∀ h1, R h h1 → steps R h1 (f h1)) → steps R h (m ≫= f).
Proof.
  destruct m as [h1|[h1 e]| |]; cbn; try done. intros H Hf. eapply steps_from; [exact H|]. by apply Hf.
Qed.

Lemma steps_at {A} h h1 (m : out A) f :
  R h h1 → (∀ a, m = Ret a → steps R h (f a)) → steps R h (at_ h1 m ≫= f).
Proof. intros H Hf. destruct m as [a|e| |]; cbn; try done. by apply Hf. Qed.

(** Along a list, with an invariant the handler may rely on. *)
Lemma steps_each {A} (I : handler → Prop) (f : handler → A → handled handler) l :
  (∀ h x, I h → x ∈ l → steps R h (f h x)) → (∀ h h1, R h h1 → I h → I h1) →
  ∀ h, I h → steps R h (each f l h).
Proof.
  intros Hf HI. induction l as [|x l IH]; intros h Hh; cbn [each]; [cbn; reflexivity|].
  apply steps_bind; [apply Hf; [done|by left]|]. intros h1 H1. apply IH; [|by eapply HI].
  intros h2 y Hh2 Hy. apply Hf; [done|by right].
Qed.
End steps.

(** ** What a request without push leaves alone *)

(** The contents of the unversioned files; sync may touch their times. *)
Definition uv_contents (d : db) : gmap bytes (option bytes * Z * Z * slice) :=
  (λ r, (v_hash r, v_sz r, v_encoding r, v_content r)) <$> default ∅ (d_uv d).

(** Artifacts and their relations, users, unversioned files but for their times,
    and the rows of synchronised tables are as before; only tables were added. *)
Record untouched (d d' : db) : Prop := {
  un_repo : d_repo d' = d_repo d;
  un_user : d_user d' = d_user d;
  un_leaf : d_leaf d' = d_leaf d;
  un_unsent : d_unsent d' = d_unsent d;
  un_uv : uv_contents d' = uv_contents d;
  un_x : d_x d ⊆ d_x d';
  un_links : d_links d' = d_links d
}.

(** The tables that crosslinking fills are as before. *)
Definition links_kept (d d' : db) : Prop := d_links d' = d_links d ∧ d_leaf d' = d_leaf d.

#[global] Instance links_kept_preorder : PreOrder links_kept.
Proof. split; [by intros d|]. intros d1 d2 d3 [A1 A2] [B1 B2]. split; congruence. Qed.

Lemma untouched_links d d' : untouched d d' → links_kept d d'.
Proof. intros []. by split. Qed.

#[global] Instance untouched_preorder : PreOrder untouched.
Proof.
  split; [by intros d; split|].
  intros d1 d2 d3 [A1 A2 A3 A4 A5 A6 A7] [B1 B2 B3 B4 B5 B6 B7]. split; try congruence. by etrans.
Qed.

(** ** Cards without secrets *)

(** Cards that neither carry nor announce an artifact. *)
Definition benign (c : Card) : Prop :=
  match c with CardFile _ | CardCFile _ | CardIGot _ | CardPrivate => False | _ => True end.

(** A file card carries an artifact of the repository, whole. *)
Definition genuine `{Zlib, Sha3} (q : repo) (c : Card) : Prop :=
  match c with
  | CardFile f => f_DeltaSrc f = [] ∧ ∃ rid row data, f_Content f = Some data ∧
      t_blob q !! rid = Some row ∧ b_uuid row = f_UUID f ∧ expands q rid data ∧
      hash_of (f_UUID f) data = f_UUID f
  | _ => True
  end.

Definition public (q : repo) (uuid : bytes) : Prop :=
  ∃ rid row, t_blob q !! rid = Some row ∧ b_uuid row = uuid ∧ rid ∉ t_private q.

(** The card does not reveal a private artifact. *)
Definition discreet (q : repo) (c : Card) : Prop :=
  match c with
  | CardFile f => public q (f_UUID f)
  | CardIGot g => ig_IsPrivate g = false ∧ public q (ig_UUID g)
  | CardPrivate => False
  | _ => True
  end.

Section relations.
Context {codec : Zlib} {sha3 : Sha3}.

(** ** The relations *)

Record sound (h : handler) : Prop := {
  sd_repo : repo_ok (h_blobs h);
  sd_cache : coherent (h_cache h) (h_blobs h);
  sd_files : Forall (genuine (h_blobs h)) (h_resp h)
}.

Record confined (h : handler) : Prop := {
  cf_caps : CanSyncPrivate (h_caps h) = false;
  cf_sync : h_syncPrivate h = false;
  cf_next : h_nextIsPrivate h = false;
  cf_resp : Forall (discreet (h_blobs h)) (h_resp h)
}.

(** Without the capability, and without an accepted push card, nothing is written. *)
Definition push_guarded (h h' : handler) : Prop :=
  CanPush (h_caps h) = false → h_pushOK h = false →
  h_pushOK h' = false ∧ untouched (h_repo h) (h_repo h').

(** The tables of the session have names and columns that are identifiers. *)
Definition valid_tables (h : handler) : Prop :=
  map_Forall (λ name st, validName name = true ∧ valid_def (st_Def st)) (h_syncedTables h).

Record good (h h' : handler) : Prop := {
  gd_caps : h_caps h' = h_caps h;
  gd_push : push_guarded h h';
  gd_tables : valid_tables h → valid_tables h';
  gd_rows : rows_kept (h_blobs h) (h_blobs h');
  gd_sound : small (h_blobs h') → sound h →
    retains (h_blobs h) (h_blobs h') ∧ sound h' ∧ (confined h → confined h');
  gd_links : links_kept (h_repo h) (h_repo h')
}.

#[global] Instance good_preorder : PreOrder good.
Proof.
  split.
  - intros h. split; [done|by intros _ ?|done|reflexivity|by intros _ ?|reflexivity].
  - intros h1 h2 h3 [A1 A2 AT A3 A4 A5] [B1 B2 BT B3 B4 B5]. split; [congruence| |by auto|by etrans| |by etrans].
    + intros Hc Hp. destruct (A2 Hc Hp) as [Hp2 Hu2]. rewrite <- A1 in Hc.
      destruct (B2 Hc Hp2) as [Hp3 Hu3]. split; [done|by etrans].
    + intros Hs H1. destruct (A4 (small_kept _ _ B3 Hs) H1) as (R2 & H2 & C2).
      destruct (B4 Hs H2) as (R3 & H3 & C3). split; [by etrans|]. auto.
Qed.

(** No artifacts change hands. *)
Record calm (h h' : handler) : Prop := {
  cm_blobs : h_blobs h' = h_blobs h;
  cm_cache : h_cache h' = h_cache h;
  cm_caps : h_caps h' = h_caps h;
  cm_next : h_nextIsPrivate h' = h_nextIsPrivate h;
  cm_sync : CanSyncPrivate (h_caps h) = false → h_syncPrivate h = false → h_syncPrivate h' = false;
  cm_push : push_guarded h h';
  cm_tables : valid_tables h → valid_tables h';
  cm_resp : ∃ cs, h_resp h' = h_resp h ++ cs ∧ Forall benign cs;
  cm_links : links_kept (h_repo h) (h_repo h')
}.

#[global] Instance calm_preorder : PreOrder calm.
Proof.
  split.
  - intros h. split; try done. exists []. by rewrite app_nil_r.
  - intros h1 h2 h3 [A1 A2 A3 A4 A5 A6 A7 (cs & Ac & Ab) A9] [B1 B2 B3 B4 B5 B6 B7 (cs' & Bc & Bb) B9].
    split; [congruence..| | |by auto| |by etrans].
    + intros Hc Hs. apply B5; [by rewrite A3|by apply A5].
    + intros Hc Hp. destruct (A6 Hc Hp) as [Hp2 Hu2]. rewrite <- A3 in Hc.
      destruct (B6 Hc Hp2) as [Hp3 Hu3]. split; [done|by etrans].
    + exists (cs ++ cs'). rewrite Bc, Ac, app_assoc. split; [done|]. by apply Forall_app.
Qed.

Lemma benign_genuine q c : benign c → genuine q c.
Proof. by destruct c. Qed.
Lemma benign_discreet q c : benign c → discreet q c.
Proof. by destruct c. Qed.

Lemma calm_good h h' : calm h h' → good h h'.
Proof.
  intros [Hb Hca Hcp Hn Hs Hp Ht (cs & Hr & Hcs) Hlk]. split; [done|done|done| | |done].
  - by rewrite Hb.
  - intros _ [S1 S2 S3]. rewrite Hb. split; [reflexivity|]. split.
    + split; rewrite Hb; [done|by rewrite Hca|]. rewrite Hr. apply Forall_app. split; [done|].
      eapply Forall_impl; [exact Hcs|]. intros c. apply benign_genuine.
    + intros [C1 C2 C3 C4]. split; [congruence|by apply Hs|congruence|].
      rewrite Hb, Hr. apply Forall_app. split; [done|].
      eapply Forall_impl; [exact Hcs|]. intros c. apply benign_discreet.
Qed.

(** ** Elementary calm steps *)

Lemma push_guarded_same h h' : h_repo h' = h_repo h → (h_pushOK h = false → h_pushOK h' = false) →
  push_guarded h h'.
Proof. intros Hr Hp _ Hp1. split; [by auto|]. by rewrite Hr. Qed.

Lemma calm_emit c h : benign c → calm h (emit c h).
Proof. intros Hc. split; try done. exists [c]. by split; [|repeat constructor]. Qed.

Lemma calm_error m h : calm h (emit_error m h).
Proof. by apply calm_emit. Qed.

Lemma calm_emits {A} (f : A → Card) l h : (∀ x, benign (f x)) →
  calm h (foldl (λ h x, emit (f x) h) h l).
Proof.
  intros Hf. revert h. induction l as [|x l IH]; intros h; cbn; [reflexivity|].
  etrans; [apply (calm_emit (f x)), Hf|apply IH].
Qed.

(** A field changes on which the relation does not depend. *)
Lemma calm_field h h' : h_repo h' = h_repo h → h_cache h' = h_cache h → h_caps h' = h_caps h →
  h_nextIsPrivate h' = h_nextIsPrivate h → h_syncPrivate h' = h_syncPrivate h →
  h_pushOK h' = h_pushOK h → h_syncedTables h' = h_syncedTables h → h_resp h' = h_resp h → calm h h'.
Proof.
  intros Hr Hc Hcp Hn Hs Hp Ht Hre. unfold h_blobs. split; try congruence.
  - unfold h_blobs. by rewrite Hr.
  - apply push_guarded_same; [done|congruence].
  - unfold valid_tables. by rewrite Ht.
  - exists []. by rewrite app_nil_r.
  - by rewrite Hr.
Qed.

(** A change of the database that keeps the artifacts. *)
Lemma calm_repo d h : d_repo d = d_repo (h_repo h) → links_kept (h_repo h) d →
  (h_pushOK h = false → untouched (h_repo h) d) → calm h (set_repo d h).
Proof.
  intros Hd Hlk Hu. split; try done; [by intros _ Hp; split; [|apply Hu]|]. exists []. by rewrite app_nil_r.
Qed.
End relations.

(** ** Unversioned files *)

Section uv.
Context {codec : Zlib} {sha3 : Sha3} {sqlite : Sqlite}.

Lemma EnsureSchema_untouched d : untouched d (Uv.EnsureSchema d).
Proof. by split. Qed.

Lemma ContentHash_frame now d d' s : Uv.ContentHash now d = Ret (d', s) → untouched d d'.
Proof.
  unfold Uv.ContentHash. cbv zeta. destruct (negb _); [by intros [= <- _]|].
  destruct (d_uv d) as [t|] eqn:E; [|done]. intros H. apply bind_ret_inv in H as (h & _ & H).
  injection H as <- _. by split.
Qed.

Lemma uv_exec_frame f d d' : uv_exec f d = Ret d' →
  ∃ t, d_uv d = Some t ∧ d' = on_uv (λ _, Some (f t)) d.
Proof. unfold uv_exec. destruct (d_uv d) as [t|]; [|done]. intros [= <-]. by exists t. Qed.

Lemma SetMTime_frame d name mtime d' : Uv.SetMTime d name mtime = Ret d' → untouched d d'.
Proof.
  unfold Uv.SetMTime. intros H. apply bind_ret_inv in H as (d1 & H1 & H). injection H as <-.
  apply uv_exec_frame in H1 as (t & Ht & ->). split; try done. unfold uv_contents. cbn. rewrite Ht.
  cbn. apply map_eq. intros k. rewrite !lookup_fmap. destruct (decide (k = name)) as [->|Hk].
  - rewrite lookup_alter_eq. by destruct (t !! name).
  - by rewrite lookup_alter_ne by done.
Qed.

Lemma Delete_repo d name mtime d' : Uv.Delete d name mtime = Ret d' → d_repo d' = d_repo d ∧ links_kept d d'.
Proof.
  unfold Uv.Delete. case_bool_decide; [done|]. intros Hd. apply bind_ret_inv in Hd as (d1 & H1 & Hd).
  injection Hd as <-. by apply uv_exec_frame in H1 as (t & _ & ->).
Qed.

Lemma Write_repo d name content mtime d' : Uv.Write d name content mtime = Ret d' → d_repo d' = d_repo d ∧ links_kept d d'.
Proof.
  unfold Uv.Write. case_bool_decide; [done|]. destruct content as [c|]; [|done]. intros Hd.
  apply bind_ret_inv in Hd as (hash & _ & Hd). destruct (encode_content c) as [enc stored].
  apply bind_ret_inv in Hd as (d1 & H1 & Hd). injection Hd as <-.
  by apply uv_exec_frame in H1 as (t & _ & ->).
Qed.

Lemma calm_untouched d h : untouched (h_repo h) d → calm h (set_repo d h).
Proof. intros Hu. apply calm_repo; [apply Hu|by apply untouched_links|by intros _]. Qed.

Lemma calm_EnsureSchema h : calm h (set_repo (Uv.EnsureSchema (h_repo h)) h).
Proof. apply calm_untouched, EnsureSchema_untouched. Qed.

Lemma handlePragmaUVHash_calm now h clientHash : steps calm h (handlePragmaUVHash now h clientHash).
Proof.
  unfold handlePragmaUVHash. destruct (h_uvCatalogSent h); [cbn; reflexivity|]. cbv zeta.
  set (h1 := set_repo _ h). assert (calm h h1) as H1 by apply calm_EnsureSchema.
  apply steps_at; [done|]. intros [d s] Hd%ContentHash_frame.
  set (h2 := set_repo d h1).
  assert (calm h h2) as H2 by (etrans; [exact H1|by apply calm_untouched]).
  case_bool_decide; [done|].
  set (h3 := emit _ _).
  assert (calm h h3) as H3 by (etrans; [exact H2|]; etrans; [by apply (calm_field h2 (set_uvCatalogSent true h2))|by apply calm_emit]).
  apply steps_at; [done|]. intros l _. cbn. etrans; [exact H3|]. by apply calm_emits.
Qed.

Lemma sendUVFile_calm h name : steps calm h (sendUVFile h name).
Proof.
  unfold sendUVFile. case_bool_decide; [done|]. apply steps_at; [done|].
  intros [[c m] fh] _. by apply (calm_emit _ h).
Qed.

Lemma handleUVIGot_calm h c : steps calm h (handleUVIGot h c).
Proof.
  unfold handleUVIGot. cbv zeta. set (h1 := set_repo _ h). assert (calm h h1) as H1 by apply calm_EnsureSchema.
  apply steps_at; [done|]. intros [[x m] lh] _.
  destruct (_ || _); [cbn; etrans; [exact H1|by apply calm_emit]|].
  destruct (_ =? 2)%Z.
  - apply steps_at; [done|]. intros d Hd%SetMTime_frame. cbn. etrans; [exact H1|by apply calm_untouched].
  - destruct (_ || _); [|done]. eapply steps_from; [exact H1|apply sendUVFile_calm].
Qed.

(** Only handlers that saw the push card write; [h1] is the record they write to. *)
Lemma calm_write h h1 d : calm h h1 → h_pushOK h = true →
  d_repo d = d_repo (h_repo h1) ∧ links_kept (h_repo h1) d → calm h (set_repo d h1).
Proof.
  intros [A1 A2 A3 A4 A5 A6 A7 A8 A9] Hp [Hd Hlk]. split; try done.
  - rewrite <- A1. exact Hd.
  - intros _ Hp'. congruence.
  - cbn. by etrans.
Qed.

Lemma handleUVFile_calm h c : steps calm h (handleUVFile h c).
Proof.
  unfold handleUVFile. destruct (negb (CanPushUV _)); [by apply calm_error|].
  destruct (h_pushOK h) eqn:Hp; cbn [negb]; [|by apply calm_error]. cbv zeta.
  set (h1 := set_repo _ h). assert (calm h h1) as H1 by apply calm_EnsureSchema.
  destruct (if (Z.land _ _ =? 0)%Z then _ else _) as [g|[h' e]| |] eqn:Hg; try done; cbn [mbind outcome_bind].
  - destruct (negb g); [cbn; etrans; [exact H1|apply calm_error]|].
    apply steps_at; [done|]. intros [[x m] lh] _.
    destruct (2 <=? _)%Z; [done|]. case_bool_decide.
    + apply steps_at; [done|]. intros d Hd%Delete_repo. cbn. by apply calm_write.
    + destruct (uf_Content c) as [content|]; [|done].
      apply steps_at; [done|]. intros d Hd%Write_repo. cbn. by apply calm_write.
  - revert Hg. destruct (_ =? 0)%Z; [|done]. unfold Hash.ContentHash, SHA3, SHA1.
    destruct (uf_Content c); [|done]. destruct (_ =? 0); [done|]. by destruct (40 <? _).
Qed.
End uv.

(** ** Synchronised tables *)

Section tables.
Context {codec : Zlib} {sha3 : Sha3} {sql : Sql} {floats : Floats} {json : Json} {texts : ErrorText}
  {order : Unordered}.

Lemma sendXRow_calm h table st pkHash : steps calm h (sendXRow h table st pkHash).
Proof.
  unfold sendXRow. case_bool_decide; [done|]. apply steps_at; [done|].
  intros [[row m]|] _; [|cbn; reflexivity]. destruct (json_of_row row) as [j|]; [|cbn; reflexivity].
  cbv zeta. set (h1 := emit _ h). cbn. transitivity h1; [by apply calm_emit|by apply calm_field].
Qed.

Lemma sendXDelete_calm h table st pkHash mtime row :
  steps calm h (sendXDelete h table st pkHash mtime row).
Proof.
  unfold sendXDelete. case_bool_decide; [done|]. apply steps_at; [done|]. intros _ _.
  destruct (json_of_row _); [by apply calm_emit|by apply calm_error].
Qed.

Lemma emit_xigots_calm table def rows h : steps calm h (emit_xigots table def rows h).
Proof.
  revert h. induction rows as [|[row m] rows IH]; intros h; cbn [emit_xigots]; [cbn; reflexivity|].
  apply steps_at; [done|]. intros p _. eapply steps_from; [|apply IH]. by apply calm_emit.
Qed.

Lemma emitXIGotsForTable_calm h table st : steps calm h (emitXIGotsForTable h table st).
Proof.
  unfold emitXIGotsForTable. case_bool_decide; [done|]. apply steps_at; [done|]. intros rows _.
  apply steps_at; [done|]. intros _ _. apply emit_xigots_calm.
Qed.

Lemma emitXIGots_calm h : steps calm h (emitXIGots h).
Proof.
  unfold emitXIGots. apply (steps_each (λ _, True)); [|done|done]. intros h1 [t st] _ _.
  unfold emit_table. cbv zeta. eapply steps_from; [|apply emitXIGotsForTable_calm]. by apply calm_emit.
Qed.

Lemma handlePragmaXTableHash_calm h table hash : steps calm h (handlePragmaXTableHash h table hash).
Proof.
  unfold handlePragmaXTableHash. destruct (h_syncedTables h !! table) as [st|]; [|cbn; reflexivity].
  destruct (CatalogHash _ _ _); try done; [|by apply calm_error].
  case_bool_decide; [cbn; reflexivity|]. pose proof (emitXIGotsForTable_calm h table st) as Hs.
  destruct (emitXIGotsForTable h table st) as [h1|[h1 e]| |]; try done. cbn in *.
  etrans; [exact Hs|apply calm_error].
Qed.

Lemma handleXIGot_calm h c : steps calm h (handleXIGot h c).
Proof.
  unfold handleXIGot. destruct (negb _); [cbn; reflexivity|].
  destruct (h_syncedTables h !! xi_Table c) as [st|]; [|cbn; reflexivity].
  apply steps_at; [done|]. intros [[row m]|] _; [|by apply calm_emit].
  destruct (_ <? m)%Z; [|cbn; reflexivity]. apply steps_at; [done|]. intros dead _.
  destruct dead; [apply sendXDelete_calm|apply sendXRow_calm].
Qed.

Lemma handleXGimme_calm h c : steps calm h (handleXGimme h c).
Proof.
  unfold handleXGimme. destruct (h_syncedTables h !! xg_Table c) as [st|]; [|cbn; reflexivity].
  apply sendXRow_calm.
Qed.

(** A schema card needs no capability; it adds a table at most. *)
Lemma schema_untouched d d' :
  on_schema (λ _, None) (on_x (λ _, ∅) d') = on_schema (λ _, None) (on_x (λ _, ∅) d) →
  d_x d ⊆ d_x d' → untouched d d'.
Proof.
  intros He Hx. split; [by apply (f_equal d_repo) in He|by apply (f_equal d_user) in He|
    by apply (f_equal d_leaf) in He|by apply (f_equal d_unsent) in He| |done|by apply (f_equal d_links) in He].
  unfold uv_contents. apply (f_equal d_uv) in He. cbn in He. by rewrite He.
Qed.

Lemma handleSchemaCard_calm h c : steps calm h (handleSchemaCard h c).
Proof.
  unfold handleSchemaCard. destruct (ValidateTableName _); try done; [|by apply calm_error].
  destruct (json_def _) as [def|]; [|by apply calm_error].
  apply steps_at; [done|]. intros [d e] Hr. apply RegisterSyncedTable_frame in Hr as (He & Hx & Hv).
  pose proof (schema_untouched _ _ He Hx) as Hu.
  assert (calm h (set_repo d h)) as Hc by by apply calm_untouched.
  destruct e as [e|]; cbn; [etrans; [exact Hc|apply calm_error]|].
  etrans; [exact Hc|]. destruct (Hv eq_refl) as [Hn Hd]. split; try done.
  - intros Ht. unfold valid_tables. cbn. by apply map_Forall_insert_2.
  - exists []. by rewrite app_nil_r.
Qed.

(** ** Cards that are pushed *)

(** The JSON of a pushed row has column names for keys.  Keys are pasted into the
    statement that stores the row, so a client can smuggle in SQL otherwise. *)
Definition clean (c : Card) : Prop :=
  match c with
  | CardXRow c => ∀ r, json_row (content (xr_Content c)) = Some (Some r) → valid_keys r
  | CardXDelete c => ∀ r, json_row (content (xd_PKData c)) = Some (Some r) → valid_keys r
  | _ => True
  end.

Context {exec : SqlExecLaws}.

Lemma x_only_repo d d' : x_only d d' → d_repo d' = d_repo d ∧ links_kept d d'.
Proof.
  intros H. split; [by apply (f_equal d_repo) in H|].
  split; [by apply (f_equal d_links) in H|by apply (f_equal d_leaf) in H].
Qed.

Lemma set_owner_valid user r : valid_keys r → valid_keys (set_owner user r).
Proof.
  intros Hr. unfold set_owner. case_bool_decide; [done|]. by apply map_Forall_insert_2.
Qed.

Lemma verify_valid c st r : clean (CardXRow c) → verifyXRowPKHash c st = Ret (inl r) → valid_keys r.
Proof.
  unfold verifyXRowPKHash, clean. intros Hcl. destruct (json_row _) as [[row|]|]; [|done|done].
  intros H. apply bind_ret_inv in H as (row' & Hco & H). apply bind_ret_inv in H as (x & _ & H).
  apply bind_ret_inv in H as (pk & _ & H). case_bool_decide; [|done]. injection H as <-.
  eapply coerce_valid; [|exact Hco]. by apply Hcl.
Qed.

Lemma resolve_valid h c st r r' : valid_keys r → resolveXRowConflict h c st r = Ret (Some r') →
  valid_keys r'.
Proof.
  intros Hr. unfold resolveXRowConflict. intros H. apply bind_ret_inv in H as (local & _ & H). cbv zeta in H.
  pose proof (set_owner_valid (h_user h) r Hr) as Ho.
  repeat case_bool_decide; destruct local as [[lr m]|]; repeat case_match;
    try done; injection H as <-; try done.
Qed.

Lemma handleXRow_calm h c : valid_tables h → clean (CardXRow c) ∨ h_pushOK h = false →
  steps calm h (handleXRow h c).
Proof.
  intros Ht Hcl. unfold handleXRow. destruct (h_pushOK h) eqn:Hp; cbn [negb]; [|by apply calm_error].
  destruct Hcl as [Hcl|]; [|done].
  destruct (h_syncedTables h !! xr_Table c) as [st|] eqn:Hst; [|cbn; reflexivity].
  destruct (Ht _ _ Hst) as [Hn Hd].
  apply steps_at; [done|]. intros [row|m] Hv; [|by apply calm_error].
  apply steps_at; [done|]. intros [row'|] Hr; [|cbn; reflexivity].
  apply steps_at; [done|]. intros d Hu. cbn.
  apply verify_valid in Hv; [|done]. apply resolve_valid in Hr; [|done].
  apply UpsertXRow_frame in Hu; [|done..]. transitivity (set_repo d h); [|by apply calm_field].
  apply calm_write; [reflexivity|done|by apply x_only_repo].
Qed.

Lemma handleXDelete_calm h c : valid_tables h → clean (CardXDelete c) ∨ h_pushOK h = false →
  steps calm h (handleXDelete h c).
Proof.
  intros Ht Hcl. unfold handleXDelete. destruct (h_pushOK h) eqn:Hp; cbn [negb]; [|by apply calm_error].
  destruct Hcl as [Hcl|]; [|done].
  destruct (h_syncedTables h !! xd_Table c) as [st|] eqn:Hst; [|cbn; reflexivity].
  destruct (Ht _ _ Hst) as [Hn Hd].
  destruct (if has_owner _ then _ else _) as [foreign|[h' e]| |] eqn:Hf; try done; cbn [mbind outcome_bind].
  - destruct foreign; [cbn; reflexivity|]. apply steps_at; [done|]. intros d Ha. cbn.
    apply applyXDeleteLocally_frame in Ha; [|done..]. apply calm_write; [reflexivity|done|by apply x_only_repo].
  - revert Hf. destruct (has_owner _); [|done]. intros Hf. apply bind_fail_inv in Hf as [Hf|(o & _ & Hf)]; [|done].
    apply wrap_err_fail in Hf as (? & _ & [= -> _]). cbn. reflexivity.
Qed.
End tables.

(** ** Control cards *)

Section control.
Context {codec : Zlib} {sha3 : Sha3} {sqlite : Sqlite} {sql : Sql} {floats : Floats} {json : Json}
  {locks : LockJson} {texts : ErrorText} {order : Unordered}.

Lemma processCkinLock_frame now d u c user timeout :
  untouched d (processCkinLock now d u c user timeout).1.
Proof. unfold processCkinLock. cbv zeta. by destruct (held_by_other _ _ _). Qed.

Lemma calm_ckin now h u c :
  calm h (let '(d, fail) := processCkinLock now (h_repo h) u c (h_user h) DefaultCkinLockTimeout in
          let h := set_repo d h in
          match fail with
          | Some f => emit (CardPragma (MkPragma (str "ci-lock-fail") [lf_HeldBy f; fmt_int (lf_Since f)])) h
          | None => h
          end).
Proof.
  pose proof (processCkinLock_frame now (h_repo h) u c (h_user h) DefaultCkinLockTimeout) as Hu.
  destruct (processCkinLock _ _ _ _ _ _) as [d [f|]]; cbn in Hu |- *; [|by apply calm_untouched].
  transitivity (set_repo d h); [by apply calm_untouched|by apply calm_emit].
Qed.

Lemma handlePragma_calm now h c : steps calm h (handlePragma now h c).
Proof.
  unfold handlePragma. apply steps_bind.
  - destruct (bool_decide (pr_Name c = str "uv-hash") && _).
    + pose proof (handlePragmaUVHash_calm now h (nth 0 (pr_Values c) [])) as Hs.
      destruct (handlePragmaUVHash _ _ _) as [h1|[h1 e]| |]; try done. cbn in *.
      etrans; [exact Hs|apply calm_error].
    + destruct (_ && _); [apply handlePragmaXTableHash_calm|cbn; reflexivity].
  - intros h1 _. cbv zeta. set (h2 := if bool_decide (pr_Name c = str "req-clusters") then _ else _).
    assert (calm h1 h2) as H2 by (unfold h2; destruct (bool_decide _); [by apply calm_field|reflexivity]).
    set (h3 := if bool_decide (pr_Name c = str "ci-lock") && _ then _ else _).
    assert (calm h2 h3) as H3 by (unfold h3; destruct (_ && _); [apply calm_ckin|reflexivity]).
    clearbody h3. clearbody h2. unfold steps. etrans; [exact H2|]. etrans; [exact H3|].
    destruct (bool_decide _); [|reflexivity]. destruct (CanSyncPrivate (h_caps h3)) eqn:Hx; [|apply calm_error].
    split; try done; [by rewrite Hx|]. exists []. by rewrite app_nil_r.
Qed.

Lemma handleControlCard_calm now h card : steps calm h (handleControlCard now h card).
Proof.
  destruct card; try (cbn; reflexivity); cbn [handleControlCard].
  - cbn. destruct (CanPush (h_caps h)) eqn:Hp; [|apply calm_error].
    split; try done; [by intros Hc; rewrite Hp in Hc|]. exists []. by rewrite app_nil_r.
  - cbn. destruct (CanPull _); [by apply calm_field|apply calm_error].
  - cbn. destruct (parseCloneCap _); [by apply calm_field|reflexivity].
  - cbn. destruct (CanClone _); [by apply calm_field|apply calm_error].
  - cbn. by apply calm_field.
  - apply handlePragma_calm.
  - apply handleSchemaCard_calm.
Qed.
End control.

(** ** Artifacts *)

Section artifacts.
Context {codec : Zlib} {zlaws : ZlibLaws} {sha3 : Sha3} {texts : ErrorText}.

Lemma genuine_retains q q' c : retains q q' → genuine q c → genuine q' c.
Proof.
  intros [Hr He]. destruct c; try done. intros (Hd & rid & row & data & Hc & Hrow & Hu & Hx & Hh).
  destruct (Hr rid row Hrow) as (row' & Hrow' & Hu' & _). split; [done|].
  exists rid, row', data. split_and!; try done; [congruence|by apply He].
Qed.

Lemma public_kept q q' u : rows_kept q q' → t_private q' ⊆ t_private q → public q u → public q' u.
Proof.
  intros Hr Hp (rid & row & Hrow & Hu & Hn). destruct (Hr rid row Hrow) as (row' & Hrow' & Hu' & _).
  exists rid, row'. split_and!; [done|congruence|set_solver].
Qed.

Lemma discreet_kept q q' c : rows_kept q q' → t_private q' ⊆ t_private q → discreet q c → discreet q' c.
Proof.
  intros Hr Hp. destruct c; try done; cbn; [by apply public_kept|intros [? ?]; split; [done|by eapply public_kept]].
Qed.

(** Sending an artifact: the cache learns, and one or two cards are added. *)
Lemma good_send h h' rid row cache data private :
  t_blob (h_blobs h) !! rid = Some row →
  (private = false → rid ∉ t_private (h_blobs h)) → (private = true → h_syncPrivate h = true) →
  Cache_Expand (h_cache h) (h_blobs h) rid = Ret (cache, data) →
  h_repo h' = h_repo h → h_caps h' = h_caps h → h_pushOK h' = h_pushOK h → h_cache h' = cache →
  h_syncPrivate h' = h_syncPrivate h → h_nextIsPrivate h' = h_nextIsPrivate h →
  h_syncedTables h' = h_syncedTables h →
  h_resp h' = h_resp h ++ (if private : bool then [CardPrivate] else [])
                       ++ [CardFile (MkFile (b_uuid row) [] (Some data))] →
  good h h'.
Proof.
  intros Hrow Hpub Hpriv Hex Hr Hcp Hp Hca Hs Hn Ht Hre.
  assert (h_blobs h' = h_blobs h) as Hb by (unfold h_blobs; by rewrite Hr).
  split; [done|apply push_guarded_same; congruence|unfold valid_tables; by rewrite Ht|by rewrite Hb| |by rewrite Hr].
  rewrite Hb. intros _ [S1 S2 S3]. split; [reflexivity|].
  destruct (Cache_Expand_sound _ _ _ _ _ S2 Hex) as (S2' & _ & Hx). split.
  - split; rewrite Hb; [done|by rewrite Hca|]. rewrite Hre. apply Forall_app. split; [done|].
    apply Forall_app. split; [by destruct private; repeat constructor|].
    constructor; [|constructor]. split; [done|]. exists rid, row, data. split_and!; try done.
    cbn. by eapply expands_genuine.
  - intros [C1 C2 C3 C4]. split; [congruence..|]. rewrite Hb, Hre. apply Forall_app. split; [done|].
    destruct private; [by rewrite Hpriv in C2|]. constructor; [|constructor].
    exists rid, row. split_and!; try done. by apply Hpub.
Qed.

(** A failed expansion is counted as a miss. *)
Lemma good_missed h rid : good h (set_cache (cache_missed (h_cache h) rid) h).
Proof.
  split; try done. intros _ [S1 S2 S3]. split; [reflexivity|]. split; [|by intros [C1 C2 C3 C4]; split].
  split; [done|by apply cache_missed_coherent|done].
Qed.

Lemma IsPrivate_ret q rid b : IsPrivate q rid = Ret b → b = bool_decide (rid ∈ t_private q).
Proof. unfold IsPrivate. destruct (rid <=? 0)%Z; [done|]. by intros [= <-]. Qed.

Lemma in_repo_ret {A} (m : outcome blob_error A) a : in_repo m = Ret a → m = Ret a.
Proof. unfold in_repo. intros H. by apply wrap_err_ret in H. Qed.

Lemma handleGimme_good h uuid : steps good h (handleGimme h uuid).
Proof.
  unfold handleGimme. apply steps_at; [done|]. intros [rid|] Hrid; [|cbn; reflexivity].
  apply in_repo_ret, Exists_ret in Hrid. symmetry in Hrid.
  apply rid_of_uuid_Some in Hrid as (row & Hrow & Hu).
  apply steps_at; [done|]. intros isPriv Hp%in_repo_ret%IsPrivate_ret.
  destruct (isPriv && negb (h_syncPrivate h)) eqn:Hpv; [cbn; reflexivity|].
  destruct (Cache_Expand _ _ _) as [[cache data]|e| |] eqn:Hex; try done.
  - cbv zeta. cbn. eapply (good_send h _ rid row cache data isPriv); try done.
    + intros ->. symmetry in Hp. by apply bool_decide_eq_false in Hp.
    + intros ->. by destruct (h_syncPrivate h).
    + by destruct isPriv.
    + by destruct isPriv.
    + by destruct isPriv.
    + by destruct isPriv.
    + by destruct isPriv.
    + by destruct isPriv.
    + by destruct isPriv.
    + destruct isPriv; cbn; rewrite Hu; by rewrite <- ?app_assoc.
  - cbn. etrans; [apply good_missed|]. apply calm_good, calm_error.
Qed.

Lemma handleIGot_calm h c : steps calm h (handleIGot h c).
Proof.
  unfold handleIGot. apply steps_at; [done|]. intros [rid|] _; [by apply calm_field|].
  destruct (_ && _); [cbn; reflexivity|]. destruct (_ && _); [cbn; reflexivity|]. by apply calm_emit.
Qed.

Lemma handleReqConfig_calm h name : steps calm h (handleReqConfig h name).
Proof.
  unfold handleReqConfig. destruct (config_value _ _); [by apply calm_emit|cbn; reflexivity].
Qed.

Lemma handlePrivate_good h : good h (handlePrivate h).
Proof.
  unfold handlePrivate. destruct (CanSyncPrivate (h_caps h)) eqn:Hx.
  - split; try done. intros _ [S1 S2 S3]. split; [reflexivity|]. split; [by split|].
    intros [C1 _ _ _]. congruence.
  - etrans; [apply calm_good, (calm_error not_private)|].
    split; try done. intros _ [S1 S2 S3]. split; [reflexivity|]. split; [by split|].
    by intros [C1 C2 C3 C4]; split.
Qed.

(** A file that arrives with a push card. *)
Lemma good_store h h' q cache uuid deltaSrc payload :
  h_pushOK h = true →
  storeReceivedFile (h_blobs h) uuid deltaSrc payload (h_cache h) = Ret (cache, q) →
  t_blob (h_blobs h') = t_blob q → t_delta (h_blobs h') = t_delta q → links_kept (h_repo h) (h_repo h') →
  h_caps h' = h_caps h → h_cache h' = cache → h_resp h' = h_resp h →
  h_syncedTables h' = h_syncedTables h →
  h_syncPrivate h' = h_syncPrivate h → (h_nextIsPrivate h = false → h_nextIsPrivate h' = false) →
  (h_nextIsPrivate h = false → t_private (h_blobs h') ⊆ t_private q) →
  good h h'.
Proof.
  intros Hp Hst Hb Hd Hlk Hcp Hca Hre Ht Hs Hn Hpr.
  pose proof (storeReceivedFile_frame _ _ _ _ _ _ _ Hst) as [Hk Hpv].
  assert (retains q (h_blobs h')) as Hq by by apply same_tables_retains.
  pose proof (rt_rows _ _ Hq) as Hkq.
  split; [done|by intros _ Hp'; congruence|unfold valid_tables; by rewrite Ht|by etrans| |done].
  intros Hsm [S1 S2 S3].
  destruct (storeReceivedFile_ok _ _ _ _ _ _ _ S1 S2 Hst) as (O1 & O2 & O3 & _).
  { by eapply small_kept. }
  assert (retains (h_blobs h) (h_blobs h')) as Hret by by etrans.
  split; [done|]. split.
  - split; [by apply (repo_ok_ext q)|rewrite Hca; by apply (coherent_retains cache q)|].
    rewrite Hre. eapply Forall_impl; [exact S3|]. intros c. by apply genuine_retains.
  - intros [C1 C2 C3 C4]. split; [congruence|congruence|by apply Hn|].
    rewrite Hre. eapply Forall_impl; [exact C4|]. intros c. apply discreet_kept; [apply Hret|].
    rewrite <- Hpv. by apply Hpr.
Qed.

Lemma handleFile_good h uuid deltaSrc payload : steps good h (handleFile h uuid deltaSrc payload).
Proof.
  unfold handleFile. case_bool_decide; [done|].
  destruct (h_pushOK h) eqn:Hp; cbn [negb]; [|apply calm_good, calm_error].
  destruct (storeReceivedFile _ _ _ _ _) as [[cache q]|[cache e]| |] eqn:Hst; try done.
  - cbv zeta. set (h1 := set_blobs q (set_cache cache h)).
    assert (good h h1) as H1 by (eapply (good_store h h1 q cache uuid deltaSrc payload); done || set_solver).
    apply steps_at; [done|]. intros [rid|] _; [|cbn; etrans; [exact H1|apply calm_good, calm_error]].
    unfold MakePrivate, MakePublic.
    destruct (h_nextIsPrivate h1) eqn:Hn; destruct (rid <=? 0)%Z; try done; cbn;
      eapply (good_store h _ q cache uuid deltaSrc payload); try done; cbn; intros Hn'.
    + change (h_nextIsPrivate h = true) in Hn. congruence.
    + set_solver.
  - cbn. set (h1 := set_cache cache h). transitivity h1; [|apply calm_good, calm_error].
    split; try done. intros _ [S1 S2 S3]. split; [reflexivity|]. split; [|by intros [C1 C2 C3 C4]; split].
    split; [done| |done]. by eapply storeReceivedFile_failed.
Qed.
End artifacts.

(** ** Announcements and clones *)

Section announcements.
Context {codec : Zlib} {sha3 : Sha3} {texts : ErrorText} {order : Unordered} {olaws : UnorderedLaws}.

(** Announcing artifacts, each of them public unless private ones may be sent. *)
Lemma good_igots h private us :
  (private = true → h_syncPrivate h = true) →
  (private = false → Forall (public (h_blobs h)) us) →
  good h (foldl (λ h u, emit (CardIGot (MkIGot u private)) h) h us).
Proof.
  revert h. induction us as [|u us IH]; intros h Ht Hf; cbn [foldl]; [reflexivity|].
  assert (good h (emit (CardIGot (MkIGot u private)) h)) as H1.
  { split; try done. intros _ [S1 S2 S3]. split; [reflexivity|]. split.
    - split; [done..|]. apply Forall_app. split; [done|by repeat constructor].
    - intros [C1 C2 C3 C4]. split; [done..|]. apply Forall_app. split; [done|].
      constructor; [|constructor]. destruct private; [by rewrite Ht in C2|]. split; [done|].
      by destruct (proj1 (list.Forall_cons _ _ _) (Hf eq_refl)). }
  etrans; [exact H1|]. apply IH; [done|]. intros Hp. by destruct (proj1 (list.Forall_cons _ _ _) (Hf Hp)).
Qed.

Lemma emitPrivateIGots_good h : h_syncPrivate h = true → good h (emitPrivateIGots h).
Proof. intros Hs. unfold emitPrivateIGots. cbv zeta. by apply good_igots. Qed.

Lemma emitIGots_good h : good h (emitIGots h).
Proof.
  unfold emitIGots. cbv zeta. set (us := filter _ _). set (h1 := foldl _ h us).
  assert (good h h1) as H1.
  { apply good_igots; [done|]. intros _. apply Forall_forall. intros u.
    unfold us. intros [_ (p & -> & [Hp Hin]%list_elem_of_filter)%list_elem_of_fmap]%list_elem_of_filter.
    rewrite any_order_perm in Hin. destruct p as [rid row]. apply elem_of_map_to_list in Hin.
    unfold public_row in Hp. apply andb_true_iff in Hp as [_ Hp]. exists rid, row. split_and!; [done..|].
    apply negb_true_iff, bool_decide_eq_false in Hp. exact Hp. }
  destruct (h_syncPrivate h1) eqn:Hs; [|done]. etrans; [exact H1|by apply emitPrivateIGots_good].
Qed.

Lemma clone_rows_in q a b p : p ∈ clone_rows q a b → t_blob q !! p.1 = Some p.2.
Proof.
  unfold clone_rows. rewrite sort_slice_perm. intros [_ Hp]%list_elem_of_filter. destruct p as [rid row].
  by apply elem_of_map_to_list in Hp.
Qed.

Lemma clone_loop_good rows count last h :
  (∀ p, p ∈ rows → t_blob (h_blobs h) !! p.1 = Some p.2) →
  match clone_loop rows count last h with
  | Ret (h', _, _) | Fail (h', _) => good h h'
  | _ => True
  end.
Proof.
  revert count last h. induction rows as [|[rid row] rows IH]; intros count last h Hrows; cbn [clone_loop].
  { reflexivity. }
  assert (t_blob (h_blobs h) !! rid = Some row) as Hrow by (apply (Hrows (rid, row)); left).
  assert (∀ p, p ∈ rows → t_blob (h_blobs h) !! p.1 = Some p.2) as Hrest by (intros p Hp; apply Hrows; by right).
  destruct (IsPrivate (h_blobs h) rid) as [isPriv|e| |] eqn:Hp;
    cbn [mbind outcome_bind at_ wrap_err in_repo]; try done.
  apply IsPrivate_ret in Hp. destruct (isPriv && negb (h_syncPrivate h)) eqn:Hpv; [by apply IH|].
  destruct (DefaultCloneBatchSize <=? count)%nat; [reflexivity|].
  destruct (Cache_Expand _ _ _) as [[cache data]|e| |] eqn:Hex;
    cbn [mbind outcome_bind at_ wrap_err in_repo]; try done; [|apply good_missed]. cbv zeta.
  set (h1 := set_filesSent _ _).
  assert (good h h1) as H1.
  { eapply (good_send h h1 rid row cache data isPriv); try done; unfold h1.
    - intros ->. symmetry in Hp. by apply bool_decide_eq_false in Hp.
    - intros ->. by destruct (h_syncPrivate h).
    - by destruct isPriv.
    - by destruct isPriv.
    - by destruct isPriv.
    - by destruct isPriv.
    - by destruct isPriv.
    - by destruct isPriv.
    - by destruct isPriv.
    - destruct isPriv; cbn; by rewrite <- ?app_assoc. }
  assert (h_blobs h1 = h_blobs h) as Hb by by destruct isPriv.
  specialize (IH (S count) rid h1). destruct (clone_loop rows (S count) rid h1) as [[[h' l] m]|[h' e]| |];
    try done; (etrans; [exact H1|]; apply IH; by rewrite Hb).
Qed.

Lemma emitCloneBatch_good h : steps good h (emitCloneBatch h).
Proof.
  unfold emitCloneBatch. cbv zeta.
  set (h1 := if (h_cloneSnapMax h =? 0)%Z then _ else _).
  assert (calm h h1) as H1.
  { unfold h1. destruct (_ =? 0)%Z; [|reflexivity].
    transitivity (set_cloneSnapMax (max_rid (h_blobs h)) h); [by apply calm_field|by apply calm_emit]. }
  clearbody h1. apply calm_good in H1.
  pose proof (clone_loop_good (clone_rows (h_blobs h1) (h_cloneSeq h1) (h_cloneSnapMax h1)) 0 0 h1
    (clone_rows_in _ _ _)) as Hl.
  destruct (clone_loop _ _ _ _) as [[[h2 last] more]|[h2 e]| |]; cbn; try done; [|by etrans].
  etrans; [exact H1|]. etrans; [exact Hl|]. apply calm_good. by apply calm_emit.
Qed.
End announcements.

(** ** Requests *)

Section requests.
Context {codec : Zlib} {zlaws : ZlibLaws} {sha3 : Sha3} {sqlite : Sqlite} {sql : Sql} {exec : SqlExecLaws}
  {floats : Floats} {json : Json} {locks : LockJson} {texts : ErrorText} {order : Unordered}
  {olaws : UnorderedLaws}.

Lemma steps_calm h m : steps calm h m → steps good h m.
Proof. apply steps_weaken. intros h1 h2. apply calm_good. Qed.

Lemma handleDataCard_other h c : match c with CardXRow _ | CardXDelete _ => False | _ => True end →
  steps good h (handleDataCard h c).
Proof.
  intros Hc. destruct c; try done; try (apply steps_calm; cbn; reflexivity); cbn [handleDataCard].
  - apply handleFile_good.
  - apply handleFile_good.
  - apply steps_calm, handleIGot_calm.
  - apply handleGimme_good.
  - apply steps_calm, handleReqConfig_calm.
  - apply handlePrivate_good.
  - apply steps_calm, handleUVFile_calm.
  - apply steps_calm, sendUVFile_calm.
  - apply steps_calm, handleUVIGot_calm.
  - apply steps_calm, handleXIGot_calm.
  - apply steps_calm, handleXGimme_calm.
Qed.

Lemma handleDataCard_good h c : valid_tables h → clean c → steps good h (handleDataCard h c).
Proof.
  intros Ht Hc. destruct c; try (by apply handleDataCard_other); apply steps_calm.
  - apply handleXRow_calm; auto.
  - apply handleXDelete_calm; auto.
Qed.

(** Everything after the first pass, with an invariant under which each data card
    is handled well. *)
Definition answer (now : Z) (h : handler) (cards : list Card) : handled handler :=
  h ← each (handleControlCard now) (filter (λ c, is_login_card c = false) cards) h;
  processDataCards (emit_codes h) cards.

Lemma answer_good (I : handler → Prop) now h cards :
  (∀ h h', good h h' → I h → I h') →
  (∀ h c, I h → c ∈ cards → steps good h (handleDataCard h c)) →
  I h → steps good h (answer now h cards).
Proof.
  intros HI Hdata Hh. unfold answer. apply steps_bind.
  { apply steps_calm. apply (steps_each (λ _, True)); [|done|done]. intros. apply handleControlCard_calm. }
  intros h1 H1. set (h2 := emit_codes h1).
  assert (good h1 h2) as H2.
  { unfold h2, emit_codes. destruct (h_cloneMode h1); [|reflexivity]. cbv zeta.
    case_bool_decide; [reflexivity|]. by apply calm_good, calm_emit. }
  assert (I h2) as Hh2 by eauto. eapply steps_from; [exact H2|]. unfold processDataCards.
  assert (∀ (P : Card → Prop) `{!∀ c, Decision (P c)} h, I h → steps good h (each handleDataCard (filter P cards) h)) as Heach.
  { intros P HP h0 Hh0. apply (steps_each I); [|done|done].
    intros h3 c Hh3 [_ Hc]%list_elem_of_filter. by apply Hdata. }
  apply steps_bind; [by apply Heach|]. intros h3 H3. apply steps_bind; [apply Heach; by eauto|].
  intros h4 _. apply steps_bind.
  - destruct (h_pullOK h4); [|cbn; reflexivity]. eapply steps_from; [apply emitIGots_good|].
    apply steps_calm, emitXIGots_calm.
  - intros h5 _. destruct (h_cloneMode h5); [apply emitCloneBatch_good|cbn; reflexivity].
Qed.

(** ** The first pass *)

(** What logging in may change: who is asking, and error cards. *)
Record logs_in (h h' : handler) : Prop := {
  lo_repo : h_repo h' = h_repo h;
  lo_cache : h_cache h' = h_cache h;
  lo_push : h_pushOK h' = h_pushOK h;
  lo_private : h_syncPrivate h' = h_syncPrivate h ∧ h_nextIsPrivate h' = h_nextIsPrivate h;
  lo_tables : h_syncedTables h' = h_syncedTables h;
  lo_resp : Forall benign (h_resp h) → Forall benign (h_resp h')
}.

#[local] Instance logs_in_preorder : PreOrder logs_in.
Proof.
  split; [by intros h|].
  intros h1 h2 h3 [A1 A2 A3 [A4 A5] A6 A7] [B1 B2 B3 [B4 B5] B6 B7].
  split; try split; try congruence. auto.
Qed.

(** The registry holds names that are identifiers. *)
Definition registry_ok (d : db) : Prop :=
  ∀ t name row, d_schema d = Some t → t !! name = Some row → validName name = true ∧
    ∀ cols, json_cols (sr_columns row) = Some cols → Forall (λ c, validName (cd_Name c) = true) cols.

Lemma table_infos_valid l infos : table_infos l = Ret infos →
  (∀ p, p ∈ l → validName p.1 = true ∧
    ∀ cols, json_cols (sr_columns p.2) = Some cols → Forall (λ c, validName (cd_Name c) = true) cols) →
  Forall (λ i, validName (ti_Name i) = true ∧ valid_def (ti_Def i)) infos.
Proof.
  revert infos. induction l as [|p l IH]; intros infos; cbn [table_infos]; [by intros [= <-]|].
  intros H Hl. apply bind_ret_inv in H as (i & Hi & H). apply bind_ret_inv in H as (rest & Hr & H).
  injection H as <-. constructor; [|apply IH; [done|]; intros q Hq; apply Hl; by right].
  destruct (Hl p) as [Hn Hc]; [by left|]. revert Hi. unfold table_info.
  destruct (json_cols _) as [cols|] eqn:E; [|done]. intros [= <-]. split; [done|by apply Hc].
Qed.

Lemma loadSyncedTables_ret h h1 : loadSyncedTables h = Ret h1 → registry_ok (h_repo h) →
  valid_tables h1 ∧ h_repo h1 = EnsureSyncSchema (h_repo h) ∧ h1 = set_syncedTables (h_syncedTables h1) (set_repo (EnsureSyncSchema (h_repo h)) h).
Proof.
  unfold loadSyncedTables. cbv zeta. intros H Hr. apply bind_ret_inv in H as (infos & Hi & H).
  injection H as <-. split; [|done]. apply wrap_err_ret in Hi. revert Hi. unfold ListSyncedTables. cbn.
  intros Hi. apply table_infos_valid in Hi.
  - unfold valid_tables. cbn.
    assert (∀ m : gmap bytes SyncedTable, map_Forall (λ n st, validName n = true ∧ valid_def (st_Def st)) m →
      map_Forall (λ n st, validName n = true ∧ valid_def (st_Def st))
        (foldl (λ m info, <[ti_Name info := MkSynced info (ti_Def info)]> m) m infos)) as Hm;
      [|apply Hm, map_Forall_empty].
    induction Hi as [|i infos [Hn Hd] _ IH]; intros m Hm; cbn; [done|]. apply IH.
    by apply map_Forall_insert_2.
  - intros [name row]. rewrite sort_slice_perm. intros Hp%elem_of_map_to_list. cbn.
    destruct (d_schema (h_repo h)) as [t|] eqn:E; [|cbn in Hp; by apply lookup_empty_Some in Hp].
    by apply (Hr t).
Qed.

Lemma handleLoginCard_logs_in now h c : steps logs_in h (handleLoginCard now h c).
Proof.
  assert (logs_in h (emit_error auth_failed h)) as He.
  { split; try done. intros Hb. apply Forall_app. by split; [|repeat constructor]. }
  unfold handleLoginCard. destruct (config_value _ _) as [pc|]; [|done].
  destruct (VerifyLogin _ _ _ _); done.
Qed.

(** The record after the first pass over a request. *)
Lemma authenticate_ret now d cache cards h1 :
  registry_ok d → authenticate now (new_handler d cache) cards = Ret h1 →
  valid_tables h1 ∧ h_repo h1 = EnsureSyncSchema d ∧ h_cache h1 = cache ∧ h_pushOK h1 = false ∧
  h_syncPrivate h1 = false ∧ h_nextIsPrivate h1 = false ∧ Forall benign (h_resp h1).
Proof.
  intros Hr. unfold authenticate. intros H. apply bind_ret_inv in H as (h0 & H0 & H).
  set (h00 := initAuth (new_handler d cache)) in *.
  assert (h_repo h00 = d ∧ h_cache h00 = cache ∧ h_pushOK h00 = false ∧ h_syncPrivate h00 = false ∧
          h_nextIsPrivate h00 = false ∧ h_resp h00 = []) as (E1 & E2 & E3 & E4 & E5 & E6).
  { unfold h00, initAuth. cbv zeta. by destruct (_ !! nobody). }
  apply loadSyncedTables_ret in H0 as (Ht & Hd & H0); [|by rewrite E1]. rewrite E1 in Hd, H0.
  assert (steps logs_in h0 (each (λ h c, match c with CardLogin c => handleLoginCard now h c | _ => Ret h end) cards h0)) as Hs.
  { apply (steps_each (λ _, True)); [|done|done]. intros h c _ _.
    destruct c; try (cbn; reflexivity). apply handleLoginCard_logs_in. }
  rewrite H in Hs. cbn in Hs. destruct Hs as [L1 L2 L3 [L4 L5] L6 L7].
  split_and!.
  - unfold valid_tables. by rewrite L6.
  - by rewrite L1.
  - rewrite L2, H0. by cbn.
  - rewrite L3, H0. by cbn.
  - rewrite L4, H0. by cbn.
  - rewrite L5, H0. by cbn.
  - apply L7. rewrite H0. cbn. by rewrite E6.
Qed.

Lemma process_cards_answer now d cache cards h1 :
  authenticate now (new_handler d cache) cards = Ret h1 →
  process_cards now (new_handler d cache) cards = answer now h1 cards.
Proof. intros H. unfold process_cards. by rewrite H. Qed.

(** A request from somebody who may not push: rows are refused. *)
Lemma process_cards_pushless now d cache cards h1 :
  registry_ok d → authenticate now (new_handler d cache) cards = Ret h1 → CanPush (h_caps h1) = false →
  steps good h1 (process_cards now (new_handler d cache) cards).
Proof.
  intros Hr Ha Hcaps. destruct (authenticate_ret _ _ _ _ _ Hr Ha) as (_ & _ & _ & Hp & _).
  rewrite (process_cards_answer _ _ _ _ _ Ha).
  apply (answer_good (λ h, CanPush (h_caps h) = false ∧ h_pushOK h = false)); [| |done].
  - intros h h' [G1 G2 _ _ _] [Hc Hpo]. split; [by rewrite G1|by apply G2].
  - intros h c [_ Hpo] _. destruct c; try (by apply handleDataCard_other); apply steps_calm;
      cbn [handleDataCard]; unfold handleXRow, handleXDelete; rewrite Hpo; apply calm_error.
Qed.

(** A request all of whose cards are clean, if rows are accepted at all. *)
Lemma process_cards_good now d cache cards h1 :
  registry_ok d → (CanPush (h_caps h1) = true → Forall clean cards) →
  authenticate now (new_handler d cache) cards = Ret h1 →
  steps good h1 (process_cards now (new_handler d cache) cards).
Proof.
  intros Hr Hcl Ha. destruct (CanPush (h_caps h1)) eqn:Hcaps; [|by apply process_cards_pushless].
  specialize (Hcl eq_refl). rewrite (process_cards_answer _ _ _ _ _ Ha).
  destruct (authenticate_ret _ _ _ _ _ Hr Ha) as (Ht & _).
  apply (answer_good valid_tables); [|by intros; apply handleDataCard_good; [|by eapply Forall_elem]|done].
  intros h h'. apply gd_tables.
Qed.

Lemma authenticated_sound now d cache cards h1 :
  registry_ok d → repo_ok (d_repo d) → coherent cache (d_repo d) →
  authenticate now (new_handler d cache) cards = Ret h1 → sound h1 ∧ h_blobs h1 = d_repo d.
Proof.
  intros Hr Hok Hc Ha. destruct (authenticate_ret _ _ _ _ _ Hr Ha) as (_ & Hd & Hca & _ & _ & _ & Hb).
  assert (h_blobs h1 = d_repo d) as E by (unfold h_blobs; by rewrite Hd). split; [|done].
  split; rewrite E; [done|by rewrite Hca|]. eapply Forall_impl; [exact Hb|]. intros c. apply benign_genuine.
Qed.
End requests.

(** ** Properties *)

(** The database and the cards that a request leaves, even one that ends in an
    error, satisfy [P]. *)
Definition leaves (P : handler → Prop) (m : handled handler) : Prop :=
  match m with Ret h' => P h' | Fail (h', _) => P h' | Panic | NoFuel => True end.

(** C11. Only those who may push change what a repository holds: if the login
    cards of a request grant no push capability, then whatever else it contains,
    artifacts, users, the contents of unversioned files and the rows of
    synchronised tables are afterwards what they were. *)
Theorem process_without_push {codec : Zlib} {zlaws : ZlibLaws} {sha3 : Sha3} {sqlite : Sqlite} {sql : Sql}
    {floats : Floats} {json : Json} {locks : LockJson} {texts : ErrorText} {order : Unordered}
    {olaws : UnorderedLaws} now d cache cards h1
    (Hreg : registry_ok d)
    (Hauth : authenticate now (new_handler d cache) cards = Ret h1)
    (Hcaps : CanPush (h_caps h1) = false) :
  leaves (λ h', untouched d (h_repo h')) (process_cards now (new_handler d cache) cards).
Proof.
  destruct (authenticate_ret _ _ _ _ _ Hreg Hauth) as (_ & Hd & _ & Hp & _).
  pose proof (process_cards_pushless _ _ _ _ _ Hreg Hauth Hcaps) as Hs.
  assert (∀ h', good h1 h' → untouched d (h_repo h')) as Hu.
  { intros h' G. destruct (gd_push _ _ G Hcaps Hp) as [_ Hu]. etrans; [|exact Hu]. rewrite Hd. by split. }
  destruct (process_cards _ _ _) as [h'|[h' e]| |]; cbn in *; auto.
Qed.

(** C12. Nothing private leaks: take a consistent repository with a coherent
    cache, whose registry of tables holds plain identifiers, and a request whose
    login cards grant no capability for private content. If the client may not
    push, whatever the request contains, and if it may push, provided that the
    rows it sends name their values by plain identifiers ([clean]; [UpsertXRow]
    pastes the names into its statement, see the findings), the response
    announces and carries only artifacts that are public when the request is
    over. Artifacts are below 4 GiB ([small]). *)
Theorem process_private_confined {codec : Zlib} {zlaws : ZlibLaws} {sha3 : Sha3} {sqlite : Sqlite} {sql : Sql}
    {exec : SqlExecLaws} {floats : Floats} {json : Json} {locks : LockJson} {texts : ErrorText}
    {order : Unordered} {olaws : UnorderedLaws} now d cache cards h1
    (Hreg : registry_ok d) (Hok : repo_ok (d_repo d)) (Hcache : coherent cache (d_repo d))
    (Hauth : authenticate now (new_handler d cache) cards = Ret h1)
    (Hclean : CanPush (h_caps h1) = true → Forall clean cards)
    (Hcaps : CanSyncPrivate (h_caps h1) = false) :
  leaves (λ h', small (h_blobs h') → Forall (discreet (h_blobs h')) (h_resp h'))
    (process_cards now (new_handler d cache) cards).
Proof.
  destruct (authenticate_ret _ _ _ _ _ Hreg Hauth) as (_ & _ & _ & _ & Hs & Hn & Hb).
  destruct (authenticated_sound _ _ _ _ _ Hreg Hok Hcache Hauth) as [Hsd _].
  assert (confined h1) as Hcf.
  { split; [done..|]. eapply Forall_impl; [exact Hb|]. intros c. apply benign_discreet. }
  pose proof (process_cards_good _ _ _ _ _ Hreg Hclean Hauth) as Hg.
  destruct (process_cards _ _ _) as [h'|[h' e]| |]; cbn in *; try done; intros Hsm;
    destruct (gd_sound _ _ Hg Hsm Hsd) as (_ & _ & H); by apply H.
Qed.

(** C10. On a consistent repository with a coherent cache, whose registry of
    tables holds plain identifiers, a request keeps the repository consistent,
    the cache coherent and every artifact readable, and the files in the
    response are artifacts of the repository, whole, with the hash they are sent
    under. This holds for every request of a client that may not push; one that
    may must name the values of the rows it sends by plain identifiers ([clean];
    [UpsertXRow] pastes the names into its statement, see the findings). The
    login cards were processed without an error, and artifacts are below 4 GiB
    ([small]). *)
Theorem process_sound {codec : Zlib} {zlaws : ZlibLaws} {sha3 : Sha3} {sqlite : Sqlite} {sql : Sql}
    {exec : SqlExecLaws} {floats : Floats} {json : Json} {locks : LockJson} {texts : ErrorText}
    {order : Unordered} {olaws : UnorderedLaws} now d cache cards h1
    (Hreg : registry_ok d) (Hok : repo_ok (d_repo d)) (Hcache : coherent cache (d_repo d))
    (Hauth : authenticate now (new_handler d cache) cards = Ret h1)
    (Hclean : CanPush (h_caps h1) = true → Forall clean cards) :
  leaves (λ h', small (h_blobs h') →
      repo_ok (h_blobs h') ∧ coherent (h_cache h') (h_blobs h') ∧ retains (d_repo d) (h_blobs h') ∧
      Forall (genuine (h_blobs h')) (h_resp h'))
    (process_cards now (new_handler d cache) cards).
Proof.
  destruct (authenticated_sound _ _ _ _ _ Hreg Hok Hcache Hauth) as [Hsd Hb].
  pose proof (process_cards_good _ _ _ _ _ Hreg Hclean Hauth) as Hg.
  destruct (process_cards _ _ _) as [h'|[h' e]| |]; cbn in *; try done; intros Hsm;
    destruct (gd_sound _ _ Hg Hsm Hsd) as (Hr & [S1 S2 S3] & _); rewrite Hb in Hr; by split_and!.
Qed.

(** ** Witnesses *)

#[local] Existing Instance stored.
#[local] Existing Instance stored_laws.
#[local] Existing Instance test_sha3.
#[local] Existing Instance test_sqlite.
#[local] Existing Instance test_sql.
#[local] Existing Instance test_sql_exec.
#[local] Existing Instance test_floats.
#[local] Existing Instance test_json.
#[local] Existing Instance test_lock_json.
#[local] Existing Instance test_error_text.
#[local] Existing Instance test_order.
#[local] Existing Instance test_order_laws.

(** A server with one artifact, private or not, where nobody has [caps]. *)
Definition server (caps : bytes) (private : gset Z) : db :=
  MkDb (with_private (λ _, private) repo_a) ∅ {[ nobody := MkUserRow 2 [] caps None None ]} None ∅ ∅ None ∅
    no_links.

Definition record_of (m : handled handler) : handler :=
  match m with Ret h => h | _ => new_handler CreateRepoSchema None end.
Definition ends (m : handled handler) : bool := match m with Ret _ => true | _ => false end.
Lemma record_ret m : ends m = true → m = Ret (record_of m).
Proof. by destruct m. Qed.

Definition pull_card : Card := CardPull (MkPull [] []).
Definition push_card : Card := CardPush (MkPush [] []).
Definition pushes_b : list Card := [push_card; CardFile (MkFile (sha1_hex text_b) [] (Some text_b))].
Definition asks_a : list Card := [pull_card; CardGimme (sha1_hex text_a)].

Lemma server_registry caps private : registry_ok (server caps private).
Proof. by intros t name row [=]. Qed.

Lemma server_ok caps private : repo_ok (d_repo (server caps private)).
Proof. by apply (repo_ok_ext repo_a); [..|apply repo_a_ok]. Qed.

Definition asked (caps : bytes) (private : gset Z) (cards : list Card) : handler :=
  record_of (authenticate 0 (new_handler (server caps private) None) cards).
Lemma asked_ret caps private cards :
  ends (authenticate 0 (new_handler (server caps private) None) cards) = true →
  authenticate 0 (new_handler (server caps private) None) cards = Ret (asked caps private cards).
Proof. apply record_ret. Qed.

Lemma process_without_push_witness :
  leaves (λ h', untouched (server (str "go") ∅) (h_repo h'))
    (process_cards 0 (new_handler (server (str "go") ∅) None) pushes_b) ∧
  ends (process_cards 0 (new_handler (server (str "go") ∅) None) pushes_b) = true.
Proof.
  assert (CanPush (h_caps (asked (str "go") ∅ pushes_b)) = false) as Hc by (vm_compute; reflexivity).
  assert (authenticate 0 (new_handler (server (str "go") ∅) None) pushes_b
          = Ret (asked (str "go") ∅ pushes_b)) as Ha by (apply asked_ret; vm_compute; reflexivity).
  split; [|vm_compute; reflexivity].
  exact (process_without_push 0 (server (str "go") ∅) None pushes_b _ (server_registry _ _) Ha Hc).
Defined.

Lemma process_private_confined_witness :
  leaves (λ h', small (h_blobs h') → Forall (discreet (h_blobs h')) (h_resp h'))
    (process_cards 0 (new_handler (server (str "go") {[ 1%Z ]}) None) asks_a) ∧
  ends (process_cards 0 (new_handler (server (str "go") {[ 1%Z ]}) None) asks_a) = true.
Proof.
  assert (CanSyncPrivate (h_caps (asked (str "go") {[ 1%Z ]} asks_a)) = false) as Hc by (vm_compute; reflexivity).
  assert (authenticate 0 (new_handler (server (str "go") {[ 1%Z ]}) None) asks_a
          = Ret (asked (str "go") {[ 1%Z ]} asks_a)) as Ha by (apply asked_ret; vm_compute; reflexivity).
  assert (Forall clean asks_a) as Hcl by by repeat constructor.
  split; [|vm_compute; reflexivity].
  exact (process_private_confined 0 (server (str "go") {[ 1%Z ]}) None asks_a _ (server_registry _ _)
    (server_ok _ _) (coherent_none _) Ha (λ _, Hcl) Hc).
Defined.

Lemma process_sound_witness :
  leaves (λ h', small (h_blobs h') →
      repo_ok (h_blobs h') ∧ coherent (h_cache h') (h_blobs h') ∧
      retains (d_repo (server (str "io") ∅)) (h_blobs h') ∧ Forall (genuine (h_blobs h')) (h_resp h'))
    (process_cards 0 (new_handler (server (str "io") ∅) None) (pushes_b ++ asks_a)) ∧
  match process_cards 0 (new_handler (server (str "io") ∅) None) (pushes_b ++ asks_a) with
  | Ret h => omap (λ c, match c with CardFile f => f_Content f | _ => None end) (h_resp h) = [text_a]
  | _ => False
  end.
Proof.
  assert (authenticate 0 (new_handler (server (str "io") ∅) None) (pushes_b ++ asks_a)
          = Ret (asked (str "io") ∅ (pushes_b ++ asks_a))) as Ha by (apply asked_ret; vm_compute; reflexivity).
  assert (Forall clean (pushes_b ++ asks_a)) as Hcl by by repeat constructor.
  split; [|vm_compute; reflexivity].
  exact (process_sound 0 (server (str "io") ∅) None (pushes_b ++ asks_a) _ (server_registry _ _)
    (server_ok _ _) (coherent_none _) Ha (λ _, Hcl)).
Defined.

(** ** Behaviour worth knowing

    What anybody may do on a server that grants nobody a capability. *)

Definition anybody (cards : list Card) : handled handler :=
  process_cards 0 (new_handler (server [] ∅) None) cards.
Definition responded (m : handled handler) : list Card := h_resp (record_of m).

(** Fetching a public artifact takes no pull card. *)
Example gimme_without_pull :
  responded (anybody [CardGimme (sha1_hex text_a)]) = [CardFile (MkFile (sha1_hex text_a) [] (Some text_a))].
Proof. vm_compute. reflexivity. Qed.

(** Every configuration value can be read. *)
Definition with_secret (d : db) : db := on_config <[str "secret" := MkConfigRow (str "s3cret") None]> d.
Example config_without_capability :
  responded (process_cards 0 (new_handler (with_secret (server [] ∅)) None) [CardReqConfig (str "secret")])
  = [CardConfig (MkConfig (str "secret") (Some (str "s3cret")))].
Proof. vm_compute. reflexivity. Qed.

(** A schema card creates a table. *)
Example schema_without_capability :
  let h := record_of (anybody [CardSchema (MkSchema (str "kv") 1 [] 0 (Some (str "kv")))]) in
  (h_resp h, bool_decide (is_Some (d_x (h_repo h) !! str "kv"))) = ([], true).
Proof. vm_compute. reflexivity. Qed.

(** The time of an unversioned file can be set by announcing it. *)
Definition uv_server : db :=
  on_uv (λ _, Some {[ str "f" := MkUVRow 5 (Some (str "h")) 1 0 (Some (str "x")) ]}) (server [] ∅).
Example uv_time_without_capability :
  let h := record_of (process_cards 0 (new_handler uv_server None)
                        [CardUVIGot (MkUVIGot (str "f") 9 (str "h") 1)]) in
  v_mtime <$> (default ∅ (d_uv (h_repo h)) !! str "f") = Some 9%Z.
Proof. vm_compute. reflexivity. Qed.

(** A row that is the JSON value null makes the server panic. *)
Example null_row_panics :
  process_cards 0 (new_handler (server (str "i") ∅) None)
    [CardSchema (MkSchema (str "kv") 1 [] 0 (Some (str "kv"))); push_card;
     CardXRow (Xfer.MkXRow (str "kv") hash_1 5 (Some (str "null")))] = Panic.
Proof. vm_compute. reflexivity. Qed.

(** Rows are looked up without their owner: with [self-write] everybody may
    overwrite them, with [owner-write] nobody can, not even the owner. *)
Definition owned_table (conflict : bytes) : TableDef := MkTableDef (td_Columns kv) conflict.
Definition owned_server : db :=
  on_x <[str "kv" := MkXTable (td_Columns kv) true [MkXRow (xw_vals row_1) 5 (str "alice")]]> (server [] ∅).
Definition update_of_a : XRowCard := Xfer.MkXRow (str "kv") hash_1 6 None.
Definition accepted (conflict user : bytes) : option bool :=
  match resolveXRowConflict (set_user user (new_handler owned_server None)) update_of_a
          (MkSynced (MkTableInfo (str "kv") kv 0 [] 0) (owned_table conflict)) ∅ with
  | Ret r => Some (bool_decide (is_Some r))
  | _ => None
  end.
Example owner_is_ignored :
  accepted (str "self-write") (str "mallory") = Some true ∧
  accepted (str "owner-write") (str "alice") = Some false.
Proof. vm_compute. auto. Qed.
