(* ===== verification/Clone.v ===== *)
(** * Cloning (src/internal/sync/clone.go)

    A clone starts from a new, empty repository and asks the server for its
    artifacts, batch by batch: the response to each request carries the rid to go
    on from, or zero when everything was sent.  The transport is a function from
    the server's state and the cards of a request to its new state and the cards
    of the response; whatever it loses, it answers with an error.

    On an error the new file is removed, so failures carry no state. *)
From S2P Require Import Prelude GoStrings Hash Zlib Xfer Blob Content Db Auth Receive TableSync CkinLock Handler.
From stdpp Require Import list gmap sets.

Abbreviation out := (outcome db_error).

(** ** The session *)

Record CloneOpts := MkCloneOpts { cp_User : bytes; cp_Password : bytes; cp_Version : Z }.

Record cloneSession := MkClone_ {
  cs_repo : db;
  cs_phantoms : gset bytes;
  cs_seqno : Z;
  cs_projectCode : bytes;
  cs_serverCode : bytes;
  cs_cookie : bytes;
  cs_BlobsRecvd : Z;
  cs_Rounds : Z;
  cs_Messages : list bytes
}.

Definition cs_blobs (cs : cloneSession) : repo := d_repo (cs_repo cs).

Definition with_repo (d : db) (cs : cloneSession) : cloneSession :=
  MkClone_ d (cs_phantoms cs) (cs_seqno cs) (cs_projectCode cs) (cs_serverCode cs) (cs_cookie cs)
    (cs_BlobsRecvd cs) (cs_Rounds cs) (cs_Messages cs).
Definition with_phantoms (f : gset bytes → gset bytes) (cs : cloneSession) : cloneSession :=
  MkClone_ (cs_repo cs) (f (cs_phantoms cs)) (cs_seqno cs) (cs_projectCode cs) (cs_serverCode cs)
    (cs_cookie cs) (cs_BlobsRecvd cs) (cs_Rounds cs) (cs_Messages cs).
Definition with_seqno (n : Z) (cs : cloneSession) : cloneSession :=
  MkClone_ (cs_repo cs) (cs_phantoms cs) n (cs_projectCode cs) (cs_serverCode cs) (cs_cookie cs)
    (cs_BlobsRecvd cs) (cs_Rounds cs) (cs_Messages cs).
Definition with_projectCode (s : bytes) (cs : cloneSession) : cloneSession :=
  MkClone_ (cs_repo cs) (cs_phantoms cs) (cs_seqno cs) s (cs_serverCode cs) (cs_cookie cs)
    (cs_BlobsRecvd cs) (cs_Rounds cs) (cs_Messages cs).
Definition with_serverCode (s : bytes) (cs : cloneSession) : cloneSession :=
  MkClone_ (cs_repo cs) (cs_phantoms cs) (cs_seqno cs) (cs_projectCode cs) s (cs_cookie cs)
    (cs_BlobsRecvd cs) (cs_Rounds cs) (cs_Messages cs).
Definition with_cookie (s : bytes) (cs : cloneSession) : cloneSession :=
  MkClone_ (cs_repo cs) (cs_phantoms cs) (cs_seqno cs) (cs_projectCode cs) (cs_serverCode cs) s
    (cs_BlobsRecvd cs) (cs_Rounds cs) (cs_Messages cs).
Definition with_recvd (n : Z) (cs : cloneSession) : cloneSession :=
  MkClone_ (cs_repo cs) (cs_phantoms cs) (cs_seqno cs) (cs_projectCode cs) (cs_serverCode cs)
    (cs_cookie cs) n (cs_Rounds cs) (cs_Messages cs).
Definition with_rounds (n : Z) (cs : cloneSession) : cloneSession :=
  MkClone_ (cs_repo cs) (cs_phantoms cs) (cs_seqno cs) (cs_projectCode cs) (cs_serverCode cs)
    (cs_cookie cs) (cs_BlobsRecvd cs) n (cs_Messages cs).
Definition with_messages (l : list bytes) (cs : cloneSession) : cloneSession :=
  MkClone_ (cs_repo cs) (cs_phantoms cs) (cs_seqno cs) (cs_projectCode cs) (cs_serverCode cs)
    (cs_cookie cs) (cs_BlobsRecvd cs) (cs_Rounds cs) l.

Definition MaxRounds : nat := 100.

Definition client_version : Card :=
  CardPragma (MkPragma (str "client-version") [str "22800"; str "20260315"; str "120000"]).

(** [REPLACE INTO config(name, value) VALUES(name, v)] *)
Definition replace_config (name v : bytes) (d : db) : db := on_config <[name := MkConfigRow v None]> d.

Section clone.
Context {codec : Zlib} {sha3 : Sha3} {order : Unordered}.

(** [rb] is what the random source delivers for the comment. *)
Definition buildLoginCard (rb : bytes) (opts : CloneOpts) (cs : cloneSession) (cards : list Card) :
    out LoginCard :=
  buf ← wrap_err (λ _, EInvalid []) (encode_cards 0 cards []);
  let payload := appendRandomComment buf rb in
  computeLogin (cp_User opts) (cp_Password opts) (cs_projectCode cs) (Some payload).

Definition buildRequest (rb : bytes) (opts : CloneOpts) (cs : cloneSession) (cycle : nat) : out (list Card) :=
  let cookie := if bool_decide (cs_cookie cs = []) then [] else [CardCookie (cs_cookie cs)] in
  let mode :=
    if (0 <? cs_seqno cs)%Z then
      let version := if (cp_Version opts <=? 0)%Z then 3%Z else cp_Version opts in
      CardClone (MkClone version (cs_seqno cs))
      :: (if 0 <? cycle then [CardCloneSeqNo (cs_seqno cs)] else [])
    else if negb (bool_decide (cs_projectCode cs = [])) && negb (bool_decide (cs_serverCode cs = []))
    then [CardPull (MkPull (cs_serverCode cs) (cs_projectCode cs))]
    else [] in
  let gimmes :=
    if (cs_seqno cs <=? 1)%Z then map CardGimme (any_order (elements (cs_phantoms cs))) else [] in
  let cards := client_version :: cookie ++ mode ++ gimmes in
  if (0 <? cycle) && negb (bool_decide (cp_User opts = [])) && negb (bool_decide (cs_projectCode cs = []))
  then
    login ← buildLoginCard rb opts cs cards;
    Ret (CardLogin login :: cards)
  else Ret cards.

(** A delta whose source is missing leaves phantoms to be asked for. *)
Definition handleFile (cs : cloneSession) (uuid deltaSrc : bytes) (payload : slice) : out cloneSession :=
  match storeReceivedFile (cs_blobs cs) uuid deltaSrc payload None with
  | Ret (_, q) =>
    Ret (with_phantoms (λ s, s ∖ {[ uuid ]}) (with_repo (on_repo (λ _, q) (cs_repo cs)) cs))
  | Fail (_, EDeltaSourceMissing _) =>
    '(q, _) ← in_repo (StorePhantom (cs_blobs cs) uuid);
    let cs := with_repo (on_repo (λ _, q) (cs_repo cs)) cs in
    let cs := with_phantoms (λ s, {[ uuid ]} ∪ s) cs in
    if bool_decide (deltaSrc = []) then Ret cs else
    found ← in_repo (Blob.Exists (cs_blobs cs) deltaSrc);
    Ret (match found with Some _ => cs | None => with_phantoms (λ s, {[ deltaSrc ]} ∪ s) cs end)
  | Fail (_, e) => Fail e
  | Panic => Panic
  | NoFuel => NoFuel
  end.

Definition learn_codes (cs : cloneSession) (c : PushCard) : cloneSession :=
  let cs := if negb (bool_decide (pu_ProjectCode c = [])) && bool_decide (cs_projectCode cs = []) then
              with_repo (replace_config (str "project-code") (pu_ProjectCode c) (cs_repo cs))
                (with_projectCode (pu_ProjectCode c) cs)
            else cs in
  if negb (bool_decide (pu_ServerCode c = [])) && bool_decide (cs_serverCode cs = []) then
    with_repo (replace_config (str "server-code") (pu_ServerCode c) (cs_repo cs))
      (with_serverCode (pu_ServerCode c) cs)
  else cs.

(** A card of the response, with the number of files received so far. *)
Definition process_card (p : cloneSession * Z) (card : Card) : out (cloneSession * Z) :=
  let '(cs, filesRecvd) := p in
  match card with
  | CardPush c => Ret (learn_codes cs c, filesRecvd)
  | CardFile c =>
    cs ← handleFile cs (f_UUID c) (f_DeltaSrc c) (f_Content c); Ret (cs, (filesRecvd + 1)%Z)
  | CardCFile c =>
    cs ← handleFile cs (cf_UUID c) (cf_DeltaSrc c) (cf_Content c); Ret (cs, (filesRecvd + 1)%Z)
  | CardCloneSeqNo n => Ret (with_seqno n cs, filesRecvd)
  | CardError message => Fail (ERemote message)
  | CardCookie v => Ret (with_cookie v cs, filesRecvd)
  | CardMessage m => Ret (with_messages (cs_Messages cs ++ [m]) cs, filesRecvd)
  | _ => Ret (cs, filesRecvd)
  end.

Fixpoint process_loop (p : cloneSession * Z) (cards : list Card) : out (cloneSession * Z) :=
  match cards with
  | [] => Ret p
  | c :: cards => p ← process_card p c; process_loop p cards
  end.

(** Whether the round produced no new file. *)
Definition processResponse (cs : cloneSession) (cards : list Card) : out (cloneSession * bool) :=
  '(cs, filesRecvd) ← process_loop (cs, 0%Z) cards;
  Ret (with_recvd (cs_BlobsRecvd cs + filesRecvd) cs, (filesRecvd =? 0)%Z).

(** ** The rounds *)

Section transport.
Context {W : Type} (exchange : W → list Card → out (W * list Card)) (rnd : nat → bytes) (opts : CloneOpts).

(** [n] rounds are left. *)
Fixpoint run_loop (n : nat) (w : W) (cs : cloneSession) (prevPhantomCount : Z) : out (W * cloneSession) :=
  match n with
  | O => Fail ERounds
  | S n' =>
    let cycle := MaxRounds - n in
    req ← buildRequest (rnd cycle) opts cs cycle;
    '(w, resp) ← exchange w req;
    '(cs, done) ← processResponse cs resp;
    let cs := with_rounds (Z.of_nat cycle + 1) cs in
    let phantomCount := Z.of_nat (size (cs_phantoms cs)) in
    if (1 <=? cycle) && (done : bool) then
      if (cs_seqno cs <=? 0)%Z && (phantomCount =? 0)%Z then Ret (w, cs) else
      if ((cs_seqno cs <=? 0) && (0 <? phantomCount) && (prevPhantomCount <=? phantomCount))%Z
      then Ret (w, cs) else run_loop n' w cs phantomCount
    else run_loop n' w cs (if 1 <=? cycle then phantomCount else prevPhantomCount)
  end.

Definition run (w : W) (cs : cloneSession) : out (W * cloneSession) := run_loop MaxRounds w cs (-1).

(** [Clone] up to the crosslinking of what was received ([SyncLinked.Clone]). *)
Definition clone_artifacts (now : Z) (rnd1 rnd2 : bytes) (w : W) : out (W * cloneSession) :=
  let user := if bool_decide (cp_User opts = []) then str "setup" else cp_User opts in
  d ← CreateWithEnv now rnd1 rnd2 user [];
  let d := on_config (delete (str "project-code")) d in
  run w (MkClone_ d ∅ 1 [] [] [] 0 0 []).
End transport.
End clone.
