(* ===== verification/Session.v ===== *)
(** * Sync sessions of a client (src/internal/sync/session.go, client.go, client_tablesync.go)

    [Sync] exchanges messages with a server until there is nothing left to do, at
    most [MaxRounds] times.  The state of a session is a record that every step
    takes and returns; the repository is part of it.  A step that returns an error
    leaves what it did so far, so a failure carries the record.  What the source
    keeps for unversioned files, for synchronised tables and for the result are
    records of their own here.

    Fault injection is off ([opts.Buggify] is nil) and the context is never
    cancelled; the observer and the numbers only it sees are left out.  The order
    in which Go ranges over a map is [any_order]. *)
From S2P Require Import Prelude GoStrings Hash Zlib Deck Julian Quote Xfer Blob Content Db Uv Auth Receive Tag Crosslink TableSync CkinLock Clone.
From stdpp Require Import list gmap sets.

Abbreviation out := (outcome db_error).

(** ** The session *)

Definition DefaultMaxSend : Z := 250000.
Definition MaxGimmeBase : Z := 200.

Record CkinLockReq := MkLockReq { lr_ParentUUID : bytes; lr_ClientID : bytes }.

Record SyncOpts := MkSyncOpts {
  so_Push : bool;
  so_Pull : bool;
  so_ProjectCode : bytes;
  so_ServerCode : bytes;
  so_User : bytes;
  so_Password : bytes;
  so_MaxSend : Z;
  so_UV : bool;
  so_XTableSync : bool;
  so_Private : bool;
  so_CkinLock : option CkinLockReq
}.

Record SyncResult := MkResult {
  r_Rounds : Z;
  r_FilesSent : Z;
  r_FilesRecvd : Z;
  r_UVFilesSent : Z;
  r_UVFilesRecvd : Z;
  r_UVGimmesSent : Z;
  r_BytesSent : Z;
  r_BytesRecvd : Z;
  r_ArtifactsLinked : Z;
  r_Errors : list bytes;
  r_CkinLockFail : option CkinLockFail
}.

Record uvState := MkUvState {
  us_hashSent : bool;
  us_pushOK : bool;
  us_pullOnly : bool;
  us_toSend : option (gmap bytes bool);     (* nil if unversioned files are not synchronised *)
  us_gimmes : gset bytes;
  us_nGimmeSent : Z;
  us_nFileRcvd : Z
}.

Record xState := MkXState {
  xs_gimmes : gmap bytes (gset bytes);
  xs_toSend : gmap bytes (gset bytes);
  xs_cache : option (gmap bytes TableDef)
}.

Record session := MkSession {
  s_repo : db;
  s_cache : option Cache;
  s_projectCode : bytes;                    (* opts.ProjectCode, which is filled in *)
  s_cookie : bytes;
  s_remoteHas : gset bytes;
  s_phantoms : gset bytes;
  s_pendingSend : gset bytes;
  s_phantomAge : gmap bytes Z;
  s_filesRecvdLastRound : Z;
  s_igotSentThisRound : Z;
  s_nGimmeRcvd : Z;
  s_nextIsPrivate : bool;
  s_uv : uvState;
  s_x : xState;
  s_result : SyncResult;
  s_sent : Z;                               (* roundStats.BytesSent and BytesReceived *)
  s_received : Z
}.

Definition on_s_repo (f : db → db) (s : session) : session :=
  MkSession (f (s_repo s)) (s_cache s) (s_projectCode s) (s_cookie s) (s_remoteHas s) (s_phantoms s)
    (s_pendingSend s) (s_phantomAge s) (s_filesRecvdLastRound s) (s_igotSentThisRound s)
    (s_nGimmeRcvd s) (s_nextIsPrivate s) (s_uv s) (s_x s) (s_result s) (s_sent s) (s_received s).
Definition on_s_cache (f : option Cache → option Cache) (s : session) : session :=
  MkSession (s_repo s) (f (s_cache s)) (s_projectCode s) (s_cookie s) (s_remoteHas s) (s_phantoms s)
    (s_pendingSend s) (s_phantomAge s) (s_filesRecvdLastRound s) (s_igotSentThisRound s)
    (s_nGimmeRcvd s) (s_nextIsPrivate s) (s_uv s) (s_x s) (s_result s) (s_sent s) (s_received s).
Definition on_s_projectCode (f : bytes → bytes) (s : session) : session :=
  MkSession (s_repo s) (s_cache s) (f (s_projectCode s)) (s_cookie s) (s_remoteHas s) (s_phantoms s)
    (s_pendingSend s) (s_phantomAge s) (s_filesRecvdLastRound s) (s_igotSentThisRound s)
    (s_nGimmeRcvd s) (s_nextIsPrivate s) (s_uv s) (s_x s) (s_result s) (s_sent s) (s_received s).
Definition on_s_cookie (f : bytes → bytes) (s : session) : session :=
  MkSession (s_repo s) (s_cache s) (s_projectCode s) (f (s_cookie s)) (s_remoteHas s) (s_phantoms s)
    (s_pendingSend s) (s_phantomAge s) (s_filesRecvdLastRound s) (s_igotSentThisRound s)
    (s_nGimmeRcvd s) (s_nextIsPrivate s) (s_uv s) (s_x s) (s_result s) (s_sent s) (s_received s).
Definition on_s_remoteHas (f : gset bytes → gset bytes) (s : session) : session :=
  MkSession (s_repo s) (s_cache s) (s_projectCode s) (s_cookie s) (f (s_remoteHas s)) (s_phantoms s)
    (s_pendingSend s) (s_phantomAge s) (s_filesRecvdLastRound s) (s_igotSentThisRound s)
    (s_nGimmeRcvd s) (s_nextIsPrivate s) (s_uv s) (s_x s) (s_result s) (s_sent s) (s_received s).
Definition on_s_phantoms (f : gset bytes → gset bytes) (s : session) : session :=
  MkSession (s_repo s) (s_cache s) (s_projectCode s) (s_cookie s) (s_remoteHas s) (f (s_phantoms s))
    (s_pendingSend s) (s_phantomAge s) (s_filesRecvdLastRound s) (s_igotSentThisRound s)
    (s_nGimmeRcvd s) (s_nextIsPrivate s) (s_uv s) (s_x s) (s_result s) (s_sent s) (s_received s).
Definition on_s_pendingSend (f : gset bytes → gset bytes) (s : session) : session :=
  MkSession (s_repo s) (s_cache s) (s_projectCode s) (s_cookie s) (s_remoteHas s) (s_phantoms s) (f
    (s_pendingSend s)) (s_phantomAge s) (s_filesRecvdLastRound s) (s_igotSentThisRound s)
    (s_nGimmeRcvd s) (s_nextIsPrivate s) (s_uv s) (s_x s) (s_result s) (s_sent s) (s_received s).
Definition on_s_phantomAge (f : gmap bytes Z → gmap bytes Z) (s : session) : session :=
  MkSession (s_repo s) (s_cache s) (s_projectCode s) (s_cookie s) (s_remoteHas s) (s_phantoms s)
    (s_pendingSend s) (f (s_phantomAge s)) (s_filesRecvdLastRound s) (s_igotSentThisRound s)
    (s_nGimmeRcvd s) (s_nextIsPrivate s) (s_uv s) (s_x s) (s_result s) (s_sent s) (s_received s).
Definition on_s_filesRecvdLastRound (f : Z → Z) (s : session) : session :=
  MkSession (s_repo s) (s_cache s) (s_projectCode s) (s_cookie s) (s_remoteHas s) (s_phantoms s)
    (s_pendingSend s) (s_phantomAge s) (f (s_filesRecvdLastRound s)) (s_igotSentThisRound s)
    (s_nGimmeRcvd s) (s_nextIsPrivate s) (s_uv s) (s_x s) (s_result s) (s_sent s) (s_received s).
Definition on_s_igotSentThisRound (f : Z → Z) (s : session) : session :=
  MkSession (s_repo s) (s_cache s) (s_projectCode s) (s_cookie s) (s_remoteHas s) (s_phantoms s)
    (s_pendingSend s) (s_phantomAge s) (s_filesRecvdLastRound s) (f (s_igotSentThisRound s))
    (s_nGimmeRcvd s) (s_nextIsPrivate s) (s_uv s) (s_x s) (s_result s) (s_sent s) (s_received s).
Definition on_s_nGimmeRcvd (f : Z → Z) (s : session) : session :=
  MkSession (s_repo s) (s_cache s) (s_projectCode s) (s_cookie s) (s_remoteHas s) (s_phantoms s)
    (s_pendingSend s) (s_phantomAge s) (s_filesRecvdLastRound s) (s_igotSentThisRound s) (f
    (s_nGimmeRcvd s)) (s_nextIsPrivate s) (s_uv s) (s_x s) (s_result s) (s_sent s) (s_received s).
Definition on_s_nextIsPrivate (f : bool → bool) (s : session) : session :=
  MkSession (s_repo s) (s_cache s) (s_projectCode s) (s_cookie s) (s_remoteHas s) (s_phantoms s)
    (s_pendingSend s) (s_phantomAge s) (s_filesRecvdLastRound s) (s_igotSentThisRound s)
    (s_nGimmeRcvd s) (f (s_nextIsPrivate s)) (s_uv s) (s_x s) (s_result s) (s_sent s) (s_received
    s).
Definition on_s_uv (f : uvState → uvState) (s : session) : session :=
  MkSession (s_repo s) (s_cache s) (s_projectCode s) (s_cookie s) (s_remoteHas s) (s_phantoms s)
    (s_pendingSend s) (s_phantomAge s) (s_filesRecvdLastRound s) (s_igotSentThisRound s)
    (s_nGimmeRcvd s) (s_nextIsPrivate s) (f (s_uv s)) (s_x s) (s_result s) (s_sent s) (s_received
    s).
Definition on_s_x (f : xState → xState) (s : session) : session :=
  MkSession (s_repo s) (s_cache s) (s_projectCode s) (s_cookie s) (s_remoteHas s) (s_phantoms s)
    (s_pendingSend s) (s_phantomAge s) (s_filesRecvdLastRound s) (s_igotSentThisRound s)
    (s_nGimmeRcvd s) (s_nextIsPrivate s) (s_uv s) (f (s_x s)) (s_result s) (s_sent s) (s_received
    s).
Definition on_s_result (f : SyncResult → SyncResult) (s : session) : session :=
  MkSession (s_repo s) (s_cache s) (s_projectCode s) (s_cookie s) (s_remoteHas s) (s_phantoms s)
    (s_pendingSend s) (s_phantomAge s) (s_filesRecvdLastRound s) (s_igotSentThisRound s)
    (s_nGimmeRcvd s) (s_nextIsPrivate s) (s_uv s) (s_x s) (f (s_result s)) (s_sent s) (s_received
    s).
Definition on_s_sent (f : Z → Z) (s : session) : session :=
  MkSession (s_repo s) (s_cache s) (s_projectCode s) (s_cookie s) (s_remoteHas s) (s_phantoms s)
    (s_pendingSend s) (s_phantomAge s) (s_filesRecvdLastRound s) (s_igotSentThisRound s)
    (s_nGimmeRcvd s) (s_nextIsPrivate s) (s_uv s) (s_x s) (s_result s) (f (s_sent s)) (s_received
    s).
Definition on_s_received (f : Z → Z) (s : session) : session :=
  MkSession (s_repo s) (s_cache s) (s_projectCode s) (s_cookie s) (s_remoteHas s) (s_phantoms s)
    (s_pendingSend s) (s_phantomAge s) (s_filesRecvdLastRound s) (s_igotSentThisRound s)
    (s_nGimmeRcvd s) (s_nextIsPrivate s) (s_uv s) (s_x s) (s_result s) (s_sent s) (f (s_received
    s)).

Definition on_toSend (f : option (gmap bytes bool) → option (gmap bytes bool)) : session → session :=
  on_s_uv (λ u, MkUvState (us_hashSent u) (us_pushOK u) (us_pullOnly u) (f (us_toSend u)) (us_gimmes u)
                  (us_nGimmeSent u) (us_nFileRcvd u)).
Definition on_uvGimmes (f : gset bytes → gset bytes) : session → session :=
  on_s_uv (λ u, MkUvState (us_hashSent u) (us_pushOK u) (us_pullOnly u) (us_toSend u) (f (us_gimmes u))
                  (us_nGimmeSent u) (us_nFileRcvd u)).
(** [s.nUvGimmeSent] and [s.nUvFileRcvd] *)
Definition on_uvCounts (f g : Z → Z) : session → session :=
  on_s_uv (λ u, MkUvState (us_hashSent u) (us_pushOK u) (us_pullOnly u) (us_toSend u) (us_gimmes u)
                  (f (us_nGimmeSent u)) (g (us_nFileRcvd u))).
Definition on_uvFlags (hashSent pushOK pullOnly : bool → bool) : session → session :=
  on_s_uv (λ u, MkUvState (hashSent (us_hashSent u)) (pushOK (us_pushOK u)) (pullOnly (us_pullOnly u))
                  (us_toSend u) (us_gimmes u) (us_nGimmeSent u) (us_nFileRcvd u)).
Definition on_xGimmes (f : gmap bytes (gset bytes) → gmap bytes (gset bytes)) : session → session :=
  on_s_x (λ x, MkXState (f (xs_gimmes x)) (xs_toSend x) (xs_cache x)).
Definition on_xToSend (f : gmap bytes (gset bytes) → gmap bytes (gset bytes)) : session → session :=
  on_s_x (λ x, MkXState (xs_gimmes x) (f (xs_toSend x)) (xs_cache x)).
Definition set_xCache (c : gmap bytes TableDef) : session → session :=
  on_s_x (λ x, MkXState (xs_gimmes x) (xs_toSend x) (Some c)).

(** The counters of the result. *)
Definition add_files (sent recvd : Z) : session → session :=
  on_s_result (λ r, MkResult (r_Rounds r) (r_FilesSent r + sent) (r_FilesRecvd r + recvd) (r_UVFilesSent r)
    (r_UVFilesRecvd r) (r_UVGimmesSent r) (r_BytesSent r) (r_BytesRecvd r) (r_ArtifactsLinked r)
    (r_Errors r) (r_CkinLockFail r)).
Definition add_uv (sent recvd gimmes : Z) : session → session :=
  on_s_result (λ r, MkResult (r_Rounds r) (r_FilesSent r) (r_FilesRecvd r) (r_UVFilesSent r + sent)
    (r_UVFilesRecvd r + recvd) (r_UVGimmesSent r + gimmes) (r_BytesSent r) (r_BytesRecvd r)
    (r_ArtifactsLinked r) (r_Errors r) (r_CkinLockFail r)).
Definition add_bytes (sent recvd : Z) : session → session :=
  on_s_result (λ r, MkResult (r_Rounds r) (r_FilesSent r) (r_FilesRecvd r) (r_UVFilesSent r)
    (r_UVFilesRecvd r) (r_UVGimmesSent r) (r_BytesSent r + sent) (r_BytesRecvd r + recvd)
    (r_ArtifactsLinked r) (r_Errors r) (r_CkinLockFail r)).
Definition set_rounds (n : Z) : session → session :=
  on_s_result (λ r, MkResult n (r_FilesSent r) (r_FilesRecvd r) (r_UVFilesSent r)
    (r_UVFilesRecvd r) (r_UVGimmesSent r) (r_BytesSent r) (r_BytesRecvd r)
    (r_ArtifactsLinked r) (r_Errors r) (r_CkinLockFail r)).
Definition set_linked (n : Z) : session → session :=
  on_s_result (λ r, MkResult (r_Rounds r) (r_FilesSent r) (r_FilesRecvd r) (r_UVFilesSent r)
    (r_UVFilesRecvd r) (r_UVGimmesSent r) (r_BytesSent r) (r_BytesRecvd r) n (r_Errors r)
    (r_CkinLockFail r)).
Definition add_error (e : bytes) : session → session :=
  on_s_result (λ r, MkResult (r_Rounds r) (r_FilesSent r) (r_FilesRecvd r) (r_UVFilesSent r)
    (r_UVFilesRecvd r) (r_UVGimmesSent r) (r_BytesSent r) (r_BytesRecvd r) (r_ArtifactsLinked r)
    (r_Errors r ++ [e]) (r_CkinLockFail r)).
Definition set_lockFail (f : CkinLockFail) : session → session :=
  on_s_result (λ r, MkResult (r_Rounds r) (r_FilesSent r) (r_FilesRecvd r) (r_UVFilesSent r)
    (r_UVFilesRecvd r) (r_UVGimmesSent r) (r_BytesSent r) (r_BytesRecvd r) (r_ArtifactsLinked r)
    (r_Errors r) (Some f)).

Definition s_blobs (s : session) : repo := d_repo (s_repo s).
Definition set_db (d : db) : session → session := on_s_repo (λ _, d).
Definition set_blobs (q : repo) : session → session := on_s_repo (on_repo (λ _, q)).

(** A step returns the session, or an error and the session it leaves. *)
Abbreviation stepped := (outcome (session * db_error)).

(** A call that leaves the session [s] if it fails. *)
Definition at_s {A} (s : session) (m : out A) : stepped A := wrap_err (λ e, (s, e)) m.

Definition no_result : SyncResult := MkResult 0 0 0 0 0 0 0 0 0 [] None.

(** With [opts.UV] all unversioned files, deleted ones too, are to be sent. *)
Definition newSession (d : db) (cache : option Cache) (opts : SyncOpts) : out session :=
  let new d toSend :=
    MkSession d cache (so_ProjectCode opts) [] ∅ ∅ ∅ ∅ 0 0 0 false (MkUvState false false false toSend ∅ 0 0)
      (MkXState ∅ ∅ None) no_result 0 0 in
  if so_UV opts then
    let d := Uv.EnsureSchema d in
    match Uv.List_ d with
    | Ret entries => Ret (new d (Some (list_to_map (map (λ e, (Uv.e_Name e, true)) entries))))
    | Fail _ | Panic => Panic
    | NoFuel => NoFuel
    end
  else Ret (new d None).

Definition maxSend (opts : SyncOpts) : Z := if (so_MaxSend opts <=? 0)%Z then DefaultMaxSend else so_MaxSend opts.

Section session.
Context {codec : Zlib} {sha3 : Sha3} {sqlite : Sqlite} {sql : Sql} {floats : Floats} {json : Json}
  {order : Unordered} {unicode : Unicode}.
Context (opts : SyncOpts).

(** ** Requests: artifacts *)

(** The remote is not known to have the artifact. *)
Definition unannounced (s : session) (uuid : bytes) : bool := negb (bool_decide (uuid ∈ s_remoteHas s)).

Definition igots (private : bool) (uuids : list bytes) : list Card := map (λ u, CardIGot (MkIGot u private)) uuids.

(** The row is there, and neither shunned nor private. *)
Definition public_uuid (q : repo) (rid : Z) : option bytes :=
  match t_blob q !! rid with
  | Some row =>
    if (0 <=? b_size row)%Z && negb (bool_decide (rid ∈ t_phantom q))
       && negb (bool_decide (b_uuid row ∈ dom (t_shun q))) && negb (bool_decide (rid ∈ t_private q))
    then Some (b_uuid row) else None
  | None => None
  end.

Definition sendUnclustered (s : session) : list Card :=
  let rids := any_order (elements (t_unclustered (s_blobs s))) in
  igots false (filter (λ u, unannounced s u = true) (omap (public_uuid (s_blobs s)) rids)).

Definition sendAllClusters (s : session) : list Card :=
  let tagged := any_order (elements (dom (t_tagxref (s_blobs s)))) in
  let rids := filter (λ rid, rid ∉ t_unclustered (s_blobs s)) (map snd (filter (λ k, k.1 = 7%Z) tagged)) in
  igots false (filter (λ u, unannounced s u = true) (omap (public_uuid (s_blobs s)) rids)).

Definition sendPrivate (s : session) : list Card :=
  let rids := any_order (elements (t_private (s_blobs s))) in
  let rows := filter (λ row, (0 <= b_size row)%Z) (omap (λ rid, t_blob (s_blobs s) !! rid) rids) in
  igots true (filter (λ u, unannounced s u = true) (map b_uuid rows)).

(** The card, or the session with the error. *)
Definition loadFileCard (s : session) (uuid : bytes) : stepped (session * FileCard * Z) :=
  found ← at_s s (in_repo (Blob.Exists (s_blobs s) uuid));
  match found with
  | None => Fail (s, EInvalid uuid)
  | Some rid =>
    '(cache, data) ← at_s (on_s_cache (λ c, cache_missed c rid) s)
                       (in_repo (Cache_Expand (s_cache s) (s_blobs s) rid));
    Ret (on_s_cache (λ _, cache) s, MkFile uuid [] (Some data), zlen data)
  end.

(** The cards for the pending artifacts [l], and the session. *)
Fixpoint file_cards (l : list bytes) (budget : Z) (s : session) : stepped (session * list Card) :=
  match l with
  | [] => Ret (s, [])
  | uuid :: l =>
    if (budget <=? 0)%Z then Ret (s, []) else
    found ← at_s s (in_repo (Blob.Exists (s_blobs s) uuid));
    isPriv ← match found with
             | Some rid => at_s s (in_repo (IsPrivate (s_blobs s) rid))
             | None => Ret false
             end;
    if isPriv && negb (so_Private opts) then
      file_cards l budget (on_s_pendingSend (λ p, p ∖ {[ uuid ]}) s)
    else
    let private := if isPriv : bool then [CardPrivate] else [] in
    match loadFileCard s uuid with
    | Ret (s, card, size) =>
      let s := on_s_pendingSend (λ p, p ∖ {[ uuid ]}) s in
      '(s, cards) ← file_cards l (budget - size) (on_s_sent (Z.add size) (add_files 1 0 s));
      Ret (s, private ++ CardFile card :: cards)
    | Fail (s, _) =>
      '(s, cards) ← file_cards l budget s;
      Ret (s, private ++ cards)
    | Panic => Panic
    | NoFuel => NoFuel
    end
  end.

Definition buildFileCards (s : session) : stepped (session * list Card) :=
  if negb (so_Push opts) then Ret (s, []) else
  file_cards (any_order (elements (s_pendingSend s))) (maxSend opts) s.

(** The cards for the phantoms [l] when [count] cards are there already. *)
Fixpoint gimme_cards (l : list bytes) (count maxGimme : Z) (q : repo) : out (list Card) :=
  match l with
  | [] => Ret []
  | uuid :: l =>
    if (maxGimme <=? count)%Z then Ret [] else
    skip ← (if negb (so_Private opts) then
              found ← in_repo (Blob.Exists q uuid);
              match found with Some rid => in_repo (IsPrivate q rid) | None => Ret false end
            else Ret false);
    if skip : bool then gimme_cards l count maxGimme q else
    cards ← gimme_cards l (count + 1) maxGimme q;
    Ret (CardGimme uuid :: cards)
  end.

Definition max_gimme (s : session) : Z := Z.max MaxGimmeBase (s_filesRecvdLastRound s * 2).

Definition buildGimmeCards (s : session) : out (list Card) :=
  if negb (so_Pull opts) then Ret [] else
  gimme_cards (any_order (elements (s_phantoms s))) 0 (max_gimme s) (s_blobs s).

(** ** Requests: unversioned files *)

Fixpoint uv_cards (l : list (bytes * bool)) (budget : Z) (s : session) : stepped (session * list Card) :=
  match l with
  | [] => Ret (s, [])
  | (name, sendFullContent) :: l =>
    if (budget <=? 0)%Z then Ret (s, []) else
    '(content, mtime, fileHash) ← at_s s (Uv.Read (s_repo s) name);
    let size := zlen (default [] content) in
    let '(card, cost) :=
      if bool_decide (fileHash = []) then (MkUVFile name mtime dash 0 UVFlagDeletion None, 0%Z) else
      if sendFullContent && bool_decide (is_Some content)
      then (MkUVFile name mtime fileHash size 0 content, size)
      else (MkUVFile name mtime fileHash size UVFlagContentOmitted None, 0%Z) in
    '(s, cards) ← uv_cards l (budget - cost) (on_toSend (fmap (delete name)) s);
    Ret (s, CardUVFile card :: cards)
  end.

Definition buildUVFileCards (s : session) : stepped (session * list Card) :=
  uv_cards (any_order (map_to_list (default ∅ (us_toSend (s_uv s))))) (maxSend opts) s.

(** ** Requests: synchronised tables *)

Definition buildTableSchemaCard (d : db) (info : TableInfo) : out (list Card) :=
  let defJSON := json_of_def (ti_Def info) in
  catHash ← CatalogHash d (ti_Name info) (ti_Def info);
  Ret [CardSchema (MkSchema (ti_Name info) 1 (sha1_hex defJSON) (ti_MTime info) (Some defJSON));
       CardPragma (MkPragma (str "xtable-hash") [ti_Name info; catHash])].

Fixpoint xigot_cards (info : TableInfo) (rows : list (goMap * Z)) : out (list Card) :=
  match rows with
  | [] => Ret []
  | (row, mtime) :: rows =>
    pkHash ← row_hash (ti_Def info) row;
    cards ← xigot_cards info rows;
    Ret (CardXIGot (MkXIGot (ti_Name info) pkHash mtime) :: cards)
  end.

Definition buildTableXIGotCards (d : db) (info : TableInfo) : out (list Card) :=
  rows ← ListXRows d (ti_Name info);
  _ ← extractPKColumns (ti_Def info);
  xigot_cards info rows.

(** The card for a queued row, if the row is still there. *)
Definition send_card (d : db) (info : TableInfo) (pkHash : bytes) : out (option Card) :=
  found ← LookupXRow d (ti_Name info) (ti_Def info) pkHash;
  match found with
  | None => Ret None
  | Some (row, mtime) =>
    dead ← IsTombstone (ti_Def info) row;
    if dead : bool then
      _ ← extractPKColumns (ti_Def info);
      match json_of_row (pk_values (pk_columns (ti_Def info)) row) with
      | None => Fail EScan
      | Some pkData => Ret (Some (CardXDelete (MkXDelete (ti_Name info) pkHash mtime (Some pkData))))
      end
    else
      match json_of_row row with
      | None => Fail EScan
      | Some rowJSON => Ret (Some (CardXRow (Xfer.MkXRow (ti_Name info) pkHash mtime (Some rowJSON))))
      end
  end.

Fixpoint send_cards (info : TableInfo) (l : list bytes) (s : session) : stepped (session * list Card) :=
  match l with
  | [] => Ret (s, [])
  | pkHash :: l =>
    card ← at_s s (send_card (s_repo s) info pkHash);
    '(s, cards) ← send_cards info l (on_xToSend (alter (λ p, p ∖ {[ pkHash ]}) (ti_Name info)) s);
    Ret (s, option_list card ++ cards)
  end.

Definition buildTableSendCards (s : session) (info : TableInfo) : stepped (session * list Card) :=
  let gimmes := any_order (elements (default ∅ (xs_gimmes (s_x s) !! ti_Name info))) in
  let sends := any_order (elements (default ∅ (xs_toSend (s_x s) !! ti_Name info))) in
  '(s, cards) ← send_cards info sends s;
  Ret (s, map (λ h, CardXGimme (MkXGimme (ti_Name info) h)) gimmes ++ cards).

Fixpoint table_cards (tables : list TableInfo) (s : session) : stepped (session * list Card) :=
  match tables with
  | [] => Ret (s, [])
  | info :: tables =>
    schemaCards ← at_s s (buildTableSchemaCard (s_repo s) info);
    igotCards ← at_s s (buildTableXIGotCards (s_repo s) info);
    '(s, sendCards) ← buildTableSendCards s info;
    '(s, cards) ← table_cards tables s;
    Ret (s, schemaCards ++ igotCards ++ sendCards ++ cards)
  end.

Definition buildXTableCards (s : session) : stepped (session * list Card) :=
  let s := on_s_repo EnsureSyncSchema s in
  tables ← at_s s (ListSyncedTables (s_repo s));
  table_cards tables s.

(** ** Requests *)

(** [rb] is what the random source delivers for the comment. *)
Definition buildLoginCard (rb : bytes) (s : session) (cards : list Card) : out LoginCard :=
  buf ← wrap_err (λ _, EInvalid []) (encode_cards 0 cards []);
  let payload := appendRandomComment buf rb in
  computeLogin (so_User opts) (so_Password opts) (s_projectCode s) (Some payload).

(** The push and pull cards; without a project code they panic. *)
Definition mode_cards (s : session) : out (list Card) :=
  let projCode := s_projectCode s in
  let srvCode := if bool_decide (so_ServerCode opts = []) then config_or_empty (s_repo s) (str "server-code")
                 else so_ServerCode opts in
  if (so_Push opts || so_Pull opts) && bool_decide (projCode = []) then Panic else
  Ret ((if so_Push opts then [CardPush (MkPush srvCode projCode)] else []) ++
       (if so_Pull opts then
          [CardPull (MkPull (if bool_decide (srvCode = []) then str "0" else srvCode) projCode)]
        else [])).

(** The igot cards of a round, and the request for clusters that follows them. *)
Definition announcements (cycle : nat) (s : session) : session * list Card :=
  let igotCards := sendUnclustered s in
  let clusterCards :=
    if (1 <=? cycle) && so_Push opts && (0 <? s_nGimmeRcvd s)%Z then sendAllClusters s else [] in
  (on_s_igotSentThisRound (λ _, zlen igotCards + zlen clusterCards)%Z s,
   igotCards ++ clusterCards ++
   (if (cycle =? 1) && so_Pull opts then [CardPragma (MkPragma (str "req-clusters") [])] else [])).

Definition private_cards (s : session) : session * list Card :=
  if so_Private opts then
    let privCards := sendPrivate s in
    (on_s_igotSentThisRound (Z.add (zlen privCards)) s,
     CardPragma (MkPragma (str "send-private") []) :: privCards)
  else (s, []).

Definition lock_cards (cycle : nat) : list Card :=
  match so_CkinLock opts with
  | Some l =>
    if cycle =? 0 then [CardPragma (MkPragma (str "ci-lock") [lr_ParentUUID l; lr_ClientID l])] else []
  | None => []
  end.

Definition uv_hash_cards (now : Z) (s : session) : stepped (session * list Card) :=
  if so_UV opts && negb (us_hashSent (s_uv s)) then
    let s := on_s_repo Uv.EnsureSchema s in
    '(d, uvHash) ← at_s s (Uv.ContentHash now (s_repo s));
    Ret (on_uvFlags (λ _, true) id id (set_db d s), [CardPragma (MkPragma (str "uv-hash") [uvHash])])
  else Ret (s, []).

Definition uv_gimme_cards (s : session) : session * list Card :=
  if so_UV opts then
    let names := any_order (elements (us_gimmes (s_uv s))) in
    let n := zlen names in
    (on_uvGimmes (λ _, ∅) (on_uvCounts (Z.add n) id (add_uv 0 0 n s)), map CardUVGimme names)
  else (s, []).

Definition uv_file_cards (s : session) : stepped (session * list Card) :=
  if so_UV opts && us_pushOK (s_uv s) then
    '(s, cards) ← buildUVFileCards s;
    Ret (add_uv (zlen cards) 0 0 s, cards)
  else Ret (s, []).

Definition buildRequest (now : Z) (rb : bytes) (cycle : nat) (s : session) : stepped (session * list Card) :=
  let s := if bool_decide (s_projectCode s = [])
           then on_s_projectCode (λ _, config_or_empty (s_repo s) (str "project-code")) s else s in
  modeCards ← at_s s (mode_cards s);
  let cookie := if bool_decide (s_cookie s = []) then [] else [CardCookie (s_cookie s)] in
  let '(s, igotCards) := announcements cycle s in
  '(s, fileCards) ← buildFileCards s;
  gimmeCards ← at_s s (buildGimmeCards s);
  let '(s, privCards) := private_cards s in
  '(s, hashCards) ← uv_hash_cards now s;
  let '(s, uvGimmes) := uv_gimme_cards s in
  '(s, uvFiles) ← uv_file_cards s;
  '(s, tableCards) ← (if so_XTableSync opts then buildXTableCards s else Ret (s, []));
  let cards := Clone.client_version :: modeCards ++ cookie ++ igotCards ++ fileCards ++ gimmeCards ++ privCards ++
               lock_cards cycle ++ hashCards ++ uvGimmes ++ uvFiles ++ tableCards in
  if bool_decide (so_User opts = []) then Ret (s, cards) else
  login ← at_s s (buildLoginCard rb s cards);
  Ret (s, CardLogin login :: cards).

(** ** Responses: artifacts *)

(** The phantoms of the repository that the remote did not announce are asked for. *)
Definition loadDBPhantoms (s : session) : session :=
  if negb (so_Pull opts) then s else
  let rows := omap (λ rid, t_blob (s_blobs s) !! rid) (elements (t_phantom (s_blobs s))) in
  let uuids := map b_uuid (filter (λ row, (b_size row < 0)%Z) rows) in
  on_s_phantoms (λ p, list_to_set (filter (λ u, unannounced s u = true) uuids) ∪ p) s.

Definition handleFileCard (s : session) (uuid deltaSrc : bytes) (payload : slice) : stepped session :=
  match storeReceivedFile (s_blobs s) uuid deltaSrc payload (s_cache s) with
  | Ret (cache, q) => Ret (loadDBPhantoms (set_blobs q (on_s_cache (λ _, cache) s)))
  | Fail (cache, e) => Fail (on_s_cache (λ _, cache) s, e)
  | Panic => Panic
  | NoFuel => NoFuel
  end.

Definition applyPrivateStatus (s : session) (uuid : bytes) : stepped session :=
  found ← at_s s (in_repo (Blob.Exists (s_blobs s) uuid));
  if s_nextIsPrivate s then
    q ← at_s s (in_repo (MakePrivate (s_blobs s) (default 0%Z found)));
    Ret (on_s_nextIsPrivate (λ _, false) (set_blobs q s))
  else
    match found with
    | Some rid => q ← at_s s (in_repo (MakePublic (s_blobs s) rid)); Ret (set_blobs q s)
    | None => Ret s
    end.

Definition receive_file (s : session) (uuid deltaSrc : bytes) (payload : slice) : stepped session :=
  s ← handleFileCard s uuid deltaSrc payload;
  s ← applyPrivateStatus s uuid;
  Ret (on_s_phantoms (λ p, p ∖ {[ uuid ]}) (on_s_received (Z.add (zlen (default [] payload))) s)).

Definition handle_igot (s : session) (c : IGotCard) : stepped session :=
  let s := on_s_remoteHas (λ r, {[ ig_UUID c ]} ∪ r) s in
  found ← at_s s (in_repo (Blob.Exists (s_blobs s) (ig_UUID c)));
  match found with
  | Some rid =>
    q ← at_s s (in_repo (if ig_IsPrivate c then MakePrivate (s_blobs s) rid else MakePublic (s_blobs s) rid));
    Ret (set_blobs q s)
  | None =>
    if (negb (ig_IsPrivate c) || so_Private opts) && so_Pull opts
    then Ret (on_s_phantoms (λ p, {[ ig_UUID c ]} ∪ p) s) else Ret s
  end.

(** ** Responses: unversioned files *)

(** [s.uvToSend[name] = full], which panics if the map is nil. *)
Definition queue_uv (name : bytes) (full : bool) (s : session) : stepped session :=
  match us_toSend (s_uv s) with
  | Some _ => Ret (on_toSend (fmap <[name := full]>) s)
  | None => Panic
  end.
Definition unqueue_uv (name : bytes) : session → session := on_toSend (fmap (delete name)).

Definition handleUVIGotCard (s : session) (c : UVIGotCard) : stepped session :=
  let s := on_s_repo Uv.EnsureSchema s in
  '(_, localMtime, localHash) ← at_s s (Uv.Read (s_repo s) (ui_Name c));
  let status := Uv.Status localMtime localHash (ui_MTime c) (ui_Hash c) in
  if ((status =? 0) || (status =? 1))%Z then
    let s := unqueue_uv (ui_Name c) s in
    if negb (bool_decide (ui_Hash c = dash)) then
      let s := on_uvGimmes (λ g, {[ ui_Name c ]} ∪ g) s in
      d ← at_s s (Uv.DropRow (s_repo s) (ui_Name c)); Ret (set_db d s)
    else if (status =? 1)%Z then
      d ← at_s s (Uv.Delete (s_repo s) (ui_Name c) (ui_MTime c)); Ret (set_db d s)
    else Ret s
  else if (status =? 2)%Z then
    d ← at_s s (Uv.SetMTime (s_repo s) (ui_Name c) (ui_MTime c)); Ret (set_db d s)
  else if (status =? 3)%Z then Ret (unqueue_uv (ui_Name c) s)
  else if ((status =? 4) || (status =? 5))%Z then
    if us_pullOnly (s_uv s) then Ret (unqueue_uv (ui_Name c) s)
    else queue_uv (ui_Name c) (status =? 5)%Z s
  else Ret s.

Definition handleUVFileCard (s : session) (c : UVFileCard) : stepped session :=
  let s := on_s_repo Uv.EnsureSchema s in
  genuine ← (if (Z.land (uf_Flags c) 5 =? 0)%Z then
               match uf_Content c with
               | None => Panic
               | Some _ =>
                 computed ← at_s s (Hash.ContentHash (uf_Content c) (uf_Hash c));
                 Ret (bool_decide (computed = uf_Hash c))
               end
             else Ret true);
  if negb genuine then Fail (s, EUUIDMismatch) else
  '(_, localMtime, localHash) ← at_s s (Uv.Read (s_repo s) (uf_Name c));
  if (2 <=? Uv.Status localMtime localHash (uf_MTime c) (uf_Hash c))%Z then Ret s else
  if bool_decide (uf_Hash c = dash) then
    d ← at_s s (Uv.Delete (s_repo s) (uf_Name c) (uf_MTime c)); Ret (set_db d s)
  else
  match uf_Content c with
  | Some content => d ← at_s s (Uv.Write (s_repo s) (uf_Name c) (Some content) (uf_MTime c)); Ret (set_db d s)
  | None => Ret s
  end.

(** ** Responses: synchronised tables *)

(** The definition of a table; all are loaded when it is not cached. *)
Definition getXTableDef (s : session) (tableName : bytes) : stepped (session * option TableDef) :=
  match xs_cache (s_x s) ≫= λ m, m !! tableName with
  | Some def => Ret (s, Some def)
  | None =>
    tables ← at_s s (ListSyncedTables (s_repo s));
    let m := foldl (λ m info, <[ti_Name info := ti_Def info]> m) ∅ tables in
    Ret (set_xCache m s, m !! tableName)
  end.

Definition handleXSchemaCard (s : session) (c : SchemaCard) : stepped session :=
  match json_def (content (sc_Content c)) with
  | None => Fail (s, EScan)
  | Some def =>
    let s := on_s_repo EnsureSyncSchema s in
    '(d, failed) ← at_s s (RegisterSyncedTable (s_repo s) (sc_Table c) def (sc_MTime c));
    let s := set_db d s in
    match failed with Some e => Fail (s, e) | None => Ret s end
  end.

(** [m[table][pkHash] = true], where the inner map may be missing. *)
Definition queue_row (table pkHash : bytes) : gmap bytes (gset bytes) → gmap bytes (gset bytes) :=
  partial_alter (λ p, Some ({[ pkHash ]} ∪ default ∅ p)) table.
Definition forget_row (table pkHash : bytes) : gmap bytes (gset bytes) → gmap bytes (gset bytes) :=
  alter (λ p, p ∖ {[ pkHash ]}) table.

Definition handleXIGotResponse (s : session) (c : XIGotCard) : stepped session :=
  let s := on_s_repo EnsureSyncSchema s in
  '(s, def) ← getXTableDef s (xi_Table c);
  match def with
  | None => Ret s
  | Some def =>
    found ← at_s s (LookupXRow (s_repo s) (xi_Table c) def (xi_PKHash c));
    match found with
    | None => Ret (on_xGimmes (queue_row (xi_Table c) (xi_PKHash c)) s)
    | Some (_, localMtime) =>
      Ret (if (xi_MTime c <? localMtime)%Z then on_xToSend (queue_row (xi_Table c) (xi_PKHash c)) s else s)
    end
  end.

Definition handleXGimmeResponse (s : session) (c : XGimmeCard) : session :=
  on_xToSend (queue_row (xg_Table c) (xg_PKHash c)) s.

Definition handleXRowResponse (s : session) (c : XRowCard) : stepped session :=
  let s := on_s_repo EnsureSyncSchema s in
  '(s, def) ← getXTableDef s (xr_Table c);
  match json_row (content (xr_Content c)) with
  | None => Fail (s, EScan)
  | Some row =>
    row ← match def with
          | Some def => at_s s (coerceJSONNumbers row def)
          | None => match row with Some row => Ret row | None => Panic end
          end;
    d ← at_s s (UpsertXRow (s_repo s) (xr_Table c) row (xr_MTime c));
    Ret (on_xGimmes (forget_row (xr_Table c) (xr_PKHash c)) (set_db d s))
  end.

Definition handleXDeleteResponse (s : session) (c : XDeleteCard) : stepped session :=
  let s := on_s_repo EnsureSyncSchema s in
  '(s, def) ← getXTableDef s (xd_Table c);
  match def with
  | None => Ret s
  | Some def =>
    d ← at_s s (applyXDeleteLocally (s_repo s) (xd_Table c) def (xd_PKHash c) (xd_MTime c) (xd_PKData c));
    Ret (on_xGimmes (forget_row (xd_Table c) (xd_PKHash c)) (set_db d s))
  end.

(** ** Responses *)

(** [v, _ := strconv.ParseInt(s, 10, 64)]: a value out of range is clamped, and
    what is not a number is 0. *)
Definition ParseInt_value (s : bytes) : Z :=
  match ParseInt s with
  | Some v => v
  | None =>
    match s with
    | "-"%byte :: s => if dec_unsigned s is Some _ then min_int64 else 0%Z
    | "+"%byte :: s | s => if dec_unsigned s is Some _ then max_int64 else 0%Z
    end
  end.

Definition process_pragma (s : session) (c : PragmaCard) : session :=
  if bool_decide (pr_Name c = str "uv-push-ok") then on_uvFlags id (λ _, true) id s
  else if bool_decide (pr_Name c = str "uv-pull-only") then on_uvFlags id id (λ _, true) s
  else if bool_decide (pr_Name c = str "ci-lock-fail") && (2 <=? length (pr_Values c)) then
    set_lockFail (MkLockFail (nth 0 (pr_Values c) []) (ParseInt_value (nth 1 (pr_Values c) []))) s
  else s.

(** A card of the response, with the numbers of files that came and that were
    asked for. *)
Definition process_card (p : session * Z * Z) (card : Card) : stepped (session * Z * Z) :=
  let '(s, filesRecvd, filesSent) := p in
  let only (m : stepped session) := s ← m; Ret (s, filesRecvd, filesSent) in
  match card with
  | CardPrivate => Ret (on_s_nextIsPrivate (λ _, true) s, filesRecvd, filesSent)
  | CardFile c =>
    s ← receive_file s (f_UUID c) (f_DeltaSrc c) (f_Content c); Ret (s, (filesRecvd + 1)%Z, filesSent)
  | CardCFile c =>
    s ← receive_file s (cf_UUID c) (cf_DeltaSrc c) (cf_Content c); Ret (s, (filesRecvd + 1)%Z, filesSent)
  | CardIGot c => only (handle_igot s c)
  | CardGimme uuid =>
    Ret (on_s_nGimmeRcvd (Z.add 1) (on_s_pendingSend (λ p, {[ uuid ]} ∪ p) s), filesRecvd, (filesSent + 1)%Z)
  | CardCookie v => Ret (on_s_cookie (λ _, v) s, filesRecvd, filesSent)
  | CardError m => Ret (add_error (str "error: " ++ m) s, filesRecvd, filesSent)
  | CardMessage m => Ret (add_error (str "message: " ++ m) s, filesRecvd, filesSent)
  | CardPragma c => Ret (process_pragma s c, filesRecvd, filesSent)
  | CardUVIGot c => only (if so_UV opts then handleUVIGotCard s c else Ret s)
  | CardUVFile c =>
    only (if so_UV opts then
            s ← handleUVFileCard s c;
            Ret (on_uvCounts id (Z.add 1) (add_uv 0 1 0 s))
          else Ret s)
  | CardUVGimme name =>
    Ret (if so_UV opts then on_toSend (λ t, Some (<[name := true]> (default ∅ t))) s else s, filesRecvd, filesSent)
  | CardSchema c => only (handleXSchemaCard s c)
  | CardXIGot c => only (handleXIGotResponse s c)
  | CardXGimme c => only (Ret (handleXGimmeResponse s c))
  | CardXRow c => only (handleXRowResponse s c)
  | CardXDelete c => only (handleXDeleteResponse s c)
  | _ => only (Ret s)
  end.

Fixpoint process_loop (cards : list Card) (p : session * Z * Z) : stepped (session * Z * Z) :=
  match cards with
  | [] => Ret p
  | c :: cards => p ← process_card p c; process_loop cards p
  end.

(** A phantom that three rounds in a row did not bring is given up. *)
Definition age_phantoms (s : session) : session :=
  let age u := (default 0 (s_phantomAge s !! u) + 1)%Z in
  let phantoms := filter (λ u, (age u < 3)%Z) (s_phantoms s) in
  on_s_phantomAge (λ _, list_to_map (map (λ u, (u, age u)) (elements phantoms)))
    (on_s_phantoms (λ _, phantoms) s).

Definition is_empty (p : gset bytes) : bool := bool_decide (p = ∅).
Definition idle (m : gmap bytes (gset bytes)) : bool := bool_decide (map_Forall (λ _ p, p = ∅) m).

(** The unversioned files: whether they have converged, and the session. *)
Definition uv_converged (s : session) : session * bool :=
  if negb (so_UV opts) then (on_uvCounts (λ _, 0%Z) (λ _, 0%Z) s, true) else
  let u := s_uv s in
  if ((0 <? us_nGimmeSent u) && ((0 <? us_nFileRcvd u) || (r_Rounds (s_result s) <? 3)))%Z then
    (on_uvCounts (λ _, 0%Z) (λ _, 0%Z) s, false) else
  let waiting := negb (bool_decide (default ∅ (us_toSend u) = ∅)) in
  if waiting && us_pushOK u then (s, false) else
  let s := if waiting then on_toSend (λ _, None) s else s in
  if negb (is_empty (us_gimmes u)) then (s, false)
  else (on_uvCounts (λ _, 0%Z) (λ _, 0%Z) s, true).

(** The last part of [processResponse]: whether there is nothing left to do. *)
Definition converged (filesRecvd filesSent : Z) (s : session) : session * bool :=
  if ((0 <? filesRecvd) || (0 <? filesSent))%Z then (s, false) else
  if negb (is_empty (s_phantoms s)) || negb (is_empty (s_pendingSend s)) then (s, false) else
  let s := if (0 <? s_igotSentThisRound s)%Z then on_s_repo (on_unsent (λ _, ∅)) s else s in
  if negb (bool_decide (d_unsent (s_repo s) = ∅)) then (s, false) else
  let '(s, uvDone) := uv_converged s in
  if negb uvDone then (s, false) else
  if so_XTableSync opts && (negb (idle (xs_gimmes (s_x s))) || negb (idle (xs_toSend (s_x s)))) then (s, false)
  else (s, true).

Definition processResponse (cards : list Card) (s : session) : stepped (session * bool) :=
  '(s, filesRecvd, filesSent) ← process_loop cards (s, 0%Z, 0%Z);
  let s := on_s_filesRecvdLastRound (λ _, filesRecvd) (add_files 0 filesRecvd s) in
  Ret (converged filesRecvd filesSent (age_phantoms s)).

(** ** The rounds *)

Section transport.
Context {W : Type} (exchange : W → list Card → out (W * list Card)) (clock : nat → Z) (rnd : nat → bytes).

(** [n] rounds are left. *)
Fixpoint sync_loop (n : nat) (w : W) (s : session) : outcome (W * session * db_error) (W * session) :=
  match n with
  | O => Fail (w, s, ERounds)
  | S n' =>
    let cycle := MaxRounds - n in
    let at_w {A} (m : stepped A) : outcome (W * session * db_error) A := wrap_err (λ e, (w, e.1, e.2)) m in
    let s := on_s_received (λ _, 0%Z) (on_s_sent (λ _, 0%Z) s) in
    '(s, req) ← at_w (buildRequest (clock cycle) (rnd cycle) cycle s);
    '(w, resp) ← wrap_err (λ e, (w, s, e)) (exchange w req);
    '(s, done) ← wrap_err (λ e, (w, add_bytes (s_sent e.1) (s_received e.1) e.1, e.2)) (processResponse resp s);
    let s := set_rounds (Z.of_nat cycle + 1) (add_bytes (s_sent s) (s_received s) s) in
    if done : bool then Ret (w, s) else sync_loop n' w s
  end.

Definition Sync (d : db) (cache : option Cache) (w : W) : outcome (W * session * db_error) (W * session) :=
  match newSession d cache opts with
  | Ret s =>
    '(w, s) ← sync_loop MaxRounds w s;
    match Crosslink (s_repo s) with
    | Ret (d, linked) => Ret (w, set_linked linked (set_db d s))
    | Fail (d, _, e) => Fail (w, set_db d s, e)
    | Panic => Panic
    | NoFuel => NoFuel
    end
  | Fail _ | Panic => Panic
  | NoFuel => NoFuel
  end.
End transport.
End session.
