(* ===== verification/CloneComplete.v ===== *)
(** * A clone is complete (src/internal/sync/clone.go against handler.go)

    The client of [Clone] talks to the server of [Handler].  The server's batches
    cut the artifacts, in the order of their rids, into pieces of two hundred; the
    client stores each piece and asks for the next. *)
From S2P Require Import Prelude GoStrings Hash Zlib Xfer Blob Content Db Uv Auth Receive TableSync CkinLock Handler Clone.
From Stdlib Require Import Sorting.Sorted.
From stdpp Require Import list gmap sets sorting.

Abbreviation out := (outcome db_error).

(** ** The server's side *)

(** A row with content, as the server sends it. *)
Definition full (p : Z * blobRow) : Prop := (0 ≤ b_size p.2)%Z.

Section batches.
Context {codec : Zlib} {sha3 : Sha3}.

(** The text of an artifact. *)
Definition text_of (q : repo) (rid : Z) : bytes := match Expand q rid with Ret c => c | _ => [] end.

Definition file_of (q : repo) (p : Z * blobRow) : Card :=
  CardFile (MkFile (b_uuid p.2) [] (Some (text_of q p.1))).

Definition sends (q : repo) (p : Z * blobRow) : Prop :=
  (0 < p.1)%Z ∧ (p.1 ∉ t_private q) ∧ ∃ c, Expand q p.1 = Ret c.

Lemma clone_loop_sends rows count lst h :
  h_cache h = None → Forall (sends (h_blobs h)) rows →
  let sent := take (DefaultCloneBatchSize - count) rows in
  ∃ h', clone_loop rows count lst h
        = Ret (h', default lst (fst <$> last sent), bool_decide (DefaultCloneBatchSize - count < length rows)) ∧
    h_repo h' = h_repo h ∧ h_resp h' = h_resp h ++ map (file_of (h_blobs h)) sent.
Proof.
  intros Hc Hs. revert count lst h Hc Hs. induction rows as [|[rid row] rows IH]; intros count lst h Hc Hs; cbv zeta.
  { exists h. rewrite take_nil. cbn [clone_loop last fmap option_fmap option_map default map length].
    rewrite bool_decide_false by lia. by rewrite app_nil_r. }
  apply list.Forall_cons in Hs as [(Hpos & Hpub & c & Hex) Hs]. cbn [clone_loop]. cbn [fst snd] in *.
  unfold IsPrivate. destruct (Z.leb_spec rid 0); [lia|].
  rewrite (bool_decide_false (rid ∈ t_private (h_blobs h))) by done.
  cbn [mbind outcome_bind at_ wrap_err in_repo andb].
  destruct (Nat.leb_spec DefaultCloneBatchSize count) as [Hle|Hlt].
  - exists h. replace (DefaultCloneBatchSize - count) with 0 by lia. cbn [take last fmap option_fmap option_map default map].
    rewrite bool_decide_true by (cbn; lia). by rewrite app_nil_r.
  - unfold Cache_Expand. rewrite Hc, Hex. cbn [mbind outcome_bind at_ wrap_err in_repo]. cbv zeta.
    set (h1 := set_filesSent _ _).
    destruct (IH (S count) rid h1 eq_refl) as (h' & Hl & Hr & Hre).
    { exact Hs. }
    exists h'. rewrite Hl. replace (DefaultCloneBatchSize - count) with (S (DefaultCloneBatchSize - S count)) by lia.
    cbn [take map length]. split_and!.
    + f_equal. f_equal; [f_equal|].
      * rewrite last_cons. by destruct (last (take _ rows)).
      * apply bool_decide_ext. lia.
    + by rewrite Hr.
    + rewrite Hre. unfold h1. cbn [h_resp set_filesSent emit set_resp set_cache].
      rewrite <- app_assoc. cbn [app]. unfold file_of at 2. cbn [fst snd]. unfold text_of. by rewrite Hex.
Qed.
End batches.

(** Batches cut the rows, sorted by their rids. *)
#[local] Instance by_rid_antisymm : AntiSymm eq (@by_rid blobRow).
Proof. intros a b H1 H2. unfold by_rid in *. lia. Qed.

Lemma sorted_nodup (l : list (Z * blobRow)) : StronglySorted by_rid l → base.NoDup l.
Proof.
  induction 1 as [|x l Hl IH Hx]; constructor; [|done]. intros Hin.
  apply (Forall_elem _ _ _ Hx) in Hin. unfold by_rid in Hin. lia.
Qed.

Lemma clone_rows_sorted q a m : StronglySorted by_rid (clone_rows q a m).
Proof.
  unfold clone_rows. apply sort_by_rid. apply NoDup_fmap_fst; [|apply NoDup_filter, NoDup_map_to_list].
  intros x y1 y2 [_ H1]%list_elem_of_filter [_ H2]%list_elem_of_filter.
  apply elem_of_map_to_list in H1, H2. congruence.
Qed.

Lemma clone_rows_elem q a m rid row :
  (rid, row) ∈ clone_rows q a m ↔ t_blob q !! rid = Some row ∧ (a < rid ≤ m)%Z ∧ full (rid, row).
Proof.
  unfold clone_rows, full. rewrite sort_slice_perm, list_elem_of_filter, elem_of_map_to_list. cbn. naive_solver.
Qed.

Lemma clone_rows_next q a m n p :
  last (take n (clone_rows q a m)) = Some p → clone_rows q p.1 m = drop n (clone_rows q a m).
Proof.
  intros Hl. pose proof (clone_rows_sorted q a m) as Hs.
  pose proof (sorted_nodup _ Hs) as Hnd.
  rewrite <- (take_drop n (clone_rows q a m)) in Hs, Hnd.
  assert (p ∈ take n (clone_rows q a m)) as Hp by by apply last_Some_elem_of in Hl.
  assert (∀ x, x ∈ take n (clone_rows q a m) → (x.1 ≤ p.1)%Z) as Hle.
  { apply last_Some in Hl as [l' Hl']. rewrite Hl' in Hs |- *. intros x [Hx| ->%list_elem_of_singleton]%elem_of_app; [|lia].
    apply StronglySorted_app_1_l in Hs. apply Z.lt_le_incl.
    apply (StronglySorted_app_1_elem_of _ _ _ _ _ Hs Hx). by left. }
  assert (a < p.1)%Z as Hap.
  { assert (p ∈ clone_rows q a m) as Hin.
    { rewrite <- (take_drop n (clone_rows q a m)). apply elem_of_app. by left. }
    destruct p as [rid row]. apply clone_rows_elem in Hin as (_ & ? & _). cbn. lia. }
  apply (StronglySorted_unique by_rid); [apply clone_rows_sorted|by apply StronglySorted_app_1_r in Hs|].
  apply NoDup_Permutation; [apply sorted_nodup, clone_rows_sorted|by apply list.NoDup_app in Hnd as (_ & _ & ?)|].
  intros [rid row]. split.
  - intros (Hb & Hr & Hf)%clone_rows_elem.
    assert ((rid, row) ∈ clone_rows q a m) as Hin by (apply clone_rows_elem; split; [done|]; split; [lia|done]).
    rewrite <- (take_drop n (clone_rows q a m)) in Hin. apply elem_of_app in Hin as [Hin|]; [|done].
    apply Hle in Hin. cbn in Hin. lia.
  - intros Hin.
    assert ((rid, row) ∈ clone_rows q a m) as Hin'.
    { rewrite <- (take_drop n (clone_rows q a m)). apply elem_of_app. by right. }
    apply clone_rows_elem in Hin' as (Hb & Hr & Hf). apply clone_rows_elem. split; [done|]. split; [|done].
    pose proof (StronglySorted_app_1_elem_of _ _ _ _ _ Hs Hp Hin) as Hlt. unfold by_rid in Hlt. cbn in *. lia.
Qed.

(** ** Answers *)

(** A server's answer to a request without files is the response of
    [process_cards]; nothing is crosslinked. *)
Definition serve {codec : Zlib} {sha3 : Sha3} {sqlite : Sqlite} {sql : Sql} {floats : Floats} {json : Json}
    {locks : LockJson} {texts : ErrorText} {order : Unordered} (now : Z) (w : db) (cards : list Card) :
    out (db * list Card) :=
  match process_cards now (new_handler w None) cards with
  | Ret h => Ret (h_repo h, h_resp h)
  | Fail (_, e) => Fail e
  | Panic => Panic
  | NoFuel => NoFuel
  end.

(** The part of a server's database that cloning depends on. *)
Record like (d w : db) : Prop := {
  lk_repo : d_repo w = d_repo d;
  lk_user : d_user w = d_user d;
  lk_config : d_config w = d_config d;
  lk_schema : default ∅ (d_schema w) = (∅ : gmap bytes schemaRow)
}.

Section answers.
Context {codec : Zlib} {sha3 : Sha3} {sqlite : Sqlite} {sql : Sql} {floats : Floats} {json : Json}
  {locks : LockJson} {texts : ErrorText} {order : Unordered} {olaws : UnorderedLaws}.

Definition inert (c : Card) : Prop :=
  match c with CardPragma _ | CardCookie _ | CardClone _ | CardCloneSeqNo _ | CardPull _ => True | _ => False end.

Lemma each_inert l h : Forall inert l → each handleDataCard l h = Ret h.
Proof. intros Hl. induction Hl as [|c l Hc Hl IH]; [done|]. by destruct c. Qed.

Lemma inert_login l : Forall inert l → filter (λ c, is_login_card c = false) l = l.
Proof. intros Hl. induction Hl as [|c l Hc Hl IH]; [done|]. rewrite filter_cons_True by by destruct c. by rewrite IH. Qed.

Lemma Forall_filter_sub {A} (P Q : A → Prop) `{!∀ x, Decision (Q x)} l : Forall P l → Forall P (filter Q l).
Proof. intros Hl. apply Forall_forall. intros x [_ Hx]%list_elem_of_filter. by apply (Forall_elem _ _ _ Hl). Qed.

Lemma processDataCards_inert h cards : Forall inert cards →
  processDataCards h cards
  = h ← (if h_pullOK h then emitXIGots (emitIGots h) else Ret h);
    if h_cloneMode h then emitCloneBatch h else Ret h.
Proof.
  intros Hc. unfold processDataCards. rewrite !each_inert by by apply Forall_filter_sub.
  cbn [mbind outcome_bind]. by rewrite each_inert by by apply Forall_filter_sub.
Qed.

(** The record after the first pass, without logins. *)
Definition visitor (w : db) : handler := set_syncedTables ∅ (set_repo (EnsureSyncSchema w) (initAuth (new_handler w None))).

Lemma authenticate_visitor now d w cards : like d w → Forall inert cards →
  authenticate now (new_handler w None) cards = Ret (visitor w).
Proof.
  intros [_ _ _ Hs] Hc. unfold authenticate.
  assert (loadSyncedTables (initAuth (new_handler w None)) = Ret (visitor w)) as ->.
  { unfold loadSyncedTables. cbv zeta.
    assert (h_repo (initAuth (new_handler w None)) = w) as Hw.
    { unfold initAuth. cbv zeta. by destruct (_ !! nobody). }
    assert (ListSyncedTables (EnsureSyncSchema w) = Ret []) as Ht.
    { unfold ListSyncedTables. change (d_schema (EnsureSyncSchema w)) with (Some (default ∅ (d_schema w))).
      by rewrite Hs. }
    unfold visitor. rewrite Hw. cbn [h_repo set_repo]. by rewrite Ht. }
  cbn [mbind outcome_bind]. induction Hc as [|c cards Hc _ IH]; [done|]. cbn [each].
  destruct c; try done; cbn [mbind outcome_bind]; exact IH.
Qed.

Lemma process_visitor now d w cards : like d w → Forall inert cards →
  process_cards now (new_handler w None) cards
  = h ← each (handleControlCard now) cards (visitor w); processDataCards (emit_codes h) cards.
Proof.
  intros Hl Hc. unfold process_cards. rewrite (authenticate_visitor now d) by done.
  cbn [mbind outcome_bind]. by rewrite inert_login.
Qed.

Lemma visitor_repo w : h_repo (visitor w) = EnsureSyncSchema w.
Proof. done. Qed.
Lemma visitor_caps w row : d_user w !! nobody = Some row → h_caps (visitor w) = u_cap row.
Proof.
  intros H. unfold visitor, initAuth. cbv zeta.
  change (h_repo (set_authed false (set_caps [] (set_user nobody (new_handler w None))))) with w. by rewrite H.
Qed.
Lemma visitor_rest w :
  let h := visitor w in
  h_cache h = None ∧ h_resp h = [] ∧ h_pullOK h = false ∧ h_cloneMode h = false ∧
  h_cloneSeq h = 0%Z ∧ h_cloneSnapMax h = 0%Z ∧ h_syncPrivate h = false ∧ h_syncedTables h = ∅.
Proof.
  unfold visitor, initAuth. cbv zeta.
  change (h_repo (set_authed false (set_caps [] (set_user nobody (new_handler w None))))) with w.
  by destruct (d_user w !! nobody).
Qed.

Lemma like_ensure d w : like d w → like d (EnsureSyncSchema w).
Proof. intros [H1 H2 H3 H4]. split; [done..|]. cbn. by rewrite H4. Qed.

Lemma handle_version now h : handleControlCard now h client_version = Ret h.
Proof. reflexivity. Qed.

Lemma each_ret {A} (f : handler → A → handled handler) x l h h1 : f h x = Ret h1 → each f (x :: l) h = each f l h1.
Proof. intros H. cbn [each]. by rewrite H. Qed.

Lemma handle_clone now h c : CanClone (h_caps h) = true →
  handleControlCard now h (CardClone c) = Ret (set_cloneMode true h).
Proof. intros H. unfold handleControlCard. by rewrite H. Qed.

Lemma handle_pull now h c : CanPull (h_caps h) = true →
  handleControlCard now h (CardPull c) = Ret (set_pullOK true h).
Proof. intros H. unfold handleControlCard. by rewrite H. Qed.

Lemma handle_cookie now h v rid : parseCloneCap v = Some rid →
  handleControlCard now h (CardCookie v) = Ret (set_cloneSnapMax rid h).
Proof. intros H. unfold handleControlCard. by rewrite H. Qed.
End answers.

(** ** The server *)

(** An artifact that a client will accept. *)
Definition servable `{Zlib, Sha3} (q : repo) (p : Z * blobRow) : Prop :=
  IsValidHash (E:=db_error) (b_uuid p.2) = Ret true ∧ hash_of (b_uuid p.2) (text_of q p.1) = b_uuid p.2 ∧
  acceptable (text_of q p.1) ∧ (zlen (text_of q p.1) < 2 ^ 32)%Z.

(** A server that can be cloned by anybody: it has codes, nothing private, no
    synchronised tables, and every artifact will be accepted. *)
Record hosts `{Zlib, Sha3} (d : db) (projectCode serverCode : bytes) : Prop := {
  ho_ok : repo_ok (d_repo d);
  ho_public : t_private (d_repo d) = ∅;
  ho_nobody : ∃ row, d_user d !! nobody = Some row ∧ CanClone (u_cap row) = true ∧ CanPull (u_cap row) = true;
  ho_project : config_value d (str "project-code") = Some projectCode ∧ projectCode ≠ [];
  ho_server : config_value d (str "server-code") = Some serverCode ∧ serverCode ≠ [];
  ho_schema : default ∅ (d_schema d) = (∅ : gmap bytes schemaRow);
  ho_rids : (max_rid (d_repo d) ≤ max_int64)%Z;
  ho_servable : ∀ rid row, t_blob (d_repo d) !! rid = Some row → full (rid, row) →
    (zlen (text_of (d_repo d) rid) < 2 ^ 32)%Z ∧ acceptable (text_of (d_repo d) rid) ∧
    IsValidHash (E:=db_error) (b_uuid row) = Ret true
}.

Section server.
Context {codec : Zlib} {sha3 : Sha3} {sqlite : Sqlite} {sql : Sql} {floats : Floats} {json : Json}
  {locks : LockJson} {texts : ErrorText} {order : Unordered} {olaws : UnorderedLaws}.
Context (now : Z) (d : db) (pc sc : bytes) (host : hosts d pc sc).

Definition artifacts : list (Z * blobRow) := clone_rows (d_repo d) 0 (max_rid (d_repo d)).
Definition clone_cookie : bytes := cloneCapPrefix ++ fmt_int (max_rid (d_repo d)).

Lemma max_rid_le q rid row : t_blob q !! rid = Some row → full (rid, row) → (rid ≤ max_rid q)%Z.
Proof.
  intros Hb Hf. unfold max_rid.
  assert ((rid, row) ∈ filter (λ p : Z * blobRow, (0 ≤ b_size p.2)%Z) (map_to_list (t_blob q))) as Hin.
  { apply list_elem_of_filter. split; [exact Hf|]. by apply elem_of_map_to_list. }
  revert Hin. generalize (filter (λ p : Z * blobRow, (0 ≤ b_size p.2)%Z) (map_to_list (t_blob q))) as l.
  induction l as [|x l IH]; [by intros ?%elem_of_nil|]. cbn. intros [<-|Hin]%elem_of_cons; [cbn; lia|].
  specialize (IH Hin). lia.
Qed.

Lemma max_rid_nonneg q : (0 ≤ max_rid q)%Z.
Proof. unfold max_rid. induction (filter _ _) as [|x l IH]; cbn; lia. Qed.

Lemma artifacts_elem rid row :
  (rid, row) ∈ artifacts ↔ t_blob (d_repo d) !! rid = Some row ∧ full (rid, row).
Proof.
  unfold artifacts. rewrite clone_rows_elem. split; [tauto|]. intros [Hb Hf]. split; [done|]. split; [|done].
  split; [by apply (ok_row _ (ho_ok _ _ _ host) rid row)|by eapply max_rid_le].
Qed.

Lemma full_expands rid row : t_blob (d_repo d) !! rid = Some row → full (rid, row) →
  expands (d_repo d) rid (text_of (d_repo d) rid) ∧ hash_of (b_uuid row) (text_of (d_repo d) rid) = b_uuid row.
Proof.
  intros Hb Hf. destruct (ok_content _ (ho_ok _ _ _ host) rid row Hb) as (c & He & Hh).
  { unfold full in Hf. cbn in Hf. lia. }
  assert (text_of (d_repo d) rid = c) as ->; [|done].
  unfold text_of. apply Expand_expands in He; [by rewrite He|]. by apply (expands_pos _ _ _ He).
Qed.

Lemma artifacts_servable : Forall (servable (d_repo d)) artifacts.
Proof.
  apply Forall_forall. intros [rid row] [Hb Hf]%artifacts_elem.
  destruct (ho_servable _ _ _ host rid row Hb Hf) as (Hl & Ha & Hv).
  destruct (full_expands rid row Hb Hf) as [_ Hh]. by split_and!.
Qed.

Lemma rows_sends a m : Forall (sends (d_repo d)) (clone_rows (d_repo d) a m).
Proof.
  apply Forall_forall. intros [rid row] (Hb & _ & Hf)%clone_rows_elem.
  destruct (full_expands rid row Hb Hf) as [He _]. pose proof (expands_pos _ _ _ He). split; [done|].
  split; [rewrite (ho_public _ _ _ host); set_solver|]. eexists. by apply Expand_expands.
Qed.

(** What [emitCloneBatch] adds to the response. *)
Definition batch_cards (a m : Z) : list Card :=
  let rows := clone_rows (d_repo d) a m in
  let sent := take DefaultCloneBatchSize rows in
  map (file_of (d_repo d)) sent
  ++ [CardCloneSeqNo (if bool_decide (DefaultCloneBatchSize < length rows)
                      then default 0%Z (fst <$> last sent) else 0%Z)].

Lemma emitCloneBatch_cards h : h_blobs h = d_repo d → h_cache h = None →
  ∃ h', emitCloneBatch h = Ret h' ∧ h_repo h' = h_repo h ∧
    h_resp h' = h_resp h ++
      if (h_cloneSnapMax h =? 0)%Z then CardCookie clone_cookie :: batch_cards (h_cloneSeq h) (max_rid (d_repo d))
      else batch_cards (h_cloneSeq h) (h_cloneSnapMax h).
Proof.
  intros Hb Hc. unfold emitCloneBatch. cbv zeta. rewrite Hb.
  set (h1 := if (h_cloneSnapMax h =? 0)%Z then _ else _).
  assert (h_repo h1 = h_repo h ∧ h_cache h1 = None ∧ h_cloneSeq h1 = h_cloneSeq h) as (E1 & E2 & E3).
  { unfold h1. by destruct (_ =? 0)%Z. }
  assert (h_blobs h1 = d_repo d) as Hb1 by (unfold h_blobs; rewrite E1; exact Hb).
  destruct (clone_loop_sends (clone_rows (h_blobs h1) (h_cloneSeq h1) (h_cloneSnapMax h1)) 0 0%Z h1 E2)
    as (h' & Hl & Hr & Hre). { rewrite Hb1. apply rows_sends. }
  rewrite Hl. cbn [mbind outcome_bind]. eexists. split; [reflexivity|].
  split; [cbn; by rewrite Hr|]. cbn [emit set_resp h_resp]. rewrite Hre, Hb1, E3, Nat.sub_0_r.
  rewrite <- app_assoc. unfold h1. destruct (h_cloneSnapMax h =? 0)%Z; cbn [h_resp h_cloneSnapMax emit set_resp set_cloneSnapMax].
  - by rewrite <- app_assoc.
  - done.
Qed.

Definition codes_card : Card := CardPush (MkPush sc pc).
Definition clone_card (seqno : Z) : Card := CardClone (MkClone 3 seqno).

Lemma parse_clone_cookie : parseCloneCap clone_cookie = Some (max_rid (d_repo d)).
Proof.
  unfold parseCloneCap, clone_cookie. rewrite HasPrefix_app. cbn [negb]. rewrite drop_app_exact by done.
  pose proof (max_rid_nonneg (d_repo d)). pose proof (ho_rids _ _ _ host).
  rewrite ParseInt_fmt_int by (unfold int64_range, min_int64, max_int64 in *; lia).
  by destruct (Z.ltb_spec (max_rid (d_repo d)) 0); [lia|].
Qed.

Lemma like_visitor w : like d w → h_blobs (visitor w) = d_repo d ∧ like d (h_repo (visitor w)) ∧
  CanClone (h_caps (visitor w)) = true ∧ CanPull (h_caps (visitor w)) = true.
Proof.
  intros Hl. pose proof Hl as [H1 H2 H3 H4]. destruct (ho_nobody _ _ _ host) as (row & Hrow & Hc & Hp).
  rewrite <- H2 in Hrow. rewrite (visitor_caps w row Hrow). split; [exact H1|]. split; [|done].
  by apply like_ensure.
Qed.

Lemma emit_codes_host h : h_cloneMode h = true → d_config (h_repo h) = d_config d →
  emit_codes h = emit codes_card h.
Proof.
  intros Hm Hc. unfold emit_codes. rewrite Hm. cbv zeta. unfold config_or_empty, config_value. rewrite Hc.
  destruct (ho_project _ _ _ host) as [Hp Hn]. destruct (ho_server _ _ _ host) as [Hs _].
  unfold config_value in Hp, Hs. rewrite Hp, Hs. cbn [default]. by rewrite bool_decide_false.
Qed.

(** A request for a batch. *)
Lemma serve_batch w cards h :
  like d w → Forall inert cards → each (handleControlCard now) cards (visitor w) = Ret h →
  h_repo h = h_repo (visitor w) → h_cache h = None → h_resp h = [] → h_pullOK h = false → h_cloneMode h = true →
  ∃ w', like d w' ∧ serve now w cards = Ret (w', codes_card ::
    if (h_cloneSnapMax h =? 0)%Z then CardCookie clone_cookie :: batch_cards (h_cloneSeq h) (max_rid (d_repo d))
    else batch_cards (h_cloneSeq h) (h_cloneSnapMax h)).
Proof.
  intros Hl Hi Hctl Hr Hca Hre Hp Hm. destruct (like_visitor w Hl) as (Hb & Hlw & _).
  unfold serve. rewrite (process_visitor now d) by done. rewrite Hctl. cbn [mbind outcome_bind].
  rewrite emit_codes_host; [|done|rewrite Hr; apply Hlw].
  rewrite processDataCards_inert by done. set (h1 := emit codes_card h).
  change (h_pullOK h1) with (h_pullOK h). rewrite Hp. cbn [mbind outcome_bind].
  change (h_cloneMode h1) with (h_cloneMode h). rewrite Hm.
  destruct (emitCloneBatch_cards h1) as (h2 & -> & Hr2 & Hre2); [|done|].
  { unfold h_blobs. change (h_repo h1) with (h_repo h). by rewrite Hr. }
  exists (h_repo h2). rewrite Hr2. change (h_repo h1) with (h_repo h). rewrite Hr. split; [done|].
  rewrite Hre2. unfold h1. cbn [h_resp emit set_resp h_cloneSnapMax h_cloneSeq]. rewrite Hre. cbn [app].
  by destruct (_ =? 0)%Z.
Qed.

Definition first_request : list Card := [client_version; clone_card 1].
Definition next_request (seqno : Z) : list Card :=
  [client_version; CardCookie clone_cookie; clone_card seqno; CardCloneSeqNo seqno].
Definition final_request : list Card := [client_version; CardCookie clone_cookie; CardPull (MkPull sc pc)].

Lemma serve_first w : like d w → ∃ w', like d w' ∧ serve now w first_request
  = Ret (w', codes_card :: CardCookie clone_cookie :: batch_cards 0 (max_rid (d_repo d))).
Proof.
  intros Hl. destruct (like_visitor w Hl) as (_ & _ & Hc & _).
  destruct (visitor_rest w) as (V1 & V2 & V3 & _ & V5 & V6 & _). revert Hc V1 V2 V3 V5 V6.
  pose proof (serve_batch w first_request) as Hbatch. revert Hbatch. generalize (visitor w) as v.
  intros v Hbatch Hc V1 V2 V3 V5 V6.
  destruct (Hbatch (set_cloneMode true v)) as (w' & Hw & Hs); [done|by repeat constructor| |done..|].
  { unfold first_request. rewrite (each_ret _ _ _ _ v) by apply handle_version.
    by rewrite (each_ret _ _ _ _ (set_cloneMode true v)) by by apply handle_clone. }
  exists w'. split; [done|]. rewrite Hs. cbn [h_cloneSnapMax h_cloneSeq set_cloneMode]. by rewrite V5, V6.
Qed.

Lemma serve_next w seqno : like d w → max_rid (d_repo d) ≠ 0%Z → ∃ w', like d w' ∧
  serve now w (next_request seqno) = Ret (w', codes_card :: batch_cards seqno (max_rid (d_repo d))).
Proof.
  intros Hl Hn. destruct (like_visitor w Hl) as (_ & _ & Hc & _).
  destruct (visitor_rest w) as (V1 & V2 & V3 & _). revert Hc V1 V2 V3.
  pose proof (serve_batch w (next_request seqno)) as Hbatch. revert Hbatch. generalize (visitor w) as v.
  intros v Hbatch Hc V1 V2 V3. set (m := max_rid (d_repo d)) in *.
  destruct (Hbatch (set_cloneSeq seqno (set_cloneMode true (set_cloneSnapMax m v)))) as (w' & Hw & Hs);
    [done|by repeat constructor| |done..|].
  { unfold next_request. rewrite (each_ret _ _ _ _ v) by apply handle_version.
    rewrite (each_ret _ _ _ _ (set_cloneSnapMax m v)) by apply handle_cookie, parse_clone_cookie.
    by rewrite (each_ret _ _ _ _ (set_cloneMode true (set_cloneSnapMax m v))) by by apply handle_clone. }
  exists w'. split; [done|]. rewrite Hs. cbn [h_cloneSnapMax h_cloneSeq set_cloneMode set_cloneSeq set_cloneSnapMax].
  by destruct (Z.eqb_spec m 0).
Qed.

Definition is_igot (c : Card) : Prop := match c with CardIGot _ => True | _ => False end.

Lemma emit_igots_resp h b us :
  let h' := foldl (λ h u, emit (CardIGot (MkIGot u b)) h) h us in
  h_repo h' = h_repo h ∧ h_syncPrivate h' = h_syncPrivate h ∧ h_syncedTables h' = h_syncedTables h ∧
  h_cloneMode h' = h_cloneMode h ∧ h_resp h' = h_resp h ++ map (λ u, CardIGot (MkIGot u b)) us.
Proof.
  revert h. induction us as [|u us IH]; intros h; cbn [foldl map]; [by rewrite app_nil_r|].
  destruct (IH (emit (CardIGot (MkIGot u b)) h)) as (I1 & I2 & I3 & I4 & I5). split_and!; [done..|].
  rewrite I5. cbn [h_resp emit set_resp]. by rewrite <- app_assoc.
Qed.

Lemma serve_final w : like d w → ∃ w' igots, like d w' ∧ Forall is_igot igots ∧
  serve now w final_request = Ret (w', igots).
Proof.
  intros Hl. destruct (like_visitor w Hl) as (_ & Hlw & _ & Hp).
  destruct (visitor_rest w) as (V1 & V2 & V3 & V4 & _ & _ & V7 & V8).
  assert (Forall inert final_request) as Hi by by repeat constructor.
  unfold serve. rewrite (process_visitor now d) by done.
  revert Hlw Hp V1 V2 V3 V4 V7 V8. generalize (visitor w) as v. intros v Hlw Hp V1 V2 V3 V4 V7 V8.
  set (m := max_rid (d_repo d)) in *. set (h := set_pullOK true (set_cloneSnapMax m v)).
  assert (each (handleControlCard now) final_request v = Ret h) as ->.
  { unfold final_request. rewrite (each_ret _ _ _ _ v) by apply handle_version.
    rewrite (each_ret _ _ _ _ (set_cloneSnapMax m v)) by apply handle_cookie, parse_clone_cookie.
    by rewrite (each_ret _ _ _ _ h) by by apply handle_pull. }
  cbn [mbind outcome_bind].
  assert (emit_codes h = h) as ->.
  { unfold emit_codes. change (h_cloneMode h) with (h_cloneMode v). by rewrite V4. }
  rewrite processDataCards_inert by done. change (h_pullOK h) with true. cbn iota.
  unfold emitIGots. cbv zeta. set (us := filter (λ u, announced h u false = false) _).
  destruct (emit_igots_resp h false us) as (I1 & I2 & I3 & I4 & I5).
  revert I1 I2 I3 I4 I5. generalize (foldl (λ h u, emit (CardIGot (MkIGot u false)) h) h us) as h'.
  intros h' I1 I2 I3 I4 I5.
  assert (h_syncPrivate h' = false) as -> by (by rewrite I2).
  assert (emitXIGots h' = Ret h') as ->.
  { unfold emitXIGots. assert (h_syncedTables h' = ∅) as -> by (by rewrite I3).
    rewrite map_to_list_empty.
    assert (any_order (@nil (bytes * SyncedTable)) = []) as ->; [|done].
    apply Permutation_nil. symmetry. apply any_order_perm. }
  cbn [mbind outcome_bind]. assert (h_cloneMode h' = false) as -> by (by rewrite I4).
  exists (h_repo h'), (map (λ u, CardIGot (MkIGot u false)) us).
  split; [by rewrite I1|]. split.
  - apply Forall_forall. intros c (u & -> & _)%list_elem_of_fmap. done.
  - rewrite I5. change (h_resp h) with (h_resp v). by rewrite V2.
Qed.
End server.

(** ** The client *)

(** The client has the artifacts [p] of the server, with their texts, and no
    others; phantoms aside. *)
Record mirrors `{Zlib, Sha3} (q : repo) (p : list (Z * blobRow)) (c : repo) : Prop := {
  mi_ok : repo_ok c;
  mi_small : small c;
  mi_rows : ∀ r row, t_blob c !! r = Some row → b_size row ≠ (-1)%Z → b_uuid row ∈ map (λ x, b_uuid x.2) p;
  mi_has : ∀ x, x ∈ p → ∃ r, rid_of_uuid c (b_uuid x.2) = Some r ∧ expands c r (text_of q x.1);
  mi_tags : clusters_only c;
  mi_sizes : ∀ r row, t_blob c !! r = Some row → (-1 ≤ b_size row)%Z
}.

Section client.
Context {codec : Zlib} {zlaws : ZlibLaws} {sha3 : Sha3} {order : Unordered} {olaws : UnorderedLaws}.
Context (q : repo).

Lemma mirror_step p c x : mirrors q p c → servable q x → b_uuid x.2 ∉ map (λ x, b_uuid x.2) p →
  ∃ c', storeReceivedFile c (b_uuid x.2) [] (Some (text_of q x.1)) None = Ret (None, c') ∧
    mirrors q (p ++ [x]) c'.
Proof.
  intros [Hok Hsm Hrows Hhas Htags Hsizes] (Hv & Hh & Ha & Hlen) Hnew.
  destruct (receive_total c _ _ None Hok Hv Hh Ha) as (c' & Hs & Hr). exists c'. split; [done|].
  pose proof (store_full_new _ _ _ _ Hs) as Hn.
  assert (small c') as Hsm'.
  { intros r row Hrow. destruct (Hn r row Hrow) as [H|[->|[_ ->]]]; [by apply (Hsm r)|done|done]. }
  destruct (store_full_ok c _ _ c' Hok Hs Hsm' Hh) as (Hok' & Hret & rid & t & Hrid & He & _ & Heq).
  split; [done|done| | |by eapply (store_full_clusters c)|].
  - intros r row Hrow Hsz. rewrite map_app. apply elem_of_app. destruct (Hn r row Hrow) as [H|[|[Hu _]]]; [|done|].
    + left. by eapply Hrows.
    + right. rewrite Hu. by left.
  - intros y [Hy|Hy%list_elem_of_singleton]%elem_of_app.
    + destruct (Hhas y Hy) as (r & Hr' & He'). exists r. split; [by apply (retains_rid c)|by apply Hret].
    + subst y. exists rid. split; [done|]. rewrite <- Heq; [done|]. intros r row Hrow Hu.
      destruct (decide (b_size row = (-1)%Z)) as [|Hsz]; [done|]. destruct Hnew. rewrite <- Hu. by eapply Hrows.
  - intros r row Hrow. destruct (Hn r row Hrow) as [H|[->|[_ ->]]]; [by eapply Hsizes|done|].
    pose proof (zlen_nonneg (text_of q x.1)). lia.
Qed.

(** What processing files does not change. *)
Record same_session (cs cs' : cloneSession) : Prop := {
  sm_seqno : cs_seqno cs' = cs_seqno cs;
  sm_codes : cs_projectCode cs' = cs_projectCode cs ∧ cs_serverCode cs' = cs_serverCode cs;
  sm_cookie : cs_cookie cs' = cs_cookie cs;
  sm_recvd : cs_BlobsRecvd cs' = cs_BlobsRecvd cs
}.

Lemma process_loop_app p l k : process_loop p (l ++ k) = p ← process_loop p l; process_loop p k.
Proof.
  revert p. induction l as [|c l IH]; intros p; cbn [app process_loop]; [done|].
  destruct (process_card p c); cbn; auto.
Qed.

Lemma process_files rows : ∀ p cs n,
  mirrors q p (cs_blobs cs) → cs_phantoms cs = ∅ → Forall (servable q) rows →
  base.NoDup (map (λ x, b_uuid x.2) (p ++ rows)) →
  ∃ cs', process_loop (cs, n) (map (file_of q) rows) = Ret (cs', (n + zlen rows)%Z) ∧
    mirrors q (p ++ rows) (cs_blobs cs') ∧ cs_phantoms cs' = ∅ ∧ same_session cs cs'.
Proof.
  induction rows as [|x rows IH]; intros p cs n Hm Hph Hsv Hnd; cbn [map process_loop].
  { exists cs. rewrite app_nil_r. split; [by rewrite Z.add_0_r|]. by split_and!. }
  apply list.Forall_cons in Hsv as [Hx Hsv].
  destruct (mirror_step p (cs_blobs cs) x Hm Hx) as (c' & Hst & Hm').
  { rewrite map_app in Hnd. apply list.NoDup_app in Hnd as (_ & Hd & _). intros Hin. apply (Hd _ Hin). by left. }
  set (cs1 := with_phantoms (λ s, s ∖ {[ b_uuid x.2 ]}) (with_repo (on_repo (λ _, c') (cs_repo cs)) cs)).
  assert (process_card (cs, n) (file_of q x) = Ret (cs1, (n + 1)%Z)) as ->.
  { cbn. unfold handleFile. by rewrite Hst. }
  cbn [mbind outcome_bind]. destruct (IH (p ++ [x]) cs1 (n + 1)%Z) as (cs' & Hl & Hm2 & Hp2 & S); [done| |done| |].
  - unfold cs1. cbn. rewrite Hph. set_solver.
  - by rewrite <- app_assoc.
  - exists cs'. split; [rewrite Hl; f_equal; f_equal; unfold zlen; cbn; lia|].
    rewrite <- app_assoc in Hm2. split; [exact Hm2|]. split; [done|]. by destruct S as [? [? ?] ? ?].
Qed.

Lemma process_igots igots p : Forall is_igot igots → process_loop p igots = Ret p.
Proof.
  intros Hi. revert p. induction Hi as [|c l Hc _ IH]; intros p; [done|]. cbn [process_loop].
  destruct c; try done. destruct p. cbn. apply IH.
Qed.
End client.

(** ** The rounds *)

(** The batches that [n] artifacts take; there is always one. *)
Definition batches_of (n : nat) : nat := Nat.max 1 ((n + (DefaultCloneBatchSize - 1)) / DefaultCloneBatchSize).

Lemma batches_more n k : 1 ≤ k → k < batches_of n → DefaultCloneBatchSize * k < n.
Proof.
  unfold batches_of, DefaultCloneBatchSize. intros Hk H.
  assert (k < (n + (200 - 1)) / 200) as Hlt by lia.
  pose proof (Nat.Div0.mul_div_le (n + (200 - 1)) 200). nia.
Qed.

Lemma batches_done n : n ≤ DefaultCloneBatchSize * batches_of n.
Proof.
  unfold batches_of, DefaultCloneBatchSize.
  pose proof (Nat.mul_succ_div_gt (n + (200 - 1)) 200 ltac:(lia)). lia.
Qed.

Section rounds.
Context {codec : Zlib} {zlaws : ZlibLaws} {sha3 : Sha3} {sqlite : Sqlite} {sql : Sql} {floats : Floats}
  {json : Json} {locks : LockJson} {texts : ErrorText} {order : Unordered} {olaws : UnorderedLaws}.
Context (now : Z) (d : db) (pc sc : bytes) (host : hosts d pc sc).
Context (rnd : nat → bytes) (opts : CloneOpts) (anonymous : cp_User opts = []) (version : cp_Version opts = 0%Z).

#[local] Abbreviation B := DefaultCloneBatchSize.
#[local] Abbreviation q := (d_repo d).
#[local] Abbreviation rows := (artifacts d).
#[local] Abbreviation m := (max_rid (d_repo d)).

(** The rid from which to go on after [k] batches. *)
Definition resume (k : nat) : Z :=
  if bool_decide (B * k < length rows) then default 0%Z (fst <$> last (take (B * k) rows)) else 0%Z.

Lemma last_app_some {A} (l k : list A) : k ≠ [] → last (l ++ k) = last k.
Proof. intros Hk. destruct k as [|x k] using rev_ind; [done|]. by rewrite app_assoc, !last_snoc. Qed.

Lemma batch_after k a : clone_rows q a m = drop (B * k) rows →
  batch_cards d a m = map (file_of q) (take B (drop (B * k) rows)) ++ [CardCloneSeqNo (resume (S k))].
Proof.
  intros Ha. unfold batch_cards. cbv zeta. rewrite Ha, length_drop. f_equal. f_equal. f_equal.
  unfold resume. replace (B * S k) with (B * k + B) by lia.
  destruct (decide (B * k + B < length rows)) as [Hlt|Hge].
  - rewrite !bool_decide_true by lia. rewrite <- take_take_drop, last_app_some; [done|].
    intros He. apply (f_equal length) in He. rewrite length_take, length_drop in He.
    unfold DefaultCloneBatchSize in *. cbn [length] in He. lia.
  - by rewrite !bool_decide_false by lia.
Qed.

Lemma resume_rows k : 1 ≤ k → B * k < length rows → clone_rows q (resume k) m = drop (B * k) rows ∧ (0 < resume k)%Z.
Proof.
  intros Hk Hlt. unfold resume. rewrite bool_decide_true by done.
  destruct (last (take (B * k) rows)) as [p|] eqn:E.
  - cbn [fmap option_fmap option_map default]. split; [by apply clone_rows_next|].
    apply last_Some_elem_of, elem_of_take in E as (i & E & _). apply list_elem_of_lookup_2 in E.
    destruct p as [rid row]. apply clone_rows_elem in E as (_ & ? & _). cbn. lia.
  - apply last_None in E. apply (f_equal length) in E. rewrite length_take in E.
    unfold DefaultCloneBatchSize in *. cbn [length] in E. lia.
Qed.

Lemma batch_first : batch_cards d 0 m = map (file_of q) (take B rows) ++ [CardCloneSeqNo (resume 1)].
Proof. by rewrite (batch_after 0). Qed.

(** The session after [k] batches. *)
Record reached (k : nat) (w : db) (cs : cloneSession) : Prop := {
  re_server : like d w;
  re_mirrors : mirrors q (take (B * k) rows) (cs_blobs cs);
  re_phantoms : cs_phantoms cs = ∅;
  re_seqno : cs_seqno cs = resume k;
  re_codes : cs_projectCode cs = pc ∧ cs_serverCode cs = sc;
  re_cookie : cs_cookie cs = clone_cookie d
}.

Lemma no_gimmes cs : cs_phantoms cs = ∅ → map CardGimme (any_order (elements (cs_phantoms cs))) = [].
Proof.
  intros ->. rewrite elements_empty. assert (any_order (@nil bytes) = []) as ->; [|done].
  apply Permutation_nil. symmetry. apply any_order_perm.
Qed.

Lemma clone_cookie_nonempty : clone_cookie d ≠ [].
Proof. done. Qed.

Lemma build_next k rb w cs : 1 ≤ k → reached k w cs → (0 < resume k)%Z →
  buildRequest rb opts cs k = Ret (next_request d (resume k)).
Proof.
  intros Hk [_ _ Hp Hs [Hpc Hsc] Hc] Hpos. unfold buildRequest. cbv zeta.
  rewrite (no_gimmes cs Hp), Hs, Hc, version, anonymous.
  rewrite (bool_decide_false (clone_cookie d = [])) by apply clone_cookie_nonempty.
  destruct (Z.ltb_spec 0 (resume k)); [|lia]. destruct (Nat.ltb_spec 0 k); [|lia].
  rewrite (bool_decide_true (@nil byte = [])) by done. cbn [negb andb Z.leb].
  unfold next_request, clone_card. by destruct (resume k <=? 1)%Z.
Qed.

Lemma build_final k rb w cs : reached k w cs → resume k = 0%Z →
  buildRequest rb opts cs k = Ret (final_request d pc sc).
Proof.
  intros [_ _ Hp Hs [Hpc Hsc] Hc] Hz. unfold buildRequest. cbv zeta.
  rewrite (no_gimmes cs Hp), Hs, Hz, Hc, anonymous, Hpc, Hsc.
  rewrite (bool_decide_false (clone_cookie d = [])) by apply clone_cookie_nonempty.
  destruct (ho_project _ _ _ host) as [_ Hn1], (ho_server _ _ _ host) as [_ Hn2].
  rewrite !(bool_decide_false (pc = [])), (bool_decide_false (sc = [])) by done.
  rewrite (bool_decide_true (@nil byte = [])) by done. rewrite andb_false_r. reflexivity.
Qed.

Lemma rows_unique : base.NoDup (map (λ x : Z * blobRow, b_uuid x.2) rows).
Proof.
  pose proof (sorted_nodup _ (clone_rows_sorted q 0 m)) as Hnd.
  assert (∀ x, x ∈ rows → t_blob q !! x.1 = Some x.2) as Hin.
  { intros [rid row] Hx. by apply clone_rows_elem in Hx as (? & _). }
  unfold artifacts in *. revert Hin. induction Hnd as [|x l Hx Hnd IH]; intros Hin; cbn; constructor.
  - intros (y & Hu & Hy)%list_elem_of_fmap. apply Hx.
    assert (x.1 = y.1) as Hr.
    { apply (ok_uuid _ (ho_ok _ _ _ host) x.1 y.1 x.2 y.2); [apply Hin; by left|apply Hin; by right|done]. }
    assert (x = y) as ->; [|done]. pose proof (Hin x ltac:(by left)) as H1. pose proof (Hin y ltac:(by right)) as H2.
    destruct x, y. cbn in *. subst. congruence.
  - apply IH. intros y Hy. apply Hin. by right.
Qed.

Lemma rows_take_unique n j : base.NoDup (map (λ x : Z * blobRow, b_uuid x.2) (take n rows ++ take j (drop n rows))).
Proof.
  rewrite take_take_drop. pose proof rows_unique as H. rewrite <- (take_drop (n + j) rows) in H.
  rewrite map_app in H. by apply list.NoDup_app in H as (? & _).
Qed.

(** Storing the batch after the [k]th. *)
Lemma receive_batch k cs c0 :
  mirrors q (take (B * k) rows) (cs_blobs cs) → cs_phantoms cs = ∅ →
  ∃ cs', process_loop (cs, c0) (map (file_of q) (take B (drop (B * k) rows)) ++ [CardCloneSeqNo (resume (S k))])
         = Ret (with_seqno (resume (S k)) cs', (c0 + zlen (take B (drop (B * k) rows)))%Z) ∧
    mirrors q (take (B * S k) rows) (cs_blobs cs') ∧ cs_phantoms cs' = ∅ ∧ same_session cs cs'.
Proof.
  intros Hm Hp. destruct (process_files q (take B (drop (B * k) rows)) (take (B * k) rows) cs c0)
    as (cs' & Hl & Hm' & Hp' & Hs); [done|done| |apply rows_take_unique|].
  { apply Forall_forall. intros x (i & Hx & _)%elem_of_take. rewrite lookup_drop in Hx.
    apply list_elem_of_lookup_2 in Hx. apply (Forall_elem _ _ _ (artifacts_servable d pc sc host) Hx). }
  exists cs'. rewrite process_loop_app, Hl. cbn [mbind outcome_bind process_loop process_card].
  split; [done|]. rewrite take_take_drop in Hm'. replace (B * S k) with (B * k + B) by lia. by split.
Qed.

Lemma batch_card_next k : 1 ≤ k → B * k < length rows →
  batch_cards d (resume k) m = map (file_of q) (take B (drop (B * k) rows)) ++ [CardCloneSeqNo (resume (S k))].
Proof. intros Hk Hlt. apply batch_after. by apply resume_rows. Qed.

Lemma learned cs : cs_projectCode cs = pc → cs_serverCode cs = sc → learn_codes cs (MkPush sc pc) = cs.
Proof.
  intros Hp Hs. unfold learn_codes. cbv zeta. cbn [pu_ProjectCode pu_ServerCode].
  destruct (ho_project _ _ _ host) as [_ Hn1], (ho_server _ _ _ host) as [_ Hn2].
  rewrite Hp, !(bool_decide_false (pc = [])) by done. cbn [negb andb].
  by rewrite Hs, !(bool_decide_false (sc = [])) by done.
Qed.

(** The first round. *)
Lemma round_first cs0 :
  repo_ok (cs_blobs cs0) → t_blob (cs_blobs cs0) = ∅ → t_tagxref (cs_blobs cs0) = ∅ → cs_phantoms cs0 = ∅ →
  cs_projectCode cs0 = [] → cs_serverCode cs0 = [] →
  ∃ w1 cs1 dn, serve now d (first_request) = Ret (w1, codes_card pc sc :: CardCookie (clone_cookie d) :: batch_cards d 0 m) ∧
    processResponse cs0 (codes_card pc sc :: CardCookie (clone_cookie d) :: batch_cards d 0 m) = Ret (cs1, dn) ∧
    reached 1 w1 cs1.
Proof.
  intros Hok He Htg Hph Hp Hs.
  assert (like d d) as Hl by (split; [done..|apply (ho_schema _ _ _ host)]).
  destruct (serve_first now d pc sc host d Hl) as (w1 & Hw1 & Hserve).
  set (cs1 := with_cookie (clone_cookie d) (learn_codes cs0 (MkPush sc pc))).
  destruct (ho_project _ _ _ host) as [_ Hn1], (ho_server _ _ _ host) as [_ Hn2].
  assert (cs_blobs cs1 = cs_blobs cs0 ∧ cs_phantoms cs1 = ∅ ∧ cs_projectCode cs1 = pc ∧ cs_serverCode cs1 = sc)
    as (E1 & E2 & E3 & E4).
  { unfold cs1, learn_codes. cbv zeta. cbn [pu_ProjectCode pu_ServerCode]. rewrite Hp.
    rewrite (bool_decide_false (pc = [])), (bool_decide_true (@nil byte = [])) by done. cbn [negb andb].
    cbn [cs_serverCode with_repo with_projectCode]. rewrite Hs.
    rewrite (bool_decide_false (sc = [])), (bool_decide_true (@nil byte = [])) by done. cbn [negb andb].
    by split_and!. }
  destruct (receive_batch 0 cs1 0) as (cs' & Hloop & Hm & Hp' & [S1 [S2 S3] S4 S5]).
  { rewrite Nat.mul_0_r, E1. cbn [take]. split; [done| | |by intros x ?%elem_of_nil| |].
    - intros r row. by rewrite He, lookup_empty.
    - intros r row. by rewrite He, lookup_empty.
    - intros k tx. by rewrite Htg, lookup_empty.
    - intros r row. by rewrite He, lookup_empty. }
  { done. }
  exists w1, (with_recvd (cs_BlobsRecvd cs' + (0 + zlen (take B (drop (B * 0) rows)))) (with_seqno (resume 1) cs')).
  eexists. split; [exact Hserve|]. split.
  - unfold processResponse. cbn [process_loop]. unfold codes_card. cbn [process_card mbind outcome_bind].
    fold cs1. rewrite batch_first. rewrite Nat.mul_0_r, drop_0 in *. rewrite Hloop.
    cbn [mbind outcome_bind]. reflexivity.
  - split; [done|exact Hm|exact Hp'|done| |].
    + cbn. by rewrite S2, S3.
    + cbn. rewrite S4. reflexivity.
Qed.

(** A round that brings another batch. *)
Lemma round_next k w cs : 1 ≤ k → B * k < length rows → reached k w cs →
  ∃ w' cs', serve now w (next_request d (resume k))
            = Ret (w', codes_card pc sc :: batch_cards d (resume k) m) ∧
    processResponse cs (codes_card pc sc :: batch_cards d (resume k) m) = Ret (cs', false) ∧
    reached (S k) w' cs'.
Proof.
  intros Hk Hlt [Hw Hm Hph Hseq [Hpc Hsc] Hck].
  destruct (serve_next now d pc sc host w (resume k) Hw) as (w' & Hw' & Hserve).
  { destruct (resume_rows k Hk Hlt) as [Hr Hpos].
    assert (rows ≠ []) as Hne by (intros E; rewrite E in Hlt; cbn in Hlt; lia).
    destruct rows as [|[rid row] l] eqn:E; [done|].
    assert ((rid, row) ∈ rows) as Hin by (rewrite E; by left). apply clone_rows_elem in Hin as (_ & ? & _). lia. }
  destruct (receive_batch k cs 0 Hm Hph) as (cs' & Hloop & Hm' & Hp' & [S1 [S2 S3] S4 S5]).
  assert (0 < zlen (take B (drop (B * k) rows)))%Z as Hpos.
  { unfold zlen. rewrite length_take, length_drop. unfold DefaultCloneBatchSize in *. lia. }
  exists w', (with_recvd (cs_BlobsRecvd cs' + (0 + zlen (take B (drop (B * k) rows)))) (with_seqno (resume (S k)) cs')).
  split; [exact Hserve|]. split.
  - unfold processResponse. cbn [process_loop]. unfold codes_card. cbn [process_card mbind outcome_bind].
    rewrite learned by done. rewrite batch_card_next by done. rewrite Hloop. cbn [mbind outcome_bind].
    by destruct (Z.eqb_spec (0 + zlen (take B (drop (B * k) rows))) 0); [lia|].
  - split; [done|exact Hm'|exact Hp'|done| |].
    + cbn. rewrite S2, S3. by split.
    + cbn. rewrite S4. exact Hck.
Qed.

(** What a clone that ended has reached. *)
Record cloned (cs : cloneSession) : Prop := {
  cl_mirrors : mirrors q rows (cs_blobs cs);
  cl_phantoms : cs_phantoms cs = ∅;
  cl_codes : cs_projectCode cs = pc ∧ cs_serverCode cs = sc;
  cl_rounds : cs_Rounds cs = Z.of_nat (S (batches_of (length rows)))
}.

Lemma run_from n : ∀ k w cs prev, n + k = MaxRounds → 1 ≤ k → k ≤ batches_of (length rows) → reached k w cs →
  (batches_of (length rows) < MaxRounds →
     ∃ w' cs', run_loop (serve now) rnd opts n w cs prev = Ret (w', cs') ∧ like d w' ∧ cloned cs') ∧
  (MaxRounds ≤ batches_of (length rows) → run_loop (serve now) rnd opts n w cs prev = Fail ERounds).
Proof.
  induction n as [|n IH]; intros k w cs prev Hnk Hk1 Hk Hre; [split; [lia|done]|].
  cbn [run_loop]. replace (MaxRounds - S n) with k by lia. pose proof Hre as [Hw Hm Hph Hseq [Hpc Hsc] Hck].
  destruct (decide (k < batches_of (length rows))) as [Hlt|Hge].
  - pose proof (batches_more _ _ Hk1 Hlt) as Hmore. destruct (resume_rows k Hk1 Hmore) as [_ Hpos].
    rewrite (build_next k _ w cs Hk1 Hre Hpos). cbn [mbind outcome_bind].
    destruct (round_next k w cs Hk1 Hmore Hre) as (w' & cs' & Hs & Hp & Hre').
    rewrite Hs. cbn [mbind outcome_bind]. rewrite Hp. cbn [mbind outcome_bind]. rewrite andb_false_r.
    apply (IH (S k)); [lia..|]. by destruct Hre'.
  - assert (k = batches_of (length rows)) as -> by lia.
    pose proof (batches_done (length rows)) as Hdone.
    assert (resume (batches_of (length rows)) = 0%Z) as Hz by (unfold resume; by rewrite bool_decide_false by lia).
    rewrite (build_final _ _ w cs Hre Hz). cbn [mbind outcome_bind].
    destruct (serve_final now d pc sc host w Hw) as (w' & igots & Hw' & Hig & ->). cbn [mbind outcome_bind].
    assert (processResponse cs igots = Ret (with_recvd (cs_BlobsRecvd cs + 0) cs, true)) as ->.
    { unfold processResponse. by rewrite process_igots. }
    cbn [mbind outcome_bind]. destruct (Nat.leb_spec 1 (batches_of (length rows))); [|lia]. cbn [andb].
    cbn [with_rounds with_recvd cs_seqno cs_phantoms]. rewrite Hseq, Hz, Hph, size_empty.
    cbn [Z.leb Z.eqb Z.of_nat Z.compare andb]. split; [|lia]. intros _. exists w'. eexists. split; [reflexivity|].
    split; [done|]. split; [|done|by split|cbn; lia].
    cbn. rewrite take_ge in Hm by lia. exact Hm.
Qed.

Lemma build_first rb cs : cs_cookie cs = [] → cs_seqno cs = 1%Z → cs_phantoms cs = ∅ →
  buildRequest rb opts cs 0 = Ret first_request.
Proof.
  intros Hc Hs Hp. unfold buildRequest. cbv zeta. rewrite (no_gimmes cs Hp), Hc, Hs, version. reflexivity.
Qed.

Lemma run_loop_first n w cs prev req w' resp cs' dn : MaxRounds - S n = 0 →
  buildRequest (rnd 0) opts cs 0 = Ret req → serve now w req = Ret (w', resp) →
  processResponse cs resp = Ret (cs', dn) →
  run_loop (serve now) rnd opts (S n) w cs prev = run_loop (serve now) rnd opts n w' (with_rounds 1 cs') prev.
Proof.
  intros Hn Hb Hs Hp. cbn [run_loop]. rewrite Hn, Hb. cbn [mbind outcome_bind]. rewrite Hs.
  cbn [mbind outcome_bind]. rewrite Hp. reflexivity.
Qed.

Lemma run_complete cs0 :
  repo_ok (cs_blobs cs0) → t_blob (cs_blobs cs0) = ∅ → t_tagxref (cs_blobs cs0) = ∅ → cs_phantoms cs0 = ∅ → cs_seqno cs0 = 1%Z →
  cs_projectCode cs0 = [] → cs_serverCode cs0 = [] → cs_cookie cs0 = [] →
  (batches_of (length rows) < MaxRounds →
     ∃ w' cs', run (serve now) rnd opts d cs0 = Ret (w', cs') ∧ like d w' ∧ cloned cs') ∧
  (MaxRounds ≤ batches_of (length rows) → run (serve now) rnd opts d cs0 = Fail ERounds).
Proof.
  intros Hok He Htg Hph Hseq Hp Hs Hc.
  destruct (round_first cs0) as (w1 & cs1 & dn & Hserve & Hpr & Hre); [done..|].
  pose proof (run_loop_first 99 d cs0 (-1) first_request w1 _ cs1 dn eq_refl
    (build_first _ _ Hc Hseq Hph) Hserve Hpr) as Hrun.
  change (S 99) with MaxRounds in Hrun. unfold run. rewrite Hrun. clear Hrun.
  apply (run_from 99 1); [done|done|unfold batches_of; lia|]. by destruct Hre.
Qed.
End rounds.

(** ** Properties *)

Lemma CreateWithEnv_new now r1 r2 : ∃ d, CreateWithEnv now r1 r2 (str "setup") [] = Ret d ∧ d_repo d = empty_repo.
Proof. eexists. split; reflexivity. Qed.

Lemma batches_bound n : batches_of n < MaxRounds ↔ (Z.of_nat n ≤ 19800)%Z.
Proof.
  unfold batches_of, DefaultCloneBatchSize, MaxRounds. split.
  - intros H. assert ((n + (200 - 1)) / 200 < 100) as Hd by lia.
    pose proof (Nat.mul_succ_div_gt (n + (200 - 1)) 200 ltac:(lia)). lia.
  - intros H. apply Nat.max_lub_lt; [lia|]. apply Nat.Div0.div_lt_upper_bound; lia.
Qed.

(** A clone of up to 19800 artifacts mirrors the server; with more it fails. *)
Lemma clone_artifacts_spec {codec : Zlib} {zlaws : ZlibLaws} {sha3 : Sha3} {sqlite : Sqlite} {sql : Sql}
    {floats : Floats} {json : Json} {locks : LockJson} {texts : ErrorText} {order : Unordered}
    {olaws : UnorderedLaws} now d pc sc rnd opts t r1 r2
    (Hhost : hosts d pc sc) (Huser : cp_User opts = []) (Hversion : cp_Version opts = 0%Z) :
  ((zlen (artifacts d) ≤ 19800)%Z →
   ∃ w cs, clone_artifacts (serve now) rnd opts t r1 r2 d = Ret (w, cs) ∧ like d w ∧ cloned d pc sc cs) ∧
  ((19800 < zlen (artifacts d))%Z → clone_artifacts (serve now) rnd opts t r1 r2 d = Fail ERounds).
Proof.
  unfold clone_artifacts. rewrite Huser. rewrite bool_decide_true by done. cbv zeta.
  destruct (CreateWithEnv_new t r1 r2) as (d0 & -> & Hd0). cbn [mbind outcome_bind].
  set (cs0 := MkClone_ _ _ _ _ _ _ _ _ _).
  assert (cs_blobs cs0 = empty_repo) as Hb by exact Hd0.
  destruct (run_complete now d pc sc Hhost rnd opts Huser Hversion cs0) as [Hfew Hmany]; try done.
  { rewrite Hb. apply empty_ok. }
  { by rewrite Hb. }
  { by rewrite Hb. }
  split.
  - intros Hn%batches_bound. by apply Hfew.
  - intros Hn. apply Hmany. destruct (decide (batches_of (length (artifacts d)) < MaxRounds)) as [H|]; [|lia].
    apply batches_bound in H. unfold zlen in Hn. lia.
Qed.

(** C13. A clone is complete. The server [hosts] a project: its repository is
    consistent, nobody needs a login to clone and pull, it has its codes,
    nothing private and no synchronised tables, and its artifacts are below 4
    GiB, have valid names, parse without a panic and, if clusters, list uuids of
    at least 40 characters. The client is anonymous and asks for the default
    protocol. With up to 19800 artifacts the client gets every artifact, each
    with the server's content, and no others, in one round for each two hundred
    and one more; the server's artifacts stay as they are. With more artifacts
    it always fails. *)
Theorem clone_complete {codec : Zlib} {zlaws : ZlibLaws} {sha3 : Sha3} {sqlite : Sqlite} {sql : Sql}
    {floats : Floats} {json : Json} {locks : LockJson} {texts : ErrorText} {order : Unordered}
    {olaws : UnorderedLaws} now d pc sc rnd opts t r1 r2
    (Hhost : hosts d pc sc) (Huser : cp_User opts = []) (Hversion : cp_Version opts = 0%Z) :
  ((zlen (artifacts d) ≤ 19800)%Z →
   ∃ w cs, clone_artifacts (serve now) rnd opts t r1 r2 d = Ret (w, cs) ∧ d_repo w = d_repo d ∧
     cs_projectCode cs = pc ∧ cs_Rounds cs = Z.of_nat (S (batches_of (length (artifacts d)))) ∧
     (∀ rid row, t_blob (d_repo d) !! rid = Some row → full (rid, row) →
        ∃ r c, rid_of_uuid (cs_blobs cs) (b_uuid row) = Some r ∧ Expand (d_repo d) rid = Ret c ∧
               Expand (cs_blobs cs) r = Ret c) ∧
     (∀ r row, t_blob (cs_blobs cs) !! r = Some row → b_size row ≠ (-1)%Z →
        is_Some (rid_of_uuid (d_repo d) (b_uuid row)))) ∧
  ((19800 < zlen (artifacts d))%Z → clone_artifacts (serve now) rnd opts t r1 r2 d = Fail ERounds).
Proof.
  destruct (clone_artifacts_spec now d pc sc rnd opts t r1 r2 Hhost Huser Hversion) as [Hfew Hmany].
  split; [|exact Hmany].
  - intros Hn. destruct (Hfew Hn) as (w & cs & Hr & Hw & [Hm Hp [Hpc _] Hrd]).
    exists w, cs. split; [done|]. split; [apply Hw|]. split; [done|]. split; [done|]. split.
    + intros rid row Hrow Hf. destruct (mi_has _ _ _ Hm (rid, row)) as (r & Hr' & He).
      { by apply (artifacts_elem d pc sc Hhost). }
      destruct (full_expands d pc sc Hhost rid row Hrow Hf) as [Hx _].
      exists r, (text_of (d_repo d) rid). split; [done|].
      split; apply Expand_expands; try done; by eapply expands_pos.
    + intros r row Hrow Hs. pose proof (mi_rows _ _ _ Hm r row Hrow Hs) as Hin.
      apply list_elem_of_fmap in Hin as ([rid row'] & -> & Hin). apply (artifacts_elem d pc sc Hhost) in Hin as [Hb' _].
      destruct (rid_of_uuid (d_repo d) (b_uuid row')) eqn:E; [done|].
      destruct (rid_of_uuid_None _ _ E rid row' Hb'). done.
Qed.

(** ** Witness *)

#[local] Existing Instance stored.
#[local] Existing Instance stored_laws.
#[local] Existing Instance test_sha3.
#[local] Existing Instance test_sqlite.
#[local] Existing Instance test_sql.
#[local] Existing Instance test_floats.
#[local] Existing Instance test_json.
#[local] Existing Instance test_lock_json.
#[local] Existing Instance test_error_text.
#[local] Existing Instance test_order.
#[local] Existing Instance test_order_laws.

Definition code_a : bytes := str "aaaaaaaaaaaaaaaaaaaaaaaaaaaaaaaaaaaaaaaa".
Definition code_b : bytes := str "bbbbbbbbbbbbbbbbbbbbbbbbbbbbbbbbbbbbbbbb".

(** A server with one artifact, and users with capabilities. *)
Definition clone_server (users : list (bytes * bytes)) : db :=
  MkDb repo_a
    (<[str "project-code" := MkConfigRow code_a None]> (<[str "server-code" := MkConfigRow code_b None]> ∅))
    (list_to_map (map (λ p, (p.1, MkUserRow 2 [] p.2 None None)) users)) None ∅ ∅ None ∅ no_links.

Lemma repo_a_servable rid row : t_blob repo_a !! rid = Some row →
  (zlen (text_of repo_a rid) < 2 ^ 32)%Z ∧ acceptable (text_of repo_a rid) ∧
  IsValidHash (E:=db_error) (b_uuid row) = Ret true.
Proof.
  assert (map_Forall (λ rid row, (zlen (text_of repo_a rid) < 2 ^ 32)%Z ∧
    match IsValidHash (E:=db_error) (b_uuid row) with Ret b => b | _ => false end = true ∧
    text_of repo_a rid = text_a) (t_blob repo_a)) as H by by_decide.
  intros Hrow. destruct (H rid row Hrow) as (H1 & H2 & H3). split; [exact H1|]. split.
  - rewrite H3. vm_compute. exact I.
  - revert H2. generalize (IsValidHash (E:=db_error) (b_uuid row)). by intros [[]| | |].
Qed.

Lemma repo_a_rids : (max_rid repo_a ≤ max_int64)%Z.
Proof. vm_compute. discriminate. Qed.

Lemma repo_a_private : t_private repo_a = ∅.
Proof. by_decide. Qed.

Lemma clone_server_hosts : hosts (clone_server [(nobody, str "go")]) code_a code_b.
Proof.
  split.
  - exact repo_a_ok.
  - exact repo_a_private.
  - exists (MkUserRow 2 [] (str "go") None None). split; [apply lookup_insert_eq|split; vm_compute; reflexivity].
  - split; [vm_compute; reflexivity|discriminate].
  - split; [vm_compute; reflexivity|discriminate].
  - reflexivity.
  - exact repo_a_rids.
  - assert (d_repo (clone_server [(nobody, str "go")]) = repo_a) as -> by reflexivity.
    intros rid row Hrow _. exact (repo_a_servable rid row Hrow).
Qed.

Definition anonymous_clone : CloneOpts := MkCloneOpts [] [] 0.

Lemma clone_server_repo users : d_repo (clone_server users) = repo_a.
Proof. reflexivity. Qed.

Lemma one_artifact : length (clone_rows repo_a 0 (max_rid repo_a)) = 1.
Proof. vm_compute. reflexivity. Qed.

Lemma one_batch users : batches_of (length (artifacts (clone_server users))) = 1.
Proof. unfold artifacts. by rewrite clone_server_repo, one_artifact. Qed.

Lemma few_artifacts users : (zlen (artifacts (clone_server users)) ≤ 19800)%Z.
Proof. unfold artifacts, zlen. rewrite clone_server_repo, one_artifact. lia. Qed.

Lemma row_a : ∃ row, t_blob repo_a !! 1%Z = Some row ∧ full (1%Z, row) ∧ b_uuid row = sha1_hex text_a.
Proof.
  exists (default (MkBlob [] 0 None 0) (t_blob repo_a !! 1%Z)).
  split; [vm_compute; reflexivity|]. split; [vm_compute; discriminate|vm_compute; reflexivity].
Qed.

Lemma expand_a : Expand repo_a 1 = Ret text_a.
Proof. vm_compute. reflexivity. Qed.

Lemma clone_complete_witness :
  ∃ w cs, clone_artifacts (serve 0) (λ _, []) anonymous_clone 0 [] [x00] (clone_server [(nobody, str "go")])
          = Ret (w, cs) ∧ cs_Rounds cs = 2%Z ∧
    ∃ r, rid_of_uuid (cs_blobs cs) (sha1_hex text_a) = Some r ∧ Expand (cs_blobs cs) r = Ret text_a.
Proof.
  destruct (clone_complete 0 (clone_server [(nobody, str "go")]) code_a code_b (λ _, []) anonymous_clone 0 [] [x00]
    clone_server_hosts eq_refl eq_refl) as [H _].
  destruct (H (few_artifacts _)) as (w & cs & Hr & _ & _ & Hrd & Hall & _). exists w, cs.
  rewrite one_batch in Hrd. split; [exact Hr|]. split; [exact Hrd|].
  destruct row_a as (row & Hb & Hf & Hu). rewrite clone_server_repo in Hall.
  destruct (Hall 1%Z row Hb Hf) as (r & c & H1 & H2 & H3). exists r. rewrite Hu in H1.
  rewrite expand_a in H2. injection H2 as <-. by split.
Defined.

(** A user who may clone cannot, unless everybody may: the first request carries
    no login card, and the error in its response ends the session. *)
Example clone_ignores_login :
  clone_artifacts (serve 0) (λ _, []) (MkCloneOpts (str "alice") [] 0) 0 [] [x00]
    (clone_server [(nobody, []); (str "alice", str "go")])
  = Fail (ERemote (denied (str "clone"))).
Proof. vm_compute. reflexivity. Qed.
