(* ===== verification/SyncLinked.v ===== *)
(** * Requests and clones that crosslink (src/internal/sync/handler.go, clone.go)

    The last step of a request that brought files, and of a clone, is
    [manifest.Crosslink].  This file composes the model of the protocol with the
    model of crosslinking: the server's tables only ever list check-ins that are
    complete, and a clone lists the check-ins of the server. *)
From S2P Require Import Prelude GoStrings Hash Zlib Deck Julian Quote Xfer Blob Content Db Uv Auth Receive Tag Crosslink Linked TableSync CkinLock Handler HandlerSafety Clone CloneComplete.
From stdpp Require Import list gmap sets.

Section sync.
Context {codec : Zlib} {sha3 : Sha3} {sqlite : Sqlite} {sql : Sql} {floats : Floats} {json : Json}
  {locks : LockJson} {texts : ErrorText} {order : Unordered} {unicode : Unicode}.

(** The whole of [handler.process]. *)
Definition process (now : Z) (h : handler) (cards : list Card) : handled handler :=
  h ← process_cards now h cards;
  if (0 <? h_filesRecvd h)%Z then
    match Crosslink (h_repo h) with
    | Ret (d, _) => Ret (set_repo d h)
    | Fail (d, _, e) => Fail (set_repo d h, e)
    | Panic => Panic
    | NoFuel => NoFuel
    end
  else Ret h.

(** The whole of [Clone], with the number of artifacts that were linked. *)
Definition Clone {W : Type} (exchange : W → list Card → outcome db_error (W * list Card)) (rnd : nat → bytes)
    (opts : CloneOpts) (now : Z) (rnd1 rnd2 : bytes) (w : W) : outcome db_error (W * cloneSession * Z) :=
  '(w, cs) ← clone_artifacts exchange rnd opts now rnd1 rnd2 w;
  '(d, linked) ← wrap_err snd (Crosslink (cs_repo cs));
  Ret (w, with_repo d cs, linked).
End sync.

(** ** The links of a repository that receives artifacts *)

Section receive.
Context {codec : Zlib} {sha3 : Sha3} {sqlite : Sqlite} {order : Unordered} {olaws : UnorderedLaws}
  {unicode : Unicode}.

(** Every check-in that is listed can be checked out. *)
Definition checkins_complete (d : db) : Prop := ∀ o, ci d o → ∃ dk, complete d o dk.

Lemma read_retains d d' o dk :
  retains (d_repo d) (d_repo d') → read_manifest d o = Ret dk → read_manifest d' o = Ret dk.
Proof.
  intros Hr. unfold read_manifest. intros H. apply bind_ret_inv in H as (c & Hc & H).
  apply wrap_err_ret in Hc. pose proof (Expand_positive _ _ _ Hc) as Hp.
  apply Expand_expands in Hc; [|done]. apply (rt_expands _ _ Hr) in Hc. apply Expand_expands in Hc; [|done].
  by rewrite Hc.
Qed.

Lemma blobPresent_retains d d' u :
  repo_ok (d_repo d') → retains (d_repo d) (d_repo d') → blobPresent d u = true → blobPresent d' u = true.
Proof.
  intros Hok Hr. unfold blobPresent. destruct (rid_of d u) as [r|] eqn:Hu; [|done]. cbn.
  unfold rid_of. rewrite (retains_rid (d_repo d) (d_repo d') u r Hok Hr Hu). cbn.
  destruct (t_blob (d_repo d) !! r) as [row|] eqn:Hrow; [|done].
  destruct (rt_rows _ _ Hr r row Hrow) as (row' & -> & _ & Hsz). intros Hs.
  rewrite Hsz; [done|]. apply Z.leb_le in Hs. lia.
Qed.

(** The references of a check-in that can be checked out. *)
Lemma complete_iff d o dk : complete d o dk ↔
  read_manifest d o = Ret dk ∧ d_Type dk = Checkin ∧
  ∀ u, u ∈ d_B dk :: map fc_UUID (d_F dk) → u ≠ [] → blobPresent d u = true.
Proof.
  unfold complete, missingCheckinRefs. rewrite missing_spec. split; intros (H1 & H2 & H3); split_and!; try done.
  - intros u Hu Hn. apply H3; [done|done|set_solver].
  - intros u Hu Hn _. by apply H3.
Qed.

Lemma complete_retains d d' o dk :
  repo_ok (d_repo d') → retains (d_repo d) (d_repo d') → complete d o dk → complete d' o dk.
Proof.
  rewrite !complete_iff. intros Hok Hr (H1 & H2 & H3). split_and!; [by eapply read_retains|done|].
  intros u Hu Hn. eapply blobPresent_retains; [done|done|]. by apply H3.
Qed.

Lemma ci_links d d' o : d_links d' = d_links d → ci d' o ↔ ci d o.
Proof. unfold ci, checkin_row. by intros ->. Qed.

(** Receiving artifacts preserves both. *)
Lemma links_received d d' :
  repo_ok (d_repo d) → retains (d_repo d) (d_repo d') → d_links d' = d_links d → links_ok d → links_ok d'.
Proof.
  intros Hok Hr Hl [L1 L2 L3 L4]. pose proof (λ o, ci_links d d' o Hl) as Hci. split.
  - intros o. rewrite Hl, Hci. apply L1.
  - intros m. rewrite Hl, Hci. apply L2.
  - intros p c. rewrite Hl. intros Hp. destruct (L3 p c Hp) as [(row & Hrow & Hs) Hc]. split.
    + destruct (rt_rows _ _ Hr c row Hrow) as (row' & Hrow' & _ & Hsz). exists row'. split; [done|].
      rewrite Hsz; [done|lia].
    + intros dk Hd Ht. rewrite Hci. eapply Hc; [|done].
      destruct (ok_content _ Hok c row Hrow) as (x & Hx & _); [lia|].
      pose proof (rt_expands _ _ Hr _ _ Hx) as Hx'. pose proof (expands_pos _ _ _ Hx) as Hpos.
      revert Hd. unfold read_manifest. apply Expand_expands in Hx, Hx'; [|done..]. by rewrite Hx, Hx'.
  - by rewrite Hl.
Qed.

Lemma complete_received d d' :
  repo_ok (d_repo d') → retains (d_repo d) (d_repo d') → d_links d' = d_links d →
  checkins_complete d → checkins_complete d'.
Proof.
  intros Hok Hr Hl H o Ho. apply (ci_links d d' o Hl) in Ho. destruct (H o Ho) as [dk Hd]. exists dk.
  by eapply complete_retains.
Qed.

(** Crosslinking only adds phantoms. *)
Lemma Crosslink_grows d :
  match Crosslink d with
  | Ret (d', _) | Fail (d', _, _) => repo_grows (d_repo d) (d_repo d')
  | _ => True
  end.
Proof.
  assert (∀ l d d', Linked.steps l d d' → repo_grows (d_repo d) (d_repo d')) as Hs.
  { induction 1 as [|rid l d0 d1 d2 H1 _ IH]; [done|]. etrans; [by eapply step_grows|done]. }
  unfold Crosslink. pose proof (sweep_steps (candidates d) d 0) as H.
  destruct (sweep _ _ _) as [[d' n]|[[d' n] e]| |]; try done.
  - by eapply Hs.
  - destruct H as (l1 & l2 & _ & H). by eapply Hs.
Qed.

(** And so does crosslinking, whether or not it succeeds. *)
Lemma Crosslink_keeps d : repo_ok (d_repo d) → links_ok d → checkins_complete d →
  match Crosslink d with
  | Ret (d', _) | Fail (d', _, _) =>
    repo_grows (d_repo d) (d_repo d') ∧ links_ok d' ∧ checkins_complete d'
  | _ => True
  end.
Proof.
  intros Hok Hl Hc. pose proof (Crosslink_established d Hok Hl) as H.
  assert (∀ l d', established l d d' → checkins_complete d') as Hcc.
  { intros l d' E o (x & Hx). pose proof (es_repo _ _ _ E) as Hg.
    assert (retains (d_repo d) (d_repo d')) as Hr by apply extends_retains, Hg.
    assert (repo_ok (d_repo d')) as Hok' by by apply Hg.
    apply (es_rows _ _ _ E) in Hx as [Hx|(_ & dk & Hd & _)].
    - destruct (Hc o) as [dk Hd]; [by exists x|]. exists dk. by eapply complete_retains.
    - exists dk. by eapply complete_retains. }
  destruct (Crosslink d) as [[d' n]|[[d' n] e]| |]; try done.
  - split_and!; [apply H|apply H|by eapply Hcc].
  - destruct H as (l1 & l2 & _ & E). split_and!; [apply E|apply E|by eapply Hcc].
Qed.
End receive.

(** A new repository has no links. *)
Lemma links_ok_new {codec : Zlib} {sha3 : Sha3} d : d_links d = no_links → links_ok d ∧ ∀ o, ¬ ci d o.
Proof.
  intros Hl. assert (∀ o, ¬ ci d o) as Hno.
  { intros o (x & [Hx _]). rewrite Hl in Hx. cbn in Hx. by rewrite lookup_empty in Hx. }
  split; [split|done].
  - intros o _. apply Hno.
  - rewrite Hl. intros m Hm. by apply not_elem_of_nil in Hm.
  - rewrite Hl. intros p c Hp. cbn in Hp. rewrite lookup_empty in Hp. by destruct Hp.
  - rewrite Hl. intros n1 n2 f Hf. cbn in Hf. by rewrite lookup_empty in Hf.
Qed.

(** ** What a clone does not touch *)

Section clone.
Context {codec : Zlib} {sha3 : Sha3} {order : Unordered}.

Lemma process_card_links cs n c cs' n' :
  process_card (cs, n) c = Ret (cs', n') → links_kept (cs_repo cs) (cs_repo cs').
Proof.
  assert (∀ cs uuid src payload cs', handleFile cs uuid src payload = Ret cs' →
    links_kept (cs_repo cs) (cs_repo cs')) as Hfile.
  { clear. intros cs uuid src payload cs'. unfold handleFile.
    destruct (storeReceivedFile _ _ _ _ _) as [[c q]|[c e]| |]; [by intros [= <-]| |done..].
    destruct e; try done. intros H. apply bind_ret_inv in H as ([q r] & _ & H).
    case_bool_decide; [by injection H as <-|]. apply bind_ret_inv in H as (f & _ & H).
    injection H as <-. by destruct f. }
  destruct c; cbn [process_card]; intros H; try (by injection H as <- <-); try done.
  1, 2: apply bind_ret_inv in H as (cs1 & H1 & H); injection H as <- <-; by eapply Hfile.
  injection H as <- <-. unfold learn_codes. cbv zeta.
  destruct (_ && _); cbn [cs_serverCode]; destruct (_ && _); done.
Qed.

Lemma process_loop_links cards cs n cs' n' :
  process_loop (cs, n) cards = Ret (cs', n') → links_kept (cs_repo cs) (cs_repo cs').
Proof.
  revert cs n. induction cards as [|c cards IH]; intros cs n; cbn [process_loop]; [by intros [= <- <-]|].
  intros H. apply bind_ret_inv in H as ([cs1 n1] & H1 & H). apply process_card_links in H1. etrans; [exact H1|eauto].
Qed.

Lemma run_loop_links {W} (exchange : W → list Card → outcome db_error (W * list Card)) rnd opts n : ∀ w cs prev w' cs',
  run_loop exchange rnd opts n w cs prev = Ret (w', cs') → links_kept (cs_repo cs) (cs_repo cs').
Proof.
  induction n as [|n IH]; intros w cs prev w' cs'; cbn [run_loop]; [done|].
  intros H. apply bind_ret_inv in H as (req & _ & H). apply bind_ret_inv in H as ([w1 resp] & _ & H).
  apply bind_ret_inv in H as ([cs1 done] & Hp & H). unfold processResponse in Hp.
  apply bind_ret_inv in Hp as ([cs2 f] & Hp & He). injection He as <- <-. apply process_loop_links in Hp.
  revert H. destruct (_ && _); [destruct (_ && _)%Z; [|destruct (_ && _)%Z]|].
  - by intros [= <- <-].
  - by intros [= <- <-].
  - intros H%IH. etrans; [exact Hp|exact H].
  - intros H%IH. etrans; [exact Hp|exact H].
Qed.

Lemma links_config f d : links_kept d (on_config f d).
Proof. done. Qed.
Lemma links_user f d : links_kept d (on_user f d).
Proof. done. Qed.

Lemma insert_configs_links now l d d' : insert_configs now d l = Ret d' → links_kept d d'.
Proof.
  revert d. induction l as [|nv l IH]; intros d; cbn [insert_configs]; [by intros [= <-]|].
  intros H. apply bind_ret_inv in H as (d1 & H1 & H). etrans; [|by apply IH]. revert H1. unfold insert_config.
  destruct (_ !! _); [done|]. intros [= <-]. apply links_config.
Qed.

Lemma CreateWithEnv_links now r1 r2 user pc d : CreateWithEnv now r1 r2 user pc = Ret d → links_kept CreateRepoSchema d.
Proof.
  unfold CreateWithEnv. generalize CreateRepoSchema. intros d0 H.
  apply bind_ret_inv in H as (d1 & H1 & H). apply bind_ret_inv in H as (d2 & H2 & H).
  unfold SeedConfig in H. apply bind_ret_inv in H as (codes & _ & H). apply insert_configs_links in H.
  etrans; [|exact H]. transitivity d1.
  - revert H1. unfold SeedUser. case_bool_decide; [done|]. destruct (_ || _); intros [= <-]; [done|apply links_user].
  - revert H2. unfold SeedNobody, insert_user. destruct (_ !! str "nobody"); intros [= <-]; [done|apply links_user].
Qed.

Lemma run_links {W} (exchange : W → list Card → outcome db_error (W * list Card)) rnd opts w cs w' cs' :
  run exchange rnd opts w cs = Ret (w', cs') → links_kept (cs_repo cs) (cs_repo cs').
Proof. unfold run. apply run_loop_links. Qed.

(** A clone ends with empty link tables. *)
Lemma clone_artifacts_links {W} (exchange : W → list Card → outcome db_error (W * list Card)) rnd opts now r1 r2 w w' cs :
  clone_artifacts exchange rnd opts now r1 r2 w = Ret (w', cs) → d_links (cs_repo cs) = no_links.
Proof.
  unfold clone_artifacts. cbv zeta. intros H. apply bind_ret_inv in H as (d & Hd & H).
  apply CreateWithEnv_links in Hd. apply run_links in H. cbn [cs_repo] in H.
  cut (links_kept CreateRepoSchema (cs_repo cs)); [by intros [-> _]|].
  etrans; [exact Hd|]. etrans; [|exact H]. apply links_config.
Qed.
End clone.

(** ** The check-ins of a clone *)

Section mirror.
Context {codec : Zlib} {zlaws : ZlibLaws} {sha3 : Sha3} {sqlite : Sqlite} {sql : Sql} {floats : Floats}
  {json : Json} {locks : LockJson} {texts : ErrorText} {order : Unordered} {olaws : UnorderedLaws}
  {unicode : Unicode}.
Context (d : db) (pc sc : bytes) (host : hosts d pc sc) (c : db) (Hm : mirrors (d_repo d) (artifacts d) (d_repo c)).

(** An artifact of the server, and the same artifact in the clone. *)
Lemma mirror_there rid row : t_blob (d_repo d) !! rid = Some row → full (rid, row) →
  ∃ r, rid_of c (b_uuid row) = Some r ∧ present c r ∧ read_manifest c r = read_manifest d rid.
Proof.
  intros Hrow Hf. destruct (full_expands d pc sc host rid row Hrow Hf) as [He _].
  destruct (mi_has _ _ _ Hm (rid, row)) as (r & Hr & Hx); [by apply (artifacts_elem d pc sc host)|].
  exists r. split; [done|]. split.
  - pose proof Hr as (row' & Hrow' & _)%rid_of_uuid_Some. exists row'. split; [done|].
    pose proof (mi_sizes _ _ _ Hm r row' Hrow') as Hs.
    assert (b_size row' ≠ (-1)%Z); [|lia]. intros Hz.
    assert (∀ x, Load (d_repo c) r ≠ Ret x) as Hno.
    { intros x. unfold Load. destruct (r <=? 0)%Z; [done|]. by rewrite Hrow', Hz. }
    inversion Hx; by eapply Hno.
  - unfold read_manifest. pose proof (expands_pos _ _ _ He). pose proof (expands_pos _ _ _ Hx).
    apply Expand_expands in He, Hx; [|done..]. by rewrite He, Hx.
Qed.

Lemma mirror_back r row : t_blob (d_repo c) !! r = Some row → (0 ≤ b_size row)%Z →
  ∃ rid row', t_blob (d_repo d) !! rid = Some row' ∧ full (rid, row') ∧ b_uuid row' = b_uuid row ∧
    rid_of c (b_uuid row') = Some r ∧ read_manifest c r = read_manifest d rid.
Proof.
  intros Hrow Hs. pose proof (mi_rows _ _ _ Hm r row Hrow ltac:(lia)) as Hin.
  apply list_elem_of_fmap in Hin as ([rid row'] & Hu & Hin). apply (artifacts_elem d pc sc host) in Hin as [Hb Hf].
  exists rid, row'. destruct (mirror_there rid row' Hb Hf) as (r' & Hr' & _ & Hrd).
  assert (r' = r) as ->; [|done].
  pose proof Hr' as (row2 & Hrow2 & Hu2)%rid_of_uuid_Some.
  eapply (ok_uuid _ (mi_ok _ _ _ Hm)); [done|done|]. by rewrite Hu2, Hu.
Qed.

Lemma present_full rid : present d rid ↔ ∃ row, t_blob (d_repo d) !! rid = Some row ∧ full (rid, row).
Proof. done. Qed.

Lemma mirror_present u : blobPresent c u = blobPresent d u.
Proof.
  apply eq_bool_prop_intro. unfold blobPresent. split.
  - destruct (rid_of c u) as [r|] eqn:Hu; [|done]. cbn. destruct (t_blob (d_repo c) !! r) as [row|] eqn:Hrow; [|done].
    intros Hs%Is_true_true%Z.leb_le. destruct (mirror_back r row Hrow Hs) as (rid & row' & Hb & Hf & Huu & _).
    apply rid_of_uuid_Some in Hu as (row2 & Hrow2 & Hu2). assert (row2 = row) as -> by congruence.
    assert (rid_of d u = Some rid) as ->.
    { unfold rid_of. destruct (rid_of_uuid (d_repo d) u) as [r2|] eqn:E.
      - apply rid_of_uuid_Some in E as (row3 & H3 & Hu3). f_equal.
        eapply (ok_uuid _ (ho_ok _ _ _ host)); [done|done|congruence].
      - destruct (rid_of_uuid_None _ _ E rid row' Hb). congruence. }
    cbn. rewrite Hb. unfold full in Hf. cbn in Hf. apply Is_true_true. by apply Z.leb_le.
  - destruct (rid_of d u) as [rid|] eqn:Hu; [|done]. cbn. destruct (t_blob (d_repo d) !! rid) as [row|] eqn:Hrow; [|done].
    intros Hs%Is_true_true%Z.leb_le. destruct (mirror_there rid row Hrow Hs) as (r & Hr & (row' & Hrow' & Hs') & _).
    apply rid_of_uuid_Some in Hu as (row2 & Hrow2 & Hu2). assert (row2 = row) as -> by congruence. subst u.
    rewrite Hr. cbn. rewrite Hrow'. apply Is_true_true. by apply Z.leb_le.
Qed.

Lemma mirror_complete r rid dk :
  read_manifest c r = read_manifest d rid → complete c r dk ↔ complete d rid dk.
Proof. intros Hr. rewrite !complete_iff, Hr. by setoid_rewrite mirror_present. Qed.

(** The check-ins of the server are candidates in the clone. *)
Lemma mirror_candidate r dk : d_links c = no_links → present c r →
  read_manifest c r = Ret dk → d_Type dk = Checkin → r ∈ candidates c.
Proof.
  intros Hl (row & Hrow & Hs) Hrd Ht. apply candidates_elem. exists row. split; [done|].
  unfold uncrosslinked. rewrite Hl. cbn. split_and!; try done.
  intros k tx Htx Hsrc. destruct (mi_tags _ _ _ Hm k tx Htx) as (x & dx & Hx & Hpx & Htx').
  rewrite Hsrc in Hx. pose proof (expands_pos _ _ _ Hx) as Hp. apply Expand_expands in Hx; [|done].
  revert Hrd. unfold read_manifest. rewrite Hx. unfold in_repo. cbn [wrap_err mbind outcome_bind]. rewrite Hpx.
  cbn [wrap_err]. intros [= <-]. congruence.
Qed.
End mirror.

(** ** Properties *)

(** A server lists only what can be checked out: whatever the request, if the
    check-ins in the tables are complete and the links consistent, this also
    holds when the request is done, be it with an answer or with an error, and
    all artifacts remain readable. *)
Theorem process_links {codec : Zlib} {zlaws : ZlibLaws} {sha3 : Sha3} {sqlite : Sqlite} {sql : Sql}
    {exec : SqlExecLaws} {floats : Floats} {json : Json} {locks : LockJson} {texts : ErrorText}
    {order : Unordered} {olaws : UnorderedLaws} {unicode : Unicode} now d cache cards h1
    (Hreg : registry_ok d) (Hok : repo_ok (d_repo d)) (Hcache : coherent cache (d_repo d))
    (Hlinks : links_ok d) (Hcomplete : checkins_complete d) (Hclean : Forall HandlerSafety.clean cards)
    (Hauth : authenticate now (new_handler d cache) cards = Ret h1) :
  leaves (λ h', small (h_blobs h') →
      repo_ok (h_blobs h') ∧ retains (d_repo d) (h_blobs h') ∧
      links_ok (h_repo h') ∧ checkins_complete (h_repo h'))
    (process now (new_handler d cache) cards).
Proof.
  destruct (authenticated_sound _ _ _ _ _ Hreg Hok Hcache Hauth) as [Hsd Hb].
  destruct (authenticate_ret _ _ _ _ _ Hreg Hauth) as (_ & Hd & _).
  pose proof (process_cards_good _ _ _ _ _ Hreg (λ _, Hclean) Hauth) as Hg.
  assert (∀ h', good h1 h' → small (h_blobs h') → repo_ok (h_blobs h') ∧ retains (d_repo d) (h_blobs h') ∧
    links_ok (h_repo h') ∧ checkins_complete (h_repo h')) as Hrecv.
  { intros h' G Hsm. destruct (gd_sound _ _ G Hsm Hsd) as (Hr & [S1 _ _] & _). rewrite Hb in Hr.
    destruct (gd_links _ _ G) as [Hl _]. rewrite Hd in Hl. split_and!; [done|done| |].
    - by eapply (links_received d).
    - by eapply (complete_received d). }
  unfold process. destruct (process_cards _ _ _) as [h|[h e]| |]; cbn [mbind outcome_bind leaves] in *; try done;
    [|exact (Hrecv _ Hg)].
  destruct (0 <? h_filesRecvd h)%Z; [|exact (Hrecv _ Hg)].
  assert (∀ d', repo_grows (h_blobs h) (d_repo d') ∧ links_ok d' ∧ checkins_complete d' →
    repo_ok (h_blobs h) → retains (d_repo d) (h_blobs h) → repo_ok (d_repo d') ∧ retains (d_repo d) (d_repo d') ∧
    links_ok d' ∧ checkins_complete d') as Hdone.
  { intros d' (Hgr & ? & ?) Hok' Hr. split_and!; [by apply Hgr| |done|done].
    etrans; [exact Hr|]. apply extends_retains, Hgr. }
  pose proof (Crosslink_keeps (h_repo h)) as Hx. pose proof (Crosslink_grows (h_repo h)) as Hgr.
  destruct (Crosslink (h_repo h)) as [[d' n]|[[d' n] e]| |]; cbn [leaves]; try done; intros Hsm;
    (destruct (Hrecv h Hg) as (R1 & R2 & R3 & R4); [|by apply Hdone; [apply Hx|..]]);
    (eapply small_kept; [|exact Hsm]); apply (rt_rows _ _ (extends_retains _ _ (rg_extends _ _ Hgr))).
Qed.

(** C14. A clone lists the server's check-ins. The server [hosts] a project (its
    repository is consistent, anybody may clone it, nothing is private, no
    tables are synchronised, and every artifact is below 4 GiB, has a valid
    name, parses without a panic and, if a cluster, lists uuids of at least 40
    characters), it has at most 19800 artifacts, and the client is anonymous and
    asks for the default protocol. If the manifests are also [clean] (a T card
    without a name panics every sweep, see the findings), the clone ends without
    a panic. When it succeeds, clean or not, its check-ins are exactly those of
    the artifacts of the server that are complete there, each with its event,
    with a row of [mlink] for every file of its manifest and a row of [plink]
    for every parent that the server has. *)
Theorem clone_links {codec : Zlib} {zlaws : ZlibLaws} {sha3 : Sha3} {sqlite : Sqlite} {sql : Sql}
    {floats : Floats} {json : Json} {locks : LockJson} {texts : ErrorText} {order : Unordered}
    {olaws : UnorderedLaws} {unicode : Unicode} now d pc sc rnd opts t r1 r2
    (Hhost : hosts d pc sc) (Huser : cp_User opts = []) (Hversion : cp_Version opts = 0%Z)
    (Hfew : (zlen (artifacts d) ≤ 19800)%Z) :
  ((∀ rid, present d rid → safe (read_manifest d rid) ∧ ∀ dk, read_manifest d rid = Ret dk → Linked.clean dk) →
   safe (Clone (serve now) rnd opts t r1 r2 d)) ∧
  ∀ w cs n, Clone (serve now) rnd opts t r1 r2 d = Ret (w, cs, n) →
    links_ok (cs_repo cs) ∧
    (∀ r, ci (cs_repo cs) r → ∃ rid row dk, t_blob (d_repo d) !! rid = Some row ∧ complete d rid dk ∧
       rid_of (cs_repo cs) (b_uuid row) = Some r) ∧
    ∀ rid row dk, t_blob (d_repo d) !! rid = Some row → (0 ≤ b_size row)%Z → complete d rid dk →
      ∃ r, rid_of (cs_repo cs) (b_uuid row) = Some r ∧
        checkin_row (cs_repo cs) r (uncoloured (checkin_event dk)) ∧
        Forall2 (file_row (cs_repo cs) r) (filter (λ f, fc_UUID f ≠ []) (d_F dk)) (mlinks_of (cs_repo cs) r) ∧
        ∀ u, u ∈ d_P dk → blobPresent d u = true →
          ∃ p, rid_of (cs_repo cs) u = Some p ∧ is_Some (k_plink (d_links (cs_repo cs)) !! (p, r)).
Proof.
  destruct (clone_artifacts_spec now d pc sc rnd opts t r1 r2 Hhost Huser Hversion) as [Hend _].
  destruct (Hend Hfew) as (w0 & cs0 & Hr0 & _ & [Hm _ _ _]). clear Hend.
  pose proof (clone_artifacts_links _ _ _ _ _ _ _ _ _ Hr0) as Hno.
  destruct (links_ok_new (cs_repo cs0) Hno) as [Hl Hnone]. pose proof (mi_ok _ _ _ Hm) as Hok.
  change (cs_blobs cs0) with (d_repo (cs_repo cs0)) in *.
  unfold Clone. rewrite Hr0. cbn [mbind outcome_bind]. split.
  - intros Hall. cut (safe (Crosslink (cs_repo cs0))).
    { unfold wrap_err. by destruct (Crosslink (cs_repo cs0)) as [[? ?]|[[? ?] ?]| |]. }
    apply Crosslink_clean_safe; [done|]. intros rid (row & Hrow & Hs).
    destruct (mirror_back d pc sc Hhost (cs_repo cs0) Hm rid row Hrow Hs) as (rid' & row' & Hb & Hf & _ & _ & ->).
    apply Hall. by exists row'.
  - intros w cs n Hx. apply bind_ret_inv in Hx as ([d' k] & Hx & Hx'). injection Hx' as <- <- <-.
    apply wrap_err_ret in Hx. pose proof (Crosslink_established (cs_repo cs0) Hok Hl) as H. rewrite Hx in H.
    cbn [with_repo cs_repo]. split; [apply H|].
    pose proof (rid_of_grows (cs_repo cs0) d' Hok (es_repo _ _ _ H)) as Hrid. split.
    + intros r (x & Hrow). apply (es_rows _ _ _ H) in Hrow as [Hrow|(Hc & dk & Hd & _)]; [destruct (Hnone r); by exists x|].
      destruct (Forall_elem _ _ _ (candidates_fresh (cs_repo cs0)) Hc) as [(row & Hb & Hs) _].
      destruct (mirror_back d pc sc Hhost (cs_repo cs0) Hm r row Hb Hs) as (rid & row' & Hb' & _ & _ & Hrr & Hrd).
      exists rid, row', dk. split; [done|]. split; [|by apply Hrid].
      by apply (mirror_complete d pc sc Hhost (cs_repo cs0) Hm r).
    + intros rid row dk Hb Hs Hd.
      destruct (mirror_there d pc sc Hhost (cs_repo cs0) Hm rid row Hb Hs) as (r & Hrr & Hp & Hrd).
      apply (mirror_complete d pc sc Hhost (cs_repo cs0) Hm r rid dk Hrd) in Hd.
      assert (r ∈ candidates (cs_repo cs0)) as Hc.
      { destruct Hd as (? & ? & _). by eapply (mirror_candidate d (cs_repo cs0) Hm r dk). }
      exists r. split; [by apply Hrid|]. split; [apply (es_rows _ _ _ H); right; split; [done|by exists dk]|].
      split; [by apply (es_files _ _ _ H)|]. intros u Hu Hpu.
      rewrite <- (mirror_present d pc sc Hhost (cs_repo cs0) Hm) in Hpu. unfold blobPresent in Hpu.
      destruct (rid_of (cs_repo cs0) u) as [p|] eqn:Hup; [|done]. exists p. split; [by apply Hrid|].
      by apply (pl_complete _ _ _ _ (es_parents _ _ _ H r dk Hc Hd) u).
Qed.

(** ** Witnesses *)

#[local] Existing Instance stored.
#[local] Existing Instance stored_laws.
#[local] Existing Instance test_sha3.
#[local] Existing Instance test_sqlite.
#[local] Existing Instance test_sql.
#[local] Existing Instance test_sql_exec.
#[local] Existing Instance test_floats.
#[local] Existing Instance test_json.
#[local] Existing Instance test_lock_json.
#[local] Existing Instance test_error_text.
#[local] Existing Instance test_order.
#[local] Existing Instance test_order_laws.
#[local] Existing Instance test_unicode.

(** The manifest of a check-in is pushed to a server that has its file. *)
Definition manifest_a : bytes := Marshal first_checkin.
Definition pushes_manifest : list Card :=
  [push_card; CardFile (MkFile (sha1_hex manifest_a) [] (Some manifest_a))].

Lemma server_links caps private : links_ok (server caps private) ∧ checkins_complete (server caps private).
Proof.
  destruct (links_ok_new (server caps private) eq_refl) as [Hl Hno]. split; [exact Hl|].
  intros o Ho. destruct (Hno o Ho).
Qed.

Lemma process_links_witness :
  leaves (λ h', small (h_blobs h') →
      repo_ok (h_blobs h') ∧ retains (d_repo (server (str "io") ∅)) (h_blobs h') ∧
      links_ok (h_repo h') ∧ checkins_complete (h_repo h'))
    (process 0 (new_handler (server (str "io") ∅) None) pushes_manifest) ∧
  match process 0 (new_handler (server (str "io") ∅) None) pushes_manifest with
  | Ret h => map fst (map_to_list (k_event (d_links (h_repo h)))) = [2]%Z
  | _ => False
  end.
Proof.
  assert (authenticate 0 (new_handler (server (str "io") ∅) None) pushes_manifest
          = Ret (asked (str "io") ∅ pushes_manifest)) as Ha by (apply asked_ret; vm_compute; reflexivity).
  assert (Forall HandlerSafety.clean pushes_manifest) as Hcl by by repeat constructor.
  split; [|vm_compute; reflexivity].
  exact (process_links 0 (server (str "io") ∅) None pushes_manifest _ (server_registry _ _)
    (server_ok _ _) (coherent_none _) (proj1 (server_links _ _)) (proj2 (server_links _ _)) Hcl Ha).
Defined.

(** A server with a check-in and its file. *)
Definition history_server : db := on_repo (λ _, d_repo history) (clone_server [(nobody, str "go")]).

Lemma history_servable : map_Forall (λ rid row,
    (zlen (text_of (d_repo history) rid) < 2 ^ 32)%Z ∧
    match IsValidHash (E:=db_error) (b_uuid row) with Ret b => b | _ => false end = true ∧
    match Parse (Some (text_of (d_repo history) rid)) with
    | Ret dk => negb (bool_decide (d_Type dk = Cluster)) | Fail _ => true | _ => false end = true)
  (t_blob (d_repo history)).
Proof. by_decide. Qed.

Lemma history_server_repo : d_repo history_server = d_repo history.
Proof. reflexivity. Qed.

Lemma history_server_hosts : hosts history_server code_a code_b.
Proof.
  split.
  - exact history_ok.
  - by_decide.
  - exists (MkUserRow 2 [] (str "go") None None). split; [apply lookup_insert_eq|split; vm_compute; reflexivity].
  - split; [vm_compute; reflexivity|discriminate].
  - split; [vm_compute; reflexivity|discriminate].
  - reflexivity.
  - vm_compute. discriminate.
  - rewrite history_server_repo. intros rid row Hrow _.
    destruct (history_servable rid row Hrow) as (H1 & H2 & H3). split; [exact H1|]. split.
    + revert H3. unfold acceptable. clear.
      destruct (Parse (Some (text_of (d_repo history) rid))) as [dk|e| |]; [|exact (λ _, I)|discriminate..].
      rewrite negb_true_iff, bool_decide_eq_false. intros H1 H2. destruct (H1 H2).
    + revert H2. clear. generalize (IsValidHash (E:=db_error) (b_uuid row)). by intros [[]| | |].
Qed.

Lemma history_few : (zlen (artifacts history_server) ≤ 19800)%Z.
Proof. vm_compute. discriminate. Qed.

Lemma history_row : ∃ row, t_blob (d_repo history_server) !! 2%Z = Some row ∧ (0 ≤ b_size row)%Z.
Proof.
  exists (default (MkBlob [] 0 None 0) (t_blob (d_repo history_server) !! 2%Z)).
  split; [vm_compute; reflexivity|vm_compute; discriminate].
Qed.

Lemma history_server_complete dk : complete history 2 dk → complete history_server 2 dk.
Proof. apply complete_retains; rewrite history_server_repo; [exact history_ok|reflexivity]. Qed.

Lemma history_clone_ret : Linked.returned (Clone (serve 0) (λ _, []) anonymous_clone 0 [] [x00] history_server) = true.
Proof. vm_compute. reflexivity. Qed.

Lemma clone_links_witness : ∃ w cs n dk r,
  Clone (serve 0) (λ _, []) anonymous_clone 0 [] [x00] history_server = Ret (w, cs, n) ∧
  complete history_server 2 dk ∧ checkin_row (cs_repo cs) r (uncoloured (checkin_event dk)).
Proof.
  destruct (clone_links 0 history_server code_a code_b (λ _, []) anonymous_clone 0 [] [x00]
    history_server_hosts eq_refl eq_refl history_few) as [_ H].
  pose proof history_clone_ret as Hret.
  destruct (Clone (serve 0) (λ _, []) anonymous_clone 0 [] [x00] history_server) as [[[w cs] n]|e| |];
    [|discriminate Hret..].
  destruct (H w cs n eq_refl) as (_ & _ & Hall). destruct history_complete as (dk & Hd & _).
  destruct history_row as (row & Hrow & Hs). apply history_server_complete in Hd.
  destruct (Hall 2%Z row dk Hrow Hs Hd) as (r & _ & Hr & _).
  exists w, cs, n, dk, r. exact (conj eq_refl (conj Hd Hr)).
Defined.
