(* ===== verification/CheckinLinked.v ===== *)
(** * What a check-in establishes

    [Checkin] writes the tables itself that crosslinking would write had the
    manifest been received.  This file relates the two: after a check-in the
    repository satisfies the invariants of [Linked], the new check-in can be read
    back from its manifest, and its tables are those of its manifest. *)
From S2P Require Import Prelude GoStrings Hash Zlib Deck Julian Quote Blob Content Db Receive Tag Crosslink Linked Checkin Handler HandlerSafety Clone CloneComplete SyncLinked.
From stdpp Require Import list gmap sets.

(** ** Storing *)

Section storing.
Context {codec : Zlib} {sha3 : Sha3}.

Lemma rid_of_row q rid row :
  repo_ok q → t_blob q !! rid = Some row → rid_of_uuid q (b_uuid row) = Some rid.
Proof.
  intros Hok Hr. destruct (rid_of_uuid q (b_uuid row)) as [r|] eqn:E.
  - apply rid_of_uuid_Some in E as (row' & Hr' & Hu). f_equal. by eapply (ok_uuid _ Hok).
  - by destruct (rid_of_uuid_None _ _ E rid row Hr).
Qed.

(** Phantoms have size -1. *)
Definition sizes_ok (q : repo) : Prop := ∀ rid row, t_blob q !! rid = Some row → (-1 ≤ b_size row)%Z.

Record stored_as (q q' : repo) (content : bytes) (rid : Z) (uuid : bytes) : Prop := {
  st_uuid : uuid = sha1_hex content;
  st_rid : rid_of_uuid q' uuid = Some rid;
  st_extends : extends q q';
  st_ok : repo_ok q';
  st_sizes : sizes_ok q → sizes_ok q';
  st_known : ∀ u, u ≠ uuid → rid_of_uuid q u = None → rid_of_uuid q' u = None
}.

Lemma Store_stored q content q' rid uuid :
  repo_ok q → Store q content = Ret (q', rid, uuid) → stored_as q q' content rid uuid.
Proof.
  intros Hok H. pose proof (Store_ok _ _ _ _ _ Hok H) as Hok'. pose proof (Store_extends _ _ _ _ _ H) as Hext.
  unfold Store in H. destruct (length content =? 0); [done|]. rewrite sha1_hex_exists in H.
  cbn [mbind outcome_bind] in H. destruct (rid_of_uuid q (sha1_hex content)) as [r|] eqn:E.
  { injection H as <- <- <-. by split. }
  apply bind_ret_inv in H as (c & _ & H). apply bind_ret_inv in H as ([q1 rid1] & Hins & H).
  apply insert_blob_ret in Hins as (-> & Hn & Hr & Hu & Hnew). cbn [b_uuid] in *.
  apply bind_ret_inv in H as (rb & HL & H). case_bool_decide as Hh; [|done]. injection H as <- <- <-.
  set (q' := with_unclustered _ _) in *.
  assert (t_blob q' = <[rid1 := MkBlob (sha1_hex content) (zlen content) (Some c) 1]> (t_blob q)) as Hb by done.
  split; [done| |done|done| |].
  - apply (rid_of_row q' rid1 (MkBlob (sha1_hex content) (zlen content) (Some c) 1)); [done|]. rewrite Hb.
    apply lookup_insert_eq.
  - intros Hs r row. rewrite Hb. intros [[<- <-]|[_ Hr2]]%lookup_insert_Some; [|by eapply Hs].
    cbn. pose proof (zlen_nonneg content). lia.
  - intros u Hu2 Hnone. destruct (rid_of_uuid q' u) as [r|] eqn:E2; [|done].
    apply rid_of_uuid_Some in E2 as (row & Hrow & <-). rewrite Hb in Hrow.
    apply lookup_insert_Some in Hrow as [[<- <-]|[_ Hrow]]; [done|].
    by destruct (rid_of_uuid_None _ _ Hnone r row Hrow).
Qed.

(** New content can be read back. *)
Lemma Store_fresh {zlaws : ZlibLaws} q content q' rid uuid :
  repo_ok q → Store q content = Ret (q', rid, uuid) → rid_of_uuid q uuid = None → small q' →
  expands q' rid content ∧ t_blob q !! rid = None ∧
  ∃ row, t_blob q' !! rid = Some row ∧ b_size row = zlen content.
Proof.
  intros Hok H Hn Hs. pose proof (st_uuid _ _ _ _ _ (Store_stored _ _ _ _ _ Hok H)) as ->.
  destruct (decide (content = [])) as [->|Hne]; [done|]. destruct (next_rid_fresh q) as [Hfresh Hpos].
  assert (∃ row, t_blob q' !! rid = Some row ∧ b_size row = zlen content) as Hrow.
  { clear Hs. unfold Store in H. destruct (length content =? 0); [done|]. rewrite sha1_hex_exists in H.
    rewrite Hn in H. cbn [mbind outcome_bind] in H.
    apply bind_ret_inv in H as (c & _ & H). apply bind_ret_inv in H as ([q1 rid1] & Hins & H).
    apply insert_blob_ret in Hins as (-> & _). apply bind_ret_inv in H as (rb & HL & H).
    case_bool_decide; [|done]. injection H as <- <-. eexists. split; [apply lookup_insert_eq|done]. }
  destruct Hrow as (row & Hrow & Hsize). pose proof (Hs rid row Hrow) as Hlt. rewrite Hsize in Hlt.
  destruct (Store_new q content Hne Hlt Hn) as (stored & _ & HS & HL). rewrite HS in H. injection H as <- <-.
  split; [|split; [done|by exists row]]. apply expands_plain; [|done]. by apply (fresh_no_delta q).
Qed.

Lemma rid_of_extends q q' u r : repo_ok q' → extends q q' → rid_of_uuid q u = Some r → rid_of_uuid q' u = Some r.
Proof. intros Hok He. apply retains_rid; [done|by apply extends_retains]. Qed.
End storing.

(** The card of a file in the manifest. *)
Definition card_of (f : File) : FileCard := MkFileCard (fl_Name f) (sha1_hex (fl_Content f)) (fl_Perm f) [].

Lemma sha1_hex_nonempty c : sha1_hex c ≠ [].
Proof. intros H. pose proof (length_sha1_hex c) as Hl. by rewrite H in Hl. Qed.

Section files.
Context {codec : Zlib} {sha3 : Sha3}.

(** Only artifacts are added. *)
Record added (d d' : db) : Prop := {
  ad_only : d' = on_repo (λ _, d_repo d') d;
  ad_extends : extends (d_repo d) (d_repo d');
  ad_ok : repo_ok (d_repo d');
  ad_sizes : sizes_ok (d_repo d) → sizes_ok (d_repo d')
}.

Lemma added_trans d1 d2 d3 : added d1 d2 → added d2 d3 → added d1 d3.
Proof.
  intros [A1 A2 A3 A4] [B1 B2 B3 B4]. split; [|by eapply extends_trans|done|by auto].
  rewrite B1. by rewrite A1.
Qed.

Lemma added_links d d' : added d d' → d_links d' = d_links d ∧ d_leaf d' = d_leaf d.
Proof. intros [-> _ _ _]. done. Qed.

Lemma added_retains d d' : added d d' → retains (d_repo d) (d_repo d').
Proof. intros H. apply extends_retains, H. Qed.

Lemma added_rid d d' u r : added d d' → rid_of d u = Some r → rid_of d' u = Some r.
Proof. intros H. apply rid_of_extends; apply H. Qed.

Lemma Store_added d content q rid uuid :
  repo_ok (d_repo d) → Store (d_repo d) content = Ret (q, rid, uuid) →
  added d (on_repo (λ _, q) d) ∧ stored_as (d_repo d) q content rid uuid.
Proof. intros Hok H. pose proof (Store_stored _ _ _ _ _ Hok H) as S. split; [|done]. by split; [|apply S..]. Qed.

Lemma storeFileBlobs_ret files : ∀ d d' fCards rids,
  repo_ok (d_repo d) → storeFileBlobs files d = Ret (d', fCards, rids) →
  added d d' ∧ fCards = map card_of files ∧
  (∀ f, f ∈ files → is_Some (rid_of d' (sha1_hex (fl_Content f)))) ∧
  (∀ u, (∀ f, f ∈ files → sha1_hex (fl_Content f) ≠ u) → rid_of d u = None → rid_of d' u = None).
Proof.
  induction files as [|f files IH]; intros d d' fCards rids Hok; cbn [storeFileBlobs].
  { intros [= <- <- <-]. split; [split; [by destruct d|apply extends_refl|done|done]|].
    split_and!; [done|by intros f ?%not_elem_of_nil|done]. }
  intros H. apply bind_ret_inv in H as ([[q rid] uuid] & HS & H). apply wrap_err_ret in HS.
  destruct (Store_added d _ _ _ _ Hok HS) as [A S].
  apply bind_ret_inv in H as ([[d2 cards] rs] & H2 & H). injection H as <- <- <-.
  apply IH in H2 as (A2 & -> & Hr & Hk); [|apply A].
  split; [by eapply added_trans|]. split; [by rewrite (st_uuid _ _ _ _ _ S)|]. split.
  - intros g [->|Hg]%elem_of_cons; [|by apply Hr]. exists rid. rewrite <- (st_uuid _ _ _ _ _ S).
    eapply added_rid; [exact A2|]. exact (st_rid _ _ _ _ _ S).
  - intros u Hu Hn. apply Hk; [intros g Hg; apply Hu; by right|].
    apply (st_known _ _ _ _ _ S); [|done]. rewrite (st_uuid _ _ _ _ _ S).
    intros ->. by apply (Hu f); [left|].
Qed.
End files.

(** ** The tables *)

Section tables.
Context {codec : Zlib} {sha3 : Sha3} {order : Unordered}.

Lemma insertMlinks_ret parent rid files : ∀ d d',
  (∀ f, f ∈ files → is_Some (rid_of d (sha1_hex (fl_Content f)))) →
  insertMlinks parent files rid d = Ret d' →
  ∃ N rows, d' = on_mlink (λ l, l ++ rows) (on_filename (λ _, N) d) ∧ k_filename (d_links d) ⊆ N ∧
    (names_unique (k_filename (d_links d)) → names_unique N) ∧
    Forall2 (file_row d' rid) (map card_of files) rows.
Proof.
  induction files as [|f files IH]; intros d d' Hin; cbn [insertMlinks].
  { intros [= <-]. exists (k_filename (d_links d)), []. split_and!; [|done|done|constructor].
    destruct d as [? ? ? ? ? ? ? ? []]. unfold on_mlink, on_filename, on_links. cbn. by rewrite app_nil_r. }
  intros H. apply bind_ret_inv in H as ([d1 fnid] & H1 & H).
  apply ensureFilename_ret in H1 as (N1 & -> & Hs1 & Hn1 & Hi1). cbv zeta in H.
  apply bind_ret_inv in H as (ex & Hex & H). apply wrap_err_ret in Hex.
  change (d_repo (on_filename (λ _, N1) d)) with (d_repo d) in Hex. rewrite sha1_hex_exists in Hex.
  injection Hex as <-. destruct (Hin f) as [fileRid Hf]; [by left|].
  change (rid_of_uuid (d_repo d) (sha1_hex (fl_Content f))) with (rid_of d (sha1_hex (fl_Content f))) in H.
  rewrite Hf in H. cbn [default] in H.
  match type of H with insertMlinks _ _ _ (on_mlink (λ l, l ++ [?m]) _) = _ => set (row := m) in * end.
  apply IH in H as (N & rows & -> & Hs & Hi & Hrows); [|intros g Hg; apply Hin; by right].
  exists N, (row :: rows).
  assert (∀ rows', on_mlink (λ l, l ++ rows') (on_filename (λ _, N)
            (on_mlink (λ l, l ++ [row]) (on_filename (λ _, N1) d)))
          = on_mlink (λ l, l ++ row :: rows') (on_filename (λ _, N) d)) as He.
  { intros rows'. unfold on_mlink, on_filename, on_links. cbn. by rewrite <- app_assoc. }
  rewrite He in Hrows |- *. split_and!; [done|by etrans|by auto|]. cbn [map]. constructor; [|exact Hrows].
  split_and!; [done|exact Hf|]. cbn. by eapply lookup_weaken.
Qed.

Lemma insert_parents_ret rid mtime ps : ∀ i d d', insert_parents i ps rid mtime d = Ret d' →
  ∃ X, d' = on_plink (λ _, X) d ∧ k_plink (d_links d) ⊆ X ∧
    (∀ p c, is_Some (X !! (p, c)) ↔ is_Some (k_plink (d_links d) !! (p, c)) ∨ (c = rid ∧ p ∈ ps)) ∧
    (∀ p v, X !! (p, rid) = Some v → k_plink (d_links d) !! (p, rid) = None →
       pk_isprim v = true ↔ i = 0 ∧ head ps = Some p).
Proof.
  induction ps as [|q ps IH]; intros i d d'; cbn [insert_parents].
  { intros [= <-]. exists (k_plink (d_links d)). split; [by destruct d as [? ? ? ? ? ? ? ? []]|].
    split_and!; [done| |congruence]. intros p c. rewrite elem_of_nil. tauto. }
  destruct (k_plink (d_links d) !! (q, rid)) eqn:Hq; [done|].
  intros H. apply IH in H as (X & -> & H1 & H2 & H3). cbn in H1, H2, H3. exists X. split; [done|].
  split_and!.
  - etrans; [by apply insert_subseteq|exact H1].
  - intros p c. rewrite H2, lookup_insert_is_Some, elem_of_cons. destruct (decide ((q, rid) = (p, c))) as [[= -> ->]|Hn].
    + split; intros _; [right; split; [done|by left]|by left; left].
    + split; [intros [[?|[_ ?]]|?]; [done|by left|naive_solver]|].
      intros [?|[-> [->|?]]]; [by left; right|congruence|naive_solver].
  - intros p v Hv Hn. destruct (decide (p = q)) as [->|Hpq].
    + assert (X !! (q, rid) = Some (MkPlinkVal (i =? 0) mtime None)) as E.
      { eapply lookup_weaken; [apply lookup_insert_eq|exact H1]. }
      rewrite Hv in E. injection E as ->. cbn. rewrite Nat.eqb_eq. naive_solver.
    + rewrite H3; [|done|by rewrite lookup_insert_ne by congruence]. cbn. naive_solver lia.
Qed.

(** *** Parents *)

Lemma uuid_at_rid d p u : repo_ok (d_repo d) → uuid_at d p = Some u ↔ rid_of d u = Some p.
Proof.
  intros Hok. unfold uuid_at. split.
  - intros (row & Hr & ->)%fmap_Some. by apply rid_of_row.
  - intros (row & Hr & <-)%rid_of_uuid_Some. by rewrite Hr.
Qed.
End tables.

Section parents.
Context {codec : Zlib} {sha3 : Sha3} {sqlite : Sqlite} {order : Unordered} {olaws : UnorderedLaws}.

Lemma merge_uuids_ret d parent merges P : repo_ok (d_repo d) → merge_uuids d parent merges = Ret P →
  ∀ p, (∃ u, u ∈ P ∧ rid_of d u = Some p) ↔ p ∈ merges ∧ (0 < p)%Z ∧ p ≠ parent.
Proof.
  intros Hok. revert P. induction merges as [|mp merges IH]; intros P; cbn [merge_uuids].
  { intros [= <-] p. setoid_rewrite elem_of_nil. naive_solver. }
  destruct ((mp <=? 0)%Z || (mp =? parent)%Z) eqn:Hc.
  - intros H p. rewrite (IH P H p), elem_of_cons. split; [naive_solver|]. intros ([->|Hp] & H1 & H2); [|done].
    apply orb_true_iff in Hc as [Hc%Z.leb_le|Hc%Z.eqb_eq]; [lia|done].
  - apply orb_false_iff in Hc as [H1%Z.leb_gt H2%Z.eqb_neq].
    destruct (uuid_at d mp) as [mpUUID|] eqn:Hu; [|done]. apply uuid_at_rid in Hu; [|done].
    intros H. apply bind_ret_inv in H as (rest & Hr & H). injection H as <-. intros p.
    setoid_rewrite elem_of_cons.
    specialize (IH rest Hr p). split.
    + intros (u & [->|Hin] & Hp); [assert (p = mp) as -> by congruence; auto|].
      destruct (proj1 IH) as (? & ?); [by exists u|]. auto.
    + intros ([->|Hp] & H3 & H4); [exists mpUUID; auto|].
      destruct (proj2 IH) as (u & ? & ?); [done|]. exists u. auto.
Qed.

Lemma merge_rids_elem merges : ∀ seen p, p ∈ merge_rids merges seen ↔ p ∈ merges ∧ (0 < p)%Z ∧ p ∉ seen.
Proof.
  induction merges as [|mp merges IH]; intros seen p; cbn [merge_rids]; [rewrite elem_of_nil; tauto|].
  destruct (Z.leb_spec mp 0); cbn [orb].
  { rewrite IH, elem_of_cons. split; [tauto|]. intros ([->|?] & ? & ?); [lia|done]. }
  case_bool_decide as Hs.
  - rewrite IH, elem_of_cons. split; [tauto|]. intros ([->|?] & ? & ?); done.
  - rewrite !elem_of_cons, IH. split; [|destruct (decide (p = mp)); set_solver].
    intros [->|(? & ? & ?)]; [auto|set_solver].
Qed.

(** The parents in the manifest are those in the tables. *)
Lemma parents_same d opts P : repo_ok (d_repo d) → parent_uuids d opts = Ret P →
  (∀ p, (∃ u, u ∈ P ∧ rid_of d u = Some p) ↔ p ∈ collectParents opts) ∧
  head P ≫= rid_of d = head (collectParents opts).
Proof.
  intros Hok. unfold parent_uuids, collectParents.
  destruct (Z.ltb_spec 0 (ck_Parent opts)) as [Hp|Hp]; cbn [negb].
  2: { intros [= <-]. destruct (Z.leb_spec (ck_Parent opts) 0); [|lia]. split; [|done].
    intros p. setoid_rewrite elem_of_nil. naive_solver. }
  destruct (Z.leb_spec (ck_Parent opts) 0); [lia|].
  destruct (uuid_at d (ck_Parent opts)) as [u0|] eqn:Hu; [|done]. apply uuid_at_rid in Hu; [|done].
  intros H1. apply bind_ret_inv in H1 as (rest & Hr & H1). injection H1 as <-. split; [|exact Hu].
  intros p. rewrite elem_of_cons, merge_rids_elem, not_elem_of_singleton, <- (merge_uuids_ret d _ _ rest Hok Hr p).
  setoid_rewrite elem_of_cons. split.
  - intros (u & [->|Hin] & Hpu); [left; congruence|]. destruct (decide (p = ck_Parent opts)); [by left|right].
    by exists u.
  - intros [->|(u & Hin & Hpu)]; [exists u0; auto|]. exists u. auto.
Qed.

(** *** The transaction *)

Lemma markLeafAndEvent_ret d opts rid d' : markLeafAndEvent d opts rid = Ret d' →
  ∃ X, k_plink (d_links d) ⊆ X ∧
    (∀ p c, is_Some (X !! (p, c)) ↔ is_Some (k_plink (d_links d) !! (p, c)) ∨ (c = rid ∧ p ∈ collectParents opts)) ∧
    (∀ p v, X !! (p, rid) = Some v → k_plink (d_links d) !! (p, rid) = None →
       pk_isprim v = true ↔ head (collectParents opts) = Some p) ∧
    k_event (d_links d) !! rid = None ∧
    d' = on_unsent (λ s, {[ rid ]} ∪ s) (on_leaf (λ s, ({[ rid ]} ∪ s) ∖ list_to_set (collectParents opts))
           (on_event <[rid := MkEvent (str "ci") (TimeToJulian (ck_Time opts)) None (ck_User opts) (ck_Comment opts) None]>
             (on_plink (λ _, X) d))).
Proof.
  unfold markLeafAndEvent. cbv zeta. intros H. apply bind_ret_inv in H as (d1 & H1 & H).
  apply insert_parents_ret in H1 as (X & -> & X1 & X2 & X3).
  change (k_event (d_links (on_plink (λ _, X) d))) with (k_event (d_links d)) in H.
  destruct (k_event (d_links d) !! rid) eqn:He; [done|]. injection H as <-.
  exists X. split_and!; try done. intros p v Hv Hn. rewrite (X3 p v Hv Hn). naive_solver.
Qed.

(** The manifest of the options. *)
Record describes (opts : CheckinOpts) (d : db) (dk : Deck) : Prop := {
  de_time : d_D dk = ck_Time opts;
  de_user : d_U dk = ck_User opts;
  de_comment : d_C dk = ck_Comment opts;
  de_parents : parent_uuids d opts = Ret (d_P dk)
}.

Lemma checkin_tables d1 d2 d3 opts rid dk F :
  repo_ok (d_repo d1) → describes opts d1 dk → (∀ u, is_Some (rid_of d1 u) → rid_of d2 u = rid_of d1 u) →
  (∀ u r, rid_of d2 u = Some r → u ∈ d_P dk → rid_of d1 u = Some r) →
  F = map card_of (ck_Files opts) →
  (∀ f, f ∈ ck_Files opts → is_Some (rid_of d2 (sha1_hex (fl_Content f)))) →
  (d' ← insertMlinks (ck_Parent opts) (ck_Files opts) rid d2; markLeafAndEvent d' opts rid) = Ret d3 →
  tables F rid dk d2 d3 ∧ k_event (d_links d2) !! rid = None.
Proof.
  intros Hok [D1 D2 D3 D4] Hr1 Hr2 -> Hin H. apply bind_ret_inv in H as (dm & Hm & H).
  apply insertMlinks_ret in Hm as (N & rows & -> & N1 & N2 & N3); [|done].
  apply markLeafAndEvent_ret in H as (X & X1 & X2 & X3 & X4 & ->).
  destruct (parents_same d1 opts (d_P dk) Hok D4) as [P1 P2].
  assert (∀ p, (∃ u, u ∈ d_P dk ∧ rid_of d2 u = Some p) ↔ p ∈ collectParents opts) as Hpar.
  { intros p. rewrite <- P1. split; intros (u & Hu & Hp); exists u; (split; [done|]); [by apply Hr2|].
    rewrite Hr1; [done|by eexists]. }
  assert (head (d_P dk) ≫= rid_of d2 = head (collectParents opts)) as Hhead.
  { rewrite <- P2. destruct (d_P dk) as [|u P] eqn:E; [done|]. cbn.
    destruct (rid_of d1 u) as [r|] eqn:E1; [by rewrite Hr1, E1 by (by eexists)|].
    destruct (rid_of d2 u) as [r|] eqn:E2; [|done]. apply Hr2 in E2; [congruence|by left]. }
  split; [|exact X4]. split; try done.
  - cbn. change (k_event (d_links d2) !! rid = None) in X4. unfold insert_new. rewrite X4.
    unfold checkin_event. by rewrite D1, D2, D3.
  - split; [done| |].
    + intros p c. cbn. rewrite X2, Hpar. done.
    + intros p v Hv Hn. rewrite (X3 p v Hv Hn), Hhead. naive_solver.
  - intros r. cbn. rewrite elem_of_difference, elem_of_union, elem_of_singleton, elem_of_list_to_set, Hpar. tauto.
  - exists rows. split; [done|]. rewrite (filter_all (file_listed d2)); [exact N3|].
    apply List.Forall_map, list.Forall_forall. intros f Hf. split; [apply sha1_hex_nonempty|by apply Hin].
Qed.
End parents.

(** ** The manifest *)

Section manifest.
Context {codec : Zlib} {zlaws : ZlibLaws} {sha3 : Sha3} {sqlite : Sqlite} {order : Unordered} {olaws : UnorderedLaws}.

(** The artifact can be read. *)
Definition readable (d : db) (uuid : bytes) : Prop := ∃ r c, rid_of d uuid = Some r ∧ expands (d_repo d) r c.

Lemma getContent_iff d uuid c : uuid ≠ [] →
  getContent d uuid = Ret c ↔ ∃ r, rid_of d uuid = Some r ∧ expands (d_repo d) r c.
Proof.
  intros Hn. unfold getContent, Blob.Exists. rewrite bool_decide_false by done. cbn.
  unfold rid_of. destruct (rid_of_uuid (d_repo d) uuid) as [r|]; [|by split; [|intros (? & ? & _)]].
  split.
  - intros H%wrap_err_ret. exists r. split; [done|]. pose proof (Expand_positive _ _ _ H). by apply Expand_expands in H.
  - intros (r' & [= <-] & He). pose proof (expands_pos _ _ _ He). apply Expand_expands in He; [|done].
    unfold in_repo. by rewrite He.
Qed.

Lemma readable_present d uuid : sizes_ok (d_repo d) → readable d uuid → blobPresent d uuid = true.
Proof.
  intros Hs (r & c & Hr & He). unfold blobPresent. rewrite Hr. cbn.
  pose proof Hr as (row & Hrow & _)%rid_of_uuid_Some. rewrite Hrow. apply Z.leb_le.
  assert (b_size row ≠ (-1)%Z); [|specialize (Hs r row Hrow); lia].
  intros Hz. assert (∀ x, Load (d_repo d) r ≠ Ret x) as Hno.
  { intros x. unfold Load. destruct (r <=? 0)%Z; [done|]. by rewrite Hrow, Hz. }
  inversion He; by eapply Hno.
Qed.

Lemma readable_added d d' uuid : added d d' → readable d uuid → readable d' uuid.
Proof.
  intros A (r & c & Hr & He). exists r, c. split; [by eapply added_rid|].
  by apply (rt_expands _ _ (added_retains _ _ A)).
Qed.

Lemma rcard_input_ret (get : bytes → out bytes) F x : rcard_input get F = Ret x →
  ∀ f, f ∈ F → fc_UUID f ≠ [] → ∃ c, get (fc_UUID f) = Ret c.
Proof.
  revert x. induction F as [|g F IH]; intros x; cbn [rcard_input]; [by intros _ f ?%not_elem_of_nil|].
  unfold is_nil. destruct (fc_UUID g) as [|b u] eqn:Eu.
  { intros H f [->|Hf]%elem_of_cons Hn; [done|by eapply IH]. }
  intros H f Hf Hn. apply bind_ret_inv in H as (c & Hc & H). apply bind_ret_inv in H as (rest & Hr & _).
  apply elem_of_cons in Hf as [->|Hf]; [rewrite Eu; by exists c|by eapply IH].
Qed.

Lemma ComputeR_readable d files r :
  ComputeR (getContent d) (set_F (map card_of files) deck_zero) = Ret r →
  ∀ f, f ∈ files → readable d (sha1_hex (fl_Content f)).
Proof.
  unfold ComputeR. destruct (is_nil _) eqn:Hnil.
  { intros _ f Hf. destruct files; [by apply not_elem_of_nil in Hf|done]. }
  intros H f Hf. apply bind_ret_inv in H as (x & Hx & _).
  destruct (rcard_input_ret _ _ _ Hx (card_of f)) as [c Hc]; [|apply sha1_hex_nonempty|].
  { rewrite sort_slice_perm. apply list_elem_of_fmap. by exists f. }
  apply getContent_iff in Hc as (rr & ? & ?); [|apply sha1_hex_nonempty]. by exists rr, c.
Qed.

Lemma read_deck_ret d uuid base : read_deck d uuid = Ret base →
  uuid ≠ [] ∧ ∃ r, rid_of d uuid = Some r ∧ read_manifest d r = Ret base.
Proof.
  unfold read_deck, Blob.Exists. case_bool_decide as Hu; [done|]. cbn. unfold rid_of.
  destruct (rid_of_uuid _ _) as [r|]; [|done]. intros H. split; [done|]. by exists r.
Qed.

Lemma read_deck_added d d' uuid base : added d d' → read_deck d uuid = Ret base → read_deck d' uuid = Ret base.
Proof.
  intros A (Hn & r & Hr & Hb)%read_deck_ret. apply (added_rid _ _ _ _ A) in Hr.
  unfold read_deck, Blob.Exists. rewrite bool_decide_false by done. cbn.
  change (rid_of_uuid (d_repo d') uuid) with (rid_of d' uuid). rewrite Hr.
  by eapply read_retains; [apply added_retains|].
Qed.

Lemma read_deck_readable d uuid base : read_deck d uuid = Ret base → readable d uuid.
Proof.
  intros (_ & r & Hr & Hb)%read_deck_ret. unfold read_manifest in Hb.
  apply bind_ret_inv in Hb as (c & Hc & _). apply wrap_err_ret in Hc. exists r, c. split; [done|].
  pose proof (Expand_positive _ _ _ Hc). by apply Expand_expands in Hc.
Qed.

(** The file cards of the manifest: all files, or what changed since a baseline. *)
Inductive files_listed (d : db) (fCards : list FileCard) (dk : Deck) : Prop :=
  | listed_all : d_B dk = [] → d_F dk = fCards → files_listed d fCards dk
  | listed_delta base : read_deck d (d_B dk) = Ret base →
      d_F dk = delta_cards (base_files (d_F base)) fCards → files_listed d fCards dk.

Record built (d : db) (opts : CheckinOpts) (fCards : list FileCard) (dk : Deck) : Prop := {
  bu_describes : describes opts d dk;
  bu_files : files_listed d fCards dk;
  bu_whole : ck_Delta opts = false → d_B dk = [] ∧ d_F dk = fCards;
  bu_readable : ∀ f, f ∈ ck_Files opts → fCards = map card_of (ck_Files opts) → readable d (sha1_hex (fl_Content f));
  bu_type : inferType dk = Deck.Checkin;
  bu_tags : d_T dk = checkin_tags opts
}.

Lemma buildCheckinDeck_ret d opts fCards dk : fCards ≠ [] →
  buildCheckinDeck d opts fCards = Ret dk → built d opts fCards dk.
Proof.
  intros Hne H. unfold buildCheckinDeck in H. apply bind_ret_inv in H as (P & HP & H).
  set (dk0 := set_T _ _) in H. apply bind_ret_inv in H as (dk1 & H1 & H).
  apply bind_ret_inv in H as (r & Hr & H). injection H as <-.
  assert (∃ B F, dk1 = set_F F (set_B B dk0) ∧
    ((B = [] ∧ F = fCards) ∨ ck_Delta opts = true ∧ ∃ base, read_deck d B = Ret base ∧ F = delta_cards (base_files (d_F base)) fCards))
    as (B & F & -> & HBF).
  { destruct (ck_Delta opts && _)%bool eqn:Hd.
    - unfold applyDelta in H1. apply bind_ret_inv in H1 as (pd & _ & H1). cbv zeta in H1.
      apply bind_ret_inv in H1 as (base & Hb & H1). injection H1 as <-. apply andb_true_iff in Hd as [Hd _].
      destruct (_ <? _).
      + eexists _, _. split; [reflexivity|]. right. split; [done|]. by exists base.
      + exists [], fCards. split; [done|by left].
    - injection H1 as <-. exists [], fCards. split; [done|by left]. }
  split; try done.
  - destruct HBF as [[-> ->]|(_ & base & Hb & ->)]; [by apply listed_all|by eapply listed_delta].
  - intros Hd. destruct HBF as [[-> ->]|(Hd' & _)]; [done|congruence].
  - intros f Hf ->. by eapply ComputeR_readable.
  - assert (r ≠ []) as Hrn.
    { unfold ComputeR in Hr. destruct (is_nil _); [by injection Hr as <-|].
      apply bind_ret_inv in Hr as (x & _ & Hr). injection Hr as <-. intros Hz.
      pose proof (f_equal length Hz) as Hl. revert Hl. rewrite length_hex_encode, length_md5. cbn. lia. }
    unfold inferType. cbn. destruct r; [done|]. by rewrite orb_true_r.
Qed.
End manifest.

(** ** The files of a check-in *)

Section listing.
Context {codec : Zlib} {zlaws : ZlibLaws} {sha3 : Sha3} {sqlite : Sqlite} {order : Unordered} {olaws : UnorderedLaws}.

(** What the files of a check-in are called and what they are. *)
Definition named (e : FileEntry) : bytes * bytes := (fe_Name e, fe_UUID e).
Definition file_named (f : File) : bytes * bytes := (fl_Name f, sha1_hex (fl_Content f)).

Lemma sort_entries_perm l k : NoDup (map fe_Name l) → l ≡ₚ k → sort_entries l = sort_entries k.
Proof. apply (sort_slice_perm_eq fe_Name). Qed.

Lemma entries_sorted F : NoDup (map fc_Name F) → fCardsToEntries (sort_slice file_less F) = fCardsToEntries F.
Proof.
  intros Hn. unfold fCardsToEntries. apply sort_entries_perm.
  - rewrite List.map_map. eapply NoDup_Permutation_proper; [|exact Hn]. apply Permutation_map, sort_slice_perm.
  - apply Permutation_map, sort_slice_perm.
Qed.

Definition agrees (m : gmap bytes bytes) (m' : gmap bytes FileEntry) : Prop :=
  ∀ n, m !! n = fe_UUID <$> m' !! n ∧ ∀ e, m' !! n = Some e → fe_Name e = n.

Lemma base_files_agree F : agrees (base_files F) (file_map F []).
Proof.
  unfold base_files, file_map. cbn [foldl].
  assert (∀ m m', agrees m m' → agrees (foldl (λ m f, <[fc_Name f := fc_UUID f]> m) m F)
    (foldl (λ m f, <[fc_Name f := entry_of f]> m) m' F)) as H; [|by apply H; intros n; rewrite !lookup_empty].
  induction F as [|f F IH]; intros m m' Hm; cbn [foldl]; [done|]. apply IH. intros n. specialize (Hm n) as [H1 H2].
  destruct (decide (fc_Name f = n)) as [<-|Hn]; [rewrite !lookup_insert_eq|by rewrite !lookup_insert_ne].
  split; [done|]. by intros e [= <-].
Qed.

Lemma file_map_cards base D : NoDup (map fc_Name D) →
  (∀ f, f ∈ D → file_map base D !! fc_Name f = if is_nil (fc_UUID f) then None else Some (entry_of f)) ∧
  ∀ n, n ∉ map fc_Name D → file_map base D !! n = file_map base [] !! n.
Proof.
  unfold file_map. cbn [foldl]. generalize (foldl (λ (m : gmap bytes FileEntry) f, <[fc_Name f := entry_of f]> m) ∅ base) as m0.
  induction D as [|g D IH]; intros m0 Hn; cbn [foldl map].
  { split; [by intros f ?%not_elem_of_nil|done]. }
  apply NoDup_cons in Hn as [Hg Hn].
  destruct (IH (if is_nil (fc_UUID g) then delete (fc_Name g) m0 else <[fc_Name g := entry_of g]> m0) Hn) as [H1 H2].
  split.
  - intros f [->|Hf]%elem_of_cons; [|by apply H1]. rewrite H2 by done.
    destruct (is_nil (fc_UUID g)); [apply lookup_delete_eq|apply lookup_insert_eq].
  - intros n [Hng Hnd]%not_elem_of_cons. rewrite H2 by done.
    destruct (is_nil (fc_UUID g)); [by rewrite lookup_delete_ne|by rewrite lookup_insert_ne].
Qed.

Lemma same_key {A} (key : A → bytes) l x y : NoDup (map key l) → x ∈ l → y ∈ l → key x = key y → x = y.
Proof.
  induction l as [|z l IH]; intros Hn; [by intros ?%not_elem_of_nil|]. apply NoDup_cons in Hn as [Hz Hn].
  intros [->|Hx]%elem_of_cons [->|Hy]%elem_of_cons He; [done| | |by apply IH].
  - destruct Hz. rewrite He. apply list_elem_of_fmap. by exists y.
  - destruct Hz. rewrite <- He. apply list_elem_of_fmap. by exists x.
Qed.

Lemma delta_cards_names m F : NoDup (map fc_Name F) → NoDup (map fc_Name (delta_cards m F)).
Proof.
  intros Hn. unfold delta_cards. rewrite map_app, List.map_map. cbn [fc_Name]. rewrite map_id. apply NoDup_app.
  split_and!.
  - eapply sublist_NoDup; [exact Hn|]. apply fmap_sublist, sublist_filter.
  - intros n Hin [Hnot _]%list_elem_of_filter. apply Hnot. apply list_elem_of_fmap in Hin as (f & -> & [_ Hf]%list_elem_of_filter).
    apply list_elem_of_fmap. by exists f.
  - apply NoDup_filter. rewrite any_order_perm. apply NoDup_fst_map_to_list.
Qed.

(** Reading a delta against its baseline gives the files back, by name and hash. *)
Lemma delta_lookup base F n : NoDup (map fc_Name F) → Forall (λ f, fc_UUID f ≠ []) F →
  named <$> file_map base (delta_cards (base_files base) F) !! n
  = (λ f, (fc_Name f, fc_UUID f)) <$> head (filter (λ f, fc_Name f = n) F).
Proof.
  intros Hn Hu. pose proof (base_files_agree base n) as [Hb Hbn].
  destruct (file_map_cards base _ (delta_cards_names (base_files base) F Hn)) as [H1 H2].
  destruct (head (filter (λ f, fc_Name f = n) F)) as [f|] eqn:Hf; cbn [fmap option_fmap option_map].
  - assert (f ∈ F ∧ fc_Name f = n) as [Hin <-].
    { assert (f ∈ filter (λ f, fc_Name f = n) F) as Hin by (destruct (filter _ F); [done|injection Hf as ->; by left]).
      by apply list_elem_of_filter in Hin as [? ?]. }
    assert (is_nil (fc_UUID f) = false) as Hnil.
    { pose proof (Forall_elem _ _ _ Hu Hin) as Hne. cbn in Hne. unfold is_nil. by destruct (fc_UUID f). }
    destruct (decide (base_files base !! fc_Name f = Some (fc_UUID f))) as [He|He].
    + rewrite H2.
      * rewrite Hb in He. destruct (file_map base [] !! fc_Name f) as [e|] eqn:Em; [|done]. cbn in He |- *.
        unfold named. rewrite (Hbn e eq_refl). congruence.
      * unfold delta_cards. rewrite map_app, List.map_map. cbn [fc_Name]. rewrite map_id, elem_of_app.
        intros [(g & Hg & [Hne Hgin]%list_elem_of_filter)%list_elem_of_fmap|[Hnot _]%list_elem_of_filter].
        { by assert (g = f) as -> by by apply (same_key fc_Name F). }
        apply Hnot, list_elem_of_fmap. by exists f.
    + rewrite (H1 f); [by rewrite Hnil|]. unfold delta_cards. apply elem_of_app. left. by apply list_elem_of_filter.
  - assert (∀ f, f ∈ F → fc_Name f ≠ n) as Hno.
    { intros f Hin He. assert (f ∈ filter (λ f, fc_Name f = n) F) as Hin2 by by apply list_elem_of_filter.
      destruct (filter _ F); [by apply not_elem_of_nil in Hin2|done]. }
    destruct (base_files base !! n) as [u|] eqn:Ebase.
    + pose proof (H1 (MkFileCard n [] [] [])) as H3. cbn in H3. rewrite H3; [done|]. unfold delta_cards. apply elem_of_app. right.
      apply list_elem_of_fmap. exists n. split; [done|]. apply list_elem_of_filter. split.
      * intros (f & Hf' & Hin)%list_elem_of_fmap. by apply (Hno f).
      * rewrite any_order_perm. apply list_elem_of_fmap. exists (n, u). split; [done|]. by apply elem_of_map_to_list.
    + rewrite H2.
      * rewrite Hb in Ebase. by destruct (file_map base [] !! n).
      * unfold delta_cards. rewrite map_app, List.map_map. cbn [fc_Name]. rewrite map_id, elem_of_app.
        intros [(g & Hg & [_ Hgin]%list_elem_of_filter)%list_elem_of_fmap|[_ Hin]%list_elem_of_filter].
        { by apply (Hno g). }
        rewrite any_order_perm in Hin. apply list_elem_of_fmap in Hin as ([n' u] & -> & Hin).
        apply elem_of_map_to_list in Hin. cbn in *. congruence.
Qed.

(** All of them. *)
Lemma delta_entries base F : NoDup (map fc_Name F) → Forall (λ f, fc_UUID f ≠ []) F →
  map named (map snd (map_to_list (file_map base (delta_cards (base_files base) F))))
  ≡ₚ map (λ f, (fc_Name f, fc_UUID f)) F.
Proof.
  intros Hn Hu. set (m := file_map _ _).
  assert (∀ n e, m !! n = Some e → fe_Name e = n ∧ (n, fe_UUID e) ∈ map (λ f, (fc_Name f, fc_UUID f)) F) as H1.
  { intros n e He. pose proof (delta_lookup base F n Hn Hu) as H. fold m in H. rewrite He in H. cbn in H.
    destruct (filter _ F) as [|f l] eqn:Ef; [done|]. cbn in H. injection H as Ha Hb.
    assert (f ∈ filter (λ f, fc_Name f = n) F) as [<- Hf]%list_elem_of_filter by (rewrite Ef; by left).
    split; [done|]. rewrite Hb. apply list_elem_of_fmap. by exists f. }
  assert (∀ f, f ∈ F → ∃ e, m !! fc_Name f = Some e ∧ named e = (fc_Name f, fc_UUID f)) as H2.
  { intros f Hf. pose proof (delta_lookup base F (fc_Name f) Hn Hu) as H. fold m in H.
    assert (head (filter (λ g, fc_Name g = fc_Name f) F) = Some f) as Hh.
    { destruct (filter (λ g, fc_Name g = fc_Name f) F) as [|g l] eqn:Ef.
      - assert (f ∈ filter (λ g, fc_Name g = fc_Name f) F) as Hin by by apply list_elem_of_filter.
        rewrite Ef in Hin. by apply not_elem_of_nil in Hin.
      - assert (g ∈ filter (λ g, fc_Name g = fc_Name f) F) as [Hg Hin]%list_elem_of_filter by (rewrite Ef; by left).
        cbn. f_equal. by apply (same_key fc_Name F). }
    rewrite Hh in H. destruct (m !! fc_Name f) as [e|]; [|done]. cbn in H. injection H as Ha Hb. exists e. split; [done|]. unfold named. congruence. }
  rewrite List.map_map. apply NoDup_Permutation.
  - apply (NoDup_fmap_1 fst). change (NoDup (map fst (map (λ x : bytes * FileEntry, named x.2) (map_to_list m)))).
    rewrite List.map_map.
    assert (map (λ x : bytes * FileEntry, (named x.2).1) (map_to_list m) = map fst (map_to_list m)) as ->.
    { apply map_ext_in. intros [n e] Hin%list_elem_of_In%elem_of_map_to_list. apply H1 in Hin as [Hne _]. exact Hne. }
    apply NoDup_fst_map_to_list.
  - apply (NoDup_fmap_1 fst). change (NoDup (map fst (map (λ f, (fc_Name f, fc_UUID f)) F))).
    by rewrite List.map_map.
  - intros [n u]. split.
    + intros ([n' e] & He & Hin%elem_of_map_to_list)%list_elem_of_fmap. apply H1 in Hin as [Hn' Hin].
      cbn in He. unfold named in He. injection He as -> ->. by rewrite Hn'.
    + intros (f & [= -> ->] & Hf)%list_elem_of_fmap. destruct (H2 f Hf) as (e & He & Hnm).
      apply list_elem_of_fmap. exists (fc_Name f, e). split; [done|]. by apply elem_of_map_to_list.
Qed.
End listing.

(** ** The whole check-in *)

(** The deck with its time cut to whole milliseconds, as its text has it. *)
Definition in_millis (dk : Deck) : Deck :=
  let '(Time y mo d h mi se ns) := d_D dk in set_D (Time y mo d h mi se (ns / 1000000 * 1000000)) dk.

Lemma Marshal_millis dk : d_D (in_millis dk) ≠ time_zero → Marshal dk = Marshal (in_millis dk).
Proof.
  intros Hz. assert (marshalCards dk = marshalCards (in_millis dk)) as H; [|unfold Marshal; by rewrite H].
  destruct (d_D dk) as [y mo da h mi se ns] eqn:Et.
  assert (in_millis dk = set_D (Time y mo da h mi se (ns / 1000000 * 1000000)) dk) as Hm by (unfold in_millis; by rewrite Et).
  rewrite Hm in *. unfold marshalCards.
  assert (∀ b, opt_line "D"%byte (negb (IsZero (d_D dk))) (format_milli (d_D dk)) ++ b
    = opt_line "D"%byte (negb (IsZero (Time y mo da h mi se (ns / 1000000 * 1000000))))
        (format_milli (Time y mo da h mi se (ns / 1000000 * 1000000))) ++ b) as HD.
  { intros b. f_equal. rewrite Et. cbn [d_D set_D] in Hz. unfold IsZero.
    rewrite (bool_decide_false (Time y mo da h mi se (ns / 1000000 * 1000000) = _)) by done.
    rewrite bool_decide_false.
    - unfold format_milli, format_sec. cbn [t_year t_month t_day t_hour t_min t_sec t_nsec].
      by rewrite Z.div_mul by done.
    - intros [= -> -> -> -> -> -> ->]. by apply Hz. }
  rewrite HD. by destruct dk.
Qed.

Lemma in_millis_cards dk :
  d_B (in_millis dk) = d_B dk ∧ d_F (in_millis dk) = d_F dk ∧ inferType (in_millis dk) = inferType dk.
Proof. unfold in_millis. by destruct (d_D dk). Qed.

(** The tables hold milliseconds, too: the event is that of the manifest. *)
Lemma in_millis_event dk : checkin_event (in_millis dk) = checkin_event dk.
Proof.
  unfold in_millis. destruct (d_D dk) as [y mo da h mi se ns] eqn:E.
  assert (UnixMilli (Time y mo da h mi se (ns / 1000000 * 1000000)) = UnixMilli (Time y mo da h mi se ns)) as Hm.
  { unfold UnixMilli, instant. cbn [t_year t_month t_day t_hour t_min t_sec t_nsec]. cbv zeta.
    match goal with |- ((?x * 10 ^ 9 + _) / _ = _)%Z => generalize x end. intros x.
    change (10 ^ 9)%Z with (1000 * 10 ^ 6)%Z. rewrite Z.mul_assoc, !Z.div_add_l by done.
    change (10 ^ 6)%Z with 1000000%Z. by rewrite Z.div_mul. }
  unfold checkin_event, TimeToJulian. cbn [d_D d_U d_C set_D]. by rewrite E, Hm.
Qed.

(** The deck that [Checkin] builds. *)
Definition checkin_deck {codec : Zlib} {sqlite : Sqlite} {order : Unordered} (d : db) (opts : CheckinOpts) : out Deck :=
  '(d, fCards, _) ← storeFileBlobs (ck_Files opts) d; buildCheckinDeck d opts fCards.

(** Phantoms have size -1, and rows of other tables belong to artifacts. *)
Record sane (d : db) : Prop := {
  sn_sizes : sizes_ok (d_repo d);
  sn_traces : ∀ o, traces d o → is_Some (t_blob (d_repo d) !! o);
  sn_parents : ∀ p c, is_Some (k_plink (d_links d) !! (p, c)) → is_Some (t_blob (d_repo d) !! p)
}.

Section whole.
Context {codec : Zlib} {zlaws : ZlibLaws} {sha3 : Sha3} {sqlite : Sqlite} {order : Unordered} {olaws : UnorderedLaws}.

(** The files that are read back. *)
Definition lists (d : db) (rid : Z) (opts : CheckinOpts) : Prop :=
  ∃ entries, ListFiles d rid = Ret entries ∧ map named entries ≡ₚ map file_named (ck_Files opts) ∧
    (ck_Delta opts = false → entries = sort_entries (map (λ f, entry_of (card_of f)) (ck_Files opts))).

Record committed (d d' : db) (opts : CheckinOpts) (dk : Deck) (rid : Z) (uuid : bytes) : Prop := {
  co_ok : repo_ok (d_repo d') ∧ retains (d_repo d) (d_repo d');
  co_links : links_ok d' ∧ checkins_complete d' ∧ (leaf_ok d → leaf_ok d');
  co_manifest : rid_of d' uuid = Some rid ∧ complete d' rid (canonical (in_millis dk));
  co_event : ∀ o x, checkin_row d' o x ↔ checkin_row d o x ∨ (o = rid ∧ x = uncoloured (checkin_event (canonical (in_millis dk))));
  co_files : Forall2 (file_row d' rid) (map card_of (ck_Files opts)) (mlinks_of d' rid);
  co_parents : parents_linked d d' rid dk;
  co_readable : ∀ f, f ∈ ck_Files opts → readable d' (sha1_hex (fl_Content f));
  co_lists : NoDup (map fl_Name (ck_Files opts)) → lists d' rid opts;
  co_sane : sane d'
}.

Lemma parents_exist d opts P : repo_ok (d_repo d) → parent_uuids d opts = Ret P →
  ∀ u, u ∈ P → is_Some (rid_of d u).
Proof.
  intros Hok. unfold parent_uuids. destruct (negb _); [by intros [= <-] u ?%not_elem_of_nil|].
  destruct (uuid_at d (ck_Parent opts)) as [u0|] eqn:E0; [|done]. apply uuid_at_rid in E0; [|done].
  intros H. apply bind_ret_inv in H as (rest & Hr & H). injection H as <-.
  assert (∀ u, u ∈ rest → is_Some (rid_of d u)) as Hrest.
  { revert rest Hr. induction (ck_MergeParents opts) as [|mp ms IH]; intros rest; cbn [merge_uuids].
    { by intros [= <-] u ?%not_elem_of_nil. }
    destruct (_ || _); [apply IH|]. destruct (uuid_at d mp) as [um|] eqn:Em; [|done].
    apply uuid_at_rid in Em; [|done]. intros H. apply bind_ret_inv in H as (rs & Hr & H). injection H as <-.
    intros u [->|Hu]%elem_of_cons; [by eexists|by eapply IH]. }
  intros u [->|Hu]%elem_of_cons; [by eexists|by apply Hrest].
Qed.

Lemma tables_unsent F rid dk d d' f : tables F rid dk d d' → tables F rid dk d (on_unsent f d').
Proof. intros [T1 T2 T3 T4 T5 T6 T7 (rows & T8 & T9)]. split; try done. by exists rows. Qed.

(** The steps of the transaction. *)
Lemma checkin_tx_ret d opts d4 T rid uuid : ck_Files opts ≠ [] → repo_ok (d_repo d) →
  checkin_tx d opts = Ret (d4, T, rid, uuid) →
  ∃ dk d1 d2, checkin_deck d opts = Ret dk ∧ added d d1 ∧ built d1 opts (map card_of (ck_Files opts)) dk ∧
    T = d_T dk ∧ added d1 d2 ∧ stored_as (d_repo d1) (d_repo d2) (Marshal dk) rid uuid ∧
    Store (d_repo d1) (Marshal dk) = Ret (d_repo d2, rid, uuid) ∧
    tables (map card_of (ck_Files opts)) rid dk d2 d4 ∧ k_event (d_links d2) !! rid = None ∧
    ∀ u, (∀ f, f ∈ ck_Files opts → sha1_hex (fl_Content f) ≠ u) → rid_of d u = None → rid_of d1 u = None.
Proof.
  intros Hne Hok H. unfold checkin_tx in H. unfold checkin_deck.
  apply bind_ret_inv in H as ([[d1 fCards] rids] & H1 & H). rewrite H1. cbn [mbind outcome_bind].
  destruct (storeFileBlobs_ret _ _ _ _ _ Hok H1) as (A1 & -> & Hin & Hk).
  apply bind_ret_inv in H as (dk & Hdk & H). pose proof (buildCheckinDeck_ret d1 opts (map card_of (ck_Files opts)) dk) as B.
  specialize (B ltac:(by destruct (ck_Files opts)) Hdk).
  apply bind_ret_inv in H as ([[d2 rid2] uuid2] & H2 & H). unfold insertCheckinBlob in H2.
  apply bind_ret_inv in H2 as ([[q r] u] & HS & H2). injection H2 as <- <- <-. apply wrap_err_ret in HS.
  destruct (Store_added d1 _ _ _ _ (ad_ok _ _ A1) HS) as [A2 S].
  apply bind_ret_inv in H as (dm & Hm & H). apply bind_ret_inv in H as (d3 & H3 & H). injection H as <- <- <- <-.
  assert (∀ u' r', rid_of d1 u' = Some r' → rid_of (on_repo (λ _, q) d1) u' = Some r') as Hkeep.
  { intros u' r'. by apply added_rid. }
  destruct (checkin_tables d1 (on_repo (λ _, q) d1) d3 opts r dk (map card_of (ck_Files opts))) as [Ht Hev].
  - apply A1.
  - apply B.
  - intros u' [r' Hr']. rewrite Hr'. by apply Hkeep.
  - intros u' r' Hr' Hu'. destruct (parents_exist d1 opts (d_P dk) (ad_ok _ _ A1) (de_parents _ _ _ (bu_describes _ _ _ _ B)) u' Hu') as [x Hx].
    rewrite Hx. pose proof (Hkeep _ _ Hx). congruence.
  - done.
  - intros f Hf. destruct (Hin f Hf) as [x Hx]. exists x. by apply Hkeep.
  - rewrite Hm. exact H3.
  - exists dk, d1, (on_repo (λ _, q) d1). split_and!; try done. by apply tables_unsent.
Qed.

Lemma canonical_complete d1 d2 opts dk rid :
  added d1 d2 → sizes_ok (d_repo d1) → wf_deck (in_millis dk) → d_D (in_millis dk) ≠ time_zero →
  built d1 opts (map card_of (ck_Files opts)) dk →
  expands (d_repo d2) rid (Marshal dk) → complete d2 rid (canonical (in_millis dk)).
Proof.
  intros A Hs Hwf Hdate [B1 B2 B3 B4 B5] He. destruct (in_millis_cards dk) as (I1 & I2 & I3).
  apply complete_iff. rewrite (Marshal_millis _ Hdate) in He.
  assert (read_manifest d2 rid = Ret (canonical (in_millis dk))) as Hrd.
  { unfold read_manifest. pose proof (expands_pos _ _ _ He). apply Expand_expands in He; [|done].
    unfold in_repo. rewrite He. cbn [wrap_err mbind outcome_bind]. by rewrite Parse_Marshal. }
  split_and!; [done|cbn; by rewrite I3|]. cbn [canonical d_B d_F set_Type set_Z set_F set_M set_T]. rewrite I1, I2.
  intros u Hu Hn.
  assert (readable d1 u) as Hr; [|by apply readable_present; [apply (ad_sizes _ _ A)|eapply readable_added]].
  assert (∀ F, (∀ f, f ∈ F → f ∈ map card_of (ck_Files opts) ∨ fc_UUID f = []) → u ∈ map fc_UUID F → readable d1 u) as HF.
  { intros F Hall (f & -> & Hf)%list_elem_of_fmap. destruct (Hall f Hf) as [Hc|]; [|done].
    apply list_elem_of_fmap in Hc as (g & -> & Hg). by apply B4. }
  apply elem_of_cons in Hu as [Hu|Hu]; cbn in Hu.
  - destruct B2 as [HB _|base Hb _]; [congruence|]. rewrite Hu. by eapply read_deck_readable.
  - apply (HF (d_F dk)); [|revert Hu; by rewrite sort_slice_perm].
    destruct B2 as [_ ->|base _ ->]; [by left|]. unfold delta_cards. intros f [[_ Hf]%list_elem_of_filter|Hf]%elem_of_app;
      [by left|]. apply list_elem_of_fmap in Hf as (n & -> & _). by right.
Qed.

Lemma canonical_cards dk : d_B (canonical (in_millis dk)) = d_B dk ∧
  d_F (canonical (in_millis dk)) = sort_slice file_less (d_F dk).
Proof.
  destruct (in_millis_cards dk) as (I1 & I2 & _). rewrite <- I1, <- I2. by split.
Qed.

Lemma canonical_lists d1 d2 opts dk read rid :
  added d1 d2 ∨ repo_ok (d_repo d2) ∧ retains (d_repo d1) (d_repo d2) →
  built d1 opts (map card_of (ck_Files opts)) dk → (0 < rid)%Z →
  read_manifest d2 rid = Ret read → d_B read = d_B dk → d_F read = sort_slice file_less (d_F dk) →
  NoDup (map fl_Name (ck_Files opts)) → lists d2 rid opts.
Proof.
  intros A [B1 B2 B3 B4 B5] Hp Hrd I1 I2 Hn. unfold lists, ListFiles, GetManifest.
  destruct (Z.leb_spec rid 0); [lia|]. rewrite Hrd. cbn [mbind outcome_bind].
  assert (NoDup (map fc_Name (map card_of (ck_Files opts)))) as Hn' by by rewrite List.map_map.
  assert (map (λ f, (fc_Name f, fc_UUID f)) (map card_of (ck_Files opts)) = map file_named (ck_Files opts)) as Hnm.
  { by rewrite List.map_map. }
  assert (d_B dk = [] → d_F dk = map card_of (ck_Files opts) →
    fCardsToEntries (d_F read) = sort_entries (map (λ f, entry_of (card_of f)) (ck_Files opts))) as Hall.
  { intros _ HF. rewrite I2, HF, entries_sorted by done. unfold fCardsToEntries. by rewrite List.map_map. }
  rewrite I1. destruct B2 as [HB HF|base Hb HF].
  - rewrite bool_decide_true by done. eexists. split; [reflexivity|]. rewrite (Hall HB HF). split; [|done].
    unfold sort_entries. rewrite sort_slice_perm, List.map_map. done.
  - assert (d_B dk ≠ []) as HBn by by eapply read_deck_ret. rewrite bool_decide_false by done.
    assert (read_deck d2 (d_B dk) = Ret base) as ->.
    { destruct A as [A|[Hok2 R]]; [by eapply read_deck_added|]. apply read_deck_ret in Hb as (_ & r & Hr & Hb).
      unfold read_deck, Blob.Exists. rewrite bool_decide_false by done. cbn.
      rewrite (retains_rid _ _ _ _ Hok2 R Hr). by eapply read_retains. }
    cbn [mbind outcome_bind]. eexists. split; [reflexivity|]. split.
    + unfold sort_entries. rewrite sort_slice_perm, any_order_perm.
      assert (file_map (d_F base) (d_F read) = file_map (d_F base) (d_F dk)) as ->.
      { apply map_eq. intros n. rewrite I2. pose proof (delta_cards_names (base_files (d_F base)) _ Hn') as Hd. rewrite <- HF in Hd.
        assert (NoDup (map fc_Name (sort_slice file_less (d_F dk)))) as Hd'.
        { eapply NoDup_Permutation_proper; [|exact Hd]. apply Permutation_map, sort_slice_perm. }
        destruct (file_map_cards (d_F base) _ Hd) as [H1 H2], (file_map_cards (d_F base) _ Hd') as [H3 H4].
        destruct (decide (n ∈ map fc_Name (d_F dk))) as [Hin|Hout].
        - apply list_elem_of_fmap in Hin as (f & -> & Hf). rewrite H1, H3; [done|by rewrite sort_slice_perm|done].
        - rewrite H2, H4; [done| |done]. by rewrite sort_slice_perm. }
      rewrite HF, <- Hnm. apply delta_entries; [done|]. apply List.Forall_map, list.Forall_forall.
      intros f _. apply sha1_hex_nonempty.
    + intros Hd. destruct (B3 Hd). congruence.
Qed.
End whole.

Section commit.
Context {codec : Zlib} {zlaws : ZlibLaws} {sha3 : Sha3} {sqlite : Sqlite} {order : Unordered} {olaws : UnorderedLaws}.

Lemma with_time_files now opts : ck_Files (with_time now opts) = ck_Files opts.
Proof. unfold with_time. by case_bool_decide. Qed.

(** A check-in leaves a database in which another one can be made. *)
Lemma checkin_sane F dk rid d d2 d3 d' :
  added d d2 → sane d → is_Some (t_blob (d_repo d2) !! rid) → tables F rid dk d2 d3 → tag_effect d3 d' → sane d'.
Proof.
  intros A [S1 S2 S3] Hrid Ht [(X & Y & T & ->) Hev]. destruct (added_links _ _ A) as [Elk _].
  assert (∀ o, is_Some (t_blob (d_repo d) !! o) → is_Some (t_blob (d_repo d2) !! o)) as Hext.
  { intros o [x Hx]. exists x. by eapply lookup_weaken; [|apply (ad_extends _ _ A)]. }
  pose proof (tb_repo _ _ _ _ _ Ht) as HR. split.
  - cbn. rewrite HR. by apply (ad_sizes _ _ A).
  - intros o Ho. cbn. rewrite HR. destruct Ho as [H|H].
    + specialize (Hev o). cbn in Hev, H. destruct H as [e He]. rewrite He in Hev.
      assert (is_Some (k_event (d_links d3) !! o)) as H by (destruct (k_event (d_links d3) !! o); [by eexists|done]).
      rewrite (tb_event _ _ _ _ _ Ht), insert_new_lookup, Elk in H. case_decide; [by subst o|].
      apply Hext, S2. by left.
    + cbn in H. rewrite (tb_attach _ _ _ _ _ Ht), (tb_forum _ _ _ _ _ Ht), Elk in H. apply Hext, S2. by right.
  - intros p c H. cbn in *. rewrite HR.
    apply (pa_rows _ _ _ _ _ (tb_plink _ _ _ _ _ Ht)) in H as [H|(-> & u & _ & Hu)].
    + rewrite Elk in H. by apply Hext, (S3 p c).
    + destruct (rid_of_uuid_Some _ _ _ Hu) as (row & Hrow & _). by exists row.
Qed.

(** After the transaction: the check-in is linked, and tags leave the links alone. *)
Lemma checkin_committed d opts d3 d' T rid uuid :
  repo_ok (d_repo d) → links_ok d → checkins_complete d → sane d → ck_Files opts ≠ [] →
  checkin_tx d opts = Ret (d3, T, rid, uuid) → tag_effect d3 d' →
  rid_of d uuid = None → (∀ f, f ∈ ck_Files opts → sha1_hex (fl_Content f) ≠ uuid) →
  small (d_repo d') → ∃ dk, checkin_deck d opts = Ret dk ∧
    (wf_deck (in_millis dk) → d_D (in_millis dk) ≠ time_zero → committed d d' opts dk rid uuid).
Proof.
  intros Hok Hl Hc [Sz Str Spar] Hne Htx Ht Hnew Hdist Hsm.
  destruct (checkin_tx_ret d opts d3 T rid uuid Hne Hok Htx)
    as (dk & d1 & d2 & Hdk & A1 & B & _ & A2 & S & HS & Htab & Hev & Hk).
  exists dk. split; [done|]. intros Hwf Hdate. pose proof (added_trans _ _ _ A1 A2) as A.
  pose proof (ad_ok _ _ A) as Hok2. pose proof (added_retains _ _ A) as R.
  destruct (added_links _ _ A) as [Elk Elf].
  assert (repo_grows (d_repo d2) (d_repo d')) as Hg.
  { destruct Ht as [(X & Y & TT & ->) _]. cbn. rewrite (tb_repo _ _ _ _ _ Htab). by apply repo_grows_same. }
  pose proof (extends_retains _ _ (rg_extends _ _ Hg)) as R'.
  assert (small (d_repo d2)) as Hsm2 by (eapply small_kept; [apply (rt_rows _ _ R')|done]).
  destruct (Store_fresh _ _ _ _ _ (ad_ok _ _ A1) HS (Hk uuid Hdist Hnew) Hsm2) as (He & Hfr & row & Hrow & Hsize).
  pose proof (canonical_complete d1 d2 opts dk rid A2 (ad_sizes _ _ A1 Sz) Hwf Hdate B He) as Hcm.
  assert (present d2 rid) as Hp by (exists row; split; [done|rewrite Hsize; apply zlen_nonneg]).
  assert (t_blob (d_repo d) !! rid = None) as Hfr0.
  { destruct (t_blob (d_repo d) !! rid) as [x|] eqn:E; [|done].
    by rewrite (lookup_weaken _ _ _ _ E (proj1 (ad_extends _ _ A1))) in Hfr. }
  assert (∀ o, traces d2 o ↔ traces d o) as Htr by (intros o; unfold traces; by rewrite Elk).
  assert (¬ traces d2 rid) as Hntr by (intros [y Hy]%Htr%Str; congruence).
  assert (links_ok d2) as Hl2 by by eapply (links_received d).
  assert (checkins_complete d2) as Hc2 by by eapply (complete_received d).
  destruct (checkin_linked _ rid d2 d3 d' dk _ Hok2 Hl2 Hp Hntr (proj1 Hcm) (proj1 (proj2 Hcm)) Htab Ht)
    as [E1 E2 E3 E4 E5 E6 E7 E8 E9].
  assert (repo_ok (d_repo d')) as Hok' by by apply Hg.
  assert (complete d' rid (canonical (in_millis dk))) as Hcm' by by eapply complete_retains.
  assert (∀ u r, rid_of d u = Some r → rid_of d2 u = Some r) as Hrid by (intros u r; by apply added_rid).
  split.
  - split; [done|by etrans].
  - split; [done|]. split.
    + intros o (x & [Hx|[-> _]]%E3); [|by eexists]. destruct (Hc2 o) as [dko Hdo]; [by exists x|].
      exists dko. by eapply complete_retains.
    + intros Hleaf. eapply (checkin_leaf _ rid d2 d3 d' dk _ Hl2 Hp Hntr Hcm); [|exact Htab|done|].
      * intros c _. rewrite Elk. apply eq_None_not_Some. intros [y Hy]%Spar. congruence.
      * intros r. rewrite Elf, Elk, (Hleaf r). unfold ci, checkin_row. by rewrite Elk.
  - split; [|done]. eapply retains_rid; [done|exact R'|]. apply (st_rid _ _ _ _ _ S).
  - intros o x. change (checkin_event (canonical (in_millis dk))) with (checkin_event (in_millis dk)).
    rewrite in_millis_event, E3. unfold checkin_row. by rewrite Elk.
  - rewrite (filter_all (file_listed d2)) in E5; [exact E5|].
    apply List.Forall_map, list.Forall_forall. intros f Hf. split; [apply sha1_hex_nonempty|].
    destruct (bu_readable _ _ _ _ B f Hf eq_refl) as (r & c & Hr & _). exists r.
    exact (added_rid _ _ _ _ A2 Hr).
  - destruct E7 as [F1 F2 F3]. split; [done| |].
    + intros u p Hu Hup. eapply F2; [done|by apply Hrid].
    + intros p v Hv. destruct (F3 p v Hv) as [G1 G2]. split; [done|]. intros Hh. apply G2.
      destruct (d_P dk); [done|]. by apply Hrid.
  - intros f Hf. destruct (bu_readable _ _ _ _ B f Hf eq_refl) as (r & c & Hr & Hx). exists r, c. split.
    + eapply retains_rid; [done|exact R'|]. exact (added_rid _ _ _ _ A2 Hr).
    + apply (rt_expands _ _ R'). by apply (rt_expands _ _ (added_retains _ _ A2)).
  - intros Hn. destruct (canonical_cards dk) as [I1 I2].
    apply (canonical_lists d1 d' opts dk _ rid) with (5 := I1) (6 := I2); [right|done|by eapply expands_pos|apply Hcm'|done].
    split; [done|]. etrans; [by apply added_retains|exact R'].
  - apply (checkin_sane (map card_of (ck_Files opts)) dk rid d d2 d3 d' A); [by split| |exact Htab|exact Ht].
    by exists row.
Qed.

(** The whole of [Checkin]. *)
Lemma Checkin_committed now d opts d' rid uuid :
  repo_ok (d_repo d) → links_ok d → checkins_complete d → sane d → Checkin now d opts = Ret (d', rid, uuid) →
  small (d_repo d') → rid_of d uuid = None → (∀ f, f ∈ ck_Files opts → sha1_hex (fl_Content f) ≠ uuid) →
  ∃ dk, checkin_deck d (with_time now opts) = Ret dk ∧ (wf_deck (in_millis dk) →
    d_D (in_millis dk) ≠ time_zero → committed d d' (with_time now opts) dk rid uuid).
Proof.
  intros Hok Hlinks Hcomplete Hsane Hret Hsmall Hnew Hdist.
  unfold Checkin in Hret. destruct (is_nil (ck_Files opts)) eqn:Hnil; [done|].
  case_bool_decide; [done|]. cbv zeta in Hret.
  assert (ck_Files (with_time now opts) ≠ []) as Hne by (rewrite with_time_files; by destruct (ck_Files opts)).
  rewrite <- (with_time_files now) in Hdist. revert Hret Hne Hdist. generalize (with_time now opts) as o.
  intros o Hret Hne Hdist. apply bind_ret_inv in Hret as ([[[d3 T] r] u] & H3 & Hret).
  apply wrap_err_ret in H3. apply bind_ret_inv in Hret as (d4 & H4 & Hret).
  pose proof (apply_inline_effect r (TimeToJulian (ck_Time o)) T d3) as K4. rewrite H4 in K4. cbn in K4.
  apply bind_ret_inv in Hret as (d5 & H5 & Hret). destruct (r <=? 0)%Z; [done|]. injection Hret as <- <- <-.
  assert (tag_effect d4 d5) as K5.
  { destruct (0 <? ck_Parent o)%Z; [|by injection H5 as <-].
    pose proof (PropagateAll_effect d4 (ck_Parent o)) as K5. by rewrite H5 in K5. }
  apply (checkin_committed d o d3 d5 T r u); [done..|by etrans|done|done|done].
Qed.
End commit.

(** ** Properties *)

(** C18. A check-in is recorded as what it is. It is made in a consistent
    repository whose check-ins are linked and complete and whose tables are
    [sane] (phantoms have size -1, other rows belong to artifacts). The fields
    of the deck that it builds must fit into a manifest ([wf_deck]: no newlines
    in names and uuids, the comment and the user may hold anything, a time in
    the years 0 to 9999); its time may have any precision, of which the manifest
    and the tables keep the milliseconds ([in_millis]). If [Checkin] succeeds,
    the manifest is new and is not one of the files, and artifacts are below 4
    GiB, then the repository keeps all artifacts, stays consistent, and its
    check-ins and leaves stay right. The manifest of the check-in can be read
    back, with all it refers to; the tables have exactly one new event, that of
    the manifest, with a row for each file and each parent, as crosslinking
    would give it; and if the names of the files are distinct, listing the files
    of the check-in, from a whole manifest or from a delta, gives the names and
    the hashes of the files that were checked in. *)
Theorem Checkin_records {codec : Zlib} {zlaws : ZlibLaws} {sha3 : Sha3} {sqlite : Sqlite} {order : Unordered}
    {olaws : UnorderedLaws} now d opts d' rid uuid dk
    (Hok : repo_ok (d_repo d)) (Hlinks : links_ok d) (Hcomplete : checkins_complete d) (Hsane : sane d)
    (Hdeck : checkin_deck d (with_time now opts) = Ret dk) (Hwf : wf_deck (in_millis dk))
    (Hdate : d_D (in_millis dk) ≠ time_zero)
    (Hret : Checkin now d opts = Ret (d', rid, uuid)) (Hsmall : small (d_repo d'))
    (Hnew : rid_of d uuid = None) (Hdist : ∀ f, f ∈ ck_Files opts → sha1_hex (fl_Content f) ≠ uuid) :
  committed d d' (with_time now opts) dk rid uuid.
Proof.
  destruct (Checkin_committed now d opts d' rid uuid) as (dk' & Hdk' & Hcom); [done..|].
  assert (dk' = dk) as -> by congruence. by apply Hcom.
Qed.

(** ** Witnesses *)

#[local] Existing Instance stored.
#[local] Existing Instance stored_laws.
#[local] Existing Instance test_sha3.
#[local] Existing Instance test_sqlite.
#[local] Existing Instance test_order.
#[local] Existing Instance test_order_laws.

Definition when : time := Time 2024 6 15 14 30 45 123000000.
Definition two_files : CheckinOpts :=
  MkCheckinOpts [MkSource (str "README") text_a []; MkSource (str "src/main.go") text_b (str "x")]
    (str "first version") (str "dev") 0 [] false when [].

(** The state after a check-in, and the rid of the check-in. *)
Definition after_checkin (d : db) (opts : CheckinOpts) : db * Z * bytes :=
  match Checkin when d opts with Ret x => x | _ => (d, 0%Z, []) end.
(** They are evaluated once. *)
Definition first_db : db := Eval vm_compute in (after_checkin CreateRepoSchema two_files).1.1.
Definition first_uuid : bytes := Eval vm_compute in (after_checkin CreateRepoSchema two_files).2.
Definition first_deck : Deck := Eval vm_compute in
  match checkin_deck CreateRepoSchema two_files with Ret dk => dk | _ => deck_zero end.

Lemma first_ret : Checkin when CreateRepoSchema two_files = Ret (first_db, 3%Z, first_uuid).
Proof. vm_compute. reflexivity. Qed.

Lemma first_deck_ret : checkin_deck CreateRepoSchema two_files = Ret first_deck.
Proof. vm_compute. reflexivity. Qed.

Lemma first_wf : wf_deck first_deck.
Proof.
  split; cbn; try (by intros ? [=]); try (by constructor);
    try (split; [reflexivity|by_decide]).
  - apply list.Forall_cons_2; [|apply list.Forall_singleton]; split; cbn;
      first [by_decide|by left|right; by_decide|by intros [=]|by intros _].
  - repeat apply list.Forall_cons_2; [..|apply list.Forall_nil_2]; repeat split; by_decide.
  - done.
Qed.

Lemma first_millis : in_millis first_deck = first_deck.
Proof. reflexivity. Qed.

Lemma first_date : d_D (in_millis first_deck) ≠ time_zero.
Proof. rewrite first_millis. discriminate. Qed.

Lemma new_sane : sane CreateRepoSchema.
Proof.
  split.
  - intros rid row H. discriminate H.
  - intros o [[y H]|[[y H]|[y H]]]; discriminate H.
  - intros p c [y H]. discriminate H.
Qed.

Lemma first_small : small (d_repo first_db).
Proof. assert (map_Forall (λ _ row, b_size row < 2 ^ 32)%Z (t_blob (d_repo first_db))) as H by by_decide. exact H. Qed.

Lemma first_distinct : ∀ f, f ∈ ck_Files two_files → sha1_hex (fl_Content f) ≠ first_uuid.
Proof.
  assert (Forall (λ f, sha1_hex (fl_Content f) ≠ first_uuid) (ck_Files two_files)) as H by by_decide.
  intros f Hf. exact (Forall_elem _ _ _ H Hf).
Qed.

Lemma first_nodup : NoDup (map fl_Name (ck_Files two_files)).
Proof. by_decide. Qed.

Lemma Checkin_records_witness : links_ok first_db ∧ lists first_db 3 two_files ∧
  ∃ x, checkin_row first_db 3 x.
Proof.
  destruct (links_ok_new CreateRepoSchema eq_refl) as [Hl Hno].
  assert (checkins_complete CreateRepoSchema) as Hc by (intros o Ho; destruct (Hno o Ho)).
  pose proof (Checkin_records when CreateRepoSchema two_files first_db 3 first_uuid first_deck empty_ok Hl Hc
    new_sane first_deck_ret (eq_ind_r wf_deck first_wf first_millis) first_date first_ret first_small eq_refl first_distinct) as [_ H2 _ H4 _ _ _ H8 _].
  split; [exact (proj1 H2)|]. split; [exact (H8 first_nodup)|].
  exists (uncoloured (checkin_event (canonical (in_millis first_deck)))). apply H4. right. exact (conj eq_refl eq_refl).
Defined.

(** ** Findings *)

(** What a check-in on top of the first one leaves. *)
Definition second (delta : bool) (files : list File) : db * Z :=
  let '(d, rid, _) := after_checkin first_db
    (MkCheckinOpts files (str "second version") (str "dev") 3 [] delta (Time 2024 6 16 0 0 0 0) []) in (d, rid).

(** A delta manifest leaves out a file of which only the permission changed. *)
Example delta_forgets_permission :
  let '(d, rid) := second true [MkSource (str "README") text_a (str "x"); MkSource (str "src/main.go") text_b (str "x")] in
  match ListFiles d rid with Ret l => map fe_Perm l = [[]; str "x"] | _ => False end ∧
  let '(d, rid) := second false [MkSource (str "README") text_a (str "x"); MkSource (str "src/main.go") text_b (str "x")] in
  match ListFiles d rid with Ret l => map fe_Perm l = [str "x"; str "x"] | _ => False end.
Proof. vm_compute. auto. Qed.

(** Checking in an empty file panics. *)
Example empty_file_panics :
  Checkin when first_db (MkCheckinOpts [MkSource (str "README") [] []] [] (str "dev") 3 [] false when []) = Panic.
Proof. vm_compute. reflexivity. Qed.

#[local] Instance float_dates : DateColumn := { scan_date := ScannedFloat }.
Definition actions (m : out (list FileVersion)) : list FileAction :=
  match m with Ret l => map fv_Action l | _ => [] end.
Definition unchanged_twice : db := (second false (ck_Files two_files)).1.

(** The limit of a history counts versions in which the file did not change. *)
Example limit_hides_versions :
  actions (FileHistory unchanged_twice (str "README") 0) = [FileAdded] ∧
  actions (FileHistory unchanged_twice (str "README") 1) = [].
Proof. vm_compute. auto. Qed.

(** The removal of a file leaves no trace in its history. *)
Example removal_not_listed :
  actions (FileHistory (second false [MkSource (str "src/main.go") text_b []]).1 (str "README") 0) = [FileAdded].
Proof. vm_compute. reflexivity. Qed.

(** The same repository, when its artifacts were received and crosslinked: every
    version of a file counts as added. *)
#[local] Existing Instance test_unicode.
Definition received (d : db) : db :=
  on_links (λ _, no_links) (on_tagxref (λ _, ∅) d).
Example crosslinked_files_added :
  match Crosslink (received unchanged_twice) with
  | Ret (d, n) => n = 2%Z ∧ actions (FileHistory d (str "README") 0) = [FileAdded; FileAdded]
  | _ => False
  end.
Proof. vm_compute. auto. Qed.
