(* ===== verification/Annotate.v ===== *)
(** * Annotation (src/internal/annotate/annotate.go)

    [Annotate] attributes each line of a file to a check-in: it follows the primary
    parents from a check-in and, at each step, matches the lines of the file there
    with those of the step before by a longest common subsequence. *)
From S2P Require Import Prelude GoStrings Hash Zlib Delta Deck Julian Quote Blob Db Receive Tag Crosslink Merge Checkin CheckinLinked.
From stdpp Require Import list gmap sets.

Abbreviation out := (outcome db_error).

Record VersionInfo := MkInfo { vi_UUID : bytes; vi_User : bytes; vi_Date : Z }.
Record Line := MkLine { ln_Text : bytes; ln_Version : VersionInfo }.
Record Options := MkOptions { op_FilePath : bytes; op_StartRID : Z; op_Limit : Z; op_OriginRID : Z }.

(** ** Lines *)

(** A trailing newline gives no extra empty line. *)
Definition splitLines (s : bytes) : list bytes :=
  if is_nil s then [] else
  let s := TrimRight s [NL] in
  if is_nil s then [] else Split s NL.

(** One row of the table from the row above it: [diag] is [dp[i-1][j-1]], [up] is
    [dp[i-1][j]], [left] is [dp[i][j-1]]. *)
Fixpoint dp_row (x : bytes) (cur : list bytes) (above : list nat) (left : nat) : list nat :=
  match cur, above with
  | y :: cur, diag :: above =>
    let up := hd 0 above in
    let v := if bool_decide (x = y) then diag + 1 else if left <=? up then up else left in
    v :: dp_row x cur above v
  | _, _ => []
  end.

(** The rows below [above]. *)
Fixpoint dp_table (par cur : list bytes) (above : list nat) : list (list nat) :=
  match par with
  | [] => [above]
  | x :: par => above :: dp_table par cur (0 :: dp_row x cur above 0)
  end.

Definition dp_get (dp : list (list nat)) (i j : nat) : out nat := row ← index dp i; index row j.

Fixpoint backtrack (fuel : nat) (dp : list (list nat)) (par cur : list bytes) (i j : nat) (result : list Z) : out (list Z) :=
  match fuel with
  | O => NoFuel
  | S fuel =>
    if (0 <? i) && (0 <? j) then
      x ← index par (i - 1);
      y ← index cur (j - 1);
      if bool_decide (x = y) then
        backtrack fuel dp par cur (i - 1) (j - 1) (<[(j - 1)%nat := Z.of_nat (i - 1)]> result)
      else
        up ← dp_get dp (i - 1) j;
        left ← dp_get dp i (j - 1);
        if left <=? up then backtrack fuel dp par cur (i - 1) j result
        else backtrack fuel dp par cur i (j - 1) result
    else Ret result
  end.

Definition lcsMatch (par cur : list bytes) : out (list Z) :=
  let result := replicate (length cur) (-1)%Z in
  if (length par =? 0) || (length cur =? 0) then Ret result else
  backtrack (S (length par + length cur)) (dp_table par cur (replicate (S (length cur)) 0)) par cur
    (length par) (length cur) result.

(** ** The repository *)

Section annotate.
Context {codec : Zlib} {order : Unordered} {dates : DateColumn}.

Definition loadFileAt (d : db) (rid : Z) (filePath : bytes) : out bytes :=
  if (rid <=? 0)%Z then Panic else
  if bool_decide (filePath = []) then Panic else
  files ← ListFiles d rid;
  match filter (λ f, fe_Name f = filePath) files with
  | [] => Fail ENoRows
  | f :: _ =>
    ex ← in_repo (Blob.Exists (d_repo d) (fe_UUID f));
    match ex with
    | None => Fail ENoRows
    | Some fileRID => in_repo (Expand (d_repo d) fileRID)
    end
  end.

(** The join of [blob] and [event]; [None] if there is no row. *)
Definition versionInfoFor (d : db) (rid : Z) : option VersionInfo :=
  b ← t_blob (d_repo d) !! rid;
  e ← k_event (d_links d) !! rid;
  Some (MkInfo (b_uuid b) (ev_user e) (ScanTime (scan_date (ev_mtime e)))).

Definition primaryParent (d : db) (rid : Z) : option Z := primary_parent d rid.

(** [result[curIdx].Version = parentInfo] for the lines that are matched. *)
Fixpoint push (curIdx : nat) (matches : list Z) (parentInfo : VersionInfo) (result : list Line) : out (list Line) :=
  match matches with
  | [] => Ret result
  | parIdx :: matches =>
    if (0 <=? parIdx)%Z then
      match result !! curIdx with
      | None => Panic
      | Some l => push (S curIdx) matches parentInfo (<[curIdx := MkLine (ln_Text l) parentInfo]> result)
      end
    else push (S curIdx) matches parentInfo result
  end.

Fixpoint walkParentChain (fuel : nat) (d : db) (opts : Options) (steps : Z) (currentRID : Z)
    (currentLines : list bytes) (result : list Line) : out (list Line) :=
  match fuel with
  | O => NoFuel
  | S fuel =>
    if (0 <? op_Limit opts)%Z && (op_Limit opts <=? steps)%Z then Ret result else
    match primaryParent d currentRID with
    | None => Ret result
    | Some parentRID =>
      if (parentRID <=? 0)%Z then Ret result else
      if (0 <? op_OriginRID opts)%Z && (currentRID =? op_OriginRID opts)%Z then Ret result else
      match loadFileAt d parentRID (op_FilePath opts) with
      | Fail _ => Ret result
      | Panic => Panic
      | NoFuel => NoFuel
      | Ret parentContent =>
        match versionInfoFor d parentRID with
        | None => Ret result
        | Some parentInfo =>
          let parentLines := splitLines parentContent in
          matches ← lcsMatch parentLines currentLines;
          result ← push 0 matches parentInfo result;
          walkParentChain fuel d opts (steps + 1) parentRID parentLines result
        end
      end
    end
  end.

Definition Annotate (d : db) (opts : Options) : out (list Line) :=
  if (op_StartRID opts <=? 0)%Z then Fail (EInvalid []) else
  if bool_decide (op_FilePath opts = []) then Fail (EInvalid []) else
  fileContent ← loadFileAt d (op_StartRID opts) (op_FilePath opts);
  match versionInfoFor d (op_StartRID opts) with
  | None => Fail ENoRows
  | Some startInfo =>
    let lines := splitLines fileContent in
    let result := map (λ l, MkLine l startInfo) lines in
    if length result =? 0 then Ret result else
    walkParentChain (log_fuel d (op_Limit opts)) d opts 0 (op_StartRID opts) lines result
  end.
End annotate.

(** ** The matching is a longest one *)

(** Matched lines agree, and their indices increase and stay below [i]; [ms] are
    the first entries of the result. *)
Inductive matched (par cur : list bytes) : nat → list Z → Prop :=
  | matched_nil i : matched par cur i []
  | matched_none i ms : matched par cur i ms → matched par cur i (ms ++ [(-1)%Z])
  | matched_some i i' ms x : matched par cur i' ms → i' < i → par !! i' = Some x → cur !! length ms = Some x →
      matched par cur i (ms ++ [Z.of_nat i']).

Definition count (ms : list Z) : nat := length (filter (λ z, 0 ≤ z)%Z ms).

(** The longest common subsequence of two prefixes. *)
Definition plen (a c : list bytes) : nat := lcs_len (reverse a) (reverse c).

Lemma plen_snoc a x c y : plen (a ++ [x]) (c ++ [y]) =
  if bool_decide (x = y) then plen a c + 1 else Nat.max (plen a (c ++ [y])) (plen (a ++ [x]) c).
Proof. unfold plen. rewrite !reverse_snoc. apply lcs_len_cons. Qed.

Lemma plen_nil_l c : plen [] c = 0.
Proof. done. Qed.
Lemma plen_nil_r a : plen a [] = 0.
Proof. apply lcs_len_nil_r. Qed.

Lemma sublist_reverse {A} (l k : list A) : l `sublist_of` k → reverse l `sublist_of` reverse k.
Proof.
  induction 1 as [|x l k H IH|x l k H IH]; [done|..]; rewrite !reverse_cons.
  - by apply sublist_app.
  - by apply sublist_inserts_r.
Qed.

Lemma plen_max a c s : s `sublist_of` a → s `sublist_of` c → length s ≤ plen a c.
Proof.
  intros H1 H2. unfold plen. rewrite <- (length_reverse s). apply lcs_len_max; by apply sublist_reverse.
Qed.

(** A row of the table: from the prefix [c1] on, [c2] to come. *)
Fixpoint prow (a c1 c2 : list bytes) : list nat :=
  plen a c1 :: match c2 with [] => [] | y :: c2 => prow a (c1 ++ [y]) c2 end.

Lemma prow_hd a c1 c2 : hd 0 (prow a c1 c2) = plen a c1.
Proof. by destruct c2. Qed.

Lemma row_spec a x c2 : ∀ c1, dp_row x c2 (prow a c1 c2) (plen (a ++ [x]) c1) = tail (prow (a ++ [x]) c1 c2).
Proof.
  induction c2 as [|y c2 IH]; intros c1; [done|]. cbn [prow dp_row tail]. rewrite prow_hd.
  assert ((if bool_decide (x = y) then plen a c1 + 1 else if plen (a ++ [x]) c1 <=? plen a (c1 ++ [y])
    then plen a (c1 ++ [y]) else plen (a ++ [x]) c1) = plen (a ++ [x]) (c1 ++ [y])) as ->.
  { rewrite plen_snoc. case_bool_decide; [done|]. destruct (Nat.leb_spec (plen (a ++ [x]) c1) (plen a (c1 ++ [y]))); lia. }
  rewrite IH. by destruct c2.
Qed.

Lemma prow_lookup a c2 : ∀ c1 j, j ≤ length c2 → prow a c1 c2 !! j = Some (plen a (c1 ++ take j c2)).
Proof.
  induction c2 as [|y c2 IH]; intros c1 j Hj.
  { destruct j; [|cbn in Hj; lia]. cbn. by rewrite app_nil_r. }
  destruct j as [|j]; cbn; [by rewrite app_nil_r|]. cbn in Hj. rewrite IH by lia. by rewrite <- app_assoc.
Qed.

Lemma dp_table_lookup cur par : ∀ a i, i ≤ length par →
  dp_table par cur (prow a [] cur) !! i = Some (prow (a ++ take i par) [] cur).
Proof.
  induction par as [|x par IH]; intros a i Hi.
  { destruct i; [|cbn in Hi; lia]. cbn. by rewrite app_nil_r. }
  destruct i as [|i]; cbn; [by rewrite app_nil_r|]. cbn in Hi.
  assert (0 :: dp_row x cur (prow a [] cur) 0 = prow (a ++ [x]) [] cur) as ->.
  { pose proof (row_spec a x cur []) as H. rewrite plen_nil_r in H. rewrite H. destruct cur; cbn; by rewrite plen_nil_r. }
  rewrite IH by lia. by rewrite <- app_assoc.
Qed.

Lemma zeros_prow cur c1 : replicate (S (length cur)) 0 = prow [] c1 cur.
Proof. revert c1. induction cur as [|y cur IH]; intros c1; [done|]. cbn [prow]. rewrite <- IH. done. Qed.

Lemma cell_spec par cur i j : i ≤ length par → j ≤ length cur →
  dp_get (dp_table par cur (replicate (S (length cur)) 0)) i j = Ret (plen (take i par) (take j cur)).
Proof.
  intros Hi Hj. unfold dp_get. rewrite (zeros_prow cur []).
  rewrite (index_lookup _ _ _ (dp_table_lookup cur par [] i Hi)). cbn [mbind outcome_bind].
  by rewrite (index_lookup _ _ _ (prow_lookup _ cur [] j Hj)).
Qed.

Lemma matched_weaken par cur i i' ms : i ≤ i' → matched par cur i ms → matched par cur i' ms.
Proof. intros Hi H. revert i' Hi. induction H; intros i2 Hi; econstructor; eauto; lia. Qed.

Lemma matched_none_all par cur i n : matched par cur i (replicate n (-1)%Z).
Proof. induction n as [|n IH]; [constructor|]. rewrite replicate_S_end. by constructor. Qed.

Lemma count_app l k : count (l ++ k) = count l + count k.
Proof. unfold count. by rewrite filter_app, length_app. Qed.

Lemma count_none n : count (replicate n (-1)%Z) = 0.
Proof. induction n as [|n IH]; [done|]. cbn. exact IH. Qed.

Lemma lcs_path_spec par cur fuel : ∀ i j result, i + j < fuel → i ≤ length par → j ≤ length cur →
  take j result = replicate j (-1)%Z →
  ∃ ms, backtrack fuel (dp_table par cur (replicate (S (length cur)) 0)) par cur i j result = Ret (ms ++ drop j result) ∧
    length ms = j ∧ matched par cur i ms ∧ count ms = plen (take i par) (take j cur).
Proof.
  induction fuel as [|fuel IH]; intros i j result Hf Hi Hj Hres; [lia|]. cbn [backtrack].
  destruct (Nat.ltb_spec 0 i) as [Hi0|Hi0], (Nat.ltb_spec 0 j) as [Hj0|Hj0]; cbn [andb].
  2, 3, 4: exists (replicate j (-1)%Z); rewrite <- Hres at 1; rewrite take_drop, length_replicate, count_none;
    (split_and!; [done|done|apply matched_none_all|]).
  2: { replace j with 0 by lia. by rewrite take_0, plen_nil_r. }
  2, 3: replace i with 0 by lia; by rewrite take_0, plen_nil_l.
  destruct i as [|i]; [lia|]. destruct j as [|j]; [lia|]. rewrite !Nat.sub_succ, !Nat.sub_0_r.
  destruct (lookup_lt_is_Some_2 par i) as [x Hx]; [lia|]. destruct (lookup_lt_is_Some_2 cur j) as [y Hy]; [lia|].
  rewrite (index_lookup _ _ _ Hx). cbn [mbind outcome_bind]. rewrite (index_lookup _ _ _ Hy). cbn [mbind outcome_bind].
  rewrite (take_S_r _ _ _ Hx), (take_S_r _ _ _ Hy), plen_snoc.
  assert (length result ≥ S j) as Hlen.
  { pose proof (f_equal length Hres) as H. rewrite length_take, length_replicate in H. lia. }
  destruct (lookup_lt_is_Some_2 result j) as [z Hz]; [lia|].
  rewrite (take_S_r _ _ _ Hz), replicate_S_end in Hres. apply app_inj_2 in Hres as [Hres [= ->]]; [|done].
  case_bool_decide as Hxy.
  - subst y. destruct (IH i j (<[j := Z.of_nat i]> result)) as (ms & -> & Hl & Hm & Hc); [lia..| |].
    { rewrite take_insert_ge by lia. exact Hres. }
    exists (ms ++ [Z.of_nat i]). rewrite length_app, Hl, count_app, Hc. split_and!; [|cbn; lia| |].
    + f_equal. rewrite (drop_S (<[j := Z.of_nat i]> result) (Z.of_nat i) j) by (apply list_lookup_insert_eq; lia).
      rewrite drop_insert_lt by lia. by rewrite <- app_assoc.
    + eapply matched_some; [exact Hm|lia|exact Hx|by rewrite Hl].
    + unfold count. rewrite filter_cons, decide_True by lia. done.
  - rewrite !cell_spec by lia. cbn [mbind outcome_bind].
    rewrite (take_S_r _ _ _ Hx), (take_S_r _ _ _ Hy).
    destruct (Nat.leb_spec (plen (take i par ++ [x]) (take j cur)) (plen (take i par) (take j cur ++ [y]))) as [H|H].
    + destruct (IH i (S j) result) as (ms & -> & Hl & Hm & Hc); [lia..| |].
      { rewrite (take_S_r _ _ _ Hz), Hres, replicate_S_end. done. }
      exists ms. split_and!; [done|done|eapply (matched_weaken _ _ i); [lia|exact Hm]|].
      rewrite Hc, (take_S_r _ _ _ Hy). lia.
    + destruct (IH (S i) j result) as (ms & -> & Hl & Hm & Hc); [lia..|done|].
      exists (ms ++ [(-1)%Z]). rewrite length_app, Hl, count_app, Hc. split_and!; [|cbn; lia|by constructor|].
      * f_equal. rewrite (drop_S result _ j Hz). by rewrite <- app_assoc.
      * rewrite (take_S_r _ _ _ Hx). replace (count [(-1)%Z]) with 0 by done. lia.
Qed.

Lemma lcsMatch_ret par cur : ∃ res, lcsMatch par cur = Ret res ∧ length res = length cur ∧
  matched par cur (length par) res ∧ count res = plen par cur.
Proof.
  unfold lcsMatch. destruct (Nat.eqb_spec (length par) 0) as [Hp|Hp]; cbn [orb].
  { exists (replicate (length cur) (-1)%Z). rewrite length_replicate, count_none. apply nil_length_inv in Hp as ->.
    split_and!; [done|done|apply matched_none_all|done]. }
  destruct (Nat.eqb_spec (length cur) 0) as [Hc|Hc].
  { apply nil_length_inv in Hc as ->. exists []. split_and!; [done|done|constructor|by rewrite plen_nil_r]. }
  destruct (lcs_path_spec par cur (S (length par + length cur)) (length par) (length cur)
    (replicate (length cur) (-1)%Z)) as (ms & -> & Hl & Hm & Hcnt); [lia..| |].
  { by rewrite take_ge by by rewrite length_replicate. }
  exists ms. rewrite drop_ge by by rewrite length_replicate. rewrite app_nil_r, !take_ge in * by lia. done.
Qed.

(** ** Reading a file ends *)

Lemma bind_ends {E A B} (m : outcome E A) (f : A → outcome E B) :
  m ≠ NoFuel → (∀ a, m = Ret a → f a ≠ NoFuel) → m ≫= f ≠ NoFuel.
Proof. destruct m; cbn; auto. Qed.

Lemma wrap_ends {E F A} (f : E → F) (m : outcome E A) : m ≠ NoFuel → wrap_err f m ≠ NoFuel.
Proof. by destruct m. Qed.

Section ends.
Context {codec : Zlib}.

Lemma Load_ends q rid : Load q rid ≠ NoFuel.
Proof. unfold Load, Decompress. by repeat case_match. Qed.

Lemma Apply_ends c d : Apply (Some c) d ≠ NoFuel.
Proof.
  destruct (apply_safe_unless c d) as [Hs|(? & ? & ? & _ & _ & _ & Hp)]; [|by rewrite Hp].
  intros He. by rewrite He in Hs.
Qed.

Lemma Expand_ends q rid : Expand q rid ≠ NoFuel.
Proof.
  unfold Expand. destruct (rid <=? 0)%Z; [done|]. apply bind_ends.
  - unfold walkDeltaChain. destruct (rid <=? 0)%Z; [done|]. apply bind_ends; [|done].
    apply walk_fuel; [set_solver|]. rewrite size_empty. lia.
  - intros [|root deltas] _; [done|]. apply bind_ends; [apply Load_ends|]. intros c _. clear root. revert c.
    induction deltas as [|r l IH]; intros c; cbn [apply_chain]; [done|].
    apply bind_ends; [apply Load_ends|]. intros d _. apply bind_ends; [apply wrap_ends, Apply_ends|]. intros c' _. apply IH.
Qed.

Lemma Parse_ends data : Parse data ≠ NoFuel.
Proof.
  unfold Parse. destruct data as [data|]; [|done]. apply bind_ends.
  - unfold VerifyZ. destruct (_ <? _); [done|]. cbv zeta.
    do 3 (apply bind_ends; [unfold index; by case_match|]; intros ? _). by repeat case_match.
  - intros [] _. apply bind_ends; [|done].
    eapply (proj1 (parse_loop_spec _ _ _ _ (Nat.lt_succ_diag_r _))).
Qed.

Lemma read_ends d rid : read_manifest d rid ≠ NoFuel.
Proof.
  unfold read_manifest. apply bind_ends; [apply wrap_ends, Expand_ends|]. intros c _. apply wrap_ends, Parse_ends.
Qed.

Lemma loadFileAt_ends {order : Unordered} d rid path : loadFileAt d rid path ≠ NoFuel.
Proof.
  unfold loadFileAt. destruct (rid <=? 0)%Z; [done|]. destruct (bool_decide _); [done|]. apply bind_ends.
  - unfold ListFiles, GetManifest. apply bind_ends; [destruct (rid <=? 0)%Z; [done|apply read_ends]|]. intros dk _.
    destruct (bool_decide _); [done|]. apply bind_ends; [|done]. unfold read_deck.
    apply bind_ends; [apply wrap_ends; unfold Blob.Exists; by destruct (bool_decide _)|].
    intros [r|] _; [apply read_ends|done].
  - intros files _. destruct (filter _ files) as [|f l]; [done|].
    apply bind_ends; [apply wrap_ends; unfold Blob.Exists; by destruct (bool_decide _)|].
    intros [r|] _; [|done]. apply wrap_ends, Expand_ends.
Qed.
End ends.

(** ** What annotating gives *)

Section walks.
Context {codec : Zlib} {order : Unordered} {olaws : UnorderedLaws} {dates : DateColumn}.

(** Whether a line is matched. *)
Definition hit (ms : list Z) (k : nat) : bool := match ms !! k with Some z => (0 <=? z)%Z | None => false end.

(** What [push] leaves: the texts, and the version where a line is matched. *)
Lemma push_ret info ms : ∀ i l l', push i ms info l = Ret l' →
  ∀ k, l' !! k = (λ ln, MkLine (ln_Text ln) (if (i <=? k) && hit ms (k - i) then info else ln_Version ln)) <$> l !! k.
Proof.
  induction ms as [|z ms IH]; intros i l l'; cbn [push].
  { intros [= <-] k. unfold hit. cbn. rewrite andb_false_r. by destruct (l !! k) as [[]|]. }
  assert (∀ k, i < k → hit (z :: ms) (k - i) = hit ms (k - S i)) as Hs.
  { intros k Hk. unfold hit. replace (k - i) with (S (k - S i)) by lia. done. }
  destruct (Z.leb_spec 0 z) as [Hz|Hz].
  - destruct (l !! i) as [ln0|] eqn:Hi; [|done]. intros H k. rewrite (IH _ _ _ H).
    destruct (decide (k = i)) as [->|Hk].
    + rewrite list_lookup_insert_eq by (by eapply lookup_lt_Some). rewrite Hi. cbn [fmap option_fmap option_map ln_Text ln_Version].
      rewrite (proj2 (Nat.leb_gt (S i) i)) by lia. rewrite Nat.leb_refl, Nat.sub_diag. unfold hit. cbn.
      by rewrite (proj2 (Z.leb_le 0 z)) by lia.
    + rewrite list_lookup_insert_ne by done. destruct (l !! k); [|done]. cbn [fmap option_fmap option_map ln_Text ln_Version]. do 2 f_equal.
      destruct (Nat.leb_spec (S i) k), (Nat.leb_spec i k); try lia; cbn; [by rewrite Hs by lia|done].
  - intros H k. rewrite (IH _ _ _ H). destruct (l !! k); [|done]. cbn [fmap option_fmap option_map ln_Text ln_Version]. do 2 f_equal.
    destruct (decide (k = i)) as [->|Hk].
    + rewrite (proj2 (Nat.leb_gt (S i) i)) by lia. rewrite Nat.leb_refl, Nat.sub_diag. unfold hit. cbn.
      by rewrite (proj2 (Z.leb_gt 0 z)) by lia.
    + destruct (Nat.leb_spec (S i) k), (Nat.leb_spec i k); try lia; cbn; [by rewrite Hs by lia|done].
Qed.

(** Where [push] runs out of lines. *)
Lemma push_within info ms : ∀ i l,
  match push i ms info l with
  | Ret _ => ∀ k, hit ms k = true → i + k < length l
  | Panic => ∃ k, hit ms k = true ∧ length l ≤ i + k
  | _ => False
  end.
Proof.
  induction ms as [|z ms IH]; intros i l; cbn [push]; [by intros [|?]|].
  assert (∀ l0, length l0 = length l → match push (S i) ms info l0 with
    | Ret _ => ((0 <= z)%Z → i < length l) → ∀ k, hit (z :: ms) k = true → i + k < length l
    | Panic => ∃ k, hit (z :: ms) k = true ∧ length l ≤ i + k
    | _ => False end) as Hs.
  { intros l0 <-. specialize (IH (S i) l0). destruct (push (S i) ms info l0) as [l'| e| |]; [|done| |done].
    - intros Hz [|k] Hk; [unfold hit in Hk; cbn in Hk; apply Z.leb_le, Hz in Hk; lia|]. specialize (IH k Hk). lia.
    - destruct IH as (k & Hk & Hl). exists (S k). split; [exact Hk|lia]. }
  destruct (Z.leb_spec 0 z) as [Hz|Hz].
  - destruct (l !! i) as [ln0|] eqn:Hi.
    + specialize (Hs (<[i:=MkLine (ln_Text ln0) info]> l) (length_insert _ _ _)).
      destruct (push _ _ _ _) as [l'| e| |]; try done. apply Hs. intros _. by eapply lookup_lt_Some.
    + exists 0. split; [by apply Z.leb_le|]. apply lookup_ge_None in Hi. lia.
  - specialize (Hs l eq_refl). destruct (push _ _ _ _) as [l'| e| |]; try done. apply Hs. lia.
Qed.

(** The walk goes from [c] to its primary parent [p], with the file there. *)
Definition back_to (d : db) (opts : Options) (steps c p : Z) (info : VersionInfo) (content : bytes) : Prop :=
  ((op_Limit opts ≤ 0)%Z ∨ (steps < op_Limit opts)%Z) ∧ primaryParent d c = Some p ∧ (0 < p)%Z ∧
  ((op_OriginRID opts ≤ 0)%Z ∨ c ≠ op_OriginRID opts) ∧
  loadFileAt d p (op_FilePath opts) = Ret content ∧ versionInfoFor d p = Some info.

(** The older versions of the file that the walk sees, the newest first. *)
Inductive history (d : db) (opts : Options) : Z → Z → list (VersionInfo * list bytes) → Prop :=
  | history_end steps c : (∀ p info content, ¬ back_to d opts steps c p info content) → history d opts steps c []
  | history_back steps c p info content h : back_to d opts steps c p info content →
      history d opts (steps + 1) p h → history d opts steps c ((info, splitLines content) :: h).

(** [ms] is a longest matching of the lines of [cur] with those of [par]. *)
Definition longest (par cur : list bytes) (ms : list Z) : Prop :=
  length ms = length cur ∧ matched par cur (length par) ms ∧
  ∀ s, s `sublist_of` par → s `sublist_of` cur → length s ≤ count ms.

(** From the versions [vs] of the lines to [vs']: at each older version of the
    file, the indices of the lines of [cur] that are matched there take it. *)
Inductive blamed : list bytes → list VersionInfo → list (VersionInfo * list bytes) → list VersionInfo → Prop :=
  | blamed_end cur vs : blamed cur vs [] vs
  | blamed_back cur vs info par h ms vs' : longest par cur ms → (∀ k, hit ms k = true → k < length vs) →
      blamed par (imap (λ k v, if hit ms k then info else v) vs) h vs' →
      blamed cur vs ((info, par) :: h) vs'.

Lemma lcsMatch_ret_longest par cur : ∃ ms, lcsMatch par cur = Ret ms ∧ longest par cur ms.
Proof.
  destruct (lcsMatch_ret par cur) as (ms & H1 & H2 & H3 & H4). exists ms. split; [done|]. split_and!; [done..|].
  intros s Hp Hc. rewrite H4. by apply plen_max.
Qed.

Lemma push_versions info ms l l' : push 0 ms info l = Ret l' →
  map ln_Version l' = imap (λ k v, if hit ms k then info else v) (map ln_Version l) ∧ map ln_Text l' = map ln_Text l.
Proof.
  intros Hp. pose proof (push_ret _ _ _ _ _ Hp) as H. split; apply list_eq; intros k.
  - rewrite list_lookup_fmap, list_lookup_imap, list_lookup_fmap, H, Nat.sub_0_r. by destruct (l !! k).
  - rewrite !list_lookup_fmap, H. by destruct (l !! k).
Qed.

Lemma walk_blamed d opts fuel : ∀ steps c cur l l', walkParentChain fuel d opts steps c cur l = Ret l' →
  map ln_Text l' = map ln_Text l ∧
  ∃ h, history d opts steps c h ∧ blamed cur (map ln_Version l) h (map ln_Version l').
Proof.
  induction fuel as [|fuel IH]; intros steps c cur l l'; cbn [walkParentChain]; [done|].
  assert (l = l' → (∀ p info content, ¬ back_to d opts steps c p info content) →
    map ln_Text l' = map ln_Text l ∧ ∃ h, history d opts steps c h ∧ blamed cur (map ln_Version l) h (map ln_Version l')) as Hend.
  { intros -> Hn. split; [done|]. exists []. split; [by constructor|constructor]. }
  destruct (Z.ltb_spec 0 (op_Limit opts)), (Z.leb_spec (op_Limit opts) steps); cbn [andb];
    try (intros [= ?]; apply Hend; [done|]; intros ??? ([]&_); lia).
  all: destruct (primaryParent d c) as [p|] eqn:Hp; [|intros [= ?]; apply Hend; [done|]; intros ??? (_&?&_); congruence].
  all: destruct (Z.leb_spec p 0); [intros [= ?]; apply Hend; [done|]; intros ??? (_&Heq&?&_); rewrite Hp in Heq; injection Heq as <-; lia|].
  all: destruct (Z.ltb_spec 0 (op_OriginRID opts)), (Z.eqb_spec c (op_OriginRID opts)); cbn [andb];
    try (intros [= ?]; apply Hend; [done|]; intros ??? (_&_&_&[]&_); [lia|congruence]).
  all: destruct (loadFileAt d p _) as [content| err| |] eqn:Hld;
    [|intros [= ?]; apply Hend; [done|]; intros ??? (_&Heq&_&_&?&_); rewrite Hp in Heq; injection Heq as <-; congruence|done..].
  all: destruct (versionInfoFor d p) as [info|] eqn:Hi;
    [|intros [= ?]; apply Hend; [done|]; intros ??? (_&Heq&_&_&_&?); rewrite Hp in Heq; injection Heq as <-; congruence].
  all: cbv zeta; destruct (lcsMatch_ret_longest (splitLines content) cur) as (ms & -> & Hms); cbn [mbind outcome_bind];
    intros H'; apply bind_ret_inv in H' as (l1 & Hp1 & Hw1);
    pose proof (push_within info ms 0 l) as Hw; rewrite Hp1 in Hw;
    destruct (push_versions _ _ _ _ Hp1) as [V1 T1]; destruct (IH _ _ _ _ _ Hw1) as (T2 & h & Hh & Hb);
    (split; [congruence|]); exists ((info, splitLines content) :: h);
    (split; [by (eapply (history_back _ _ _ _ p); [split_and!; eauto|])|]);
    rewrite V1 in Hb; (eapply blamed_back; [exact Hms| |exact Hb]); intros k Hk; rewrite length_map; by apply Hw.
Qed.

(** A walk that panics meets a file that does not load, or one that is longer
    than at the start. *)
Lemma walk_panics d opts fuel : ∀ steps c content l, loadFileAt d c (op_FilePath opts) = Ret content →
  walkParentChain fuel d opts steps c (splitLines content) l = Panic →
  ∃ r, rtc (back d) c r ∧ (loadFileAt d r (op_FilePath opts) = Panic ∨
    ∃ older, loadFileAt d r (op_FilePath opts) = Ret older ∧ length l < length (splitLines older)).
Proof.
  induction fuel as [|fuel IH]; intros steps c content l Hc; cbn [walkParentChain]; [done|].
  destruct (_ && _); [done|]. destruct (primaryParent d c) as [p|] eqn:Hp; [|done].
  destruct (_ <=? 0)%Z; [done|]. destruct (_ && _); [done|].
  destruct (loadFileAt d p _) as [pc| e| |] eqn:Hld; [|done| |done].
  2: { intros _. exists p. split; [by apply rtc_once|by left]. }
  destruct (versionInfoFor d p) as [info|]; [|done]. cbv zeta.
  destruct (lcsMatch_ret_longest (splitLines pc) (splitLines content)) as (ms & -> & Hms & _). cbn [mbind outcome_bind].
  pose proof (push_within info ms 0 l) as Hw. destruct (push 0 ms info l) as [l1| | |] eqn:H1; cbn [mbind outcome_bind]; try done.
  - intros (r & Hr & Hcase)%(IH _ _ pc); [|done]. exists r. split; [by eapply rtc_l|].
    destruct (push_versions _ _ _ _ H1) as [_ T]. apply (f_equal length) in T. rewrite !length_map in T. by rewrite <- T.
  - intros _. destruct Hw as (k & Hk & Hl). exists c. split; [apply rtc_refl|]. right. exists content. split; [done|].
    unfold hit in Hk. destruct (ms !! k) eqn:Hmk; [|done]. apply lookup_lt_Some in Hmk. lia.
Qed.

Lemma push_ends info ms : ∀ i l, push i ms info l ≠ NoFuel.
Proof.
  induction ms as [|z ms IH]; intros i l; cbn [push]; [done|].
  destruct (_ <=? _)%Z; [destruct (l !! i); [|done]|]; apply IH.
Qed.

Lemma walk_no_fail d opts fuel e : ∀ steps c cur l, walkParentChain fuel d opts steps c cur l ≠ Fail e.
Proof.
  induction fuel as [|fuel IH]; intros steps c cur l; cbn [walkParentChain]; [done|].
  destruct (_ && _); [done|]. destruct (primaryParent d c) as [p|]; [|done]. destruct (_ <=? 0)%Z; [done|].
  destruct (_ && _); [done|]. destruct (loadFileAt d p _) as [pc| | |]; try done.
  destruct (versionInfoFor d p) as [info|]; [|done]. cbv zeta.
  destruct (lcsMatch_ret (splitLines pc) cur) as (ms & -> & _). cbn [mbind outcome_bind].
  pose proof (push_within info ms 0 l) as Hw. by destruct (push 0 ms info l); cbn [mbind outcome_bind].
Qed.

(** A walk without end goes in a circle. *)
Lemma walk_runs d opts fuel : ∀ steps c cur l, walkParentChain fuel d opts steps c cur l = NoFuel →
  ∃ k, walk d c k ∧ length k = fuel.
Proof.
  induction fuel as [|fuel IH]; intros steps c cur l; cbn [walkParentChain]; [intros _; exists []; split; [constructor|done]|].
  destruct (_ && _); [done|]. destruct (primaryParent d c) as [p|] eqn:Hp; [|done].
  destruct (_ <=? 0)%Z; [done|]. destruct (_ && _); [done|]. destruct (loadFileAt d p _) as [content| e| |] eqn:Hld; try done.
  - destruct (versionInfoFor d p); [|done]. cbv zeta.
    destruct (lcsMatch_ret (splitLines content) cur) as (ms & -> & _). cbn [mbind outcome_bind].
    destruct (push 0 ms v l) as [l1| | |] eqn:Hpush; cbn [mbind outcome_bind]; try done; [|by destruct (push_ends v ms 0 l)].
    intros (k & Hk & Hn)%IH. exists (c :: k). split; [by econstructor|cbn; lia].
  - by destruct (loadFileAt_ends d p (op_FilePath opts)).
Qed.

Lemma walk_limit d opts fuel : ∀ steps c cur l, (0 < op_Limit opts)%Z → (steps ≤ op_Limit opts)%Z →
  (op_Limit opts < steps + Z.of_nat fuel)%Z → walkParentChain fuel d opts steps c cur l ≠ NoFuel.
Proof.
  induction fuel as [|fuel IH]; intros steps c cur l Hl Hn Hf; [lia|cbn [walkParentChain]].
  rewrite (proj2 (Z.ltb_lt 0 (op_Limit opts))) by done. cbn [andb]. destruct (Z.leb_spec (op_Limit opts) steps); [done|].
  destruct (primaryParent d c) as [p|]; [|done]. destruct (p <=? 0)%Z; [done|]. destruct (_ && _); [done|].
  destruct (loadFileAt d p _) as [content| e| |] eqn:Hld; try done; [|by destruct (loadFileAt_ends d p (op_FilePath opts))].
  destruct (versionInfoFor d p); [|done]. cbv zeta.
  destruct (lcsMatch_ret (splitLines content) cur) as (ms & -> & _). cbn [mbind outcome_bind].
  apply bind_ends; [apply push_ends|]. intros l1 _. apply IH; lia.
Qed.

End walks.

(** ** Properties *)

(** [lcsMatch] is right: it gives every line of [cur] a line of [par] or none;
    matched lines are equal and their indices increase; and no matching of that
    kind has more lines. *)
Theorem lcsMatch_longest par cur :
  ∃ res, lcsMatch par cur = Ret res ∧ length res = length cur ∧ matched par cur (length par) res ∧
    ∀ s, s `sublist_of` par → s `sublist_of` cur → length s ≤ count res.
Proof.
  destruct (lcsMatch_ret par cur) as (res & H1 & H2 & H3 & H4). exists res. split_and!; [done|done|done|].
  intros s Hp Hc. rewrite H4. by apply plen_max.
Qed.

(** C35. [Annotate] exactly: what it returns are the lines of the file at the
    start, in order. Each begins with the start as its version; then, for each
    older version of the file that the limit and the origin let the walk see,
    the newest first, the indices of the lines that a longest matching pairs
    with a line of its primary parent take that parent. With one older version
    that is the right blame. From the second on the indices are those of the
    parent's file (the findings give the wrong lines), and so it panics only if
    a version of the file does not load or is longer than at the start. It ends
    unless the primary parents run in a circle and no limit is set. *)
Theorem Annotate_blames {codec : Zlib} {order : Unordered} {olaws : UnorderedLaws} {dates : DateColumn} d opts :
  match Annotate d opts with
  | Ret l => ∃ content info h,
      loadFileAt d (op_StartRID opts) (op_FilePath opts) = Ret content ∧
      versionInfoFor d (op_StartRID opts) = Some info ∧
      map ln_Text l = splitLines content ∧
      (splitLines content = [] ∨ history d opts 0 (op_StartRID opts) h ∧
        blamed (splitLines content) (replicate (length l) info) h (map ln_Version l))
  | Fail e => (op_StartRID opts ≤ 0)%Z ∨ op_FilePath opts = [] ∨
      loadFileAt d (op_StartRID opts) (op_FilePath opts) = Fail e ∨ versionInfoFor d (op_StartRID opts) = None
  | Panic => ∃ r, rtc (back d) (op_StartRID opts) r ∧
      (loadFileAt d r (op_FilePath opts) = Panic ∨ ∃ content older,
        loadFileAt d (op_StartRID opts) (op_FilePath opts) = Ret content ∧
        loadFileAt d r (op_FilePath opts) = Ret older ∧ length (splitLines content) < length (splitLines older))
  | NoFuel => (op_Limit opts ≤ 0)%Z ∧ ∃ c, tc (back d) c c
  end.
Proof.
  unfold Annotate. destruct (Z.leb_spec (op_StartRID opts) 0); [by left|]. case_bool_decide; [by right; left|].
  destruct (loadFileAt d _ _) as [content|e| |] eqn:Hld; cbn [mbind outcome_bind]; [|by right; right; left| |].
  2: { exists (op_StartRID opts). split; [apply rtc_refl|by left]. }
  2: by destruct (loadFileAt_ends d (op_StartRID opts) (op_FilePath opts)).
  destruct (versionInfoFor d (op_StartRID opts)) as [info|] eqn:Hi; [|by right; right; right]. cbv zeta.
  set (ls := map (λ l, MkLine l info) (splitLines content)).
  assert (map ln_Text ls = splitLines content) as HT by (unfold ls; rewrite map_map; apply map_id).
  assert (length ls = length (splitLines content)) as HL by apply length_map.
  assert (map ln_Version ls = replicate (length ls) info) as HV.
  { unfold ls. rewrite map_map, length_map. cbn. clear. induction (splitLines content) as [|y k IH]; [done|]. cbn. f_equal. exact IH. }
  destruct (Nat.eqb_spec (length ls) 0) as [Hz|_].
  { exists content, info, []. split_and!; [done..|]. left. apply length_zero_iff_nil. lia. }
  destruct (walkParentChain _ _ _ _ _ _ _) as [l|e| |] eqn:Hw.
  - destruct (walk_blamed _ _ _ _ _ _ _ _ Hw) as (T & h & Hh & Hb). exists content, info, h.
    split_and!; [done..|congruence|]. right. split; [done|]. apply (f_equal length) in T. rewrite !length_map in T. by rewrite T, <- HV.
  - by destruct (walk_no_fail _ _ _ _ _ _ _ _ Hw).
  - destruct (walk_panics _ _ _ _ _ _ _ Hld Hw) as (r & Hr & [?|(older & ? & ?)]); exists r; (split; [done|]); [by left|].
    right. exists content, older. split_and!; [done..|]. by rewrite <- HL.
  - unfold log_fuel in Hw. destruct (Z.ltb_spec 0 (op_Limit opts)) as [Hl|Hl].
    { apply walk_limit in Hw; [done|done|lia|lia]. }
    split; [done|]. apply walk_runs in Hw as (k & Hk & Hn). apply (walk_repeats d _ k Hk).
    intros Hd. pose proof (walk_length d _ k Hk Hd). lia.
Qed.

(** ** Witnesses and findings *)

#[local] Existing Instance stored.
#[local] Existing Instance test_sqlite.
#[local] Existing Instance test_order.
#[local] Existing Instance test_order_laws.
#[local] Instance float_dates : DateColumn := { scan_date := ScannedFloat }.

(** A file with a new text in each check-in. *)
Definition versions (texts : list (bytes * bytes)) : db * Z :=
  foldl (λ s t, let '(d, rid, _) := after_checkin s.1
      (MkCheckinOpts [MkSource (str "f") t.2 []] (str "edit") t.1 s.2 [] false when []) in (d, rid))
    (CreateRepoSchema, 0%Z) texts.

(** The lines of the last version and who changed them. *)
Definition blame (texts : list (bytes * bytes)) (limit : Z) : out (list (bytes * bytes)) :=
  let '(d, rid) := versions texts in
  l ← Annotate d (MkOptions (str "f") rid limit 0);
  Ret (map (λ ln, (ln_Text ln, vi_User (ln_Version ln))) l).

Definition nl (ls : list string) : bytes := concat (map (λ l, str l ++ [NL]) ls).
Definition two_versions : list (bytes * bytes) := [(str "ann", nl ["one"%string]); (str "bob", nl ["zero"%string; "one"%string])].

Lemma two_annotated : ∃ d rid l, versions two_versions = (d, rid) ∧
  Annotate d (MkOptions (str "f") rid 0 0) = Ret l ∧ map ln_Text l = [str "zero"; str "one"].
Proof.
  assert (match versions two_versions with (d, rid) =>
    match Annotate d (MkOptions (str "f") rid 0 0) with
    | Ret l => bool_decide (map ln_Text l = [str "zero"; str "one"]) | _ => false end end = true) as H
    by (vm_compute; reflexivity).
  destruct (versions two_versions) as [d rid]. exists d, rid.
  destruct (Annotate d _) as [l|e| |]; [|discriminate H..]. exists l. apply bool_decide_eq_true in H. done.
Qed.

Lemma Annotate_blames_witness : ∃ d rid l info h, versions two_versions = (d, rid) ∧
  Annotate d (MkOptions (str "f") rid 0 0) = Ret l ∧ history d (MkOptions (str "f") rid 0 0) 0 rid h ∧
  blamed [str "zero"; str "one"] (replicate (length l) info) h (map ln_Version l).
Proof.
  destruct two_annotated as (d & rid & l & Hv & Hl & Ht).
  pose proof (Annotate_blames d (MkOptions (str "f") rid 0 0)) as H. rewrite Hl in H.
  destruct H as (content & info & h & _ & _ & Hs & Hb). rewrite Ht in Hs. rewrite <- Hs in Hb.
  destruct Hb as [Hb|Hb]; [discriminate Hb|].
  exists d, rid, l, info, h. exact (conj Hv (conj Hl Hb)).
Defined.

(** One step back is right. *)
Example one_step : blame two_versions 0 = Ret [(str "zero", str "bob"); (str "one", str "ann")].
Proof. vm_compute. reflexivity. Qed.

(** From the second step on the indices are those of the parent's file, but the
    result is that of the start: the line [new] of [bob] goes to [ann] here, and
    her line [old] to [bob]. *)
Example second_step_blames_wrong_lines :
  blame [(str "ann", nl ["old"%string]); (str "bob", nl ["new"%string; "old"%string]);
         (str "eve", nl ["newest"%string; "new"%string; "old"%string])] 0
  = Ret [(str "newest", str "eve"); (str "new", str "ann"); (str "old", str "bob")].
Proof. vm_compute. reflexivity. Qed.

(** And it panics when the file was longer before. *)
Example second_step_panics :
  blame [(str "ann", nl ["a"%string; "b"%string; "c"%string]); (str "bob", nl ["a"%string; "b"%string]);
         (str "eve", nl ["a"%string])] 0 = Panic.
Proof. vm_compute. reflexivity. Qed.
