(* ===== verification/Branch.v ===== *)
(** * Branches (src/internal/branch/branch.go)

    A branch is a tag: [branch] with the name as its value, and [sym-] before the
    name.  [Create] makes a check-in with the files of its parent and these tags,
    [List] groups the tagged check-ins by branch, [Close] tags the latest one. *)
From S2P Require Import Prelude GoStrings Hash Zlib Deck Julian Quote Blob Db Content Receive Tag Crosslink Linked Checkin CheckinLinked.
From stdpp Require Import list gmap sets.

Abbreviation out := (outcome db_error).

Record CreateOpts := MkCreateOpts { co_Name : bytes; co_Parent : Z; co_User : bytes; co_Time : time; co_Color : bytes }.
Record Branch := MkBranch {
  br_Name : bytes; br_LastMTime : julian; br_IsClosed : bool; br_CheckinCount : Z; br_LatestUUID : bytes }.

Section branch.
Context {codec : Zlib} {sqlite : Sqlite} {order : Unordered}.

(** ** Creating a branch *)

Fixpoint parent_contents (d : db) (entries : list FileEntry) : out (list File) :=
  match entries with
  | [] => Ret []
  | e :: entries =>
    ex ← in_repo (Blob.Exists (d_repo d) (fe_UUID e));
    match ex with
    | None => Fail ENoRows
    | Some frid =>
      data ← in_repo (Expand (d_repo d) frid);
      rest ← parent_contents d entries;
      Ret (MkSource (fe_Name e) data (fe_Perm e) :: rest)
    end
  end.

(** The rows of [tagxref JOIN tag] for tags that are not cancelled: the name of the
    tag, the artifact and the row. *)
Definition tagged (d : db) : list (bytes * Z * tagRow) :=
  omap (λ p : Z * Z * tagRow, name ← tag_name d p.1.1; Some (name, p.1.2, p.2))
    (any_order (filter (λ p, (0 < tx_tagtype p.2)%Z) (map_to_list (d_tagxref d)))).

Definition old_syms (d : db) (parent : Z) : list bytes :=
  map (λ t, t.1.1) (filter (λ t, t.1.2 = parent ∧ HasPrefix t.1.1 (str "sym-") = true) (tagged d)).

Definition branch_tags (opts : CreateOpts) (oldSyms : list bytes) : list TagCard :=
  [MkTagCard "*"%byte (str "branch") (str "*") (co_Name opts);
   MkTagCard "*"%byte (str "sym-" ++ co_Name opts) (str "*") []] ++
  map (λ old, MkTagCard "-"%byte old (str "*") []) oldSyms ++
  (if bool_decide (co_Color opts = []) then [] else [MkTagCard "*"%byte bgcolor (str "*") (co_Color opts)]).

Fixpoint processInlineTags (rid : Z) (tags : list TagCard) (julianMtime : julian) (d : db) : kept db :=
  match tags with
  | [] => Ret d
  | tc :: tags =>
    d ← (if negb (bool_decide (tc_UUID tc = self)) then Ret d else
         match tag_type (tc_Type tc) with
         | None => Ret d
         | Some tagType => ApplyTag d (MkApplyOpts rid rid (tc_Name tc) tagType (tc_Value tc) julianMtime)
         end);
    processInlineTags rid tags julianMtime d
  end.

Definition Create (now : time) (d : db) (opts : CreateOpts) : outcome (db * db_error) (db * Z * bytes) :=
  if bool_decide (co_Name opts = []) then Panic else
  if (co_Parent opts <=? 0)%Z then Panic else
  if bool_decide (co_User opts = []) then Panic else
  let t := if IsZero (co_Time opts) then now else co_Time opts in
  entries ← unchanged d (ListFiles d (co_Parent opts));
  files ← unchanged d (parent_contents d entries);
  let tags := branch_tags opts (old_syms d (co_Parent opts)) in
  '(d, rid, uuid) ← Checkin now d (MkCheckinOpts files (str "Create branch " ++ co_Name opts) (co_User opts)
                       (co_Parent opts) [] false t tags);
  d ← processInlineTags rid tags (TimeToJulian t) d;
  Ret (d, rid, uuid).

(** ** Listing branches *)

(** The check-ins of branches: the value of the tag, the check-in, its event. *)
Definition branch_rows (d : db) : list (option bytes * Z * eventRow) :=
  omap (λ t : bytes * Z * tagRow, e ← k_event (d_links d) !! t.1.2; Some (tx_value t.2, t.1.2, e))
    (filter (λ t, t.1.1 = str "branch") (tagged d)).

(** [ORDER BY event.mtime DESC] *)
Definition newest_first (rows : list (option bytes * Z * eventRow)) : list (option bytes * Z * eventRow) :=
  sort_slice (λ x y : option bytes * Z * eventRow, f_ltb (ev_mtime y.2) (ev_mtime x.2)) rows.

(** A check-in of the branch has the tag [closed]. *)
Definition is_closed (d : db) (value : option bytes) : bool :=
  existsb (λ t : bytes * Z * tagRow, bool_decide (t.1.1 = str "closed") &&
    existsb (λ t' : bytes * Z * tagRow, bool_decide (t'.1.1 = str "branch" ∧ t'.1.2 = t.1.2 ∧ tx_value t'.2 = value))
      (tagged d)) (tagged d).

(** The uuid of the newest check-in of the branch that is in [blob]. *)
Definition latest (d : db) (value : option bytes) : option bytes :=
  head (omap (λ r : option bytes * Z * eventRow, uuid_at d r.1.2)
    (newest_first (filter (λ r, r.1.1 = value ∧ is_Some (uuid_at d r.1.2)) (branch_rows d)))).

(** One row of the result; NULL cannot be scanned. *)
Definition scan_branch (d : db) (value : option bytes) : out Branch :=
  let rows := filter (λ r, r.1.1 = value) (branch_rows d) in
  match value, newest_first rows, latest d value with
  | Some name, r :: _, Some uuid =>
    Ret (MkBranch name (ev_mtime r.2) (is_closed d value) (zlen rows) uuid)
  | _, _, _ => Fail EScan
  end.

Fixpoint scan_branches (d : db) (values : list (option bytes)) : out (list Branch) :=
  match values with
  | [] => Ret []
  | v :: values => b ← scan_branch d v; bs ← scan_branches d values; Ret (b :: bs)
  end.

(** [GROUP BY tagxref.value] *)
Definition List (d : db) : out (list Branch) :=
  scan_branches d (any_order (remove_dups (map (λ r, r.1.1) (branch_rows d)))).

(** ** Closing a branch *)

Definition branch_tip (d : db) (name : bytes) : option Z :=
  (λ r, r.1.2) <$> head (newest_first (filter (λ r, r.1.1 = Some name) (branch_rows d))).

Definition Close (now : time) (d : db) (name user : bytes) : out db :=
  if bool_decide (name = []) then Panic else
  match branch_tip d name with
  | None => Fail ENoRows
  | Some tipRID =>
    '(d, _) ← AddTag now d (MkTagOpts tipRID (str "closed") TagSingleton [] user time_zero);
    Ret d
  end.
End branch.

(** ** Lemmas *)


(** The first of the sorted rows is as new as any. *)
Lemma newest_first_head rows r rest : newest_first rows = r :: rest →
  r ∈ rows ∧ ∀ r', r' ∈ rows → f_ltb (ev_mtime r.2) (ev_mtime r'.2) = false.
Proof.
  apply (sort_slice_head (λ x y : option bytes * Z * eventRow, f_ltb (ev_mtime y.2) (ev_mtime x.2))).
  - intros x. apply f_ltb_irrefl.
  - intros x y z H1 H2. by eapply f_ltb_trans.
Qed.

Lemma newest_first_nil rows : newest_first rows = [] → rows = [].
Proof.
  intros H. pose proof (sort_slice_perm (λ x y : option bytes * Z * eventRow, f_ltb (ev_mtime y.2) (ev_mtime x.2)) rows) as Hp.
  unfold newest_first in H. rewrite H in Hp. by apply Permutation_nil in Hp.
Qed.

Section spec.
Context {codec : Zlib} {sqlite : Sqlite} {order : Unordered} {olaws : UnorderedLaws}.

(** No two tags share an id. *)
Definition tagids_ok (d : db) : Prop :=
  ∀ n n' t, k_tag (d_links d) !! n = Some t → k_tag (d_links d) !! n' = Some t → n = n'.

Lemma tag_name_Some d t n : tagids_ok d → tag_name d t = Some n ↔ k_tag (d_links d) !! n = Some t.
Proof.
  intros Hok. unfold tag_name. set (l := filter _ _).
  assert (∀ p, p ∈ l ↔ p.2 = t ∧ k_tag (d_links d) !! p.1 = Some p.2) as Hl.
  { intros [a b]. unfold l. by rewrite list_elem_of_filter, elem_of_map_to_list. }
  destruct l as [|[a b] l]; cbn; split; try done.
  - intros H. exfalso. apply (not_elem_of_nil (n, t)). by apply Hl.
  - intros [= ->]. destruct (proj1 (Hl (n, b))) as [Hb Hk]; [by left|]. cbn in *. by subst.
  - intros H. destruct (proj1 (Hl (a, b))) as [Hb Hk]; [by left|]. cbn in *. subst. by rewrite (Hok _ _ _ H Hk).
Qed.

Lemma elem_tagged d name rid r :
  (name, rid, r) ∈ tagged d ↔
  ∃ t, tag_name d t = Some name ∧ d_tagxref d !! (t, rid) = Some r ∧ (0 < tx_tagtype r)%Z.
Proof.
  unfold tagged. rewrite list_elem_of_omap. split.
  - intros ([[t o] r'] & Hin & Hs). cbn [fst snd] in Hs. rewrite any_order_perm in Hin.
    apply list_elem_of_filter in Hin as [Hty Hin%elem_of_map_to_list].
    destruct (tag_name d t) as [n|] eqn:E; [|done]. cbn in Hs. injection Hs as -> -> ->. by exists t.
  - intros (t & Hn & Hx & Hty). exists ((t, rid), r). split; [|cbn [fst snd]; by rewrite Hn].
    rewrite any_order_perm. apply list_elem_of_filter. split; [done|]. by apply elem_of_map_to_list.
Qed.

Lemma elem_branch_rows d v rid e :
  (v, rid, e) ∈ branch_rows d ↔
  ∃ r, (str "branch", rid, r) ∈ tagged d ∧ tx_value r = v ∧ k_event (d_links d) !! rid = Some e.
Proof.
  unfold branch_rows. rewrite list_elem_of_omap. split.
  - intros ([[n o] r] & [Hn Hin]%list_elem_of_filter & Hs). cbn [fst snd] in *. subst n.
    destruct (_ !! o) as [e'|] eqn:E; [|done]. cbn in Hs. injection Hs as <- -> ->. by exists r.
  - intros (r & Hin & <- & He). exists ((str "branch", rid), r). split; [by apply list_elem_of_filter|].
    cbn [fst snd]. by rewrite He.
Qed.

Lemma is_closed_true d v : is_closed d v = true ↔
  ∃ rid r r', (str "closed", rid, r) ∈ tagged d ∧ (str "branch", rid, r') ∈ tagged d ∧ tx_value r' = v.
Proof.
  unfold is_closed. rewrite existsb_exists. setoid_rewrite <- list_elem_of_In. split.
  - intros ([[n rid] r] & Hin & [H1 H2]%andb_true_iff). cbn [fst snd] in *.
    apply bool_decide_eq_true in H1 as ->. apply existsb_exists in H2 as ([[n' rid'] r'] & Hin' & H).
    apply bool_decide_eq_true in H as (? & ? & ?). cbn in *. subst. apply list_elem_of_In in Hin'. by exists rid, r, r'.
  - intros (rid & r & r' & Hin & Hin' & Hv). exists (str "closed", rid, r). split; [done|]. apply andb_true_iff. split; [done|].
    apply existsb_exists. exists (str "branch", rid, r'). split; [by apply list_elem_of_In|]. by apply bool_decide_eq_true.
Qed.

(** The check-ins of a branch. *)
Definition of_branch (d : db) (name : bytes) : list (option bytes * Z * eventRow) :=
  filter (λ r, r.1.1 = Some name) (branch_rows d).

(** What a listed branch says about the repository. *)
Record describes (d : db) (b : Branch) : Prop := {
  ds_count : br_CheckinCount b = zlen (of_branch d (br_Name b));
  ds_mtime : ∃ r, r ∈ of_branch d (br_Name b) ∧ ev_mtime r.2 = br_LastMTime b ∧
    ∀ r', r' ∈ of_branch d (br_Name b) → f_ltb (br_LastMTime b) (ev_mtime r'.2) = false;
  ds_latest : ∃ r, r ∈ of_branch d (br_Name b) ∧ uuid_at d r.1.2 = Some (br_LatestUUID b) ∧
    ∀ r', r' ∈ of_branch d (br_Name b) → is_Some (uuid_at d r'.1.2) → f_ltb (ev_mtime r.2) (ev_mtime r'.2) = false;
  ds_closed : br_IsClosed b = true ↔ ∃ rid r r',
    (str "closed", rid, r) ∈ tagged d ∧ (str "branch", rid, r') ∈ tagged d ∧ tx_value r' = Some (br_Name b)
}.

Lemma latest_Some d name uuid : latest d (Some name) = Some uuid →
  ∃ r, r ∈ of_branch d name ∧ uuid_at d r.1.2 = Some uuid ∧
    ∀ r', r' ∈ of_branch d name → is_Some (uuid_at d r'.1.2) → f_ltb (ev_mtime r.2) (ev_mtime r'.2) = false.
Proof.
  unfold latest. set (rows := filter _ _). intros H.
  destruct (newest_first rows) as [|r rest] eqn:E; [done|].
  destruct (newest_first_head rows r rest E) as [Hr Hmax].
  apply list_elem_of_filter in Hr as [[Hv Hu] Hin].
  cbn [omap list_omap] in H. destruct Hu as [u Hu]. rewrite Hu in H. cbn in H. injection H as ->.
  exists r. split; [by apply list_elem_of_filter|]. split; [done|].
  intros r' [Hv' Hin']%list_elem_of_filter Hu'. apply Hmax. by apply list_elem_of_filter.
Qed.

Lemma scan_branch_ok d name :
  (∃ r, r ∈ of_branch d name) → (∀ r, r ∈ of_branch d name → is_Some (uuid_at d r.1.2)) →
  ∃ b, scan_branch d (Some name) = Ret b ∧ br_Name b = name ∧ describes d b.
Proof.
  intros [r Hr] Hu. unfold scan_branch. fold (of_branch d name).
  destruct (newest_first (of_branch d name)) as [|top rest] eqn:E.
  { apply newest_first_nil in E. rewrite E in Hr. by apply not_elem_of_nil in Hr. }
  pose proof (newest_first_head _ _ _ E) as [Ht Hmax].
  destruct (latest d (Some name)) as [uuid|] eqn:El.
  2:{ exfalso. unfold latest in El. set (rows := filter _ _) in El.
      destruct (newest_first rows) as [|r1 rest1] eqn:E1.
      - apply newest_first_nil in E1. assert (r ∈ rows) as H.
        { apply list_elem_of_filter in Hr as [Hv Hin]. apply list_elem_of_filter. split; [|done]. split; [done|].
          apply Hu. by apply list_elem_of_filter. }
        rewrite E1 in H. by apply not_elem_of_nil in H.
      - destruct (newest_first_head rows r1 rest1 E1) as [[[_ [u Hu1]] _]%list_elem_of_filter _].
        cbn [omap list_omap] in El. by rewrite Hu1 in El. }
  eexists. split; [reflexivity|]. split; [done|]. split; cbn [br_Name br_CheckinCount br_LastMTime br_LatestUUID br_IsClosed].
  - done.
  - by exists top.
  - by apply latest_Some.
  - apply is_closed_true.
Qed.

Lemma scan_branches_ok d values :
  (∀ v, v ∈ values → ∃ b, scan_branch d v = Ret b ∧ v = Some (br_Name b) ∧ describes d b) →
  ∃ bs, scan_branches d values = Ret bs ∧ map (λ b, Some (br_Name b)) bs = values ∧
    ∀ b, b ∈ bs → describes d b.
Proof.
  induction values as [|v values IH]; intros H.
  { exists []. split; [done|]. split; [done|]. intros b Hb. by apply not_elem_of_nil in Hb. }
  destruct (H v) as (b & Hs & Hv & Hd); [by left|]. destruct IH as (bs & Hbs & Hm & Hds).
  { intros v' Hv'. apply H. by right. }
  exists (b :: bs). cbn [scan_branches map]. rewrite Hs, Hbs, Hm, Hv. split; [done|]. split; [done|].
  intros b' [->|Hb']%elem_of_cons; auto.
Qed.

(** C36. [List] returns each branch once: it does not fail if the branches have
    names and their check-ins are in [blob]. A branch is listed exactly if an
    uncancelled tag [branch] of a check-in with an event names it, with the
    number of these check-ins, the time of a newest one and its uuid, and as
    closed exactly if one of its check-ins has the tag [closed]. *)
Theorem List_spec d :
  (∀ r, r ∈ branch_rows d → is_Some r.1.1 ∧ is_Some (uuid_at d r.1.2)) →
  ∃ bs, List d = Ret bs ∧ NoDup (map br_Name bs) ∧ (∀ b, b ∈ bs → describes d b) ∧
    ∀ name, name ∈ map br_Name bs ↔ ∃ r, r ∈ branch_rows d ∧ r.1.1 = Some name.
Proof.
  intros Hrows. unfold List.
  assert (∀ v, v ∈ any_order (remove_dups (map (λ r, r.1.1) (branch_rows d))) ↔ ∃ r, r ∈ branch_rows d ∧ r.1.1 = v) as Hv.
  { intros v. rewrite any_order_perm, elem_of_remove_dups, list_elem_of_fmap. naive_solver. }
  destruct (scan_branches_ok d (any_order (remove_dups (map (λ r, r.1.1) (branch_rows d))))) as (bs & Hbs & Hm & Hd).
  { intros v (r & Hin & Hr)%Hv. destruct (Hrows r Hin) as [[name Hname] _]. rewrite Hname in Hr. subst v.
    destruct (scan_branch_ok d name) as (b & Hb & Hn & Hdb).
    - exists r. by apply list_elem_of_filter.
    - intros r' [_ Hr']%list_elem_of_filter. by apply Hrows.
    - exists b. rewrite Hn. by split. }
  exists bs. split; [done|].
  assert (map (λ b, Some (br_Name b)) bs = map Some (map br_Name bs)) as Hmap by by rewrite map_map.
  split_and!.
  - apply (NoDup_fmap_1 Some). change (NoDup (map Some (map br_Name bs))). rewrite <- Hmap, Hm, any_order_perm. apply NoDup_remove_dups.
  - done.
  - intros name. rewrite <- Hv, <- Hm, Hmap. split.
    + intros H. by apply (list_elem_of_fmap_2 Some).
    + intros (n & [= ->] & Hn)%list_elem_of_fmap. done.
Qed.

(** Closing: a tag [closed] on a newest check-in of the branch. *)
Lemma ensureTag_ok d name d' t : tagids_ok d → ensureTag d name = Ret (d', t) →
  k_tag (d_links d') !! name = Some t ∧ (∀ n, n ≠ name → k_tag (d_links d') !! n = k_tag (d_links d) !! n) ∧ tagids_ok d' ∧
  d_tagxref d' = d_tagxref d ∧ k_event (d_links d') = k_event (d_links d).
Proof.
  intros Hok. unfold ensureTag. case_bool_decide; [done|].
  destruct (k_tag (d_links d) !! name) as [t'|] eqn:E. { intros [= <- <-]. split_and!; done. }
  set (new := next_rowid _). intros [= <- <-].
  assert (∀ n, k_tag (d_links d) !! n ≠ Some new) as Hnew.
  { intros n Hn. assert (new < new)%Z; [|lia]. apply next_rowid_fresh, list_elem_of_fmap.
    exists (n, new). split; [done|]. by apply elem_of_map_to_list. }
  split_and!; [by apply lookup_insert_eq|intros n Hn; by apply lookup_insert_ne| |done|done].
  intros n n' t. change (k_tag _) with (<[name:=new]> (k_tag (d_links d))).
  rewrite !lookup_insert_Some. intros [[<- <-]|[Hn H1]] [[<- H2]|[Hn' H2]]; subst; try done.
  - by destruct (Hnew n').
  - by destruct (Hnew n).
  - by apply (Hok _ _ t).
Qed.

Lemma AddTag_singleton now d rid name value user at' d' crid : tagids_ok d →
  AddTag now d (MkTagOpts rid name TagSingleton value user at') = Ret (d', crid) →
  ∃ t r, k_tag (d_links d') !! name = Some t ∧ tx_tagtype r = 1%Z ∧
    d_tagxref d' = <[(t, rid) := r]> (d_tagxref d) ∧ (∀ n, n ≠ name → k_tag (d_links d') !! n = k_tag (d_links d) !! n) ∧
    tagids_ok d' ∧ k_event (d_links d') = k_event (d_links d).
Proof.
  intros Hok. unfold AddTag. cbn [to_TagName to_TargetRID to_Time to_TagType to_Value].
  destruct (bool_decide _); [done|]. destruct (_ <=? 0)%Z; [done|]. destruct (t_blob _ !! rid); [|done].
  change (deck_tag_type TagSingleton) with (Some "+"%byte). cbv zeta.
  generalize (TimeToJulian (if IsZero at' then now else at')) as mtime. intros mtime.
  generalize (Marshal (control_deck (MkTagOpts rid name TagSingleton value user at') (if IsZero at' then now else at') "+"%byte (b_uuid b))).
  intros manifestBytes ([[q c] u] & HS%wrap_err_ret & H)%bind_ret_inv.
  apply Store_sets in HS as (_ & _ & _ & Hx & _).
  apply bind_ret_inv in H as ([d2 t] & He & H).
  change ((TagSingleton =? TagPropagating)%Z || (TagSingleton =? TagCancel)%Z) with false in H.
  cbn [mbind outcome_bind] in H. injection H as <- <-.
  apply ensureTag_ok in He as (H1 & H2 & H3 & H4 & H5); [|done].
  exists t, (MkTagRow TagSingleton c rid (Some value) mtime). split; [exact H1|]. split; [done|]. split; [|split; [exact H2|split; [exact H3|exact H5]]].
  transitivity (<[(t, rid) := MkTagRow TagSingleton c rid (Some value) mtime]> (d_tagxref d2)); [done|].
  rewrite H4. unfold d_tagxref. cbn [d_repo on_repo]. by rewrite Hx.
Qed.

(** [Close] gives the tag [closed] to a check-in of the branch that is as new as
    any other, and from then on [List] has the branch as closed; the rows of the
    other branches stay. *)
Theorem Close_closes now d name user d' : tagids_ok d →
  Close now d name user = Ret d' →
  ∃ top r, top ∈ of_branch d name ∧
    (∀ r', r' ∈ of_branch d name → f_ltb (ev_mtime top.2) (ev_mtime r'.2) = false) ∧
    (str "closed", top.1.2, r) ∈ tagged d' ∧ is_closed d' (Some name) = true ∧
    ∀ x, x ∈ branch_rows d' ↔ x ∈ branch_rows d.
Proof.
  intros Hok. unfold Close. case_bool_decide; [done|]. unfold branch_tip. fold (of_branch d name).
  destruct (newest_first (of_branch d name)) as [|top rest] eqn:E; [done|].
  apply newest_first_head in E as [Ht Hmax]. cbn [head fmap option_fmap option_map].
  intros ([d1 c] & Ha & [= <-])%bind_ret_inv.
  apply AddTag_singleton in Ha as (t & r & H1 & H2 & H3 & H4 & H5 & H6); [|done].
  assert (str "branch" ≠ str "closed") as Hbc by by_decide.
  assert (∀ x, tag_name d1 x = Some (str "branch") ↔ tag_name d x = Some (str "branch")) as Hkeep.
  { intros x. by rewrite !tag_name_Some, H4. }
  assert (∀ rid r', (str "branch", rid, r') ∈ tagged d1 ↔ (str "branch", rid, r') ∈ tagged d) as Hbr.
  { intros rid r'. rewrite !elem_tagged, H3. setoid_rewrite Hkeep.
    assert (∀ x, tag_name d x = Some (str "branch") → (t, top.1.2) ≠ (x, rid)) as Hne.
    { intros x Hx%Hkeep Heq. rewrite tag_name_Some in Hx by done. assert (x = t) as -> by congruence. by destruct (Hbc (H5 _ _ _ Hx H1)). }
    split; intros (x & Hx & Hl & Hty); exists x; (split; [done|]); (split; [|done]);
      rewrite lookup_insert_ne in * by (by apply Hne); done. }
  assert ((str "closed", top.1.2, r) ∈ tagged d1) as Hcl.
  { apply elem_tagged. exists t. split; [by apply tag_name_Some|]. rewrite H3, lookup_insert_eq. split; [done|lia]. }
  exists top, r. split_and!; [done..| |].
  - apply is_closed_true. destruct top as [[v rid] e]. apply list_elem_of_filter in Ht as [Hv Ht]. cbn in Hv. subst v.
    apply elem_branch_rows in Ht as (r' & Hin & Hv & _). exists rid, r, r'. split_and!; [done|by apply Hbr|done].
  - intros [[v rid] e]. rewrite !elem_branch_rows, H6. by setoid_rewrite Hbr.
Qed.
End spec.

(** ** Witnesses *)

#[local] Existing Instance stored.
#[local] Existing Instance test_sha3.
#[local] Existing Instance test_sqlite.
#[local] Existing Instance test_order.
#[local] Existing Instance test_order_laws.

Definition evening : time := Time 2024 6 15 18 0 0 0.
Definition on_branch (name : bytes) (parent : Z) (d : db) : db :=
  match Create when d (MkCreateOpts name parent (str "dev") evening []) with Ret (d, _, _) => d | _ => d end.
Definition feature : db := Eval vm_compute in on_branch (str "feature") 3 first_db.

Definition returns {E A} (m : outcome E A) : bool := match m with Ret _ => true | _ => false end.

(** Two check-ins of two branches, and what is listed. *)
Definition names (m : out (list Branch)) : list (bytes * bool * Z) :=
  match m with Ret l => map (λ b, (br_Name b, br_IsClosed b, br_CheckinCount b)) l | _ => [] end.

Example feature_listed : names (List feature) = [(str "trunk", false, 1%Z); (str "feature", false, 1%Z)].
Proof. vm_compute. reflexivity. Qed.

Lemma rows_ok (d : db) :
  forallb (λ r : option bytes * Z * eventRow, bool_decide (is_Some r.1.1 ∧ is_Some (uuid_at d r.1.2))) (branch_rows d) = true →
  ∀ r, r ∈ branch_rows d → is_Some r.1.1 ∧ is_Some (uuid_at d r.1.2).
Proof.
  rewrite forallb_forall. intros H r Hr%list_elem_of_In%H. by apply bool_decide_eq_true in Hr.
Qed.

Lemma List_spec_witness :
  ∃ bs, List feature = Ret bs ∧ NoDup (map br_Name bs) ∧ (∀ b, b ∈ bs → describes feature b) ∧
    ∀ name, name ∈ map br_Name bs ↔ ∃ r, r ∈ branch_rows feature ∧ r.1.1 = Some name.
Proof. apply List_spec. apply rows_ok. vm_compute. reflexivity. Defined.

(** ** Findings *)

(** A branch on top of a branch of the same name: its tag [sym-feature] is
    cancelled after it was set, since the check-in below has one. *)
Definition again : db := Eval vm_compute in on_branch (str "feature") 4 feature.
Example same_name_loses_tag :
  names (List again) = [(str "trunk", false, 1%Z); (str "feature", false, 2%Z)] ∧
  existsb (λ t, bool_decide (t.1.1 = str "sym-feature" ∧ t.1.2 = 5%Z)) (tagged again) = false.
Proof. vm_compute. auto. Qed.
