(* ===== verification/Checkout.v ===== *)
(** * Working directories (src/internal/checkout)

    A checkout is a directory with the files of a check-in and a database of its
    own: [vfile] has the files that are tracked, [vvar] the version that is checked
    out.  The files are behind [Storage].  The repository is the model of [Db].

    A call is not in a transaction: it leaves what it did when it fails.  A callback
    is the function that tells whether it returned without an error. *)
From S2P Require Import Prelude GoStrings Hash Zlib Delta Deck Julian Quote Blob Db Merge Dag Receive Tag Crosslink Checkin Storage Branch.
From stdpp Require Import list gmap sets.

(** ** The database of a checkout (schema.go, types.go) *)

(** A row of [vfile]; nothing writes its [mtime]. *)
Record vfileRow := MkVfile {
  vf_vid : Z; vf_chnged : Z; vf_deleted : Z; vf_isexe : Z; vf_islink : Z; vf_rid : Z; vf_mrid : Z;
  vf_pathname : bytes; vf_origname : option bytes; vf_mhash : option bytes }.

Record vmergeRow := MkVmerge { vm_id : Z; vm_merge : Z; vm_mhash : option bytes }.

Record Checkout {storage : Storage} := MkCheckout {
  w_vfile : gmap Z vfileRow;
  w_vmerge : list vmergeRow;
  w_vvar : gmap bytes bytes;
  w_disk : disk;
  w_dir : bytes;
  w_queue : option (gset bytes);
  w_repo : db
}.

Inductive ck_error :=
  | ERepo (e : db_error)
  | EIO (e : io_error)
  | EEscapes (name : bytes)
  | EVVar (name : bytes)
  | EUntracked (name : bytes)
  | ETracked (name : bytes)
  | EUnique
  | ELocalChanges (name : bytes)
  | EMissing (what : bytes)
  | ENull
  | ECallback (name : bytes).

Abbreviation out := (outcome ck_error).

Section checkout.
Context {storage : Storage} {codec : Zlib} {sqlite : Sqlite} {order : Unordered} {dates : DateColumn} {sha3 : Sha3}.

Abbreviation run := (outcome (Checkout * ck_error)).

Definition with_vfile (f : gmap Z vfileRow → gmap Z vfileRow) (c : Checkout) : Checkout :=
  MkCheckout storage (f (w_vfile c)) (w_vmerge c) (w_vvar c) (w_disk c) (w_dir c) (w_queue c) (w_repo c).
Definition with_vvar (f : gmap bytes bytes → gmap bytes bytes) (c : Checkout) : Checkout :=
  MkCheckout storage (w_vfile c) (w_vmerge c) (f (w_vvar c)) (w_disk c) (w_dir c) (w_queue c) (w_repo c).
Definition with_disk (D : disk) (c : Checkout) : Checkout :=
  MkCheckout storage (w_vfile c) (w_vmerge c) (w_vvar c) D (w_dir c) (w_queue c) (w_repo c).
Definition with_queue (q : option (gset bytes)) (c : Checkout) : Checkout :=
  MkCheckout storage (w_vfile c) (w_vmerge c) (w_vvar c) (w_disk c) (w_dir c) q (w_repo c).
Definition with_repo (d : db) (c : Checkout) : Checkout :=
  MkCheckout storage (w_vfile c) (w_vmerge c) (w_vvar c) (w_disk c) (w_dir c) (w_queue c) d.

(** A call that leaves the checkout alone, one on the repository, on the disk. *)
Definition reading {A} (c : Checkout) (m : out A) : run A := wrap_err (λ e, (c, e)) m.
Definition on_db {A} (m : outcome db_error A) : out A := wrap_err ERepo m.
Definition writing (c : Checkout) (m : outcome (disk * io_error) disk) : run Checkout :=
  match m with
  | Ret D => Ret (with_disk D c)
  | Fail (D, e) => Fail (with_disk D c, EIO e)
  | Panic => Panic
  | NoFuel => NoFuel
  end.

(** A value of [vvar], empty if it is absent. *)
Definition getVVar (c : Checkout) (name : bytes) : bytes := default [] (w_vvar c !! name).
Definition setVVar (name value : bytes) : Checkout → Checkout := with_vvar <[name := value]>.

(** [SELECT ... FROM vfile WHERE ...]: the rows with their ids. *)
Definition select (c : Checkout) (P : vfileRow → bool) : list (Z * vfileRow) :=
  any_order (filter (λ p, P p.2 = true) (map_to_list (w_vfile c))).

(** [WHERE vid=? AND pathname=?]; the pair is UNIQUE. *)
Definition is_file (vid : Z) (name : bytes) (r : vfileRow) : bool :=
  (vf_vid r =? vid)%Z && bool_decide (vf_pathname r = name).
Definition find_file (c : Checkout) (vid : Z) (name : bytes) : option (Z * vfileRow) :=
  head (select c (is_file vid name)).

Definition insert_vfile (r : vfileRow) (c : Checkout) : Checkout :=
  with_vfile (λ t, <[next_rowid (map fst (map_to_list t)) := r]> t) c.

(** ** The version (checkout.go) *)

Definition Version (c : Checkout) : out (Z * bytes) :=
  let ridStr := getVVar c (str "checkout") in
  if bool_decide (ridStr = []) then Fail (EVVar (str "checkout")) else
  match ParseInt ridStr with
  | None => Fail (EVVar (str "checkout"))
  | Some rid =>
    if (rid <? 0)%Z then Fail (EVVar (str "checkout")) else
    let uuid := getVVar c (str "checkout-hash") in
    if negb (rid =? 0)%Z && bool_decide (uuid = []) then Fail (EVVar (str "checkout-hash")) else
    if (rid =? 0)%Z && bool_decide (uuid ≠ []) then Fail (EVVar (str "checkout-hash")) else
    Ret (rid, uuid)
  end.

Definition ValidateFingerprint (c : Checkout) : out unit :=
  '(rid, uuid) ← Version c;
  if (rid =? 0)%Z then (if bool_decide (uuid ≠ []) then Fail (EVVar (str "checkout-hash")) else Ret tt) else
  match uuid_at (w_repo c) rid with
  | None => Fail (ERepo ENoRows)
  | Some repoUUID => if bool_decide (repoUUID ≠ uuid) then Fail (EVVar (str "checkout-hash")) else Ret tt
  end.

(** The leaves that are check-ins, newest first. *)
Definition tips (d : db) : list (Z * eventRow) :=
  sort_slice (λ x y : Z * eventRow, f_ltb (ev_mtime y.2) (ev_mtime x.2))
    (any_order (filter (λ p, ev_type p.2 = str "ci" ∧ p.1 ∈ d_leaf d) (map_to_list (k_event (d_links d))))).

(** The newest leaf that is in [blob], with its uuid. *)
Definition tip_uuid (d : db) : option (Z * bytes) :=
  head (omap (λ p : Z * eventRow, u ← uuid_at d p.1; Some (p.1, u)) (tips d)).

Definition set_version (rid : Z) (uuid : bytes) (c : Checkout) : Checkout :=
  setVVar (str "checkout-hash") uuid (setVVar (str "checkout") (fmt_int rid) c).

Definition initCheckoutVersion (c : Checkout) : Checkout :=
  match tip_uuid (w_repo c) with
  | None => set_version 0 [] c
  | Some (tipRID, tipUUID) => set_version tipRID tipUUID c
  end.

Definition initUndoState (c : Checkout) : Checkout :=
  setVVar (str "undo_checkout") (str "0") (setVVar (str "undo_available") (str "0") c).

(** ** The table of files (vfile.go) *)

Definition entry_row (vid rid : Z) (f : FileEntry) : vfileRow :=
  MkVfile vid 0 0 (if bool_decide ("x"%byte ∈ fe_Perm f) then 1 else 0)%Z 0 rid rid (fe_Name f) None (Some (fe_UUID f)).

(** [INSERT OR IGNORE] of the files of a check-in; counts those that are missing. *)
Fixpoint load_files (vid : Z) (files : list FileEntry) (c : Checkout) (missing : Z) : run (Checkout * Z) :=
  match files with
  | [] => Ret (c, missing)
  | f :: files =>
    ex ← reading c (on_db (in_repo (Blob.Exists (d_repo (w_repo c)) (fe_UUID f))));
    let missing := match ex with Some _ => missing | None => u32 (missing + 1) end in
    let row := entry_row vid (default 0%Z ex) f in
    let c := match find_file c vid (fe_Name f) with Some _ => c | None => insert_vfile row c end in
    load_files vid files c missing
  end.

Definition clear_others (rid : Z) : Checkout → Checkout := with_vfile (filter (λ p, vf_vid p.2 = rid)).

Definition LoadVFile (c : Checkout) (rid : Z) (clear : bool) : run (Checkout * Z) :=
  let c := if clear then clear_others rid c else c in
  files ← reading c (on_db (ListFiles (w_repo c) rid));
  load_files rid files c 0.

Definition UnloadVFile (rid : Z) : Checkout → Checkout := with_vfile (filter (λ p, vf_vid p.2 ≠ rid)).

(** ** Names (util.go) *)

(** A name that leaves the directory. *)
Definition escapes (cleaned : bytes) : bool :=
  bool_decide (cleaned = DOTDOT) || HasPrefix cleaned (DOTDOT ++ [SLASH]).

Definition CheckFilename (dir name : bytes) : out bytes :=
  if bool_decide (name = []) then Panic else
  let cleaned := Clean name in
  cleaned ← (if IsAbs cleaned then
               match Rel dir cleaned with Some rel => Ret rel | None => Fail (EEscapes name) end
             else Ret cleaned);
  if escapes cleaned then Fail (EEscapes name) else Ret cleaned.

Definition safePath (c : Checkout) (name : bytes) : out bytes :=
  clean ← CheckFilename (w_dir c) name; Ret (Storage.Join (w_dir c) clean).

Definition IsRootedIn (dir absPath : bytes) : bool :=
  let cleanAbs := Clean absPath in
  let cleanDir := Clean dir in
  bool_decide (cleanAbs = cleanDir) || HasPrefix cleanAbs (cleanDir ++ [SLASH]).

Definition read_file (c : Checkout) (path : bytes) : out bytes := wrap_err EIO (ReadFile (w_disk c) path).

Definition FileContent (c : Checkout) (name : bytes) : out bytes :=
  if bool_decide (name = []) then Panic else
  fullPath ← safePath c name;
  read_file c fullPath.

Definition mode_file : Z := 420.   (* 0o644 *)
Definition mode_exec : Z := 493.   (* 0o755 *)

(** [ManifestFlags] as a bit set. *)
Definition WriteManifest (c : Checkout) (flags : Z) : run Checkout :=
  '(rid, uuid) ← reading c (Version c);
  c ← (if negb (Z.testbit flags 0) then Ret c else
       manifestContent ← reading c (on_db (in_repo (Expand (d_repo (w_repo c)) rid)));
       manifestPath ← reading c (safePath c (str "manifest"));
       writing c (WriteFile (w_disk c) manifestPath manifestContent mode_file));
  if negb (Z.testbit flags 1) then Ret c else
  uuidPath ← reading c (safePath c (str "manifest.uuid"));
  writing c (WriteFile (w_disk c) uuidPath (uuid ++ [NL]) mode_file).

(** ** Changes (vfile.go, status.go) *)

(** [ScanFlags] as a bit set; the code looks at [ScanHash] only.  That the walk of
    the directory finds other files is only told to the observer. *)
Definition ScanHash : Z := 1.

Definition set_chnged (v : Z) (id : Z) : Checkout → Checkout :=
  with_vfile (alter (λ r, MkVfile (vf_vid r) v (vf_deleted r) (vf_isexe r) (vf_islink r) (vf_rid r) (vf_mrid r)
    (vf_pathname r) (vf_origname r) (vf_mhash r)) id).

(** The checkout, and whether the file is changed or missing. *)
Definition scanSingleEntry (c : Checkout) (id : Z) (pathname mhash : bytes) (chnged deleted : Z) (flags : Z) :
    run (Checkout * bool * bool) :=
  if negb (deleted =? 0)%Z then Ret (c, false, false) else
  fullPath ← reading c (safePath c pathname);
  match ReadFile (w_disk c) fullPath with
  | Panic => Panic
  | NoFuel => NoFuel
  | Fail NotExist => Ret (c, false, true)
  | Fail e => Fail (c, EIO e)
  | Ret data =>
    if negb (Z.testbit flags 0) then Ret (c, false, false) else
    diskHash ← ContentHash (Some data) mhash;
    if bool_decide (diskHash ≠ mhash) then
      if (chnged =? 0)%Z then Ret (set_chnged 1 id c, true, false) else Ret (c, false, false)
    else Ret (if negb (chnged =? 0)%Z then set_chnged 0 id c else c, false, false)
  end.

(** The scan of the rows, into variables that take no NULL. *)
Fixpoint scan_rows (l : list (Z * vfileRow)) : out (list (Z * vfileRow * bytes)) :=
  match l with
  | [] => Ret []
  | (id, r) :: l =>
    match vf_mhash r with
    | None => Fail ENull
    | Some mhash => rest ← scan_rows l; Ret ((id, r, mhash) :: rest)
    end
  end.

Fixpoint scan_entries (c : Checkout) (entries : list (Z * vfileRow * bytes)) (flags : Z) : run Checkout :=
  match entries with
  | [] => Ret c
  | (id, r, mhash) :: entries =>
    '(c, _, _) ← scanSingleEntry c id (vf_pathname r) mhash (vf_chnged r) (vf_deleted r) flags;
    scan_entries c entries flags
  end.

Definition ScanChanges (c : Checkout) (flags : Z) : run Checkout :=
  '(rid, _) ← reading c (Version c);
  entries ← reading c (scan_rows (select c (λ r, (vf_vid r =? rid)%Z)));
  scan_entries c entries flags.

Definition is_changed (r : vfileRow) : bool := (0 <? vf_chnged r)%Z || (0 <? vf_deleted r)%Z.

Definition HasChanges (c : Checkout) : out bool :=
  '(rid, _) ← Version c;
  Ret (0 <? zlen (select c (λ r, is_changed r && (vf_vid r =? rid)%Z)))%Z.

Inductive FileChange := ChangeNone | ChangeAdded | ChangeRemoved | ChangeMissing | ChangeRenamed | ChangeModified.

Record ChangeEntry := MkChange {
  ce_Name : bytes; ce_Change : FileChange; ce_VFileID : Z; ce_IsExec : bool; ce_IsLink : bool; ce_OrigName : bytes }.

Definition change_of (r : vfileRow) : FileChange :=
  if (0 <? vf_deleted r)%Z then ChangeRemoved else
  if (vf_rid r =? 0)%Z then ChangeAdded else
  if bool_decide (default [] (vf_origname r) ≠ []) then ChangeRenamed else
  if (0 <? vf_chnged r)%Z then ChangeModified else ChangeNone.

Definition change_entry (p : Z * vfileRow) : ChangeEntry :=
  MkChange (vf_pathname p.2) (change_of p.2) p.1 (negb (vf_isexe p.2 =? 0)%Z) (negb (vf_islink p.2 =? 0)%Z)
    (default [] (vf_origname p.2)).

(** The visitor is called until it returns an error; it is not told to call back
    into the checkout. *)
Fixpoint visit_all (fn : ChangeEntry → bool) (l : list ChangeEntry) : out (list ChangeEntry) :=
  match l with
  | [] => Ret []
  | e :: l => if fn e then rest ← visit_all fn l; Ret (e :: rest) else Fail (ECallback (ce_Name e))
  end.

Definition changed_rows (c : Checkout) (vid : Z) : list (Z * vfileRow) :=
  select c (λ r, (vf_vid r =? vid)%Z && (is_changed r || bool_decide (is_Some (vf_origname r)))).

Definition VisitChanges (c : Checkout) (vid : Z) (scan : bool) (fn : ChangeEntry → bool) :
    run (Checkout * list ChangeEntry) :=
  c ← (if scan then ScanChanges c ScanHash else Ret c);
  l ← reading c (visit_all fn (map change_entry (changed_rows c vid)));
  Ret (c, l).

(** ** Adding and removing files (manage.go) *)

Record ManageCounts := MkCounts { mc_Added : Z; mc_Updated : Z; mc_Skipped : Z }.

Definition callback {A} (c : Checkout) (ok : bool) (name : bytes) (m : run A) : run A :=
  if ok then m else Fail (c, ECallback name).

(** The hash that the repository uses, by the first uuid that a query finds. *)
Definition sample_uuid (d : db) : bytes :=
  default [] (head (map (λ p : Z * blobRow, b_uuid p.2)
    (any_order (filter (λ p, (0 <=? b_size p.2)%Z = true) (map_to_list (t_blob (d_repo d))))))).

Definition file_hash (d : db) (data : bytes) : out bytes :=
  if 40 <? length (sample_uuid d) then SHA3 (Some data) else SHA1 (Some data).

Definition added_row (vid : Z) (path mhash : bytes) : vfileRow := MkVfile vid 1 0 0 0 0 0 path None (Some mhash).

Fixpoint manage_paths (c : Checkout) (vid : Z) (paths : list bytes) (cb : bytes → bool → bool) (counts : ManageCounts) :
    run (Checkout * ManageCounts) :=
  match paths with
  | [] => Ret (c, counts)
  | path :: paths =>
    match find_file c vid path with
    | Some _ =>
      let counts := MkCounts (mc_Added counts) (mc_Updated counts) (mc_Skipped counts + 1) in
      callback c (cb path false) path (manage_paths c vid paths cb counts)
    | None =>
      fullPath ← reading c (safePath c path);
      data ← reading c (read_file c fullPath);
      mhash ← reading c (file_hash (w_repo c) data);
      let c := insert_vfile (added_row vid path mhash) c in
      let counts := MkCounts (mc_Added counts + 1) (mc_Updated counts) (mc_Skipped counts) in
      callback c (cb path true) path (manage_paths c vid paths cb counts)
    end
  end.

Definition Manage (c : Checkout) (paths : list bytes) (cb : bytes → bool → bool) : run (Checkout * ManageCounts) :=
  '(vid, _) ← reading c (Version c);
  manage_paths c vid paths cb (MkCounts 0 0 0).

Definition set_deleted (id : Z) : Checkout → Checkout :=
  with_vfile (alter (λ r, MkVfile (vf_vid r) (vf_chnged r) 1 (vf_isexe r) (vf_islink r) (vf_rid r) (vf_mrid r)
    (vf_pathname r) (vf_origname r) (vf_mhash r)) id).

Definition unmanageFile (c : Checkout) (id rid : Z) (pathname : bytes) (cb : bytes → bool) : run Checkout :=
  let c := if (rid =? 0)%Z then with_vfile (delete id) c else set_deleted id c in
  callback c (cb pathname) pathname (Ret c).

Fixpoint unmanage_ids (c : Checkout) (ids : list Z) (cb : bytes → bool) : run Checkout :=
  match ids with
  | [] => Ret c
  | id :: ids =>
    c ← match w_vfile c !! id with
        | None => Ret c
        | Some r => unmanageFile c id (vf_rid r) (vf_pathname r) cb
        end;
    unmanage_ids c ids cb
  end.

Fixpoint unmanage_paths (c : Checkout) (vid : Z) (paths : list bytes) (cb : bytes → bool) : run Checkout :=
  match paths with
  | [] => Ret c
  | path :: paths =>
    c ← match find_file c vid path with
        | None => Ret c
        | Some (id, r) => unmanageFile c id (vf_rid r) path cb
        end;
    unmanage_paths c vid paths cb
  end.

Definition Unmanage (c : Checkout) (paths : list bytes) (ids : list Z) (cb : bytes → bool) : run Checkout :=
  '(vid, _) ← reading c (Version c);
  match ids with
  | _ :: _ => unmanage_ids c ids cb
  | [] => unmanage_paths c vid paths cb
  end.

(** ** Renaming (rename.go) *)

Definition moveFile (c : Checkout) (oldPath newPath : bytes) (perm : Z) : run Checkout :=
  data ← reading c (read_file c oldPath);
  c ← writing c (MkdirAll (w_disk c) (Dir newPath));
  c ← writing c (WriteFile (w_disk c) newPath data perm);
  match Remove (w_disk c) oldPath with
  | Fail (D, NotExist) => Ret (with_disk D c)
  | m => writing c m
  end.

Definition file_mode (isexe : Z) : Z := if (isexe =? 0)%Z then mode_file else mode_exec.

Definition vfilePerm (c : Checkout) (id : Z) : out Z :=
  match w_vfile c !! id with
  | None => Fail (ERepo ENoRows)
  | Some r => Ret (file_mode (vf_isexe r))
  end.

Definition set_names (pathname : bytes) (origname : option bytes) (chnged id : Z) : Checkout → Checkout :=
  with_vfile (alter (λ r, MkVfile (vf_vid r) chnged (vf_deleted r) (vf_isexe r) (vf_islink r) (vf_rid r) (vf_mrid r)
    pathname origname (vf_mhash r)) id).

Definition move_on_disk (c : Checkout) (id : Z) (from to : bytes) : run Checkout :=
  perm ← reading c (vfilePerm c id);
  oldPath ← reading c (safePath c from);
  newPath ← reading c (safePath c to);
  moveFile c oldPath newPath perm.

Definition Rename (c : Checkout) (from to : bytes) (doFsMove : bool) (cb : bytes → bytes → bool) : run Checkout :=
  if bool_decide (from = []) then Panic else
  if bool_decide (to = []) then Panic else
  '(vid, _) ← reading c (Version c);
  match find_file c vid from with
  | None => Fail (c, EUntracked from)
  | Some (id, _) =>
    match find_file c vid to with
    | Some _ => Fail (c, ETracked to)
    | None =>
      let c := set_names to (Some from) 1 id c in
      c ← (if doFsMove then move_on_disk c id from to else Ret c);
      callback c (cb from to) from (Ret c)
    end
  end.

(** The row gets a name that another row of the version may have. *)
Definition RevertRename (c : Checkout) (name : bytes) (doFsMove : bool) : run (Checkout * bool) :=
  if bool_decide (name = []) then Panic else
  '(vid, _) ← reading c (Version c);
  match find_file c vid name with
  | None => Fail (c, EUntracked name)
  | Some (id, r) =>
    let oldOrigName := default [] (vf_origname r) in
    if bool_decide (oldOrigName = []) then Ret (c, false) else
    let taken := match find_file c vid oldOrigName with Some (id', _) => negb (id' =? id)%Z | None => false end in
    if taken then Fail (c, EUnique) else
    let c := set_names oldOrigName None 0 id c in
    c ← (if doFsMove then move_on_disk c id name oldOrigName else Ret c);
    Ret (c, true)
  end.

(** ** Extraction (extract.go) *)

Inductive UpdateChange :=
  | UpdateNone | UpdateAdded | UpdateAddPropagated | UpdateRemoved | UpdateRmPropagated | UpdateUpdated
  | UpdateUpdatedBinary | UpdateMerged | UpdateConflictMerged | UpdateConflictAdded | UpdateConflictUnmanaged
  | UpdateConflictRm | UpdateConflictSymlink | UpdateConflictBinary | UpdateRenamed | UpdateEdited.

#[export] Instance update_change_eq_dec : EqDecision UpdateChange.
Proof. solve_decision. Defined.

Record ExtractOpts := MkExtractOpts {
  eo_Callback : bytes → UpdateChange → bool; eo_SetMTime : bool; eo_DryRun : bool; eo_Force : bool }.

(** Makes the directory of a file and writes it. *)
Definition write_below (c : Checkout) (fullPath data : bytes) (perm : Z) : run Checkout :=
  c ← writing c (MkdirAll (w_disk c) (Dir fullPath));
  writing c (WriteFile (w_disk c) fullPath data perm).

Definition extractSingleFile (c : Checkout) (pathname : bytes) (blobRid isexe : Z) (dryRun : bool) : run Checkout :=
  if dryRun then Ret c else
  data ← reading c (on_db (in_repo (Expand (d_repo (w_repo c)) blobRid)));
  fullPath ← reading c (safePath c pathname);
  write_below c fullPath data (file_mode isexe).

(** The time of a check-in, [None] for the zero time. *)
Definition zero_time : Z := -62135596800000.
Definition checkin_time (d : db) (rid : Z) : option Z :=
  e ← k_event (d_links d) !! rid;
  if bool_decide (ev_type e = str "ci") then
    let t := ScanTime (scan_date (ev_mtime e)) in if (t =? zero_time)%Z then None else Some t
  else None.

(** The time is set as far as that goes: errors are ignored. *)
Definition set_mtime (c : Checkout) (name : bytes) (t : option Z) : run Checkout :=
  match t, safePath c name with
  | None, _ | _, Fail _ => Ret c
  | Some t, Ret fullPath =>
    match Chtimes (w_disk c) fullPath t with
    | Ret D | Fail (D, _) => Ret (with_disk D c)
    | Panic => Panic
    | NoFuel => NoFuel
    end
  | Some _, Panic => Panic
  | Some _, NoFuel => NoFuel
  end.

(** A file on disk that differs from the version that is to be written. *)
Definition has_local_changes (c : Checkout) (r : vfileRow) : out bool :=
  let storedHash := default [] (vf_mhash r) in
  if bool_decide (storedHash = []) then Ret false else
  match safePath c (vf_pathname r) with
  | Panic => Panic
  | NoFuel => NoFuel
  | Fail _ => Ret false
  | Ret fullPath =>
    match ReadFile (w_disk c) fullPath with
    | Panic => Panic
    | NoFuel => NoFuel
    | Fail _ => Ret false
    | Ret data => diskHash ← ContentHash (Some data) storedHash; Ret (bool_decide (diskHash ≠ storedHash))
    end
  end.

Fixpoint check_local (c : Checkout) (rows : list (Z * vfileRow)) : out unit :=
  match rows with
  | [] => Ret tt
  | (_, r) :: rows =>
    changed ← has_local_changes c r;
    if (changed : bool) then Fail (ELocalChanges (vf_pathname r)) else check_local c rows
  end.

Fixpoint extract_rows (c : Checkout) (rows : list (Z * vfileRow)) (opts : ExtractOpts) (t : option Z) : run Checkout :=
  match rows with
  | [] => Ret c
  | (_, r) :: rows =>
    c ← extractSingleFile c (vf_pathname r) (vf_rid r) (vf_isexe r) (eo_DryRun opts);
    c ← set_mtime c (vf_pathname r) t;
    callback c (eo_Callback opts (vf_pathname r) UpdateAdded) (vf_pathname r) (extract_rows c rows opts t)
  end.

Definition finalizeExtract (c : Checkout) (rid : Z) : run Checkout :=
  match uuid_at (w_repo c) rid with
  | None => Fail (c, ERepo ENoRows)
  | Some uuid => Ret (set_version rid uuid c)
  end.

Definition Extract (c : Checkout) (rid : Z) (opts : ExtractOpts) : run Checkout :=
  '(c, _) ← LoadVFile c rid true;
  let vfRows := select c (λ r, (vf_vid r =? rid)%Z) in
  _ ← (if negb (eo_Force opts) && negb (eo_DryRun opts) then reading c (check_local c vfRows) else Ret tt);
  let t := if eo_SetMTime opts && negb (eo_DryRun opts) then checkin_time (w_repo c) rid else None in
  c ← extract_rows c vfRows opts t;
  finalizeExtract c rid.

(** ** Opening (checkout.go)

    The database file is the one in the directory, with empty tables if there was
    none; that the driver opens it is not modelled. *)

Definition DBNames : list bytes := [str ".fslckout"; str "_FOSSIL_"].
Definition PreferredDBName : bytes := str ".fslckout".

Definition Create (c : Checkout) (path : bytes) : run Checkout :=
  if bool_decide (w_dir c = []) then Panic else
  c ← writing c (MkdirAll (w_disk c) (w_dir c));
  let c := setVVar (str "repository") path (initUndoState (initCheckoutVersion c)) in
  '(rid, _) ← reading c (Version c);
  if (rid =? 0)%Z then Ret c else '(c, _) ← LoadVFile c rid true; Ret c.

Definition maxParentSearchDepth : nat := 256.

Definition find_here (D : disk) (dir : bytes) : outcome io_error (option bytes) :=
  foldl (λ m name, r ← m;
    match r with
    | Some p => Ret (Some p)
    | None => match Stat D (Storage.Join dir name) with
              | Ret _ => Ret (Some (Storage.Join dir name))
              | Fail _ => Ret None
              | Panic => Panic
              | NoFuel => NoFuel
              end
    end) (Ret None) DBNames.

Fixpoint find_above (depth : nat) (D : disk) (currentDir : bytes) (searchParents : bool) : outcome io_error (option bytes) :=
  r ← find_here D currentDir;
  match r with
  | Some p => Ret (Some p)
  | None =>
    let parentDir := Dir currentDir in
    if negb searchParents || bool_decide (parentDir = currentDir) then Ret None else
    match depth with O => Ret None | S depth => find_above depth D parentDir searchParents end
  end.

Definition FindCheckoutDB (D : disk) (dir : bytes) (searchParents : bool) : outcome io_error bytes :=
  if bool_decide (dir = []) then Panic else
  r ← find_above maxParentSearchDepth D dir searchParents;
  match r with Some p => Ret p | None => Fail NotExist end.

(** [opened] is the checkout of a database file. *)
Definition Open (D : disk) (dir : bytes) (searchParents : bool) (opened : bytes → Checkout) : out Checkout :=
  if bool_decide (dir = []) then Panic else
  dbPath ← wrap_err EIO (FindCheckoutDB D dir searchParents);
  let c := opened dbPath in
  if bool_decide (getVVar c (str "checkout") = []) then Fail (EVVar (str "checkout")) else
  let c := MkCheckout storage (w_vfile c) (w_vmerge c) (w_vvar c) D (Dir dbPath) None (w_repo c) in
  _ ← ValidateFingerprint c;
  Ret c.

(** ** Reverting (revert.go) *)

Inductive RevertChange :=
  | RevertNone | RevertUnmanage | RevertRemove | RevertRename_ | RevertPermissions | RevertContents.

Definition set_unchanged (id : Z) : Checkout → Checkout :=
  with_vfile (alter (λ r, MkVfile (vf_vid r) 0 0 (vf_isexe r) (vf_islink r) (vf_rid r) (vf_mrid r)
    (vf_pathname r) (vf_origname r) (vf_mhash r)) id).

(** [Remove], where a file that is not there is no error. *)
Definition remove_file (c : Checkout) (fullPath : bytes) : run Checkout :=
  match Remove (w_disk c) fullPath with
  | Fail (D, NotExist) => Ret (with_disk D c)
  | m => writing c m
  end.

Definition revertFile (c : Checkout) (id : Z) (pathname : bytes) (rid : Z) (cb : bytes → RevertChange → bool) : run Checkout :=
  fullPath ← reading c (safePath c pathname);
  if (rid =? 0)%Z then
    let c := with_vfile (delete id) c in
    c ← remove_file c fullPath;
    callback c (cb pathname RevertUnmanage) pathname (Ret c)
  else
    data ← reading c (on_db (in_repo (Expand (d_repo (w_repo c)) rid)));
    perm ← reading c (vfilePerm c id);
    c ← write_below c fullPath data perm;
    let c := set_unchanged id c in
    callback c (cb pathname RevertContents) pathname (Ret c).

Definition revertSinglePath (c : Checkout) (vid : Z) (pathname : bytes) (cb : bytes → RevertChange → bool) : run Checkout :=
  match find_file c vid pathname with
  | None => Ret c
  | Some (id, r) =>
    if (vf_chnged r =? 0)%Z && (vf_deleted r =? 0)%Z && negb (vf_rid r =? 0)%Z then Ret c
    else revertFile c id pathname (vf_rid r) cb
  end.

Fixpoint revert_paths (c : Checkout) (vid : Z) (paths : list bytes) (cb : bytes → RevertChange → bool) : run Checkout :=
  match paths with
  | [] => Ret c
  | path :: paths => c ← revertSinglePath c vid path cb; revert_paths c vid paths cb
  end.

Fixpoint revert_rows (c : Checkout) (rows : list (Z * vfileRow)) (cb : bytes → RevertChange → bool) : run Checkout :=
  match rows with
  | [] => Ret c
  | (id, r) :: rows => c ← revertFile c id (vf_pathname r) (vf_rid r) cb; revert_rows c rows cb
  end.

Definition Revert (c : Checkout) (paths : list bytes) (cb : bytes → RevertChange → bool) : run Checkout :=
  '(vid, _) ← reading c (Version c);
  match paths with
  | _ :: _ => revert_paths c vid paths cb
  | [] => revert_rows c (select c (λ r, (vf_vid r =? vid)%Z && (is_changed r || (vf_rid r =? 0)%Z))) cb
  end.

(** ** Committing (checkin.go) *)

Fixpoint enqueue_paths (q : gset bytes) (paths : list bytes) (c : Checkout) (cb : bytes → bool) : run Checkout :=
  match paths with
  | [] => Ret (with_queue (Some q) c)
  | p :: paths =>
    let q := {[ p ]} ∪ q in
    callback (with_queue (Some q) c) (cb p) p (enqueue_paths q paths c cb)
  end.

Definition Enqueue (c : Checkout) (paths : list bytes) (cb : bytes → bool) : run Checkout :=
  enqueue_paths (default ∅ (w_queue c)) paths c cb.

Definition Dequeue (c : Checkout) (paths : list bytes) : Checkout :=
  match paths with
  | [] => with_queue None c
  | _ => with_queue ((λ q, q ∖ list_to_set paths) <$> w_queue c) c
  end.

Definition IsEnqueued (c : Checkout) (name : bytes) : bool :=
  match w_queue c with None => true | Some q => bool_decide (name ∈ q) end.

Definition DiscardQueue (c : Checkout) : Checkout := with_queue None c.

Record vfileCommitEntry := MkCommitEntry { vc_pathname : bytes; vc_changed : bool; vc_deleted : bool; vc_rid : Z }.

Definition commit_entry (r : vfileRow) : vfileCommitEntry :=
  MkCommitEntry (vf_pathname r) (0 <? vf_chnged r)%Z (0 <? vf_deleted r)%Z (vf_rid r).

(** The entries by name, the changed files and the deleted ones. *)
Definition collectVFileEntries (c : Checkout) (vid : Z) :
    gmap bytes vfileCommitEntry * list bytes * list bytes :=
  let rows := map snd (select c (λ r, (vf_vid r =? vid)%Z)) in
  (foldl (λ m r, <[vf_pathname r := commit_entry r]> m) ∅ rows,
   map vf_pathname (filter (λ r, (negb (0 <? vf_deleted r) && ((0 <? vf_chnged r) || (vf_rid r =? 0)))%Z = true) rows),
   map vf_pathname (filter (λ r, (0 <? vf_deleted r)%Z = true) rows)).

(** The files of the parent without those that were deleted. *)
Definition start_files (parentFiles : list FileEntry) (deletedFiles : list bytes) (shouldInclude : bytes → bool) :
    gmap bytes File :=
  foldl (λ m name, if shouldInclude name then delete name m else m)
    (foldl (λ m pf, <[fe_Name pf := MkSource (fe_Name pf) [] (fe_Perm pf)]> m) ∅ parentFiles) deletedFiles.

Fixpoint changed_contents (c : Checkout) (changedFiles : list bytes) (shouldInclude : bytes → bool)
    (fileMap : gmap bytes File) : out (gmap bytes File) :=
  match changedFiles with
  | [] => Ret fileMap
  | name :: changedFiles =>
    if negb (shouldInclude name) then changed_contents c changedFiles shouldInclude fileMap else
    fullPath ← safePath c name;
    fileData ← read_file c fullPath;
    let perm := match fileMap !! name with Some f => fl_Perm f | None => [] end in
    changed_contents c changedFiles shouldInclude (<[name := MkSource name fileData perm]> fileMap)
  end.

Definition file_rid (c : Checkout) (vfEntries : gmap bytes vfileCommitEntry) (parentFileMap : gmap bytes FileEntry)
    (name : bytes) : out Z :=
  match vfEntries !! name, parentFileMap !! name with
  | Some ve, _ => Ret (vc_rid ve)
  | None, Some pf => match rid_of_uuid (d_repo (w_repo c)) (fe_UUID pf) with
                     | Some rid => Ret rid
                     | None => Fail (ERepo ENoRows)
                     end
  | None, None => Ret 0%Z
  end.

(** The contents of the other files come from the repository. *)
Fixpoint unchanged_contents (c : Checkout) (vfEntries : gmap bytes vfileCommitEntry)
    (parentFileMap : gmap bytes FileEntry) (entries : list (bytes * File)) : out (list File) :=
  match entries with
  | [] => Ret []
  | (name, entry) :: entries =>
    f ← (if 0 <? length (fl_Content entry) then Ret entry else
         fileRID ← file_rid c vfEntries parentFileMap name;
         if (fileRID =? 0)%Z then Fail (EMissing name) else
         fileData ← on_db (in_repo (Expand (d_repo (w_repo c)) fileRID));
         Ret (MkSource name fileData (fl_Perm entry)));
    rest ← unchanged_contents c vfEntries parentFileMap entries;
    Ret (f :: rest)
  end.

Definition parent_map (parentFiles : list FileEntry) : gmap bytes FileEntry :=
  foldl (λ m pf, <[fe_Name pf := pf]> m) ∅ parentFiles.

Definition buildCommitFiles (c : Checkout) (parentRID : Z) (vfEntries : gmap bytes vfileCommitEntry)
    (changedFiles deletedFiles : list bytes) (shouldInclude : bytes → bool) : out (list File) :=
  parentFiles ← (if (parentRID =? 0)%Z then Ret [] else on_db (ListFiles (w_repo c) parentRID));
  fileMap ← changed_contents c changedFiles shouldInclude (start_files parentFiles deletedFiles shouldInclude);
  files ← unchanged_contents c vfEntries (parent_map parentFiles) (any_order (map_to_list fileMap));
  Ret (any_order files).

Definition finalizeCommit (c : Checkout) (newRID : Z) (newUUID : bytes) : run Checkout :=
  '(c, _) ← LoadVFile (set_version newRID newUUID c) newRID true;
  Ret (with_queue None c).

Record CommitOpts := MkCommitOpts {
  cm_Message : bytes; cm_User : bytes; cm_Branch : bytes; cm_Tags : list bytes; cm_Delta : bool; cm_Time : time;
  cm_PreCommitCheck : bool }.

Definition commit_tags (opts : CommitOpts) : list TagCard :=
  (if bool_decide (cm_Branch opts = []) then [] else
   [MkTagCard "*"%byte (str "branch") (str "*") (cm_Branch opts);
    MkTagCard "+"%byte (str "sym-" ++ cm_Branch opts) (str "*") []]) ++
  map (λ t, MkTagCard "+"%byte t (str "*") []) (cm_Tags opts).

(** Without a queue, or with an empty one, everything is included. *)
Definition should_include (c : Checkout) (name : bytes) : bool :=
  match w_queue c with
  | Some q => if decide (q = ∅) then true else bool_decide (name ∈ q)
  | None => true
  end.

(** [clock] is what the clock of the environment shows, [now] what the one of
    [manifest.Checkin] does. *)
Definition Commit (clock now : time) (c : Checkout) (opts : CommitOpts) : run (Checkout * Z * bytes) :=
  '(parentRID, _) ← reading c (Version c);
  c ← ScanChanges c ScanHash;
  if negb (cm_PreCommitCheck opts) then Fail (c, ECallback []) else
  let '(vfEntries, changedFiles, deletedFiles) := collectVFileEntries c parentRID in
  commitFiles ← reading c (buildCommitFiles c parentRID vfEntries changedFiles deletedFiles (should_include c));
  let commitTime := if IsZero (cm_Time opts) then clock else cm_Time opts in
  let checkinOpts := MkCheckinOpts commitFiles (cm_Message opts) (cm_User opts) parentRID [] (cm_Delta opts) commitTime
                       (commit_tags opts) in
  '(d, newRID, newUUID) ← wrap_err (λ e : db * db_error, (with_repo e.1 c, ERepo e.2)) (Checkin now (w_repo c) checkinOpts);
  c ← finalizeCommit (with_repo d c) newRID newUUID;
  Ret (c, newRID, newUUID).

(** ** Forks (fork.go) *)

Definition BranchLeaves (d : db) (branch : bytes) : list Z :=
  let branch := if bool_decide (branch = []) then str "trunk" else branch in
  map (λ t : bytes * Z * tagRow, t.1.2)
    (filter (λ t, t.1.1 = str "branch" ∧ tx_value t.2 = Some branch ∧ t.1.2 ∈ d_leaf d) (tagged d)).

(** The newest tag [branch]; a NULL value cannot be scanned. *)
Definition currentBranch (d : db) (rid : Z) : bytes :=
  match head (sort_slice (λ x y : bytes * Z * tagRow, f_ltb (tx_mtime y.2) (tx_mtime x.2))
                (filter (λ t, t.1.1 = str "branch" ∧ t.1.2 = rid) (tagged d))) with
  | Some t => default (str "trunk") (tx_value t.2)
  | None => str "trunk"
  end.

Definition WouldFork (c : Checkout) : out bool :=
  '(rid, _) ← Version c;
  Ret (existsb (λ leaf, negb (leaf =? rid)%Z) (BranchLeaves (w_repo c) (currentBranch (w_repo c) rid))).

(** ** Updating (update.go) *)

(** The newest leaf, 0 if it is checked out. *)
Definition CalcUpdateVersion (c : Checkout) : out Z :=
  '(currentRID, _) ← Version c;
  match tips (w_repo c) with
  | [] => Ret 0%Z
  | (tipRID, _) :: _ => Ret (if (tipRID =? currentRID)%Z then 0%Z else tipRID)
  end.

Record updateFileMaps := MkMaps {
  um_current : gmap bytes bytes; um_target : gmap bytes bytes; um_ancestor : gmap bytes bytes; um_allNames : gset bytes }.

Definition uuid_map (files : list FileEntry) : gmap bytes bytes := foldl (λ m f, <[fe_Name f := fe_UUID f]> m) ∅ files.

Definition buildFileMaps (currentFiles targetFiles ancestorFiles : list FileEntry) : updateFileMaps :=
  MkMaps (uuid_map currentFiles) (uuid_map targetFiles) (uuid_map ancestorFiles)
    (list_to_set (map fe_Name currentFiles ++ map fe_Name targetFiles)).

(** The rows of [plink] as a query returns them. *)
Definition plink_rows (d : db) : list plinkRow :=
  any_order (map (λ p, MkPlink p.1.1 p.1.2 (pk_isprim p.2)) (map_to_list (k_plink (d_links d)))).

Definition buildUpdateMaps (d : db) (currentRID target : Z) : out updateFileMaps :=
  currentFiles ← on_db (ListFiles d currentRID);
  targetFiles ← on_db (ListFiles d target);
  ancestor ← match FindCommonAncestor (plink_rows d) currentRID target with
             | Ret a => Ret a
             | Fail _ => Ret currentRID
             | Panic => Panic
             | NoFuel => NoFuel
             end;
  ancestorFiles ← (if (ancestor =? currentRID)%Z then Ret currentFiles else on_db (ListFiles d ancestor));
  Ret (buildFileMaps currentFiles targetFiles ancestorFiles).

Definition expandUUID (c : Checkout) (uuid : bytes) : out bytes :=
  ex ← on_db (in_repo (Blob.Exists (d_repo (w_repo c)) uuid));
  match ex with
  | None => Fail (EMissing uuid)
  | Some rid => on_db (in_repo (Expand (d_repo (w_repo c)) rid))
  end.

Definition writeFileFromUUID (c : Checkout) (name uuid : bytes) : run Checkout :=
  data ← reading c (expandUUID c uuid);
  fullPath ← reading c (safePath c name);
  write_below c fullPath data mode_file.

Definition mergeFile (c : Checkout) (name ancUUID curUUID tgtUUID : bytes) (strategy : Strategy) (dryRun : bool) :
    run (Checkout * UpdateChange) :=
  ancData ← reading c (expandUUID c ancUUID);
  curData ← reading c (expandUUID c curUUID);
  tgtData ← reading c (expandUUID c tgtUUID);
  result ← wrap_err (λ e : Empty_set, match e with end) (Merge.Merge strategy (Some ancData) (Some curData) (Some tgtData));
  c ← (if dryRun then Ret c else
       fullPath ← reading c (safePath c name);
       write_below c fullPath (rs_Content result) mode_file);
  Ret (c, if rs_Clean result then UpdateMerged else UpdateConflictMerged).

Definition updateFile (c : Checkout) (name : bytes) (cur tgt : option bytes) (ancUUID : bytes) (strategy : Strategy)
    (dryRun : bool) : run (Checkout * UpdateChange) :=
  match cur, tgt with
  | None, Some tgtUUID =>
    c ← (if dryRun then Ret c else writeFileFromUUID c name tgtUUID);
    Ret (c, UpdateAdded)
  | Some _, None =>
    c ← (if dryRun then Ret c else fullPath ← reading c (safePath c name); remove_file c fullPath);
    Ret (c, UpdateRemoved)
  | Some curUUID, Some tgtUUID =>
    if bool_decide (curUUID = tgtUUID) then Ret (c, UpdateNone) else
    if bool_decide (curUUID = ancUUID) then
      c ← (if dryRun then Ret c else writeFileFromUUID c name tgtUUID);
      Ret (c, UpdateUpdated)
    else if bool_decide (tgtUUID = ancUUID) then Ret (c, UpdateNone) else
    mergeFile c name ancUUID curUUID tgtUUID strategy dryRun
  | None, None => Ret (c, UpdateNone)
  end.

Record UpdateOpts := MkUpdateOpts {
  uo_TargetRID : Z; uo_Callback : bytes → UpdateChange → bool; uo_SetMTime : bool; uo_DryRun : bool }.

(** The counts are only told to the observer. *)
Fixpoint processFileUpdates (c : Checkout) (maps : updateFileMaps) (names : list bytes) (strategy : Strategy)
    (opts : UpdateOpts) (t : option Z) : run Checkout :=
  match names with
  | [] => Ret c
  | name :: names =>
    '(c, change) ← updateFile c name (um_current maps !! name) (um_target maps !! name)
                     (default [] (um_ancestor maps !! name)) strategy (uo_DryRun opts);
    if bool_decide (change = UpdateNone) then processFileUpdates c maps names strategy opts t else
    c ← (if bool_decide (change = UpdateRemoved) then Ret c else set_mtime c name t);
    callback c (uo_Callback opts name change) name (processFileUpdates c maps names strategy opts t)
  end.

Definition finalizeUpdate (c : Checkout) (target : Z) : run Checkout :=
  '(c, _) ← LoadVFile c target true;
  match uuid_at (w_repo c) target with
  | None => Fail (c, ERepo ENoRows)
  | Some targetUUID => Ret (set_version target targetUUID c)
  end.

Definition Update (c : Checkout) (opts : UpdateOpts) : run Checkout :=
  target ← (if (uo_TargetRID opts =? 0)%Z then reading c (CalcUpdateVersion c) else Ret (uo_TargetRID opts));
  if (target =? 0)%Z then Ret c else
  '(currentRID, _) ← reading c (Version c);
  if (currentRID =? target)%Z then Ret c else
  maps ← reading c (buildUpdateMaps (w_repo c) currentRID target);
  match StrategyByName (str "three-way") with
  | None => Fail (c, EMissing (str "three-way"))
  | Some strategy =>
    let t := if uo_SetMTime opts && negb (uo_DryRun opts) then checkin_time (w_repo c) target else None in
    c ← processFileUpdates c maps (any_order (elements (um_allNames maps))) strategy opts t;
    finalizeUpdate c target
  end.
End checkout.
