(* ===== verification/CheckoutSpec.v ===== *)
(** * What the operations on a checkout do (src/internal/checkout)

    Names stay inside the directory; extracting writes the files of a check-in;
    adding, renaming and reverting are undone by their inverses; what a commit and
    an update make of the files. *)
From S2P Require Import Prelude GoStrings Hash Zlib Delta Deck Julian Quote Blob Db Merge Dag Receive Tag Crosslink Linked Checkin CheckinLinked Storage Branch Checkout.
From stdpp Require Import list gmap sets.

(** ** Names *)

(** A clean relative name without [..], and what it stands for. *)
Definition inside (name : bytes) (cs : list bytes) : Prop := Forall plain cs ∧ name = path_of false cs.

Lemma escapes_dotdot k cs : escapes (path_of false (replicate (S k) DOTDOT ++ cs)) = true.
Proof.
  unfold escapes. cbn [replicate app]. unfold path_of.
  destruct (replicate k DOTDOT ++ cs) as [|c l]; [by rewrite bool_decide_true|].
  rewrite Join_cons2, app_assoc, HasPrefix_same. by rewrite orb_true_r.
Qed.

Lemma components_abs path : IsAbs path = true → Forall plain (components path).
Proof.
  intros HA. destruct (components_tidy path) as (cs & k & Hr & Hcs & Hk). rewrite (Hk HA), app_nil_r in Hr.
  rewrite <- (rev_involutive (components path)), Hr. by apply Forall_rev.
Qed.

Lemma strip_common_Forall P base targ b t : strip_common base targ = (b, t) → Forall P targ → Forall P t.
Proof.
  revert targ. induction base as [|x base IH]; intros targ; cbn [strip_common]; [by intros [= <- <-]|].
  destruct targ as [|y targ]; [by intros [= <- <-]|]. case_bool_decide; [|by intros [= <- <-]].
  intros Hs [_ Ht]%Forall_cons. by eapply IH.
Qed.

Lemma CheckFilename_inside dir name clean : CheckFilename dir name = Ret clean → ∃ cs, inside clean cs.
Proof.
  unfold CheckFilename. case_bool_decide as Hn; [done|]. clear Hn. cbv zeta. rewrite IsAbs_Clean.
  intros (cl & Hcl & H)%bind_ret_inv. destruct (escapes cl) eqn:E; [done|]. injection H as ->.
  assert (∃ k cs, Forall plain cs ∧ clean = path_of false (replicate k DOTDOT ++ cs)) as (k & cs & Hcs & ->).
  { destruct (IsAbs name) eqn:HA.
    - destruct (Rel dir (Clean name)) as [rel|] eqn:ER; [|done]. injection Hcl as ->. unfold Rel in ER.
      destruct (negb (IsAbs dir)); [done|]. rewrite components_Clean in ER.
      destruct (strip_common _ _) as [b t] eqn:ES. injection ER as <-.
      exists (length b), t. split.
      + eapply strip_common_Forall; [exact ES|]. by apply components_abs.
      + assert (map (λ _, DOTDOT) b = replicate (length b) DOTDOT) as ->; [|done].
        clear. induction b as [|x b IH]; [done|]. exact (f_equal (cons DOTDOT) IH).
    - injection Hcl as <-. destruct (components_tidy name) as (cs & k & Hr & Hcs & _).
      exists k, (rev cs). split; [by apply Forall_rev|]. unfold Clean. rewrite HA. f_equal.
      rewrite <- (rev_involutive (components name)), Hr, rev_app_distr. f_equal. rewrite rev_alt. apply reverse_replicate. }
  destruct k as [|k]; [by exists cs|]. by rewrite escapes_dotdot in E.
Qed.

(** A clean name inside the directory is taken as it is. *)
Lemma CheckFilename_plain dir cs : cs ≠ [] → Forall plain cs →
  CheckFilename dir (path_of false cs) = Ret (path_of false cs).
Proof.
  intros Hne Hcs. unfold CheckFilename.
  assert (Forall part cs) as Hp by (eapply Forall_impl; [exact Hcs|apply plain_part]).
  destruct cs as [|c cs]; [done|]. pose proof (proj1 (Forall_cons _ _ _) Hcs) as [(Hc1 & Hc2 & Hc3 & Hc4) _].
  assert (path_of false (c :: cs) ≠ []) as Hn.
  { unfold path_of. destruct cs; [done|]. rewrite Join_cons2. by destruct c. }
  rewrite bool_decide_false by done.
  assert (Clean (path_of false (c :: cs)) = path_of false (c :: cs)) as ->.
  { unfold Clean. rewrite IsAbs_path_of by done. rewrite components_path_of; [done|]. by apply plain_tidy. }
  cbv zeta. rewrite IsAbs_path_of by done. cbn [mbind outcome_bind].
  assert (escapes (path_of false (c :: cs)) = false) as ->; [|done].
  unfold escapes. apply orb_false_iff. split.
  - apply bool_decide_eq_false. intros Heq. apply (f_equal components) in Heq.
    rewrite components_path_of in Heq by by apply plain_tidy. injection Heq as Heq _. done.
  - apply not_true_iff_false. intros HP.
    assert (∃ s, path_of false (c :: cs) = DOTDOT ++ SLASH :: s) as [s Hs].
    { revert HP. generalize (path_of false (c :: cs)) as p. intros p. 
      destruct p as [|a [|b [|d p]]]; cbn; try done; intros HP; exists p || idtac.
      - by rewrite !andb_false_r in HP.
      - by rewrite !andb_false_r in HP.
      - apply andb_true_iff in HP as [->%bool_decide_eq_true HP]. apply andb_true_iff in HP as [->%bool_decide_eq_true HP].
        apply andb_true_iff in HP as [->%bool_decide_eq_true HP]. done. }
    apply (f_equal (λ p, Split p SLASH)) in Hs. rewrite Split_app in Hs. unfold path_of in Hs.
    rewrite Split_Join in Hs by (done || by apply parts_no_slash). injection Hs as Hs _. done.
Qed.

(** ** What every operation keeps *)

Section effect.
Context {storage : Storage} {codec : Zlib} {sqlite : Sqlite} {order : Unordered} {dates : DateColumn} {sha3 : Sha3}.

Abbreviation run := (outcome (Checkout * ck_error)).

(** A version has one row for a name. *)
Definition names_unique (c : Checkout) : Prop :=
  ∀ i j r r', w_vfile c !! i = Some r → w_vfile c !! j = Some r' →
    vf_vid r = vf_vid r' → vf_pathname r = vf_pathname r' → i = j.

(** A file outside the directory [dir], and not a directory above it. *)
Definition outside (dir q : bytes) : Prop :=
  Clean q = q ∧ IsAbs q = IsAbs dir ∧ IsRootedIn dir q = false ∧ above q (Clean dir) = false.

(** The directory stays, nothing outside it is touched, and names stay unique. *)
Record confined (c c' : Checkout) : Prop := {
  cf_dir : w_dir c' = w_dir c;
  cf_outside : IsAbs (w_dir c) = true → Clean (w_dir c) ≠ [SLASH] →
    ∀ q, outside (w_dir c) q → ReadFile (w_disk c') q = ReadFile (w_disk c) q;
  cf_unique : names_unique c → names_unique c'
}.

#[export] Instance confined_preorder : PreOrder confined.
Proof.
  split; [by split|]. intros c1 c2 c3 [H1 H2 H3] [H4 H5 H6]. split; [congruence| |auto].
  intros HA HC q Hq. rewrite H1 in H5. rewrite H5, H2; done.
Qed.

(** The checkout that a call leaves, with a result or with an error, is related to
    [c]. *)
Definition leaves {A} (R : relation Checkout) (c : Checkout) (pr : A → Checkout) (m : run A) : Prop :=
  match m with Ret a => R c (pr a) | Fail (c', _) => R c c' | _ => True end.

Section rules.
Variable R : relation Checkout.
Context `{!PreOrder R}.

Lemma leaves_trans {A} c c' (pr : A → Checkout) m : R c c' → leaves R c' pr m → leaves R c pr m.
Proof. intros H. destruct m as [a|[d e]| |]; cbn; [by etrans|by etrans|done..]. Qed.

Lemma leaves_bind {A B} c (ofA : A → Checkout) (ofB : B → Checkout) (m : run A) f :
  leaves R c ofA m → (∀ a, m = Ret a → leaves R (ofA a) ofB (f a)) → leaves R c ofB (m ≫= f).
Proof.
  destruct m as [a|[d e]| |]; cbn; [|done..]. intros H Hf. eapply leaves_trans; [exact H|by apply Hf].
Qed.

Lemma leaves_reading {A B} c (pr : B → Checkout) (m : out A) (f : A → run B) :
  (∀ a, m = Ret a → leaves R c pr (f a)) → leaves R c pr (reading c m ≫= f).
Proof. destruct m; cbn; auto. intros _. reflexivity. Qed.

Lemma leaves_callback {A} c (pr : A → Checkout) ok name m : leaves R c pr m → leaves R c pr (callback c ok name m).
Proof. destruct ok; [done|]. intros _. cbn. reflexivity. Qed.
End rules.

Definition same (c : Checkout) : Checkout := c.

(** *** The disk *)

Lemma safePath_inside c name p : safePath c name = Ret p → ∃ cs, Forall plain cs ∧ p = Storage.Join (w_dir c) (path_of false cs).
Proof.
  unfold safePath. intros (clean & Hc & [= <-])%bind_ret_inv.
  apply CheckFilename_inside in Hc as (cs & Hcs & ->). by exists cs.
Qed.

Lemma abs_components dir : IsAbs dir = true → Clean dir ≠ [SLASH] → components dir ≠ [].
Proof. intros HA HC Hn. apply HC. unfold Clean. by rewrite HA, Hn. Qed.

Lemma IsRootedIn_Join dir cs : IsAbs dir = true → Clean dir ≠ [SLASH] → Forall plain cs →
  IsRootedIn dir (Storage.Join dir (path_of false cs)) = true.
Proof.
  intros HA HC Hcs. assert (dir ≠ []) as Hd by by intros ->. unfold IsRootedIn.
  rewrite Join_clean by done. rewrite Join_plain, HA by done.
  destruct (path_of_below (components dir) cs (abs_components dir HA HC)) as [->|H].
  - unfold Clean. rewrite HA. by rewrite bool_decide_true.
  - unfold Clean. rewrite HA, H. by rewrite orb_true_r.
Qed.

(** Making the directory of a file inside touches nothing outside. *)
Lemma HasPrefix_spec s p : HasPrefix s p = true ↔ ∃ t, s = p ++ t.
Proof.
  split; [|intros [t ->]; apply HasPrefix_same]. revert s. induction p as [|x p IH]; intros s; [by exists s|].
  destruct s as [|y s]; [done|]. cbn. intros [->%bool_decide_eq_true H]%andb_true_iff.
  apply IH in H as [t ->]. by exists t.
Qed.

Context {laws : StorageLaws}.

Lemma confined_disk c D :
  (∀ q, IsAbs (w_dir c) = true → Clean (w_dir c) ≠ [SLASH] → outside (w_dir c) q → ReadFile D q = ReadFile (w_disk c) q) →
  confined c (with_disk D c).
Proof. intros H. split; [done| |done]. intros HA HC q Hq. by apply H. Qed.

Lemma outside_not_inside c name p q : IsAbs (w_dir c) = true → Clean (w_dir c) ≠ [SLASH] →
  safePath c name = Ret p → outside (w_dir c) q → clean_names p q ∧ p ≠ q.
Proof.
  intros HA HC (cs & Hcs & ->)%safePath_inside (Hq & HqA & Hr & _).
  assert (w_dir c ≠ []) as Hd by (intros Hn; by rewrite Hn in HA). split.
  - split_and!; [by apply Join_clean|done|]. rewrite HqA, Join_plain, HA by done. apply IsAbs_path_of.
    apply Forall_app. split; [|eapply Forall_impl; [exact Hcs|apply plain_part]].
    eapply Forall_impl; [by apply components_abs|apply plain_part].
  - intros <-. by rewrite IsRootedIn_Join in Hr.
Qed.

Lemma leaves_writing {A} c (pr : A → Checkout) m (f : Checkout → run A) :
  (∀ D, left_disk m = Some D → confined c (with_disk D c)) →
  (∀ c', confined c c' → leaves confined c' pr (f c')) →
  leaves confined c pr (writing c m ≫= f).
Proof.
  intros Hm Hf. destruct m as [D|[D e]| |]; cbn; [|by apply Hm|done..].
  eapply leaves_trans; [apply confined_preorder|by apply Hm|]. by apply Hf, Hm.
Qed.

Lemma writing_same c m : (∀ D, left_disk m = Some D → confined c (with_disk D c)) → leaves confined c same (writing c m).
Proof. intros Hm. destruct m as [D|[D e]| |]; cbn; try done; by apply Hm. Qed.

Lemma confined_write c name p data perm D :
  safePath c name = Ret p → left_disk (WriteFile (w_disk c) p data perm) = Some D → confined c (with_disk D c).
Proof.
  intros Hp HD. apply confined_disk. intros q HA HC Hq.
  destruct (outside_not_inside c name p q HA HC Hp Hq). by eapply write_other.
Qed.

Lemma confined_remove c name p D :
  safePath c name = Ret p → left_disk (Remove (w_disk c) p) = Some D → confined c (with_disk D c).
Proof.
  intros Hp HD. apply confined_disk. intros q HA HC Hq.
  destruct (outside_not_inside c name p q HA HC Hp Hq). by eapply remove_other.
Qed.

Lemma confined_chtimes c p t D : left_disk (Chtimes (w_disk c) p t) = Some D → confined c (with_disk D c).
Proof. intros HD. apply confined_disk. intros q _ _ _. by eapply chtimes_read. Qed.

(** *** Directories *)

Lemma dir_part_sep a b : SLASH ∉ b → dir_part (a ++ SLASH :: b) = a ++ [SLASH].
Proof.
  intros Hb. assert (dir_part b = []) as Hn.
  { destruct b as [|x b]; [done|]. cbn [dir_part]. by rewrite bool_decide_false. }
  induction a as [|x a IH]; cbn [app dir_part].
  - rewrite bool_decide_true by by left. by rewrite Hn.
  - rewrite bool_decide_true by set_solver. by rewrite IH.
Qed.

Lemma components_slash cs : Forall plain cs → components (path_of true cs ++ [SLASH]) = cs.
Proof.
  intros Hcs. unfold components. change (path_of true cs ++ [SLASH]) with (path_of true cs ++ SLASH :: []).
  rewrite Split_app, foldl_app. change (Split [] SLASH) with [@nil byte]. cbn [foldl].
  assert (IsAbs (path_of true cs ++ [SLASH]) = true) as -> by done.
  change (SLASH :: []) with [SLASH]. 
  pose proof (components_path_of true cs (plain_tidy true cs Hcs)) as H. unfold components in H.
  change (IsAbs (path_of true cs)) with true in H. exact H.
Qed.

Lemma Dir_path_of cs x : Forall plain (cs ++ [x]) → Dir (path_of true (cs ++ [x])) = path_of true cs.
Proof.
  intros [Hcs Hx]%Forall_app. apply Forall_singleton in Hx as (_ & _ & _ & Hx). unfold Dir.
  assert (∃ a, dir_part (path_of true (cs ++ [x])) = a ++ [SLASH] ∧ (cs = [] → a = []) ∧ (cs ≠ [] → a = path_of true cs)) as (a & -> & Hn & Hc).
  { destruct cs as [|c cs].
    - exists []. split; [|done]. unfold path_of. cbn [app GoStrings.Join].
      exact (dir_part_sep [] x Hx).
    - exists (path_of true (c :: cs)). split; [|done]. unfold path_of. rewrite GoJoin_app by done.
      cbn [GoStrings.Join]. change (SLASH :: ?j ++ SLASH :: x) with ((SLASH :: j) ++ SLASH :: x). by apply dir_part_sep. }
  destruct cs as [|c cs]; [by rewrite Hn|]. rewrite Hc by done. unfold Clean.
  rewrite components_slash by done. done.
Qed.

(** The directories of a clean absolute name. *)
Lemma prefix_path_of B Q : Forall plain B → Forall plain Q → B ≠ [] → Q ≠ [] →
  HasPrefix (path_of true B) (path_of true Q ++ [SLASH]) = true → Q `prefix_of` B.
Proof.
  intros HB HQ HBn HQn [t Ht]%HasPrefix_spec. rewrite <- app_assoc in Ht. cbn [app] in Ht.
  apply (f_equal (λ p, Split p SLASH)) in Ht. rewrite Split_app in Ht.
  assert (∀ L, Forall plain L → L ≠ [] → Split (path_of true L) SLASH = [] :: L) as HS.
  { intros L HL HLn. unfold path_of. change (SLASH :: ?x) with ([] ++ SLASH :: x). rewrite Split_app, Split_Join; [done|done|].
    apply parts_no_slash. eapply Forall_impl; [exact HL|apply plain_part]. }
  rewrite !HS in Ht by done. injection Ht as Ht. by exists (Split t SLASH).
Qed.

Lemma path_of_inj A B : Forall plain A → Forall plain B → path_of true A = path_of true B → A = B.
Proof.
  intros HA HB H. apply (f_equal components) in H. by rewrite !components_path_of in H by by apply plain_tidy.
Qed.

Lemma outside_components dir q : IsAbs dir = true → Clean dir ≠ [SLASH] → outside dir q →
  ∃ Q, q = path_of true Q ∧ Forall plain Q ∧ ¬ Q `prefix_of` components dir ∧ ¬ components dir `prefix_of` Q.
Proof.
  intros HA HC (Hq & HqA & Hr & Ha). rewrite HA in HqA.
  pose proof (components_abs _ HA) as HD. pose proof (components_abs _ HqA) as HQ.
  assert (q = path_of true (components q)) as Hqp by (rewrite <- Hq at 1; unfold Clean; by rewrite HqA).
  assert (Clean dir = path_of true (components dir)) as HDp by (unfold Clean; by rewrite HA).
  pose proof (abs_components dir HA HC) as HDn. revert Hqp HQ. generalize (components q) as Q.
  intros Q -> HQ. unfold IsRootedIn in Hr. rewrite Hq in Hr. unfold above in Ha. rewrite HDp in Ha, Hr.
  assert (Q ≠ []) as HQn.
  { intros ->. change (path_of true []) with [SLASH] in Ha. rewrite (bool_decide_true ([SLASH] = [SLASH])) in Ha by done.
    by rewrite orb_true_r in Ha. }
  apply orb_false_iff in Ha as [[H1 H2]%orb_false_iff _], Hr as [H3 H4].
  apply bool_decide_eq_false in H1, H3.
  exists Q. split_and!; [done|done| |]; intros [E HE].
  - rewrite HE in H1, H2. destruct (path_of_below Q E HQn) as [Hs|Hs]; [by destruct H1|congruence].
  - rewrite HE in H3, H4. destruct (path_of_below (components dir) E HDn) as [Hs|Hs]; [by destruct H3|congruence].
Qed.

Lemma not_above_prefix dir q B : IsAbs dir = true → Clean dir ≠ [SLASH] → outside dir q → Forall plain B →
  (B `prefix_of` components dir ∨ components dir `prefix_of` B) → above q (path_of true B) = false.
Proof.
  intros HA HC Hq HB HBD. destruct (outside_components dir q HA HC Hq) as (Q & -> & HQ & H1 & H2).
  assert (Q ≠ []) as HQn by (intros ->; apply H1; apply prefix_nil).
  assert (¬ Q `prefix_of` B) as Hno.
  { intros HQB. destruct HBD as [HBD|HBD]; [apply H1; by etrans|].
    destruct HQB as [E1 HE1], HBD as [E2 HE2]. rewrite HE1 in HE2.
    destruct (app_eq_inv _ _ _ _ HE2) as [(k & -> & _)|(k & Hk & _)]; [apply H2; by exists k|apply H1; by exists k]. }
  unfold above. rewrite !orb_false_iff. split_and!.
  - apply bool_decide_eq_false. intros ->%path_of_inj; [by apply Hno|done|done].
  - apply not_true_iff_false. intros HP. destruct B as [|b B].
    + clear -HP. revert HP. unfold path_of. destruct (GoStrings.Join Q [SLASH]); cbn; done || (intros H; by rewrite ?andb_false_r in H).
    + apply Hno. by apply prefix_path_of.
  - apply bool_decide_eq_false. intros Hs. apply HQn. by apply (path_of_inj Q []).
Qed.

Lemma confined_mkdir c name p D :
  safePath c name = Ret p → left_disk (MkdirAll (w_disk c) (Dir p)) = Some D → confined c (with_disk D c).
Proof.
  intros Hp HD. apply confined_disk. intros q HA HC Hq. apply safePath_inside in Hp as (cs & Hcs & ->).
  assert (w_dir c ≠ []) as Hd by (intros Hn; by rewrite Hn in HA).
  rewrite Join_plain, HA in HD by done. pose proof (components_abs _ HA) as HDp.
  assert (∃ B, Dir (path_of true (components (w_dir c) ++ cs)) = path_of true B ∧ Forall plain B ∧
            (B `prefix_of` components (w_dir c) ∨ components (w_dir c) `prefix_of` B)) as (B & HB & HBp & HBD).
  { destruct (exists_last (abs_components _ HA HC)) as (D0 & d & HD0).
    destruct cs as [|c0 cs0 _] using rev_ind.
    - exists D0. rewrite app_nil_r, HD0. rewrite HD0 in HDp. split_and!; [by apply Dir_path_of|by apply Forall_app in HDp as [? _]|].
      left. by exists [d].
    - exists (components (w_dir c) ++ cs0). rewrite app_assoc. apply Forall_app in Hcs as [Hcs0 Hc0].
      split_and!; [apply Dir_path_of; rewrite !Forall_app; by split_and!|by apply Forall_app|]. right. by exists cs0. }
  rewrite HB in HD. eapply mkdir_other; [|by eapply not_above_prefix|exact HD].
  destruct Hq as (Hq1 & Hq2 & _). split_and!; [|done|].
  - unfold Clean. rewrite IsAbs_path_of by (eapply Forall_impl; [exact HBp|apply plain_part]).
    by rewrite components_path_of by by apply plain_tidy.
  - by rewrite Hq2.
Qed.

(** *** The tables *)

Context {olaws : UnorderedLaws}.

Lemma elem_select c P p : p ∈ select c P ↔ w_vfile c !! p.1 = Some p.2 ∧ P p.2 = true.
Proof.
  unfold select. rewrite any_order_perm, list_elem_of_filter. destruct p as [i r]. cbn.
  rewrite elem_of_map_to_list. naive_solver.
Qed.

Lemma is_file_true vid name r : is_file vid name r = true ↔ vf_vid r = vid ∧ vf_pathname r = name.
Proof. unfold is_file. by rewrite andb_true_iff, Z.eqb_eq, bool_decide_eq_true. Qed.

Lemma find_file_Some c vid name i r : find_file c vid name = Some (i, r) →
  w_vfile c !! i = Some r ∧ vf_vid r = vid ∧ vf_pathname r = name.
Proof.
  unfold find_file. intros H. assert ((i, r) ∈ select c (is_file vid name)) as Hin.
  { destruct (select c (is_file vid name)) as [|x l]; [done|]. injection H as ->. by left. }
  apply elem_select in Hin as [Hi Hf]. by rewrite is_file_true in Hf.
Qed.

Lemma find_file_None c vid name : find_file c vid name = None ↔
  ∀ i r, w_vfile c !! i = Some r → vf_vid r = vid → vf_pathname r ≠ name.
Proof.
  unfold find_file. split.
  - intros H i r Hi Hv Hn. destruct (select c (is_file vid name)) as [|x l] eqn:E; [|done].
    apply (not_elem_of_nil (i, r)). rewrite <- E. apply elem_select. split; [done|]. by apply is_file_true.
  - intros H. destruct (select c (is_file vid name)) as [|[i r] l] eqn:E; [done|]. exfalso.
    assert ((i, r) ∈ select c (is_file vid name)) as Hin by (rewrite E; by left).
    apply elem_select in Hin as [Hi Hf]. apply is_file_true in Hf as [Hv Hn]. by apply (H i r).
Qed.

(** With unique names the row that is found is the row there is. *)
Lemma find_file_iff c vid name i r : names_unique c →
  find_file c vid name = Some (i, r) ↔ w_vfile c !! i = Some r ∧ vf_vid r = vid ∧ vf_pathname r = name.
Proof.
  intros Hu. split; [apply find_file_Some|]. intros (Hi & Hv & Hn).
  destruct (find_file c vid name) as [[j r']|] eqn:E.
  - apply find_file_Some in E as (Hj & Hv' & Hn'). assert (i = j) as -> by (eapply Hu; [exact Hi|exact Hj|congruence..]). congruence.
  - rewrite find_file_None in E. by destruct (E i r Hi Hv).
Qed.

Lemma confined_tables c f g q d :
  (names_unique c → names_unique (with_vfile f c)) →
  confined c (with_repo d (with_queue q (with_vvar g (with_vfile f c)))).
Proof. intros H. by split. Qed.

Lemma confined_vfile c f : (names_unique c → names_unique (with_vfile f c)) → confined c (with_vfile f c).
Proof. intros H. by split. Qed.
Lemma confined_vvar c f : confined c (with_vvar f c).
Proof. by split. Qed.
Lemma confined_queue c q : confined c (with_queue q c).
Proof. by split. Qed.
Lemma confined_repo c d : confined c (with_repo d c).
Proof. by split. Qed.

Lemma confined_filter c (P : Z * vfileRow → Prop) `{!∀ p, Decision (P p)} : confined c (with_vfile (filter P) c).
Proof.
  apply confined_vfile. intros Hu i j r r' Hi Hj. cbn in Hi, Hj.
  apply map_lookup_filter_Some in Hi as [Hi _], Hj as [Hj _]. by apply (Hu i j).
Qed.

Lemma confined_delete c id : confined c (with_vfile (delete id) c).
Proof.
  apply confined_vfile. intros Hu i j r r' Hi Hj. cbn in Hi, Hj.
  apply lookup_delete_Some in Hi as [_ Hi], Hj as [_ Hj]. by apply (Hu i j).
Qed.

(** A row is changed in place, with a name that no other row of the version has. *)
Lemma confined_alter c f id :
  (∀ r, w_vfile c !! id = Some r → vf_vid (f r) = vf_vid r ∧
     ∀ i r', i ≠ id → w_vfile c !! i = Some r' → vf_vid r' = vf_vid r → vf_pathname r' ≠ vf_pathname (f r)) →
  confined c (with_vfile (alter f id) c).
Proof.
  intros Hf. apply confined_vfile. intros Hu i j r r' Hi Hj Hv Hn. cbn in Hi, Hj.
  apply lookup_alter_Some in Hi as [(<- & x & Hx & ->)|[Hi Hx]], Hj as [(Hj & y & Hy & ->)|[Hj Hy]].
  - done.
  - destruct (Hf x Hx) as [Hvx Hne]. destruct (decide (j = id)) as [->|Hd]; [done|]. rewrite Hvx in Hv.
    by destruct (Hne j r' Hd Hy (eq_sym Hv)).
  - subst j. destruct (Hf y Hy) as [Hvy Hne]. destruct (decide (i = id)) as [->|Hd]; [done|]. rewrite Hvy in Hv.
    by destruct (Hne i r Hd Hx Hv).
  - by apply (Hu i j r r').
Qed.

Lemma confined_flags c f id : (∀ r, vf_vid (f r) = vf_vid r ∧ vf_pathname (f r) = vf_pathname r) →
  confined c (with_vfile (alter f id) c).
Proof.
  intros Hf. apply confined_vfile. intros Hu i j r r' Hi Hj Hv Hn. cbn in Hi, Hj.
  assert (∀ k x, alter f id (w_vfile c) !! k = Some x → ∃ y, w_vfile c !! k = Some y ∧ vf_vid y = vf_vid x ∧ vf_pathname y = vf_pathname x) as Hold.
  { intros k x Hk. apply lookup_alter_Some in Hk as [(<- & y & Hy & ->)|[_ Hy]]; [|by exists x].
    exists y. destruct (Hf y) as [-> ->]. done. }
  apply Hold in Hi as (y & Hy & Hv1 & Hn1), Hj as (y' & Hy' & Hv2 & Hn2). eapply Hu; [exact Hy|exact Hy'|congruence..].
Qed.

Lemma confined_insert c r : find_file c (vf_vid r) (vf_pathname r) = None → confined c (insert_vfile r c).
Proof.
  intros Hnone. rewrite find_file_None in Hnone. apply confined_vfile.
  set (new := next_rowid (map fst (map_to_list (w_vfile c)))). intros Hu i j x y Hi Hj Hv Hn. cbn in Hi, Hj.
  change (<[new := r]> (w_vfile c) !! i = Some x) in Hi. change (<[new := r]> (w_vfile c) !! j = Some y) in Hj.
  apply lookup_insert_Some in Hi as [[<- <-]|[Hi Hx]], Hj as [[Hj Hy]|[Hj Hy]]; [done| | |by apply (Hu i j x y)].
  - by destruct (Hnone j y Hy (eq_sym Hv)).
  - subst y. by destruct (Hnone i x Hx Hv).
Qed.

Lemma insert_vfile_fresh c : w_vfile c !! next_rowid (map fst (map_to_list (w_vfile c))) = None.
Proof.
  apply eq_None_not_Some. intros [x Hx]. 
  assert (next_rowid (map fst (map_to_list (w_vfile c))) < next_rowid (map fst (map_to_list (w_vfile c))))%Z; [|lia].
  apply next_rowid_fresh, list_elem_of_fmap. eexists (_, x). split; [reflexivity|]. by apply elem_of_map_to_list.
Qed.

(** *** The operations *)

Lemma leaves_same_bind {B} c (pr : B → Checkout) (m : run Checkout) f :
  leaves confined c same m → (∀ a, m = Ret a → leaves confined a pr (f a)) → leaves confined c pr (m ≫= f).
Proof. intros H Hf. by eapply (leaves_bind confined c same). Qed.

Lemma leaves_ret {A} c (pr : A → Checkout) a : confined c (pr a) → leaves confined c pr (Ret a).
Proof. done. Qed.

Lemma leaves_step {A} c c' (pr : A → Checkout) (m : run A) : confined c c' → leaves confined c' pr m → leaves confined c pr m.
Proof. apply leaves_trans, _. Qed.

Lemma set_version_confined c rid uuid : confined c (set_version rid uuid c).
Proof. etrans; apply confined_vvar. Qed.

Lemma load_files_confined vid files c missing : leaves confined c fst (load_files vid files c missing).
Proof.
  revert c missing. induction files as [|f files IH]; intros c missing; cbn [load_files]; [apply leaves_ret; reflexivity|].
  apply leaves_reading; [apply _|]. intros ex _. cbv zeta. destruct (find_file c vid (fe_Name f)) eqn:E; [apply IH|].
  eapply leaves_step; [|apply IH]. by apply confined_insert.
Qed.

Lemma LoadVFile_confined c rid clear : leaves confined c fst (LoadVFile c rid clear).
Proof.
  unfold LoadVFile. cbv zeta. apply (leaves_step _ (if clear then clear_others rid c else c)).
  { destruct clear; [apply confined_filter|reflexivity]. }
  apply leaves_reading; [apply _|]. intros files _. apply load_files_confined.
Qed.

Lemma set_chnged_confined v id c : confined c (set_chnged v id c).
Proof. by apply confined_flags. Qed.

Lemma ContentHash_or_panic {E} data mhash : ContentHash (E := E) (Some data) mhash = Panic ∨ ∃ h, ContentHash (E := E) (Some data) mhash = Ret h.
Proof.
  unfold ContentHash. destruct (length mhash =? 0); [by left|]. right. destruct (40 <? length mhash); by eexists.
Qed.

Lemma scan_entries_confined entries c flags : leaves confined c same (scan_entries c entries flags).
Proof.
  revert c. induction entries as [|[[id r] mhash] entries IH]; intros c; cbn [scan_entries]; [apply leaves_ret; reflexivity|].
  apply (leaves_bind confined c (λ x : Checkout * bool * bool, x.1.1)).
  2:{ intros [[c' b1] b2] _. apply IH. }
  unfold scanSingleEntry. destruct (negb (vf_deleted r =? 0)%Z); [apply leaves_ret; reflexivity|].
  apply leaves_reading; [apply _|]. intros p _. destruct (ReadFile (w_disk c) p) as [data|[]| |]; try (cbn; reflexivity); [|done..].
  destruct (negb _); [cbn; reflexivity|]. destruct (ContentHash_or_panic (E := Checkout * ck_error) data mhash) as [->|[h ->]]; [done|].
  cbn [mbind outcome_bind]. case_bool_decide; destruct (vf_chnged r =? 0)%Z; cbn; try reflexivity; apply set_chnged_confined.
Qed.

Lemma ScanChanges_confined c flags : leaves confined c same (ScanChanges c flags).
Proof.
  unfold ScanChanges. apply leaves_reading; [apply _|]. intros [rid u] _. apply leaves_reading; [apply _|].
  intros es _. apply scan_entries_confined.
Qed.

Lemma manage_paths_confined c vid paths cb counts : leaves confined c fst (manage_paths c vid paths cb counts).
Proof.
  revert c counts. induction paths as [|path paths IH]; intros c counts; cbn [manage_paths]; [apply leaves_ret; reflexivity|].
  destruct (find_file c vid path) eqn:E; [apply leaves_callback; [apply _|apply IH]|].
  do 3 (apply leaves_reading; [apply _|]; intros ? _). cbv zeta.
  eapply leaves_step; [|apply leaves_callback; [apply _|apply IH]]. by apply confined_insert.
Qed.

Lemma unmanageFile_confined c id rid name cb : leaves confined c same (unmanageFile c id rid name cb).
Proof.
  unfold unmanageFile. cbv zeta. apply (leaves_step _ (if (rid =? 0)%Z then with_vfile (delete id) c else set_deleted id c)).
  { destruct (rid =? 0)%Z; [apply confined_delete|by apply confined_flags]. }
  apply leaves_callback; [apply _|apply leaves_ret; reflexivity].
Qed.

Lemma Unmanage_confined c paths ids cb : leaves confined c same (Unmanage c paths ids cb).
Proof.
  unfold Unmanage. apply leaves_reading; [apply _|]. intros [vid u] _.
  assert (∀ ids c, leaves confined c same (unmanage_ids c ids cb)) as Hids.
  { clear. intros ids. induction ids as [|id ids IH]; intros c; cbn [unmanage_ids]; [apply leaves_ret; reflexivity|].
    apply leaves_same_bind; [|intros ? _; apply IH]. destruct (w_vfile c !! id); [apply unmanageFile_confined|apply leaves_ret; reflexivity]. }
  destruct ids as [|id ids]; [|apply Hids]. clear Hids. revert c.
  induction paths as [|path paths IH]; intros c; cbn [unmanage_paths]; [apply leaves_ret; reflexivity|].
  apply leaves_same_bind; [|intros ? _; apply IH].
  destruct (find_file c vid path) as [[i r]|]; [apply unmanageFile_confined|apply leaves_ret; reflexivity].
Qed.

Lemma write_below_confined c name p data perm : safePath c name = Ret p → leaves confined c same (write_below c p data perm).
Proof.
  intros Hp. unfold write_below. apply leaves_writing.
  - intros D. by eapply confined_mkdir.
  - intros c' [Hd _ _]. apply writing_same. intros D. eapply confined_write. unfold safePath in *. rewrite Hd. exact Hp.
Qed.

Lemma safePath_dir c c' name : w_dir c' = w_dir c → safePath c' name = safePath c name.
Proof. unfold safePath. by intros ->. Qed.

Lemma move_on_disk_confined c id from to : leaves confined c same (move_on_disk c id from to).
Proof.
  unfold move_on_disk. apply leaves_reading; [apply _|]. intros perm _. apply leaves_reading; [apply _|]. intros p Hp.
  apply leaves_reading; [apply _|]. intros p' Hp'. unfold moveFile. apply leaves_reading; [apply _|]. intros data _.
  apply leaves_writing; [intros D; by eapply confined_mkdir|]. intros c1 [H1 _ _].
  apply leaves_writing; [intros D; eapply confined_write; by rewrite (safePath_dir _ _ _ H1)|]. intros c2 [H2 _ _].
  assert (∀ D, left_disk (Remove (w_disk c2) p) = Some D → confined c2 (with_disk D c2)) as Hrm.
  { intros D. eapply confined_remove. rewrite (safePath_dir c c2); [exact Hp|congruence]. }
  destruct (Remove (w_disk c2) p) as [D|[D []]| |]; cbn; try done; by apply Hrm.
Qed.

Lemma set_names_confined c id name orig v vid :
  (∀ r, w_vfile c !! id = Some r → vf_vid r = vid) →
  (∀ i r, i ≠ id → w_vfile c !! i = Some r → vf_vid r = vid → vf_pathname r ≠ name) →
  confined c (set_names name orig v id c).
Proof.
  intros Hid Hn. apply confined_alter. intros r Hr. split; [done|]. intros i r' Hi Hr' Hv. cbn.
  apply (Hn i r' Hi Hr'). rewrite Hv. by apply Hid.
Qed.

Lemma Rename_confined c from to mv cb : leaves confined c same (Rename c from to mv cb).
Proof.
  unfold Rename. case_bool_decide; [done|]. case_bool_decide; [done|]. apply leaves_reading; [apply _|]. intros [vid u] _.
  destruct (find_file c vid from) as [[id r]|] eqn:E; [|cbn; reflexivity].
  destruct (find_file c vid to) eqn:E'; [cbn; reflexivity|]. cbv zeta. apply find_file_Some in E as (Hi & Hv & _).
  rewrite find_file_None in E'. apply (leaves_step _ (set_names to (Some from) 1 id c)).
  { eapply set_names_confined; [|intros i r' _; apply E']. intros x Hx. congruence. }
  apply leaves_same_bind; [destruct mv; [apply move_on_disk_confined|apply leaves_ret; reflexivity]|].
  intros c' _. apply leaves_callback; [apply _|apply leaves_ret; reflexivity].
Qed.

Lemma RevertRename_confined c name mv : leaves confined c fst (RevertRename c name mv).
Proof.
  unfold RevertRename. case_bool_decide; [done|]. apply leaves_reading; [apply _|]. intros [vid u] _.
  destruct (find_file c vid name) as [[id r]|] eqn:E; [|cbn; reflexivity]. cbv zeta.
  case_bool_decide; [cbn; reflexivity|]. apply find_file_Some in E as (Hi & Hv & _).
  assert (names_unique c → match find_file c vid (default [] (vf_origname r)) with Some (id', _) => negb (id' =? id)%Z | None => false end = false →
    confined c (set_names (default [] (vf_origname r)) None 0 id c)) as Hc.
  { intros Hu Ht. apply (set_names_confined _ _ _ _ _ vid); [intros x Hx; congruence|]. intros i x Hne Hx Hxv Hxn.
    assert (find_file c vid (default [] (vf_origname r)) = Some (i, x)) as Hf by by apply find_file_iff.
    rewrite Hf in Ht. apply negb_false_iff, Z.eqb_eq in Ht. done. }
  destruct (match find_file c vid _ with Some _ => _ | None => _ end) eqn:Ht; [cbn; reflexivity|].
  apply (leaves_step _ (set_names (default [] (vf_origname r)) None 0 id c)).
  { split; [done|done|]. intros Hu. by apply (Hc Hu eq_refl). }
  apply leaves_same_bind; [destruct mv; [apply move_on_disk_confined|apply leaves_ret; reflexivity]|].
  intros c' _. cbn. reflexivity.
Qed.

Lemma set_mtime_confined c name t : leaves confined c same (set_mtime c name t).
Proof.
  unfold set_mtime. destruct t as [t|]; [|apply leaves_ret; reflexivity].
  destruct (safePath c name) as [p|e| |]; try (cbn; reflexivity); [|done..].
  assert (∀ D, left_disk (Chtimes (w_disk c) p t) = Some D → confined c (with_disk D c)) as Hc by (intros D; apply confined_chtimes).
  destruct (Chtimes (w_disk c) p t) as [D|[D e]| |]; cbn; try done; by apply Hc.
Qed.

Lemma extract_rows_confined rows c opts t : leaves confined c same (extract_rows c rows opts t).
Proof.
  revert c. induction rows as [|[i r] rows IH]; intros c; cbn [extract_rows]; [apply leaves_ret; reflexivity|].
  apply leaves_same_bind; [|intros c1 _; apply leaves_same_bind; [apply set_mtime_confined|]].
  - unfold extractSingleFile. destruct (eo_DryRun opts); [apply leaves_ret; reflexivity|].
    do 2 (apply leaves_reading; [apply _|]; intros ? ?). by eapply write_below_confined.
  - intros c2 _. apply leaves_callback; [apply _|apply IH].
Qed.

Lemma Extract_confined c rid opts : leaves confined c same (Extract c rid opts).
Proof.
  unfold Extract. eapply (leaves_bind confined c fst); [apply LoadVFile_confined|]. intros [c1 n] _. cbv zeta. cbn [fst].
  assert (∀ (m : run unit) (f : unit → run Checkout), (∀ e, m = Fail e → e.1 = c1) → leaves confined c1 same (f tt) →
    leaves confined c1 same (m ≫= f)) as Hunit.
  { intros m f He Hf. destruct m as [[]|e| |]; cbn; [done| |done..]. specialize (He e eq_refl). destruct e; cbn in He. subst. cbn. reflexivity. }
  apply Hunit.
  { intros e. destruct (_ && _); [|done]. destruct (check_local _ _); cbn; [done| |done..]. by intros [= <-]. }
  apply leaves_same_bind; [apply extract_rows_confined|]. intros c2 _. unfold finalizeExtract.
  destruct (uuid_at _ _); cbn; [apply set_version_confined|reflexivity].
Qed.

Lemma remove_file_confined c name p : safePath c name = Ret p → leaves confined c same (remove_file c p).
Proof.
  intros Hp. unfold remove_file. assert (∀ D, left_disk (Remove (w_disk c) p) = Some D → confined c (with_disk D c)) as Hc
    by (intros D; by eapply confined_remove).
  destruct (Remove (w_disk c) p) as [D|[D []]| |]; cbn; try done; by apply Hc.
Qed.

Lemma revertFile_confined c id name rid cb : leaves confined c same (revertFile c id name rid cb).
Proof.
  unfold revertFile. apply leaves_reading; [apply _|]. intros p Hp. destruct (rid =? 0)%Z; cbv zeta.
  - apply (leaves_step _ (with_vfile (delete id) c)); [apply confined_delete|].
    apply leaves_same_bind; [by eapply (remove_file_confined _ name)|]. intros c1 _.
    apply leaves_callback; [apply _|apply leaves_ret; reflexivity].
  - do 2 (apply leaves_reading; [apply _|]; intros ? _). apply leaves_same_bind; [by eapply write_below_confined|]. intros c1 _.
    apply (leaves_step _ (set_unchanged id c1)); [by apply confined_flags|].
    apply leaves_callback; [apply _|apply leaves_ret; reflexivity].
Qed.

Lemma Revert_confined c paths cb : leaves confined c same (Revert c paths cb).
Proof.
  unfold Revert. apply leaves_reading; [apply _|]. intros [vid u] _.
  assert (∀ paths c, leaves confined c same (revert_paths c vid paths cb)) as Hp.
  { intros ps. clear c. induction ps as [|p ps IH]; intros c; cbn [revert_paths]; [apply leaves_ret; reflexivity|].
    apply leaves_same_bind; [|intros ? _; apply IH]. unfold revertSinglePath.
    destruct (find_file c vid p) as [[i r]|]; [|apply leaves_ret; reflexivity].
    destruct (_ && _); [apply leaves_ret; reflexivity|apply revertFile_confined]. }
  destruct paths as [|p paths]; [|apply Hp]. generalize (select c (λ r, (vf_vid r =? vid)%Z && (is_changed r || (vf_rid r =? 0)%Z))) as rows.
  intros rows. clear Hp. revert c. induction rows as [|[i r] rows IH]; intros c; cbn [revert_rows]; [apply leaves_ret; reflexivity|].
  apply leaves_same_bind; [apply revertFile_confined|intros ? _; apply IH].
Qed.

Lemma WriteManifest_confined c flags : leaves confined c same (WriteManifest c flags).
Proof.
  unfold WriteManifest. apply leaves_reading; [apply _|]. intros [rid u] _. apply leaves_same_bind.
  - destruct (negb _); [apply leaves_ret; reflexivity|]. apply leaves_reading; [apply _|]. intros data _.
    apply leaves_reading; [apply _|]. intros p Hp. apply writing_same. intros D. by eapply confined_write.
  - intros c1 _. destruct (negb _); [apply leaves_ret; reflexivity|].
    apply leaves_reading; [apply _|]. intros p Hp. apply writing_same. intros D. by eapply confined_write.
Qed.

Lemma Commit_confined clock now c opts : leaves confined c (λ x : Checkout * Z * bytes, x.1.1) (Commit clock now c opts).
Proof.
  unfold Commit. apply leaves_reading; [apply _|]. intros [parent u] _.
  apply leaves_same_bind; [apply ScanChanges_confined|]. intros c1 _. destruct (negb _); [cbn; reflexivity|].
  destruct (collectVFileEntries c1 parent) as [[E C] D]. apply leaves_reading; [apply _|]. intros files _. cbv zeta.
  destruct (Checkin now (w_repo c1) _) as [[[d rid] uuid]|[d e]| |]; cbn [wrap_err mbind outcome_bind]; [|apply confined_repo|done..].
  unfold finalizeCommit. apply (leaves_bind confined c1 same).
  - apply (leaves_step _ (set_version rid uuid (with_repo d c1))); [etrans; [apply confined_repo|apply set_version_confined]|].
    eapply (leaves_bind confined _ fst); [apply LoadVFile_confined|]. intros [c2 n] _. apply confined_queue.
  - intros c2 _. apply leaves_ret. reflexivity.
Qed.

Lemma writeFileFromUUID_confined c name uuid : leaves confined c same (writeFileFromUUID c name uuid).
Proof.
  unfold writeFileFromUUID. do 2 (apply leaves_reading; [apply _|]; intros ? ?). by eapply write_below_confined.
Qed.

Lemma updateFile_confined c name cur tgt anc s dry : leaves confined c fst (updateFile c name cur tgt anc s dry).
Proof.
  assert (∀ (m : run Checkout) (v : UpdateChange), leaves confined c same m → leaves confined c fst (m ≫= λ c, Ret (c, v))) as Hret.
  { intros m v Hm. eapply leaves_same_bind; [exact Hm|]. intros ? _. apply leaves_ret. cbn. reflexivity. }
  assert (∀ uuid, leaves confined c same (if dry then Ret c else writeFileFromUUID c name uuid)) as Hw.
  { intros uuid. destruct dry; [apply leaves_ret; reflexivity|apply writeFileFromUUID_confined]. }
  destruct cur as [cu|], tgt as [tu|]; cbn [updateFile]; try (by apply Hret); try (apply leaves_ret; cbn; reflexivity).
  - case_bool_decide; [apply leaves_ret; cbn; reflexivity|]. case_bool_decide; [by apply Hret|].
    case_bool_decide; [apply leaves_ret; cbn; reflexivity|]. unfold mergeFile.
    do 3 (apply leaves_reading; [apply _|]; intros ? _).
    destruct (Merge.Merge _ _ _ _) as [res|[]| |]; cbn [wrap_err mbind outcome_bind]; [|done..].
    apply Hret. destruct dry; [apply leaves_ret; reflexivity|]. apply leaves_reading; [apply _|]. intros p Hp. by eapply write_below_confined.
  - apply Hret. destruct dry; [apply leaves_ret; reflexivity|]. apply leaves_reading; [apply _|]. intros p Hp. by eapply remove_file_confined.
Qed.

Lemma processFileUpdates_confined c maps names s opts t : leaves confined c same (processFileUpdates c maps names s opts t).
Proof.
  revert c. induction names as [|name names IH]; intros c; cbn [processFileUpdates]; [apply leaves_ret; reflexivity|].
  eapply (leaves_bind confined c fst); [apply updateFile_confined|]. intros [c1 change] _. case_bool_decide; [apply IH|].
  apply leaves_same_bind; [case_bool_decide; [apply leaves_ret; reflexivity|apply set_mtime_confined]|].
  intros c2 _. apply leaves_callback; [apply _|apply IH].
Qed.

Lemma Update_confined c opts : leaves confined c same (Update c opts).
Proof.
  unfold Update. eapply (leaves_bind confined c (λ _ : Z, c)).
  { destruct (_ =? _)%Z; [|apply leaves_ret; reflexivity]. destruct (CalcUpdateVersion c); cbn; try done; reflexivity. }
  intros target _. destruct (target =? 0)%Z; [apply leaves_ret; reflexivity|].
  apply leaves_reading; [apply _|]. intros [cur u] _. destruct (cur =? target)%Z; [apply leaves_ret; reflexivity|].
  apply leaves_reading; [apply _|]. intros maps _. destruct (StrategyByName _); [|cbn; reflexivity]. cbv zeta.
  apply leaves_same_bind; [apply processFileUpdates_confined|]. intros c1 _. unfold finalizeUpdate.
  eapply (leaves_bind confined c1 fst); [apply LoadVFile_confined|]. intros [c2 n] _.
  destruct (uuid_at _ _); cbn; [apply set_version_confined|reflexivity].
Qed.

(** The operations on a checkout: what they leave, with a result or with an error. *)
Definition left_by {A} (m : run A) (pr : A → Checkout) (c' : Checkout) : Prop :=
  match m with Ret a => pr a = c' | Fail (d, _) => d = c' | _ => False end.

Inductive operation (c c' : Checkout) : Prop :=
  | Op_LoadVFile rid clear (H : left_by (LoadVFile c rid clear) fst c')
  | Op_UnloadVFile rid (H : UnloadVFile rid c = c')
  | Op_ScanChanges flags (H : left_by (ScanChanges c flags) same c')
  | Op_VisitChanges vid scan fn (H : left_by (VisitChanges c vid scan fn) fst c')
  | Op_Manage paths cb (H : left_by (Manage c paths cb) fst c')
  | Op_Unmanage paths ids cb (H : left_by (Unmanage c paths ids cb) same c')
  | Op_Rename from to move cb (H : left_by (Rename c from to move cb) same c')
  | Op_RevertRename name move (H : left_by (RevertRename c name move) fst c')
  | Op_Extract rid opts (H : left_by (Extract c rid opts) same c')
  | Op_WriteManifest flags (H : left_by (WriteManifest c flags) same c')
  | Op_Revert paths cb (H : left_by (Revert c paths cb) same c')
  | Op_Enqueue paths cb (H : left_by (Enqueue c paths cb) same c')
  | Op_Dequeue paths (H : Dequeue c paths = c')
  | Op_Commit clock now opts (H : left_by (Commit clock now c opts) (λ x, x.1.1) c')
  | Op_Update opts (H : left_by (Update c opts) same c').

Lemma leaves_left {A} c (m : run A) pr c' : leaves confined c pr m → left_by m pr c' → confined c c'.
Proof. destruct m as [a|[d e]| |]; cbn; try done; by intros ? <-. Qed.

Lemma operation_confined c c' : operation c c' → confined c c'.
Proof.
  intros [rid cl H|rid H|fl H|vid sc fn H|ps cb H|ps ids cb H|f t mv cb H|n mv H|rid o H|fl H|ps cb H|ps cb H|ps H|k n o H|o H];
    try (by subst; apply confined_filter); try (eapply leaves_left; [|exact H]).
  - apply LoadVFile_confined.
  - apply ScanChanges_confined.
  - unfold VisitChanges. apply leaves_same_bind.
    + destruct sc; [apply ScanChanges_confined|apply leaves_ret; reflexivity].
    + intros c1 _. apply leaves_reading; [apply _|]. intros l _. apply leaves_ret. cbn. reflexivity.
  - unfold Manage. apply leaves_reading; [apply _|]. intros [v u] _. apply manage_paths_confined.
  - apply Unmanage_confined.
  - apply Rename_confined.
  - apply RevertRename_confined.
  - apply Extract_confined.
  - apply WriteManifest_confined.
  - apply Revert_confined.
  - unfold Enqueue. clear H. generalize (default ∅ (w_queue c)) as q. revert c.
    induction ps as [|p ps IH]; intros c q; cbn [enqueue_paths]; [apply leaves_ret, confined_queue|]. cbv zeta.
    destruct (cb p); [|apply confined_queue]. cbn [callback]. apply IH.
  - subst. destruct ps; apply confined_queue.
  - apply Commit_confined.
  - apply Update_confined.
Qed.

(** ** Files inside the directory *)

(** A clean relative name of something below the directory. *)
Definition good_name (name : bytes) : Prop := ∃ cs, cs ≠ [] ∧ inside name cs.

(** Where a file of the checkout is. *)
Definition dest (c : Checkout) (name : bytes) : bytes := Storage.Join (w_dir c) name.

Lemma safePath_good c name : good_name name → safePath c name = Ret (dest c name).
Proof. intros (cs & Hne & Hcs & ->). unfold safePath. by rewrite CheckFilename_plain. Qed.

Lemma dest_clean c n n' : w_dir c ≠ [] → good_name n → good_name n' → n ≠ n' →
  clean_names (dest c n) (dest c n') ∧ dest c n ≠ dest c n'.
Proof.
  intros Hd (cs & _ & Hcs & ->) (cs' & _ & Hcs' & ->) Hne. unfold dest.
  assert (∀ l, Forall plain l → IsAbs (Storage.Join (w_dir c) (path_of false l)) = IsAbs (w_dir c)) as HA.
  { intros l Hl. rewrite Join_plain by done. apply IsAbs_path_of. apply Forall_app. split.
    - pose proof (tidy_parts _ _ (components_tidy (w_dir c))) as Hp. apply Forall_rev in Hp. by rewrite rev_involutive in Hp.
    - eapply Forall_impl; [exact Hl|apply plain_part]. }
  split.
  - split_and!; [by apply Join_clean..|by rewrite !HA].
  - intros Heq. by apply Join_inj in Heq as ->.
Qed.

(** A file that is written, with its directory: what it had is gone, other files
    stay. *)
Definition files_stay (c : Checkout) (D : disk) (P : bytes → Prop) : Prop :=
  ∀ n b, good_name n → P n → ReadFile (w_disk c) (dest c n) = Ret b → ReadFile D (dest c n) = Ret b.

Lemma writing_ret c m c' : writing c m = Ret c' → ∃ D, m = Ret D ∧ c' = with_disk D c.
Proof. destruct m as [D|[D e]| |]; cbn; [intros [= <-]; by exists D|done..]. Qed.

Lemma write_below_ret c name data perm c' : w_dir c ≠ [] → good_name name →
  write_below c (dest c name) data perm = Ret c' →
  ∃ D, c' = with_disk D c ∧ ReadFile D (dest c name) = Ret data ∧ files_stay c D (λ n, n ≠ name).
Proof.
  intros Hd Hn (c1 & (D1 & H1 & ->)%writing_ret & (D & H2 & ->)%writing_ret)%bind_ret_inv.
  exists D. split; [done|]. split; [by eapply read_written|]. intros n b Hg Hne Hr. cbn in H2.
  destruct (dest_clean c name n) as [Hc Hne']; [done..|congruence|].
  erewrite write_other; [|exact Hc|done|by rewrite H2]. eapply mkdir_keeps; [by rewrite H1|done].
Qed.

Lemma set_mtime_ret c name t c' : set_mtime c name t = Ret c' →
  ∃ D, c' = with_disk D c ∧ ∀ q, ReadFile D q = ReadFile (w_disk c) q.
Proof.
  assert (c = with_disk (w_disk c) c) as Hsame by by destruct c.
  unfold set_mtime. destruct t as [t|]; [|intros [= <-]; by exists (w_disk c)].
  destruct (safePath c name) as [p|e| |]; [|intros [= <-]; by exists (w_disk c)|done..].
  assert (∀ D q, left_disk (Chtimes (w_disk c) p t) = Some D → ReadFile D q = ReadFile (w_disk c) q) as Hc
    by (intros D q; apply chtimes_read).
  destruct (Chtimes (w_disk c) p t) as [D|[D e]| |]; [| |done..]; intros [= <-]; exists D; (split; [done|]); intros q; by apply Hc.
Qed.

Lemma reading_ret {A} c (m : out A) a : reading c m = Ret a → m = Ret a.
Proof. apply wrap_err_ret. Qed.

Lemma on_db_ret {A} (m : outcome db_error A) a : on_db m = Ret a → m = Ret a.
Proof. apply wrap_err_ret. Qed.

Lemma in_repo_inv {A} (m : outcome blob_error A) a : in_repo m = Ret a → m = Ret a.
Proof. apply wrap_err_ret. Qed.

Lemma callback_ret {A} c ok name (m : run A) a : callback c ok name m = Ret a → m = Ret a.
Proof. by destruct ok. Qed.

(** ** The table of a version *)

Lemma Exists_rid q uuid ex : Blob.Exists q uuid = Ret ex → ex = rid_of_uuid q uuid.
Proof. unfold Blob.Exists. case_bool_decide; [done|]. by intros [= <-]. Qed.

Definition row_of (c : Checkout) (vid : Z) (f : FileEntry) : vfileRow :=
  entry_row vid (default 0%Z (rid_of_uuid (d_repo (w_repo c)) (fe_UUID f))) f.

Definition has_row (c : Checkout) (r : vfileRow) : Prop := ∃ i, w_vfile c !! i = Some r.

Lemma load_files_ret vid files c missing c' n :
  load_files vid files c missing = Ret (c', n) → NoDup (map fe_Name files) →
  (∀ r, has_row c r → vf_vid r = vid → vf_pathname r ∉ map fe_Name files) →
  c' = with_vfile (λ _, w_vfile c') c ∧ ∀ r, has_row c' r ↔ has_row c r ∨ r ∈ map (row_of c vid) files.
Proof.
  revert c missing. induction files as [|f files IH]; intros c missing; cbn [load_files map].
  { intros [= <- <-] _ _. split; [by destruct c|]. intros r. rewrite elem_of_nil. tauto. }
  intros (ex & He%reading_ret%on_db_ret%in_repo_inv%Exists_rid & H)%bind_ret_inv [Hf Hnd]%NoDup_cons Hno. cbv zeta in H. subst ex.
  destruct (find_file c vid (fe_Name f)) as [[i r]|] eqn:E.
  { apply find_file_Some in E as (Hi & Hv & Hn). exfalso. apply (Hno r); [by exists i|done|]. rewrite Hn. by left. }
  fold (row_of c vid f) in H. pose proof (insert_vfile_fresh c) as Hfresh.
  assert (∀ r, has_row (insert_vfile (row_of c vid f) c) r ↔ has_row c r ∨ r = row_of c vid f) as Hrow.
  { intros r. unfold has_row, insert_vfile. cbn [w_vfile with_vfile]. split.
    - intros [i Hi]. apply lookup_insert_Some in Hi as [[_ <-]|[_ Hi]]; [by right|left; by exists i].
    - intros [[i Hi]| ->].
      + exists i. rewrite lookup_insert_ne; [done|]. intros <-. congruence.
      + eexists. apply lookup_insert_eq. }
  apply IH in H; [|done|].
  - destruct H as [Hc' Hg]. split; [rewrite Hc'; reflexivity|]. intros r. rewrite Hg, Hrow, elem_of_cons.
    change (map (row_of (insert_vfile (row_of c vid f) c) vid) files) with (map (row_of c vid) files). tauto.
  - intros r Hr Hv Hin. apply Hrow in Hr as [Hr|Hr]; [by apply (Hno r Hr Hv); right|]. subst r. by apply Hf.
Qed.

(** The rows that [LoadVFile] leaves, when the version had none. *)
Lemma LoadVFile_ret c rid c' n files :
  LoadVFile c rid true = Ret (c', n) → ListFiles (w_repo c) rid = Ret files → NoDup (map fe_Name files) →
  (∀ r, has_row c r → vf_vid r ≠ rid) →
  c' = with_vfile (λ _, w_vfile c') c ∧ ∀ r, has_row c' r ↔ r ∈ map (row_of c rid) files.
Proof.
  unfold LoadVFile. cbv zeta. intros (fs & Hfs%reading_ret%on_db_ret & H)%bind_ret_inv Hl Hnd Hno.
  change (w_repo (clear_others rid c)) with (w_repo c) in Hfs. rewrite Hl in Hfs. injection Hfs as <-.
  assert (∀ r, ¬ has_row (clear_others rid c) r) as Hcl.
  { intros r [i Hi]. cbn in Hi. apply map_lookup_filter_Some in Hi as [Hi Hv]. by apply (Hno r); [exists i|]. }
  apply load_files_ret in H as [Hc' Hr]; [|done|intros r Hr; by destruct (Hcl r)].
  split; [rewrite Hc'; reflexivity|]. intros r. rewrite Hr.
  change (map (row_of (clear_others rid c) rid) files) with (map (row_of c rid) files). split; [|by right].
  intros [Hx|Hx]; [by destruct (Hcl r)|done].
Qed.

(** ** Extraction *)


Lemma extract_rows_ret rows c opts t c' :
  extract_rows c rows opts t = Ret c' → eo_DryRun opts = false → w_dir c ≠ [] →
  Forall (λ p, good_name (vf_pathname p.2)) rows → NoDup (map (λ p, vf_pathname p.2) rows) →
  ∃ D, c' = with_disk D c ∧
    (∀ p, p ∈ rows → ∃ data, Expand (d_repo (w_repo c)) (vf_rid p.2) = Ret data ∧ ReadFile D (dest c (vf_pathname p.2)) = Ret data) ∧
    files_stay c D (λ n, n ∉ map (λ p, vf_pathname p.2) rows).
Proof.
  intros H Hdry. revert c H. induction rows as [|[i r] rows IH]; intros c H Hd Hg Hnd; cbn [extract_rows] in H.
  { injection H as <-. exists (w_disk c). split; [by destruct c|]. split; [|by intros n b]. intros p Hp. by apply not_elem_of_nil in Hp. }
  apply Forall_cons in Hg as [Hg1 Hg]. cbn [map snd] in Hnd. apply NoDup_cons in Hnd as [Hn Hnd]. cbn [snd] in Hg1.
  apply bind_ret_inv in H as (c1 & H1 & H). unfold extractSingleFile in H1. rewrite Hdry in H1.
  apply bind_ret_inv in H1 as (data & Hx%reading_ret%on_db_ret%in_repo_inv & H1).
  rewrite safePath_good in H1 by done. cbn [reading wrap_err mbind outcome_bind] in H1.
  apply write_below_ret in H1 as (D1 & -> & Hr1 & Hs1); [|done..].
  apply bind_ret_inv in H as (c2 & (D2 & -> & H2)%set_mtime_ret & H%callback_ret).
  cbn [w_disk with_disk] in H2. change (with_disk D2 (with_disk D1 c)) with (with_disk D2 c) in H.
  destruct (IH (with_disk D2 c) H Hd Hg Hnd) as (D & -> & HD & HS). exists D. split; [done|]. split.
  - intros p [->|Hp]%elem_of_cons; [|by apply HD]. cbn [snd]. exists data. split; [done|].
    apply (HS (vf_pathname r) data Hg1 Hn). cbn. by rewrite H2.
  - intros n b Hgn Hno Hrd. cbn [map] in Hno. apply not_elem_of_cons in Hno as [Hne Hno].
    apply (HS n b Hgn Hno). cbn. rewrite H2. by apply Hs1.
Qed.

Lemma Version_set rid uuid c : (0 < rid ≤ max_int64)%Z → uuid ≠ [] → Version (set_version rid uuid c) = Ret (rid, uuid).
Proof.
  intros Hr Hu. unfold Version, getVVar. cbn [w_vvar set_version setVVar with_vvar].
  rewrite lookup_insert_ne, lookup_insert_eq by by_decide. cbn [default from_option id].
  assert (ParseInt (fmt_int rid) = Some rid) as HP by (apply ParseInt_fmt_int; unfold int64_range, min_int64; lia).
  rewrite bool_decide_false by (intros Hn; rewrite Hn in HP; done). rewrite HP.
  replace (rid <? 0)%Z with false by lia. rewrite lookup_insert_eq. cbn [default from_option id].
  replace (rid =? 0)%Z with false by lia. by rewrite bool_decide_false.
Qed.

Lemma select_has_row c P r : r ∈ map snd (select c P) ↔ has_row c r ∧ P r = true.
Proof.
  rewrite list_elem_of_fmap. split.
  - intros ([i x] & -> & [Hi HP]%elem_select). split; [by exists i|done].
  - intros [[i Hi] HP]. exists (i, r). split; [done|]. by apply elem_select.
Qed.

(** The rows of a version whose files have names of their own. *)
Lemma select_names_nodup c vid : names_unique c → NoDup (map (λ p, vf_pathname p.2) (select c (λ r, (vf_vid r =? vid)%Z))).
Proof.
  intros Hu. set (l := select _ _). assert (NoDup l) as Hl.
  { unfold l, select. rewrite any_order_perm. apply NoDup_filter, NoDup_map_to_list. }
  assert (∀ p q, p ∈ l → q ∈ l → vf_pathname p.2 = vf_pathname q.2 → p = q) as Hinj.
  { intros [i r] [j s] [Hi Hv]%elem_select [Hj Hw]%elem_select Hn. cbn in *. apply Z.eqb_eq in Hv, Hw.
    assert (i = j) as -> by (eapply Hu; [exact Hi|exact Hj|congruence|done]). congruence. }
  clearbody l. induction l as [|p l IH]; [constructor|]. apply NoDup_cons in Hl as [Hp Hl]. cbn [map]. constructor.
  - intros (q & Hq & Hin)%list_elem_of_fmap. apply Hp. rewrite (Hinj p q); [done|by left|by right|done].
  - apply IH; [done|]. intros x y Hx Hy. apply Hinj; by right.
Qed.

(** The version [rid] and its rows, whatever the disk holds. *)
Record registered (c' : Checkout) (rid : Z) (uuid : bytes) (files : list FileEntry) : Prop := {
  rg_version : Version c' = Ret (rid, uuid);
  rg_rows : ∀ r, has_row c' r ↔ r ∈ map (row_of c' rid) files
}.

(** The version [rid] as it is after its files were written. *)
Record checked_out (c' : Checkout) (rid : Z) (uuid : bytes) (files : list FileEntry) : Prop := {
  co_version : Version c' = Ret (rid, uuid);
  co_rows : ∀ r, has_row c' r ↔ r ∈ map (row_of c' rid) files;
  co_files : ∀ f, f ∈ files → ∃ frid data, rid_of_uuid (d_repo (w_repo c')) (fe_UUID f) = Some frid ∧
    Expand (d_repo (w_repo c')) frid = Ret data ∧ FileContent c' (fe_Name f) = Ret data
}.

Lemma good_name_nonempty n : good_name n → n ≠ [].
Proof.
  intros (cs & Hne & Hcs & ->). destruct cs as [|c cs]; [done|]. apply Forall_cons in Hcs as [(Hc & _) _].
  unfold path_of. destruct cs; [done|]. rewrite Join_cons2. by destruct c.
Qed.

Lemma FileContent_good c n : good_name n → FileContent c n = read_file c (dest c n).
Proof.
  intros Hg. unfold FileContent. rewrite bool_decide_false by by apply good_name_nonempty. by rewrite safePath_good.
Qed.

Lemma extract_rows_dry opts c : eo_DryRun opts = true → ∀ rows c', extract_rows c rows opts None = Ret c' → c' = c.
Proof.
  intros Hdry. induction rows as [|[i r] rows IH]; intros c'; cbn [extract_rows]; [by intros [= <-]|].
  intros (c1 & H1 & H)%bind_ret_inv. unfold extractSingleFile in H1. rewrite Hdry in H1.
  assert (c1 = c) as -> by (repeat (case_match; try done); by injection H1). cbn [set_mtime mbind outcome_bind] in H.
  apply callback_ret in H. by apply IH.
Qed.

(** A dry run: the table and the version, but no file. *)
Lemma Extract_dry c rid opts c' uuid files :
  (0 < rid ≤ max_int64)%Z → uuid_at (w_repo c) rid = Some uuid → uuid ≠ [] →
  (∀ r, has_row c r → vf_vid r ≠ rid) →
  ListFiles (w_repo c) rid = Ret files → NoDup (map fe_Name files) →
  eo_DryRun opts = true → Extract c rid opts = Ret c' →
  registered c' rid uuid files ∧ w_disk c' = w_disk c.
Proof.
  intros Hrid Hu Hun Hno Hl Hnd Hdry H. unfold Extract in H.
  apply bind_ret_inv in H as ([c1 n] & HL & H). apply LoadVFile_ret with (files := files) in HL as [Hc1 Hr1]; [|done..].
  apply bind_ret_inv in H as ([] & _ & H). apply bind_ret_inv in H as (c2 & H2 & H). cbv zeta in H2.
  rewrite Hdry, andb_false_r in H2. apply extract_rows_dry in H2 as ->; [|done].
  assert (w_repo c1 = w_repo c) as Hrepo by by rewrite Hc1.
  unfold finalizeExtract in H. rewrite Hrepo, Hu in H. injection H as <-. split; [split|].
  - by apply Version_set.
  - intros r. change (has_row (set_version rid uuid c1) r) with (has_row c1 r). rewrite Hr1.
    change (map (row_of (set_version rid uuid c1) rid) files) with (map (row_of c1 rid) files).
    unfold row_of. by rewrite Hrepo.
  - rewrite Hc1. done.
Qed.

Lemma Extract_ret c rid opts c' uuid files :
  (0 < rid ≤ max_int64)%Z → uuid_at (w_repo c) rid = Some uuid → uuid ≠ [] → w_dir c ≠ [] → names_unique c →
  (∀ r, has_row c r → vf_vid r ≠ rid) →
  ListFiles (w_repo c) rid = Ret files → NoDup (map fe_Name files) → Forall (λ f, good_name (fe_Name f)) files →
  eo_DryRun opts = false → Extract c rid opts = Ret c' →
  checked_out c' rid uuid files.
Proof.
  intros Hrid Hu Hun Hd Huniq Hno Hl Hnd Hg Hdry H. unfold Extract in H.
  apply bind_ret_inv in H as ([c1 n] & HL & H). pose proof (LoadVFile_confined c rid true) as [_ _ Hu1]%(leaves_left c _ fst c1); [|by rewrite HL].
  apply LoadVFile_ret with (files := files) in HL as [Hc1 Hr1]; [|done..].
  apply bind_ret_inv in H as ([] & _ & H). apply bind_ret_inv in H as (c2 & H2 & H). cbv zeta in H2.
  assert (w_repo c1 = w_repo c) as Hrepo by by rewrite Hc1.
  assert (w_dir c1 = w_dir c) as Hdir by by rewrite Hc1.
  set (rows := select c1 (λ r, (vf_vid r =? rid)%Z)) in H2.
  assert (∀ r, r ∈ map snd rows ↔ r ∈ map (row_of c rid) files) as Hrows.
  { intros r. unfold rows. rewrite select_has_row, Hr1. split; [tauto|]. intros Hr. split; [done|].
    apply list_elem_of_fmap in Hr as (f & -> & _). cbn. apply Z.eqb_refl. }
  apply extract_rows_ret in H2 as (D & -> & HD & _); [| done|congruence| |by apply select_names_nodup, Hu1].
  2:{ apply Forall_forall. intros p Hp. assert (p.2 ∈ map (row_of c rid) files) as Hin by (apply Hrows; by apply list_elem_of_fmap_2).
      apply list_elem_of_fmap in Hin as (f & -> & Hf). by apply (proj1 (list.Forall_forall _ _) Hg). }
  unfold finalizeExtract in H. cbn [w_repo with_disk] in H. rewrite Hrepo, Hu in H. injection H as <-. split.
  - by apply Version_set.
  - intros r. change (has_row (set_version rid uuid (with_disk D c1)) r) with (has_row c1 r). rewrite Hr1.
    change (map (row_of (set_version rid uuid (with_disk D c1)) rid) files) with (map (row_of c1 rid) files).
    unfold row_of. by rewrite Hrepo.
  - intros f Hf. cbn [w_repo set_version setVVar with_vvar with_disk]. rewrite Hrepo.
    assert (row_of c rid f ∈ map snd rows) as Hin by by apply Hrows, list_elem_of_fmap_2.
    apply list_elem_of_fmap in Hin as ([i r] & Hr & Hin). destruct (HD _ Hin) as (data & Hx & Hrd). cbn [snd] in *. subst r.
    rewrite Hrepo in Hx. cbn [row_of entry_row vf_rid vf_pathname] in Hx, Hrd.
    destruct (rid_of_uuid (d_repo (w_repo c)) (fe_UUID f)) as [frid|]; [|done]. exists frid, data. split; [done|]. split; [done|].
    rewrite FileContent_good by by apply (proj1 (list.Forall_forall _ _) Hg).
    unfold read_file. cbn [w_disk set_version setVVar with_vvar with_disk]. change (dest _ (fe_Name f)) with (dest c1 (fe_Name f)).
    by rewrite Hrd.
Qed.

(** ** Scanning *)

Definition with_chnged (v : Z) (r : vfileRow) : vfileRow :=
  MkVfile (vf_vid r) v (vf_deleted r) (vf_isexe r) (vf_islink r) (vf_rid r) (vf_mrid r)
    (vf_pathname r) (vf_origname r) (vf_mhash r).

Lemma with_chnged_same r : with_chnged (vf_chnged r) r = r.
Proof. by destruct r. Qed.

(** The hash of a content, as long as the given one. *)
Definition hash_like (data mhash : bytes) : bytes := if 40 <? length mhash then sha3_hex data else sha1_hex data.

(** What a scan makes of the row of a file. *)
Inductive rescan (c : Checkout) (r : vfileRow) : Z → Prop :=
  | rescan_deleted : vf_deleted r ≠ 0%Z → rescan c r (vf_chnged r)
  | rescan_missing p : vf_deleted r = 0%Z → safePath c (vf_pathname r) = Ret p →
      ReadFile (w_disk c) p = Fail NotExist → rescan c r (vf_chnged r)
  | rescan_same data h : vf_deleted r = 0%Z → FileContent c (vf_pathname r) = Ret data →
      vf_mhash r = Some h → hash_like data h = h → rescan c r 0
  | rescan_changed data h : vf_deleted r = 0%Z → FileContent c (vf_pathname r) = Ret data →
      vf_mhash r = Some h → hash_like data h ≠ h → rescan c r (if (vf_chnged r =? 0)%Z then 1 else vf_chnged r).

Lemma scanSingleEntry_ret c id r mhash c' b b' :
  scanSingleEntry c id (vf_pathname r) mhash (vf_chnged r) (vf_deleted r) ScanHash = Ret (c', b, b') →
  vf_mhash r = Some mhash → w_vfile c !! id = Some r →
  ∃ v, rescan c r v ∧ c' = with_vfile (λ _, <[id := with_chnged v r]> (w_vfile c)) c.
Proof.
  intros H Hm Hi. unfold scanSingleEntry in H.
  assert (c = with_vfile (λ _, <[id := with_chnged (vf_chnged r) r]> (w_vfile c)) c) as Hsame.
  { rewrite with_chnged_same, insert_id by done. by destruct c. }
  assert (∀ v, set_chnged v id c = with_vfile (λ _, <[id := with_chnged v r]> (w_vfile c)) c) as Hset.
  { intros v. unfold set_chnged, with_vfile. f_equal. by apply alter_insert_eq' || (apply map_eq; intros j;
      destruct (decide (j = id)) as [->|Hj];
      [by rewrite lookup_alter_eq, lookup_insert_eq, Hi|by rewrite lookup_alter_ne, lookup_insert_ne]). }
  destruct (Z.eqb_spec (vf_deleted r) 0) as [Hd|Hd]; cbn [negb] in H.
  2:{ injection H as <- _ _. exists (vf_chnged r). split; [by apply rescan_deleted|done]. }
  apply bind_ret_inv in H as (p & Hp%reading_ret & H).
  destruct (ReadFile (w_disk c) p) as [data|[]| |] eqn:ER; try done.
  2:{ injection H as <- _ _. exists (vf_chnged r). split; [by eapply rescan_missing|done]. }
  change (negb (Z.testbit ScanHash 0)) with false in H. cbv iota in H.
  assert (FileContent c (vf_pathname r) = Ret data) as Hc.
  { unfold FileContent. case_bool_decide as Hn.
    - unfold safePath, CheckFilename in Hp. rewrite bool_decide_true in Hp; done.
    - rewrite Hp. cbn. unfold read_file. by rewrite ER. }
  apply bind_ret_inv in H as (dh & Hh & H).
  assert (dh = hash_like data mhash) as ->.
  { unfold ContentHash in Hh. unfold hash_like. destruct (length mhash =? 0); [done|]. destruct (40 <? length mhash); by injection Hh. }
  case_bool_decide as Hne.
  - exists (if (vf_chnged r =? 0)%Z then 1 else vf_chnged r)%Z. split; [by eapply rescan_changed|].
    destruct (vf_chnged r =? 0)%Z; injection H as <- _ _; [apply Hset|done].
  - exists 0%Z. assert (hash_like data mhash = mhash) as He by by destruct (decide (hash_like data mhash = mhash)).
    split; [by eapply rescan_same|]. destruct (Z.eqb_spec (vf_chnged r) 0) as [Hz|Hz]; cbn [negb] in H; injection H as <- _ _; [|apply Hset].
    by rewrite Hz in Hsame.
Qed.

Lemma rescan_ext c c' r v : w_dir c' = w_dir c → w_disk c' = w_disk c → rescan c r v → rescan c' r v.
Proof.
  intros Hd HD H. assert (∀ n, safePath c' n = safePath c n) as Hs by (intros n; by apply safePath_dir).
  assert (∀ n, FileContent c' n = FileContent c n) as Hf.
  { intros n. unfold FileContent, read_file. by rewrite Hs, HD. }
  destruct H as [H|p H1 H2 H3|data h H1 H2 H3 H4|data h H1 H2 H3 H4].
  - by apply rescan_deleted.
  - eapply rescan_missing; [done|by rewrite Hs|by rewrite HD].
  - eapply rescan_same; [done|by rewrite Hf|done..].
  - eapply rescan_changed; [done|by rewrite Hf|done..].
Qed.

Lemma scan_entries_ret entries c c' :
  scan_entries c entries ScanHash = Ret c' → NoDup (map (λ e, e.1.1) entries) →
  Forall (λ e, w_vfile c !! e.1.1 = Some e.1.2 ∧ vf_mhash e.1.2 = Some e.2) entries →
  c' = with_vfile (λ _, w_vfile c') c ∧
  (∀ i, i ∉ map (λ e, e.1.1) entries → w_vfile c' !! i = w_vfile c !! i) ∧
  ∀ e, e ∈ entries → ∃ v, rescan c e.1.2 v ∧ w_vfile c' !! e.1.1 = Some (with_chnged v e.1.2).
Proof.
  revert c. induction entries as [|[[id r] mhash] entries IH]; intros c; cbn [scan_entries].
  { intros [= <-] _ _. split; [by destruct c|]. split; [done|]. intros e He. by apply not_elem_of_nil in He. }
  intros H Hnd Hall. cbn [map fst] in Hnd. apply NoDup_cons in Hnd as [Hid Hnd].
  apply Forall_cons in Hall as [[Hi Hm] Hall]. cbn [fst snd] in Hi, Hm.
  apply bind_ret_inv in H as ([[c1 b] b'] & H1 & H).
  destruct (scanSingleEntry_ret c id r mhash c1 b b' H1 Hm Hi) as (v & Hv & Hc1).
  destruct (IH c1 H Hnd) as (Hc' & Hout & Hin).
  { rewrite Hc1. apply Forall_forall. intros e He. pose proof (proj1 (list.Forall_forall _ _) Hall e He) as [H2 H3]. split; [|done].
    cbn [w_vfile with_vfile]. rewrite lookup_insert_ne; [done|]. intros Heq. apply Hid. rewrite Heq. by apply (list_elem_of_fmap_2 (λ e : Z * vfileRow * bytes, e.1.1)). }
  split; [|split].
  - rewrite Hc', Hc1. done.
  - intros i Hi'. cbn [map fst] in Hi'. apply not_elem_of_cons in Hi' as [Hne Hi']. rewrite Hout by done. rewrite Hc1. cbn. by rewrite lookup_insert_ne.
  - intros e [->|He]%elem_of_cons.
    + exists v. split; [done|]. cbn [fst snd]. rewrite Hout by done. rewrite Hc1. cbn. apply lookup_insert_eq.
    + destruct (Hin e He) as (w & Hw & Hx). exists w. split; [|done]. eapply rescan_ext; [| |exact Hw]; by rewrite Hc1.
Qed.

Lemma scan_rows_ret l es : scan_rows l = Ret es → map fst es = l ∧ Forall (λ e, vf_mhash e.1.2 = Some e.2) es.
Proof.
  revert es. induction l as [|[id r] l IH]; intros es; cbn [scan_rows]; [by intros [= <-]|].
  destruct (vf_mhash r) as [m|] eqn:E; [|done]. intros (rest & [H1 H2]%IH & [= <-])%bind_ret_inv.
  split; [cbn; by rewrite H1|by constructor].
Qed.

(** What a scan does to the table. *)
Record scanned (c c' : Checkout) (rid : Z) : Prop := {
  sc_only : c' = with_vfile (λ _, w_vfile c') c;
  sc_others : ∀ i, (∀ r, w_vfile c !! i = Some r → vf_vid r ≠ rid) → w_vfile c' !! i = w_vfile c !! i;
  sc_rows : ∀ i r, w_vfile c !! i = Some r → vf_vid r = rid →
    ∃ v, rescan c r v ∧ w_vfile c' !! i = Some (with_chnged v r)
}.

Lemma ScanChanges_ret c c' rid uuid : Version c = Ret (rid, uuid) → ScanChanges c ScanHash = Ret c' → scanned c c' rid.
Proof.
  intros Hv H. unfold ScanChanges in H. rewrite Hv in H. cbn [reading wrap_err mbind outcome_bind] in H.
  apply bind_ret_inv in H as (es & [Hes Hm]%reading_ret%scan_rows_ret & H).
  assert (∀ i r, (i, r) ∈ map fst es ↔ w_vfile c !! i = Some r ∧ vf_vid r = rid) as Hin.
  { intros i r. rewrite Hes, elem_select. cbn. by rewrite Z.eqb_eq. }
  apply scan_entries_ret in H as (H1 & H2 & H3).
  - split; [done| |].
    + intros i Hi. apply H2. intros ([[j r] h] & -> & He)%list_elem_of_fmap. cbn [fst] in *.
      apply (list_elem_of_fmap_2 fst) in He. apply Hin in He as [He Hvid]. by apply (Hi r).
    + intros i r Hi Hvid. assert ((i, r) ∈ map fst es) as He by by apply Hin.
      apply list_elem_of_fmap in He as ([[j s] h] & Heq & He). cbn in Heq. injection Heq as <- <-.
      destruct (H3 _ He) as (v & Hv1 & Hv2). by exists v.
  - assert (map (λ e : Z * vfileRow * bytes, e.1.1) es = map fst (map fst es)) as -> by by rewrite map_map. rewrite Hes. unfold select. rewrite any_order_perm.
    apply NoDup_fmap_2_strong; [|apply NoDup_filter, NoDup_map_to_list].
    intros [i r] [j s] [_ Hi%elem_of_map_to_list]%list_elem_of_filter [_ Hj%elem_of_map_to_list]%list_elem_of_filter Heq.
    cbn in Heq. subst j. congruence.
  - apply Forall_forall. intros [[i r] h] He. pose proof (proj1 (list.Forall_forall _ _) Hm _ He) as Hh. split; [|done].
    cbn. apply (list_elem_of_fmap_2 fst) in He. by apply Hin in He as [? _].
Qed.

(** An artifact whose content has the hash that is its uuid. *)
Definition verified (q : repo) (uuid : bytes) : Prop :=
  uuid ≠ [] ∧ ∀ frid data, rid_of_uuid q uuid = Some frid → Expand q frid = Ret data → hash_like data uuid = uuid.

Lemma ContentHash_like {E} data h : h ≠ [] → ContentHash (E := E) (Some data) h = Ret (hash_like data h).
Proof. intros Hh. unfold ContentHash, hash_like. destruct h as [|x h]; [done|]. cbn [length Nat.eqb]. by destruct (40 <? _). Qed.

Lemma scan_entries_clean entries c :
  Forall (λ e, vf_chnged e.1.2 = 0%Z ∧ vf_deleted e.1.2 = 0%Z ∧ e.2 ≠ [] ∧
    ∃ p data, safePath c (vf_pathname e.1.2) = Ret p ∧ ReadFile (w_disk c) p = Ret data ∧ hash_like data e.2 = e.2) entries →
  scan_entries c entries ScanHash = Ret c.
Proof.
  induction 1 as [|[[id r] h] entries (H1 & H2 & H3 & p & data & H4 & H5 & H6) _ IH]; [done|]. cbn [fst snd] in *.
  cbn [scan_entries]. unfold scanSingleEntry. rewrite H2, H4. cbn [negb Z.eqb reading wrap_err mbind outcome_bind]. rewrite H5.
  change (negb (Z.testbit ScanHash 0)) with false. cbv iota. rewrite ContentHash_like, H6 by done. cbn [mbind outcome_bind].
  rewrite bool_decide_false by by intros []. by rewrite H1.
Qed.

Lemma scan_rows_some l : Forall (λ p, is_Some (vf_mhash p.2)) l → ∃ es, scan_rows l = Ret es.
Proof.
  induction 1 as [|[i r] l [h Hh] _ [es IH]]; [by exists []|]. cbn [scan_rows]. cbn in Hh. rewrite Hh, IH. by eexists.
Qed.

Lemma checked_out_clean c rid uuid files :
  checked_out c rid uuid files → Forall (λ f, good_name (fe_Name f)) files →
  (∀ f, f ∈ files → verified (d_repo (w_repo c)) (fe_UUID f)) →
  ScanChanges c ScanHash = Ret c ∧ HasChanges c = Ret false.
Proof.
  intros [Hv Hr Hf] Hg Hver.
  assert (∀ r, has_row c r → ∃ f, f ∈ files ∧ r = row_of c rid f) as Hrow.
  { intros r (f & -> & Hin)%Hr%list_elem_of_fmap. by exists f. }
  unfold ScanChanges, HasChanges. rewrite Hv. cbn [reading wrap_err mbind outcome_bind]. split.
  - set (rows := select c _).
    assert (∀ p, p ∈ rows → ∃ f, f ∈ files ∧ p.2 = row_of c rid f) as Hp.
    { intros [i r] [Hi _]%elem_select. apply Hrow. by exists i. }
    destruct (scan_rows_some rows) as [es Hes].
    { apply Forall_forall. intros p Hin. destruct (Hp p Hin) as (f & _ & ->). by eexists. }
    rewrite Hes. cbn [reading wrap_err mbind outcome_bind]. apply scan_rows_ret in Hes as [Hm Hh].
    apply scan_entries_clean, Forall_forall. intros [[i r] h] He.
    pose proof (proj1 (list.Forall_forall _ _) Hh _ He) as Hmh. cbn [fst snd] in *.
    apply (list_elem_of_fmap_2 fst) in He. change (list_fmap _ _ fst es) with (map fst es) in He. cbn [fst] in He.
    destruct (Hp (i, r)) as (f & Hin & Heq); [by rewrite <- Hm|]. cbn [snd] in Heq. subst r.
    injection Hmh as <-. destruct (Hver f Hin) as [Hne Hhash]. split_and!; [done..|].
    destruct (Hf f Hin) as (frid & data & H1 & H2 & H3). pose proof (proj1 (list.Forall_forall _ _) Hg _ Hin) as Hgf.
    exists (dest c (fe_Name f)), data. split_and!; [by apply safePath_good| |by eapply Hhash].
    rewrite FileContent_good in H3 by done. unfold read_file in H3. by apply wrap_err_ret in H3.
  - assert (select c (λ r, is_changed r && (vf_vid r =? rid)%Z) = []) as ->; [|done].
    destruct (select c _) as [|[i r] l] eqn:E; [done|]. exfalso. assert ((i, r) ∈ select c (λ r, is_changed r && (vf_vid r =? rid)%Z)) as Hin by (rewrite E; by left).
    apply elem_select in Hin as [Hi Hc]. destruct (Hrow r) as (f & _ & ->); [by exists i|]. done.
Qed.

(** C20. Extracting a check-in of the repository that has no rows in [vfile]
    yet, with distinct and clean file names, into a checkout whose directory has
    a name and whose table has at most one row for a version and a name: when
    [Extract] returns, the version is that check-in and [vfile] has a row for
    each of its files and no other. If it was no dry run, each file on disk has
    the content of the artifact that the manifest names; and if these artifacts
    have the hashes they are named by, a scan then finds nothing changed. A dry
    run leaves the disk as it was, although it changes the table and the version
    (see the findings). *)
Theorem Extract_checks_out c rid opts c' uuid files :
  (0 < rid ≤ max_int64)%Z → uuid_at (w_repo c) rid = Some uuid → uuid ≠ [] → w_dir c ≠ [] → names_unique c →
  (∀ r, has_row c r → vf_vid r ≠ rid) →
  ListFiles (w_repo c) rid = Ret files → NoDup (map fe_Name files) → Forall (λ f, good_name (fe_Name f)) files →
  Extract c rid opts = Ret c' →
  registered c' rid uuid files ∧
  if eo_DryRun opts then w_disk c' = w_disk c else
    checked_out c' rid uuid files ∧
    ((∀ f, f ∈ files → verified (d_repo (w_repo c')) (fe_UUID f)) →
     ScanChanges c' ScanHash = Ret c' ∧ HasChanges c' = Ret false).
Proof.
  intros H1 H2 H3 H4 H5 H6 H7 H8 H9 H11. destruct (eo_DryRun opts) eqn:H10; [by eapply Extract_dry|].
  assert (checked_out c' rid uuid files) as Hc by by eapply Extract_ret.
  split; [destruct Hc; by split|]. split; [done|]. intros Hver. by eapply checked_out_clean.
Qed.

(** C21. A scan with [ScanHash] sets the flag of each file of the version: it is
    0 afterwards if the file on disk has the hash of the row, not 0 if it has
    another, and as it was if the file is missing or was removed. Rows of other
    versions and everything else stay, and [HasChanges] tells afterwards whether
    a row of the version is changed or removed. *)
Theorem ScanChanges_marks c c' rid uuid :
  Version c = Ret (rid, uuid) → ScanChanges c ScanHash = Ret c' →
  scanned c c' rid ∧ ∃ b, HasChanges c' = Ret b ∧
    (b = true ↔ ∃ r, has_row c' r ∧ vf_vid r = rid ∧ (0 < vf_chnged r ∨ 0 < vf_deleted r)%Z).
Proof.
  intros Hv Hs. apply (ScanChanges_ret c c' rid uuid Hv) in Hs. split; [done|]. unfold HasChanges.
  assert (Version c' = Version c) as -> by (rewrite (sc_only _ _ _ Hs); done). rewrite Hv. cbn [mbind outcome_bind].
  eexists. split; [reflexivity|].
  assert (∀ r, r ∈ map snd (select c' (λ r, is_changed r && (vf_vid r =? rid)%Z)) ↔ has_row c' r ∧ vf_vid r = rid ∧ (0 < vf_chnged r ∨ 0 < vf_deleted r)%Z) as Hin.
  { intros r. rewrite select_has_row, andb_true_iff, Z.eqb_eq. unfold is_changed. rewrite orb_true_iff, !Z.ltb_lt. tauto. }
  unfold zlen. destruct (select c' _) as [|p l].
  - split; [done|]. intros (r & Hr). apply Hin in Hr. by apply not_elem_of_nil in Hr.
  - split; [|intros _; apply Z.ltb_lt; cbn [length]; lia]. intros _. exists p.2. apply Hin. by left.
Qed.

(** ** Adding, removing and renaming *)

Lemma find_inserted c r : find_file c (vf_vid r) (vf_pathname r) = None →
  find_file (insert_vfile r c) (vf_vid r) (vf_pathname r) = Some (next_rowid (map fst (map_to_list (w_vfile c))), r).
Proof.
  intros Hn. destruct (find_file (insert_vfile r c) (vf_vid r) (vf_pathname r)) as [[i x]|] eqn:E.
  - apply find_file_Some in E as (Hi & Hv & Hx). cbn in Hi. apply lookup_insert_Some in Hi as [[<- <-]|[_ Hi]]; [done|].
    rewrite find_file_None in Hn. by destruct (Hn i x Hi Hv).
  - rewrite find_file_None in E. exfalso. eapply (E _ r); [apply lookup_insert_eq|done|done].
Qed.

(** C23. Adding a file that is not tracked and removing it again leaves the
    checkout as it was; in between, it is one more file, reported as added. *)
Theorem Manage_Unmanage c vid uuid path cb c1 counts :
  Version c = Ret (vid, uuid) → find_file c vid path = None →
  Manage c [path] cb = Ret (c1, counts) →
  counts = MkCounts 1 0 0 ∧
  (∃ id h, find_file c1 vid path = Some (id, added_row vid path h) ∧
     change_entry (id, added_row vid path h) ∈ map change_entry (changed_rows c1 vid)) ∧
  ∀ cb', cb' path = true → Unmanage c1 [path] [] cb' = Ret c.
Proof.
  intros Hv Hf H. unfold Manage in H. rewrite Hv in H. cbn [reading wrap_err mbind outcome_bind manage_paths] in H.
  rewrite Hf in H. do 3 (apply bind_ret_inv in H as (? & _ & H)). cbv zeta in H. apply callback_ret in H. injection H as <- <-.
  pose proof (find_inserted c (added_row vid path x1) Hf) as Hin. cbn [vf_vid vf_pathname added_row] in Hin.
  split; [done|]. split.
  - eexists _, x1. split; [exact Hin|]. apply list_elem_of_fmap_2. unfold changed_rows. apply elem_select.
    apply find_file_Some in Hin as (Hi & _ & _). split; [exact Hi|]. cbn. by rewrite Z.eqb_refl.
  - intros cb' Hcb. unfold Unmanage. change (Version (insert_vfile _ c)) with (Version c). rewrite Hv.
    cbn [reading wrap_err mbind outcome_bind unmanage_paths]. rewrite Hin. unfold unmanageFile, callback. rewrite Hcb. cbn.
    do 2 f_equal. pose proof (insert_vfile_fresh c) as Hfresh. destruct c as [V M W D R Q B].
    unfold with_vfile, insert_vfile. cbn in *. f_equal. by apply delete_insert_id.
Qed.

(** A file that is moved. *)
Lemma moveFile_ret c from to perm c' : w_dir c ≠ [] → good_name from → good_name to → from ≠ to →
  moveFile c (dest c from) (dest c to) perm = Ret c' →
  ∃ data D, ReadFile (w_disk c) (dest c from) = Ret data ∧ c' = with_disk D c ∧
    ReadFile D (dest c to) = Ret data ∧ ReadFile D (dest c from) = Fail NotExist ∧
    files_stay c D (λ n, n ≠ from ∧ n ≠ to).
Proof.
  intros Hd Hf Ht Hne H. unfold moveFile in H. apply bind_ret_inv in H as (data & Hr%reading_ret & H).
  unfold read_file in Hr. apply wrap_err_ret in Hr.
  apply bind_ret_inv in H as (c1 & (D1 & H1 & ->)%writing_ret & H).
  apply bind_ret_inv in H as (c2 & (D2 & H2 & ->)%writing_ret & H). cbn [w_disk with_disk] in *.
  assert (∃ D, c' = with_disk D c ∧ left_disk (Remove D2 (dest c from)) = Some D ∧ ReadFile D (dest c from) = Fail NotExist) as (D & -> & HD & Hn).
  { destruct (Remove D2 (dest c from)) as [D|[D []]| |] eqn:E; cbn in H; try done; injection H as <-; exists D; (split; [done|]); (split; [done|]).
    - by eapply read_removed.
    - by eapply remove_absent. }
  exists data, D. destruct (dest_clean c from to) as [Hc1 Hc2]; [done..|].
  assert (∀ n b, good_name n → n ≠ from → ReadFile D2 (dest c n) = Ret b → ReadFile D (dest c n) = Ret b) as Hrm.
  { intros n b Hg Hnf Hb. destruct (dest_clean c from n) as [Hc3 Hc4]; [done..|congruence|].
    by rewrite (remove_other D2 (dest c from) D (dest c n)). }
  split; [done|]. split; [done|]. split; [|split; [done|]].
  - apply Hrm; [done|congruence|]. by eapply read_written.
  - intros n b Hg [Hn1 Hn2] Hb. apply Hrm; [done..|]. destruct (dest_clean c to n) as [Hc3 Hc4]; [done..|congruence|].
    rewrite (write_other D1 (dest c to) data perm D2 (dest c n)); [|done..|by rewrite H2].
    eapply mkdir_keeps; [by rewrite H1|done].
Qed.

Lemma move_on_disk_ret c id from to c' : w_dir c ≠ [] → good_name from → good_name to → from ≠ to →
  move_on_disk c id from to = Ret c' →
  ∃ data D, ReadFile (w_disk c) (dest c from) = Ret data ∧ c' = with_disk D c ∧
    ReadFile D (dest c to) = Ret data ∧ ReadFile D (dest c from) = Fail NotExist ∧
    files_stay c D (λ n, n ≠ from ∧ n ≠ to).
Proof.
  intros Hd Hf Ht Hne H. unfold move_on_disk in H. apply bind_ret_inv in H as (perm & _ & H).
  rewrite !safePath_good in H by done. cbn [reading wrap_err mbind outcome_bind] in H. by eapply moveFile_ret.
Qed.

Lemma read_good c n data : good_name n → ReadFile (w_disk c) (dest c n) = Ret data → FileContent c n = Ret data.
Proof. intros Hg Hr. rewrite FileContent_good by done. unfold read_file. by rewrite Hr. Qed.

(** The row of a file without a recorded change or renaming. *)
Definition not_renamed (r : vfileRow) : vfileRow :=
  MkVfile (vf_vid r) 0 (vf_deleted r) (vf_isexe r) (vf_islink r) (vf_rid r) (vf_mrid r) (vf_pathname r) None (vf_mhash r).

(** C22. Renaming a file of the version, also on disk, and reverting that. The
    names are clean and differ, the version has at most one row for a name, and
    the directory has a name. When [Rename] returns, the content is under the
    new name and gone under the old one. When [RevertRename] returns after that,
    the file is back under the old name with its content, no other file has
    changed, and the table is as before but for the flag and the old name of the
    row, which are reset: for a file that was unchanged and had not been
    renamed, it is as before. (For an edited file the flag is lost until the
    next scan, and for a file that had been renamed before, the name it had
    first.) *)
Theorem Rename_RevertRename c vid uuid from to cb c1 id r :
  Version c = Ret (vid, uuid) → names_unique c → w_dir c ≠ [] → good_name from → good_name to → from ≠ to →
  find_file c vid from = Some (id, r) →
  Rename c from to true cb = Ret c1 →
  ∃ data, FileContent c from = Ret data ∧ FileContent c1 to = Ret data ∧
    FileContent c1 from = Fail (EIO NotExist) ∧
    ∀ c2 b, RevertRename c1 to true = Ret (c2, b) →
      b = true ∧ w_vfile c2 = <[id := not_renamed r]> (w_vfile c) ∧
      (vf_chnged r = 0%Z → vf_origname r = None → w_vfile c2 = w_vfile c) ∧
      FileContent c2 from = Ret data ∧ files_stay c (w_disk c2) (λ n, n ≠ from ∧ n ≠ to).
Proof.
  intros Hv Hu Hd Hgf Hgt Hne Hf H. unfold Rename in H.
  rewrite bool_decide_false in H by by apply good_name_nonempty. rewrite bool_decide_false in H by by apply good_name_nonempty.
  rewrite Hv in H. cbn [reading wrap_err mbind outcome_bind] in H. rewrite Hf in H.
  destruct (find_file c vid to) eqn:Et; [done|]. cbv zeta in H. apply bind_ret_inv in H as (c0 & Hm & H%callback_ret). injection H as <-.
  set (ca := set_names to (Some from) 1 id c) in Hm. change (w_dir c) with (w_dir ca) in Hd.
  apply move_on_disk_ret in Hm as (data & D & H1 & -> & H2 & H3 & H4); [|done..].
  pose proof (find_file_Some _ _ _ _ _ Hf) as (Hi & Hvid & Hp). rewrite find_file_None in Et.
  set (r1 := MkVfile (vf_vid r) 1 (vf_deleted r) (vf_isexe r) (vf_islink r) (vf_rid r) (vf_mrid r) to (Some from) (vf_mhash r)).
  assert (w_vfile ca !! id = Some r1) as Hi1 by (unfold ca, set_names; cbn; by rewrite lookup_alter_eq, Hi).
  assert (names_unique ca) as Hua.
  { apply (cf_unique c ca); [|done]. apply (set_names_confined _ _ _ _ _ vid); [intros x Hx; congruence|]. intros i x _. apply Et. }
  exists data. split; [by apply read_good|]. split; [by apply read_good|].
  split. { rewrite FileContent_good by done. unfold read_file. cbn [w_disk with_disk]. change (dest (with_disk D ca) from) with (dest ca from). by rewrite H3. }
  intros c2 b H. unfold RevertRename in H. rewrite bool_decide_false in H by by apply good_name_nonempty.
  change (Version (with_disk D ca)) with (Version c) in H. rewrite Hv in H. cbn [reading wrap_err mbind outcome_bind] in H.
  assert (find_file (with_disk D ca) vid to = Some (id, r1)) as Hft by by apply (find_file_iff ca).
  assert (find_file (with_disk D ca) vid from = None) as Hff.
  { apply (find_file_None ca). intros i x Hx Hxv Hxn. unfold ca, set_names in Hx. cbn in Hx.
    apply lookup_alter_Some in Hx as [(<- & y & Hy & ->)|[Hx1 Hx]]; [by cbn in Hxn|]. apply Hx1.
    symmetry. eapply Hu; [exact Hx|exact Hi|congruence..]. }
  rewrite Hft in H. change (vf_origname r1) with (Some from) in H. change (default [] (Some from)) with from in H. cbv zeta in H.
  rewrite bool_decide_false in H by by apply good_name_nonempty.
  rewrite Hff in H. apply bind_ret_inv in H as (c3 & Hm & [= <- <-]).
  set (cb0 := set_names from None 0 id (with_disk D ca)) in Hm. change (w_dir ca) with (w_dir cb0) in Hd.
  apply move_on_disk_ret in Hm as (data' & D' & H1' & -> & H2' & H3' & H4'); [|done..].
  assert (data' = data) as -> by (cbn in H1'; change (dest cb0 to) with (dest ca to) in H1'; congruence).
  assert (w_vfile (with_disk D' cb0) = <[id := not_renamed r]> (w_vfile c)) as Htab.
  { cbn. unfold ca, set_names. cbn. apply map_eq. intros j. destruct (decide (j = id)) as [->|Hj].
    + rewrite !lookup_alter_eq, Hi, lookup_insert_eq. cbn. unfold not_renamed. by rewrite Hp.
    + by rewrite !lookup_alter_ne, lookup_insert_ne. }
  split; [done|]. split; [exact Htab|]. split; [|split].
  - intros Hc0 Ho. rewrite Htab. apply insert_id. rewrite Hi. f_equal. unfold not_renamed. rewrite <- Hc0, <- Ho. by destruct r.
  - by apply (read_good (with_disk D' cb0)).
  - intros n b Hg [Hn1 Hn2] Hb. apply (H4' n b Hg (conj Hn2 Hn1)). cbn. by apply (H4 n b).
Qed.

(** ** Any sequence of operations *)

(** C19. Whatever operations run on a checkout, in any order and whether they
    succeed or fail: its directory stays, and a version has at most one row for
    a name if it was so before. If the directory is given by an absolute path
    other than the root, on a storage without links (the laws of [StorageLaws]),
    no file outside the directory is read differently afterwards: no name in the
    database or in the repository, with [..] or absolute, leads out of it. *)
Theorem checkout_confined c c' : rtc operation c c' →
  w_dir c' = w_dir c ∧ (names_unique c → names_unique c') ∧
  (IsAbs (w_dir c) = true → Clean (w_dir c) ≠ [SLASH] →
   ∀ q, outside (w_dir c) q → ReadFile (w_disk c') q = ReadFile (w_disk c) q).
Proof.
  intros H. assert (confined c c') as [Hd Ho Hu]; [|done].
  induction H as [c|c c1 c' Hop _ IH]; [reflexivity|]. etrans; [by apply operation_confined|exact IH].
Qed.

End effect.

(** ** A checkout of a repository with one check-in *)

#[local] Existing Instance stored.
#[local] Existing Instance stored_laws.
#[local] Existing Instance test_sha3.
#[local] Existing Instance test_sqlite.
#[local] Existing Instance test_order.
#[local] Existing Instance test_order_laws.
#[local] Existing Instance mem_storage.
#[local] Existing Instance mem_storage_laws.
#[local] Instance some_dates : DateColumn := { scan_date := ScannedFloat }.

(** The directory [/w], next to a file of the system. *)
Definition system_disk : MemStorage :=
  match Mem_WriteFile NewMemStorage (str "/etc/passwd") (str "root") 420 with Ret m => m | _ => NewMemStorage end.
Definition empty_checkout : Checkout := MkCheckout mem_storage ∅ [] ∅ system_disk (str "/w") None first_db.

Definition force : ExtractOpts := MkExtractOpts (λ _ _, true) true false true.
Definition get {A} (c : A) (m : outcome (Checkout * ck_error) A) : A := match m with Ret c' => c' | _ => c end.
Definition extracted : Checkout := get empty_checkout (Extract empty_checkout 3 force).

Definition write (path text : bytes) (c : Checkout) : Checkout :=
  match WriteFile (w_disk c) path text 420 with Ret D => with_disk D c | _ => c end.
Definition edited : Checkout := write (str "/w/README") (str "edited") extracted.
Definition grown : Checkout := write (str "/w/notes") (str "new") extracted.
Definition renamed : Checkout := get extracted (Rename extracted (str "README") (str "doc/README") true (λ _ _, true)).
Definition scanned_again : Checkout := get edited (ScanChanges edited ScanHash).
Definition result {E A} (dflt : A) (m : outcome E A) : A := match m with Ret x => x | _ => dflt end.
Definition first_files : list FileEntry := result [] (ListFiles first_db 3).

Lemma get_ret {A} (c : A) (m : outcome (Checkout * ck_error) A) : returns m = true → m = Ret (get c m).
Proof. by destruct m. Qed.

Lemma extracted_ret : Extract empty_checkout 3 force = Ret extracted.
Proof. apply get_ret. vm_compute. reflexivity. Qed.
Lemma renamed_ret : Rename extracted (str "README") (str "doc/README") true (λ _ _, true) = Ret renamed.
Proof. apply get_ret. vm_compute. reflexivity. Qed.
Lemma scanned_ret : ScanChanges edited ScanHash = Ret scanned_again.
Proof. apply get_ret. vm_compute. reflexivity. Qed.
Lemma files_ret : ListFiles first_db 3 = Ret first_files.
Proof. vm_compute. reflexivity. Qed.
Lemma extracted_version : Version extracted = Ret (3%Z, first_uuid).
Proof. vm_compute. reflexivity. Qed.
Lemma edited_version : Version edited = Ret (3%Z, first_uuid).
Proof. vm_compute. reflexivity. Qed.
Lemma grown_version : Version grown = Ret (3%Z, first_uuid).
Proof. vm_compute. reflexivity. Qed.
Lemma first_uuid_at : uuid_at first_db 3 = Some first_uuid.
Proof. vm_compute. reflexivity. Qed.

Lemma empty_unique : names_unique empty_checkout.
Proof. intros i j r r' Hi. done. Qed.
Lemma extracted_unique : names_unique extracted.
Proof.
  eapply (cf_unique empty_checkout); [|exact empty_unique]. eapply operation_confined, (Op_Extract _ _ 3%Z force).
  by rewrite extracted_ret.
Qed.

Lemma good_parts cs : cs ≠ [] → bool_decide (Forall (λ c, c ≠ [] ∧ c ≠ DOT ∧ c ≠ DOTDOT ∧ SLASH ∉ c) cs) = true →
  good_name (path_of false cs).
Proof. intros Hne H. exists cs. split; [done|]. split; [|done]. by apply bool_decide_eq_true in H. Qed.

Lemma first_good : Forall (λ f, good_name (fe_Name f)) first_files.
Proof.
  assert (map fe_Name first_files = [path_of false [str "README"]; path_of false [str "src"; str "main.go"]]) as H by (vm_compute; reflexivity).
  apply (List.Forall_map fe_Name). rewrite H. repeat constructor; apply good_parts; done.
Qed.

Lemma verified_check q uuid : uuid ≠ [] →
  match rid_of_uuid q uuid with
  | Some frid => match Expand q frid with Ret data => bool_decide (hash_like data uuid = uuid) | _ => true end
  | None => true
  end = true → verified q uuid.
Proof.
  intros Hne H. split; [done|]. intros frid data Hr He. rewrite Hr, He in H. by apply bool_decide_eq_true in H.
Qed.

Lemma first_verified : ∀ f, f ∈ first_files → verified (d_repo (w_repo extracted)) (fe_UUID f).
Proof.
  intros f Hf. assert (f ∈ ltac:(let x := eval vm_compute in first_files in exact x)) as Hin.
  { assert (first_files = ltac:(let x := eval vm_compute in first_files in exact x)) as <- by (vm_compute; reflexivity). exact Hf. }
  repeat (apply elem_of_cons in Hin as [->|Hin]; [apply verified_check; [done|vm_compute; reflexivity]|]).
  by apply not_elem_of_nil in Hin.
Qed.

Lemma Extract_checks_out_witness : checked_out extracted 3 first_uuid first_files ∧
  ScanChanges extracted ScanHash = Ret extracted ∧ HasChanges extracted = Ret false.
Proof.
  destruct (Extract_checks_out empty_checkout 3 force extracted first_uuid first_files) as [_ [H1 H2]].
  - done.
  - exact first_uuid_at.
  - by_decide.
  - done.
  - exact empty_unique.
  - intros r [i Hi]. done.
  - exact files_ret.
  - by_decide.
  - exact first_good.
  - exact extracted_ret.
  - split; [exact H1|]. exact (H2 first_verified).
Defined.

(** After an edit of [README], the scan flags its row. *)
Lemma ScanChanges_marks_witness : scanned edited scanned_again 3 ∧
  ∃ r, has_row scanned_again r ∧ vf_vid r = 3%Z ∧ (0 < vf_chnged r ∨ 0 < vf_deleted r)%Z.
Proof.
  destruct (ScanChanges_marks edited scanned_again 3 first_uuid) as (H1 & b & H2 & H3).
  - exact edited_version.
  - exact scanned_ret.
  - split; [exact H1|]. apply H3. assert (HasChanges scanned_again = Ret true) as H4 by (vm_compute; reflexivity).
    rewrite H4 in H2. by injection H2 as <-.
Defined.

Definition managed : Checkout := (result (grown, MkCounts 0 0 0) (Manage grown [str "notes"] (λ _ _, true))).1.
Lemma managed_ret : ∃ n, Manage grown [str "notes"] (λ _ _, true) = Ret (managed, n).
Proof.
  unfold managed. assert (returns (Manage grown [str "notes"] (λ _ _, true)) = true) as H by (vm_compute; reflexivity).
  destruct (Manage grown _ _) as [[c n]| | |]; [by exists n|done..].
Qed.

Lemma notes_new : find_file grown 3 (str "notes") = None.
Proof.
  assert (match find_file grown 3 (str "notes") with Some _ => false | None => true end = true) as H by (vm_compute; reflexivity).
  by destruct (find_file grown 3 (str "notes")).
Qed.

Lemma Manage_Unmanage_witness : Unmanage managed [str "notes"] [] (λ _, true) = Ret grown.
Proof.
  destruct managed_ret as [n Hn].
  destruct (Manage_Unmanage grown 3 first_uuid (str "notes") (λ _ _, true) managed n) as (_ & _ & H).
  - exact grown_version.
  - exact notes_new.
  - exact Hn.
  - exact (H (λ _, true) eq_refl).
Defined.

Definition reverted : Checkout := (result (renamed, false) (RevertRename renamed (str "doc/README") true)).1.
Lemma reverted_ret : ∃ b, RevertRename renamed (str "doc/README") true = Ret (reverted, b).
Proof.
  unfold reverted. assert (returns (RevertRename renamed (str "doc/README") true) = true) as H by (vm_compute; reflexivity).
  destruct (RevertRename renamed _ _) as [[c b]| | |]; [by exists b|done..].
Qed.

Lemma readme_found : ∃ id r, find_file extracted 3 (str "README") = Some (id, r) ∧ vf_chnged r = 0%Z ∧ vf_origname r = None.
Proof.
  assert (match find_file extracted 3 (str "README") with
    | Some (_, r) => bool_decide (vf_chnged r = 0%Z ∧ vf_origname r = None) | None => false end = true) as H by (vm_compute; reflexivity).
  destruct (find_file _ _ _) as [[id r]|]; [|done]. apply bool_decide_eq_true in H. by exists id, r.
Qed.

Lemma Rename_RevertRename_witness : ∃ data, FileContent extracted (str "README") = Ret data ∧
  FileContent renamed (str "doc/README") = Ret data ∧ w_vfile reverted = w_vfile extracted.
Proof.
  assert (∃ id r, find_file extracted 3 (str "README") = Some (id, r) ∧ vf_chnged r = 0%Z ∧ vf_origname r = None) as (id & r & Hf & Hc & Ho)
    by exact readme_found.
  destruct (Rename_RevertRename extracted 3 first_uuid (str "README") (str "doc/README") (λ _ _, true) renamed id r)
    as (data & H1 & H2 & _ & H3).
  - exact extracted_version.
  - exact extracted_unique.
  - by_decide.
  - exact (good_parts [str "README"] ltac:(done) eq_refl).
  - exact (good_parts [str "doc"; str "README"] ltac:(done) eq_refl).
  - by_decide.
  - exact Hf.
  - exact renamed_ret.
  - exists data. split; [exact H1|]. split; [exact H2|]. destruct reverted_ret as [b Hb]. destruct (H3 _ _ Hb) as (_ & _ & H4 & _). exact (H4 Hc Ho).
Defined.

(** The check-in is extracted, and a file is renamed. *)
Lemma checkout_confined_witness : ReadFile (w_disk renamed) (str "/etc/passwd") = Ret (str "root") ∧ names_unique renamed.
Proof.
  destruct (checkout_confined empty_checkout renamed) as (_ & H1 & H2).
  - apply (rtc_l _ _ extracted); [apply (Op_Extract _ _ 3%Z force); rewrite extracted_ret; exact eq_refl|].
    apply (rtc_l _ _ renamed); [apply (Op_Rename _ _ (str "README") (str "doc/README") true (λ _ _, true)); rewrite renamed_ret; exact eq_refl|].
    reflexivity.
  - split; [|exact (H1 empty_unique)]. rewrite H2; [vm_compute; reflexivity|reflexivity|by_decide|].
    split; [|split; [|split]]; vm_compute; reflexivity.
Defined.

(** ** Findings *)

Definition commit_opts : CommitOpts := MkCommitOpts (str "second") (str "dev") [] [] false (Time 2024 6 16 0 0 0 0) true.

(** What a commit of [c] leaves: the names of the new version with their contents, or
    an error, or a panic. *)
Inductive committed := Committed (files : list (bytes * bytes)) | Refused | Panicked.

#[export] Instance committed_eq_dec : EqDecision committed.
Proof. solve_decision. Defined.

Definition listed (m : outcome (Checkout * ck_error) (Checkout * Z * bytes)) : committed :=
  match m with
  | Ret (c, rid, _) => Committed (map (λ f, (fe_Name f, match rid_of_uuid (d_repo (w_repo c)) (fe_UUID f) with
      | Some frid => result [] (Expand (d_repo (w_repo c)) frid) | None => [] end))
      (result [] (ListFiles (w_repo c) rid)))
  | Fail _ => Refused
  | _ => Panicked
  end.
Definition commit (c : Checkout) : committed := listed (Commit when when c commit_opts).
Definition README : bytes := str "README".
Definition main_go : bytes * bytes := (str "src/main.go", text_b).

(** A file that became empty is committed with the content it had. *)
Definition emptied : Checkout := write (str "/w/README") [] extracted.
Example emptied_keeps_content :
  commit edited = Committed [(README, str "edited"); main_go] ∧
  commit emptied = Committed [(README, text_a); main_go].
Proof. vm_compute. auto. Qed.

(** A new file that is empty cannot be committed at all. *)
Definition added_empty : Checkout :=
  (result (extracted, MkCounts 0 0 0) (Manage (write (str "/w/notes") [] extracted) [str "notes"] (λ _ _, true))).1.
Example empty_file_refused : commit added_empty = Refused.
Proof. vm_compute. auto. Qed.

(** A commit after a rename has the file under its old name, and after an edit under
    both. *)
Example rename_not_committed :
  commit renamed = Committed [(README, text_a); main_go] ∧
  commit (write (str "/w/doc/README") (str "edited") renamed) =
    Committed [(README, text_a); (str "doc/README", str "edited"); main_go].
Proof. vm_compute. auto. Qed.

(** Without a file there is no check-in. *)
Definition nothing_left : Checkout := get extracted (Unmanage extracted [README; str "src/main.go"] [] (λ _, true)).
Example empty_commit_panics : commit nothing_left = Panicked.
Proof. vm_compute. auto. Qed.

(** The version, and the versions of the rows. *)
Definition versions (c : Checkout) : Z * list Z :=
  ((result (0%Z, []) (Version c)).1, map (λ p, vf_vid p.2) (map_to_list (w_vfile c))).
(** A dry run of an extraction writes no file but changes the version. *)
Definition dry : Checkout := get empty_checkout (Extract empty_checkout 3 (MkExtractOpts (λ _ _, true) false true false)).
Example dry_run_changes_version :
  versions dry = (3%Z, [3; 3]%Z) ∧ result [] (FileContent extracted README) = text_a ∧
  result [] (FileContent dry README) = [].
Proof. vm_compute. auto. Qed.

(** The second version, and the first one of the same repository. *)
Definition newer : Checkout := (result (edited, 0%Z, []) (Commit when when edited commit_opts)).1.1.
Definition older : Checkout := with_repo (w_repo newer) extracted.
Definition careful : ExtractOpts := MkExtractOpts (λ _ _, true) false false false.
(** Nothing is changed in the newer version; still the older one is not extracted, as
    the files of the newer one are taken for local changes.  The rows of the newer
    version are gone after that. *)
Definition refused_for (m : outcome (Checkout * ck_error) Checkout) : option (bytes * (Z * list Z)) :=
  match m with Fail (c, ELocalChanges name) => Some (name, versions c) | _ => None end.
Example clean_extract_refused :
  result true (HasChanges newer) = false ∧ versions newer = (5%Z, [5; 5]%Z) ∧
  refused_for (Extract newer 3 careful) = Some (README, (5%Z, [3; 3]%Z)).
Proof. vm_compute. auto. Qed.

(** An edit that was not committed is lost in an update. *)
Definition mine : Checkout := write (str "/w/README") (str "mine") older.
Definition updated : Checkout := get mine (Update mine (MkUpdateOpts 0 (λ _ _, true) false false)).
Example update_overwrites :
  result [] (FileContent mine README) = str "mine" ∧ versions updated = (5%Z, [5; 5]%Z) ∧
  result [] (FileContent updated README) = str "edited".
Proof. vm_compute. auto. Qed.
