(* ===== verification/SessionSafety.v ===== *)
(** * What a client guarantees (src/internal/sync/session.go, client.go)

    A sync session talks to a server that may answer anything.  Each step of the
    session is related to the session it is given: [frame] holds of the steps that
    have nothing to do with storing artifacts, [good] of all steps.  Requests carry
    genuine artifacts only, no private ones unless asked to, and at most one
    artifact beyond the budget. *)
From S2P Require Import Prelude GoStrings Hash Zlib Deck Julian Quote Xfer Blob Content Db Uv Auth Receive Tag Crosslink Linked TableSync CkinLock Handler HandlerSafety Clone CloneComplete SyncLinked Session.
From stdpp Require Import list gmap sets.

(** ** Budgets *)

(** The cards of a kind, all but the last together smaller than the budget. *)
Definition total (size : Card → Z) (cards : list Card) : Z := foldr (λ c n, (size c + n)%Z) 0%Z cards.
Definition spends (kind : Card → bool) (size : Card → Z) (budget : Z) (cards : list Card) : Prop :=
  ∀ l c, filter (λ c, kind c = true) cards = l ++ [c] → (total size l < budget)%Z.

Definition is_file (c : Card) : bool := match c with CardFile _ | CardCFile _ => true | _ => false end.
Definition file_size (c : Card) : Z :=
  match c with
  | CardFile f => zlen (default [] (f_Content f))
  | CardCFile f => zlen (default [] (cf_Content f))
  | _ => 0
  end.
Definition is_uvfile (c : Card) : bool := match c with CardUVFile _ => true | _ => false end.
Definition uvfile_size (c : Card) : Z := match c with CardUVFile f => zlen (default [] (uf_Content f)) | _ => 0 end.
Definition is_gimme (c : Card) : bool := match c with CardGimme _ => true | _ => false end.

Section budgets.
Context (kind : Card → bool) (size : Card → Z).

Lemma spends_nil b : spends kind size b [].
Proof. intros l c H. by destruct l. Qed.

Lemma spends_skip b c cards : kind c = false → spends kind size b cards → spends kind size b (c :: cards).
Proof. intros Hc H l x. rewrite filter_cons_False by (rewrite Hc; done). apply H. Qed.

Lemma spends_cons b c cards :
  kind c = true → (0 < b)%Z → spends kind size (b - size c) cards → spends kind size b (c :: cards).
Proof.
  intros Hc Hb H l x. rewrite filter_cons_True by done. intros Hl. destruct l as [|y l]; [done|].
  injection Hl as <- Hl. specialize (H l x Hl). change (size c + total size l < b)%Z. lia.
Qed.

Lemma spends_among b l cards k :
  Forall (λ c, kind c = false) l → Forall (λ c, kind c = false) k →
  spends kind size b cards → spends kind size b (l ++ cards ++ k).
Proof.
  assert (∀ l, Forall (λ c, kind c = false) l → filter (λ c, kind c = true) l = []) as Hf.
  { induction 1 as [|c l' Hc _ IH]; [done|]. rewrite filter_cons_False by (rewrite Hc; done). done. }
  intros Hl Hk H y x. rewrite !filter_app, (Hf l Hl), (Hf k Hk), app_nil_r. apply H.
Qed.
End budgets.

(** ** The relations *)

Section relations.
Context {codec : Zlib} {sha3 : Sha3} {json : Json}.

(** Tables that are registered, or whose definitions are cached, have names and
    columns that are identifiers. *)
Record tables_ok (s : session) : Prop := {
  to_registry : registry_ok (s_repo s);
  to_cache : ∀ m, xs_cache (s_x s) = Some m → map_Forall (λ name def, validName name = true ∧ valid_def def) m
}.

(** No artifact is stored. *)
Record frame (s s' : session) : Prop := {
  fr_blobs : s_blobs s' = s_blobs s;
  fr_cache : coherent (s_cache s) (s_blobs s) → coherent (s_cache s') (s_blobs s);
  fr_links : links_kept (s_repo s) (s_repo s');
  fr_tables : tables_ok s → tables_ok s';
  fr_last : s_filesRecvdLastRound s' = s_filesRecvdLastRound s
}.

#[global] Instance frame_preorder : PreOrder frame.
Proof.
  split; [by intros s|]. intros s1 s2 s3 [A1 A2 A3 A4 A5] [B1 B2 B3 B4 B5].
  split; [congruence| |by etrans|by auto|congruence]. rewrite A1 in B2. auto.
Qed.

Record good (s s' : session) : Prop := {
  go_rows : rows_kept (s_blobs s) (s_blobs s');
  go_sound : small (s_blobs s') → repo_ok (s_blobs s) → coherent (s_cache s) (s_blobs s) →
    repo_ok (s_blobs s') ∧ coherent (s_cache s') (s_blobs s') ∧ retains (s_blobs s) (s_blobs s');
  go_links : links_kept (s_repo s) (s_repo s');
  go_tables : tables_ok s → tables_ok s'
}.

#[global] Instance good_preorder : PreOrder good.
Proof.
  split; [by intros s|]. intros s1 s2 s3 [A1 A2 A3 A4] [B1 B2 B3 B4].
  split; [by etrans| |by etrans|by auto]. intros Hs Ho Hc.
  destruct (A2 (small_kept _ _ B1 Hs) Ho Hc) as (O2 & C2 & R2).
  destruct (B2 Hs O2 C2) as (O3 & C3 & R3). split_and!; [done|done|by etrans].
Qed.

Lemma frame_good s s' : frame s s' → good s s'.
Proof.
  intros [F1 F2 F3 F4 _]. split; [by rewrite F1| |done|done]. rewrite F1. intros _ Ho Hc.
  split_and!; [done|by apply F2|done].
Qed.

(** What a step leaves, after an error too, is related to [s]. *)
Definition leads {A} (R : relation session) (π : A → session) (s : session) (m : stepped A) : Prop :=
  match m with Ret a => R s (π a) | Fail (s', _) => R s s' | Panic | NoFuel => True end.

Lemma leads_at {A B} (R : relation session) `{!PreOrder R} (π : B → session) s s1 (m : out A) f :
  R s s1 → (∀ a, m = Ret a → leads R π s (f a)) → leads R π s (at_s s1 m ≫= f).
Proof. intros H Hf. destruct m as [a|e| |]; cbn; try done. by apply Hf. Qed.

Lemma leads_bind {A B} (R : relation session) `{!PreOrder R} (π : A → session) (ρ : B → session) s m f :
  leads R π s m → (∀ a, m = Ret a → R s (π a) → leads R ρ (π a) (f a)) → leads R ρ s (m ≫= f).
Proof.
  destruct m as [a|[s1 e]| |]; cbn; try done. intros H Hf. specialize (Hf a eq_refl H).
  destruct (f a) as [b|[s2 e]| |]; cbn in *; try done; by etrans.
Qed.

Lemma leads_from {A} (R : relation session) `{!PreOrder R} (π : A → session) s s1 m :
  R s s1 → leads R π s1 m → leads R π s m.
Proof. intros H. destruct m as [a|[s2 e]| |]; cbn; try done; intros; by etrans. Qed.

Lemma leads_weaken {A} (R Q : relation session) (π : A → session) s m :
  (∀ s1 s2, R s1 s2 → Q s1 s2) → leads R π s m → leads Q π s m.
Proof. intros H. destruct m as [a|[s2 e]| |]; cbn; auto. Qed.

(** A field changes on which the relation does not depend. *)
Lemma frame_field s s' : s_repo s' = s_repo s → s_cache s' = s_cache s → s_x s' = s_x s →
  s_filesRecvdLastRound s' = s_filesRecvdLastRound s → frame s s'.
Proof.
  intros Hr Hc Hx Hl. unfold s_blobs. split; [unfold s_blobs; by rewrite Hr|by rewrite Hc|by rewrite Hr| |done].
  intros [T1 T2]. split; [by rewrite Hr|by rewrite Hx].
Qed.

(** A change of the database that keeps artifacts and the registry. *)
Lemma frame_db d s : d_repo d = d_repo (s_repo s) → links_kept (s_repo s) d → d_schema d = d_schema (s_repo s) →
  frame s (set_db d s).
Proof.
  intros Hd Hl Hs. split; [done|done|done| |done]. intros [T1 T2]. split; [|done].
  unfold registry_ok. cbn. by rewrite Hs.
Qed.

Lemma frame_xGimmes f s : frame s (on_xGimmes f s).
Proof. split; try done. by intros []; split. Qed.
Lemma frame_xToSend f s : frame s (on_xToSend f s).
Proof. split; try done. by intros []; split. Qed.

Lemma EnsureSyncSchema_frame s : frame s (on_s_repo EnsureSyncSchema s).
Proof.
  split; try done. intros [T1 T2]. split; [|done]. intros t name row. cbn. intros [= <-] Hrow.
  destruct (d_schema (s_repo s)) as [t|] eqn:E; [by eapply T1|cbn in Hrow; by rewrite lookup_empty in Hrow].
Qed.
End relations.

(** ** Requests *)

Section requests.
Context {codec : Zlib} {zlaws : ZlibLaws} {sha3 : Sha3} {sqlite : Sqlite} {sql : Sql} {floats : Floats}
  {json : Json} {order : Unordered} {olaws : UnorderedLaws}.
Context (opts : SyncOpts).

(** The uuid is that of a private artifact. *)
Definition hidden (q : repo) (uuid : bytes) : Prop := ∃ rid, rid_of_uuid q uuid = Some rid ∧ rid ∈ t_private q.

(** A pragma that has nothing to do with artifacts, or asks for the check-in lock
    that the session was told to ask for. *)
Definition plain_pragma (p : PragmaCard) : Prop :=
  if bool_decide (pr_Name p = str "ci-lock") then
    ∃ l, so_CkinLock opts = Some l ∧ pr_Values p = [lr_ParentUUID l; lr_ClientID l]
  else existsb (λ n, bool_decide (pr_Name p = n))
         [str "client-version"; str "req-clusters"; str "uv-hash"; str "xtable-hash"] = true.

(** The card neither carries, announces, asks for nor mentions a private artifact,
    but for the parent in the lock the session was told to ask for. *)
Definition kept_private (q : repo) (c : Card) : Prop :=
  match c with
  | CardFile f => f_DeltaSrc f = [] ∧ public q (f_UUID f)
  | CardIGot g => ig_IsPrivate g = false ∧ public q (ig_UUID g)
  | CardGimme uuid => ¬ hidden q uuid
  | CardCFile _ | CardPrivate => False
  | CardPragma p => plain_pragma p
  | _ => True
  end.

(** Cards that name no artifact at all. *)
Definition meek (c : Card) : Prop :=
  match c with
  | CardFile _ | CardCFile _ | CardIGot _ | CardPrivate | CardGimme _ => False
  | CardPragma p => plain_pragma p
  | _ => True
  end.

Lemma meek_benign c : meek c → benign c.
Proof. by destruct c. Qed.
Lemma meek_kept q c : meek c → kept_private q c.
Proof. by destruct c. Qed.

Record fine (q : repo) (s : session) (cards : list Card) : Prop := {
  fi_genuine : repo_ok q → coherent (s_cache s) q → Forall (genuine q) cards;
  fi_private : so_Private opts = false → Forall (kept_private q) cards
}.

Lemma fine_app q s l k : fine q s l → fine q s k → fine q s (l ++ k).
Proof. intros [A1 A2] [B1 B2]. split; intros; apply Forall_app; auto. Qed.

Lemma fine_meek q s l : Forall meek l → fine q s l.
Proof.
  intros H. split; intros; (eapply Forall_impl; [exact H|]); intros c Hc;
    [by apply benign_genuine, meek_benign|by apply meek_kept].
Qed.

Lemma igots_fine s (keep : Z → option bytes) rids :
  (∀ rid u, keep rid = Some u → public (s_blobs s) u) →
  fine (s_blobs s) s (igots false (filter (λ u, unannounced s u = true) (omap keep rids))).
Proof.
  intros Hk. split; intros; apply Forall_forall; intros c (u & -> & [_ Hu]%list_elem_of_filter)%list_elem_of_fmap;
    [done|]. apply list_elem_of_omap in Hu as (rid & _ & Hu). split; [done|by eapply Hk].
Qed.

Lemma public_uuid_public q rid u : public_uuid q rid = Some u → public q u.
Proof.
  unfold public_uuid. destruct (t_blob q !! rid) as [row|] eqn:Hr; [|done].
  destruct (_ && _) eqn:Hc; [|done]. intros [= <-]. apply andb_true_iff in Hc as [_ Hp].
  apply negb_true_iff, bool_decide_eq_false in Hp. by exists rid, row.
Qed.

Lemma announcements_fine cycle s : fine (s_blobs s) s (announcements opts cycle s).2.
Proof.
  unfold announcements. cbv zeta. cbn [snd]. apply fine_app; [|apply fine_app].
  - apply igots_fine. intros rid u. apply public_uuid_public.
  - destruct (_ && _); [|by apply fine_meek]. apply igots_fine. intros rid u. apply public_uuid_public.
  - apply fine_meek. destruct (_ && _); by repeat constructor.
Qed.

(** Loading an artifact: the cache learns. *)
Lemma loadFileCard_spec s uuid :
  match loadFileCard s uuid with
  | Ret (s', card, size) => frame s s' ∧ s_pendingSend s' = s_pendingSend s ∧ s_uv s' = s_uv s ∧
      size = file_size (CardFile card) ∧ (f_DeltaSrc card = [] ∧ f_UUID card = uuid) ∧
      (repo_ok (s_blobs s) → coherent (s_cache s) (s_blobs s) → genuine (s_blobs s) (CardFile card))
  | Fail (s', _) => frame s s'
  | _ => True
  end.
Proof.
  unfold loadFileCard. destruct (in_repo _) as [[rid|]|e| |] eqn:Hrid; cbn [mbind outcome_bind at_s wrap_err];
    try done. apply in_repo_ret, Exists_ret in Hrid. symmetry in Hrid.
  apply rid_of_uuid_Some in Hrid as (row & Hrow & Hu).
  destruct (Cache_Expand (s_cache s) (s_blobs s) rid) as [[cache data]|e| |] eqn:Hex;
    cbn [in_repo mbind outcome_bind at_s wrap_err]; try done.
  - split.
    { split; try done; [|by intros []; split]. intros Hc. by apply (Cache_Expand_sound _ _ _ _ _ Hc Hex). }
    split_and!; try done. intros Hok Hc. split; [done|]. exists rid, row, data. cbn. split_and!; try done.
    + by apply (Cache_Expand_sound _ _ _ _ _ Hc Hex).
    + rewrite <- Hu. eapply expands_genuine; [done|exact Hrow|]. by apply (Cache_Expand_sound _ _ _ _ _ Hc Hex).
  - split; try done; [|by intros []; split]. intros Hc. by apply cache_missed_coherent.
Qed.

Lemma fine_frame s s1 l : frame s s1 → fine (s_blobs s1) s1 l → fine (s_blobs s) s l.
Proof. intros [F1 F2 _ _ _] [G1 G2]. rewrite F1 in *. split; auto. Qed.

Lemma pending_frame f s : frame s (on_s_pendingSend f s).
Proof. by apply frame_field. Qed.

(** The requested artifacts. *)
Lemma file_cards_spec l : ∀ budget s,
  match file_cards opts l budget s with
  | Ret (s', cards) => frame s s' ∧ fine (s_blobs s) s cards ∧ spends is_file file_size budget cards ∧
      Forall (λ c, is_uvfile c = false ∧ is_gimme c = false) cards
  | Fail (s', _) => frame s s'
  | _ => True
  end.
Proof.
  induction l as [|uuid l IH]; intros budget s; cbn [file_cards].
  { split_and!; [done|by split|apply spends_nil|done]. }
  destruct (Z.leb_spec budget 0) as [_|Hb]; [split_and!; [done|by split|apply spends_nil|done]|].
  destruct (in_repo (Blob.Exists _ uuid)) as [found|e| |] eqn:Hf; cbn [mbind outcome_bind at_s wrap_err]; try done.
  destruct (match found with Some rid => _ | None => _ end) as [isPriv|[s1 e]| |] eqn:Hp;
    cbn [mbind outcome_bind]; try done.
  2: { revert Hp. destruct found as [rid|]; [|done]. unfold IsPrivate. by destruct (rid <=? 0)%Z. }
  assert (so_Private opts = false → isPriv && negb (so_Private opts) = false → isPriv = false) as Hnp.
  { intros ->. by destruct isPriv. }
  destruct (isPriv && negb (so_Private opts)) eqn:Hskip.
  { specialize (IH budget (on_s_pendingSend (λ p, p ∖ {[ uuid ]}) s)).
    destruct (file_cards opts l budget _) as [[s' cards]|[s' e]| |]; try done.
    - destruct IH as (H1 & H2 & H3 & H4). split_and!; [by etrans; [apply pending_frame|]| |done|done].
      eapply fine_frame; [apply pending_frame|exact H2].
    - etrans; [apply pending_frame|exact IH]. }
  set (private := if isPriv then [CardPrivate] else []).
  assert (fine (s_blobs s) s private ∧ spends is_file file_size budget private ∧
    Forall (λ c, is_uvfile c = false ∧ is_gimme c = false) private ∧ Forall (λ c, is_file c = false) private) as Hpriv.
  { unfold private. destruct isPriv; [|split_and!; [by split|apply spends_nil|done|done]].
    split_and!; [split; [by repeat constructor|intros Hx; by specialize (Hnp Hx eq_refl)]| |by repeat constructor..].
    apply spends_skip; [done|apply spends_nil]. }
  destruct Hpriv as (P1 & _ & P3 & P4).
  pose proof (loadFileCard_spec s uuid) as Hl.
  destruct (loadFileCard s uuid) as [[[s1 card] size]|[s1 e]| |] eqn:El; try done.
  - destruct Hl as (L1 & _ & _ & L4 & (L0 & L5) & L6). cbv zeta.
    set (s2 := on_s_sent _ _). assert (frame s s2) as L2 by (etrans; [exact L1|]; by apply frame_field).
    specialize (IH (budget - size)%Z s2).
    destruct (file_cards opts l _ s2) as [[s' cards]|[s' e]| |]; cbn [mbind outcome_bind]; try done; [|by etrans].
    destruct IH as (H1 & H2 & H3 & H4). split_and!.
    + by etrans.
    + apply fine_app; [exact P1|]. apply (fine_app _ _ [_]); [|by eapply fine_frame].
      split; [intros Ho Hc; constructor; [by apply L6|done]|]. intros Hx. constructor; [|done]. cbn. split; [exact L0|]. rewrite L5.
      specialize (Hnp Hx eq_refl). destruct found as [rid|].
      * apply in_repo_ret, Exists_ret in Hf. symmetry in Hf. apply rid_of_uuid_Some in Hf as (row & Hrow & Hu).
        exists rid, row. split_and!; [done|done|]. revert Hp. destruct (in_repo _) as [b|e| |] eqn:Hpv; try done.
        apply in_repo_ret, IsPrivate_ret in Hpv. intros [= ->]. rewrite Hnp in Hpv. symmetry in Hpv.
        by apply bool_decide_eq_false in Hpv.
      * unfold loadFileCard in El. by rewrite Hf in El.
    + rewrite <- (app_nil_r (CardFile card :: cards)). apply spends_among; [exact P4|done|].
      rewrite L4 in H3. by apply spends_cons.
    + apply Forall_app. split; [done|]. by constructor.
  - specialize (IH budget s1).
    destruct (file_cards opts l budget s1) as [[s' cards]|[s' e']| |]; cbn [mbind outcome_bind]; try done; [|by etrans].
    destruct IH as (H1 & H2 & H3 & H4). split_and!; [by etrans| | |by apply Forall_app].
    + apply fine_app; [exact P1|by eapply fine_frame].
    + rewrite <- (app_nil_r cards). by apply spends_among.
Qed.

(** The requests for phantoms. *)
Lemma gimme_cards_spec l m q cards : ∀ count, (count ≤ m)%Z → gimme_cards opts l count m q = Ret cards →
  Forall (λ c, is_gimme c = true ∧ (so_Private opts = false → kept_private q c)) cards ∧ (count + zlen cards ≤ m)%Z.
Proof.
  revert cards. induction l as [|uuid l IH]; intros cards count Hle; cbn [gimme_cards].
  { intros [= <-]. split; [done|]. unfold zlen. cbn. lia. }
  destruct (Z.leb_spec m count) as [|Hlt]; [intros [= <-]; split; [done|unfold zlen; cbn; lia]|].
  intros H. apply bind_ret_inv in H as (skip & Hskip & H). destruct skip; [by apply IH|].
  apply bind_ret_inv in H as (rest & Hr & H). injection H as <-.
  destruct (IH rest (count + 1)%Z ltac:(lia) Hr) as [H1 H2]. split; [|revert H2; unfold zlen; cbn [length]; lia].
  constructor; [|done]. split; [done|]. intros Hp (rid & Hrid & Hin). rewrite Hp in Hskip. cbn [negb] in Hskip.
  apply bind_ret_inv in Hskip as (found & Hf & Hskip). apply in_repo_ret, Exists_ret in Hf as ->.
  rewrite Hrid in Hskip. apply in_repo_ret, IsPrivate_ret in Hskip. symmetry in Hskip.
  by apply bool_decide_eq_false in Hskip.
Qed.

(** The unversioned files. *)
Lemma uv_cards_spec l : ∀ budget s,
  match uv_cards l budget s with
  | Ret (s', cards) => frame s s' ∧ Forall (λ c, is_uvfile c = true ∧ meek c) cards ∧
      spends is_uvfile uvfile_size budget cards
  | Fail (s', _) => frame s s'
  | _ => True
  end.
Proof.
  induction l as [|[name full] l IH]; intros budget s; cbn [uv_cards].
  { split_and!; [done|done|apply spends_nil]. }
  destruct (Z.leb_spec budget 0) as [_|Hb]; [split_and!; [done|done|apply spends_nil]|].
  destruct (Uv.Read _ name) as [[[content mtime] fileHash]|e| |]; cbn [mbind outcome_bind at_s wrap_err]; try done.
  cbv zeta. destruct (if bool_decide (fileHash = []) then _ else _) as [card cost] eqn:Ec.
  assert (cost = uvfile_size (CardUVFile card)) as ->.
  { revert Ec. case_bool_decide; [by intros [= <- <-]|]. destruct (_ && _); by intros [= <- <-]. }
  set (s1 := on_toSend _ s). assert (frame s s1) as F by by apply frame_field.
  specialize (IH (budget - uvfile_size (CardUVFile card))%Z s1).
  destruct (uv_cards l _ s1) as [[s' cards]|[s' e]| |]; cbn [mbind outcome_bind]; try done; [|by etrans].
  destruct IH as (H1 & H2 & H3). split_and!; [by etrans|by constructor|by apply spends_cons].
Qed.

(** Cards that are neither files nor requests for them. *)
Definition other (c : Card) : Prop := is_file c = false ∧ is_uvfile c = false ∧ is_gimme c = false.

(** The synchronised tables. *)
Definition quiet_cards (s : session) (m : stepped (session * list Card)) : Prop :=
  match m with
  | Ret (s', cards) => frame s s' ∧ Forall (λ c, other c ∧ meek c) cards
  | Fail (s', _) => frame s s'
  | _ => True
  end.

Lemma quiet_bind s s1 (pre : list Card) m :
  frame s s1 → Forall (λ c, other c ∧ meek c) pre → quiet_cards s1 m →
  quiet_cards s ('(s', cards) ← m; Ret (s', pre ++ cards)).
Proof.
  intros F Hp. destruct m as [[s' cards]|[s' e]| |]; cbn; try done.
  - intros [H1 H2]. split; [by etrans|by apply Forall_app].
  - intros H. by etrans.
Qed.

Lemma send_card_quiet d info h c : send_card d info h = Ret c → Forall (λ c, other c ∧ meek c) (option_list c).
Proof.
  unfold send_card. intros H. apply bind_ret_inv in H as ([[row m]|] & _ & H); [|by injection H as <-].
  apply bind_ret_inv in H as (dead & _ & H). destruct dead.
  - apply bind_ret_inv in H as (x & _ & H). destruct (json_of_row _); [|done]. injection H as <-. by repeat constructor.
  - destruct (json_of_row _); [|done]. injection H as <-. by repeat constructor.
Qed.

Lemma send_cards_quiet info l : ∀ s, quiet_cards s (send_cards info l s).
Proof.
  induction l as [|h l IH]; intros s; cbn [send_cards]; [done|].
  destruct (send_card (s_repo s) info h) as [c|e| |] eqn:Hc; cbn [mbind outcome_bind at_s wrap_err]; try done.
  eapply (quiet_bind s _ (option_list c)); [apply frame_xToSend|by eapply send_card_quiet|apply IH].
Qed.

Lemma buildTableSendCards_quiet s info : quiet_cards s (buildTableSendCards s info).
Proof.
  unfold buildTableSendCards. cbv zeta. apply (quiet_bind s s); [done| |apply send_cards_quiet].
  apply Forall_forall. intros c (h & -> & _)%list_elem_of_fmap. done.
Qed.

Lemma buildTableSchemaCard_quiet d info cards :
  buildTableSchemaCard d info = Ret cards → Forall (λ c, other c ∧ meek c) cards.
Proof.
  unfold buildTableSchemaCard. cbv zeta. intros H. apply bind_ret_inv in H as (h & _ & H). injection H as <-.
  by repeat constructor.
Qed.

Lemma buildTableXIGotCards_quiet d info cards :
  buildTableXIGotCards d info = Ret cards → Forall (λ c, other c ∧ meek c) cards.
Proof.
  unfold buildTableXIGotCards. intros H. apply bind_ret_inv in H as (rows & _ & H).
  apply bind_ret_inv in H as (x & _ & H). revert cards H.
  induction rows as [|[row m] rows IH]; intros cards; cbn [xigot_cards]; [by intros [= <-]|].
  intros H. apply bind_ret_inv in H as (h & _ & H). apply bind_ret_inv in H as (rest & Hr & H).
  injection H as <-. constructor; [done|by apply IH].
Qed.

Lemma table_cards_quiet tables : ∀ s, quiet_cards s (table_cards tables s).
Proof.
  induction tables as [|info tables IH]; intros s; cbn [table_cards]; [done|].
  destruct (buildTableSchemaCard _ info) as [c1|e| |] eqn:H1; cbn [mbind outcome_bind at_s wrap_err]; try done.
  destruct (buildTableXIGotCards _ info) as [c2|e| |] eqn:H2; cbn [mbind outcome_bind at_s wrap_err]; try done.
  apply buildTableSchemaCard_quiet in H1. apply buildTableXIGotCards_quiet in H2.
  pose proof (buildTableSendCards_quiet s info) as H3.
  destruct (buildTableSendCards s info) as [[s1 c3]|[s1 e]| |]; cbn [mbind outcome_bind]; try done.
  destruct H3 as [F H3]. specialize (IH s1).
  destruct (table_cards tables s1) as [[s2 c4]|[s2 e]| |]; cbn in IH |- *; try done; [|by etrans].
  destruct IH as [F2 H4]. split; [by etrans|]. by repeat (apply Forall_app; split).
Qed.

Lemma buildXTableCards_quiet s : quiet_cards s (buildXTableCards s).
Proof.
  unfold buildXTableCards. cbv zeta. pose proof (EnsureSyncSchema_frame s) as F.
  set (s1 := on_s_repo _ s) in *. destruct (ListSyncedTables (s_repo s1)) as [tables|e| |];
    cbn [mbind outcome_bind at_s wrap_err]; try done.
  pose proof (table_cards_quiet tables s1) as H. destruct (table_cards tables s1) as [[s2 c]|[s2 e]| |]; try done.
  - destruct H as [F2 H]. split; [by etrans|done].
  - cbn in *. by etrans.
Qed.

Lemma ContentHash_schema now d d' h : Uv.ContentHash now d = Ret (d', h) → d_schema d' = d_schema d.
Proof.
  unfold Uv.ContentHash. cbv zeta. destruct (negb _); [by intros [= <- _]|].
  destruct (d_uv d); [|done]. intros H. apply bind_ret_inv in H as (x & _ & H). by injection H as <- _.
Qed.

Lemma uv_hash_cards_quiet now s : quiet_cards s (uv_hash_cards opts now s).
Proof.
  unfold uv_hash_cards. destruct (_ && _); [|done]. cbv zeta.
  assert (frame s (on_s_repo Uv.EnsureSchema s)) as F by (split; try done; by intros []; split).
  set (s1 := on_s_repo _ s) in *.
  destruct (Uv.ContentHash now (s_repo s1)) as [[d h]|e| |] eqn:Hh; cbn [mbind outcome_bind at_s wrap_err]; try done.
  split; [|by repeat constructor]. etrans; [exact F|]. pose proof (ContentHash_schema _ _ _ _ Hh) as Hs.
  apply ContentHash_frame in Hh. transitivity (set_db d s1); [|by apply frame_field].
  apply frame_db; [apply Hh|by apply untouched_links|done].
Qed.

(** What a request is made of: cards without artifacts, files, requests for
    phantoms, unversioned files. *)
Lemma request_kinds b m pre files gimmes mid uvs post :
  Forall other pre → Forall (λ c, is_uvfile c = false ∧ is_gimme c = false) files →
  Forall (λ c, is_gimme c = true) gimmes → Forall other mid →
  Forall (λ c, is_uvfile c = true ∧ meek c) uvs → Forall other post →
  spends is_file file_size b files → spends is_uvfile uvfile_size b uvs → (zlen gimmes ≤ m)%Z →
  let cards := pre ++ files ++ gimmes ++ mid ++ uvs ++ post in
  spends is_file file_size b cards ∧ spends is_uvfile uvfile_size b cards ∧
  (zlen (filter (λ c, is_gimme c = true) cards) ≤ m)%Z.
Proof.
  intros H1 H2 H3 H4 H5 H6 Hf Hu Hm cards.
  assert (∀ (P Q : Card → Prop) l, Forall P l → (∀ c, P c → Q c) → Forall Q l) as Hi.
  { intros P Q l H HPQ. by eapply Forall_impl; [exact H|]. }
  assert (∀ c, is_gimme c = true → is_file c = false ∧ is_uvfile c = false) as Hg by by intros [].
  assert (∀ c, is_uvfile c = true → is_file c = false ∧ is_gimme c = false) as Hv by by intros [].
  split_and!.
  - unfold cards. apply spends_among; [eapply Hi; [exact H1|by intros c []]| |done].
    repeat (apply Forall_app; split).
    + eapply Hi; [exact H3|]. intros c Hc. by apply Hg.
    + by eapply Hi; [exact H4|]; intros c [].
    + eapply Hi; [exact H5|]. intros c [Hc _]. by apply Hv.
    + by eapply Hi; [exact H6|]; intros c [].
  - unfold cards. rewrite !app_assoc, <- (app_assoc _ uvs post). apply spends_among; [| |done].
    + repeat (apply Forall_app; split).
      * by eapply Hi; [exact H1|]; intros c (? & ? & ?).
      * by eapply Hi; [exact H2|]; intros c [].
      * eapply Hi; [exact H3|]. intros c Hc. by apply Hg.
      * by eapply Hi; [exact H4|]; intros c (? & ? & ?).
    + by eapply Hi; [exact H6|]; intros c (? & ? & ?).
  - assert (∀ l, Forall (λ c, is_gimme c = false) l → filter (λ c, is_gimme c = true) l = []) as Hn.
    { induction 1 as [|c l Hc _ IH]; [done|]. by rewrite filter_cons_False by (rewrite Hc; done). }
    unfold cards. rewrite !filter_app.
    rewrite (Hn pre), (Hn files), (Hn mid), (Hn uvs), (Hn post); cbn [app]; rewrite ?app_nil_r.
    + etrans; [|exact Hm]. unfold zlen. pose proof (length_filter (λ c, is_gimme c = true) gimmes). lia.
    + by eapply Hi; [exact H6|]; intros c (? & ? & ?).
    + eapply Hi; [exact H5|]. intros c [Hc _]. by apply Hv.
    + by eapply Hi; [exact H4|]; intros c (? & ? & ?).
    + by eapply Hi; [exact H2|]; intros c [].
    + by eapply Hi; [exact H1|]; intros c (? & ? & ?).
Qed.

Lemma mode_cards_plain s cards : mode_cards opts s = Ret cards → Forall (λ c, other c ∧ meek c) cards.
Proof.
  unfold mode_cards. cbv zeta. destruct (_ && _); [done|]. intros [= <-].
  apply Forall_app; split; [destruct (so_Push opts)|destruct (so_Pull opts)]; by repeat constructor.
Qed.

Lemma announcements_other cycle s : frame s (announcements opts cycle s).1 ∧ Forall other (announcements opts cycle s).2.
Proof.
  unfold announcements. cbv zeta. split; [by apply frame_field|].
  assert (∀ b l, Forall other (igots b l)) as Hi.
  { intros b l. apply Forall_forall. intros c (u & -> & _)%list_elem_of_fmap. done. }
  repeat (apply Forall_app; split); [apply Hi|destruct (_ && _); [apply Hi|done]|].
  destruct (_ && _); by repeat constructor.
Qed.

Lemma private_cards_other s : frame s (private_cards opts s).1 ∧ Forall other (private_cards opts s).2 ∧
  fine (s_blobs s) s (private_cards opts s).2.
Proof.
  unfold private_cards. destruct (so_Private opts) eqn:Hp; [|split_and!; [done|done|by apply fine_meek]].
  cbv zeta. split_and!; [by apply frame_field| |].
  - constructor; [done|]. apply Forall_forall. intros c (u & -> & _)%list_elem_of_fmap. done.
  - split; [|by rewrite Hp]. intros _ _. constructor; [done|].
    apply Forall_forall. intros c (u & -> & _)%list_elem_of_fmap. done.
Qed.

Lemma lock_cards_plain cycle : Forall (λ c, other c ∧ meek c) (lock_cards opts cycle).
Proof.
  unfold lock_cards. destruct (so_CkinLock opts) as [l|] eqn:Hl; [|done]. destruct (_ =? _); [|done].
  constructor; [|done]. split; [done|]. exists l. by rewrite Hl.
Qed.

Lemma uv_gimme_cards_plain s : frame s (uv_gimme_cards opts s).1 ∧
  Forall (λ c, other c ∧ meek c) (uv_gimme_cards opts s).2.
Proof.
  unfold uv_gimme_cards. destruct (so_UV opts); [|done]. cbv zeta. split; [by apply frame_field|].
  apply Forall_forall. intros c (u & -> & _)%list_elem_of_fmap. done.
Qed.

Lemma uv_file_cards_spec s :
  match uv_file_cards opts s with
  | Ret (s', cards) => frame s s' ∧ Forall (λ c, is_uvfile c = true ∧ meek c) cards ∧
      spends is_uvfile uvfile_size (maxSend opts) cards
  | Fail (s', _) => frame s s'
  | _ => True
  end.
Proof.
  unfold uv_file_cards. destruct (_ && _); [|split_and!; [done|done|apply spends_nil]].
  unfold buildUVFileCards. pose proof (uv_cards_spec (any_order (map_to_list (default ∅ (us_toSend (s_uv s))))) (maxSend opts) s) as H.
  destruct (uv_cards _ _ s) as [[s1 c]|[s1 e]| |]; try done. destruct H as (H1 & H2 & H3). cbn.
  split_and!; [|done|done]. etrans; [exact H1|by apply frame_field].
Qed.

Record requested (s s' : session) (cards : list Card) : Prop := {
  rq_frame : frame s s';
  rq_fine : fine (s_blobs s) s cards;
  rq_files : spends is_file file_size (maxSend opts) cards;
  rq_uv : spends is_uvfile uvfile_size (maxSend opts) cards;
  rq_gimmes : (zlen (filter (λ c, is_gimme c = true) cards) ≤ max_gimme s)%Z
}.

Lemma both_plain l : Forall (λ c, other c ∧ meek c) l → Forall other l ∧ Forall meek l.
Proof. intros H. by split; (eapply Forall_impl; [exact H|]; intros c []). Qed.

Lemma buildGimmeCards_spec s cards : buildGimmeCards opts s = Ret cards →
  Forall (λ c, is_gimme c = true) cards ∧ (zlen cards ≤ max_gimme s)%Z ∧ ∀ s', fine (s_blobs s) s' cards.
Proof.
  assert (0 ≤ max_gimme s)%Z as H0 by (unfold max_gimme, MaxGimmeBase; lia).
  unfold buildGimmeCards. destruct (negb _); [intros [= <-]; split_and!; [done|by unfold zlen|by intros; split]|].
  intros H. apply gimme_cards_spec in H as [H1 H2]; [|done]. split_and!; [|done|].
  - eapply Forall_impl; [exact H1|]. by intros c [].
  - intros s'. split; intros; (eapply Forall_impl; [exact H1|]); intros c [Hg Hk]; [by destruct c|by apply Hk].
Qed.

Lemma uv_meek l : Forall (λ c, is_uvfile c = true ∧ meek c) l → Forall meek l.
Proof. intros H. eapply Forall_impl; [exact H|]. by intros c []. Qed.

Lemma buildRequest_spec now rb cycle s :
  match buildRequest opts now rb cycle s with
  | Ret (s', cards) => requested s s' cards
  | Fail (s', _) => frame s s'
  | _ => True
  end.
Proof.
  unfold buildRequest. cbv zeta.
  set (s0 := if bool_decide (s_projectCode s = []) then _ else s).
  assert (frame s s0) as F0 by (unfold s0; case_bool_decide; [by apply frame_field|done]). clearbody s0.
  destruct (mode_cards opts s0) as [modeCards|e| |] eqn:E1; cbn [mbind outcome_bind at_s wrap_err]; try done.
  apply mode_cards_plain, both_plain in E1 as [M1 M2].
  set (cookie := if bool_decide (s_cookie s0 = []) then _ else _).
  assert (Forall other cookie ∧ Forall meek cookie) as [K1 K2] by (unfold cookie; case_bool_decide; by repeat constructor).
  destruct (announcements_other cycle s0) as [F1 A1]. pose proof (announcements_fine cycle s0) as A2.
  destruct (announcements opts cycle s0) as [s1 igotCards]. cbn [fst snd] in F1, A1, A2.
  assert (frame s s1) as G1 by by etrans. apply (fine_frame _ _ _ F0) in A2.
  assert (match buildFileCards opts s1 with
    | Ret (s', cards) => frame s1 s' ∧ fine (s_blobs s1) s1 cards ∧ spends is_file file_size (maxSend opts) cards ∧
        Forall (λ c, is_uvfile c = false ∧ is_gimme c = false) cards
    | Fail (s', _) => frame s1 s' | _ => True end) as HF.
  { unfold buildFileCards. destruct (negb _); [split_and!; [done|by split|apply spends_nil|done]|]. apply file_cards_spec. }
  destruct (buildFileCards opts s1) as [[s2 fileCards]|[s2 e]| |]; cbn [mbind outcome_bind]; try done; [|by etrans].
  destruct HF as (F2 & B1 & B2 & B3). apply (fine_frame _ _ _ G1) in B1.
  assert (frame s s2) as G2 by by etrans.
  destruct (buildGimmeCards opts s2) as [gimmeCards|e| |] eqn:E3; cbn [mbind outcome_bind at_s wrap_err]; try done.
  apply buildGimmeCards_spec in E3 as (C1 & C2 & C3). rewrite (fr_blobs _ _ G2) in C3.
  destruct (private_cards_other s2) as (F3 & D1 & D2).
  destruct (private_cards opts s2) as [s3 privCards]. cbn [fst snd] in F3, D1, D2.
  apply (fine_frame _ _ _ G2) in D2. assert (frame s s3) as G3 by by etrans.
  pose proof (uv_hash_cards_quiet now s3) as H4.
  destruct (uv_hash_cards opts now s3) as [[s4 hashCards]|[s4 e]| |]; cbn [mbind outcome_bind]; try done; [|by etrans; [exact G3|]].
  destruct H4 as [F4 [N1 N2]%both_plain]. assert (frame s s4) as G4 by by etrans.
  destruct (uv_gimme_cards_plain s4) as [F5 [U1 U2]%both_plain].
  destruct (uv_gimme_cards opts s4) as [s5 uvGimmes]. cbn [fst snd] in F5, U1, U2.
  assert (frame s s5) as G5 by by etrans.
  pose proof (uv_file_cards_spec s5) as H6.
  destruct (uv_file_cards opts s5) as [[s6 uvFiles]|[s6 e]| |]; cbn [mbind outcome_bind]; try done; [|by etrans; [exact G5|]].
  destruct H6 as (F6 & V1 & V2). assert (frame s s6) as G6 by by etrans.
  assert (quiet_cards s6 (if so_XTableSync opts then buildXTableCards s6 else Ret (s6, []))) as H7.
  { destruct (so_XTableSync opts); [apply buildXTableCards_quiet|by split]. }
  destruct (if so_XTableSync opts then _ else _) as [[s7 tableCards]|[s7 e]| |]; cbn [mbind outcome_bind]; try done;
    [|by etrans; [exact G6|]].
  destruct H7 as [F7 [T1 T2]%both_plain]. assert (frame s s7) as G7 by by etrans.
  destruct (both_plain _ (lock_cards_plain cycle)) as [L1 L2].
  set (pre := Clone.client_version :: modeCards ++ cookie ++ igotCards).
  set (mid := privCards ++ lock_cards opts cycle ++ hashCards ++ uvGimmes).
  set (cards := Clone.client_version :: _).
  assert (cards = pre ++ fileCards ++ gimmeCards ++ mid ++ uvFiles ++ tableCards) as Ecards.
  { unfold cards, pre, mid. cbn [app]. by rewrite <- !app_assoc. }
  assert (requested s s7 cards) as Hreq.
  { destruct (request_kinds (maxSend opts) (max_gimme s2) pre fileCards gimmeCards mid uvFiles tableCards) as (R1 & R2 & R3);
      [by constructor; [|repeat (apply Forall_app; split)]|done|done|by repeat (apply Forall_app; split)|done..|].
    rewrite <- Ecards in R1, R2, R3. split; [done| |done|done|].
    - unfold cards. apply (fine_app _ _ [_]); [by apply fine_meek; repeat constructor|].
      repeat apply fine_app; try done; apply fine_meek; try done. by eapply uv_meek.
    - etrans; [exact R3|]. unfold max_gimme. by rewrite (fr_last _ _ G2). }
  clearbody cards. clear - Hreq G7. case_bool_decide; [done|].
  destruct (buildLoginCard _ _ _ _) as [login|e| |]; cbn [mbind outcome_bind at_s wrap_err]; try done.
  destruct Hreq as [Q1 Q2 Q3 Q4 Q5]. split; [done|apply (fine_app _ _ [_]); [by apply fine_meek; repeat constructor|done]| | |].
  - by apply spends_skip.
  - by apply spends_skip.
  - by rewrite filter_cons_False.
Qed.
End requests.

(** ** Responses *)

(** Encoding a list of columns keeps identifiers what they are. *)
Class JsonLaws `{Json} : Prop := {
  json_cols_names : ∀ cols cols', Forall (λ c, validName (cd_Name c) = true) cols →
    json_cols (json_of_cols cols) = Some cols' → Forall (λ c, validName (cd_Name c) = true) cols'
}.

Section responses.
Context {codec : Zlib} {zlaws : ZlibLaws} {sha3 : Sha3} {sqlite : Sqlite} {sql : Sql} {exec : SqlExecLaws}
  {floats : Floats} {json : Json} {jlaws : JsonLaws} {order : Unordered} {unicode : Unicode}.
Context (opts : SyncOpts).

(** *** Artifacts *)

Lemma good_same s s' :
  t_blob (s_blobs s') = t_blob (s_blobs s) → t_delta (s_blobs s') = t_delta (s_blobs s) → s_cache s' = s_cache s →
  links_kept (s_repo s) (s_repo s') → (tables_ok s → tables_ok s') → good s s'.
Proof.
  intros Hb Hd Hc Hl Ht. pose proof (same_tables_retains _ _ Hb Hd) as Hr. split; [apply Hr| |done|done].
  intros _ Ho Hco. split_and!; [by apply (repo_ok_ext (s_blobs s))|rewrite Hc; by eapply coherent_retains|done].
Qed.

Lemma tables_ok_blobs q s : tables_ok s → tables_ok (set_blobs q s).
Proof. by intros []; split. Qed.

Lemma good_private s f : good s (set_blobs (with_private f (s_blobs s)) s).
Proof. apply good_same; try done. apply tables_ok_blobs. Qed.

Lemma loadDBPhantoms_frame s : frame s (loadDBPhantoms opts s).
Proof. unfold loadDBPhantoms. destruct (negb _); [done|]. cbv zeta. by apply frame_field. Qed.

Lemma handleFileCard_good s uuid src payload : leads good id s (handleFileCard opts s uuid src payload).
Proof.
  unfold handleFileCard. destruct (storeReceivedFile _ _ _ _ _) as [[cache q]|[cache e]| |] eqn:Hst; try done; cbn.
  - set (s1 := set_blobs q _). transitivity s1; [|apply frame_good, loadDBPhantoms_frame].
    split; [by eapply storeReceivedFile_frame| |done|by intros []; split].
    intros Hsm Ho Hc. destruct (storeReceivedFile_ok _ _ _ _ _ _ _ Ho Hc Hst Hsm) as (O1 & O2 & O3 & _). by split_and!.
  - apply frame_good. split; try done; [|by intros []; split]. intros Hc. by eapply storeReceivedFile_failed.
Qed.

Lemma private_leads s b rid :
  leads good id s (q ← at_s s (in_repo (if b : bool then MakePrivate (s_blobs s) rid else MakePublic (s_blobs s) rid));
                   Ret (set_blobs q s)).
Proof. unfold MakePrivate, MakePublic. destruct b, (rid <=? 0)%Z; cbn; try done; apply good_private. Qed.

Lemma applyPrivateStatus_good s uuid : leads good id s (applyPrivateStatus s uuid).
Proof.
  unfold applyPrivateStatus. apply leads_at; [apply _|done|]. intros found _. destruct (s_nextIsPrivate s).
  - pose proof (private_leads s true (default 0%Z found)) as H. cbn iota in H.
    destruct (MakePrivate _ _) as [q|e| |]; cbn in *; try done. etrans; [exact H|]. by apply frame_good, frame_field.
  - destruct found as [rid|]; [|cbn; reflexivity]. exact (private_leads s false rid).
Qed.

Lemma receive_file_good s uuid src payload : leads good id s (receive_file opts s uuid src payload).
Proof.
  unfold receive_file. apply (leads_bind _ id id); [apply handleFileCard_good|]. intros s1 _ _.
  apply (leads_bind _ id id); [apply applyPrivateStatus_good|]. intros s2 _ _. cbn. by apply frame_good, frame_field.
Qed.

Lemma handle_igot_good s c : leads good id s (handle_igot opts s c).
Proof.
  unfold handle_igot. cbv zeta. set (s1 := on_s_remoteHas _ s).
  assert (good s s1) as H1 by by apply frame_good, frame_field.
  eapply (leads_from good); [exact H1|]. apply leads_at; [apply _|done|]. intros [rid|] _; [apply private_leads|].
  destruct (_ && _); cbn; [|reflexivity]. by apply frame_good, frame_field.
Qed.

(** *** Unversioned files *)

(** Only unversioned files and configuration are written. *)
Definition uv_only (d d' : db) : Prop :=
  on_uv (λ _, None) (on_config (λ _, ∅) d') = on_uv (λ _, None) (on_config (λ _, ∅) d).

Lemma uv_only_frame s d : uv_only (s_repo s) d → frame s (set_db d s).
Proof.
  intros H. apply frame_db; [by apply (f_equal d_repo) in H| |by apply (f_equal d_schema) in H].
  split; [by apply (f_equal d_links) in H|by apply (f_equal d_leaf) in H].
Qed.

Lemma uv_exec_only f d d' : uv_exec f d = Ret d' → uv_only d (Uv.InvalidateHash d').
Proof. intros (t & _ & ->)%uv_exec_frame. done. Qed.

Lemma uv_ops_only d name content mtime d' :
  Uv.Delete d name mtime = Ret d' ∨ Uv.Write d name content mtime = Ret d' ∨
  Uv.SetMTime d name mtime = Ret d' ∨ Uv.DropRow d name = Ret d' → uv_only d d'.
Proof.
  intros [H|[H|[H|H]]]; revert H.
  - unfold Uv.Delete. case_bool_decide; [done|]. intros Hd. apply bind_ret_inv in Hd as (d1 & H1 & Hd).
    injection Hd as <-. by eapply uv_exec_only.
  - unfold Uv.Write. case_bool_decide; [done|]. destruct content as [c|]; [|done]. intros Hd.
    apply bind_ret_inv in Hd as (h & _ & Hd). destruct (encode_content c) as [enc stored].
    apply bind_ret_inv in Hd as (d1 & H1 & Hd). injection Hd as <-. by eapply uv_exec_only.
  - unfold Uv.SetMTime. intros H. apply bind_ret_inv in H as (d1 & H1 & H). injection H as <-. by eapply uv_exec_only.
  - unfold Uv.DropRow. intros H. apply bind_ret_inv in H as (d1 & H1 & H). injection H as <-. by eapply uv_exec_only.
Qed.

Lemma uv_op_frame s (m : out db) :
  (∀ d, m = Ret d → uv_only (s_repo s) d) → leads frame id s (d ← at_s s m; Ret (set_db d s)).
Proof. intros H. apply leads_at; [apply _|done|]. intros d Hd. cbn. by apply uv_only_frame, H. Qed.

Lemma EnsureSchema_frame s : frame s (on_s_repo Uv.EnsureSchema s).
Proof. split; try done. by intros []; split. Qed.

Lemma handleUVIGotCard_frame s c : leads frame id s (handleUVIGotCard s c).
Proof.
  unfold handleUVIGotCard. cbv zeta. eapply (leads_from frame); [apply EnsureSchema_frame|]. set (s1 := on_s_repo _ s).
  apply leads_at; [apply _|done|]. intros [[x localMtime] localHash] _.
  assert (∀ f, frame s1 (on_toSend f s1)) as Ht by (intros f; by apply frame_field).
  destruct (_ || _).
  - destruct (negb _).
    + set (s2 := on_uvGimmes _ _). assert (frame s1 s2) as H2 by by apply frame_field.
      eapply (leads_from frame); [exact H2|]. apply uv_op_frame. intros d Hd. eapply (uv_ops_only _ _ None 0). eauto.
    + destruct (_ =? 1)%Z; [|apply Ht]. eapply (leads_from frame); [apply Ht|].
      apply uv_op_frame. intros d Hd. eapply (uv_ops_only _ _ None). eauto.
  - destruct (_ =? 2)%Z; [apply uv_op_frame; intros d Hd; eapply (uv_ops_only _ _ None); eauto|].
    destruct (_ =? 3)%Z; [apply Ht|]. destruct (_ || _); [|cbn; reflexivity].
    destruct (us_pullOnly _); [apply Ht|]. unfold queue_uv. destruct (us_toSend _); [apply Ht|done].
Qed.

Lemma handleUVFileCard_frame s c : leads frame id s (handleUVFileCard s c).
Proof.
  unfold handleUVFileCard. cbv zeta. eapply (leads_from frame); [apply EnsureSchema_frame|]. set (s1 := on_s_repo _ s).
  apply (leads_bind _ (λ _, s1) id).
  { destruct (_ =? 0)%Z; [|cbn; reflexivity]. destruct (uf_Content c); [|done].
    apply leads_at; [apply _|done|]. intros h _. cbn. reflexivity. }
  intros g _ _. destruct (negb g); [cbn; reflexivity|]. apply leads_at; [apply _|done|].
  intros [[x localMtime] localHash] _. destruct (2 <=? _)%Z; [cbn; reflexivity|]. case_bool_decide.
  - apply uv_op_frame. intros d Hd. eapply (uv_ops_only _ _ None). eauto.
  - destruct (uf_Content c) as [content|]; [|cbn; reflexivity].
    apply uv_op_frame. intros d Hd. eapply (uv_ops_only _ _ (Some content)). eauto.
Qed.

(** *** Synchronised tables *)

Lemma ListSyncedTables_valid d infos : registry_ok d → ListSyncedTables d = Ret infos →
  Forall (λ i, validName (ti_Name i) = true ∧ valid_def (ti_Def i)) infos.
Proof.
  intros Hr. unfold ListSyncedTables. destruct (d_schema d) as [t|] eqn:E; [|done]. intros Hi.
  apply table_infos_valid in Hi; [done|]. intros [name row]. rewrite sort_slice_perm.
  intros Hp%elem_of_map_to_list. by apply (Hr t).
Qed.

Lemma cached_valid (infos : list TableInfo) (m : gmap bytes TableDef) :
  Forall (λ i, validName (ti_Name i) = true ∧ valid_def (ti_Def i)) infos →
  map_Forall (λ name def, validName name = true ∧ valid_def def) m →
  map_Forall (λ name def, validName name = true ∧ valid_def def)
    (foldl (λ m info, <[ti_Name info := ti_Def info]> m) m infos).
Proof.
  intros Hi. revert m. induction Hi as [|i infos Hd _ IH]; intros m Hm; cbn; [done|]. apply IH.
  by apply map_Forall_insert_2.
Qed.

(** The definition that is found has identifiers for names. *)
Lemma getXTableDef_spec s t : tables_ok s →
  match getXTableDef s t with
  | Ret (s', def) => frame s s' ∧ (∀ d, def = Some d → validName t = true ∧ valid_def d)
  | Fail (s', _) => frame s s'
  | _ => True
  end.
Proof.
  intros [T1 T2]. unfold getXTableDef. destruct (xs_cache (s_x s) ≫= λ m, m !! t) as [def|] eqn:E.
  - split; [done|]. intros d [= <-]. destruct (xs_cache (s_x s)) as [m|]; [|done]. exact (T2 m eq_refl t def E).
  - destruct (ListSyncedTables _) as [tables|e| |] eqn:El; cbn [mbind outcome_bind at_s wrap_err]; try done.
    apply ListSyncedTables_valid in El; [|done]. cbv zeta.
    pose proof (cached_valid tables ∅ El (map_Forall_empty _)) as Hm. split; [|intros d Hd; by apply Hm in Hd].
    split; try done. intros _. split; [done|]. cbn. by intros m [= <-].
Qed.

Lemma Register_registry d name def mtime d' e :
  registry_ok d → RegisterSyncedTable d name def mtime = Ret (d', e) → registry_ok d'.
Proof.
  intros Hr H. unfold RegisterSyncedTable in H.
  match type of H with match ?m with _ => _ end = _ => destruct m as [u|e0| |] eqn:Hv end;
    [|by injection H as <- <-|done..].
  assert (validName name = true ∧ Forall (λ c, validName (cd_Name c) = true) (td_Columns def)) as [Hn Hd].
  { apply bind_ret_inv in Hv as ([] & Hn & Hv). apply bind_ret_inv in Hv as ([] & _ & Hv).
    apply bind_ret_inv in Hv as ([] & Hc & _). split.
    - revert Hn. unfold ValidateTableName. case_bool_decide; [done|]. by destruct (validName name).
    - clear -Hc. revert Hc. induction (td_Columns def) as [|c cols IH]; [done|].
      cbn [validate_columns]. intros Hc. apply bind_ret_inv in Hc as ([] & Hc & Hc').
      constructor; [|by apply IH]. revert Hc. unfold ValidateColumnName. case_bool_decide; [done|].
      by destruct (validName (cd_Name c)). }
  destruct (d_schema d) as [t|] eqn:Et; [|by injection H as <- <-]. cbv zeta in H.
  set (d1 := on_schema _ d) in *. assert (registry_ok d1) as H1.
  { intros t' n row. cbn. intros [= <-] [[<- <-]|[_ Hrow]]%lookup_insert_Some; [|by eapply Hr].
    split; [done|]. cbn. intros cols. by apply json_cols_names. }
  destruct (createExtensionTable d1 name def) as [d2|e2| |] eqn:Hcr; try done; injection H as <- <-; [|done].
  revert Hcr. unfold createExtensionTable.
  destruct (negb (forallb _ _)); [done|]. destruct (negb (existsb _ _)); [done|].
  destruct (d_x d1 !! name); [by intros [= <-]|]. destruct (negb (ddl_ok _)); [done|]. by intros [= <-].
Qed.

Lemma handleXSchemaCard_frame s c : leads frame id s (handleXSchemaCard s c).
Proof.
  unfold handleXSchemaCard. destruct (json_def _) as [def|]; [|cbn; reflexivity]. cbv zeta.
  eapply (leads_from frame); [apply EnsureSyncSchema_frame|]. set (s1 := on_s_repo _ s).
  apply leads_at; [apply _|done|]. intros [d failed] Hr.
  assert (frame s1 (set_db d s1)) as F.
  { pose proof Hr as (He & _ & _)%RegisterSyncedTable_frame. split; try done.
    - by apply (f_equal d_repo) in He.
    - split; [by apply (f_equal d_links) in He|by apply (f_equal d_leaf) in He].
    - intros [T1 T2]. split; [by eapply Register_registry|done]. }
  by destruct failed.
Qed.

Lemma x_only_frame s d : x_only (s_repo s) d → frame s (set_db d s).
Proof.
  intros H. pose proof (x_only_repo _ _ H) as [H1 H2]. apply frame_db; [done|done|].
  by apply (f_equal d_schema) in H.
Qed.

Lemma handleXIGotResponse_frame s c : tables_ok s → leads frame id s (handleXIGotResponse s c).
Proof.
  intros Ht. unfold handleXIGotResponse. cbv zeta. eapply (leads_from frame); [apply EnsureSyncSchema_frame|].
  pose proof (fr_tables _ _ (EnsureSyncSchema_frame s) Ht) as Ht1. set (s1 := on_s_repo _ s) in *.
  apply (leads_bind _ fst id).
  { pose proof (getXTableDef_spec s1 (xi_Table c) Ht1) as H. destruct (getXTableDef _ _) as [[s2 d]|[s2 e]| |]; try done. apply H. }
  intros [s2 [def|]] _ _; cbn [fst]; [|cbn; reflexivity]. apply leads_at; [apply _|done|].
  intros [[row m]|] _; cbn; [|apply frame_xGimmes]. destruct (_ <? _)%Z; [apply frame_xToSend|reflexivity].
Qed.

(** What a server must not send: rows whose table or columns have names that are
    not identifiers, which are pasted into the statement that stores the row. *)
Definition clean_response (c : Card) : Prop :=
  HandlerSafety.clean c ∧ match c with CardXRow c => validName (xr_Table c) = true | _ => True end.

Lemma handleXRowResponse_frame s c : tables_ok s → clean_response (CardXRow c) → leads frame id s (handleXRowResponse s c).
Proof.
  intros Ht [Hcl Hn]. unfold handleXRowResponse. cbv zeta. eapply (leads_from frame); [apply EnsureSyncSchema_frame|].
  pose proof (fr_tables _ _ (EnsureSyncSchema_frame s) Ht) as Ht1. set (s1 := on_s_repo _ s) in *.
  apply (leads_bind _ fst id).
  { pose proof (getXTableDef_spec s1 (xr_Table c) Ht1) as H. destruct (getXTableDef _ _) as [[s2 d]|[s2 e]| |]; try done. apply H. }
  intros [s2 def] _ _. cbn [fst]. destruct (json_row _) as [row|] eqn:Hrow; [|cbn; reflexivity].
  assert (∀ r, row = Some r → valid_keys r) as Hk by (intros r ->; by apply Hcl).
  assert (∀ r d, match def with Some def => coerceJSONNumbers row def | None => match row with Some row => Ret row | None => Panic end end = Ret r →
    UpsertXRow (s_repo s2) (xr_Table c) r (xr_MTime c) = Ret d → frame s2 (set_db d s2)) as Hu.
  { intros r d Hr Hd. apply x_only_frame. eapply UpsertXRow_frame; [done| |exact Hd].
    destruct row as [row|]; [|by destruct def]. destruct def as [def|]; [|injection Hr as <-; by apply Hk].
    eapply coerce_valid; [|exact Hr]. by apply Hk. }
  assert (∀ r, match def with Some def => coerceJSONNumbers row def | None => match row with Some row => Ret row | None => Panic end end = Ret r →
    leads frame id s2 (d ← at_s s2 (UpsertXRow (s_repo s2) (xr_Table c) r (xr_MTime c));
      Ret (on_xGimmes (forget_row (xr_Table c) (xr_PKHash c)) (set_db d s2)))) as Hfin.
  { intros r Hr. apply leads_at; [apply _|done|]. intros d Hd. cbn.
    transitivity (set_db d s2); [by eapply Hu|apply frame_xGimmes]. }
  destruct def as [def|].
  - apply leads_at; [apply _|done|]. intros r Hr. by apply Hfin.
  - destruct row as [row|]; [|done]. cbn [mbind outcome_bind]. by apply Hfin.
Qed.

Lemma handleXDeleteResponse_frame s c : tables_ok s → clean_response (CardXDelete c) →
  leads frame id s (handleXDeleteResponse s c).
Proof.
  intros Ht [Hcl _]. unfold handleXDeleteResponse. cbv zeta. eapply (leads_from frame); [apply EnsureSyncSchema_frame|].
  pose proof (fr_tables _ _ (EnsureSyncSchema_frame s) Ht) as Ht1. set (s1 := on_s_repo _ s) in *.
  pose proof (getXTableDef_spec s1 (xd_Table c) Ht1) as Hg.
  destruct (getXTableDef s1 (xd_Table c)) as [[s2 [def|]]|[s2 e]| |]; cbn [mbind outcome_bind]; try done; [|apply Hg].
  destruct Hg as [F Hd]. destruct (Hd def eq_refl) as [Hn Hdef]. eapply (leads_from frame); [exact F|].
  apply leads_at; [apply _|done|]. intros d Ha. cbn. transitivity (set_db d s2); [|apply frame_xGimmes].
  apply x_only_frame. eapply applyXDeleteLocally_frame; [done|done| |exact Ha]. exact Hcl.
Qed.

(** *** Cards *)

Lemma leads_only s m (a b : Z) : leads good id s m →
  leads good (λ p, p.1.1) s (s ← m; Ret (s, a, b)).
Proof. intros H. destruct m as [s1|[s1 e]| |]; done. Qed.

Lemma process_card_good s a b c : tables_ok s → clean_response c →
  leads good (λ p, p.1.1) s (process_card opts (s, a, b) c).
Proof.
  intros Ht Hc.
  assert (∀ m, leads frame id s m → leads good id s m) as Hw by (intros m; apply leads_weaken, frame_good).
  assert (∀ s', s_repo s' = s_repo s → s_cache s' = s_cache s → s_x s' = s_x s →
    s_filesRecvdLastRound s' = s_filesRecvdLastRound s → good s s') as Hf by (intros; by apply frame_good, frame_field).
  destruct c; cbn [process_card]; try (by cbn; reflexivity); try (by apply Hf).
  - apply (leads_bind _ id (λ p, p.1.1)); [apply receive_file_good|]. intros s1 _ _. cbn. reflexivity.
  - apply (leads_bind _ id (λ p, p.1.1)); [apply receive_file_good|]. intros s1 _ _. cbn. reflexivity.
  - apply leads_only, handle_igot_good.
  - apply leads_only, Hw. destruct (so_UV opts); [|cbn; reflexivity].
    apply (leads_bind _ id id); [apply handleUVFileCard_frame|]. intros s1 _ _. cbn. by apply frame_field.
  - cbn. destruct (so_UV opts); [by apply Hf|done].
  - apply leads_only, Hw. destruct (so_UV opts); [apply handleUVIGotCard_frame|cbn; reflexivity].
  - cbn. unfold process_pragma. repeat (case_bool_decide; [by apply Hf|]). destruct (_ && _); by apply Hf.
  - apply leads_only, Hw, handleXSchemaCard_frame.
  - apply leads_only, Hw. by apply handleXIGotResponse_frame.
  - apply leads_only, Hw. cbn. apply frame_xToSend.
  - apply leads_only, Hw. by apply handleXRowResponse_frame.
  - apply leads_only, Hw. by apply handleXDeleteResponse_frame.
Qed.

Lemma process_loop_good cards : ∀ p, tables_ok p.1.1 → Forall clean_response cards →
  leads good (λ p, p.1.1) p.1.1 (process_loop opts cards p).
Proof.
  induction cards as [|c cards IH]; intros [[s a] b] Ht Hc; cbn [process_loop]; [cbn; reflexivity|].
  apply list.Forall_cons in Hc as [Hc Hcs].
  apply (leads_bind _ (λ p, p.1.1) (λ p, p.1.1)); [by apply process_card_good|].
  intros p _ Hg. apply IH; [by apply (go_tables _ _ Hg)|done].
Qed.

Lemma uv_converged_frame s : frame s (uv_converged opts s).1.
Proof.
  unfold uv_converged. destruct (negb _); [by apply frame_field|]. cbv zeta.
  destruct (_ && _); [by apply frame_field|]. destruct (_ && _); [done|].
  set (s1 := if negb _ then on_toSend _ s else s).
  assert (frame s s1) as F by (unfold s1; destruct (negb _); [by apply frame_field|done]).
  clearbody s1. destruct (negb _); [exact F|]. cbn. etrans; [exact F|by apply frame_field].
Qed.

Lemma converged_frame a b s : frame s (converged opts a b s).1.
Proof.
  unfold converged. destruct (_ || _); [done|]. destruct (_ || _); [done|]. cbv zeta.
  set (s1 := if (0 <? _)%Z then _ else s).
  assert (frame s s1) as F1.
  { unfold s1. destruct (0 <? _)%Z; [|done]. split; try done. by intros []; split. }
  clearbody s1. destruct (negb _); [done|]. pose proof (uv_converged_frame s1) as F2.
  destruct (uv_converged opts s1) as [s2 uvDone]. cbn [fst] in F2.
  destruct (negb uvDone); [by etrans|]. destruct (_ && _); by etrans.
Qed.

Lemma processResponse_good cards s : tables_ok s → Forall clean_response cards →
  leads good fst s (processResponse opts cards s).
Proof.
  intros Ht Hc. unfold processResponse. pose proof (process_loop_good cards (s, 0%Z, 0%Z) Ht Hc) as H.
  cbn [fst] in H. apply (leads_bind _ (λ p, p.1.1) fst _ _ _ H). intros [[s1 a] b] _ _. cbn [fst leads].
  etrans; [|apply frame_good, converged_frame]. set (s2 := on_s_filesRecvdLastRound _ _).
  transitivity s2; [|by apply frame_good, frame_field].
  apply good_same; try done. by intros []; split.
Qed.
End responses.

(** ** Sessions with a server that may answer anything *)

Section rounds.
Context {codec : Zlib} {zlaws : ZlibLaws} {sha3 : Sha3} {sqlite : Sqlite} {sql : Sql} {exec : SqlExecLaws}
  {floats : Floats} {json : Json} {jlaws : JsonLaws} {order : Unordered} {olaws : UnorderedLaws} {unicode : Unicode}.
Context (opts : SyncOpts) (clock : nat → Z) (rnd : nat → bytes).
(** What the server answers to the requests it has seen, the last one included. *)
Context (answer : list (list Card) → out (list Card)).
Context (Hclean : ∀ seen resp, answer seen = Ret resp → Forall clean_response resp).

Definition any_server (seen : list (list Card)) (req : list Card) : out (list (list Card) * list Card) :=
  resp ← answer (seen ++ [req]); Ret (seen ++ [req], resp).

(** The number of files in the last response. *)
Definition last_files (seen : list (list Card)) : Z :=
  match answer seen with
  | Ret resp => if decide (seen = []) then 0 else zlen (filter (λ c, is_file c = true) resp)
  | _ => 0
  end.

(** A request within its limits, when [seen] came before it. *)
Record limited (seen : list (list Card)) (req : list Card) : Prop := {
  li_files : spends is_file file_size (maxSend opts) req;
  li_uv : spends is_uvfile uvfile_size (maxSend opts) req;
  li_gimmes : (zlen (filter (λ c, is_gimme c = true) req) ≤ Z.max MaxGimmeBase (last_files seen * 2))%Z
}.

Record kept_up (s0 : session) (seen : list (list Card)) (s : session) : Prop := {
  ku_good : good s0 s;
  ku_genuine : small (s_blobs s) → repo_ok (s_blobs s0) → coherent (s_cache s0) (s_blobs s0) →
    Forall (Forall (genuine (s_blobs s))) seen;
  ku_limited : ∀ i req, seen !! i = Some req → limited (take i seen) req
}.

Lemma process_card_count s a b c s' a' b' : process_card opts (s, a, b) c = Ret (s', a', b') →
  a' = (a + if is_file c then 1 else 0)%Z.
Proof.
  assert (∀ m : stepped session, (s ← m; Ret (s, a, b)) = Ret (s', a', b') → a' = a) as Hb.
  { intros m H. apply bind_ret_inv in H as (s1 & _ & H). by injection H as _ <- _. }
  destruct c; cbn [process_card is_file]; rewrite ?Z.add_0_r; try (by apply Hb);
    intros H; try (by injection H as _ <- _);
    apply bind_ret_inv in H as (s1 & _ & H); by injection H as _ <- _.
Qed.

Lemma process_loop_count cards : ∀ s a b s' a' b', process_loop opts cards (s, a, b) = Ret (s', a', b') →
  a' = (a + zlen (filter (λ c, is_file c = true) cards))%Z.
Proof.
  induction cards as [|c cards IH]; intros s a b s' a' b'; cbn [process_loop].
  { intros [= _ <- _]. unfold zlen. cbn. lia. }
  intros H. apply bind_ret_inv in H as ([[s1 a1] b1] & H1 & H). apply process_card_count in H1 as ->.
  apply IH in H as ->. destruct (is_file c) eqn:E.
  - rewrite filter_cons_True by done. unfold zlen. cbn [length]. lia.
  - rewrite filter_cons_False by (rewrite E; done). lia.
Qed.

Lemma processResponse_count cards s s' b : processResponse opts cards s = Ret (s', b) →
  s_filesRecvdLastRound s' = zlen (filter (λ c, is_file c = true) cards).
Proof.
  unfold processResponse. intros H. apply bind_ret_inv in H as ([[s1 a] n] & H1 & H). cbv zeta in H.
  apply process_loop_count in H1. injection H as H.
  match type of H with converged _ _ _ ?s2 = _ => pose proof (fr_last _ _ (converged_frame opts a n s2)) as Hl end.
  rewrite H in Hl. cbn [fst] in Hl. rewrite Hl. cbn. lia.
Qed.

Lemma limited_snoc seen req : (∀ i r, seen !! i = Some r → limited (take i seen) r) → limited seen req →
  ∀ i r, (seen ++ [req]) !! i = Some r → limited (take i (seen ++ [req])) r.
Proof.
  intros H Hr i r. rewrite lookup_app. destruct (seen !! i) as [x|] eqn:E.
  - intros [= <-]. pose proof (lookup_lt_Some _ _ _ E). rewrite take_app_le by lia. by apply H.
  - apply lookup_ge_None in E. intros Hi. apply list_lookup_singleton_Some in Hi as [Hi <-].
    assert (i = length seen) as -> by lia. by rewrite take_app_length.
Qed.

Lemma kept_up_response s0 seen s s' : kept_up s0 seen s → good s s' → kept_up s0 seen s'.
Proof.
  intros [H1 H2 H3] H. split; [by etrans| |done]. intros Hs Ho Hc.
  pose proof (small_kept _ _ (go_rows _ _ H) Hs) as Hs2. destruct (go_sound _ _ H1 Hs2 Ho Hc) as (O2 & C2 & _).
  destruct (go_sound _ _ H Hs O2 C2) as (_ & _ & R). specialize (H2 Hs2 Ho Hc).
  eapply Forall_impl; [exact H2|]. intros r Hr. eapply Forall_impl; [exact Hr|]. intros c. by apply genuine_retains.
Qed.

(** The rounds of a session keep this up; none of them is lost to the server. *)
Lemma sync_loop_kept s0 n : ∀ seen s,
  kept_up s0 seen s → tables_ok s → s_filesRecvdLastRound s = last_files seen →
  match sync_loop opts any_server clock rnd n seen s with
  | Ret (seen', s') | Fail (seen', s', _) =>
    kept_up s0 seen' s' ∧ tables_ok s' ∧ length seen' ≤ length seen + n
  | _ => True
  end.
Proof.
  induction n as [|n IH]; intros seen s [K1 K2 K3] Ht Hl; cbn [sync_loop]; [split_and!; [done..|lia]|]. cbv zeta.
  set (cycle := MaxRounds - S n). set (s1 := on_s_received _ _). clearbody cycle.
  assert (frame s s1) as F1 by by apply frame_field.
  assert (∀ s', frame s s' → kept_up s0 seen s') as Hk.
  { intros s' F. split; [by etrans; [exact K1|apply frame_good]|by rewrite (fr_blobs _ _ F)|done]. }
  pose proof (buildRequest_spec opts (clock cycle) (rnd cycle) cycle s1) as Hreq.
  destruct (buildRequest _ _ _ _ s1) as [[s2 req]|[s2 e]| |]; cbn [wrap_err mbind outcome_bind]; try done.
  2: { cbn [fst snd]. split_and!; [apply Hk; by etrans|by apply (fr_tables _ _ Hreq), (fr_tables _ _ F1)|lia]. }
  destruct Hreq as [F2 Q2 Q3 Q4 Q5]. assert (frame s s2) as G2 by by etrans.
  pose proof (fr_tables _ _ G2 Ht) as Ht2.
  destruct (any_server seen req) as [[seen2 resp]|e| |] eqn:Ha; cbn [wrap_err mbind outcome_bind]; try done.
  2: { split_and!; [by apply Hk|done|lia]. }
  apply bind_ret_inv in Ha as (resp' & Ha & [= <- ->]).
  assert (kept_up s0 (seen ++ [req]) s2) as K'.
  { destruct (Hk s2 G2) as [H1 H2 _]. split; [done| |].
    - intros Hs Ho Hc. apply Forall_app. split; [by apply H2|]. constructor; [|done].
      rewrite (fr_blobs _ _ G2) in Hs |- *. destruct (go_sound _ _ K1 Hs Ho Hc) as (O1 & C1 & _).
      apply (fine_frame _ _ _ _ F1) in Q2. by apply (fi_genuine _ _ _ _ Q2).
    - apply limited_snoc; [done|]. split; [done|done|]. etrans; [exact Q5|]. unfold max_gimme.
      rewrite (fr_last _ _ F1), Hl. lia. }
  pose proof (processResponse_good opts resp s2 Ht2 (Hclean _ _ Ha)) as Hp.
  destruct (processResponse opts resp s2) as [[s3 dn]|[s3 e]| |] eqn:Ep; cbn [wrap_err mbind outcome_bind fst snd]; try done.
  - cbn in Hp. set (s4 := set_rounds _ _). assert (frame s3 s4) as F4 by by apply frame_field.
    assert (good s2 s4) as H24 by (etrans; [exact Hp|by apply frame_good]).
    pose proof (kept_up_response _ _ _ _ K' H24) as K4.
    assert (tables_ok s4) as Ht4 by by apply (go_tables _ _ H24).
    assert (s_filesRecvdLastRound s4 = last_files (seen ++ [req])) as Hl4.
    { rewrite (fr_last _ _ F4), (processResponse_count _ _ _ _ Ep). unfold last_files. rewrite Ha.
      rewrite decide_False by (by destruct seen). done. }
    destruct dn; [split_and!; [done|done|rewrite length_app; cbn; lia]|].
    specialize (IH (seen ++ [req]) s4 K4 Ht4 Hl4).
    destruct (sync_loop _ _ _ _ n _ s4) as [[w s']|[[w s'] e]| |]; try done;
      destruct IH as (I1 & I2 & I3); (split_and!; [done|done|]); rewrite length_app in I3; cbn in I3; lia.
  - cbn in Hp. set (s4 := add_bytes _ _ s3). assert (frame s3 s4) as F4 by by apply frame_field.
    assert (good s2 s4) as H24 by (etrans; [exact Hp|by apply frame_good]).
    split_and!; [by eapply kept_up_response|by apply (go_tables _ _ H24)|rewrite length_app; cbn; lia].
Qed.

(** The limits alone, which hold with any server. *)
Lemma sync_loop_limited n : ∀ seen s,
  (∀ i req, seen !! i = Some req → limited (take i seen) req) → s_filesRecvdLastRound s = last_files seen →
  match sync_loop opts any_server clock rnd n seen s with
  | Ret (seen', s') | Fail (seen', s', _) =>
    (∀ i req, seen' !! i = Some req → limited (take i seen') req) ∧ length seen' ≤ length seen + n
  | _ => True
  end.
Proof using codec zlaws sha3 sqlite sql floats json order olaws.
  induction n as [|n IH]; intros seen s HL Hl; cbn [sync_loop]; [split; [done|lia]|]. cbv zeta.
  set (cycle := MaxRounds - S n). set (s1 := on_s_received _ _). clearbody cycle.
  pose proof (buildRequest_spec opts (clock cycle) (rnd cycle) cycle s1) as Hreq.
  destruct (buildRequest _ _ _ _ s1) as [[s2 req]|[s2 e]| |]; cbn [wrap_err mbind outcome_bind fst snd]; try done;
    [|split; [done|lia]].
  destruct Hreq as [_ _ Q3 Q4 Q5].
  destruct (any_server seen req) as [[seen2 resp]|e| |] eqn:Ha; cbn [wrap_err mbind outcome_bind]; try done;
    [|split; [done|lia]].
  apply bind_ret_inv in Ha as (resp' & Ha & [= <- ->]).
  assert (∀ i r, (seen ++ [req]) !! i = Some r → limited (take i (seen ++ [req])) r) as HL'.
  { apply limited_snoc; [done|]. split; [done|done|]. etrans; [exact Q5|]. unfold max_gimme.
    change (s_filesRecvdLastRound s1) with (s_filesRecvdLastRound s). rewrite Hl. lia. }
  destruct (processResponse opts resp s2) as [[s3 dn]|[s3 e]| |] eqn:Ep; cbn [wrap_err mbind outcome_bind fst snd]; try done;
    [|split; [done|rewrite length_app; cbn; lia]].
  set (s4 := set_rounds _ _). destruct dn; [split; [done|rewrite length_app; cbn; lia]|].
  assert (s_filesRecvdLastRound s4 = last_files (seen ++ [req])) as Hl4.
  { change (s_filesRecvdLastRound s4) with (s_filesRecvdLastRound s3). rewrite (processResponse_count _ _ _ _ Ep).
    unfold last_files. rewrite Ha. rewrite decide_False by (by destruct seen). done. }
  specialize (IH (seen ++ [req]) s4 HL' Hl4).
  destruct (sync_loop _ _ _ _ n _ s4) as [[w s']|[[w s'] e]| |]; try done;
    destruct IH as (I1 & I3); (split; [done|]); rewrite length_app in I3; cbn in I3; lia.
Qed.

Lemma newSession_spec d cache s : newSession d cache opts = Ret s → registry_ok d →
  s_blobs s = d_repo d ∧ s_cache s = cache ∧ links_kept d (s_repo s) ∧ tables_ok s ∧ s_filesRecvdLastRound s = 0%Z.
Proof.
  intros H Hr. unfold newSession in H. destruct (so_UV opts).
  - destruct (Uv.List_ _) as [entries|e| |]; try done. injection H as <-. by split_and!.
  - injection H as <-. by split_and!.
Qed.

Lemma newSession_files d cache s : newSession d cache opts = Ret s → s_filesRecvdLastRound s = 0%Z.
Proof.
  intros H. unfold newSession in H. destruct (so_UV opts); [|by injection H as <-].
  destruct (Uv.List_ _) as [entries|e| |]; try done. by injection H as <-.
Qed.

(** Before the artifacts are crosslinked. *)
Definition sync_artifacts (d : db) (cache : option Cache) :
    outcome (list (list Card) * session * db_error) (list (list Card) * session) :=
  match newSession d cache opts with
  | Ret s => sync_loop opts any_server clock rnd MaxRounds [] s
  | Fail _ | Panic => Panic
  | NoFuel => NoFuel
  end.

Lemma sync_artifacts_kept d cache : registry_ok d →
  match sync_artifacts d cache with
  | Ret (seen, s) | Fail (seen, s, _) =>
    ∃ s0, kept_up s0 seen s ∧ s_blobs s0 = d_repo d ∧ s_cache s0 = cache ∧ links_kept d (s_repo s0) ∧
      length seen ≤ MaxRounds
  | _ => True
  end.
Proof.
  intros Hr. unfold sync_artifacts. destruct (newSession d cache opts) as [s0|e| |] eqn:Hn; try done.
  destruct (newSession_spec _ _ _ Hn Hr) as (N1 & N2 & N3 & N4 & N5).
  assert (kept_up s0 [] s0) as K by (split; [done|done|by intros i req [=]]).
  assert (s_filesRecvdLastRound s0 = last_files []) as Hl by (unfold last_files; by destruct (answer [])).
  pose proof (sync_loop_kept s0 MaxRounds [] s0 K N4 Hl) as H.
  destruct (sync_loop _ _ _ _ MaxRounds [] s0) as [[w s]|[[w s] e]| |]; try done;
    destruct H as (H1 & _ & H2); by exists s0.
Qed.

Lemma Sync_artifacts d cache : Sync opts any_server clock rnd d cache [] =
  '(seen, s) ← sync_artifacts d cache;
  match Crosslink (s_repo s) with
  | Ret (d, linked) => Ret (seen, set_linked linked (set_db d s))
  | Fail (d, _, e) => Fail (seen, set_db d s, e)
  | Panic => Panic
  | NoFuel => NoFuel
  end.
Proof. unfold Sync, sync_artifacts. by destruct (newSession d cache opts). Qed.
End rounds.

(** ** Properties *)

(** What the session leaves, whether it succeeds or not. *)
Definition session_leaves {W : Type} (P : W → session → Prop)
    (m : outcome (W * session * db_error) (W * session)) : Prop :=
  match m with Ret (w, s) | Fail (w, s, _) => P w s | Panic | NoFuel => True end.

(** C15. A session is safe with any server whose responses name the tables and
    the values of rows by plain identifiers ([clean_response]; the client pastes
    the names into statements, see the findings), and that may otherwise answer
    anything. It starts from a consistent repository with a coherent cache,
    whose registry of tables holds plain identifiers and whose check-ins are
    linked ([links_ok]) and complete. Whether or not the session succeeds, the
    repository is consistent afterwards, the cache coherent, all artifacts it
    had are there, the check-ins are linked and complete, and every file in
    every request was an artifact of the repository, whole, with the hash it was
    sent under. Artifacts are below 4 GiB ([small]). *)
Theorem Sync_sound {codec : Zlib} {zlaws : ZlibLaws} {sha3 : Sha3} {sqlite : Sqlite} {sql : Sql}
    {exec : SqlExecLaws} {floats : Floats} {json : Json} {jlaws : JsonLaws} {order : Unordered}
    {olaws : UnorderedLaws} {unicode : Unicode} opts clock rnd answer d cache
    (Hclean : ∀ seen resp, answer seen = Ret resp → Forall clean_response resp)
    (Hreg : registry_ok d) (Hok : repo_ok (d_repo d)) (Hcache : coherent cache (d_repo d))
    (Hlinks : links_ok d) (Hcomplete : checkins_complete d) :
  session_leaves (λ seen s, small (s_blobs s) →
      repo_ok (s_blobs s) ∧ coherent (s_cache s) (s_blobs s) ∧ retains (d_repo d) (s_blobs s) ∧
      links_ok (s_repo s) ∧ checkins_complete (s_repo s) ∧ Forall (Forall (genuine (s_blobs s))) seen)
    (Sync opts (any_server answer) clock rnd d cache []).
Proof.
  unfold session_leaves. rewrite Sync_artifacts. pose proof (sync_artifacts_kept opts clock rnd answer Hclean d cache Hreg) as H.
  assert (∀ seen s s0, kept_up opts answer s0 seen s → s_blobs s0 = d_repo d → s_cache s0 = cache →
    links_kept d (s_repo s0) → small (s_blobs s) →
    repo_ok (s_blobs s) ∧ coherent (s_cache s) (s_blobs s) ∧ retains (d_repo d) (s_blobs s) ∧
    links_ok (s_repo s) ∧ checkins_complete (s_repo s) ∧ Forall (Forall (genuine (s_blobs s))) seen) as Hs.
  { intros seen s s0 [K1 K2 _] E1 E2 Hl Hsm. destruct (go_sound _ _ K1 Hsm) as (O & C & R); [by rewrite E1|by rewrite E1, E2|].
    rewrite E1 in R. assert (d_links (s_repo s) = d_links d) as El.
    { transitivity (d_links (s_repo s0)); [apply (go_links _ _ K1)|apply Hl]. }
    split_and!; [done|done|done|by eapply (links_received d)|by eapply (complete_received d)|].
    apply K2; [done|by rewrite E1|by rewrite E1, E2]. }
  destruct (sync_artifacts _ _ _ _ d cache) as [[seen s]|[[seen s] e]| |]; cbn [mbind outcome_bind]; try done;
    destruct H as (s0 & K & E1 & E2 & E3 & _); [|by eapply Hs].
  assert (∀ d', repo_grows (s_blobs s) (d_repo d') → (repo_ok (s_blobs s) → links_ok (s_repo s) →
      checkins_complete (s_repo s) → links_ok d' ∧ checkins_complete d') → small (d_repo d') →
    repo_ok (d_repo d') ∧ coherent (s_cache s) (d_repo d') ∧ retains (d_repo d) (d_repo d') ∧
    links_ok d' ∧ checkins_complete d' ∧ Forall (Forall (genuine (d_repo d'))) seen) as Hdone.
  { intros d' Hg Hk Hsm. pose proof (extends_retains _ _ (rg_extends _ _ Hg)) as Hr.
    destruct (Hs seen s s0) as (O & C & R & L & M & G); [done..|by eapply small_kept, Hsm; apply (rt_rows _ _ Hr)|].
    destruct (Hk O L M) as [L' M']. split_and!; [by apply Hg|by eapply coherent_retains|by etrans|done|done|].
    eapply Forall_impl; [exact G|]. intros r Hq. eapply Forall_impl; [exact Hq|]. intros c. by apply genuine_retains. }
  pose proof (Crosslink_grows (s_repo s)) as Hg. pose proof (Crosslink_keeps (s_repo s)) as Hk.
  destruct (Crosslink (s_repo s)) as [[d' n]|[[d' n] e]| |]; try done; intros Hsm; apply (Hdone d' Hg); try done;
    intros O L M; apply (Hk O L M).
Qed.

(** C16. A session is bounded, whatever the server answers and whatever the
    repository holds: there are at most 100 requests, and each is within its
    limits. The files of a request, all but the last together, are smaller than
    the budget ([maxSend]), and so are its unversioned files; and no request
    asks for more than 200 artifacts, or twice the number of files that the last
    response brought. *)
Theorem Sync_bounds {codec : Zlib} {zlaws : ZlibLaws} {sha3 : Sha3} {sqlite : Sqlite} {sql : Sql}
    {floats : Floats} {json : Json} {order : Unordered} {olaws : UnorderedLaws} {unicode : Unicode}
    opts clock rnd answer d cache :
  session_leaves (λ seen _, length seen ≤ MaxRounds ∧
      ∀ i req, seen !! i = Some req → limited opts answer (take i seen) req)
    (Sync opts (any_server answer) clock rnd d cache []).
Proof.
  unfold session_leaves. rewrite Sync_artifacts. unfold sync_artifacts.
  destruct (newSession d cache opts) as [s0|e| |] eqn:Hn; cbn [mbind outcome_bind]; try done.
  assert (s_filesRecvdLastRound s0 = last_files answer []) as Hl.
  { rewrite (newSession_files _ _ _ _ Hn). unfold last_files. by destruct (answer []). }
  assert (∀ i req, [] !! i = Some req → limited opts answer (take i []) req) as H0 by (by intros i req [=]).
  pose proof (sync_loop_limited opts clock rnd answer MaxRounds [] s0 H0 Hl) as H.
  destruct (sync_loop _ _ _ _ MaxRounds [] s0) as [[w s]|[[w s] e]| |]; cbn [mbind outcome_bind]; try done;
    destruct H as [H1 H2]; [|done].
  by destruct (Crosslink (s_repo s)) as [[d' n]|[[d' n] e]| |].
Qed.

(** C17. A session that was not asked to sync private artifacts keeps them to
    itself: no request carries a private artifact, announces one or asks for
    one, whatever the server asked for, no file is a delta against another
    artifact, and no pragma is sent but the four that name no artifact and, if
    the session was told to ask for a check-in lock, that lock with the parent
    it was given. *)
Theorem buildRequest_private {codec : Zlib} {zlaws : ZlibLaws} {sha3 : Sha3} {sqlite : Sqlite} {sql : Sql}
    {floats : Floats} {json : Json} {order : Unordered} {olaws : UnorderedLaws} opts now rb cycle s s' cards
    (Hprivate : so_Private opts = false) (Hreq : buildRequest opts now rb cycle s = Ret (s', cards)) :
  s_blobs s' = s_blobs s ∧ Forall (kept_private opts (s_blobs s)) cards.
Proof.
  pose proof (buildRequest_spec opts now rb cycle s) as H. rewrite Hreq in H.
  split; [apply (fr_blobs _ _ (rq_frame _ _ _ _ H))|by apply (fi_private _ _ _ _ (rq_fine _ _ _ _ H))].
Qed.

(** ** Witnesses *)

#[local] Existing Instance stored.
#[local] Existing Instance stored_laws.
#[local] Existing Instance test_sha3.
#[local] Existing Instance test_sqlite.
#[local] Existing Instance test_sql.
#[local] Existing Instance test_sql_exec.
#[local] Existing Instance test_floats.
#[local] Existing Instance test_json.
#[local] Existing Instance test_lock_json.
#[local] Existing Instance test_error_text.
#[local] Existing Instance test_order.
#[local] Existing Instance test_order_laws.
#[local] Existing Instance test_unicode.

#[local] Instance test_json_laws : JsonLaws.
Proof. split. intros cols cols' _ H. assert (Some [] = Some cols') as H2 by exact H. injection H2 as <-. constructor. Qed.

Definition plain_opts (push pull uv : bool) : SyncOpts := MkSyncOpts push pull [] [] [] [] 0 uv false false None.

(** The project of the client's and of the server's repository. *)
Definition project (q : repo) (d : db) : db :=
  on_config <[str "project-code" := MkConfigRow code_a None]> (on_repo (λ _, q) d).
Definition client (q : repo) : db := project q CreateRepoSchema.

(** Announces an artifact, sends it when it is asked for, and then asks for
    another. *)
Definition two_rounds (seen : list (list Card)) : out (list Card) :=
  match length seen with
  | 1 => Ret [CardIGot (MkIGot (sha1_hex text_a) false)]
  | 2 => Ret [CardFile (MkFile (sha1_hex text_a) [] (Some text_a))]
  | 3 => Ret [CardGimme (sha1_hex text_a)]
  | _ => Ret []
  end.

Lemma two_rounds_clean seen resp : two_rounds seen = Ret resp → Forall clean_response resp.
Proof.
  unfold two_rounds. destruct (length seen) as [|[|[|[|n]]]]; intros [= <-]; repeat constructor.
Qed.

Definition session_ended (m : outcome (list (list Card) * session * db_error) (list (list Card) * session)) : list nat :=
  match m with
  | Ret (seen, s) => map (λ r, length (filter (λ c, is_file c = true) r)) seen
  | _ => []
  end.

Lemma client_registry q : registry_ok (client q).
Proof. intros t name row. cbn. discriminate. Qed.

Lemma Sync_bounds_witness :
  session_ended (Sync (plain_opts true true false) (any_server two_rounds) (λ _, 0%Z) (λ _, []) (client empty_repo) None [])
    = [0; 0; 0; 1] ∧
  session_leaves (λ seen _, length seen ≤ MaxRounds ∧
      ∀ i req, seen !! i = Some req → limited (plain_opts true true false) two_rounds (take i seen) req)
    (Sync (plain_opts true true false) (any_server two_rounds) (λ _, 0%Z) (λ _, []) (client empty_repo) None []).
Proof.
  split; [vm_compute; reflexivity|].
  exact (Sync_bounds (plain_opts true true false) (λ _, 0%Z) (λ _, []) two_rounds (client empty_repo) None).
Defined.

Lemma empty_links d : d_links d = no_links → links_ok d ∧ checkins_complete d.
Proof. intros Hd. destruct (links_ok_new d Hd) as [Hl Hno]. split; [exact Hl|]. intros o Ho. destruct (Hno o Ho). Qed.

Lemma Sync_sound_witness :
  session_leaves (λ seen s, small (s_blobs s) →
      repo_ok (s_blobs s) ∧ coherent (s_cache s) (s_blobs s) ∧ retains (d_repo (client empty_repo)) (s_blobs s) ∧
      links_ok (s_repo s) ∧ checkins_complete (s_repo s) ∧ Forall (Forall (genuine (s_blobs s))) seen)
    (Sync (plain_opts true true false) (any_server two_rounds) (λ _, 0%Z) (λ _, []) (client empty_repo) None []).
Proof.
  exact (Sync_sound (plain_opts true true false) (λ _, 0%Z) (λ _, []) two_rounds (client empty_repo) None two_rounds_clean (client_registry empty_repo) empty_ok (coherent_none _)
    (proj1 (empty_links (client empty_repo) eq_refl)) (proj2 (empty_links (client empty_repo) eq_refl))).
Defined.

(** A private artifact that the server asks for. *)
Definition secretive : db := client (with_private (λ _, {[1%Z]}) repo_a).

Lemma buildRequest_private_witness : ∃ s s' cards,
  s_pendingSend s = {[ sha1_hex text_a ]} ∧
  buildRequest (plain_opts true true false) 0 [] 1 s = Ret (s', cards) ∧
  s_blobs s' = s_blobs s ∧ Forall (kept_private (plain_opts true true false) (s_blobs s)) cards.
Proof.
  destruct (newSession secretive None (plain_opts true true false)) as [s0|e| |] eqn:E0; [|discriminate E0..].
  pose (s := on_s_pendingSend (λ _, {[ sha1_hex text_a ]}) s0). injection E0 as <-.
  assert (match buildRequest (plain_opts true true false) 0 [] 1 s with Ret _ => true | _ => false end = true) as Hr
    by (vm_compute; reflexivity).
  destruct (buildRequest (plain_opts true true false) 0 [] 1 s) as [[s' cards]|e| |] eqn:E; [|discriminate Hr..].
  exists s, s', cards. split; [reflexivity|]. split; [exact E|].
  exact (buildRequest_private (plain_opts true true false) 0 [] 1 s s' cards eq_refl E).
Defined.

(** ** What sessions do not do *)

(** A server that handles every request as [handler.process] does. *)
Definition respond (d : db) (cards : list Card) : out (db * list Card) :=
  match process 0 (new_handler d None) cards with
  | Ret h => Ret (h_repo h, h_resp h)
  | Fail (_, e) => Fail e
  | Panic => Panic
  | NoFuel => NoFuel
  end.
Definition peer (q : repo) (caps : bytes) : db := project q (server caps ∅).

(** How a session ends: the error, the rounds and the uuids of the artifacts that
    the client and the server then have. *)
Definition uuids_of (q : repo) : list bytes :=
  map (λ p, b_uuid p.2) (filter (λ p, (0 ≤ b_size p.2)%Z) (map_to_list (t_blob q))).
Inductive ending := Ended (rounds : Z) (mine theirs : list bytes) | Failed (e : db_error) (rounds : Z) | Crashed.
Definition ending_of (m : outcome (db * session * db_error) (db * session)) : ending :=
  match m with
  | Ret (w, s) => Ended (r_Rounds (s_result s)) (uuids_of (s_blobs s)) (uuids_of (d_repo w))
  | Fail (_, s, e) => Failed e (r_Rounds (s_result s))
  | _ => Crashed
  end.
Definition run_sync (opts : SyncOpts) (mine theirs : db) : ending :=
  ending_of (Sync opts respond (λ _, 0%Z) (λ _, []) mine None theirs).

Example pushed : run_sync (plain_opts true true false) (client repo_a) (peer empty_repo (str "io"))
  = Ended 2 [sha1_hex text_a] [sha1_hex text_a].
Proof. vm_compute. reflexivity. Qed.

(** A client that only pulls announces its artifacts all the same; the server asks
    for the one it lacks, and the client never sends it: the session only ends when
    it runs out of rounds. *)
Example pull_never_ends : run_sync (plain_opts false true false) (client repo_a) (peer empty_repo (str "io"))
  = Failed ERounds 100.
Proof. vm_compute. reflexivity. Qed.

(** A phantom that the server announces is never asked for. *)
Definition with_phantom : repo :=
  match StorePhantom empty_repo (sha1_hex text_a) with Ret (q, _) => q | _ => empty_repo end.
Example announced_phantom_ignored :
  run_sync (plain_opts true true false) (client with_phantom) (peer repo_a (str "io")) = Ended 1 [] [sha1_hex text_a].
Proof. vm_compute. reflexivity. Qed.

(** An artifact in [unsent] that is private is never announced, and stays there. *)
Example private_unsent_stuck :
  run_sync (plain_opts true true false) (on_unsent (λ _, {[1%Z]}) secretive) (peer empty_repo (str "io"))
  = Failed ERounds 100.
Proof. vm_compute. reflexivity. Qed.

(** The mark of a private artifact that cannot be loaded is given to the next one. *)
Definition private_opts : SyncOpts := MkSyncOpts true true [] [] [] [] 0 false false true None.
Definition unreadable : repo :=
  with_private (λ _, {[2%Z]}) (with_blob <[2%Z := MkBlob (str "zz") 3 (Some (str "?")) 0]> repo_a).
Definition marked (m : stepped (session * list Card)) : list Card :=
  match m with Ret (_, cards) => cards | _ => [] end.
Example stray_private_card : ∃ s,
  newSession (client unreadable) None (private_opts) = Ret s ∧
  marked (file_cards (private_opts) [str "zz"; sha1_hex text_a] 1000 s)
  = [CardPrivate; CardFile (MkFile (sha1_hex text_a) [] (Some text_a))] ∧ 1%Z ∉ t_private (s_blobs s).
Proof. eexists. split; [reflexivity|]. split; [vm_compute; reflexivity|by_decide]. Qed.

(** A client that only pulls sends its unversioned files. *)
Definition with_note : db :=
  on_uv (λ _, Some {[ str "f" := MkUVRow 5 (Some (str "h")) 1 0 (Some (str "x")) ]}) (client empty_repo).
Example pull_sends_unversioned : ∃ s,
  newSession with_note None (plain_opts false true true) = Ret s ∧
  match uv_file_cards (plain_opts false true true) (on_uvFlags (λ _, true) (λ _, true) id s) with
  | Ret (_, [CardUVFile f]) => uf_Name f = str "f"
  | _ => False
  end.
Proof. eexists. split; [reflexivity|]. vm_compute. reflexivity. Qed.

(** Once the list of unversioned files to send was cleared, it is nil, and a file
    that the server then announces makes the client panic. *)
Example cleared_list_panics : ∃ s,
  newSession with_note None (plain_opts true true true) = Ret s ∧
  (converged (plain_opts true true true) 0 0 s).2 = true ∧
  us_toSend (s_uv (converged (plain_opts true true true) 0 0 s).1) = None ∧
  handleUVIGotCard (converged (plain_opts true true true) 0 0 s).1 (MkUVIGot (str "f") 5 (str "g") 1) = Panic.
Proof.
  eexists. split; [reflexivity|]. repeat split; vm_compute; reflexivity.
Qed.

(** A row that is null makes the client panic. *)
Example null_row_response_panics : ∃ s,
  newSession (client empty_repo) None (plain_opts true true false) = Ret s ∧
  handleXRowResponse s (Xfer.MkXRow (str "t") (str "h") 0 (Some (str "null"))) = Panic.
Proof. eexists. split; [reflexivity|]. vm_compute. reflexivity. Qed.
